(* ===== verification/_CoqProject ===== *)
-Q . S2P
Prelude.v
Text.v
Float64.v
Combine.v
Errors.v
Types.v
Parser.v
Codec.v
Cmd.v
Writers.v
Convert.v
Args.v
Digest.v
Pipeline.v
Slots.v
Routing.v
Commands.v
Streams.v
Geo.v
Acl.v
Json.v
VectorSets.v
Search.v
Multiplexed.v
Subscription.v
Caching.v
Effects.v
Mock.v
Bloom.v
Hotkeys.v
Tls.v
ConnInfo.v
Connection.v
Dialing.v
Manager.v
Clients.v
AsyncIter.v
Aio.v
Runtimes.v
Auth.v
AsyncClient.v
Requests.v
ClusterClient.v
ClusterBuilder.v
ClusterSync.v
Sentinel.v
Pools.v
ClusterRequest.v
ClusterInner.v
ClusterAsync.v
ClusterPush.v
