(* ===== verification/Prelude.v ===== *)
(** * A verification development for redis-rs

    redis-rs is a Redis client for Rust.  A user builds a command or a pipeline
    of commands; the client packs it into the RESP wire format, sends it over a
    connection, decodes the replies and converts them to the types asked for.
    On top of that it shares one connection between many requests, keeps a
    client-side cache, remembers subscriptions, and in a cluster decides which
    nodes a command goes to and how their replies are put together.

    ** The files and the source they model (paths below [src/redis/src/])

    - [Prelude]: byte strings, [Result], machine integers, hash order,
      automation and the generic lemmas.
    - [Text], [Float64]: the functions of the Rust standard library on text and
      doubles that the code calls (printing and parsing of integers, UTF-8,
      splitting, [str::parse::<f64>()]).
    - [Combine]: the combinators of the combine crate as a class with its
      documented laws, and an instance of it.
    - [Errors]: [errors/server_error.rs], [errors/redis_error.rs],
      [errors/parsing_error.rs], and [err_parser] of [parser.rs].
    - [Types]: [Value] and the reply types of [types.rs], [extract_error].
    - [Parser]: [value] and [Parser::parse_value] of [parser.rs]; every closure
      of [value] is a definition.  [Codec]: [ValueCodec] of [parser.rs].
    - [Cmd]: the builder, the argument iterator, lengths and packing of
      [cmd.rs].  [Writers]: the trait [RedisWrite] of [types.rs] with its two
      implementations.
    - [Convert]: [FromRedisValue] and [ToRedisArgs] of [types.rs], each
      implementation a record of the trait's methods.  [Digest]: comparisons with
      stored values and their digests, and the conversions of [types.rs] for C
      strings, pointers and types of other crates.
    - [Pipeline]: [pipeline.rs] and [cluster_handling/sync_connection/pipeline.rs].
    - [Slots]: [cluster_handling/slot_range_map.rs], [slot_map.rs],
      [topology.rs], [read_routing/] and node addresses.
    - [Routing]: [cluster_handling/routing.rs] and the command tables of
      [commands/mod.rs].
    - [Args]: [ToRedisArgs] as a class, commands as chains of arguments, and the
      option types of [commands/mod.rs].  [Commands]: the builders of
      [implement_commands!] that need no optional feature, one definition each.
      [Streams], [Geo], [Acl], [VectorSets], [Bloom], [Hotkeys]: the files of
      those names below [commands/] (and [bloom.rs]) with their builders.
      [Json]: [commands/json.rs].  [Search]: [commands/search/].
    - [Multiplexed]: the [PipelineSink] of [aio/multiplexed_connection.rs] as a
      state machine, and the request functions around it.
    - [Subscription]: [subscription_tracker.rs].
    - [Caching]: [caching/].
    - [Effects]: operations on a connection as a state and error monad that
      keeps the state of a failed operation; the trait [ConnectionLike] as a
      class.  [Tls]: certificates of [tls.rs], the rustls configuration of
      [connection.rs] and its verifiers.  [ConnInfo]: addresses, URLs, connection
      settings and the set-up pipeline of [connection.rs].  [Connection]: the
      synchronous [Connection], its replies, push messages and pub/sub state, and
      [PubSub].  [Dialing]: [io/tcp.rs], and [ActualConnection::new] and [connect]
      of [connection.rs].  [Clients]: what runs on any connection: cursors,
      transactions, [script.rs].  [AsyncIter]: the stream around a cursor.
    - [Manager]: [aio/connection_manager.rs] and the connection configuration of
      [client.rs]; the manager is a state machine.
    - [Aio]: [aio/mod.rs], [aio/connection.rs], [aio/monitor.rs],
      [aio/runtime.rs] and, in the module [PubSub], [aio/pubsub.rs], whose task
      is a state machine.  [Runtimes]: connecting in [aio/tokio.rs] and
      [aio/smol.rs].  [Auth]: [auth.rs], [auth_management.rs],
      [entra_id.rs], with the construction of the multiplexed connection and its
      re-authentication; the credentials provider is a state machine.
      [AsyncClient]: the asynchronous constructors of [client.rs].
      [Requests]: the requests of the multiplexed connection with cache and
      concurrency limit, and [PubSubCommands] of [commands/mod.rs].
    - [Mock]: [redis-test/src/lib.rs].
    - [ClusterClient]: [cluster_handling/client.rs].  [ClusterBuilder]: the
      setters of its builder.  [ClusterSync]:
      [cluster_handling/sync_connection/mod.rs].
    - [Sentinel]: [sentinel.rs].  [Pools]: requests directly on a [Client] and its
      TLS constructor, the constructors of [ClusterClient], and the checks of
      [bb8.rs] and [r2d2.rs].
    - [ClusterRequest], [ClusterInner], [ClusterAsync]:
      [cluster_handling/async_connection/] ([request.rs] and [routing.rs]; the
      queue of requests as a state machine; connections, attempts and repair).
      [ClusterPush]: construction and the forwarding of push messages,
      [addressed_push_sender.rs] included.

    The components call each other as in the code: [Codec] resumes [Parser];
    [Cmd] produces what [Parser] reads; [Commands] builds with [Args] what [Cmd]
    holds; [Pipeline] packs commands of [Cmd] and converts with [Convert];
    [Routing] reads a [Cmd] (or its wire form) through the class [Routable] and
    yields a [Route] that [Slots] resolves to a node; [Multiplexed] delivers what
    [Codec] decodes; [Caching] rewrites commands and pipelines before they are
    sent and resolves their replies; [Connection] is an instance of
    [ConnectionLike], against which [Clients], [Bloom] and [Hotkeys] are written;
    [ClusterSync] and [Sentinel] reach nodes through the classes [Connect] and
    [Dial], which the synchronous connection implements, [ClusterAsync] through
    [AsyncConnect]; [Manager] resubscribes with [Subscription] and gives every
    connection an epoch of [Caching]; [Aio] sets connections up with the pipeline
    of [ConnInfo] as [Connection] does; [Auth] authenticates them with the
    credentials of its provider; [Requests] sends what [Caching] prepares.

    ** What the theorems show

    - Wire format.  The parser reads back every value that has a wire form up
      to the nesting limit, refuses deeper ones, and its answer depends only on
      the bytes it consumed; the codec yields the same values however the stream
      is cut into packets; packed commands and pipelines are decoded as the
      arguments they were built from, and [cmd_len] is their exact size.
    - Commands and pipelines.  The offset representation of a command
      implements a list of arguments; a pipeline response contains exactly the
      replies not ignored, or exactly the errors.
    - Shared connection.  For every interleaving each request gets the replies
      that answer it, and in every reachable state no request was answered
      twice.
    - Caching.  A lookup only returns the value last inserted for that key and
      command, neither invalidated nor expired; with a coherent cache a pipeline
      that writes none of the keys it looks up gives the replies, and has the
      effect, that it would have had without the cache.
    - Builders.  Every builder that takes a key makes a command that a cluster
      sends to a node of the slot of the key, and announces the right numbers of
      fields and keys; replies to stream, ACL, geospatial and HOTKEYS commands
      are read as they were sent; FT.CREATE can be read back; the dump iterator
      ends with all chunks.
    - Connections.  On the synchronous connection every request gets its own
      reply, time-outs included, and pipelines give what the multiplexed
      connection gives as long as no push message precedes the skipped replies;
      a subscriber whose reads do not fail gets every message once and in order;
      the set-up checks the right replies; URLs are understood as written; cursors
      and transactions end, and polling an asynchronous cursor gives the items of
      the synchronous one.  A connection that [connect] returns has the options and
      the transport asked for and no time-out of the set-up left; a TLS
      configuration accepts exactly the servers it should; both runtimes make the
      same connections; a request on a client sends the commands of
      the set-up and the request, is answered, from opening the socket to the
      reply, or not made if the set-up is refused, and requests do not share
      state.
    - Connection manager.  However tasks interleave, a broken connection is
      replaced once and no request that begins later is sent on it, confirmed
      subscriptions are made on the new one unless they were cancelled by name,
      and no two connections share an epoch of the cache.  The tracker of
      subscriptions holds the channels that the last command to name them
      subscribed to.
    - Asynchronous connections.  Set-up gives the same result as on the
      synchronous connection; on a pub/sub connection every request is answered
      once, confirmations (by position) and messages keep their order, and nothing is left
      waiting when the task ends; connecting ends, without a panic, and succeeds if
      one address does;
      transactions end with UNWATCH.  A connection follows the credentials of
      its provider whatever the interleaving; the object id is read from a
      token; the concurrency limit is kept without deadlock; a command gets the
      same reply with and without the cache; a mock accepts exactly the
      conversation it was given.
    - Cluster.  A slot is answered by a node of the range that owns it, a
      command on keys of several slots is split by slot and the recombined
      replies are in the order of the original keys, every part having gone to a
      node that holds its keys.  A request is answered by the owner of its slot
      even if the slot map is out of date, as long as the nodes it names are up;
      a refresh keeps no connection that it has not checked; requests of the
      asynchronous connection are neither lost nor answered twice and tried a
      bounded number of times; repair of a connection ends; both cluster
      connections combine replies alike.  Of the settings of a builder the last of
      each kind wins; push messages of the nodes are passed on once and in order.
    - Sentinel.  The master found is the first that is reported and confirms it,
      unless one before it cannot be asked; broken connections to sentinels are
      replaced.
    - Errors and conversions.  All ways of writing an argument agree, digests are
      well-formed.  Error lines and redirects are understood, the two
      forms of every conversion agree, integers are read back as written.
    - Defects.  A few lemmas state where the code departs from its intention
      (a missing last value of MSET, a refused MULTI, ambiguous cache keys, a
      push message counted as a reply, MSETEX routed by its count, a
      subscription lost while the manager reconnects, a refused SUBSCRIBE reported
      as a success, a token refresh that one slow subscriber stops, a TLS
      handshake that panics, certificates that are dropped, ...).

    ** Conventions

    - Bytes are the Standard Library's [byte]; [str] and [String] are their
      UTF-8 bytes.  Integers are [Z] with their bounds, casts and wrap-around
      written out; lengths and indices of vectors are [nat].  A pointer has 64
      bits.
    - A panic is [None] of an option around the result.  Arithmetic that
      overflows panics or wraps according to [BuildProfile], and the
      theorems hold for either setting.
    - Of the texts of errors those that are constant are kept; what is formatted
      into one (the position of a parse error in the buffer, for instance) is
      left out, so that equal errors are equal up to it.
    - The iteration order of [HashMap] and [HashSet] is any permutation
      ([HashOrder]).
    - The feature set is the default one with the cluster, caching and async
      parts; big numbers are those of the build without num-bigint.  The features
      that choose a TLS crate are the parameters [TlsFeatures].
    - Third-party crates and services are classes with laws where the code
      relies on them, each with an instance that satisfies them: [Combine] and
      [DecodeTokio] (combine), [Rand] and [RandRange] (rand), [LruCache] (lru),
      [Backon] (backon), [UrlCrate] (url), [Connect], [Dial], [AsyncConnect]
      (nodes and their sockets), [Network] and [AsyncNetwork] (the sockets of the
      system and of the runtimes, native_tls), [Pem] and [Rustls] (rustls),
      [BigNum] (decimal crates), [Xxh3] (xxhash), [ArrivalOrder] and [select_ok_spec] (futures),
      [AzureIdentity] (azure_identity);
      [Crc16], [Sha1], [KeyHash], [Clock], [Ryu], [F64Display], [ErrorDisplay]
      and the serialisers of [Json] and [VectorSets] are arbitrary functions.
    - Concurrent parts ([Multiplexed], [ClusterInner], [Manager], [Aio], [Auth],
      the limit in [Requests]) are step
      functions on an explicit state; what the network and the scheduler choose
      is part of the step, and the theorems quantify over all sequences.

    ** Bounds and fuel

    - [value_at] recurses on the nesting levels left, [MAX_RECURSE_DEPTH] at the
      start, where the source counts upwards from 1; there is no other fuel in
      the parser.
    - [itoa] divides by ten with as much fuel as the number has bits, and the
      digit counter of [cmd.rs] with the six rounds a 64-bit length can need;
      both are proved exact.
    - The splitting loop of [Routing] has one unit of fuel per argument and one
      more, enough since each round takes an argument; draining the codec has
      one per byte, enough since each value takes one.
    - Loops that read from a connection have one unit of fuel per message that
      has arrived: when it is used up, the operation waits.  Cursors,
      transactions and dumps take a bound on the rounds, and their theorems say
      which bound is enough.  The retry loop of the synchronous cluster
      connection recurses on the retries left, the repair loop of the
      asynchronous one has one unit per attempt allowed and one more.

    ** Not modelled

    Sockets, timers and spawned tasks are I/O: what they answer is a parameter, and
    the order in which tasks run is part of the steps.  Polling of a stream in the
    runtimes hands on to the stream inside.  The servers that redis-test starts and
    the test macros are not part of the client.  Rendering with [Display] and
    [Debug] is left out, because it depends on the Unicode tables of the standard
    library and no decision of the code reads it, except where an address or a
    number is printed into a command or a message, which is modelled.  [Vec]
    capacities, plain accessors and the copies of a trait for references have no
    behaviour of their own; neither has [TokenRefreshConfig], which nothing reads.
    The asynchronous copies of a function whose text is that of the synchronous one
    ([script.rs], [sentinel.rs], [pipeline.rs]) are the same definition. *)

From stdpp Require Export base tactics list gmap strings numbers sorting.
From Stdlib Require Export Strings.Byte ZArith Lia.

(** ** Byte strings *)

Abbreviation byte := Byte.byte.
Abbreviation bytes := (list byte).

#[export] Instance byte_eq_dec : EqDecision byte := Byte.byte_eq_dec.

#[export] Program Instance byte_countable : Countable byte :=
  inj_countable Byte.to_N Byte.of_N _.
Next Obligation. intros x. apply Byte.of_to_N. Qed.

#[export] Instance byte_inhabited : Inhabited byte := populate x00.

(** A literal byte string, as Rust's [b"..."] and ["..."]. *)
Definition bs (s : string) : bytes := String.list_byte_of_string s.

Definition CR : byte := x0d.
Definition LF : byte := x0a.
Definition CRLF : bytes := [CR; LF].

(** Numeric value of a byte, as [b as i64]. *)
Definition byte_Z (b : byte) : Z := Z.of_N (Byte.to_N b).

(** The byte with a given value; [x00] outside 0..255 (never used there). *)
Definition Z_byte (z : Z) : byte := default x00 (Byte.of_N (Z.to_N z)).

Definition bytes_eqb (a b : bytes) : bool := bool_decide (a = b).

(** Membership of a command name in a list of literals: a Rust or-pattern. *)
Definition one_of (x : bytes) (l : list string) : bool :=
  existsb (fun s => bytes_eqb x (bs s)) l.

(** ** Results *)

(** Rust's [Result<A, E>]. *)
Inductive result (E A : Type) : Type :=
| Ok (a : A)
| Err (e : E).
Arguments Ok {E A} a.
Arguments Err {E A} e.

#[export] Instance result_ret E : MRet (result E) := fun A a => Ok a.
#[export] Instance result_bind E : MBind (result E) := fun A B f r =>
  match r with Ok a => f a | Err e => Err e end.
#[export] Instance result_fmap E : FMap (result E) := fun A B f r =>
  match r with Ok a => Ok (f a) | Err e => Err e end.

Definition map_err {E F A} (f : E -> F) (r : result E A) : result F A :=
  match r with Ok a => Ok a | Err e => Err (f e) end.
Definition ok_or {E A} (o : option A) (e : E) : result E A :=
  match o with Some a => Ok a | None => Err e end.
(** [Result::ok] *)
Definition to_option {E A} (r : result E A) : option A :=
  match r with Ok a => Some a | Err _ => None end.
Definition is_ok {E A} (r : result E A) : bool :=
  match r with Ok _ => true | Err _ => false end.

(** Collecting into a [Result]: the first error, or all values. *)
Fixpoint collect_results {E A} (l : list (result E A)) : result E (list A) :=
  match l with
  | [] => Ok []
  | r :: l => a ← r; l ← collect_results l; Ok (a :: l)
  end.

Lemma collect_results_Ok {E A} (l : list (result E A)) xs : collect_results l = Ok xs <-> l = map Ok xs.
Proof.
  revert xs. induction l as [|[x|e] l IH]; intros xs; simpl.
  - split; [by intros [= <-]|by destruct xs].
  - destruct (collect_results l) as [ys|e]; simpl.
    + split; [intros [= <-]; simpl; f_equal; by apply IH|].
      destruct xs as [|x' xs]; [done|]. simpl. intros [= -> Hm%IH]. by simplify_eq.
    + split; [done|]. destruct xs as [|x' xs]; [done|]. simpl. intros [= -> Hm%IH]. done.
  - split; [done|]. by destruct xs.
Qed.
Lemma collect_ok {E A} (l : list A) : collect_results (map (@Ok E A) l) = Ok l.
Proof. by apply collect_results_Ok. Qed.

(** [iter.map(f).collect::<Result<Vec<_>, _>>()]: left to right, the first
    error wins. *)
Fixpoint try_map {E A B} (f : A -> result E B) (l : list A) : result E (list B) :=
  match l with
  | [] => Ok []
  | a :: l => match f a with
              | Err e => Err e
              | Ok b => match try_map f l with
                        | Err e => Err e
                        | Ok bs => Ok (b :: bs)
                        end
              end
  end.

(** [iter.try_fold(init, f)]. *)
Fixpoint try_fold {E A S} (f : S -> A -> result E S) (s : S) (l : list A) : result E S :=
  match l with
  | [] => Ok s
  | a :: l => match f s a with Err e => Err e | Ok s' => try_fold f s' l end
  end.

Lemma try_map_Ok {E A B} (f : A -> result E B) l l' :
  try_map f l = Ok l' <-> Forall2 (fun a b => f a = Ok b) l l'.
Proof.
  revert l'. induction l as [|a l IH]; intros l'; simpl.
  - split; [intros [= <-]; constructor | inversion 1; done].
  - split.
    + destruct (f a) eqn:Ea; [|done]. destruct (try_map f l) eqn:El; [|done].
      intros [= <-]. constructor; [done|]. by apply IH.
    + inversion 1 as [|?? ?? Ha Hl]; subst. rewrite Ha.
      apply IH in Hl. by rewrite Hl.
Qed.

Lemma try_map_total {E A B} (f : A -> result E B) (g : A -> B) l :
  Forall (fun a => f a = Ok (g a)) l -> try_map f l = Ok (map g l).
Proof. intros H. apply try_map_Ok. induction H; simpl; by constructor. Qed.

Lemma try_map_length {E A B} (f : A -> result E B) l l' :
  try_map f l = Ok l' -> length l' = length l.
Proof. intros H%try_map_Ok. symmetry. by eapply Forall2_length. Qed.

Lemma try_fold_app {E A S} (f : S -> A -> result E S) s l1 l2 :
  try_fold f s (l1 ++ l2) =
  match try_fold f s l1 with Err e => Err e | Ok s' => try_fold f s' l2 end.
Proof. revert s. induction l1; intros s; simpl; [done|]. by case_match. Qed.

(** ** Machine integers

    Integers are [Z]; the width of a value is a predicate and every cast is
    written out.  [usize] is 64 bits wide. *)

Definition u8_max : Z := 255.
Definition u16_max : Z := 65535.
Definition u32_max : Z := 4294967295.
Definition u64_max : Z := 18446744073709551615.
Definition usize_max : Z := u64_max.
Definition i64_max : Z := 9223372036854775807.
Definition i64_min : Z := -9223372036854775808.

(** Truncating casts [x as u16], [x as u64]/[x as usize], [x as i64]. *)
Definition as_u16 (z : Z) : Z := z mod 65536.
Definition as_u64 (z : Z) : Z := z mod 18446744073709551616.
Definition as_usize (z : Z) : Z := as_u64 z.
Definition as_i64 (z : Z) : Z := (z + 9223372036854775808) mod 18446744073709551616 - 9223372036854775808.

Definition in_i64 (z : Z) : Prop := (i64_min <= z <= i64_max)%Z.
Definition in_u64 (z : Z) : Prop := (0 <= z <= u64_max)%Z.
Definition in_u16 (z : Z) : Prop := (0 <= z <= u16_max)%Z.

Lemma as_u16_small z : in_u16 z -> as_u16 z = z.
Proof. unfold in_u16, as_u16, u16_max. intros. apply Z.mod_small. lia. Qed.
Lemma as_u16_range z : in_u16 (as_u16 z).
Proof.
  unfold in_u16, as_u16, u16_max. pose proof (Z.mod_pos_bound z 65536). lia.
Qed.
Lemma as_usize_small z : (0 <= z <= usize_max)%Z -> as_usize z = z.
Proof. unfold as_usize, as_u64, usize_max, u64_max. intros. apply Z.mod_small. lia. Qed.
Lemma as_i64_small z : in_i64 z -> as_i64 z = z.
Proof.
  unfold in_i64, as_i64, i64_min, i64_max. intros.
  rewrite Z.mod_small by lia. lia.
Qed.
Lemma as_i64_range z : in_i64 (as_i64 z).
Proof.
  unfold in_i64, as_i64, i64_min, i64_max.
  pose proof (Z.mod_pos_bound (z + 9223372036854775808) 18446744073709551616). lia.
Qed.
Lemma as_usize_neg z : in_i64 z -> (z < 0)%Z -> as_usize z = (z + 18446744073709551616)%Z.
Proof.
  unfold in_i64, as_usize, as_u64, i64_min, i64_max. intros.
  replace z with (z + 18446744073709551616 + (-1) * 18446744073709551616)%Z at 1 by lia.
  rewrite Z.mod_add by lia. apply Z.mod_small. lia.
Qed.

(** Arithmetic whose overflow panics when the crate is built with overflow
    checks (a debug build) and wraps otherwise (a release build).  [None] is
    the panic. *)
Class BuildProfile := overflow_checks : bool.

Definition i64_add `{BuildProfile} (a b : Z) : option Z :=
  if bool_decide (in_i64 (a + b)) then Some (a + b)%Z
  else if overflow_checks then None else Some (as_i64 (a + b)).

Definition usize_sub `{BuildProfile} (a b : Z) : option Z :=
  if (b <=? a)%Z then Some (a - b)%Z
  else if overflow_checks then None else Some (as_usize (a - b)).

Lemma i64_add_small `{BuildProfile} a b : in_i64 (a + b) -> i64_add a b = Some (a + b)%Z.
Proof. intros Hr. unfold i64_add. by rewrite bool_decide_eq_true_2. Qed.

(** [std::time::Duration], in nanoseconds. *)
Abbreviation Duration := Z (only parsing).

(** ** Hash iteration order

    [HashMap] and [HashSet] iterate in an unspecified order.  A map is kept as
    an association list in insertion order, and every iteration goes through
    [hash_order], of which only that it is a rearrangement is known. *)
Class HashOrder := {
  hash_order : forall {A : Type}, list A -> list A;
  hash_order_perm : forall {A} (l : list A), hash_order l ≡ₚ l
}.

(** One admissible order: the insertion order. *)
Definition insertion_order : HashOrder :=
  {| hash_order := fun A l => l; hash_order_perm := fun A l => Permutation_refl l |}.

(** Another one: the reverse of the insertion order. *)
Definition reverse_order : HashOrder :=
  {| hash_order := fun A l => reverse l; hash_order_perm := fun A l => reverse_Permutation l |}.

(** ** Generic list lemmas *)

Lemma take_length_app {A} (l1 l2 : list A) n : n = length l1 -> take n (l1 ++ l2) = l1.
Proof. intros ->. by rewrite take_app_length. Qed.
Lemma drop_length_app {A} (l1 l2 : list A) n : n = length l1 -> drop n (l1 ++ l2) = l2.
Proof. intros ->. by rewrite drop_app_length. Qed.

Lemma elem_of_concat {A} (l : list (list A)) y : y ∈ concat l <-> exists x, y ∈ x /\ x ∈ l.
Proof.
  rewrite list_elem_of_In, in_concat. split; intros (x & H1 & H2); exists x;
    rewrite !list_elem_of_In in *; done.
Qed.

Lemma elem_of_insert_inv {A} (l : list A) i x y : y ∈ <[i := x]> l -> y = x \/ y ∈ l.
Proof.
  intros [j Hj]%list_elem_of_lookup_1. apply list_lookup_insert_Some in Hj as [(-> & <- & _)|[_ Hj]];
    [by left|right]. by eapply list_elem_of_lookup_2.
Qed.

Lemma Z_byte_byte_Z b : Z_byte (byte_Z b) = b.
Proof. unfold Z_byte, byte_Z. by rewrite N2Z.id, Byte.of_to_N. Qed.

Lemma byte_Z_range b : (0 <= byte_Z b < 256)%Z.
Proof.
  unfold byte_Z. pose proof (Byte.to_N_bounded b). lia.
Qed.

Lemma byte_Z_Z_byte z : (0 <= z < 256)%Z -> byte_Z (Z_byte z) = z.
Proof.
  intros Hz. unfold byte_Z, Z_byte.
  destruct (Byte.of_N (Z.to_N z)) as [b|] eqn:E; simpl.
  - apply Byte.to_of_N in E. rewrite E. lia.
  - apply Byte.of_N_None_iff in E. lia.
Qed.

Lemma bytes_eqb_true a b : bytes_eqb a b = true <-> a = b.
Proof. unfold bytes_eqb. apply bool_decide_eq_true. Qed.
Lemma bytes_eqb_refl a : bytes_eqb a a = true.
Proof. by apply bytes_eqb_true. Qed.

(** ** Automation *)

Create HintDb redis.
Create Rewrite HintDb redis.
#[export] Hint Resolve as_u16_range as_i64_range byte_Z_range : redis.
#[export] Hint Rewrite @length_app @length_take @length_drop @length_map @app_nil_r : redis.

(** Destruct the scrutinee of a [match] or [if] in the goal or a hypothesis and
    clean up the impossible branches. *)
Ltac cases :=
  repeat (case_match; simplify_eq/=; try done).

(** Turn boolean comparisons in the context and the goal into propositions. *)
Ltac bool_to_prop :=
  repeat match goal with
  | H : (_ && _)%bool = true |- _ => apply andb_prop in H as [? ?]
  | H : (_ <=? _)%Z = true |- _ => apply Z.leb_le in H
  | H : (_ <=? _)%Z = false |- _ => apply Z.leb_gt in H
  | H : (_ <? _)%Z = true |- _ => apply Z.ltb_lt in H
  | H : (_ <? _)%Z = false |- _ => apply Z.ltb_ge in H
  | H : (_ =? _)%Z = true |- _ => apply Z.eqb_eq in H
  | H : (_ =? _)%Z = false |- _ => apply Z.eqb_neq in H
  | H : bytes_eqb _ _ = true |- _ => apply bytes_eqb_true in H
  | H : bool_decide _ = true |- _ => apply bool_decide_eq_true in H
  | H : bool_decide _ = false |- _ => apply bool_decide_eq_false in H
  end.
