(* ===== verification/Text.v ===== *)
(** * The text functions of the Rust standard library that redis-rs uses

    A Rust [str] or [String] is the list of its UTF-8 bytes.  This file models
    decimal printing ([itoa], [Display] of integers), [FromStr] of integers,
    UTF-8 validation and lossy decoding, [trim], [splitn], [split_once],
    [split_ascii_whitespace], [lines] and the ASCII case functions, and proves
    the round trips and bounds the components rely on. *)

From S2P Require Import Prelude.
Local Open Scope Z_scope.

(** ** Decimal printing *)

(** The ASCII digit of [d] for [0 <= d < 10]. *)
Definition digit (d : Z) : byte := Z_byte (48 + d).

Fixpoint dec_digits (fuel : nat) (n : Z) : bytes :=
  match fuel with
  | O => [digit (n mod 10)]
  | S fuel => if n <? 10 then [digit n] else dec_digits fuel (n / 10) ++ [digit (n mod 10)]
  end.

(** Digits of a non-negative integer; every step at least halves [n], so
    [log2 n + 1] steps are enough ([dec_digits_fuel] below). *)
Definition dec (n : Z) : bytes := dec_digits (S (Z.to_nat (Z.log2 n))) n.

(** [itoa::Buffer::format] and [Display] of an integer. *)
Definition itoa (n : Z) : bytes := if n <? 0 then x2d :: dec (- n) else dec n.

(** ** Integer parsing: [str::parse::<T>()] *)

Record int_ty := { int_min : Z; int_max : Z }.
Definition i64_ty : int_ty := {| int_min := i64_min; int_max := i64_max |}.
Definition u64_ty : int_ty := {| int_min := 0; int_max := u64_max |}.
Definition u32_ty : int_ty := {| int_min := 0; int_max := u32_max |}.
Definition u16_ty : int_ty := {| int_min := 0; int_max := u16_max |}.
Definition u8_ty : int_ty := {| int_min := 0; int_max := u8_max |}.

Definition in_ty (t : int_ty) (n : Z) : Prop := int_min t <= n <= int_max t.

(** [char::to_digit(10)]. *)
Definition to_digit (b : byte) : option Z :=
  let d := byte_Z b - 48 in
  if (0 <=? d) && (d <? 10) then Some d else None.

(** The accumulation loop of [from_str_radix]: multiply by ten and add (or
    subtract) the digit, both checked against the type's range. *)
Fixpoint accumulate (bound acc : Z) (s : bytes) : option Z :=
  match s with
  | [] => Some acc
  | b :: s =>
      match to_digit b with
      | None => None
      | Some d => let acc := acc * 10 + d in
                  if acc <=? bound then accumulate bound acc s else None
      end
  end.

Definition plus_sign : byte := x2b.
Definition minus_sign : byte := x2d.

(** [T::from_str]: an optional sign ('-' only for signed types) and at least
    one digit. *)
Definition parse_int (t : int_ty) (s : bytes) : option Z :=
  match s with
  | [] => None
  | b :: r =>
      if bool_decide (b = plus_sign) then
        match r with [] => None | _ => accumulate (int_max t) 0 r end
      else if bool_decide (b = minus_sign) then
        match r with
        | [] => None
        | _ => if int_min t <? 0
               then Z.opp <$> accumulate (- int_min t) 0 r
               else None
        end
      else accumulate (int_max t) 0 s
  end.

(** ** UTF-8 *)

Definition between (lo hi : Z) (b : byte) : bool := (lo <=? byte_Z b) && (byte_Z b <=? hi).
Definition is_ascii (b : byte) : bool := byte_Z b <? 128.
(** A continuation byte. *)
Definition cont (b : byte) : bool := between 128 191 b.

(** First two bytes of a three- and of a four-byte sequence. *)
Definition lead3 (b0 b1 : byte) : bool :=
  (between 224 224 b0 && between 160 191 b1)
  || (between 225 236 b0 && cont b1)
  || (between 237 237 b0 && between 128 159 b1)
  || (between 238 239 b0 && cont b1).
Definition lead4 (b0 b1 : byte) : bool :=
  (between 240 240 b0 && between 144 191 b1)
  || (between 241 243 b0 && cont b1)
  || (between 244 244 b0 && between 128 143 b1).

(** [str::from_utf8(s).is_ok()]. *)
Fixpoint utf8_valid (s : bytes) : bool :=
  match s with
  | [] => true
  | b0 :: s1 =>
      if is_ascii b0 then utf8_valid s1
      else match s1 with
           | [] => false
           | b1 :: s2 =>
               if between 194 223 b0 then cont b1 && utf8_valid s2
               else match s2 with
                    | [] => false
                    | b2 :: s3 =>
                        if lead3 b0 b1 then cont b2 && utf8_valid s3
                        else match s3 with
                             | [] => false
                             | b3 :: s4 =>
                                 lead4 b0 b1 && cont b2 && cont b3 && utf8_valid s4
                             end
                    end
           end
  end.

Inductive Utf8Error := utf8_error.

(** [str::from_utf8] and [String::from_utf8]. *)
Definition from_utf8 (s : bytes) : result Utf8Error bytes :=
  if utf8_valid s then Ok s else Err utf8_error.

(** U+FFFD. *)
Definition REPLACEMENT : bytes := [xef; xbf; xbd].

(** [String::from_utf8_lossy]: every maximal invalid subpart becomes U+FFFD. *)
Fixpoint from_utf8_lossy (s : bytes) : bytes :=
  match s with
  | [] => []
  | b0 :: s1 =>
      if is_ascii b0 then b0 :: from_utf8_lossy s1
      else if between 194 223 b0 then
        match s1 with
        | b1 :: s2 => if cont b1 then b0 :: b1 :: from_utf8_lossy s2
                      else REPLACEMENT ++ from_utf8_lossy s1
        | [] => REPLACEMENT
        end
      else if between 224 239 b0 then
        match s1 with
        | b1 :: s2 =>
            if lead3 b0 b1 then
              match s2 with
              | b2 :: s3 => if cont b2 then b0 :: b1 :: b2 :: from_utf8_lossy s3
                            else REPLACEMENT ++ from_utf8_lossy s2
              | [] => REPLACEMENT
              end
            else REPLACEMENT ++ from_utf8_lossy s1
        | [] => REPLACEMENT
        end
      else if between 240 244 b0 then
        match s1 with
        | b1 :: s2 =>
            if lead4 b0 b1 then
              match s2 with
              | b2 :: s3 =>
                  if cont b2 then
                    match s3 with
                    | b3 :: s4 => if cont b3 then b0 :: b1 :: b2 :: b3 :: from_utf8_lossy s4
                                  else REPLACEMENT ++ from_utf8_lossy s3
                    | [] => REPLACEMENT
                    end
                  else REPLACEMENT ++ from_utf8_lossy s2
              | [] => REPLACEMENT
              end
            else REPLACEMENT ++ from_utf8_lossy s1
        | [] => REPLACEMENT
        end
      else REPLACEMENT ++ from_utf8_lossy s1
  end.

(** ** Trimming: Unicode [White_Space], as UTF-8 sequences *)

Definition ws1 (b : byte) : bool := between 9 13 b || between 32 32 b.
Definition ws2 (b0 b1 : byte) : bool :=
  between 194 194 b0 && (between 133 133 b1 || between 160 160 b1).
Definition ws3 (b0 b1 b2 : byte) : bool :=
  (between 225 225 b0 && between 154 154 b1 && between 128 128 b2)
  || (between 226 226 b0 && between 128 128 b1 &&
        (between 128 138 b2 || between 168 169 b2 || between 175 175 b2))
  || (between 226 226 b0 && between 129 129 b1 && between 159 159 b2)
  || (between 227 227 b0 && between 128 128 b1 && between 128 128 b2).

Fixpoint trim_start (s : bytes) : bytes :=
  match s with
  | [] => []
  | b0 :: s1 =>
      if ws1 b0 then trim_start s1
      else match s1 with
           | [] => s
           | b1 :: s2 =>
               if ws2 b0 b1 then trim_start s2
               else match s2 with
                    | [] => s
                    | b2 :: s3 => if ws3 b0 b1 b2 then trim_start s3 else s
                    end
           end
  end.

(** [trim_start] on the reversed string: the sequences are met backwards. *)
Fixpoint trim_start_rev (s : bytes) : bytes :=
  match s with
  | [] => []
  | b0 :: s1 =>
      if ws1 b0 then trim_start_rev s1
      else match s1 with
           | [] => s
           | b1 :: s2 =>
               if ws2 b1 b0 then trim_start_rev s2
               else match s2 with
                    | [] => s
                    | b2 :: s3 => if ws3 b2 b1 b0 then trim_start_rev s3 else s
                    end
           end
  end.

Definition trim_end (s : bytes) : bytes := reverse (trim_start_rev (reverse s)).
(** [str::trim]. *)
Definition trim (s : bytes) : bytes := trim_end (trim_start s).

(** ** Searching and splitting *)

Fixpoint starts_with (p s : bytes) : bool :=
  match p, s with
  | [], _ => true
  | a :: p, b :: s => bool_decide (a = b) && starts_with p s
  | _ :: _, [] => false
  end.

(** Offset of the first occurrence of [p] in [s]. *)
Fixpoint find_bytes (p s : bytes) : option nat :=
  if starts_with p s then Some O
  else match s with
       | [] => None
       | _ :: s => S <$> find_bytes p s
       end.

Definition contains (p s : bytes) : bool := bool_decide (is_Some (find_bytes p s)).

(** [s.iter().position(|v| *v == b)]. *)
Fixpoint position (b : byte) (s : bytes) : option nat :=
  match s with
  | [] => None
  | a :: s => if bool_decide (a = b) then Some O else S <$> position b s
  end.

(** [s.split_once(c)] for an ASCII character. *)
Definition split_once (c : byte) (s : bytes) : option (bytes * bytes) :=
  match position c s with
  | None => None
  | Some i => Some (take i s, drop (S i) s)
  end.

(** [s.rsplit_once(c)]. *)
Definition rsplit_once (c : byte) (s : bytes) : option (bytes * bytes) :=
  match split_once c (reverse s) with
  | None => None
  | Some (b, a) => Some (reverse a, reverse b)
  end.

(** [s.splitn(2, c)]: the first piece and the optional second one. *)
Definition splitn2 (c : byte) (s : bytes) : bytes * option bytes :=
  match split_once c s with
  | None => (s, None)
  | Some (a, b) => (a, Some b)
  end.

(** [u8::is_ascii_whitespace]: space, tab, line feed, form feed, carriage return. *)
Definition is_ascii_whitespace (b : byte) : bool :=
  between 9 10 b || between 12 13 b || between 32 32 b.

(** [s.split_ascii_whitespace()]: the non-empty pieces. [cur] is the piece
    being read, reversed. *)
Fixpoint split_ws_go (cur s : bytes) : list bytes :=
  match s with
  | [] => if bool_decide (cur = []) then [] else [reverse cur]
  | b :: s =>
      if is_ascii_whitespace b then
        (if bool_decide (cur = []) then [] else [reverse cur]) ++ split_ws_go [] s
      else split_ws_go (b :: cur) s
  end.
Definition split_ascii_whitespace (s : bytes) : list bytes := split_ws_go [] s.

(** ** ASCII case *)

Definition to_ascii_uppercase_byte (b : byte) : byte :=
  if between 97 122 b then Z_byte (byte_Z b - 32) else b.
Definition to_ascii_uppercase (s : bytes) : bytes := map to_ascii_uppercase_byte s.
Definition eq_ignore_ascii_case (a b : bytes) : bool :=
  bytes_eqb (to_ascii_uppercase a) (to_ascii_uppercase b).

(** ** Lemmas: decimal digits *)

(** ASCII digits. *)
Definition is_digit (b : byte) : Prop := 48 <= byte_Z b <= 57.

Lemma byte_Z_digit d : 0 <= d < 10 -> byte_Z (digit d) = 48 + d.
Proof. intros. apply byte_Z_Z_byte. lia. Qed.

Lemma to_digit_digit d : 0 <= d < 10 -> to_digit (digit d) = Some d.
Proof.
  intros Hd. unfold to_digit. rewrite byte_Z_digit by done.
  replace (48 + d - 48) with d by lia.
  by rewrite (proj2 (Z.leb_le 0 d)), (proj2 (Z.ltb_lt d 10)) by lia.
Qed.

Lemma digit_is_digit d : 0 <= d < 10 -> is_digit (digit d).
Proof. intros. unfold is_digit. rewrite byte_Z_digit by done. lia. Qed.

Lemma mod10_range n : 0 <= n mod 10 < 10.
Proof. pose proof (Z.mod_pos_bound n 10). lia. Qed.

Lemma dec_digits_digits fuel n : 0 <= n -> Forall is_digit (dec_digits fuel n).
Proof.
  revert n. induction fuel as [|fuel IH]; intros n Hn; simpl.
  - repeat constructor; apply digit_is_digit, mod10_range.
  - destruct (n <? 10) eqn:E; bool_to_prop.
    + repeat constructor; apply digit_is_digit; lia.
    + apply Forall_app. split.
      * apply IH. apply Z.div_pos; lia.
      * repeat constructor; apply digit_is_digit, mod10_range.
Qed.

Lemma dec_digits_nonempty fuel n : dec_digits fuel n <> [].
Proof. destruct fuel; simpl; [done|]. case_match; [done|]. intros []%app_eq_nil; done. Qed.

Lemma accumulate_app bound acc s1 s2 :
  accumulate bound acc (s1 ++ s2) = accumulate bound acc s1 ≫= fun a => accumulate bound a s2.
Proof.
  revert acc. induction s1 as [|b s1 IH]; intros acc; simpl; [done|].
  repeat case_match; simpl; auto.
Qed.

(** [2^fuel] bounds what [fuel] steps print exactly. *)
Lemma accumulate_dec_digits fuel n bound :
  0 <= n < 2 ^ Z.of_nat fuel -> n <= bound ->
  accumulate bound 0 (dec_digits fuel n) = Some n.
Proof.
  revert n. induction fuel as [|fuel IH]; intros n Hn Hb.
  - assert (n = 0) as -> by (change (2 ^ Z.of_nat 0) with 1 in Hn; lia).
    cbn [dec_digits accumulate]. rewrite to_digit_digit by apply mod10_range.
    change (0 * 10 + 0 mod 10) with 0. by rewrite (proj2 (Z.leb_le 0 bound)).
  - cbn [dec_digits]. destruct (n <? 10) eqn:E; bool_to_prop.
    + cbn [accumulate]. rewrite to_digit_digit by lia. rewrite Z.add_0_l.
      by rewrite (proj2 (Z.leb_le n bound)).
    + rewrite Nat2Z.inj_succ, Z.pow_succ_r in Hn by lia.
      assert (0 <= n / 10 < 2 ^ Z.of_nat fuel) as Hd.
      { split; [apply Z.div_pos; lia|]. apply Z.div_lt_upper_bound; lia. }
      rewrite accumulate_app, IH; [|done|].
      2:{ transitivity n; [|done]. apply Z.div_le_upper_bound; lia. }
      cbn [mbind option_bind accumulate]. rewrite to_digit_digit by apply mod10_range.
      replace (n / 10 * 10 + n mod 10) with n by (pose proof (Z.div_mod n 10); lia).
      by rewrite (proj2 (Z.leb_le n bound)).
Qed.

Lemma dec_fuel n : 0 <= n -> 0 <= n < 2 ^ Z.of_nat (S (Z.to_nat (Z.log2 n))).
Proof.
  intros Hn. split; [done|]. rewrite Nat2Z.inj_succ, Z2Nat.id by apply Z.log2_nonneg.
  destruct (decide (n = 0)) as [->|]; [done|]. apply Z.log2_spec. lia.
Qed.

Lemma accumulate_dec n bound : 0 <= n <= bound -> accumulate bound 0 (dec n) = Some n.
Proof.
  intros [Hn Hb]. unfold dec. apply accumulate_dec_digits; [by apply dec_fuel|done].
Qed.

(** Digits of fuel beyond the size of the number change nothing. *)
Lemma dec_digits_fuel f1 f2 n : 0 <= n < 2 ^ Z.of_nat f1 -> 0 <= n < 2 ^ Z.of_nat f2 ->
  dec_digits f1 n = dec_digits f2 n.
Proof.
  revert f2 n. induction f1 as [|f1 IH]; intros f2 n H1 H2; simpl.
  - assert (n = 0) as -> by (simpl in H1; lia). by destruct f2.
  - destruct f2 as [|f2]; simpl.
    + assert (n = 0) as -> by (simpl in H2; lia). done.
    + case_match; [done|]. bool_to_prop. f_equal. apply IH.
      all: rewrite Nat2Z.inj_succ, Z.pow_succ_r in * by lia.
      all: pose proof (Z.div_mod n 10); pose proof (Z.mod_pos_bound n 10);
        split; [apply Z.div_pos; lia|]; apply Z.div_lt_upper_bound; lia.
Qed.

Lemma dec_eq n : 0 <= n ->
  dec n = if n <? 10 then [digit n] else dec (n / 10) ++ [digit (n mod 10)].
Proof.
  intros Hn. unfold dec at 1. cbn [dec_digits]. case_match; [done|]. bool_to_prop. f_equal.
  apply dec_digits_fuel; [|apply dec_fuel, Z.div_pos; lia].
  split; [apply Z.div_pos; lia|].
  apply Z.div_lt_upper_bound; [lia|]. pose proof (dec_fuel n Hn) as [_ Hf].
  rewrite Nat2Z.inj_succ, Z.pow_succ_r in Hf by lia. lia.
Qed.

Lemma length_dec n : 0 <= n ->
  length (dec n) = if n <? 10 then 1%nat else S (length (dec (n / 10))).
Proof. intros Hn. rewrite dec_eq by done. case_match; [done|]. rewrite length_app. simpl. lia. Qed.

Lemma dec_digits_only n : 0 <= n -> Forall is_digit (dec n).
Proof. apply dec_digits_digits. Qed.

Lemma dec_nonempty n : dec n <> [].
Proof. apply dec_digits_nonempty. Qed.

Lemma is_digit_not_sign b : is_digit b -> b <> plus_sign /\ b <> minus_sign.
Proof. intros [H _]. split; intros ->; vm_compute in H; by apply H. Qed.

Lemma parse_int_digits t s :
  s <> [] -> Forall is_digit s -> parse_int t s = accumulate (int_max t) 0 s.
Proof.
  intros Hs HF. destruct s as [|b s]; [done|].
  apply Forall_cons in HF as [[Hp Hm]%is_digit_not_sign _]. simpl.
  by rewrite !bool_decide_eq_false_2.
Qed.

(** Every in-range integer survives printing and parsing. *)
Lemma parse_int_itoa t n : int_min t <= 0 -> in_ty t n -> parse_int t (itoa n) = Some n.
Proof.
  intros Hmin [Hlo Hhi]. unfold itoa. destruct (n <? 0) eqn:E; bool_to_prop.
  - unfold parse_int. rewrite bool_decide_eq_false_2 by done.
    rewrite bool_decide_eq_true_2 by done.
    destruct (dec (- n)) as [|b s] eqn:Ed; [by apply dec_nonempty in Ed|].
    rewrite (proj2 (Z.ltb_lt (int_min t) 0)) by lia.
    rewrite <-Ed, accumulate_dec by lia. simpl. f_equal. lia.
  - rewrite parse_int_digits; [|apply dec_nonempty|by apply dec_digits_only].
    by apply accumulate_dec.
Qed.

(** Bytes that [itoa] prints: a minus sign and digits. *)
Definition is_dec_char (b : byte) : Prop := b = minus_sign \/ is_digit b.

Lemma itoa_chars n : Forall is_dec_char (itoa n).
Proof.
  unfold itoa. destruct (n <? 0) eqn:E; bool_to_prop.
  - constructor; [by left|]. eapply Forall_impl; [apply dec_digits_only; lia|]. by right.
  - eapply Forall_impl; [apply dec_digits_only; lia|]. by right.
Qed.

Lemma itoa_nonempty n : itoa n <> [].
Proof. unfold itoa. case_match; [done|apply dec_nonempty]. Qed.

Lemma dec_char_range b : is_dec_char b -> 45 <= byte_Z b <= 57.
Proof. intros [-> | H]; [vm_compute; intuition congruence|]. unfold is_digit in H. lia. Qed.

(** ** Lemmas: UTF-8 *)

Lemma utf8_valid_ascii s : Forall (fun b => byte_Z b < 128) s -> utf8_valid s = true.
Proof.
  induction 1 as [|b s Hb _ IH]; [done|]. simpl. unfold is_ascii.
  by rewrite (proj2 (Z.ltb_lt _ _) Hb).
Qed.

(** Induction on a valid string, one character at a time. *)
Lemma utf8_ind (P : bytes -> Prop) :
  P [] ->
  (forall b s, is_ascii b = true -> P s -> P (b :: s)) ->
  (forall b0 b1 s, is_ascii b0 = false -> between 194 223 b0 = true -> cont b1 = true ->
     P s -> P (b0 :: b1 :: s)) ->
  (forall b0 b1 b2 s, is_ascii b0 = false -> between 194 223 b0 = false -> lead3 b0 b1 = true ->
     cont b2 = true -> P s -> P (b0 :: b1 :: b2 :: s)) ->
  (forall b0 b1 b2 b3 s, is_ascii b0 = false -> between 194 223 b0 = false ->
     lead3 b0 b1 = false -> lead4 b0 b1 = true -> cont b2 = true -> cont b3 = true ->
     P s -> P (b0 :: b1 :: b2 :: b3 :: s)) ->
  forall s, utf8_valid s = true -> P s.
Proof.
  intros Hnil H1 H2 H3 H4 s. remember (length s) as n eqn:Hn.
  assert (length s <= n)%nat as Hle by lia. clear Hn. revert s Hle.
  induction n as [|n IH]; intros [|b0 s1] Hle; simpl in *; try done; [lia|].
  intros Hv. destruct (is_ascii b0) eqn:E0; [apply H1; [done|]; apply IH; [lia|done]|].
  destruct s1 as [|b1 s2]; [done|]. simpl in Hle.
  destruct (between 194 223 b0) eqn:E1.
  { apply andb_prop in Hv as [Hc Hv]. apply H2; auto. apply IH; [lia|done]. }
  destruct s2 as [|b2 s3]; [done|]. simpl in Hle.
  destruct (lead3 b0 b1) eqn:E2.
  { apply andb_prop in Hv as [Hc Hv]. apply H3; auto. apply IH; [lia|done]. }
  destruct s3 as [|b3 s4]; [done|]. simpl in Hle.
  repeat (apply andb_prop in Hv as [Hv ?]).
  apply H4; auto. apply IH; [lia|done].
Qed.

Lemma utf8_valid_app s1 s2 : utf8_valid s1 = true -> utf8_valid s2 = true ->
  utf8_valid (s1 ++ s2) = true.
Proof.
  intros Hv Hv2. revert s1 Hv. apply utf8_ind; simpl; [done|..].
  - intros b s E IH. by rewrite E.
  - intros b0 b1 s E E1 C IH. by rewrite E, E1, C.
  - intros b0 b1 b2 s E E1 L C IH. by rewrite E, E1, L, C.
  - intros b0 b1 b2 b3 s E E1 L3 L C C3 IH. by rewrite E, E1, L3, L, C, C3.
Qed.

Lemma lead3_range b0 b1 : lead3 b0 b1 = true -> between 224 239 b0 = true.
Proof.
  unfold lead3, between. rewrite !orb_true_iff, !andb_true_iff, !Z.leb_le. lia.
Qed.
Lemma lead4_range b0 b1 : lead4 b0 b1 = true ->
  between 240 244 b0 = true /\ between 224 239 b0 = false.
Proof.
  unfold lead4, between. rewrite !orb_true_iff, !andb_true_iff, !Z.leb_le, andb_false_iff,
    !Z.leb_gt. lia.
Qed.

(** Lossy decoding leaves a valid string alone. *)
Lemma from_utf8_lossy_valid s : utf8_valid s = true -> from_utf8_lossy s = s.
Proof.
  revert s. apply utf8_ind; simpl; [done|..].
  - intros b s E IH. by rewrite E, IH.
  - intros b0 b1 s E E1 C IH. by rewrite E, E1, C, IH.
  - intros b0 b1 b2 s E E1 L C IH. by rewrite E, E1, (lead3_range _ _ L), L, C, IH.
  - intros b0 b1 b2 b3 s E E1 L3 L C C3 IH. destruct (lead4_range _ _ L) as [R4 R3]. by rewrite E, E1, R3, R4, L, C, C3, IH.
Qed.

Lemma from_utf8_Ok s t : from_utf8 s = Ok t <-> utf8_valid s = true /\ t = s.
Proof. unfold from_utf8. case_match; split; naive_solver. Qed.

Lemma from_utf8_itoa n : from_utf8 (itoa n) = Ok (itoa n).
Proof.
  apply from_utf8_Ok. split; [|done]. apply utf8_valid_ascii.
  eapply Forall_impl; [apply itoa_chars|]. intros b Hb%dec_char_range. lia.
Qed.

(** ** Lemmas: searching *)

Lemma starts_with_app p s : starts_with p (p ++ s) = true.
Proof. induction p; simpl; [done|]. by rewrite bool_decide_eq_true_2. Qed.

Lemma starts_with_spec p s : starts_with p s = true <-> exists r, s = p ++ r.
Proof.
  revert s. induction p as [|a p IH]; intros s; simpl.
  - split; [by exists s|done].
  - destruct s as [|b s]; [split; [done|by intros []]|].
    rewrite andb_true_iff, bool_decide_eq_true, IH. naive_solver.
Qed.

(** A terminator whose first byte does not occur before it is found where it
    stands. *)
Lemma find_bytes_first c p l r :
  c ∉ l -> find_bytes (c :: p) (l ++ c :: p ++ r) = Some (length l).
Proof.
  induction l as [|b l IH]; intros Hni.
  - simpl app. change (c :: p ++ r) with ((c :: p) ++ r).
    destruct ((c :: p) ++ r) eqn:E; [done|]. cbn [find_bytes]. rewrite <-E.
    by rewrite starts_with_app.
  - apply not_elem_of_cons in Hni as [Hbc Hni]. cbn -[starts_with].
    assert (starts_with (c :: p) (b :: l ++ c :: p ++ r) = false) as ->.
    { simpl. by rewrite bool_decide_eq_false_2. }
    by rewrite IH.
Qed.

Lemma find_bytes_length p s i : find_bytes p s = Some i -> (length p <= length s)%nat.
Proof.
  revert i. induction s as [|b s IH]; intros i; cbn [find_bytes].
  - destruct (starts_with p []) eqn:E; [|done]. apply starts_with_spec in E as [r Hr].
    destruct p; simpl; [lia|done].
  - destruct (starts_with p (b :: s)) eqn:E.
    + apply starts_with_spec in E as [r ->]. rewrite length_app. lia.
    + destruct (find_bytes p s) as [k|] eqn:Ek; simpl; [|done].
      pose proof (IH k eq_refl). intros _. lia.
Qed.

(** Appending input does not move the first occurrence. *)
Lemma find_bytes_mono p s t i : find_bytes p s = Some i -> find_bytes p (s ++ t) = Some i.
Proof.
  revert i. induction s as [|b s IH]; intros i; cbn [find_bytes app].
  - destruct p as [|a p]; simpl; [intros [= <-]|done]. by destruct t.
  - destruct (starts_with p (b :: s)) eqn:E.
    + intros [= <-]. apply starts_with_spec in E as [r Hr].
      change (b :: s ++ t) with ((b :: s) ++ t). rewrite Hr, <-app_assoc.
      by rewrite starts_with_app.
    + destruct (find_bytes p s) as [j|] eqn:Ej; simpl; [|done]. intros [= <-].
      destruct (starts_with p (b :: s ++ t)) eqn:E2.
      2:{ by rewrite (IH j). }
      (* the longer string starts with [p] but the shorter does not, so [p] is
         longer than the shorter string, which therefore cannot contain it *)
      exfalso. clear IH. change (b :: s ++ t) with ((b :: s) ++ t) in E2.
      apply find_bytes_length in Ej. apply starts_with_spec in E2 as [r Hr].
      assert (p = take (length p) (b :: s)) as Hp.
      { apply (f_equal (take (length p))) in Hr. rewrite take_app_length in Hr.
        rewrite take_app_le in Hr by (simpl; lia). done. }
      assert (starts_with p (b :: s) = true); [|congruence].
      apply starts_with_spec. exists (drop (length p) (b :: s)).
      rewrite Hp at 1. by rewrite take_drop.
Qed.

Lemma find_bytes_split p s i :
  find_bytes p s = Some i -> s = take i s ++ p ++ drop (i + length p) s.
Proof.
  revert i. induction s as [|b s IH]; intros i; cbn [find_bytes].
  - destruct (starts_with p []) eqn:E; [|done]. intros [= <-].
    apply starts_with_spec in E as [r Hr]. destruct p; [done|done].
  - destruct (starts_with p (b :: s)) eqn:E.
    + intros [= <-]. apply starts_with_spec in E as [r Hr]. rewrite Hr. simpl.
      by rewrite drop_app_length.
    + destruct (find_bytes p s) as [k|] eqn:Ek; simpl; [|done]. intros [= <-].
      simpl. f_equal. by apply IH.
Qed.

Lemma starts_with_take p s n : (length p <= n)%nat -> starts_with p (take n s) = starts_with p s.
Proof.
  revert s n. induction p as [|a p IH]; intros s n Hn; [by destruct s, n|].
  destruct n as [|n]; [simpl in Hn; lia|]. destruct s as [|b s]; [done|]. simpl in *.
  by rewrite IH by lia.
Qed.

(** Nothing beyond the occurrence is needed to find it. *)
Lemma find_bytes_take p s i : find_bytes p s = Some i ->
  find_bytes p (take (i + length p) s) = Some i.
Proof.
  revert i. induction s as [|b s IH]; intros i; cbn [find_bytes].
  - rewrite take_nil. cbn [find_bytes]. done.
  - destruct (starts_with p (b :: s)) eqn:E.
    + intros [= <-]. cbn [Nat.add]. rewrite <- (starts_with_take p _ (length p)) in E by lia.
      destruct (take (length p) (b :: s)); cbn [find_bytes]; by rewrite E.
    + destruct (find_bytes p s) as [j|] eqn:Ej; [|done]. intros [= <-].
      rewrite <- (starts_with_take p _ (S j + length p)) in E by lia.
      cbn [Nat.add take] in *. cbn [find_bytes]. rewrite E. by rewrite (IH j).
Qed.

Lemma find_bytes_bound p s i : find_bytes p s = Some i -> (i + length p <= length s)%nat.
Proof.
  intros E. destruct (decide (i <= length s)%nat) as [Hi|Hi].
  - apply find_bytes_split in E. apply (f_equal length) in E.
    rewrite !length_app, length_take, length_drop in E. lia.
  - exfalso. revert i E Hi. induction s as [|b s IH]; intros i; cbn [find_bytes];
      case_match; intros; simplify_eq/=; [lia..|].
    destruct (find_bytes p s) as [j|] eqn:Ej; simplify_eq/=. by eapply (IH j); [|lia].
Qed.

Lemma position_spec b s i :
  position b s = Some i <-> s !! i = Some b /\ b ∉ take i s.
Proof.
  revert i. induction s as [|a s IH]; intros i; simpl; [naive_solver|].
  case_bool_decide as Ha; subst.
  - split.
    + intros [= <-]. simpl. split; [done|]. apply not_elem_of_nil.
    + intros [Hi Hni]. destruct i as [|i]; [done|]. simpl in Hni.
      apply not_elem_of_cons in Hni as []; done.
  - split.
    + intros (j & Ej & ->)%fmap_Some. apply IH in Ej as [? ?]. simpl. split; [done|].
      by apply not_elem_of_cons.
    + intros [Hi Hni]. destruct i as [|i]; simpl in *; [naive_solver|].
      apply not_elem_of_cons in Hni as [_ Hni].
      by rewrite (proj2 (IH i)).
Qed.

Lemma position_None b s : position b s = None <-> b ∉ s.
Proof.
  induction s as [|a s IH]; simpl; [split; [intros; apply not_elem_of_nil|done]|].
  rewrite not_elem_of_cons. case_bool_decide; subst; [naive_solver|].
  destruct (position b s); simpl; naive_solver.
Qed.

Lemma position_app b s r : b ∉ s -> position b (s ++ b :: r) = Some (length s).
Proof.
  intros Hn. apply position_spec. split; [by apply list_lookup_middle|].
  by rewrite take_app_length.
Qed.

Lemma split_once_app c a b : c ∉ a -> split_once c (a ++ c :: b) = Some (a, b).
Proof.
  intros. unfold split_once. rewrite position_app by done.
  rewrite take_app_length. replace (S (length a)) with (length a + 1)%nat by lia.
  by rewrite <-drop_drop, drop_app_length.
Qed.

Lemma split_once_None c s : split_once c s = None <-> c ∉ s.
Proof. unfold split_once. rewrite <-position_None. destruct (position c s); naive_solver. Qed.

Lemma split_once_Some c s a b : split_once c s = Some (a, b) <-> s = a ++ c :: b /\ c ∉ a.
Proof.
  split.
  - unfold split_once. destruct (position c s) as [i|] eqn:E; [|done]. intros [= <- <-].
    apply position_spec in E as [Hi Hni]. split; [|done].
    by rewrite take_drop_middle.
  - intros [-> ?]. by apply split_once_app.
Qed.

(** ** Lemmas: [trim] *)

Lemma dec_char_not_ws b b1 b2 : is_dec_char b ->
  ws1 b = false /\ ws2 b b1 = false /\ ws2 b1 b = false /\
  ws3 b b1 b2 = false /\ ws3 b2 b1 b = false.
Proof.
  intros Hb%dec_char_range. unfold ws1, ws2, ws3, between.
  repeat split; rewrite ?orb_false_iff, ?andb_false_iff, ?Z.leb_gt; lia.
Qed.

Lemma trim_start_dec s : Forall is_dec_char s -> trim_start s = s /\ trim_start_rev s = s.
Proof.
  intros H. destruct s as [|b0 s]; [done|]. inversion H as [|?? Hb _]; subst. simpl.
  destruct s as [|b1 s]; [by destruct (dec_char_not_ws b0 x00 x00 Hb) as [-> _]|].
  destruct s as [|b2 s].
  - by destruct (dec_char_not_ws b0 b1 x00 Hb) as (-> & -> & -> & _).
  - by destruct (dec_char_not_ws b0 b1 b2 Hb) as (-> & -> & -> & -> & ->).
Qed.

(** A printed integer has nothing to trim. *)
Lemma trim_itoa n : trim (itoa n) = itoa n.
Proof.
  unfold trim, trim_end. pose proof (itoa_chars n) as H.
  rewrite (proj1 (trim_start_dec _ H)).
  rewrite (proj2 (trim_start_dec (reverse (itoa n)) (proj2 (Forall_reverse _ _) H))).
  apply reverse_involutive.
Qed.
