(* ===== verification/Float64.v ===== *)
(** * f64: the floating-point operations of the standard library redis-rs uses

    A double is a [spec_float] of the Standard Library (the sign and payload of
    a NaN are not represented).  [parse_f64] is [str::parse::<f64>()]: the
    decimal grammar of Rust, and the exact decimal value rounded to nearest
    even at precision 53; [f64_as_int] is the saturating cast [x as iN]. *)

From S2P Require Import Prelude Text.
From Stdlib Require Export SpecFloat.
Local Open Scope Z_scope.

Abbreviation f64 := spec_float.

#[export] Instance f64_eq_dec : EqDecision f64.
Proof. solve_decision. Defined.

Definition f64_prec : Z := 53.
Definition f64_emax : Z := 1024.

(** The double nearest to [(-1)^s * m * 10^e]. *)
Definition f64_of_decimal (s : bool) (m : Z) (e : Z) : f64 :=
  if m <=? 0 then S754_zero s
  else if 0 <=? e then
    match m * 10 ^ e with
    | Zpos p => binary_round f64_prec f64_emax s p 0
    | _ => S754_zero s
    end
  else
    let '(q, e', l) := SFdiv_core_binary f64_prec f64_emax m 0 (10 ^ (- e)) 0 in
    binary_round_aux f64_prec f64_emax s q e' l.

(** The longest prefix of digits, its value and its length, and the rest. *)
Fixpoint take_digits (acc : Z) (n : Z) (s : bytes) : Z * Z * bytes :=
  match s with
  | [] => (acc, n, [])
  | b :: s' => match to_digit b with
               | Some d => take_digits (acc * 10 + d) (n + 1) s'
               | None => (acc, n, s)
               end
  end.

(** The exponent part: nothing, or [e]/[E], an optional sign and digits. *)
Definition parse_exponent (s : bytes) : option Z :=
  match s with
  | [] => Some 0
  | b :: r =>
      if bool_decide (b = x65) || bool_decide (b = x45) then
        let '(neg, r) :=
          match r with
          | c :: r' => if bool_decide (c = minus_sign) then (true, r')
                       else if bool_decide (c = plus_sign) then (false, r')
                       else (false, r)
          | [] => (false, r)
          end in
        match take_digits 0 0 r with
        | (v, n, []) => if 0 <? n then Some (if neg : bool then - v else v) else None
        | _ => None
        end
      else None
  end.

(** An unsigned decimal number. *)
Definition parse_decimal (sign : bool) (s : bytes) : option f64 :=
  let '(v1, n1, r1) := take_digits 0 0 s in
  let '(v2, n2, r2) :=
    match r1 with
    | b :: r => if bool_decide (b = x2e) then take_digits v1 0 r else (v1, 0, r1)
    | [] => (v1, 0, r1)
    end in
  if n1 + n2 =? 0 then None
  else e ← parse_exponent r2; Some (f64_of_decimal sign v2 (e - n2)).

Definition parse_special (sign : bool) (s : bytes) : option f64 :=
  if eq_ignore_ascii_case s (bs "inf") || eq_ignore_ascii_case s (bs "infinity")
  then Some (S754_infinity sign)
  else if eq_ignore_ascii_case s (bs "nan") then Some S754_nan
  else None.

(** [s.parse::<f64>()]. *)
Definition parse_f64 (s : bytes) : option f64 :=
  let '(sign, r) :=
    match s with
    | b :: r => if bool_decide (b = minus_sign) then (true, r)
                else if bool_decide (b = plus_sign) then (false, r)
                else (false, s)
    | [] => (false, s)
    end in
  match r with
  | [] => None
  | _ => match parse_decimal sign r with
         | Some f => Some f
         | None => parse_special sign r
         end
  end.

(** [x as iN]: truncation towards zero, saturating; NaN is 0. *)
Definition f64_as_int (t : int_ty) (x : f64) : Z :=
  match x with
  | S754_nan => 0
  | S754_zero _ => 0
  | S754_infinity s => if s then int_min t else int_max t
  | S754_finite s m e =>
      let a := if 0 <=? e then Zpos m * 2 ^ e else Zpos m / 2 ^ (- e) in
      Z.max (int_min t) (Z.min (int_max t) (if s then - a else a))
  end.

Lemma f64_as_int_range t x : int_min t <= 0 <= int_max t -> in_ty t (f64_as_int t x).
Proof. unfold in_ty, f64_as_int. intros. repeat case_match; lia. Qed.

(** The doubles of the crate's own parser tests. *)
Example parse_f64_examples :
  parse_f64 (bs "2.67923e+8") = Some (f64_of_decimal false 267923000 0)
  /\ parse_f64 (bs "2.67923E+8") = parse_f64 (bs "267923000")
  /\ parse_f64 (bs "-inf") = Some (S754_infinity true)
  /\ parse_f64 (bs "nan") = Some S754_nan
  /\ parse_f64 (bs "1.5") = Some (S754_finite false 6755399441055744 (-52))
  /\ parse_f64 (bs ".") = None /\ parse_f64 (bs "1e") = None /\ parse_f64 [] = None.
Proof. vm_compute. done. Qed.
