(* ===== verification/Combine.v ===== *)
(** * The parser-combinator interface redis-rs is written against

    [parser.rs] is built from the combinators of the [combine] crate, which is
    not part of the repository.  [Combine] is the interface: the combinators
    the parser calls, under their own names.  [CombineLaws] states what the
    crate documents about each of them.  The parser is defined and its theorems
    are proved against the interface; [combine_ref] is a concrete
    implementation that satisfies the laws.

    A parser reads a buffer and either returns a value with the unread input,
    or reports that the buffer ended too early (a partial stream: the decoder
    asks for more bytes), or fails. *)

From S2P Require Import Prelude Text.
Local Open Scope Z_scope.

Inductive presult (A : Type) : Type :=
| POk (a : A) (rest : bytes)
| PIncomplete
| PFail (msg : string).
Arguments POk {A} a rest.
Arguments PIncomplete {A}.
Arguments PFail {A} msg.

Definition parser (A : Type) : Type := bytes -> presult A.

Class Combine := {
  (** the next byte *)
  any : parser byte;
  (** succeed without reading ([combine::value], [combine::produce]) *)
  produce : forall {A}, A -> parser A;
  (** fail without reading *)
  unexpected_any : forall {A}, string -> parser A;
  (** transform the result *)
  pmap : forall {A B}, parser A -> (A -> B) -> parser B;
  (** transform the result with a function that can fail *)
  and_then : forall {A B}, parser A -> (A -> result string B) -> parser B;
  (** run the parser chosen by the result *)
  then_partial : forall {A B}, parser A -> (A -> parser B) -> parser B;
  (** run both, keep the second result *)
  with_ : forall {A B}, parser A -> parser B -> parser B;
  (** run both, keep the first result *)
  skip : forall {A B}, parser A -> parser B -> parser A;
  (** the input a parser consumed *)
  recognize : forall {A}, parser A -> parser bytes;
  (** the next [n] bytes *)
  take_ : Z -> parser bytes;
  (** the bytes before the first occurrence of a needle, not the needle *)
  take_until_bytes : bytes -> parser bytes;
  (** a carriage return and a line feed *)
  crlf : parser byte;
  (** between [min] and [max] runs of a parser *)
  count_min_max : forall {A}, Z -> Z -> parser A -> parser (list A)
}.

Definition presult_bind {A B} (r : presult A) (f : A -> parser B) : presult B :=
  match r with
  | POk a rest => f a rest
  | PIncomplete => PIncomplete
  | PFail m => PFail m
  end.

(** A parser that reads at least one byte whenever it succeeds. *)
Definition consuming {A} (p : parser A) : Prop :=
  forall i a r, p i = POk a r -> (length r < length i)%nat.

Class CombineLaws `(Combine) := {
  any_nil : any [] = PIncomplete;
  any_cons b i : any (b :: i) = POk b i;
  produce_law {A} (a : A) i : produce a i = POk a i;
  unexpected_any_law {A} m i : unexpected_any (A:=A) m i = PFail m;
  pmap_law {A B} (p : parser A) (f : A -> B) i :
    pmap p f i = presult_bind (p i) (fun a r => POk (f a) r);
  and_then_law {A B} (p : parser A) (f : A -> result string B) i :
    and_then p f i = presult_bind (p i) (fun a r =>
      match f a with Ok b => POk b r | Err m => PFail m end);
  then_partial_law {A B} (p : parser A) (f : A -> parser B) i :
    then_partial p f i = presult_bind (p i) f;
  with_law {A B} (p : parser A) (q : parser B) i :
    with_ p q i = presult_bind (p i) (fun _ r => q r);
  skip_law {A B} (p : parser A) (q : parser B) i :
    skip p q i = presult_bind (p i) (fun a r => presult_bind (q r) (fun _ r' => POk a r'));
  recognize_law {A} (p : parser A) i :
    recognize p i = presult_bind (p i) (fun _ r => POk (take (length i - length r) i) r);
  take_law n i : 0 <= n ->
    take_ n i = if n <=? Z.of_nat (length i)
                then POk (take (Z.to_nat n) i) (drop (Z.to_nat n) i) else PIncomplete;
  take_until_bytes_law needle i :
    take_until_bytes needle i =
    match find_bytes needle i with
    | Some k => POk (take k i) (drop k i)
    | None => PIncomplete
    end;
  crlf_law i :
    crlf i = match i with
             | [] => PIncomplete
             | c :: i' =>
                 if bool_decide (c = CR) then
                   match i' with
                   | [] => PIncomplete
                   | l :: r => if bool_decide (l = LF) then POk LF r
                               else PFail "expected crlf newline"
                   end
                 else PFail "expected crlf newline"
             end;
  count_zero {A} (p : parser A) i : count_min_max 0 0 p i = POk [] i;
  count_succ {A} (p : parser A) n i : 0 < n -> consuming p ->
    count_min_max n n p i =
    presult_bind (p i) (fun a r =>
      presult_bind (count_min_max (n - 1) (n - 1) p r) (fun l r' => POk (a :: l) r'))
}.

(** ** A concrete implementation *)

(** [min] required runs, then up to [max - min] optional ones; every run of a
    consuming parser shortens the input, so [length i + 1] rounds suffice. *)
Fixpoint count_loop {A} (fuel : nat) (min max : Z) (p : parser A) (i : bytes) : presult (list A) :=
  if max <=? 0 then POk [] i
  else match fuel with
       | O => PFail "parser does not consume"
       | S fuel =>
           match p i with
           | POk a r =>
               match count_loop fuel (min - 1) (max - 1) p r with
               | POk l r' => POk (a :: l) r'
               | PIncomplete => PIncomplete
               | PFail m => PFail m
               end
           | PIncomplete => PIncomplete
           | PFail m => if min <=? 0 then POk [] i else PFail m
           end
       end.

Definition combine_ref : Combine := {|
  any i := match i with [] => PIncomplete | b :: i => POk b i end;
  produce A a i := POk a i;
  unexpected_any A m i := PFail m;
  pmap A B p f i := presult_bind (p i) (fun a r => POk (f a) r);
  and_then A B p f i := presult_bind (p i) (fun a r =>
    match f a with Ok b => POk b r | Err m => PFail m end);
  then_partial A B p f i := presult_bind (p i) f;
  with_ A B p q i := presult_bind (p i) (fun _ r => q r);
  skip A B p q i := presult_bind (p i) (fun a r => presult_bind (q r) (fun _ r' => POk a r'));
  recognize A p i := presult_bind (p i) (fun _ r => POk (take (length i - length r) i) r);
  take_ n i := if n <=? Z.of_nat (length i)
               then POk (take (Z.to_nat n) i) (drop (Z.to_nat n) i) else PIncomplete;
  take_until_bytes needle i :=
    match find_bytes needle i with Some k => POk (take k i) (drop k i) | None => PIncomplete end;
  crlf i := match i with
            | [] => PIncomplete
            | c :: i' =>
                if bool_decide (c = CR) then
                  match i' with
                  | [] => PIncomplete
                  | l :: r => if bool_decide (l = LF) then POk LF r
                              else PFail "expected crlf newline"
                  end
                else PFail "expected crlf newline"
            end;
  count_min_max A min max p i := count_loop (S (length i)) min max p i
|}.

(** More rounds than the input has bytes change nothing. *)
Lemma count_loop_fuel {A} (p : parser A) f1 f2 min max i :
  consuming p -> (length i < f1)%nat -> (length i < f2)%nat ->
  count_loop f1 min max p i = count_loop f2 min max p i.
Proof.
  intros Hp. revert f2 min max i. induction f1 as [|f1 IH]; intros f2 min max i H1 H2; [lia|].
  destruct f2 as [|f2]; [lia|]. simpl. case_match; [done|].
  destruct (p i) as [a r| |m] eqn:E; [|done..].
  apply Hp in E. rewrite (IH f2) by lia. done.
Qed.

Lemma count_loop_S {A} (p : parser A) fuel n i : 0 < n ->
  count_loop (S fuel) n n p i =
  presult_bind (p i) (fun a r =>
    presult_bind (count_loop fuel (n - 1) (n - 1) p r) (fun l r' => POk (a :: l) r')).
Proof.
  intros Hn. cbn [count_loop]. rewrite (proj2 (Z.leb_gt n 0)) by lia.
  destruct (p i) as [a r| |m]; cbn [presult_bind]; [|done..].
  by destruct (count_loop fuel (n - 1) (n - 1) p r).
Qed.

Lemma combine_ref_laws : CombineLaws combine_ref.
Proof.
  split; try done.
  intros A p n i Hn Hp.
  change (count_loop (S (length i)) n n p i =
    presult_bind (p i) (fun a r => presult_bind (count_loop (S (length r)) (n - 1) (n - 1) p r)
      (fun l r' => POk (a :: l) r'))).
  rewrite count_loop_S by done. destruct (p i) as [a r| |m] eqn:E; [|done..].
  apply Hp in E as Hlt. cbn [presult_bind].
  by rewrite (count_loop_fuel p (length i) (S (length r))) by (done || lia).
Qed.

(** ** What the laws give every parser built from the combinators

    A parser is [stable] when bytes that arrive later change neither a result
    nor an error already reached: exactly what makes incremental decoding
    independent of how the bytes were cut into packets. *)

Record stable {A} (p : parser A) : Prop := {
  stable_ok i a r x : p i = POk a r -> p (i ++ x) = POk a (r ++ x);
  stable_fail i m x : p i = PFail m -> p (i ++ x) = PFail m;
  stable_suffix i a r : p i = POk a r -> exists c, i = c ++ r
}.

Lemma presult_bind_POk {A B} (q : presult A) (f : A -> parser B) b r :
  presult_bind q f = POk b r <-> exists a r', q = POk a r' /\ f a r' = POk b r.
Proof. destruct q; simpl; naive_solver. Qed.

Lemma presult_bind_PFail {A B} (q : presult A) (f : A -> parser B) m :
  presult_bind q f = PFail m <-> q = PFail m \/ exists a r', q = POk a r' /\ f a r' = PFail m.
Proof. destruct q; simpl; naive_solver. Qed.

Lemma stable_ext {A} (p q : parser A) : (forall i, p i = q i) -> stable p -> stable q.
Proof.
  intros E [H1 H2 H3]. split; intros *; rewrite <- !E; [apply H1 | apply H2 | apply H3].
Qed.

Lemma consuming_ext {A} (p q : parser A) : (forall i, p i = q i) -> consuming p -> consuming q.
Proof. intros E H i a r. rewrite <- E. apply H. Qed.

Lemma stable_length {A} (p : parser A) i a r : stable p -> p i = POk a r -> (length r <= length i)%nat.
Proof. intros Hs [c ->]%(stable_suffix _ Hs). rewrite length_app. lia. Qed.

(** An incomplete buffer stays incomplete when bytes are removed from its end. *)
Lemma stable_incomplete {A} (p : parser A) i x : stable p -> p (i ++ x) = PIncomplete ->
  p i = PIncomplete.
Proof.
  intros Hs Hi. destruct (p i) as [a r| |m] eqn:E; [| done |].
  - by rewrite (stable_ok _ Hs _ _ _ x E) in Hi.
  - by rewrite (stable_fail _ Hs _ _ x E) in Hi.
Qed.

(** Sequencing in the underlying result monad. *)
Lemma stable_bind {A B} (p : parser A) (f : A -> parser B) :
  stable p -> (forall a, stable (f a)) -> stable (fun i => presult_bind (p i) f).
Proof.
  intros Hp Hf. split.
  - intros i b r x (a & r' & E & E')%presult_bind_POk.
    rewrite (stable_ok _ Hp _ _ _ x E). simpl. by apply stable_ok.
  - intros i m x [E | (a & r' & E & E')]%presult_bind_PFail.
    + by rewrite (stable_fail _ Hp _ _ x E).
    + rewrite (stable_ok _ Hp _ _ _ x E). simpl. by apply stable_fail.
  - intros i b r (a & r' & E & E')%presult_bind_POk.
    apply (stable_suffix _ Hp) in E as [c ->]. apply (stable_suffix _ (Hf a)) in E' as [c' ->].
    exists (c ++ c'). by rewrite app_assoc.
Qed.

Lemma consuming_bind_l {A B} (p : parser A) (f : A -> parser B) :
  consuming p -> (forall a, stable (f a)) -> consuming (fun i => presult_bind (p i) f).
Proof.
  intros Hp Hf i b r (a & r' & E & E')%presult_bind_POk.
  apply Hp in E. apply (stable_length _ _ _ _ (Hf a)) in E'. lia.
Qed.

Lemma stable_ret {A} (a : A) : stable (fun i => POk a i).
Proof. split; intros; simplify_eq; [done|]. by exists []. Qed.

Lemma stable_err {A} m : stable (A:=A) (fun _ => PFail m).
Proof. by split; intros; simplify_eq. Qed.

Lemma stable_result {A} (o : result string A) :
  stable (fun i => match o with Ok b => POk b i | Err m => PFail m end).
Proof. destruct o; [apply stable_ret | apply stable_err]. Qed.

#[export] Hint Resolve stable_bind consuming_bind_l stable_ret stable_err stable_result : redis.

(** A parser is [tight] when it needs nothing beyond what it consumes. *)
Definition tight {A} (p : parser A) : Prop :=
  forall c a r, p (c ++ r) = POk a r -> p c = POk a [].

(** Every value a parser returns satisfies [P]. *)
Definition yields {A} (P : A -> Prop) (p : parser A) : Prop :=
  forall i a r, p i = POk a r -> P a.

Lemma tight_ext {A} (p q : parser A) : (forall i, p i = q i) -> tight p -> tight q.
Proof. intros E H c a r. rewrite <- !E. apply H. Qed.

Lemma app_suffix_eq {A} (c c1 c2 r : list A) : c ++ r = c1 ++ c2 ++ r -> c = c1 ++ c2.
Proof. rewrite app_assoc. apply app_inv_tail. Qed.

Lemma tight_bind {A B} (p : parser A) (f : A -> parser B) :
  stable p -> (forall a, stable (f a)) -> tight p -> (forall a, tight (f a)) ->
  tight (fun i => presult_bind (p i) f).
Proof.
  intros Sp Sf Tp Tf c b r (a & r' & E & E')%presult_bind_POk.
  destruct (stable_suffix _ Sp _ _ _ E) as [c1 Hc1].
  destruct (stable_suffix _ (Sf a) _ _ _ E') as [c2 ->].
  apply app_suffix_eq in Hc1 as ->. rewrite <- app_assoc in E.
  apply Tp, (stable_ok _ Sp _ _ _ c2) in E. simpl in E. rewrite E. simpl. by apply Tf in E'.
Qed.

Lemma tight_ret {A} (a : A) : tight (fun i => POk a i).
Proof. intros c a' r [= <- H]. by apply (app_inv_tail r c []) in H as ->. Qed.

Lemma tight_err {A} m : tight (A:=A) (fun _ => PFail m).
Proof. done. Qed.

Lemma tight_result {A} (o : result string A) :
  tight (fun i => match o with Ok b => POk b i | Err m => PFail m end).
Proof. destruct o; [apply tight_ret | apply tight_err]. Qed.

#[export] Hint Resolve tight_bind tight_ret tight_err tight_result : redis.

Section closure.
Context `{CombineLaws}.

Lemma stable_any : stable any.
Proof.
  split; intros [|b i] *; rewrite ?any_nil, ?any_cons; intros [=]; subst; simpl.
  - by rewrite any_cons.
  - by exists [a].
Qed.

Lemma consuming_any : consuming any.
Proof. intros [|b i] *; rewrite ?any_nil, ?any_cons; intros [=]; subst; simpl; lia. Qed.

Lemma stable_produce {A} (a : A) : stable (produce a).
Proof. eapply stable_ext; [intros i; symmetry; apply produce_law | apply stable_ret]. Qed.

Lemma stable_unexpected_any {A} m : stable (unexpected_any (A:=A) m).
Proof. eapply stable_ext; [intros i; symmetry; apply unexpected_any_law | apply stable_err]. Qed.

Lemma stable_pmap {A B} (p : parser A) (f : A -> B) : stable p -> stable (pmap p f).
Proof. intros. eapply stable_ext; [intros i; symmetry; apply pmap_law|]. eauto with redis. Qed.

Lemma stable_and_then {A B} (p : parser A) (f : A -> result string B) :
  stable p -> stable (and_then p f).
Proof. intros. eapply stable_ext; [intros i; symmetry; apply and_then_law|]. eauto with redis. Qed.

Lemma stable_then_partial {A B} (p : parser A) (f : A -> parser B) :
  stable p -> (forall a, stable (f a)) -> stable (then_partial p f).
Proof.
  intros. eapply stable_ext; [intros i; symmetry; apply then_partial_law|]. eauto with redis.
Qed.

Lemma stable_with {A B} (p : parser A) (q : parser B) : stable p -> stable q -> stable (with_ p q).
Proof. intros. eapply stable_ext; [intros i; symmetry; apply with_law|]. eauto with redis. Qed.

Lemma stable_skip {A B} (p : parser A) (q : parser B) : stable p -> stable q -> stable (skip p q).
Proof.
  intros. eapply stable_ext; [intros i; symmetry; apply skip_law|].
  apply stable_bind; [done|]. eauto with redis.
Qed.

Lemma stable_recognize {A} (p : parser A) : stable p -> stable (recognize p).
Proof.
  intros Hp. split; intros *; rewrite ?recognize_law.
  - intros (b & r' & E & E')%presult_bind_POk. simplify_eq/=.
    rewrite (stable_ok _ Hp _ _ _ x E). simpl.
    rewrite !length_app, take_app_le by lia. do 2 f_equal. lia.
  - intros [E | (b & r' & E & E')]%presult_bind_PFail; [|done].
    by rewrite (stable_fail _ Hp _ _ x E).
  - intros (b & r' & E & E')%presult_bind_POk. simplify_eq/=. by eapply stable_suffix.
Qed.

Lemma stable_take n : 0 <= n -> stable (take_ n).
Proof.
  intros Hn. split; intros *; rewrite ?take_law by done.
  - case_match; bool_to_prop; intros [= <- <-].
    rewrite (proj2 (Z.leb_le _ _)) by (rewrite length_app; lia).
    by rewrite take_app_le, drop_app_le by lia.
  - by case_match.
  - case_match; intros [= <- <-]. exists (take (Z.to_nat n) i). by rewrite take_drop.
Qed.

Lemma stable_take_until_bytes needle : stable (take_until_bytes needle).
Proof.
  split; intros *; rewrite ?take_until_bytes_law.
  - case_match eqn:E; intros [= <- <-].
    rewrite (find_bytes_mono _ _ x _ E).
    apply find_bytes_bound in E. by rewrite take_app_le, drop_app_le by lia.
  - by case_match.
  - case_match eqn:E; intros [= <- <-]. eexists. by rewrite take_drop.
Qed.

Lemma stable_crlf : stable crlf.
Proof.
  split; intros [|c [|l i]] *; simpl; rewrite ?crlf_law; intros E; cases.
  - done.
  - by exists [c; l].
Qed.

Lemma consuming_pmap {A B} (p : parser A) (f : A -> B) : consuming p -> consuming (pmap p f).
Proof. intros. eapply consuming_ext; [intros i; symmetry; apply pmap_law|]. eauto with redis. Qed.

Lemma consuming_and_then {A B} (p : parser A) (f : A -> result string B) :
  consuming p -> consuming (and_then p f).
Proof. intros. eapply consuming_ext; [intros i; symmetry; apply and_then_law|]. eauto with redis. Qed.

Lemma consuming_then_partial {A B} (p : parser A) (f : A -> parser B) :
  consuming p -> (forall a, stable (f a)) -> consuming (then_partial p f).
Proof.
  intros. eapply consuming_ext; [intros i; symmetry; apply then_partial_law|]. eauto with redis.
Qed.

Lemma tight_any : tight any.
Proof.
  intros [|b c] a r; simpl.
  - destruct r as [|b r]; rewrite ?any_nil, ?any_cons; intros E; [done|].
    injection E as _ E. apply (f_equal length) in E. simpl in E. lia.
  - rewrite !any_cons. intros E. injection E as -> E.
    by apply (app_inv_tail r c []) in E as ->.
Qed.

Lemma tight_produce {A} (a : A) : tight (produce a).
Proof. eapply tight_ext; [intros i; symmetry; apply produce_law | apply tight_ret]. Qed.

Lemma tight_unexpected_any {A} m : tight (unexpected_any (A:=A) m).
Proof. eapply tight_ext; [intros i; symmetry; apply unexpected_any_law | apply tight_err]. Qed.

Lemma tight_pmap {A B} (p : parser A) (f : A -> B) : stable p -> tight p -> tight (pmap p f).
Proof. intros. eapply tight_ext; [intros i; symmetry; apply pmap_law|]. auto with redis. Qed.

Lemma tight_and_then {A B} (p : parser A) (f : A -> result string B) :
  stable p -> tight p -> tight (and_then p f).
Proof. intros. eapply tight_ext; [intros i; symmetry; apply and_then_law|]. auto with redis. Qed.

Lemma tight_then_partial {A B} (p : parser A) (f : A -> parser B) :
  stable p -> tight p -> (forall a, stable (f a)) -> (forall a, tight (f a)) ->
  tight (then_partial p f).
Proof. intros. eapply tight_ext; [intros i; symmetry; apply then_partial_law|]. auto with redis. Qed.

Lemma tight_skip {A B} (p : parser A) (q : parser B) :
  stable p -> stable q -> tight p -> tight q -> tight (skip p q).
Proof.
  intros. eapply tight_ext; [intros i; symmetry; apply skip_law|].
  apply tight_bind; [done| |done|]; intros; [apply stable_bind | apply tight_bind];
    auto with redis.
Qed.

Lemma tight_take n : 0 <= n -> tight (take_ n).
Proof.
  intros Hn c a r. rewrite !take_law by done. case_match; [|done]. intros E. bool_to_prop.
  injection E as E1 E2. rewrite length_app in *.
  assert (length c = Z.to_nat n) as Hc.
  { apply (f_equal length) in E2. rewrite length_drop, length_app in E2. lia. }
  rewrite <- Hc in *. rewrite take_app_length in E1.
  rewrite (proj2 (Z.leb_le _ _)) by lia. by rewrite firstn_all, drop_all, E1.
Qed.

Lemma crlf_POk i a r : crlf i = POk a r <-> i = CR :: LF :: r /\ a = LF.
Proof.
  rewrite crlf_law. split; [|by intros [-> ->]].
  intros E. repeat case_match; simplify_eq; bool_to_prop; by subst.
Qed.

Lemma tight_crlf : tight crlf.
Proof.
  intros c a r [E ->]%crlf_POk. by apply (app_suffix_eq c [CR] [LF] r) in E as ->; apply crlf_POk.
Qed.

Lemma yields_pmap {A B} (P : B -> Prop) (p : parser A) (f : A -> B) Q :
  yields Q p -> (forall a, Q a -> P (f a)) -> yields P (pmap p f).
Proof.
  intros Hp Hf i b r. rewrite pmap_law. intros (a & r' & E & [= <- <-])%presult_bind_POk. eauto.
Qed.

Lemma yields_and_then {A B} (P : B -> Prop) (p : parser A) (f : A -> result string B) Q :
  yields Q p -> (forall a b, Q a -> f a = Ok b -> P b) -> yields P (and_then p f).
Proof.
  intros Hp Hf i b r. rewrite and_then_law.
  intros (a & r' & E & E')%presult_bind_POk. case_match eqn:Ef; simplify_eq. eauto.
Qed.

Lemma yields_then_partial {A B} (P : B -> Prop) (p : parser A) (f : A -> parser B) :
  (forall a, yields P (f a)) -> yields P (then_partial p f).
Proof.
  intros Hf i b r. rewrite then_partial_law. intros (a & r' & E & E')%presult_bind_POk. by eapply Hf.
Qed.

Lemma yields_skip {A B} (P : A -> Prop) (p : parser A) (q : parser B) :
  yields P p -> yields P (skip p q).
Proof.
  intros Hp i b r. rewrite skip_law.
  intros (a & r' & E & (? & ? & ? & [= <- <-])%presult_bind_POk)%presult_bind_POk. eauto.
Qed.

Lemma yields_produce {A} (P : A -> Prop) a : P a -> yields P (produce a).
Proof. intros Ha i b r. rewrite produce_law. by intros [= <- <-]. Qed.

Lemma yields_unexpected_any {A} (P : A -> Prop) m : yields P (unexpected_any m).
Proof. intros i b r. by rewrite unexpected_any_law. Qed.

Lemma yields_trivial {A} (p : parser A) : yields (fun _ => True) p.
Proof. done. Qed.

Lemma consuming_unexpected_any {A} m : consuming (unexpected_any (A:=A) m).
Proof. intros i a r. by rewrite unexpected_any_law. Qed.

Lemma stable_count {A} (p : parser A) n : stable p -> consuming p -> 0 <= n ->
  stable (count_min_max n n p).
Proof.
  intros Hp Hc Hn. revert n Hn. apply natlike_ind.
  - eapply stable_ext; [intros i; symmetry; apply count_zero|]. apply stable_ret.
  - intros n Hn IH.
    eapply stable_ext; [intros i; symmetry; apply count_succ; [lia|done]|].
    replace (Z.succ n - 1) with n by lia.
    apply stable_bind; [done|]. intros a. apply stable_bind; [done|]. eauto with redis.
Qed.

Lemma tight_count {A} (p : parser A) n : stable p -> consuming p -> tight p -> 0 <= n ->
  tight (count_min_max n n p).
Proof.
  intros Hp Hc Ht Hn. revert n Hn. apply natlike_ind.
  - eapply tight_ext; [intros i; symmetry; apply count_zero|]. apply tight_ret.
  - intros n Hn IH.
    eapply tight_ext; [intros i; symmetry; apply count_succ; [lia|done]|].
    replace (Z.succ n - 1) with n by lia.
    apply tight_bind; [done| |done|]; intros; [apply stable_bind|apply tight_bind];
      auto using stable_count with redis.
Qed.

(** Exactly [n] runs give exactly [n] results. *)
Lemma count_length {A} (p : parser A) n i l r : consuming p -> 0 <= n ->
  count_min_max n n p i = POk l r -> length l = Z.to_nat n.
Proof.
  intros Hc Hn. revert n Hn i l r. refine (natlike_ind _ _ _).
  - intros i l r. rewrite count_zero. by intros [= <- <-].
  - intros n Hn IH i l r. rewrite count_succ by (done || lia).
    replace (Z.succ n - 1) with n by lia.
    intros (a & r1 & E & (l' & r2 & E' & [= <- <-])%presult_bind_POk)%presult_bind_POk.
    simpl. rewrite (IH _ _ _ E'). lia.
Qed.

(** Every result of a counted run is a result of the parser. *)
Lemma yields_count {A} (P : A -> Prop) (p : parser A) n : consuming p -> 0 <= n ->
  yields P p -> yields (Forall P) (count_min_max n n p).
Proof.
  intros Hc Hn HP. revert n Hn. refine (natlike_ind _ _ _).
  - intros i l r. rewrite count_zero. by intros [= <- <-].
  - intros n Hn IH i l r. rewrite count_succ by (done || lia).
    replace (Z.succ n - 1) with n by lia.
    intros (a & r1 & E & (l' & r2 & E' & [= <- <-])%presult_bind_POk)%presult_bind_POk. eauto.
Qed.

(** Counted runs over a concatenation of encodings, one per element; the
    elements that are not [ok] make the parser fail. *)
Lemma count_encoded {A B} (p : parser A) (enc : B -> bytes) (val : B -> A) (ok : B -> bool) m l x :
  consuming p ->
  Forall (fun b => forall y, p (enc b ++ y) = if ok b then POk (val b) y else PFail m) l ->
  count_min_max (Z.of_nat (length l)) (Z.of_nat (length l)) p (concat (map enc l) ++ x) =
  if forallb ok l then POk (map val l) x else PFail m.
Proof.
  intros Hc. induction 1 as [|b l Hb _ IH]; [apply count_zero|].
  rewrite count_succ by (simpl; lia || done). simpl.
  rewrite <- app_assoc, Hb. destruct (ok b); cbn [presult_bind andb]; [|done].
  replace (Z.of_nat (S (length l)) - 1) with (Z.of_nat (length l)) by lia.
  rewrite IH. by destruct (forallb ok l).
Qed.
End closure.

#[export] Hint Resolve stable_any consuming_any stable_produce stable_unexpected_any stable_pmap
  stable_and_then stable_then_partial stable_with stable_skip stable_recognize stable_take
  stable_take_until_bytes stable_crlf stable_count consuming_pmap consuming_and_then
  consuming_then_partial consuming_unexpected_any tight_any tight_produce tight_unexpected_any
  tight_take tight_crlf tight_count yields_produce yields_unexpected_any yields_trivial : redis.

(** Closure of [stable] and [consuming] under the combinators, following the
    shape of the parser. *)
Ltac parser_closure :=
  repeat match goal with
  | |- stable (then_partial _ _) => apply stable_then_partial; [|intros]
  | |- consuming (then_partial _ _) => apply consuming_then_partial; [|intros]
  | |- stable (pmap _ _) => apply stable_pmap
  | |- consuming (pmap _ _) => apply consuming_pmap
  | |- stable (and_then _ _) => apply stable_and_then
  | |- consuming (and_then _ _) => apply consuming_and_then
  | |- stable (skip _ _) => apply stable_skip
  | |- tight (then_partial _ _) => apply tight_then_partial; [| |intros..]
  | |- tight (pmap _ _) => apply tight_pmap
  | |- tight (and_then _ _) => apply tight_and_then
  | |- tight (skip _ _) => apply tight_skip
  | |- tight (match ?x with _ => _ end) => destruct x eqn:?
  | |- stable (match ?x with _ => _ end) => destruct x eqn:?
  end; auto with redis lia.
