(* ===== verification/Errors.v ===== *)
(** * Errors: [redis/src/errors/]

    [ServerErrorKind], [ServerError], [ErrorKind], [ParsingError] and
    [RedisError] with their classification ([kind], [retry_method],
    [is_unrecoverable_error], [redirect_node], ...), and the line parser
    [err_parser] of [parser.rs] that builds a [ServerError].

    An [Arc<dyn Error>] is either an [io::Error], of which only its kind is
    observed, or some other error, of which nothing is.  Rendering with
    [Display] is not modelled; a [ParsingError] keeps the constant part of its
    description, not the rendering of the offending value. *)

From S2P Require Import Prelude Text.
Local Open Scope Z_scope.

(** ** server_error.rs *)

Inductive ServerErrorKind :=
| ResponseError | ExecAbort | BusyLoading | NoScript | Moved | Ask | TryAgain
| ClusterDown | CrossSlot | MasterDown | ReadOnly | NotBusy | NoSub | NoPerm.

#[export] Instance ServerErrorKind_eq_dec : EqDecision ServerErrorKind.
Proof. solve_decision. Defined.

(** redis_error.rs, [RetryMethod]. *)
Inductive RetryMethod :=
| Reconnect | NoRetry | RetryImmediately | WaitAndRetry | AskRedirect | MovedRedirect
| ReconnectFromInitialConnections | RefreshSlotsAndRetry.

#[export] Instance RetryMethod_eq_dec : EqDecision RetryMethod.
Proof. solve_decision. Defined.

Definition ServerErrorKind_code (k : ServerErrorKind) : bytes :=
  match k with
  | ResponseError => bs "ERR"
  | ExecAbort => bs "EXECABORT"
  | BusyLoading => bs "LOADING"
  | NoScript => bs "NOSCRIPT"
  | Moved => bs "MOVED"
  | Ask => bs "ASK"
  | TryAgain => bs "TRYAGAIN"
  | ClusterDown => bs "CLUSTERDOWN"
  | CrossSlot => bs "CROSSSLOT"
  | MasterDown => bs "MASTERDOWN"
  | ReadOnly => bs "READONLY"
  | NotBusy => bs "NOTBUSY"
  | NoSub => bs "NOSUB"
  | NoPerm => bs "NOPERM"
  end.

Definition ServerErrorKind_retry_method (k : ServerErrorKind) : RetryMethod :=
  match k with
  | Moved => MovedRedirect
  | Ask => AskRedirect
  | TryAgain | MasterDown | ClusterDown | BusyLoading => WaitAndRetry
  | ReadOnly => RefreshSlotsAndRetry
  | ResponseError | ExecAbort | NoScript | CrossSlot | NotBusy | NoSub | NoPerm => NoRetry
  end.

(** [ServerError(Repr)]. *)
Inductive ServerError :=
| Repr_Extension (code : bytes) (detail : option bytes)
| Repr_Known (kind : ServerErrorKind) (detail : option bytes).

#[export] Instance ServerError_eq_dec : EqDecision ServerError.
Proof. solve_decision. Defined.

Definition ServerError_kind (e : ServerError) : option ServerErrorKind :=
  match e with Repr_Extension _ _ => None | Repr_Known kind _ => Some kind end.

Definition ServerError_code (e : ServerError) : bytes :=
  match e with Repr_Extension code _ => code | Repr_Known kind _ => ServerErrorKind_code kind end.

Definition ServerError_details (e : ServerError) : option bytes :=
  match e with Repr_Extension _ detail => detail | Repr_Known _ detail => detail end.

Definition requires_action (e : ServerError) : bool :=
  bool_decide (default NoRetry (ServerErrorKind_retry_method <$> ServerError_kind e) <> NoRetry).

(** ** parsing_error.rs *)

Record ParsingError := { description : bytes }.

#[export] Instance ParsingError_eq_dec : EqDecision ParsingError.
Proof. solve_decision. Defined.

Definition parsing_error (s : string) : ParsingError := {| description := bs s |}.

(** [From<Utf8Error>] and [From<FromUtf8Error>]. *)
Definition parsing_error_of_utf8 (_ : Utf8Error) : ParsingError := parsing_error "Invalid UTF-8".
Definition parsing_error_of_from_utf8 (_ : Utf8Error) : ParsingError :=
  parsing_error "Cannot convert from UTF-8".

(** ** redis_error.rs *)

Inductive ErrorKind :=
| Parse | AuthenticationFailed | UnexpectedReturnType | InvalidClientConfig | Io | Client
| Extension | MasterNameNotFoundBySentinel | NoValidReplicasFoundBySentinel | EmptySentinelList
| ClusterConnectionNotFound
| Server (k : ServerErrorKind)
| Serialize | RESP3NotSupported.

#[export] Instance ErrorKind_eq_dec : EqDecision ErrorKind.
Proof. solve_decision. Defined.

(** [io::ErrorKind]; [Io_Other] stands for every kind the crate does not test. *)
Inductive io_ErrorKind :=
| ConnectionRefused | NotFound | TimedOut | WouldBlock | BrokenPipe | ConnectionReset
| ConnectionAborted | UnexpectedEof | NotConnected | PermissionDenied | Unsupported | Io_Other.

#[export] Instance io_ErrorKind_eq_dec : EqDecision io_ErrorKind.
Proof. solve_decision. Defined.

Inductive dyn_error :=
| IoError (k : io_ErrorKind)
| OtherDynError (msg : bytes).

Inductive RedisError :=
| ErrorRepr_General (kind : ErrorKind) (desc : string) (detail : option bytes)
| ErrorRepr_Internal (kind : ErrorKind) (err : dyn_error)
| ErrorRepr_Parsing (err : ParsingError)
| ErrorRepr_Server (err : ServerError)
| ErrorRepr_Pipeline (items : list (Z * ServerError))
| ErrorRepr_TransactionAborted (items : list (Z * ServerError)).

(** The [From] conversions. *)
Definition redis_error_of_io (k : io_ErrorKind) : RedisError := ErrorRepr_Internal Io (IoError k).
Definition redis_error_of (kind : ErrorKind) (desc : string) : RedisError :=
  ErrorRepr_General kind desc None.
Definition redis_error_of_detail (kind : ErrorKind) (desc : string) (detail : bytes) : RedisError :=
  ErrorRepr_General kind desc (Some detail).
Definition redis_error_of_server (e : ServerError) : RedisError := ErrorRepr_Server e.
Definition redis_error_of_parsing (e : ParsingError) : RedisError := ErrorRepr_Parsing e.

(** [impl PartialEq for RedisError]. *)
Definition RedisError_eqb (a b : RedisError) : bool :=
  match a, b with
  | ErrorRepr_General kind_a _ _, ErrorRepr_General kind_b _ _ => bool_decide (kind_a = kind_b)
  | ErrorRepr_Parsing a, ErrorRepr_Parsing b => bool_decide (a = b)
  | ErrorRepr_Server a, ErrorRepr_Server b => bool_decide (a = b)
  | ErrorRepr_Pipeline a, ErrorRepr_Pipeline b => bool_decide (a = b)
  | _, _ => false
  end.

Definition kind (e : RedisError) : ErrorKind :=
  match e with
  | ErrorRepr_General k _ _ | ErrorRepr_Internal k _ => k
  | ErrorRepr_Parsing _ => Parse
  | ErrorRepr_Server err =>
      match ServerError_kind err with Some k => Server k | None => Extension end
  | ErrorRepr_Pipeline items =>
      default Extension (head items ≫= fun item => Server <$> ServerError_kind item.2)
  | ErrorRepr_TransactionAborted _ => Server ExecAbort
  end.

Definition detail (e : RedisError) : option bytes :=
  match e with
  | ErrorRepr_General _ _ d => d
  | ErrorRepr_Parsing err => Some (description err)
  | ErrorRepr_Server err => ServerError_details err
  | _ => None
  end.

Definition code (e : RedisError) : option bytes :=
  match kind e with
  | Server k => Some (ServerErrorKind_code k)
  | _ => match e with ErrorRepr_Server err => Some (ServerError_code err) | _ => None end
  end.

Definition category (e : RedisError) : string :=
  match kind e with
  | Server ResponseError => "response error"
  | AuthenticationFailed => "authentication failed"
  | UnexpectedReturnType => "type error"
  | Server ExecAbort => "script execution aborted"
  | Server BusyLoading => "busy loading"
  | Server NoScript => "no script"
  | InvalidClientConfig => "invalid client config"
  | Server Moved => "key moved"
  | Server Ask => "key moved (ask)"
  | Server TryAgain => "try again"
  | Server ClusterDown => "cluster down"
  | Server CrossSlot => "cross-slot"
  | Server MasterDown => "master down"
  | Io => "I/O error"
  | Extension => "extension error"
  | Client => "client error"
  | Server ReadOnly => "read-only"
  | MasterNameNotFoundBySentinel => "master name not found by sentinel"
  | NoValidReplicasFoundBySentinel => "no valid replicas found by sentinel"
  | EmptySentinelList => "empty sentinel list"
  | Server NotBusy => "not busy"
  | ClusterConnectionNotFound => "connection to node in cluster not found"
  | Serialize => "serializing"
  | RESP3NotSupported => "resp3 is not supported by server"
  | Parse => "parse error"
  | Server NoSub => "Server declined unsubscribe related command in non-subscribed mode"
  | Server NoPerm => ""
  end.

Definition is_io_error (e : RedisError) : bool := bool_decide (kind e = Io).

Definition as_io_error (e : RedisError) : option io_ErrorKind :=
  match e with
  | ErrorRepr_Internal _ (IoError k) => Some k
  | _ => None
  end.

Definition is_cluster_error (e : RedisError) : bool :=
  match kind e with
  | Server Moved | Server Ask | Server TryAgain | Server ClusterDown => true
  | _ => false
  end.

(** [is_some_and]. *)
Definition is_some_and {A} (o : option A) (p : A -> bool) : bool :=
  match o with Some a => p a | None => false end.

(** [cfg!(unix)]. *)
Class TargetOs := cfg_unix : bool.

Definition is_connection_refusal `{TargetOs} (e : RedisError) : bool :=
  is_some_and (as_io_error e) (fun k =>
    match k with
    | ConnectionRefused => true
    | NotFound => cfg_unix
    | _ => false
    end).

Definition is_timeout (e : RedisError) : bool :=
  is_some_and (as_io_error e) (fun k =>
    match k with TimedOut | WouldBlock => true | _ => false end).

Definition is_connection_dropped (e : RedisError) : bool :=
  match e with
  | ErrorRepr_General k _ _ => bool_decide (k = Io)
  | ErrorRepr_Internal _ _ =>
      is_some_and (as_io_error e) (fun k =>
        match k with
        | BrokenPipe | ConnectionReset | ConnectionRefused | ConnectionAborted
        | UnexpectedEof | NotConnected | NotFound => true
        | _ => false
        end)
  | _ => false
  end.

Definition retry_method (e : RedisError) : RetryMethod :=
  match kind e with
  | Server server_error => ServerErrorKind_retry_method server_error
  | MasterNameNotFoundBySentinel => WaitAndRetry
  | NoValidReplicasFoundBySentinel => WaitAndRetry
  | Extension => NoRetry
  | UnexpectedReturnType => NoRetry
  | InvalidClientConfig => NoRetry
  | Client => NoRetry
  | EmptySentinelList => NoRetry
  | Serialize => NoRetry
  | RESP3NotSupported => NoRetry
  | Parse => Reconnect
  | AuthenticationFailed => Reconnect
  | ClusterConnectionNotFound => ReconnectFromInitialConnections
  | Io =>
      if is_connection_dropped e then Reconnect
      else default NoRetry ((fun k =>
             match k with PermissionDenied | Unsupported => NoRetry | _ => RetryImmediately end)
             <$> as_io_error e)
  end.

Definition is_unrecoverable_error (e : RedisError) : bool :=
  match retry_method e with
  | Reconnect | ReconnectFromInitialConnections => true
  | NoRetry | RetryImmediately | WaitAndRetry | AskRedirect | MovedRedirect
  | RefreshSlotsAndRetry => false
  end.

(** Returns [(addr, slot_id)]. *)
Definition redirect_node (e : RedisError) : option (bytes * Z) :=
  match kind e with
  | Server Ask | Server Moved =>
      d ← detail e;
      match split_ascii_whitespace d with
      | w :: rest =>
          slot_id ← parse_int u16_ty w;
          match rest with
          | addr :: _ => Some (addr, slot_id)
          | [] => None
          end
      | [] => None
      end
  | _ => None
  end.

Definition into_server_errors (e : RedisError) : option (list (Z * ServerError)) :=
  match e with
  | ErrorRepr_Pipeline items => Some items
  | ErrorRepr_TransactionAborted errs => Some errs
  | ErrorRepr_Server err => Some [(0, err)]
  | _ => None
  end.

(** [RedisError::pipeline], [make_aborted_transaction], [make_empty_command],
    [make_extension_error] and [closed_connection_error]. *)
Definition pipeline_error (errors : list (Z * ServerError)) : RedisError :=
  ErrorRepr_Pipeline errors.
Definition make_aborted_transaction (errs : list (Z * ServerError)) : RedisError :=
  ErrorRepr_TransactionAborted errs.
Definition make_empty_command : RedisError := ErrorRepr_General Client "empty command" None.
Definition make_extension_error (code : bytes) (detail : option bytes) : RedisError :=
  ErrorRepr_Server (Repr_Extension code detail).
Definition closed_connection_error : RedisError := redis_error_of_io BrokenPipe.

(** [TryFrom<RedisError> for ServerError]. *)
Definition try_into_server_error (e : RedisError) : result RedisError ServerError :=
  match e with ErrorRepr_Server err => Ok err | _ => Err e end.

(** ** parser.rs, [err_parser] *)

Definition SP : byte := x20.

(** The [match] on the first word: the known codes. *)
Definition known_code (code : bytes) : option ServerErrorKind :=
  if bytes_eqb code (bs "ERR") then Some ResponseError
  else if bytes_eqb code (bs "EXECABORT") then Some ExecAbort
  else if bytes_eqb code (bs "LOADING") then Some BusyLoading
  else if bytes_eqb code (bs "NOSCRIPT") then Some NoScript
  else if bytes_eqb code (bs "MOVED") then Some Moved
  else if bytes_eqb code (bs "ASK") then Some Ask
  else if bytes_eqb code (bs "TRYAGAIN") then Some TryAgain
  else if bytes_eqb code (bs "CLUSTERDOWN") then Some ClusterDown
  else if bytes_eqb code (bs "CROSSSLOT") then Some CrossSlot
  else if bytes_eqb code (bs "MASTERDOWN") then Some MasterDown
  else if bytes_eqb code (bs "READONLY") then Some ReadOnly
  else if bytes_eqb code (bs "NOTBUSY") then Some NotBusy
  else if bytes_eqb code (bs "NOSUB") then Some NoSub
  else if bytes_eqb code (bs "NOPERM") then Some NoPerm
  else None.

Definition err_parser (line : bytes) : ServerError :=
  let '(first, second) := splitn2 SP line in
  match known_code first with
  | Some k => Repr_Known k second
  | None => Repr_Extension first second
  end.

(** ** Lemmas *)

(** The code table and the recogniser of the parser agree. *)
Lemma known_code_code k : known_code (ServerErrorKind_code k) = Some k.
Proof. by destruct k. Qed.

Lemma known_code_Some c k : known_code c = Some k -> c = ServerErrorKind_code k.
Proof. unfold known_code. intros H. repeat case_match; simplify_eq; by bool_to_prop. Qed.

Lemma code_no_space k : SP ∉ ServerErrorKind_code k.
Proof. destruct k; vm_compute; set_solver. Qed.

Lemma err_parser_detail code d :
  SP ∉ code ->
  err_parser (code ++ SP :: d) =
  match known_code code with
  | Some k => Repr_Known k (Some d)
  | None => Repr_Extension code (Some d)
  end.
Proof. intros H. unfold err_parser, splitn2. by rewrite split_once_app. Qed.

Lemma err_parser_bare code : SP ∉ code ->
  err_parser code =
  match known_code code with
  | Some k => Repr_Known k None
  | None => Repr_Extension code None
  end.
Proof. intros H. unfold err_parser, splitn2. by rewrite (proj2 (split_once_None _ _)). Qed.

(** The line a server sends for an error. *)
Definition error_line (e : ServerError) : bytes :=
  match ServerError_details e with
  | Some d => ServerError_code e ++ SP :: d
  | None => ServerError_code e
  end.

(** The code of an extension error is a single word, and not a known one. *)
Definition error_splits (e : ServerError) : bool :=
  match e with
  | Repr_Known _ _ => true
  | Repr_Extension c _ => bool_decide (known_code c = None) && bool_decide (SP ∉ c)
  end.

Lemma err_parser_error_line e : error_splits e = true -> err_parser (error_line e) = e.
Proof.
  unfold error_splits, error_line. intros He.
  destruct e as [c [d|]|k [d|]]; cbn [ServerError_details ServerError_code] in *; bool_to_prop.
  - by rewrite err_parser_detail, H.
  - by rewrite err_parser_bare, H.
  - rewrite err_parser_detail by apply code_no_space. by rewrite known_code_code.
  - rewrite err_parser_bare by apply code_no_space. by rewrite known_code_code.
Qed.

(** Words of a line: a word free of white space before a separator comes out
    whole. *)
Lemma split_ws_go_word cur w b s :
  Forall (fun c => is_ascii_whitespace c = false) w ->
  is_ascii_whitespace b = true -> w <> [] \/ cur <> [] ->
  split_ws_go cur (w ++ b :: s) = (reverse cur ++ w) :: split_ws_go [] s.
Proof.
  intros HF Hb. revert cur. induction HF as [|c w Hc HF IH]; intros cur Hne; simpl.
  - rewrite Hb, bool_decide_eq_false_2 by (by destruct Hne). by rewrite app_nil_r.
  - rewrite Hc, IH by (by right). by rewrite reverse_cons, <-app_assoc.
Qed.

Lemma split_ws_go_last cur w :
  Forall (fun c => is_ascii_whitespace c = false) w -> w <> [] \/ cur <> [] ->
  split_ws_go cur w = [reverse cur ++ w].
Proof.
  intros HF. revert cur. induction HF as [|c w Hc HF IH]; intros cur Hne; simpl.
  - rewrite bool_decide_eq_false_2 by (by destruct Hne). by rewrite app_nil_r.
  - rewrite Hc, IH by (by right). by rewrite reverse_cons, <-app_assoc.
Qed.

Lemma digit_not_ws b : is_digit b -> is_ascii_whitespace b = false.
Proof.
  unfold is_digit, is_ascii_whitespace, between. intros H.
  rewrite !orb_false_iff, !andb_false_iff, !Z.leb_gt. lia.
Qed.

(** ** Properties *)

Definition redirect_code (ask : bool) : bytes := if ask then bs "ASK" else bs "MOVED".

(** No information of an error line is lost: the code and the detail of the
    [ServerError] that [err_parser] builds give back the line, for every line. *)
Theorem err_parser_lossless (line : bytes) : error_line (err_parser line) = line.
Proof.
  unfold err_parser, splitn2. destruct (split_once SP line) as [[a b]|] eqn:E.
  - apply split_once_Some in E as [-> _].
    destruct (known_code a) as [k|] eqn:Ek; unfold error_line; simpl; [|done].
    by apply known_code_Some in Ek as ->.
  - destruct (known_code line) as [k|] eqn:Ek; unfold error_line; simpl; [|done].
    by apply known_code_Some in Ek as ->.
Qed.

(** A redirection is understood as the server meant it: for a [MOVED] or
    [ASK] line with a slot and an address, [redirect_node] returns that address
    and slot, and the retry method is the matching redirect. *)
Theorem redirect_line_understood (ask : bool) (slot : Z) (addr : bytes)
    (Hs : in_u16 slot) (Ha : addr <> [])
    (Hw : Forall (fun c => is_ascii_whitespace c = false) addr) :
  let e := redis_error_of_server (err_parser (redirect_code ask ++ SP :: itoa slot ++ SP :: addr)) in
  redirect_node e = Some (addr, slot) /\
  retry_method e = (if ask then AskRedirect else MovedRedirect) /\
  is_unrecoverable_error e = false.
Proof.
  assert (Forall (fun c => is_ascii_whitespace c = false) (itoa slot)) as Hd.
  { unfold in_u16 in Hs. unfold itoa. rewrite (proj2 (Z.ltb_ge _ _)) by lia.
    eapply Forall_impl; [apply dec_digits_only; lia|]. apply digit_not_ws. }
  assert (split_ascii_whitespace (itoa slot ++ SP :: addr) = [itoa slot; addr]) as Hsplit.
  { unfold split_ascii_whitespace. pose proof (itoa_nonempty slot).
    rewrite split_ws_go_word by (done || by left). by rewrite split_ws_go_last by (done || by left). }
  assert (parse_int u16_ty (itoa slot) = Some slot) as Hp.
  { apply parse_int_itoa; [done|]. unfold in_u16 in Hs. unfold in_ty, u16_ty. simpl. lia. }
  rewrite err_parser_detail by (destruct ask; vm_compute; set_solver).
  destruct ask; simpl; unfold redirect_node; simpl; rewrite Hsplit, Hp; done.
Qed.

Lemma redirect_line_understood_witness :
  redirect_node (redis_error_of_server (err_parser (bs "MOVED 3999 127.0.0.1:6381"))) =
  Some (bs "127.0.0.1:6381", 3999).
Proof.
  apply (redirect_line_understood false 3999 (bs "127.0.0.1:6381"));
    [split; vm_compute; congruence | done | repeat constructor].
Defined.
