(* ===== verification/Types.v ===== *)
(** * The data model: [redis/src/types.rs]

    [Value] and the enums around it, the sequence and map views of a value,
    [extract_error], and [InfoDict], [Role], [ValueType] and
    [IntegerReplyOrNoOp].  The build without the [num-bigint] feature is
    modelled: a [BigNumber] holds the digits as received. *)

From S2P Require Import Prelude Text Float64 Errors.
Local Open Scope Z_scope.

Inductive VerbatimFormat :=
| Unknown (s : bytes)
| Markdown
| Text.

#[export] Instance VerbatimFormat_eq_dec : EqDecision VerbatimFormat.
Proof. solve_decision. Defined.

Inductive PushKind :=
| Disconnection | Other (s : bytes) | Invalidate | Message | PMessage | SMessage
| Unsubscribe | PUnsubscribe | SUnsubscribe | Subscribe | PSubscribe | SSubscribe.

#[export] Instance PushKind_eq_dec : EqDecision PushKind.
Proof. solve_decision. Defined.

Definition has_reply (k : PushKind) : bool :=
  match k with
  | Unsubscribe | PUnsubscribe | SUnsubscribe | Subscribe | PSubscribe | SSubscribe => true
  | _ => false
  end.

(** [Display for VerbatimFormat]. *)
Definition VerbatimFormat_display (f : VerbatimFormat) : bytes :=
  match f with Markdown => bs "mkd" | Unknown val => val | Text => bs "txt" end.

(** [Display for PushKind]. *)
Definition PushKind_display (k : PushKind) : bytes :=
  match k with
  | Other kind => kind
  | Invalidate => bs "invalidate"
  | Message => bs "message"
  | PMessage => bs "pmessage"
  | SMessage => bs "smessage"
  | Unsubscribe => bs "unsubscribe"
  | PUnsubscribe => bs "punsubscribe"
  | SUnsubscribe => bs "sunsubscribe"
  | Subscribe => bs "subscribe"
  | PSubscribe => bs "psubscribe"
  | SSubscribe => bs "ssubscribe"
  | Disconnection => bs "disconnection"
  end.

Inductive Value : Type :=
| Nil
| Int (n : Z)
| BulkString (b : bytes)
| Array (items : list Value)
| SimpleString (s : bytes)
| Okay
| Map (items : list (Value * Value))
| Attribute (data : Value) (attributes : list (Value * Value))
| Set_ (items : list Value)
| Double (d : f64)
| Boolean (b : bool)
| VerbatimString (format : VerbatimFormat) (text : bytes)
| BigNumber (digits : bytes)
| Push (kind : PushKind) (data : list Value)
| ServerErr (e : ServerError).

#[export] Instance Value_inhabited : Inhabited Value := populate Nil.

(** Induction with hypotheses for the elements of every container. *)
Section Value_ind.
Variable P : Value -> Prop.
Hypothesis HNil : P Nil.
Hypothesis HInt : forall n, P (Int n).
Hypothesis HBulk : forall b, P (BulkString b).
Hypothesis HArray : forall l, Forall P l -> P (Array l).
Hypothesis HSimple : forall s, P (SimpleString s).
Hypothesis HOkay : P Okay.
Hypothesis HMap : forall l, Forall (fun kv => P kv.1 /\ P kv.2) l -> P (Map l).
Hypothesis HAttribute : forall d l, P d -> Forall (fun kv => P kv.1 /\ P kv.2) l ->
  P (Attribute d l).
Hypothesis HSet : forall l, Forall P l -> P (Set_ l).
Hypothesis HDouble : forall d, P (Double d).
Hypothesis HBoolean : forall b, P (Boolean b).
Hypothesis HVerbatim : forall f t, P (VerbatimString f t).
Hypothesis HBig : forall b, P (BigNumber b).
Hypothesis HPush : forall k l, Forall P l -> P (Push k l).
Hypothesis HErr : forall e, P (ServerErr e).

Fixpoint Value_ind' (v : Value) : P v :=
  let list_ind := fix list_ind (l : list Value) : Forall P l :=
    match l with
    | [] => Forall_nil_2 _
    | v :: l => Forall_cons_2 _ _ _ (Value_ind' v) (list_ind l)
    end in
  let map_ind := fix map_ind (l : list (Value * Value)) :
      Forall (fun kv => P kv.1 /\ P kv.2) l :=
    match l with
    | [] => Forall_nil_2 _
    | (k, v) :: l =>
        Forall_cons_2 _ (k, v) _ (conj (Value_ind' k) (Value_ind' v)) (map_ind l)
    end in
  match v with
  | Nil => HNil
  | Int n => HInt n
  | BulkString b => HBulk b
  | Array l => HArray l (list_ind l)
  | SimpleString s => HSimple s
  | Okay => HOkay
  | Map l => HMap l (map_ind l)
  | Attribute d l => HAttribute d l (Value_ind' d) (map_ind l)
  | Set_ l => HSet l (list_ind l)
  | Double d => HDouble d
  | Boolean b => HBoolean b
  | VerbatimString f t => HVerbatim f t
  | BigNumber b => HBig b
  | Push k l => HPush k l (list_ind l)
  | ServerErr e => HErr e
  end.
End Value_ind.

(** ** Views *)

Definition looks_like_cursor (v : Value) : bool :=
  match v with
  | Array items =>
      if negb (Nat.eqb (length items) 2) then false
      else match items with
           | BulkString _ :: Array _ :: _ => true
           | _ => false
           end
  | _ => false
  end.

Definition as_sequence (v : Value) : option (list Value) :=
  match v with
  | Array items | Set_ items => Some items
  | Nil => Some []
  | _ => None
  end.

Definition into_sequence (v : Value) : result Value (list Value) :=
  match v with
  | Array items | Set_ items => Ok items
  | Nil => Ok []
  | _ => Err v
  end.

(** [MapIter]/[OwnedMapIter]: what is left to iterate over. *)
Inductive MapIter :=
| MapIter_Array (it : list Value)
| MapIter_Map (it : list (Value * Value)).

Definition MapIter_next (it : MapIter) : option ((Value * Value) * MapIter) :=
  match it with
  | MapIter_Array (k :: v :: it) => Some ((k, v), MapIter_Array it)
  | MapIter_Array _ => None
  | MapIter_Map (kv :: it) => Some (kv, MapIter_Map it)
  | MapIter_Map [] => None
  end.

(** Running the iterator to its end. *)
Fixpoint pairs_of (l : list Value) : list (Value * Value) :=
  match l with
  | k :: v :: l => (k, v) :: pairs_of l
  | _ => []
  end.
Definition MapIter_collect (it : MapIter) : list (Value * Value) :=
  match it with MapIter_Array l => pairs_of l | MapIter_Map l => l end.

Definition as_map_iter (v : Value) : option MapIter :=
  match v with
  | Array items => if Nat.eqb (length items mod 2) 0 then Some (MapIter_Array items) else None
  | Map items => Some (MapIter_Map items)
  | _ => None
  end.

Definition into_map_iter (v : Value) : result Value MapIter :=
  match v with
  | Array items =>
      if Nat.eqb (length items mod 2) 0 then Ok (MapIter_Array items) else Err (Array items)
  | Map items => Ok (MapIter_Map items)
  | _ => Err v
  end.

Definition is_collection_of_len (v : Value) (len : nat) : bool :=
  match v with
  | Array values | Set_ values => Nat.eqb (length values) len
  | Map items => Nat.eqb (length items * 2) len
  | _ => false
  end.

(** [OwnedMapIter::size_hint]'s lower bound. *)
Definition OwnedMapIter_size_hint (it : MapIter) : nat :=
  match it with MapIter_Array l => (length l / 2)%nat | MapIter_Map l => length l end.

(** ** extract_error *)

Fixpoint extract_error (v : Value) : result RedisError Value :=
  let extract_error_vec := fix extract_error_vec (l : list Value) : result RedisError (list Value) :=
    match l with
    | [] => Ok []
    | v :: l => match extract_error v with
                | Err e => Err e
                | Ok v' => match extract_error_vec l with
                           | Err e => Err e
                           | Ok l' => Ok (v' :: l')
                           end
                end
    end in
  let extract_error_map := fix extract_error_map (l : list (Value * Value)) :
      result RedisError (list (Value * Value)) :=
    match l with
    | [] => Ok []
    | (key, value) :: l =>
        match extract_error key with
        | Err e => Err e
        | Ok key' =>
            match extract_error value with
            | Err e => Err e
            | Ok value' => match extract_error_map l with
                           | Err e => Err e
                           | Ok l' => Ok ((key', value') :: l')
                           end
            end
        end
    end in
  match v with
  | Array val => match extract_error_vec val with Ok l => Ok (Array l) | Err e => Err e end
  | Map map => match extract_error_map map with Ok l => Ok (Map l) | Err e => Err e end
  | Attribute data attributes =>
      match extract_error data with
      | Err e => Err e
      | Ok data => match extract_error_map attributes with
                   | Ok l => Ok (Attribute data l)
                   | Err e => Err e
                   end
      end
  | Set_ set => match extract_error_vec set with Ok l => Ok (Set_ l) | Err e => Err e end
  | Push kind data =>
      match extract_error_vec data with Ok l => Ok (Push kind l) | Err e => Err e end
  | ServerErr err => Err (redis_error_of_server err)
  | _ => Ok v
  end.

(** [Value::extract_error_vec]. *)
Definition extract_error_vec (l : list Value) : result RedisError (list Value) :=
  try_map extract_error l.

(** [Value::extract_error_map]. *)
Fixpoint extract_error_map (l : list (Value * Value)) : result RedisError (list (Value * Value)) :=
  match l with
  | [] => Ok []
  | (key, value) :: l =>
      match extract_error key with
      | Err e => Err e
      | Ok key' =>
          match extract_error value with
          | Err e => Err e
          | Ok value' => match extract_error_map l with
                         | Err e => Err e
                         | Ok l' => Ok ((key', value') :: l')
                         end
          end
      end
  end.

Definition is_error_that_requires_action (v : Value) : bool :=
  match v with ServerErr error => requires_action error | _ => false end.

(** ** InfoDict *)

Definition COLON : byte := x3a.

(** [str::lines]: split at line feeds, drop a trailing carriage return of every
    line and a final empty line. *)
Fixpoint lines_go (cur s : bytes) : list bytes :=
  match s with
  | [] => if bool_decide (cur = []) then [] else [reverse cur]
  | b :: s => if bool_decide (b = LF)
              then reverse (match cur with c :: cur' => if bool_decide (c = CR) then cur' else cur
                                         | [] => [] end) :: lines_go [] s
              else lines_go (b :: cur) s
  end.
Definition lines (s : bytes) : list bytes := lines_go [] s.

Definition HASH : byte := x23.

(** [InfoDict::new]: later lines overwrite earlier ones. *)
Definition InfoDict_new (kvpairs : bytes) : gmap bytes Value :=
  foldl (fun m line =>
    if bool_decide (line = []) || starts_with [HASH] line then m
    else match splitn2 COLON line with
         | (k, Some v) => <[k := SimpleString v]> m
         | (_, None) => m
         end) ∅ (lines kvpairs).

Definition InfoDict_find (d : gmap bytes Value) (key : bytes) : option Value := d !! key.
Definition InfoDict_contains_key (d : gmap bytes Value) (key : bytes) : bool :=
  bool_decide (is_Some (InfoDict_find d key)).

(** ** PushInfo *)

Record PushInfo := { push_kind : PushKind; push_data : list Value }.
Definition PushInfo_disconnect : PushInfo := {| push_kind := Disconnection; push_data := [] |}.

(** ** ProtocolVersion *)

Inductive ProtocolVersion := RESP2 | RESP3.
#[export] Instance ProtocolVersion_eq_dec : EqDecision ProtocolVersion.
Proof. solve_decision. Defined.
Definition supports_resp3 (p : ProtocolVersion) : bool := negb (bool_decide (p = RESP2)).

(** ** Specification of [extract_error] *)

(** All server errors inside a value, in reading order. *)
Fixpoint errors_of (v : Value) : list ServerError :=
  match v with
  | Array l | Set_ l | Push _ l => flat_map errors_of l
  | Map l => flat_map (fun kv => errors_of kv.1 ++ errors_of kv.2) l
  | Attribute d l => errors_of d ++ flat_map (fun kv => errors_of kv.1 ++ errors_of kv.2) l
  | ServerErr e => [e]
  | _ => []
  end.

(** The outcome of [extract_error] read off the list of errors. *)
Definition extract_spec (v : Value) (errs : list ServerError) : result RedisError Value :=
  match errs with [] => Ok v | e :: _ => Err (redis_error_of_server e) end.

(** ** Lemmas *)

Lemma extract_error_Array l : extract_error (Array l) = Array <$> extract_error_vec l.
Proof.
  unfold extract_error_vec. cbn [extract_error].
  match goal with |- match ?f l with _ => _ end = _ => assert (f l = try_map extract_error l) as -> end;
    [|done].
  induction l as [|v l IH]; [done|]. simpl. rewrite <-IH. by case_match.
Qed.

Lemma extract_error_Set l : extract_error (Set_ l) = Set_ <$> extract_error_vec l.
Proof.
  pose proof (extract_error_Array l) as H. cbn [extract_error] in *.
  match goal with |- match ?f l with _ => _ end = _ => destruct (f l) eqn:E end;
    destruct (extract_error_vec l); by simplify_eq/=.
Qed.

Lemma extract_error_Push k l : extract_error (Push k l) = Push k <$> extract_error_vec l.
Proof.
  pose proof (extract_error_Array l) as H. cbn [extract_error] in *.
  match goal with |- match ?f l with _ => _ end = _ => destruct (f l) eqn:E end;
    destruct (extract_error_vec l); by simplify_eq/=.
Qed.

Lemma extract_error_Map l : extract_error (Map l) = Map <$> extract_error_map l.
Proof.
  cbn [extract_error].
  match goal with |- match ?f l with _ => _ end = _ => assert (f l = extract_error_map l) as -> end;
    [|done].
  induction l as [|[k v] l IH]; [done|]. simpl. rewrite <-IH. by repeat case_match.
Qed.

Lemma extract_error_Attribute d l :
  extract_error (Attribute d l) =
  match extract_error d with
  | Err e => Err e
  | Ok d' => Attribute d' <$> extract_error_map l
  end.
Proof.
  pose proof (extract_error_Map l) as H. cbn [extract_error] in *.
  destruct (extract_error d); [|done].
  match goal with |- match ?f l with _ => _ end = _ => destruct (f l) eqn:E end;
    destruct (extract_error_map l); by simplify_eq/=.
Qed.

Lemma extract_error_vec_spec l :
  Forall (fun v => extract_error v = extract_spec v (errors_of v)) l ->
  extract_error_vec l =
  match flat_map errors_of l with [] => Ok l | e :: _ => Err (redis_error_of_server e) end.
Proof.
  unfold extract_error_vec. induction 1 as [|v l Hv _ IH]; [done|]. simpl.
  rewrite Hv. unfold extract_spec. destruct (errors_of v); simpl; [|done].
  rewrite IH. by destruct (flat_map errors_of l).
Qed.

Lemma extract_error_map_spec l :
  Forall (fun kv => extract_error kv.1 = extract_spec kv.1 (errors_of kv.1)
                 /\ extract_error kv.2 = extract_spec kv.2 (errors_of kv.2)) l ->
  extract_error_map l =
  match flat_map (fun kv => errors_of kv.1 ++ errors_of kv.2) l with
  | [] => Ok l | e :: _ => Err (redis_error_of_server e)
  end.
Proof.
  induction 1 as [|[k v] l [Hk Hv] _ IH]; [done|]. simpl in *.
  rewrite Hk, Hv. unfold extract_spec. destruct (errors_of k); simpl; [|done].
  destruct (errors_of v); simpl; [|done].
  rewrite IH. by case_match.
Qed.

Lemma extract_error_spec v : extract_error v = extract_spec v (errors_of v).
Proof.
  induction v as [| | |l IH| | |l IH|d l IHd IH|l IH| | | | |k l IH|] using Value_ind'; try done.
  - rewrite extract_error_Array, extract_error_vec_spec by done. simpl. by case_match.
  - rewrite extract_error_Map, extract_error_map_spec by done. simpl. by case_match.
  - rewrite extract_error_Attribute, IHd, extract_error_map_spec by done.
    unfold extract_spec. simpl. destruct (errors_of d); simpl; [|done]. by case_match.
  - rewrite extract_error_Set, extract_error_vec_spec by done. simpl. by case_match.
  - rewrite extract_error_Push, extract_error_vec_spec by done. simpl. by case_match.
Qed.

(** [Value::extract_error] returns its argument unchanged when no server error occurs
    anywhere inside it, and otherwise fails with the first one in reading order. *)
Theorem extract_error_correct (v : Value) :
  extract_error v =
  match errors_of v with [] => Ok v | e :: _ => Err (redis_error_of_server e) end.
Proof. apply extract_error_spec. Qed.
