(* ===== verification/Parser.v ===== *)
(** * The RESP parser: [redis/src/parser.rs]

    Every closure of [value] is a definition of its own, over the [Combine]
    interface; [value] ties them together.  The source counts the nesting depth
    upwards and refuses a value at depth [MAX_RECURSE_DEPTH + 1]; the model
    recurses on the levels that are left, so it is total without fuel.

    [ValueCodec] keeps the opaque resumption state of [combine]; the model
    keeps the bytes that state has already absorbed (class [DecodeTokio]). *)

From S2P Require Import Prelude Text Float64 Combine Errors Types.
Local Open Scope Z_scope.

Definition MAX_RECURSE_DEPTH : nat := 100.

Definition get_push_kind (kind : bytes) : PushKind :=
  if bytes_eqb kind (bs "invalidate") then Invalidate
  else if bytes_eqb kind (bs "message") then Message
  else if bytes_eqb kind (bs "pmessage") then PMessage
  else if bytes_eqb kind (bs "smessage") then SMessage
  else if bytes_eqb kind (bs "unsubscribe") then Unsubscribe
  else if bytes_eqb kind (bs "punsubscribe") then PUnsubscribe
  else if bytes_eqb kind (bs "sunsubscribe") then SUnsubscribe
  else if bytes_eqb kind (bs "subscribe") then Subscribe
  else if bytes_eqb kind (bs "psubscribe") then PSubscribe
  else if bytes_eqb kind (bs "ssubscribe") then SSubscribe
  else Other kind.

(** [for _ in 0..kv_length { if let (Some(k), Some(v)) = (it.next(), it.next()) .. }]:
    the collected pairs and what is left of the iterator. *)
Fixpoint collect_pairs (kv_length : nat) (it : list Value) : list (Value * Value) * list Value :=
  match kv_length with
  | O => ([], it)
  | S n => match it with
           | k :: v :: it => let '(x, it) := collect_pairs n it in ((k, v) :: x, it)
           | _ => ([], [])
           end
  end.

(** [usize::checked_mul(2)]. *)
Definition checked_mul2 (n : Z) : option Z := if n * 2 <=? usize_max then Some (n * 2) else None.

Definition push_of_values (result : list Value) : Prelude.result string Value :=
  let first := default Nil (head result) in
  let data := tail result in
  match first with
  | BulkString kind =>
      match from_utf8 kind with
      | Ok push_kind => Ok (Push (get_push_kind push_kind) data)
      | Err _ => Err "invalid utf-8"
      end
  | SimpleString kind => Ok (Push (get_push_kind kind) data)
  | _ => Err "parse error when decoding push"
  end.

Definition verbatim_of_line (line : bytes) : result string Value :=
  match split_once COLON line with
  | Some (format, text) =>
      let format := if bytes_eqb format (bs "txt") then Text
                    else if bytes_eqb format (bs "mkd") then Markdown
                    else Unknown format in
      Ok (VerbatimString format text)
  | None => Err "parse error when decoding verbatim string"
  end.

Definition boolean_of_line (line : bytes) : result string bool :=
  if bytes_eqb line (bs "t") then Ok true
  else if bytes_eqb line (bs "f") then Ok false
  else Err "Expected boolean, got garbage".

Section parser.
Context `{C : Combine}.

Definition line_p : parser bytes :=
  and_then (recognize (with_ (take_until_bytes CRLF) (pmap (take_ 2) (fun _ => tt))))
    (fun line => map_err (fun _ => "invalid utf-8") (from_utf8 (take (length line - 2) line))).

Definition simple_string_p : parser Value :=
  pmap line_p (fun line => if bytes_eqb line (bs "OK") then Okay else SimpleString line).

Definition int_p : parser Z :=
  and_then line_p (fun line =>
    ok_or (parse_int i64_ty (trim line)) "Expected integer, got garbage").

Definition bulk_string_p : parser Value :=
  then_partial int_p (fun size =>
    if size <? 0 then produce Nil
    else skip (pmap (take_ (as_usize size)) BulkString) crlf).

Definition blob_p : parser bytes :=
  then_partial int_p (fun size => skip (pmap (take_ (as_usize size)) from_utf8_lossy) crlf).

Definition array_p (value : parser Value) : parser Value :=
  then_partial int_p (fun length =>
    if length <? 0 then produce Nil
    else let length := as_usize length in
         pmap (count_min_max length length value) Array).

Definition error_p : parser ServerError := pmap line_p err_parser.

Definition map_p (value : parser Value) : parser Value :=
  then_partial int_p (fun kv_length =>
    match checked_mul2 (as_usize kv_length) with
    | Some length =>
        pmap (count_min_max length length value)
          (fun result => Map (collect_pairs (Z.to_nat kv_length) result).1)
    | None => unexpected_any "Attribute key-value length is too large"
    end).

Definition attribute_p (value : parser Value) : parser Value :=
  then_partial int_p (fun kv_length =>
    match checked_mul2 (as_usize kv_length) with
    | Some length =>
        let length := length + 1 in
        pmap (count_min_max length length value)
          (fun result => let '(attributes, it) := collect_pairs (Z.to_nat kv_length) result in
                         Attribute (default Nil (head it)) attributes)
    | None => unexpected_any "Attribute key-value length is too large"
    end).

Definition set_p (value : parser Value) : parser Value :=
  then_partial int_p (fun length =>
    if length <? 0 then produce Nil
    else let length := as_usize length in
         pmap (count_min_max length length value) Set_).

Definition push_p (value : parser Value) : parser Value :=
  then_partial int_p (fun length =>
    if length <=? 0 then produce (Push (Other []) [])
    else let length := as_usize length in
         and_then (count_min_max length length value) push_of_values).

Definition null_p : parser Value := pmap line_p (fun _ => Nil).

Definition double_p : parser f64 :=
  and_then line_p (fun line => ok_or (parse_f64 (trim line)) "invalid float literal").

Definition boolean_p : parser bool := and_then line_p boolean_of_line.

Definition blob_error_p : parser ServerError := pmap blob_p err_parser.

Definition verbatim_p : parser Value := and_then blob_p verbatim_of_line.

Definition big_number_p : parser Value := and_then line_p (fun line => Ok (BigNumber line)).

(** [combine::dispatch!]: the parser of a type byte. *)
Definition dispatch (value : parser Value) (b : byte) : parser Value :=
  if bool_decide (b = "+"%byte) then simple_string_p
  else if bool_decide (b = ":"%byte) then pmap int_p Int
  else if bool_decide (b = "$"%byte) then bulk_string_p
  else if bool_decide (b = "*"%byte) then array_p value
  else if bool_decide (b = "%"%byte) then map_p value
  else if bool_decide (b = "|"%byte) then attribute_p value
  else if bool_decide (b = "~"%byte) then set_p value
  else if bool_decide (b = "-"%byte) then pmap error_p ServerErr
  else if bool_decide (b = "_"%byte) then null_p
  else if bool_decide (b = ","%byte) then pmap double_p Double
  else if bool_decide (b = "#"%byte) then pmap boolean_p Boolean
  else if bool_decide (b = "!"%byte) then pmap blob_error_p ServerErr
  else if bool_decide (b = "="%byte) then verbatim_p
  else if bool_decide (b = "("%byte) then big_number_p
  else if bool_decide (b = ">"%byte) then push_p value
  else unexpected_any "unexpected token".

(** [value(Some(count))] with [lvl = MAX_RECURSE_DEPTH + 1 - count], so that
    [count > MAX_RECURSE_DEPTH] is [lvl = 0]. *)
Fixpoint value_at (lvl : nat) : parser Value :=
  then_partial
    (then_partial any (fun b =>
       match lvl with
       | O => unexpected_any "Maximum recursion depth exceeded"
       | S _ => produce b
       end))
    (fun b =>
       match lvl with
       | O => unexpected_any "Maximum recursion depth exceeded"
       | S lvl => dispatch (value_at lvl) b
       end).

(** [value(count)]; [None] is depth 1. *)
Definition value (count : option nat) : parser Value :=
  value_at (S MAX_RECURSE_DEPTH - default 1%nat count).

(** [to_redis_err!] on the outcome of decoding a whole reader: the end of the
    reader inside a value is an [UnexpectedEof], anything else a parse error. *)
Definition to_redis_err {A} (r : presult A) : result RedisError (A * bytes) :=
  match r with
  | POk a rest => Ok (a, rest)
  | PIncomplete => Err (redis_error_of_io UnexpectedEof)
  | PFail m => Err (redis_error_of_parsing (parsing_error m))
  end.

(** [Parser::parse_value]: the stream is what the decoder has buffered
    followed by what the reader still yields before its end; the result comes
    with the stream left for the next call. *)
Definition parse_value (stream : bytes) : result RedisError (Value * bytes) :=
  to_redis_err (value None stream).

Definition parse_redis_value (input : bytes) : result RedisError Value :=
  fst <$> parse_value input.
End parser.

(** ** Stability: a result does not depend on the bytes that follow *)

Lemma as_usize_nonneg z : 0 <= as_usize z.
Proof. unfold as_usize, as_u64. apply Z.mod_pos_bound. lia. Qed.

Lemma checked_mul2_Some n m : checked_mul2 n = Some m -> m = n * 2.
Proof. unfold checked_mul2. by case_match; intros [= <-]. Qed.

#[export] Hint Resolve as_usize_nonneg : redis.

Section stability.
Context `{C : Combine} {CL : CombineLaws C}.

Lemma stable_line : stable line_p.
Proof. unfold line_p. auto 10 with redis lia. Qed.

Lemma consuming_line : consuming line_p.
Proof.
  apply consuming_and_then. intros i a r. rewrite recognize_law.
  intros (u & r' & E & [= <- <-])%presult_bind_POk. revert E. rewrite with_law.
  intros (c & r1 & E1 & E2)%presult_bind_POk. apply (stable_length _ _ _ _) in E1; [|auto with redis].
  revert E2. rewrite pmap_law. intros (t & r2 & E2 & [= <- <-])%presult_bind_POk.
  rewrite take_law in E2 by lia. case_match; bool_to_prop; simplify_eq.
  rewrite length_drop. lia.
Qed.

Hint Resolve stable_line consuming_line : redis.

Lemma stable_int : stable int_p.
Proof. unfold int_p. auto with redis. Qed.
Lemma consuming_int : consuming int_p.
Proof. unfold int_p. auto with redis. Qed.

Hint Resolve stable_int consuming_int : redis.

Lemma tight_line : tight line_p.
Proof.
  unfold line_p. apply tight_and_then; [auto 10 with redis lia|].
  intros c a r. rewrite !recognize_law, !with_law, !take_until_bytes_law.
  destruct (find_bytes CRLF (c ++ r)) as [k|] eqn:Ek; [|done].
  cbn [presult_bind]. rewrite !pmap_law, !take_law by lia.
  case_match; [|done]. cbn [presult_bind]. intros E. injection E as Ea Er. rewrite Er in Ea.
  rewrite drop_drop in Er. change (Z.to_nat 2) with 2%nat in Er.
  assert (c = take (k + 2) (c ++ r)) as Hc.
  { apply (app_inv_tail r). rewrite <- Er at 3. by rewrite take_drop. }
  pose proof (find_bytes_bound _ _ _ Ek) as Hb. pose proof (find_bytes_take _ _ _ Ek) as Hk.
  change (length CRLF) with 2%nat in *. rewrite <- Hc in Hk. rewrite Hk. cbn [presult_bind].
  assert (length c = k + 2)%nat by (rewrite Hc at 1; rewrite length_take; lia).
  rewrite pmap_law, take_law, (proj2 (Z.leb_le _ _)) by (rewrite ?length_drop; lia).
  cbn [presult_bind]. rewrite drop_drop. change (Z.to_nat 2) with 2%nat.
  rewrite (drop_ge c) by lia. rewrite <- Ea. cbn [length].
  rewrite length_app, Nat.sub_0_r, firstn_all, take_app_le by lia.
  by rewrite take_ge by lia.
Qed.

Hint Resolve tight_line : redis.

Lemma tight_int : tight int_p.
Proof. unfold int_p. apply tight_and_then; auto with redis. Qed.

Hint Resolve tight_int : redis.

(** What the recursive call has to satisfy, and the whole parser satisfies. *)
Record sound (p : parser Value) : Prop := {
  sound_stable : stable p;
  sound_consuming : consuming p;
  sound_tight : tight p
}.

Lemma sound_dispatch value b : sound value -> sound (dispatch value b).
Proof.
  intros [Hs Hc Ht].
  assert (forall n, stable (count_min_max (as_usize n) (as_usize n) value)) by auto with redis.
  assert (forall n, tight (count_min_max (as_usize n) (as_usize n) value)) by auto with redis.
  unfold dispatch.
  repeat case_bool_decide; split;
    unfold simple_string_p, bulk_string_p, blob_error_p, verbatim_p, blob_p, array_p, error_p,
      map_p, attribute_p, set_p, push_p, null_p, double_p, boolean_p, big_number_p;
    parser_closure.
  all: match goal with E : checked_mul2 _ = Some _ |- _ => apply checked_mul2_Some in E; subst end.
  all: pose proof (as_usize_nonneg a); auto with redis lia.
Qed.

Lemma value_at_sound lvl : sound (value_at lvl).
Proof.
  induction lvl as [|lvl IH]; split; cbn [value_at]; parser_closure; by apply sound_dispatch.
Qed.

Lemma value_sound count : sound (value count).
Proof. apply value_at_sound. Qed.

Lemma value_nil count : value count [] = PIncomplete.
Proof.
  unfold value. by destruct (S MAX_RECURSE_DEPTH - _)%nat; cbn [value_at];
    rewrite !then_partial_law, any_nil.
Qed.
End stability.

#[export] Hint Resolve stable_line consuming_line stable_int consuming_int tight_line tight_int
  : redis.

(** ** Nesting depth *)

Fixpoint max_list (l : list nat) : nat :=
  match l with [] => 0 | n :: l => Nat.max n (max_list l) end.

(** The depth at which the parser meets the innermost part of a value; the
    kind of a push message is an element of it. *)
Fixpoint depth (v : Value) : nat :=
  match v with
  | Array l | Set_ l => S (max_list (map depth l))
  | Map l => S (max_list (map (fun '(k, w) => Nat.max (depth k) (depth w)) l))
  | Attribute d l =>
      S (Nat.max (max_list (map (fun '(k, w) => Nat.max (depth k) (depth w)) l)) (depth d))
  | Push _ l => S (Nat.max 1 (max_list (map depth l)))
  | _ => 1
  end.

Lemma max_list_le {A} (f : A -> nat) l n :
  (max_list (map f l) <= n)%nat <-> Forall (fun a => f a <= n)%nat l.
Proof.
  induction l as [|a l IH]; simpl; [split; [constructor | lia]|].
  rewrite Forall_cons, <- IH. lia.
Qed.

Lemma depth_pos v : (1 <= depth v)%nat.
Proof. destruct v; simpl; lia. Qed.

(** ** The wire format

    The RESP encoding of a value as a server sends it (RESP3, with the RESP2
    null), for the values a server can send: lines hold no carriage return and
    are UTF-8, lengths fit [i64], the text of an error splits the way it was
    built.  Finite doubles are left out (their printed form is not unique), as
    is [Disconnection], which never comes from the wire. *)

Definition header (tag : byte) (n : nat) : bytes := tag :: itoa (Z.of_nat n) ++ CRLF.

Fixpoint encode (v : Value) : bytes :=
  match v with
  | Nil => "$"%byte :: itoa (-1) ++ CRLF
  | Int n => ":"%byte :: itoa n ++ CRLF
  | BulkString b => header "$" (length b) ++ b ++ CRLF
  | Array l => header "*" (length l) ++ concat (map encode l)
  | SimpleString s => "+"%byte :: s ++ CRLF
  | Okay => "+"%byte :: bs "OK" ++ CRLF
  | Map l => header "%" (length l) ++ concat (map (fun '(k, w) => encode k ++ encode w) l)
  | Attribute d l =>
      header "|" (length l) ++ concat (map (fun '(k, w) => encode k ++ encode w) l) ++ encode d
  | Set_ l => header "~" (length l) ++ concat (map encode l)
  | Double d => ","%byte :: match d with
                            | SpecFloat.S754_infinity false => bs "inf"
                            | SpecFloat.S754_infinity true => bs "-inf"
                            | _ => bs "nan"
                            end ++ CRLF
  | Boolean b => "#"%byte :: (if b then bs "t" else bs "f") ++ CRLF
  | VerbatimString f t =>
      let body := VerbatimFormat_display f ++ COLON :: t in
      header "=" (length body) ++ body ++ CRLF
  | BigNumber b => "("%byte :: b ++ CRLF
  | Push k l => header ">" (S (length l)) ++ "+"%byte :: PushKind_display k ++ CRLF ++
                concat (map encode l)
  | ServerErr e => "-"%byte :: error_line e ++ CRLF
  end.

Definition line_ok (s : bytes) : bool := bool_decide (CR ∉ s) && utf8_valid s.
Definition len_ok {A} (l : list A) : bool := Z.of_nat (length l) <? i64_max.

(** The kinds with a constructor of their own. *)
Definition push_kinds : list string :=
  ["invalidate"; "message"; "pmessage"; "smessage"; "unsubscribe"; "punsubscribe";
   "sunsubscribe"; "subscribe"; "psubscribe"; "ssubscribe"].

Fixpoint encodable (v : Value) : bool :=
  match v with
  | Nil | Okay | Boolean _ => true
  | Int n => bool_decide (in_ty i64_ty n)
  | BulkString b => len_ok b
  | Array l | Set_ l => len_ok l && forallb encodable l
  | Map l => len_ok l && forallb (fun '(k, w) => encodable k && encodable w) l
  | Attribute d l =>
      len_ok l && forallb (fun '(k, w) => encodable k && encodable w) l && encodable d
  | SimpleString s => line_ok s && negb (bytes_eqb s (bs "OK"))
  | Double d =>
      match d with SpecFloat.S754_infinity _ | SpecFloat.S754_nan => true | _ => false end
  | VerbatimString f t =>
      len_ok (VerbatimFormat_display f ++ COLON :: t) &&
      utf8_valid (VerbatimFormat_display f ++ COLON :: t) &&
      match f with
      | Unknown x => bool_decide (COLON ∉ x) && negb (one_of x ["txt"; "mkd"])
      | _ => true
      end
  | BigNumber b => line_ok b
  | Push k l =>
      len_ok l && forallb encodable l && line_ok (PushKind_display k) &&
      match k with
      | Disconnection => false
      | Other s => negb (one_of s ("OK" :: push_kinds))
      | _ => true
      end
  | ServerErr e => line_ok (error_line e) && error_splits e
  end.

Lemma get_push_kind_display k :
  match k with
  | Disconnection => false
  | Other s => negb (one_of s ("OK" :: push_kinds))
  | _ => true
  end = true ->
  get_push_kind (PushKind_display k) = k /\ bytes_eqb (PushKind_display k) (bs "OK") = false.
Proof.
  destruct k as [|s| | | | | | | | | |]; [done| |done..].
  intros H%negb_true_iff. unfold one_of, push_kinds in H. cbn [existsb] in H.
  rewrite !orb_false_iff in H. destruct_and! H. unfold get_push_kind. simpl.
  by repeat match goal with E : bytes_eqb s _ = false |- _ => rewrite ?E; clear E end.
Qed.

Lemma verbatim_of_line_display f t :
  match f with
  | Unknown x => bool_decide (COLON ∉ x) && negb (one_of x ["txt"; "mkd"])
  | _ => true
  end = true ->
  verbatim_of_line (VerbatimFormat_display f ++ COLON :: t) = Ok (VerbatimString f t).
Proof.
  unfold verbatim_of_line. destruct f as [x| |]; cbn [VerbatimFormat_display]; intros H.
  - bool_to_prop. rewrite split_once_app by done.
    unfold one_of in *. simpl in *. rewrite !negb_orb in *. bool_to_prop.
    by repeat match goal with E : negb _ = true |- _ => apply negb_true_iff in E; rewrite ?E end.
  - by rewrite split_once_app by (vm_compute; set_solver).
  - by rewrite split_once_app by (vm_compute; set_solver).
Qed.


(** ** Pairs on the wire *)

Fixpoint flatten_pairs (l : list (Value * Value)) : list Value :=
  match l with [] => [] | (k, w) :: l => k :: w :: flatten_pairs l end.

Lemma flatten_pairs_length l : length (flatten_pairs l) = (length l * 2)%nat.
Proof. induction l as [|[k w] l IH]; simpl; [done|]. by rewrite IH. Qed.

Lemma encode_pairs l :
  concat (map (fun '(k, w) => encode k ++ encode w) l) = concat (map encode (flatten_pairs l)).
Proof. induction l as [|[k w] l IH]; simpl; [done|]. by rewrite <- app_assoc, IH. Qed.

Lemma max_list_app l1 l2 : max_list (l1 ++ l2) = Nat.max (max_list l1) (max_list l2).
Proof. induction l1 as [|n l1 IH]; simpl; [done|]. rewrite IH. lia. Qed.

Lemma depth_pairs l :
  max_list (map (fun '(k, w) => Nat.max (depth k) (depth w)) l) =
  max_list (map depth (flatten_pairs l)).
Proof. induction l as [|[k w] l IH]; simpl; [done|]. rewrite IH. lia. Qed.

Lemma collect_pairs_flatten l r : collect_pairs (length l) (flatten_pairs l ++ r) = (l, r).
Proof. induction l as [|[k w] l IH]; simpl; [done|]. by rewrite IH. Qed.

Lemma checked_mul2_len {A} (l : list A) : len_ok l = true ->
  checked_mul2 (Z.of_nat (length l)) = Some (Z.of_nat (length l) * 2).
Proof.
  unfold len_ok, checked_mul2, usize_max, u64_max, i64_max. intros H. bool_to_prop.
  by rewrite (proj2 (Z.leb_le _ _)) by lia.
Qed.

Section roundtrip.
Context `{C : Combine} {CL : CombineLaws C}.

Lemma line_p_line l x : line_ok l = true -> line_p (l ++ CRLF ++ x) = POk l x.
Proof.
  unfold line_ok. intros [Hcr Hu]%andb_prop. bool_to_prop. unfold line_p.
  rewrite and_then_law, recognize_law, with_law, take_until_bytes_law.
  change CRLF with (CR :: [LF]). cbn [app]. change (CR :: LF :: x) with (CR :: [LF] ++ x).
  rewrite find_bytes_first by done. cbn [presult_bind].
  rewrite drop_app_length, pmap_law, take_law by lia. cbn [app length].
  rewrite (proj2 (Z.leb_le _ _)) by lia. cbn.
  rewrite !length_app. change (drop (Z.to_nat 2) (CR :: LF :: x)) with x. cbn [length].
  replace (length l + S (S (length x)) - length x)%nat with (length l + 2)%nat by lia.
  rewrite take_app_add. change (take 2 (CR :: LF :: x)) with [CR; LF].
  replace (length (l ++ [CR; LF]) - 2)%nat with (length l) by (rewrite length_app; simpl; lia).
  rewrite take_app_length. unfold from_utf8. by rewrite Hu.
Qed.

Lemma line_ok_itoa n : line_ok (itoa n) = true.
Proof.
  unfold line_ok. pose proof (itoa_chars n) as H. apply andb_true_iff. split.
  - apply bool_decide_eq_true. intros Hin. rewrite Forall_forall in H.
    apply H, dec_char_range in Hin. by vm_compute in Hin; destruct Hin as [[] ?].
  - apply utf8_valid_ascii. eapply Forall_impl; [exact H|].
    intros b Hb%dec_char_range. lia.
Qed.

Lemma int_p_itoa n x : in_ty i64_ty n -> int_p (itoa n ++ CRLF ++ x) = POk n x.
Proof.
  intros Hn. unfold int_p. rewrite and_then_law, line_p_line by apply line_ok_itoa.
  cbn [presult_bind]. rewrite trim_itoa, parse_int_itoa by (done || vm_compute; congruence).
  done.
Qed.

(** The declared length of a container, as [usize]. *)
Lemma len_ok_spec {A} (l : list A) : len_ok l = true ->
  in_ty i64_ty (Z.of_nat (length l)) /\ (Z.of_nat (length l) <? 0) = false /\
  as_usize (Z.of_nat (length l)) = Z.of_nat (length l).
Proof.
  unfold len_ok, in_ty, i64_ty, i64_min, i64_max. simpl. intros H. bool_to_prop.
  repeat split; [lia..|]. apply as_usize_small. unfold usize_max, u64_max. lia.
Qed.

Lemma len_ok_S {A} (l : list A) : len_ok l = true -> in_ty i64_ty (Z.of_nat (S (length l))).
Proof.
  unfold len_ok, in_ty, i64_ty, i64_min, i64_max. simpl. intros H. bool_to_prop. lia.
Qed.

Lemma as_usize_len_S {A} (l : list A) : len_ok l = true ->
  as_usize (Z.of_nat (S (length l))) = Z.of_nat (S (length l)).
Proof.
  unfold len_ok, i64_max. intros H. bool_to_prop. apply as_usize_small.
  unfold usize_max, u64_max. lia.
Qed.

Lemma take_crlf {A} (f : bytes -> A) b x : len_ok b = true ->
  skip (pmap (take_ (as_usize (Z.of_nat (length b)))) f) crlf (b ++ CRLF ++ x) = POk (f b) x.
Proof.
  intros (_ & _ & ->)%len_ok_spec. rewrite skip_law, pmap_law, take_law by lia.
  rewrite (proj2 (Z.leb_le _ _)) by (rewrite length_app; lia). cbn [presult_bind].
  rewrite Nat2Z.id, take_app_length, drop_app_length, crlf_law. done.
Qed.

Lemma any_value_at lvl b x :
  value_at lvl (b :: x) =
  match lvl with
  | O => PFail "Maximum recursion depth exceeded"
  | S lvl => dispatch (value_at lvl) b x
  end.
Proof.
  destruct lvl; cbn [value_at]; rewrite !then_partial_law, any_cons; cbn [presult_bind].
  - by rewrite unexpected_any_law.
  - by rewrite produce_law.
Qed.

Lemma int_then {A} (f : Z -> parser A) n x : in_ty i64_ty n ->
  then_partial int_p f (itoa n ++ CRLF ++ x) = f n x.
Proof. intros. by rewrite then_partial_law, int_p_itoa. Qed.

(** The outcome for a value met with [lvl] levels left. *)
Definition expect (lvl : nat) (v : Value) (x : bytes) : presult Value :=
  if (depth v <=? lvl)%nat then POk v x else PFail "Maximum recursion depth exceeded".

Lemma count_values lvl l x :
  Forall (fun v => forall y, value_at lvl (encode v ++ y) = expect lvl v y) l ->
  count_min_max (Z.of_nat (length l)) (Z.of_nat (length l)) (value_at lvl)
    (concat (map encode l) ++ x) =
  if (max_list (map depth l) <=? lvl)%nat then POk l x
  else PFail "Maximum recursion depth exceeded".
Proof.
  intros H. rewrite (count_encoded _ encode id (fun v => depth v <=? lvl)%nat
    "Maximum recursion depth exceeded") by (apply value_at_sound || done).
  rewrite map_id. replace (forallb _ l) with (max_list (map depth l) <=? lvl)%nat; [done|].
  apply Bool.eq_iff_eq_true. rewrite Nat.leb_le, max_list_le, forallb_forall, Forall_forall.
  setoid_rewrite Nat.leb_le. by setoid_rewrite list_elem_of_In.
Qed.

(** One step of the induction: the children decode with [lvl] levels left. *)
Section step.
Variable lvl : nat.
Hypothesis IH : forall v y, encodable v = true -> value_at lvl (encode v ++ y) = expect lvl v y.

Lemma children l x : forallb encodable l = true ->
  count_min_max (Z.of_nat (length l)) (Z.of_nat (length l)) (value_at lvl)
    (concat (map encode l) ++ x) =
  if (max_list (map depth l) <=? lvl)%nat then POk l x
  else PFail "Maximum recursion depth exceeded".
Proof.
  intros Hl. apply count_values. rewrite forallb_forall in Hl. apply Forall_forall.
  intros v Hv y. apply IH, Hl. by apply list_elem_of_In.
Qed.

Lemma pair_children l d x :
  forallb (fun '(k, w) => encodable k && encodable w) l = true ->
  forallb encodable d = true ->
  let n := Z.of_nat (length l) * 2 + Z.of_nat (length d) in
  count_min_max n n (value_at lvl)
    (concat (map (fun '(k, w) => encode k ++ encode w) l) ++ concat (map encode d) ++ x) =
  if (Nat.max (max_list (map (fun '(k, w) => Nat.max (depth k) (depth w)) l))
              (max_list (map depth d)) <=? lvl)%nat
  then POk (flatten_pairs l ++ d) x else PFail "Maximum recursion depth exceeded".
Proof.
  intros Hl Hd n. rewrite encode_pairs, app_assoc, <- concat_app, <- map_app.
  replace n with (Z.of_nat (length (flatten_pairs l ++ d))) by
    (unfold n; rewrite length_app, flatten_pairs_length; lia).
  rewrite children; [by rewrite map_app, max_list_app, <- depth_pairs|].
  rewrite forallb_app, Hd, andb_true_r. clear -Hl.
  induction l as [|[k w] l IHl]; simpl in *; [done|].
  apply andb_prop in Hl as [[Hk Hw]%andb_prop Hl]. by rewrite Hk, Hw, IHl.
Qed.

Lemma decode_array l x : len_ok l = true -> forallb encodable l = true ->
  array_p (value_at lvl) (itoa (Z.of_nat (length l)) ++ CRLF ++ concat (map encode l) ++ x) =
  expect (S lvl) (Array l) x.
Proof.
  intros (Hty & Hneg & Hus)%len_ok_spec Hl. unfold array_p.
  rewrite int_then, Hneg, Hus, pmap_law, children by done.
  unfold expect. cbn [depth Nat.leb]. by case_match.
Qed.

Lemma decode_set l x : len_ok l = true -> forallb encodable l = true ->
  set_p (value_at lvl) (itoa (Z.of_nat (length l)) ++ CRLF ++ concat (map encode l) ++ x) =
  expect (S lvl) (Set_ l) x.
Proof.
  intros (Hty & Hneg & Hus)%len_ok_spec Hl. unfold set_p.
  rewrite int_then, Hneg, Hus, pmap_law, children by done.
  unfold expect. cbn [depth Nat.leb]. by case_match.
Qed.

Lemma decode_map l x : len_ok l = true ->
  forallb (fun '(k, w) => encodable k && encodable w) l = true ->
  map_p (value_at lvl) (itoa (Z.of_nat (length l)) ++ CRLF ++
    concat (map (fun '(k, w) => encode k ++ encode w) l) ++ x) = expect (S lvl) (Map l) x.
Proof.
  intros Hlen Hl. destruct (len_ok_spec l Hlen) as (Hty & Hneg & Hus). unfold map_p.
  rewrite int_then, Hus, checked_mul2_len, pmap_law by done.
  pose proof (pair_children l [] x Hl eq_refl) as Hc. cbn in Hc.
  rewrite Z.add_0_r, Nat.max_0_r in Hc. rewrite Hc. unfold expect. cbn [depth Nat.leb].
  case_match; cbn [presult_bind]; [|done].
  by rewrite Nat2Z.id, collect_pairs_flatten.
Qed.

Lemma decode_attribute d l x : len_ok l = true ->
  forallb (fun '(k, w) => encodable k && encodable w) l = true -> encodable d = true ->
  attribute_p (value_at lvl) (itoa (Z.of_nat (length l)) ++ CRLF ++
    concat (map (fun '(k, w) => encode k ++ encode w) l) ++ encode d ++ x) =
  expect (S lvl) (Attribute d l) x.
Proof.
  intros Hlen Hl Hd. destruct (len_ok_spec l Hlen) as (Hty & Hneg & Hus). unfold attribute_p.
  rewrite int_then, Hus, checked_mul2_len, pmap_law by done.
  pose proof (pair_children l [d] x Hl) as Hc. cbn in Hc.
  change (Z.of_nat 1) with 1 in Hc. rewrite Hd, app_nil_r, Nat.max_0_r in Hc. rewrite Hc by done.
  unfold expect. cbn [depth Nat.leb].
  case_match; cbn [presult_bind]; [|done].
  by rewrite Nat2Z.id, collect_pairs_flatten.
Qed.

Lemma decode_push k l x : encodable (Push k l) = true ->
  push_p (value_at lvl) (itoa (Z.of_nat (S (length l))) ++ CRLF ++
    concat (map encode (SimpleString (PushKind_display k) :: l)) ++ x) =
  expect (S lvl) (Push k l) x.
Proof.
  cbn [encodable]. intros [[[Hlen Hl]%andb_prop Hline]%andb_prop Hk]%andb_prop.
  apply get_push_kind_display in Hk as [Hk Hok].
  unfold push_p. rewrite int_then by (by apply len_ok_S).
  rewrite (proj2 (Z.leb_gt _ _)) by lia.
  rewrite (as_usize_len_S l), and_then_law by done.
  rewrite (children (SimpleString (PushKind_display k) :: l)) by (cbn [forallb encodable]; by rewrite Hline, Hok, Hl).
  unfold expect. cbn [depth map max_list Nat.leb].
  case_match; cbn [presult_bind]; [|done].
  unfold push_of_values. cbn [head tail default id]. by rewrite Hk.
Qed.

Lemma decode_blob b x : len_ok b = true -> utf8_valid b = true ->
  blob_p (itoa (Z.of_nat (length b)) ++ CRLF ++ b ++ CRLF ++ x) = POk b x.
Proof.
  intros Hlen Hu. destruct (len_ok_spec b Hlen) as (Hty & Hneg & _). unfold blob_p.
  by rewrite int_then, take_crlf, from_utf8_lossy_valid.
Qed.

Lemma decode_bulk_string b x : len_ok b = true ->
  bulk_string_p (itoa (Z.of_nat (length b)) ++ CRLF ++ b ++ CRLF ++ x) = POk (BulkString b) x.
Proof.
  intros Hlen. destruct (len_ok_spec b Hlen) as (Hty & Hneg & _). unfold bulk_string_p.
  by rewrite int_then, Hneg, take_crlf.
Qed.

Lemma decode_line {A} (f : bytes -> A) l x : line_ok l = true ->
  pmap line_p f (l ++ CRLF ++ x) = POk (f l) x.
Proof. intros. by rewrite pmap_law, line_p_line. Qed.

Lemma decode_line_and {A} (f : bytes -> result string A) l a x :
  line_ok l = true -> f l = Ok a -> and_then line_p f (l ++ CRLF ++ x) = POk a x.
Proof. intros Hl Hf. rewrite and_then_law, line_p_line by done. simpl. by rewrite Hf. Qed.

Lemma expect_leaf v x : depth v = 1%nat -> expect (S lvl) v x = POk v x.
Proof. unfold expect. by intros ->. Qed.

(** The leaves, whose decoding does not depend on the level. *)
Lemma decode_leaf v x :
  match v with Array _ | Set_ _ | Map _ | Attribute _ _ | Push _ _ => False | _ => True end -> encodable v = true ->
  value_at (S lvl) (encode v ++ x) = POk v x.
Proof.
  intros Hc Hv.
  destruct v as [|n|b| |s| | | | |d|b|f t|b| |e]; try done;
    cbn [encode encodable] in *; unfold header; rewrite <- ?app_assoc;
    rewrite <- ?app_comm_cons, <- ?app_assoc, any_value_at.
  - change (bulk_string_p (itoa (-1) ++ CRLF ++ x) = POk Nil x).
    unfold bulk_string_p. rewrite int_then by done. apply produce_law.
  - change (pmap int_p Int (itoa n ++ CRLF ++ x) = POk (Int n) x).
    bool_to_prop. by rewrite pmap_law, int_p_itoa.
  - by apply decode_bulk_string.
  - change (simple_string_p (s ++ CRLF ++ x) = POk (SimpleString s) x).
    apply andb_prop in Hv as [Hl Hok%negb_true_iff].
    unfold simple_string_p. by rewrite decode_line, Hok.
  - change (simple_string_p (bs "OK" ++ CRLF ++ x) = POk Okay x).
    unfold simple_string_p. by rewrite decode_line.
  - change (pmap double_p Double (match d with
      | SpecFloat.S754_infinity false => bs "inf"
      | SpecFloat.S754_infinity true => bs "-inf" | _ => bs "nan" end ++ CRLF ++ x)
      = POk (Double d) x).
    rewrite pmap_law. unfold double_p.
    rewrite (decode_line_and _ _ d); by destruct d as [ |[|]| |].
  - change (pmap boolean_p Boolean ((if b then bs "t" else bs "f") ++ CRLF ++ x)
      = POk (Boolean b) x).
    rewrite pmap_law. unfold boolean_p. rewrite (decode_line_and _ _ b); by destruct b.
  - change (verbatim_p (itoa (Z.of_nat (length (VerbatimFormat_display f ++ COLON :: t))) ++
      CRLF ++ VerbatimFormat_display f ++ (COLON :: t ++ CRLF ++ x)) = POk (VerbatimString f t) x).
    rewrite app_comm_cons, (app_assoc (VerbatimFormat_display f)).
    apply andb_prop in Hv as [[Hlen Hu]%andb_prop Hf].
    unfold verbatim_p. rewrite and_then_law, decode_blob by done. cbn [presult_bind].
    by rewrite verbatim_of_line_display.
  - by apply (decode_line_and (fun line => Ok (BigNumber line))).
  - change (pmap error_p ServerErr (error_line e ++ CRLF ++ x) = POk (ServerErr e) x).
    apply andb_prop in Hv as [Hl He]. unfold error_p.
    by rewrite pmap_law, decode_line, err_parser_error_line.
Qed.

Lemma value_at_step v x : encodable v = true ->
  value_at (S lvl) (encode v ++ x) = expect (S lvl) v x.
Proof.
  intros Hv.
  assert (match v with Array _ | Set_ _ | Map _ | Attribute _ _ | Push _ _ => False
          | _ => True end -> value_at (S lvl) (encode v ++ x) = expect (S lvl) v x) as Hleaf.
  { intros. rewrite expect_leaf, decode_leaf; by destruct v. }
  destruct v as [| | |l| | |l|d l|l| | | | |k l|]; try (by apply Hleaf); clear Hleaf;
    cbn [encode]; unfold header; rewrite <- ?app_comm_cons, <- ?app_assoc, any_value_at.
  - cbn [encodable] in Hv. apply andb_prop in Hv as [Hn Hl]. by apply decode_array.
  - cbn [encodable] in Hv. apply andb_prop in Hv as [Hn Hl]. by apply decode_map.
  - cbn [encodable] in Hv. apply andb_prop in Hv as [[Hn Hl]%andb_prop Hd].
    by apply decode_attribute.
  - cbn [encodable] in Hv. apply andb_prop in Hv as [Hn Hl]. by apply decode_set.
  - rewrite <- (decode_push k l x Hv). cbn [map encode concat].
    by rewrite <- ?app_comm_cons, <- ?app_assoc.
Qed.
End step.

Lemma encode_cons v : exists b r, encode v = b :: r.
Proof. destruct v; simpl; eauto. Qed.

Lemma value_at_encode lvl v x : encodable v = true ->
  value_at lvl (encode v ++ x) = expect lvl v x.
Proof.
  revert v x. induction lvl as [|lvl IH]; intros v x Hv; [|by apply value_at_step].
  destruct (encode_cons v) as (b & r & ->). cbn [app]. rewrite any_value_at.
  unfold expect. pose proof (depth_pos v). by destruct (depth v); [lia|].
Qed.
End roundtrip.

(** ** Bounded nesting *)

(** Containers inside containers. *)
Fixpoint nesting (v : Value) : nat :=
  match v with
  | Array l | Set_ l | Push _ l => S (max_list (map nesting l))
  | Map l => S (max_list (map (fun '(k, w) => Nat.max (nesting k) (nesting w)) l))
  | Attribute d l =>
      S (Nat.max (max_list (map (fun '(k, w) => Nat.max (nesting k) (nesting w)) l)) (nesting d))
  | _ => 1
  end.

Definition nested_at_most (n : nat) (v : Value) : Prop := (nesting v <= n)%nat.

Lemma collect_pairs_nested n m l : Forall (nested_at_most n) l ->
  (max_list (map (fun '(k, w) => Nat.max (nesting k) (nesting w)) (collect_pairs m l).1) <= n)%nat /\
  Forall (nested_at_most n) (collect_pairs m l).2.
Proof.
  revert l. induction m as [|m IH]; intros l Hl; simpl; [by split; [lia|]|].
  destruct Hl as [|k l1 Hk [|w l2 Hw Hl]]; [by split; [simpl; lia|]|by split; [simpl; lia|]|].
  specialize (IH l2 Hl). destruct (collect_pairs m l2) as [x it]. simpl in *.
  unfold nested_at_most in *. destruct IH. split; [lia|done].
Qed.

Section nesting.
Context `{C : Combine} {CL : CombineLaws C}.

Lemma yields_leaf {A} (f : A -> Value) n p :
  (forall a, nesting (f a) = 1%nat) -> yields (nested_at_most (S n)) (pmap p f).
Proof.
  intros Hf. eapply yields_pmap; [apply yields_trivial|]. intros a _.
  unfold nested_at_most. rewrite Hf. lia.
Qed.

Lemma yields_leaf_and {A} (f : A -> result string Value) n p :
  (forall a v, f a = Ok v -> nesting v = 1%nat) -> yields (nested_at_most (S n)) (and_then p f).
Proof.
  intros Hf. eapply yields_and_then; [apply yields_trivial|]. intros a v _ Hv.
  unfold nested_at_most. rewrite (Hf a v Hv). lia.
Qed.

Section step.
Variable n : nat.
Variable p : parser Value.
Hypothesis Hc : consuming p.
Hypothesis Hp : yields (nested_at_most n) p.

Lemma yields_seq (f : list Value -> Value) m :
  (forall l, nesting (f l) = S (max_list (map nesting l))) ->
  yields (nested_at_most (S n)) (pmap (count_min_max (as_usize m) (as_usize m) p) f).
Proof.
  intros Hf. eapply yields_pmap; [apply yields_count; [done|apply as_usize_nonneg|exact Hp]|].
  intros l Hl%max_list_le. unfold nested_at_most. rewrite Hf. lia.
Qed.

Lemma yields_push m :
  yields (nested_at_most (S n)) (and_then (count_min_max (as_usize m) (as_usize m) p) push_of_values).
Proof.
  eapply yields_and_then; [apply yields_count; [done|apply as_usize_nonneg|exact Hp]|].
  intros l v Hl E. assert (exists k, v = Push k (tail l)) as [k ->].
  { unfold push_of_values in E. repeat case_match; simplify_eq/=; eauto. }
  unfold nested_at_most. simpl. apply le_n_S, max_list_le.
  destruct Hl; simpl; [constructor|done].
Qed.

Lemma yields_map : yields (nested_at_most (S n)) (map_p p).
Proof.
  apply yields_then_partial. intros kv. case_match eqn:E; [|auto with redis].
  apply checked_mul2_Some in E as ->. pose proof (as_usize_nonneg kv).
  eapply yields_pmap; [apply yields_count; [done|lia|exact Hp]|].
  intros l [Hl _]%(collect_pairs_nested n (Z.to_nat kv)). unfold nested_at_most. simpl. lia.
Qed.

Lemma yields_attribute : yields (nested_at_most (S n)) (attribute_p p).
Proof.
  apply yields_then_partial. intros kv. case_match eqn:E; [|auto with redis].
  apply checked_mul2_Some in E as ->. pose proof (as_usize_nonneg kv) as Hk.
  intros i v r. rewrite pmap_law. intros (l & r' & El & [= <- <-])%presult_bind_POk.
  assert (length l = Z.to_nat (as_usize kv * 2 + 1)) as Hlen
    by (eapply count_length; [exact Hc|lia|exact El]).
  apply (yields_count (nested_at_most n)) in El; [|done|lia|done].
  destruct (collect_pairs_nested n (Z.to_nat kv) l El) as [Hpairs Hrest].
  destruct (collect_pairs (Z.to_nat kv) l) as [x it]. unfold nested_at_most. simpl in *.
  destruct Hrest as [|d it Hd _]; [|unfold nested_at_most in Hd; simpl; lia].
  simpl. destruct El as [|w l Hw]; [simpl in Hlen; lia|].
  unfold nested_at_most in Hw. destruct w; simpl in Hw; lia.
Qed.

Lemma yields_dispatch b : yields (nested_at_most (S n)) (dispatch p b).
Proof.
  assert (forall v, nesting v = 1%nat -> nested_at_most (S n) v) as H1.
  { intros v. unfold nested_at_most. lia. }
  unfold dispatch. repeat case_bool_decide; auto using yields_map, yields_attribute with redis;
    try (by apply yields_leaf); try apply yields_then_partial; intros; try case_match;
    auto using yields_seq, yields_push with redis.
  - apply yields_leaf. intros l. by case_match.
  - by apply yields_skip, yields_leaf.
  - apply yields_leaf_and. unfold verbatim_of_line. intros l v E. by repeat case_match; simplify_eq.
  - apply yields_leaf_and. by intros l v [= <-].
Qed.
End step.

Lemma value_at_nested lvl : yields (nested_at_most lvl) (value_at lvl).
Proof.
  induction lvl as [|lvl IH]; cbn [value_at]; apply yields_then_partial; intros b;
    [auto with redis|]. apply yields_dispatch; [apply value_at_sound|done].
Qed.
End nesting.

(** ** Properties *)

Section properties.
Context `{C : Combine} {CL : CombineLaws C}.

(** C1. Decoding inverts the RESP encoding, and stops at the nesting limit.
    Whatever follows a reply in the stream, [Parser::parse_value] on the wire
    form of a value returns that value and leaves exactly what follows, if the
    value is nested at most [MAX_RECURSE_DEPTH] deep; a deeper one is refused
    with the recursion error, never accepted in part. *)
Theorem parse_value_encode (v : Value) (rest : bytes) (H : encodable v = true) :
  parse_value (encode v ++ rest) =
  if (depth v <=? MAX_RECURSE_DEPTH)%nat then Ok (v, rest)
  else Err (redis_error_of_parsing (parsing_error "Maximum recursion depth exceeded")).
Proof.
  unfold parse_value, value. change (S MAX_RECURSE_DEPTH - default 1 None)%nat with MAX_RECURSE_DEPTH.
  rewrite value_at_encode by done. unfold expect. by destruct (_ <=? _)%nat.
Qed.

(** Bytes that arrive after a value was decoded, or after decoding failed,
    change nothing: the result, and the error, are the same on every longer
    input; a decoded value consumed at least one byte, from the front. *)
Theorem value_prefix_determined (i x : bytes) :
  match value None i with
  | POk v r => value None (i ++ x) = POk v (r ++ x) /\ exists c, c <> [] /\ i = c ++ r
  | PFail m => value None (i ++ x) = PFail m
  | PIncomplete => True
  end.
Proof.
  pose proof (value_sound None) as [Hs Hc _]. destruct (value None i) as [v r| |m] eqn:E; [|done|].
  - split; [by apply stable_ok|]. destruct (stable_suffix _ Hs _ _ _ E) as [c ->].
    exists c. split; [|done]. intros ->. apply Hc in E. simpl in E. lia.
  - by apply stable_fail.
Qed.

(** Every value that comes out of the parser, for any input whatever, is
    nested at most [MAX_RECURSE_DEPTH] deep. *)
Theorem parse_redis_value_nesting (input : bytes) (v : Value)
    (H : parse_redis_value input = Ok v) : (nesting v <= MAX_RECURSE_DEPTH)%nat.
Proof.
  unfold parse_redis_value, parse_value, to_redis_err in H.
  destruct (value None input) as [w r| |m] eqn:E; simplify_eq/=.
  by apply value_at_nested in E.
Qed.

(** A verbatim string or a blob error whose declared length is negative is
    never decoded and never refused: [size as usize] turns the length into
    more than [i64::MAX], and the decoder waits for that many bytes. *)
Theorem negative_blob_never_completes (n : Z) (x : bytes)
    (Hn : i64_min <= n < 0) (Hx : Z.of_nat (length x) <= i64_max) :
  value None ("="%byte :: itoa n ++ CRLF ++ x) = PIncomplete /\
  value None ("!"%byte :: itoa n ++ CRLF ++ x) = PIncomplete.
Proof.
  assert (blob_p (itoa n ++ CRLF ++ x) = PIncomplete) as Hb.
  { unfold blob_p. rewrite int_then by (unfold in_ty, i64_ty, i64_min, i64_max in *; simpl; lia).
    rewrite as_usize_neg by (unfold in_i64, i64_min, i64_max in *; lia).
    rewrite skip_law, pmap_law, take_law by (unfold i64_min in *; lia).
    by rewrite (proj2 (Z.leb_gt _ _)) by (unfold i64_min, i64_max in *; lia). }
  unfold value. simpl default. change (S MAX_RECURSE_DEPTH - 1)%nat with (S 99).
  rewrite !any_value_at. split.
  - change (verbatim_p (itoa n ++ CRLF ++ x) = PIncomplete). unfold verbatim_p.
    by rewrite and_then_law, Hb.
  - change (pmap blob_error_p ServerErr (itoa n ++ CRLF ++ x) = PIncomplete).
    unfold blob_error_p. by rewrite !pmap_law, Hb.
Qed.
End properties.

(** ** Witnesses *)

Definition sample_value : Value :=
  Array [Int (-7); BulkString (bs "a"); Map [(SimpleString (bs "k"), Nil)];
         Push Message [BulkString (bs "ch"); Okay];
         ServerErr (Repr_Known Moved (Some (bs "3999 127.0.0.1:6381")));
         VerbatimString Text (bs "hi"); Attribute (Boolean true) [(Int 1, Set_ [])]].

Lemma parse_value_encode_witness :
  parse_value (C:=combine_ref) (encode sample_value ++ bs ":1") = Ok (sample_value, bs ":1").
Proof.
  rewrite (parse_value_encode (C:=combine_ref) (CL:=combine_ref_laws) sample_value (bs ":1")).
  - reflexivity.
  - vm_compute. reflexivity.
Defined.

Lemma value_prefix_determined_witness :
  value (C:=combine_ref) None (bs ":12" ++ CRLF ++ bs "+x") = POk (Int 12) (bs "+x").
Proof.
  pose proof (value_prefix_determined (C:=combine_ref) (CL:=combine_ref_laws)
    (bs ":12" ++ CRLF) (bs "+x")) as H.
  vm_compute in H. exact (proj1 H).
Defined.

Lemma parse_redis_value_nesting_witness :
  (nesting (Array [Array [Int 1]]) <= MAX_RECURSE_DEPTH)%nat.
Proof.
  apply (parse_redis_value_nesting (C:=combine_ref) (CL:=combine_ref_laws)
           (encode (Array [Array [Int 1]]))).
  vm_compute. reflexivity.
Defined.

Lemma negative_blob_never_completes_witness :
  value (C:=combine_ref) None ("="%byte :: itoa (-1) ++ CRLF ++ bs "txt:abc") = PIncomplete.
Proof.
  apply (negative_blob_never_completes (C:=combine_ref) (CL:=combine_ref_laws) (-1) (bs "txt:abc"));
    vm_compute; intuition congruence.
Defined.
