(* ===== verification/Codec.v ===== *)
(** * Incremental decoding: [ValueCodec] of [redis/src/parser.rs]

    [ValueCodec] resumes the parser through [combine::stream::decode_tokio],
    whose resumption state is opaque.  [DecodeTokio] is that function as an
    interface; what the model needs to know of a state is which bytes it has
    already taken out of the buffer ([absorbed]).  [decode_tokio_ref] is an
    implementation that never takes any, [decode_tokio_eager] one that takes
    them all.

    The driver of the codec, [FramedRead] of tokio-util, appends what arrived
    to the buffer and calls [decode] until it asks for more ([drain]). *)

From S2P Require Import Prelude Text Float64 Combine Errors Types Parser.

Class DecodeTokio := {
  partial_state : Type;
  partial_state_default : partial_state;
  (** parser, buffer, whether more input may follow, state *)
  decode_tokio : parser Value -> bytes -> bool -> partial_state ->
    result string (option Value * nat) * partial_state;
  absorbed : partial_state -> bytes
}.

Class DecodeTokioLaws (D : DecodeTokio) := {
  absorbed_default : absorbed partial_state_default = [];
  (** a value is complete: it is returned with the bytes used up, and the
      state is ready for the next one *)
  decode_tokio_done p buf partial st v r :
    p (absorbed st) = PIncomplete -> p (absorbed st ++ buf) = POk v r ->
    exists st', decode_tokio p buf partial st = (Ok (Some v, (length buf - length r)%nat), st') /\
                absorbed st' = [];
  (** not complete yet: some bytes move from the buffer into the state *)
  decode_tokio_more p buf st :
    p (absorbed st ++ buf) = PIncomplete ->
    exists n st', decode_tokio p buf true st = (Ok (None, n), st') /\
                  (n <= length buf)%nat /\ absorbed st' = absorbed st ++ take n buf;
  decode_tokio_fail p buf partial st m :
    p (absorbed st) = PIncomplete -> p (absorbed st ++ buf) = PFail m ->
    exists st', decode_tokio p buf partial st = (Err m, st')
}.

(** A [DecodeTokio] that takes [k buf] bytes of an incomplete buffer. *)
Definition decode_tokio_with (k : bytes -> nat) : DecodeTokio := {|
  partial_state := bytes;
  partial_state_default := [];
  decode_tokio p buf partial st :=
    match p (st ++ buf) with
    | POk v r => (Ok (Some v, (length buf - length r)%nat), [])
    | PIncomplete =>
        if partial then (Ok (None, k buf), st ++ take (k buf) buf)
        else match st ++ buf with
             | [] => (Ok (None, O), [])
             | _ => (Err "unexpected end of input", st)
             end
    | PFail m => (Err m, [])
    end;
  absorbed st := st
|}.

Definition decode_tokio_ref : DecodeTokio := decode_tokio_with (fun _ => O).
Definition decode_tokio_eager : DecodeTokio := decode_tokio_with length.

Lemma decode_tokio_with_laws k : (forall b, (k b <= length b)%nat) ->
  DecodeTokioLaws (decode_tokio_with k).
Proof.
  intros Hk. split; simpl; [done|..].
  - intros p buf partial st v r _ ->. eauto.
  - intros p buf st ->. eauto.
  - intros p buf partial st m _ ->. eauto.
Qed.

(** ** ValueCodec *)

Section codec.
Context `{C : Combine} `{D : DecodeTokio}.

Record ValueCodec := { state : partial_state }.

Definition ValueCodec_default : ValueCodec := {| state := partial_state_default |}.

Definition decode_stream (self : ValueCodec) (bytes : bytes) (eof : bool) :
    result RedisError (option Value) * ValueCodec * Prelude.bytes :=
  let '(out, st) := decode_tokio (value None) bytes (negb eof) (state self) in
  let self := {| state := st |} in
  match out with
  | Err err => (Err (redis_error_of_parsing (parsing_error err)), self, bytes)
  | Ok (opt, removed_len) =>
      let bytes := drop removed_len bytes in
      match opt with
      | Some result => (Ok (Some result), self, bytes)
      | None => (Ok None, self, bytes)
      end
  end.

Definition encode_item (item dst : bytes) : bytes := dst ++ item.
Definition decode (self : ValueCodec) (src : bytes) := decode_stream self src false.
Definition decode_eof (self : ValueCodec) (buf : bytes) := decode_stream self buf true.

(** The driver: decode until more input is needed. *)
Fixpoint drain (fuel : nat) (self : ValueCodec) (buf : bytes) :
    list Value * result RedisError (ValueCodec * bytes) :=
  match fuel with
  | O => ([], Ok (self, buf))
  | S fuel =>
      match decode self buf with
      | (Ok (Some v), self, buf) =>
          let '(vs, fin) := drain fuel self buf in (v :: vs, fin)
      | (Ok None, self, buf) => ([], Ok (self, buf))
      | (Err e, _, _) => ([], Err e)
      end
  end.

(** One packet after the other; an error ends the stream. *)
Fixpoint run (self : ValueCodec) (buf : bytes) (packets : list bytes) :
    list Value * result RedisError (ValueCodec * bytes) :=
  match packets with
  | [] => ([], Ok (self, buf))
  | packet :: packets =>
      let buf := buf ++ packet in
      match drain (S (length buf)) self buf with
      | (vs, Err e) => (vs, Err e)
      | (vs, Ok (self, buf)) =>
          let '(vs', fin) := run self buf packets in (vs ++ vs', fin)
      end
  end.
End codec.

(** ** Reference: decoding the whole stream at once *)

Section reference.
Context `{C : Combine}.

(** All the values of a stream, and the unfinished rest or the error. *)
Fixpoint parse_all (fuel : nat) (i : bytes) : list Value * result RedisError bytes :=
  match fuel with
  | O => ([], Ok i)
  | S fuel =>
      match value None i with
      | POk v r => let '(vs, fin) := parse_all fuel r in (v :: vs, fin)
      | PIncomplete => ([], Ok i)
      | PFail m => ([], Err (redis_error_of_parsing (parsing_error m)))
      end
  end.

Definition parse_stream (i : bytes) : list Value * result RedisError bytes :=
  parse_all (S (length i)) i.
End reference.

Section theory.
Context `{C : Combine} {CL : CombineLaws C}.

Lemma value_shorter i v r : value None i = POk v r -> (length r < length i)%nat.
Proof. apply value_sound. Qed.

Lemma parse_all_fuel f1 f2 i : (length i < f1)%nat -> (length i < f2)%nat ->
  parse_all f1 i = parse_all f2 i.
Proof.
  revert f2 i. induction f1 as [|f1 IH]; intros f2 i H1 H2; [lia|].
  destruct f2 as [|f2]; [lia|]. simpl. destruct (value None i) as [v r| |m] eqn:E; [|done..].
  apply value_shorter in E. by rewrite (IH f2) by lia.
Qed.

Lemma parse_stream_eq i :
  parse_stream i =
  match value None i with
  | POk v r => let '(vs, fin) := parse_stream r in (v :: vs, fin)
  | PIncomplete => ([], Ok i)
  | PFail m => ([], Err (redis_error_of_parsing (parsing_error m)))
  end.
Proof.
  unfold parse_stream at 1. cbn [parse_all]. destruct (value None i) as [v r| |m] eqn:E; [|done..].
  apply value_shorter in E. unfold parse_stream. by rewrite (parse_all_fuel _ (S (length r))) by lia.
Qed.

(** Induction on the length of the stream. *)
Lemma stream_ind (P : bytes -> Prop) :
  (forall i, (forall j, (length j < length i)%nat -> P j) -> P i) -> forall i, P i.
Proof. apply (induction_ltof1 bytes length). Qed.

(** What arrives later continues where decoding stopped. *)
Lemma parse_stream_app i x :
  parse_stream (i ++ x) =
  match parse_stream i with
  | (vs, Ok rest) => let '(vs', fin) := parse_stream (rest ++ x) in (vs ++ vs', fin)
  | (vs, Err e) => (vs, Err e)
  end.
Proof.
  revert i. apply stream_ind. intros i IH. rewrite (parse_stream_eq i).
  pose proof (value_sound None) as [Hs _ _].
  destruct (value None i) as [v r| |m] eqn:E.
  - rewrite (parse_stream_eq (i ++ x)), (stable_ok _ Hs _ _ _ x E), IH by (by eapply value_shorter).
    destruct (parse_stream r) as [vs [rest|e]]; [|done]. by destruct (parse_stream (rest ++ x)).
  - by destruct (parse_stream (i ++ x)).
  - by rewrite (parse_stream_eq (i ++ x)), (stable_fail _ Hs _ _ x E).
Qed.

Lemma parse_stream_incomplete i :
  match (parse_stream i).2 with Ok rest => value None rest = PIncomplete | Err _ => True end.
Proof.
  revert i. apply stream_ind. intros i IH. rewrite parse_stream_eq.
  destruct (value None i) as [v r| |m] eqn:E; [|done..].
  apply value_shorter, IH in E. by destruct (parse_stream r).
Qed.

(** A value completed by new bytes ends inside the new bytes. *)
Lemma value_rest_suffix a buf v r :
  value None a = PIncomplete -> value None (a ++ buf) = POk v r ->
  exists c, buf = c ++ r /\ c <> [].
Proof.
  intros Ha E. pose proof (value_sound None) as [Hs _ Ht].
  destruct (stable_suffix _ Hs _ _ _ E) as [c Hc]. rewrite Hc in E. apply Ht in E as E'.
  destruct (app_eq_inv _ _ _ _ Hc) as [(k & -> & ->)|(k & -> & ->)].
  - exfalso. rewrite (stable_ok _ Hs _ _ _ k E') in Ha. done.
  - exists k. split; [done|]. intros ->. rewrite app_nil_r in E'. by rewrite E' in Ha.
Qed.

Context `{D : DecodeTokio} {DL : DecodeTokioLaws D}.

(** Between two calls: what the state took and what is still buffered. *)
Definition pending (self : ValueCodec) (buf : bytes) : bytes := absorbed (state self) ++ buf.
Definition codec_ok (self : ValueCodec) : Prop := value None (absorbed (state self)) = PIncomplete.

(** One call of [decode] is one step of the parser on the pending bytes. *)
Lemma decode_spec self buf : codec_ok self ->
  match value None (pending self buf) with
  | POk v r => exists self', decode self buf = (Ok (Some v), self', r) /\
                 codec_ok self' /\ pending self' r = r /\ (length r < length buf)%nat
  | PIncomplete => exists self' buf', decode self buf = (Ok None, self', buf') /\
                 codec_ok self' /\ pending self' buf' = pending self buf
  | PFail m => exists self' buf', decode self buf =
                 (Err (redis_error_of_parsing (parsing_error m)), self', buf')
  end.
Proof.
  unfold codec_ok, pending. intros Hok. unfold decode, decode_stream. simpl negb.
  pose proof (value_sound None) as [Hs Hc Ht].
  destruct (value None (absorbed (state self) ++ buf)) as [v r| |m] eqn:E.
  - destruct (decode_tokio_done _ _ true _ _ _ Hok E) as (st' & -> & Ha).
    destruct (value_rest_suffix _ _ _ _ Hok E) as (c & -> & Hne).
    exists {| state := st' |}. simpl. rewrite Ha, value_nil, length_app.
    rewrite drop_length_app by lia. repeat split. destruct c; simpl; [done|lia].
  - destruct (decode_tokio_more _ _ _ E) as (n & st' & -> & Hn & Ha).
    exists {| state := st' |}, (drop n buf). simpl. rewrite Ha, <- app_assoc, take_drop.
    repeat split. eapply (stable_incomplete _ _ (drop n buf)); [done|].
    by rewrite <- app_assoc, take_drop.
  - destruct (decode_tokio_fail _ _ true _ _ Hok E) as (st' & ->). eauto.
Qed.

(** [drained fin fin']: the driver stopped where the reference did. *)
Definition drained (fin : result RedisError (ValueCodec * bytes)) (fin' : result RedisError bytes)
    : Prop :=
  match fin, fin' with
  | Ok (self, buf), Ok rest => codec_ok self /\ pending self buf = rest
  | Err e, Err e' => e = e'
  | _, _ => False
  end.

Lemma drain_spec fuel self buf : codec_ok self -> (length buf < fuel)%nat ->
  (drain fuel self buf).1 = (parse_stream (pending self buf)).1 /\
  drained (drain fuel self buf).2 (parse_stream (pending self buf)).2.
Proof.
  revert self buf. induction fuel as [|fuel IH]; intros self buf Hok Hf; [lia|].
  cbn [drain]. rewrite parse_stream_eq. pose proof (decode_spec self buf Hok) as Hd.
  destruct (value None (pending self buf)) as [v r| |m].
  - destruct Hd as (self' & -> & Hok' & Hp & Hl). destruct (IH self' r Hok' ltac:(lia)) as [H1 H2].
    rewrite Hp in *. destruct (drain fuel self' r), (parse_stream r). simpl in *. by subst.
  - destruct Hd as (self' & buf' & -> & Hok' & Hp). by simpl.
  - by destruct Hd as (self' & buf' & ->).
Qed.

Lemma run_spec packets self buf : codec_ok self -> value None (pending self buf) = PIncomplete ->
  (run self buf packets).1 = (parse_stream (pending self buf ++ concat packets)).1 /\
  drained (run self buf packets).2 (parse_stream (pending self buf ++ concat packets)).2.
Proof.
  revert self buf. induction packets as [|p packets IH]; intros self buf Hok Hi; cbn [run concat].
  - rewrite app_nil_r, parse_stream_eq, Hi. done.
  - rewrite app_assoc, parse_stream_app.
    replace (pending self buf ++ p) with (pending self (buf ++ p)) by
      (unfold pending; by rewrite app_assoc).
    destruct (drain_spec (S (length (buf ++ p))) self (buf ++ p) Hok) as [H1 H2]; [lia|].
    pose proof (parse_stream_incomplete (pending self (buf ++ p))) as Hr.
    destruct (drain _ self (buf ++ p)) as [vs [[self' buf']|e]],
      (parse_stream (pending self (buf ++ p))) as [vs' [rest|e']]; simpl in *; subst; try done.
    destruct H2 as [Hok' <-]. destruct (IH self' buf' Hok' Hr) as [H1' H2'].
    destruct (run self' buf' packets), (parse_stream (pending self' buf' ++ concat packets)).
    simpl in *. by subst.
Qed.

(** C2. Decoding does not depend on how the stream was cut into packets.  A
    fresh [ValueCodec], fed the packets one after the other and drained after
    each, yields exactly the values that decoding the whole stream yields, in
    order, and ends in the same error or waiting on the same unfinished bytes,
    whatever part of them [combine]'s state has already absorbed. *)
Theorem codec_packets_irrelevant (packets : list bytes) :
  (run ValueCodec_default [] packets).1 = (parse_stream (concat packets)).1 /\
  drained (run ValueCodec_default [] packets).2 (parse_stream (concat packets)).2.
Proof.
  pose proof (run_spec packets ValueCodec_default []) as H.
  unfold codec_ok, pending in H. simpl in H. rewrite absorbed_default in H.
  apply H; apply value_nil.
Qed.
End theory.

(** The theorem on a concrete parser, decoder and packets cut inside a length
    and inside a payload. *)
Lemma codec_packets_irrelevant_witness :
  let packets := [bs "*2"; CRLF ++ bs ":1" ++ CRLF ++ bs "$"; bs "3" ++ CRLF ++ bs "ab";
                  bs "c" ++ CRLF ++ bs "+O"] in
  (run (C:=combine_ref) (D:=decode_tokio_eager) ValueCodec_default [] packets).1 =
  [Array [Int 1; BulkString (bs "abc")]].
Proof.
  intros packets.
  rewrite (proj1 (codec_packets_irrelevant (C:=combine_ref) (CL:=combine_ref_laws)
    (D:=decode_tokio_eager) (DL:=decode_tokio_with_laws length (fun b => le_n _)) packets)).
  vm_compute. reflexivity.
Defined.
