(* ===== verification/Cmd.v ===== *)
(** * Commands: [redis/src/cmd.rs]

    A [Cmd] keeps all argument bytes in one buffer and the end offset of every
    argument; a cursor argument has no bytes of its own.  The file models the
    builder ([RedisWrite for Cmd]), the iterator over the arguments, indexed
    access, the length computation and the RESP packing.

    [Vec] capacities are not modelled.  A slice [data[a..b]] with [a > b] or
    [b > len] panics: [slice] returns [None] there. *)

From S2P Require Import Prelude Text Float64 Combine Errors Types Parser.
Local Open Scope Z_scope.

Inductive Arg (D : Type) : Type :=
| Simple (d : D)
| Cursor.
Arguments Simple {D} d.
Arguments Cursor {D}.

#[export] Instance Arg_eq_dec `{EqDecision D} : EqDecision (Arg D).
Proof. solve_decision. Defined.

Record CommandCacheConfig := { enable_cache : bool; client_side_ttl : option Duration }.

Definition CommandCacheConfig_new : CommandCacheConfig :=
  {| enable_cache := true; client_side_ttl := None |}.
Definition set_enable_cache (c : CommandCacheConfig) (enable_cache : bool) : CommandCacheConfig :=
  {| enable_cache := enable_cache; client_side_ttl := client_side_ttl c |}.
Definition set_client_side_ttl (c : CommandCacheConfig) (ttl : Duration) : CommandCacheConfig :=
  {| enable_cache := enable_cache c; client_side_ttl := Some ttl |}.

Record Cmd := {
  data : bytes;
  args : list (Arg nat);
  cursor : option Z;
  no_response : bool;
  skip_concurrency_limit : bool;
  cache : option CommandCacheConfig
}.

(** ** Lengths and packing *)

(** The [loop] of [countdigits]; every round divides by 10000, so six rounds
    exhaust a [usize]. *)
Fixpoint countdigits_loop (fuel : nat) (v result : Z) : Z :=
  match fuel with
  | O => result
  | S fuel =>
      if v <? 10 then result
      else if v <? 100 then result + 1
      else if v <? 1000 then result + 2
      else if v <? 10000 then result + 3
      else countdigits_loop fuel (v / 10000) (result + 4)
  end.

Definition countdigits (v : Z) : Z := countdigits_loop 6 v 1.

Definition bulklen (len : Z) : Z := 1 + countdigits len + 2 + len + 2.

Definition args_len (args : list (Arg bytes)) (cursor : Z) : Z :=
  foldl (fun totlen item =>
    totlen + bulklen (match item with
                      | Cursor => countdigits (as_usize cursor)
                      | Simple val => Z.of_nat (length val)
                      end))
    (1 + countdigits (Z.of_nat (length args)) + 2) args.

(** [buf.format(n)] for a length. *)
Definition format_len (n : nat) : bytes := itoa (Z.of_nat n).

Definition write_command (cmd : bytes) (args : list (Arg bytes)) (cursor : Z) : bytes :=
  let cmd := cmd ++ bs "*" in
  let cmd := cmd ++ format_len (length args) in
  let cmd := cmd ++ CRLF in
  foldl (fun cmd item =>
    let bytes := match item with Cursor => itoa cursor | Simple val => val end in
    let cmd := cmd ++ bs "$" in
    let cmd := cmd ++ format_len (length bytes) in
    let cmd := cmd ++ CRLF in
    let cmd := cmd ++ bytes in
    cmd ++ CRLF) cmd args.

Definition write_command_to_vec (cmd : bytes) (args : list (Arg bytes)) (cursor : Z) : bytes :=
  write_command cmd args cursor.

Definition encode_command (args : list (Arg bytes)) (cursor : Z) : bytes :=
  write_command_to_vec [] args cursor.

Definition pack_command (args : list bytes) : bytes := encode_command (map Simple args) 0.

(** ** The builder *)

Definition Cmd_new : Cmd :=
  {| data := []; args := []; cursor := None; no_response := false;
     skip_concurrency_limit := false; cache := None |}.

Definition clear (c : Cmd) : Cmd := Cmd_new.

(** [std::mem::take]: the command, and what is left in its place. *)
Definition Cmd_take (c : Cmd) : Cmd * Cmd := (c, Cmd_new).

Definition with_data (c : Cmd) (d : bytes) : Cmd :=
  {| data := d; args := args c; cursor := cursor c; no_response := no_response c;
     skip_concurrency_limit := skip_concurrency_limit c; cache := cache c |}.
Definition with_args (c : Cmd) (l : list (Arg nat)) : Cmd :=
  {| data := data c; args := l; cursor := cursor c; no_response := no_response c;
     skip_concurrency_limit := skip_concurrency_limit c; cache := cache c |}.
Definition with_cursor (c : Cmd) (cur : option Z) : Cmd :=
  {| data := data c; args := args c; cursor := cur; no_response := no_response c;
     skip_concurrency_limit := skip_concurrency_limit c; cache := cache c |}.

(** [self.args.push(Arg::Simple(self.data.len()))]. *)
Definition push_end (c : Cmd) : Cmd := with_args c (args c ++ [Simple (length (data c))]).

Definition write_arg (c : Cmd) (arg : bytes) : Cmd := push_end (with_data c (data c ++ arg)).

(** [writer_for_next_arg]: every [write] appends to the data, dropping the
    guard ends the argument. *)
Definition writer_write (c : Cmd) (buf : bytes) : Cmd := with_data c (data c ++ buf).
Definition writer_for_next_arg (c : Cmd) (writes : list bytes) : Cmd :=
  push_end (foldl writer_write c writes).

Definition cursor_arg (c : Cmd) (cur : Z) : Cmd :=
  with_args (with_cursor c (Some cur)) (args c ++ [Cursor]).

Definition set_no_response (c : Cmd) (nr : bool) : Cmd :=
  {| data := data c; args := args c; cursor := cursor c; no_response := nr;
     skip_concurrency_limit := skip_concurrency_limit c; cache := cache c |}.
Definition is_no_response (c : Cmd) : bool := no_response c.
Definition set_skip_concurrency_limit (c : Cmd) (b : bool) : Cmd :=
  {| data := data c; args := args c; cursor := cursor c; no_response := no_response c;
     skip_concurrency_limit := b; cache := cache c |}.
Definition set_cache_config (c : Cmd) (cfg : CommandCacheConfig) : Cmd :=
  {| data := data c; args := args c; cursor := cursor c; no_response := no_response c;
     skip_concurrency_limit := skip_concurrency_limit c; cache := Some cfg |}.
Definition get_cache_config (c : Cmd) : option CommandCacheConfig := cache c.

Definition in_scan_mode (c : Cmd) : bool := bool_decide (is_Some (cursor c)).
Definition Cmd_is_empty (c : Cmd) : bool := match args c with [] => true | _ => false end.

(** [cmd(name)]. *)
Definition cmd (name : string) : Cmd := write_arg Cmd_new (bs name).

(** ** Reading the arguments *)

(** [&data[a..b]]; [None] is a panic. *)
Definition slice (d : bytes) (a b : nat) : option bytes :=
  if (a <=? b)%nat && (b <=? length d)%nat then Some (take (b - a) (drop a d)) else None.

(** The iterator of [args_iter] run to its end; [None] if a slice panics. *)
Fixpoint args_iter_go (d : bytes) (prev : nat) (l : list (Arg nat)) : option (list (Arg bytes)) :=
  match l with
  | [] => Some []
  | Simple i :: l => a ← slice d prev i; r ← args_iter_go d i l; Some (Simple a :: r)
  | Cursor :: l => r ← args_iter_go d prev l; Some (Cursor :: r)
  end.

Definition args_iter_checked (c : Cmd) : option (list (Arg bytes)) := args_iter_go (data c) 0 (args c).
(** [args_iter]; it never panics on a command that was built ([build_args_iter]). *)
Definition args_iter (c : Cmd) : list (Arg bytes) := default [] (args_iter_checked c).

Definition cmd_len (c : Cmd) : Z := args_len (args_iter c) (default 0 (cursor c)).

Definition write_packed_command (c : Cmd) (dst : bytes) : bytes :=
  write_command_to_vec dst (args_iter c) (default 0 (cursor c)).
Definition write_packed_command_preallocated (c : Cmd) (dst : bytes) : bytes :=
  write_command dst (args_iter c) (default 0 (cursor c)).
Definition get_packed_command (c : Cmd) : bytes :=
  if Cmd_is_empty c then [] else write_packed_command c [].

(** [arg_idx]; the outer [None] is a panic. *)
Definition arg_idx_checked (c : Cmd) (idx : nat) : option (option bytes) :=
  if (length (args c) <=? idx)%nat then Some None
  else
    let start := match idx with
                 | O => O
                 | S i => match args c !! i with Some (Simple n) => n | _ => O end
                 end in
    let end_ := match args c !! idx with Some (Simple n) => n | _ => O end in
    if (start =? 0)%nat && (end_ =? 0)%nat then Some None
    else Some <$> slice (data c) start end_.

(** For callers past the point where a panic would have ended the program. *)
Definition arg_idx (c : Cmd) (idx : nat) : option bytes := default None (arg_idx_checked c idx).

(** ** Lengths are exact *)

Lemma length_dec_10000 n : 10000 <= n -> length (dec n) = (4 + length (dec (n / 10000)))%nat.
Proof.
  intros Hn. change 10000 with (10 * 10 * 10 * 10). rewrite <- !Z.div_div by lia.
  do 4 (rewrite length_dec by (repeat apply Z.div_pos; lia);
        rewrite (proj2 (Z.ltb_ge _ _)) by (repeat (apply Z.div_le_lower_bound; [lia|]); lia)).
  done.
Qed.

Lemma Z_ltb_div n a b : 0 < a -> (n / a <? b) = (n <? a * b).
Proof.
  intros Ha. apply Bool.eq_iff_eq_true. rewrite !Z.ltb_lt. split; intros H.
  - pose proof (Z.div_mod n a). pose proof (Z.mod_pos_bound n a). nia.
  - apply Z.div_lt_upper_bound; lia.
Qed.

Lemma length_dec_small n : 0 <= n < 10000 ->
  length (dec n) =
  if n <? 10 then 1%nat else if n <? 100 then 2%nat else if n <? 1000 then 3%nat else 4%nat.
Proof.
  intros Hn. rewrite length_dec, (length_dec (n / 10)), (length_dec (n / 10 / 10)),
    (length_dec (n / 10 / 10 / 10)) by (repeat apply Z.div_pos; lia).
  rewrite !Z.div_div, !Z_ltb_div by lia.
  change (10 * 10 * 10 * 10) with 10000. change (10 * 10 * 10) with 1000. change (10 * 10) with 100.
  rewrite (proj2 (Z.ltb_lt n 10000)) by lia. by repeat case_match.
Qed.

Lemma countdigits_loop_dec fuel v r : 0 <= v < 10000 ^ Z.of_nat fuel ->
  countdigits_loop fuel v r = r - 1 + Z.of_nat (length (dec v)).
Proof.
  revert v r. induction fuel as [|fuel IH]; intros v r Hv.
  - assert (v = 0) as -> by (simpl in Hv; lia). simpl. lia.
  - cbn [countdigits_loop]. destruct (Z.lt_ge_cases v 10000) as [Hs|Hs].
    + rewrite length_dec_small by lia. repeat case_match; bool_to_prop; lia.
    + rewrite length_dec_10000 by lia.
      rewrite !(proj2 (Z.ltb_ge v _)) by lia. rewrite IH; [lia|].
      rewrite Nat2Z.inj_succ, Z.pow_succ_r in Hv by lia.
      split; [apply Z.div_pos; lia | apply Z.div_lt_upper_bound; lia].
Qed.

Lemma countdigits_dec v : 0 <= v <= usize_max -> countdigits v = Z.of_nat (length (dec v)).
Proof.
  unfold usize_max, u64_max. intros Hv. unfold countdigits.
  rewrite countdigits_loop_dec; [lia|]. change (10000 ^ Z.of_nat 6) with (10 ^ 24). lia.
Qed.

(** The bytes an argument contributes. *)
Definition arg_bytes (cursor : Z) (a : Arg bytes) : bytes :=
  match a with Cursor => itoa cursor | Simple val => val end.

(** The command as a RESP value: an array of bulk strings. *)
Definition command_value (args : list (Arg bytes)) (cursor : Z) : Value :=
  Array (map (fun a => BulkString (arg_bytes cursor a)) args).

(** Packing is the wire form of that array. *)
Lemma write_command_encode dst args cursor :
  write_command dst args cursor = dst ++ encode (command_value args cursor).
Proof.
  unfold write_command, command_value, format_len. cbn [encode]. unfold header.
  rewrite length_map.
  assert (forall acc, foldl (fun cmd item =>
    let bytes := match item with Cursor => itoa cursor | Simple val => val end in
    ((((cmd ++ bs "$") ++ itoa (Z.of_nat (length bytes))) ++ CRLF) ++ bytes) ++ CRLF) acc args =
    acc ++ concat (map encode (map (fun a => BulkString (arg_bytes cursor a)) args))) as ->.
  { induction args as [|a args IH]; intros acc; simpl; [by rewrite app_nil_r|].
    rewrite IH. unfold header. by rewrite <- !app_assoc. }
  by rewrite <- !app_assoc, <- app_comm_cons, <- app_assoc.
Qed.

Definition sizes_ok (args : list (Arg bytes)) : bool :=
  len_ok args && forallb (fun a => match a with Simple v => len_ok v | Cursor => true end) args.

Lemma itoa_u64_short n : in_u64 n -> len_ok (itoa n) = true.
Proof.
  unfold in_u64, u64_max. intros Hn. unfold len_ok, itoa, i64_max.
  rewrite (proj2 (Z.ltb_ge n 0)) by lia.
  rewrite <- countdigits_dec by (unfold usize_max, u64_max; lia).
  apply Z.ltb_lt. unfold countdigits. simpl. repeat case_match; lia.
Qed.

Lemma command_value_encodable args cursor : sizes_ok args = true -> in_u64 cursor ->
  encodable (command_value args cursor) = true /\ (depth (command_value args cursor) <= 2)%nat.
Proof.
  unfold sizes_ok. intros [Hl Hs]%andb_prop Hc. split.
  - cbn [encodable command_value]. unfold len_ok in *. rewrite length_map, Hl. simpl.
    rewrite forallb_forall in *. intros w (a & <- & Ha)%in_map_iff. specialize (Hs a Ha).
    destruct a; simpl; [done|by apply itoa_u64_short].
  - simpl. apply le_n_S. rewrite map_map. simpl. apply max_list_le. by apply Forall_true.
Qed.

Lemma itoa_dec n : 0 <= n -> itoa n = dec n.
Proof. intros. unfold itoa. by rewrite (proj2 (Z.ltb_ge _ _)). Qed.

Lemma len_ok_usize {A} (l : list A) : len_ok l = true -> 0 <= Z.of_nat (length l) <= usize_max.
Proof. unfold len_ok, usize_max, u64_max, i64_max. intros. bool_to_prop. lia. Qed.

Lemma bulklen_spec v : len_ok v = true ->
  bulklen (Z.of_nat (length v)) = Z.of_nat (length (encode (BulkString v))).
Proof.
  intros Hv%len_ok_usize. unfold bulklen. rewrite countdigits_dec by done.
  cbn [encode]. unfold header. rewrite itoa_dec, !length_app by lia. simpl.
  rewrite !length_app. simpl. lia.
Qed.

(** The summand of one argument in [args_len]. *)
Lemma arg_len_spec cursor a : in_u64 cursor ->
  match a with Simple v => len_ok v | Cursor => true end = true ->
  bulklen (match a with Cursor => countdigits (as_usize cursor)
           | Simple val => Z.of_nat (length val) end) =
  Z.of_nat (length (encode (BulkString (arg_bytes cursor a)))).
Proof.
  intros Hc Ha. destruct a as [v|]; [by apply bulklen_spec|]. cbn [arg_bytes].
  rewrite <- bulklen_spec by (by apply itoa_u64_short). unfold in_u64 in Hc.
  by rewrite as_usize_small, countdigits_dec, itoa_dec by (unfold usize_max; lia).
Qed.

Lemma args_len_spec args cursor : sizes_ok args = true -> in_u64 cursor ->
  args_len args cursor = Z.of_nat (length (encode (command_value args cursor))).
Proof.
  unfold sizes_ok. intros [Hl Hs]%andb_prop Hc. unfold args_len.
  assert (forall acc, foldl (fun totlen item => totlen + bulklen (match item with
      | Cursor => countdigits (as_usize cursor) | Simple val => Z.of_nat (length val) end)) acc args =
    acc + Z.of_nat (length (concat (map encode (map (fun a => BulkString (arg_bytes cursor a)) args))))) as ->.
  { clear Hl. revert Hs.
    induction args as [|a args IH]; cbn [forallb foldl map concat]; intros Hs acc; [simpl; lia|].
    apply andb_prop in Hs as [Ha Hs].
    rewrite IH, arg_len_spec, length_app, Nat2Z.inj_add by done. lia. }
  rewrite countdigits_dec by (by apply len_ok_usize).
  unfold command_value. cbn [encode]. unfold header.
  rewrite length_map, itoa_dec, !length_app by lia. simpl. rewrite !length_app. simpl. lia.
Qed.

(** ** The builder keeps offsets and data in step *)

(** The end of the last argument, if the offsets never go back. *)
Fixpoint check_offsets (prev : nat) (l : list (Arg nat)) : option nat :=
  match l with
  | [] => Some prev
  | Simple i :: l => if (prev <=? i)%nat then check_offsets i l else None
  | Cursor :: l => check_offsets prev l
  end.

Definition cmd_ok (c : Cmd) : Prop := check_offsets 0 (args c) = Some (length (data c)).

Lemma check_offsets_snoc prev l e i : check_offsets prev l = Some e -> (e <= i)%nat ->
  check_offsets prev (l ++ [Simple i]) = Some i.
Proof.
  revert prev. induction l as [|[j|] l IH]; intros prev; simpl.
  - intros [= ->] H. by rewrite (proj2 (Nat.leb_le _ _)).
  - case_match; [apply IH | done].
  - apply IH.
Qed.

Lemma check_offsets_cursor prev l : check_offsets prev (l ++ [Cursor]) = check_offsets prev l.
Proof. revert prev. induction l as [|[j|] l IH]; intros prev; simpl; [done| |done]. by case_match. Qed.

Lemma check_offsets_le prev l e : check_offsets prev l = Some e -> (prev <= e)%nat.
Proof.
  revert prev. induction l as [|[j|] l IH]; intros prev; simpl.
  - intros [= ->]. done.
  - case_match; [|done]. intros E%IH. apply Nat.leb_le in H. lia.
  - apply IH.
Qed.

(** Appending to the data leaves the arguments before it alone. *)
Lemma args_iter_go_app d x prev l e : check_offsets prev l = Some e -> (e <= length d)%nat ->
  args_iter_go (d ++ x) prev l = args_iter_go d prev l /\ is_Some (args_iter_go d prev l).
Proof.
  revert prev. induction l as [|[i|] l IH]; intros prev; simpl; [by eauto| |].
  - case_match eqn:Ei; [|done]. intros He Hd. apply Nat.leb_le in Ei.
    pose proof (check_offsets_le _ _ _ He) as Hi.
    unfold slice. rewrite length_app, !(proj2 (Nat.leb_le _ _)) by lia. simpl.
    rewrite drop_app_le, take_app_le by (rewrite ?length_drop; lia).
    destruct (IH i He Hd) as [-> [r Hr]]. rewrite Hr. by eauto.
  - intros He Hd. destruct (IH prev He Hd) as [-> [r Hr]]. rewrite Hr. by eauto.
Qed.

Lemma args_iter_go_snoc d prev l e i : check_offsets prev l = Some e -> (e <= length d)%nat ->
  i = length d ->
  args_iter_go d prev (l ++ [Simple i]) =
  (fun r => r ++ [Simple (drop e d)]) <$> args_iter_go d prev l.
Proof.
  intros He Hd ->. revert prev He. induction l as [|[j|] l IH]; intros prev; simpl.
  - intros [= ->]. unfold slice. rewrite !(proj2 (Nat.leb_le _ _)) by lia. simpl.
    by rewrite take_ge by (rewrite length_drop; lia).
  - case_match; [|done]. intros He. rewrite IH by done.
    destruct (slice d prev j); simpl; [|done]. by destruct (args_iter_go d j l).
  - intros He. rewrite IH by done. by destruct (args_iter_go d prev l).
Qed.

Lemma args_iter_go_cursor d prev l :
  args_iter_go d prev (l ++ [Cursor]) = (fun r => r ++ [Cursor]) <$> args_iter_go d prev l.
Proof.
  revert prev. induction l as [|[j|] l IH]; intros prev; simpl; [done|..]; rewrite IH.
  - destruct (slice d prev j); simpl; [|done]. by destruct (args_iter_go d j l).
  - by destruct (args_iter_go d prev l).
Qed.

Lemma cmd_ok_args_iter c : cmd_ok c -> args_iter_checked c = Some (args_iter c).
Proof.
  intros H. unfold args_iter. destruct (args_iter_go_app (data c) [] 0 (args c) _ H ltac:(lia))
    as [_ [r Hr]]. unfold args_iter_checked. by rewrite Hr.
Qed.

Lemma write_arg_ok c a : cmd_ok c ->
  cmd_ok (write_arg c a) /\ args_iter (write_arg c a) = args_iter c ++ [Simple a].
Proof.
  intros H. unfold write_arg, push_end, cmd_ok. simpl. split.
  - rewrite (check_offsets_snoc _ _ _ _ H); [done|]. rewrite length_app. lia.
  - unfold args_iter at 1, args_iter_checked. simpl.
    rewrite (args_iter_go_snoc _ _ _ _ _ H) by (rewrite ?length_app; lia).
    destruct (args_iter_go_app (data c) a 0 (args c) _ H ltac:(lia)) as [-> _].
    change (args_iter_go (data c) 0 (args c)) with (args_iter_checked c).
    rewrite cmd_ok_args_iter by done. simpl. by rewrite drop_app_length.
Qed.

Lemma writer_write_fold c ws : foldl writer_write c ws = with_data c (data c ++ concat ws).
Proof.
  revert c. induction ws as [|w ws IH]; intros c; simpl.
  - rewrite app_nil_r. by destruct c.
  - rewrite IH. unfold writer_write, with_data. simpl. by rewrite app_assoc.
Qed.

(** Many writes through the writer are one [write_arg]. *)
Lemma writer_for_next_arg_eq c ws : writer_for_next_arg c ws = write_arg c (concat ws).
Proof. unfold writer_for_next_arg, write_arg. by rewrite writer_write_fold. Qed.

Lemma cursor_arg_ok c n : cmd_ok c ->
  cmd_ok (cursor_arg c n) /\ args_iter (cursor_arg c n) = args_iter c ++ [Cursor].
Proof.
  intros H. unfold cursor_arg, cmd_ok. simpl. rewrite check_offsets_cursor. split; [done|].
  unfold args_iter at 1, args_iter_checked. simpl. rewrite args_iter_go_cursor.
  change (args_iter_go (data c) 0 (args c)) with (args_iter_checked c).
  by rewrite cmd_ok_args_iter.
Qed.

(** ** Offsets of a command without a cursor argument *)

Fixpoint offsets (prev : nat) (l : list bytes) : list (Arg nat) :=
  match l with
  | [] => []
  | a :: l => Simple (prev + length a)%nat :: offsets (prev + length a)%nat l
  end.

Lemma offsets_lookup prev l i : (i < length l)%nat ->
  offsets prev l !! i = Some (Simple (prev + length (concat (take (S i) l)))%nat).
Proof.
  revert prev i. induction l as [|a l IH]; intros prev i Hi; simpl in *; [lia|].
  destruct i as [|i]; simpl; [by rewrite app_nil_r|].
  rewrite IH by lia. rewrite length_app. do 2 f_equal. simpl. lia.
Qed.

Lemma offsets_length prev l : length (offsets prev l) = length l.
Proof. revert prev. induction l as [|a l IH]; intros prev; simpl; [done|]. by rewrite IH. Qed.

Lemma slice_Some d a b : (a <= b <= length d)%nat -> slice d a b = Some (take (b - a) (drop a d)).
Proof. intros [H1 H2]. unfold slice. by rewrite !(proj2 (Nat.leb_le _ _)). Qed.

Lemma args_iter_go_simple d prev l : check_offsets prev l = Some (length d) -> Cursor ∉ l ->
  exists bl, args_iter_go d prev l = Some (map Simple bl) /\ drop prev d = concat bl /\
             l = offsets prev bl.
Proof.
  revert prev. induction l as [|[i|] l IH]; intros prev; simpl.
  - intros [= ->] _. exists []. by rewrite drop_all.
  - case_match eqn:Ei; [|done]. intros He Hc. apply Nat.leb_le in Ei.
    pose proof (check_offsets_le _ _ _ He). rewrite slice_Some by lia. simpl.
    destruct (IH i He) as (bl & -> & Hd & ->); [set_solver|].
    exists (take (i - prev) (drop prev d) :: bl). simpl.
    rewrite <- Hd, length_take, length_drop.
    replace (prev + (i - prev) `min` (length d - prev))%nat with i by lia.
    split_and!; [done| |done]. rewrite <- (take_drop (i - prev) (drop prev d)) at 1.
    rewrite drop_drop. by replace (prev + (i - prev))%nat with i by lia.
  - intros _ Hc. set_solver.
Qed.

Lemma slice_concat l i a : l !! i = Some a ->
  slice (concat l) (length (concat (take i l))) (length (concat (take (S i) l))) = Some a.
Proof.
  intros Hi. rewrite (take_S_r _ _ _ Hi), concat_app, length_app. simpl. rewrite app_nil_r.
  rewrite <- (take_drop_middle _ _ _ Hi) at 1. rewrite concat_app. simpl.
  rewrite slice_Some by (rewrite !length_app; lia).
  rewrite drop_app_length. f_equal. apply take_length_app. lia.
Qed.

(** ** Properties *)

(** The calls a user of the builder can make. *)
Inductive cmd_op :=
| OpArg (a : bytes)
| OpWriter (writes : list bytes)
| OpCursor (n : Z)
| OpNoResponse (b : bool)
| OpSkipLimit (b : bool)
| OpCache (cfg : CommandCacheConfig)
| OpClear.

Definition apply_op (c : Cmd) (o : cmd_op) : Cmd :=
  match o with
  | OpArg a => write_arg c a
  | OpWriter ws => writer_for_next_arg c ws
  | OpCursor n => cursor_arg c n
  | OpNoResponse b => set_no_response c b
  | OpSkipLimit b => set_skip_concurrency_limit c b
  | OpCache cfg => set_cache_config c cfg
  | OpClear => clear c
  end.
Definition build (ops : list cmd_op) : Cmd := foldl apply_op Cmd_new ops.

(** What the calls mean: a list of arguments and the last cursor set. *)
Definition spec_op (s : list (Arg bytes) * option Z) (o : cmd_op) : list (Arg bytes) * option Z :=
  match o with
  | OpArg a => (s.1 ++ [Simple a], s.2)
  | OpWriter ws => (s.1 ++ [Simple (concat ws)], s.2)
  | OpCursor n => (s.1 ++ [Cursor], Some n)
  | OpNoResponse _ | OpSkipLimit _ | OpCache _ => s
  | OpClear => ([], None)
  end.
Definition spec_build (ops : list cmd_op) : list (Arg bytes) * option Z :=
  foldl spec_op ([], None) ops.

Lemma apply_op_ok c o : cmd_ok c ->
  cmd_ok (apply_op c o) /\ (args_iter (apply_op c o), cursor (apply_op c o)) =
                           spec_op (args_iter c, cursor c) o.
Proof.
  intros Hc. destruct o; cbn [apply_op spec_op]; rewrite ?writer_for_next_arg_eq; try done.
  - by destruct (write_arg_ok c a Hc) as [? ->].
  - by destruct (write_arg_ok c (concat writes) Hc) as [? ->].
  - by destruct (cursor_arg_ok c n Hc) as [? ->].
Qed.

Lemma build_ok_from ops c : cmd_ok c ->
  cmd_ok (foldl apply_op c ops) /\
  (args_iter (foldl apply_op c ops), cursor (foldl apply_op c ops)) =
  foldl spec_op (args_iter c, cursor c) ops.
Proof.
  revert c. induction ops as [|o ops IH]; intros c Hc; simpl; [done|].
  destruct (apply_op_ok c o Hc) as [Hc' <-]. by apply IH.
Qed.

(** C9. The offset representation implements a list of arguments: after any
    sequence of builder calls [args_iter] never panics and yields the arguments
    in the order they were written (an argument written piecewise through
    [writer_for_next_arg] is one argument), and the cursor is the last one set;
    [clear] forgets everything. *)
Theorem build_args_iter (ops : list cmd_op) :
  args_iter_checked (build ops) = Some (spec_build ops).1 /\
  cursor (build ops) = (spec_build ops).2.
Proof.
  destruct (build_ok_from ops Cmd_new eq_refl) as [Hok E].
  rewrite cmd_ok_args_iter by done. change (spec_build ops) with (foldl spec_op (args_iter Cmd_new, cursor Cmd_new) ops).
  by rewrite <- E.
Qed.

(** The length computed before packing is exact: [cmd_len] is the number of
    bytes of the packed command, so the buffer reserved for it is never grown
    and never too large. *)
Theorem cmd_len_exact (c : Cmd) (Hne : Cmd_is_empty c = false)
    (Hs : sizes_ok (args_iter c) = true) (Hc : in_u64 (default 0 (cursor c))) :
  cmd_len c = Z.of_nat (length (get_packed_command c)).
Proof.
  unfold cmd_len, get_packed_command. rewrite Hne. unfold write_packed_command, write_command_to_vec.
  by rewrite write_command_encode, args_len_spec.
Qed.

(** C10. A packed command is read back, by the crate's own parser, as the array of
    its arguments as bulk strings, with what follows it left untouched. *)
Theorem packed_command_roundtrip `{C : Combine} {CL : CombineLaws C} (c : Cmd) (rest : bytes)
    (Hne : Cmd_is_empty c = false)
    (Hs : sizes_ok (args_iter c) = true) (Hc : in_u64 (default 0 (cursor c))) :
  parse_value (get_packed_command c ++ rest) =
  Ok (Array (map (fun a => BulkString (arg_bytes (default 0 (cursor c)) a)) (args_iter c)), rest).
Proof.
  unfold get_packed_command. rewrite Hne. unfold write_packed_command, write_command_to_vec.
  rewrite write_command_encode. destruct (command_value_encodable _ _ Hs Hc) as [He Hd].
  unfold parse_value, value. rewrite app_nil_l, value_at_encode by done. unfold expect.
  rewrite (proj2 (Nat.leb_le _ _)); [done|]. simpl default. unfold MAX_RECURSE_DEPTH. lia.
Qed.

(** Without cursors the command is a list of arguments, which [arg_idx] reads. *)
Lemma arg_idx_simple (c : Cmd) (Hok : cmd_ok c) (Hcur : Cursor ∉ args c) :
  exists l, args_iter c = map Simple l /\ length (args c) = length l /\
  forall idx, arg_idx_checked c idx =
  Some (if bool_decide (concat (take (S idx) l) = []) then None else l !! idx).
Proof.
  destruct (args_iter_go_simple _ _ _ Hok Hcur) as (l & Hi & Hd & Ha). exists l.
  unfold args_iter, args_iter_checked. rewrite Hi. split; [done|]. rewrite drop_0 in Hd.
  rewrite Ha at 1. split; [apply offsets_length|]. intros idx.
  unfold arg_idx_checked. rewrite Ha, offsets_length. case_match eqn:El.
  - apply Nat.leb_le in El. rewrite lookup_ge_None_2 by done. by case_bool_decide.
  - apply Nat.leb_gt in El. destruct (lookup_lt_is_Some_2 l idx El) as [a Hl].
    rewrite offsets_lookup by done. simpl plus.
    assert ((match idx with O => O | S i => match offsets 0 l !! i with Some (Simple n) => n
      | _ => O end end) = length (concat (take idx l))) as ->.
    { destruct idx as [|i]; [done|]. by rewrite offsets_lookup by lia. }
    rewrite Hd, slice_concat with (a := a) by done. rewrite Hl. simpl.
    pose proof (take_S_r _ _ _ Hl) as Ht. case_bool_decide as Hz.
    + rewrite Hz. rewrite Ht, concat_app in Hz. apply app_eq_nil in Hz as [-> _]. done.
    + destruct (length (concat (take (S idx) l))) eqn:E; [|by rewrite andb_false_r].
      by apply nil_length_inv in E.
Qed.

(** On a command without cursor arguments [arg_idx] never panics and agrees
    with [args_iter], except that an argument is reported missing when it and
    all before it are empty. *)
Theorem arg_idx_agrees (c : Cmd) (idx : nat) (Hok : cmd_ok c) (Hcur : Cursor ∉ args c) :
  exists l, args_iter c = map Simple l /\
  arg_idx_checked c idx =
  Some (if bool_decide (concat (take (S idx) l) = []) then None else l !! idx).
Proof. destruct (arg_idx_simple c Hok Hcur) as (l & Hi & _ & Ha). eauto. Qed.

(** With a cursor argument the two disagree.  After a non-empty command and
    its cursor, asking [arg_idx] for the cursor panics (the slice runs
    backwards), and asking for the argument behind the cursor returns all the
    data of the command up to the end of that argument instead of the
    argument. *)
Theorem arg_idx_cursor (c : Cmd) (n : Z) (a : bytes) (Hok : cmd_ok c)
    (Hlast : last (args c) = Some (Simple (length (data c)))) (Hd : data c <> []) :
  arg_idx_checked (cursor_arg c n) (length (args c)) = None /\
  arg_idx_checked (write_arg (cursor_arg c n) a) (S (length (args c))) = Some (Some (data c ++ a)) /\
  args_iter (write_arg (cursor_arg c n) a) = args_iter c ++ [Cursor; Simple a].
Proof.
  assert (length (data c) <> O) as Hz by (by destruct (data c)).
  rewrite last_lookup in Hlast. split_and!.
  - unfold arg_idx_checked. simpl. rewrite length_app. simpl.
    rewrite (proj2 (Nat.leb_gt _ _)), lookup_app_r, Nat.sub_diag by lia. simpl.
    destruct (length (args c)) as [|k] eqn:Ek; [by destruct (args c)|]. simpl in Hlast.
    rewrite lookup_app_l, Hlast by lia. rewrite andb_true_r, (proj2 (Nat.eqb_neq _ _)) by done.
    unfold slice. by rewrite (proj2 (Nat.leb_gt _ _)) by lia.
  - unfold arg_idx_checked. simpl. rewrite !length_app. simpl.
    rewrite (proj2 (Nat.leb_gt _ _)) by lia.
    rewrite (lookup_app_l _ [Simple _]), lookup_app_r, Nat.sub_diag by (rewrite ?length_app; simpl; lia).
    rewrite lookup_app_r by (rewrite length_app; simpl; lia).
    replace (S (length (args c)) - length (args c ++ [Cursor]))%nat with O by
      (rewrite length_app; simpl; lia). cbn -[slice].
    rewrite (proj2 (Nat.eqb_neq _ _)) by lia. rewrite slice_Some by (rewrite length_app; lia).
    cbn [fmap option_fmap option_map]. by rewrite drop_0, take_ge by (rewrite length_app; lia).
  - destruct (cursor_arg_ok c n Hok) as [Hok' E]. destruct (write_arg_ok _ a Hok') as [_ ->].
    by rewrite E, <- app_assoc.
Qed.

(** ** Witnesses *)

Definition sscan_cmd : Cmd := build [OpArg (bs "SSCAN"); OpWriter [bs "my"; bs "_set"]; OpCursor 512].

Lemma cmd_len_exact_witness : cmd_len sscan_cmd = 36.
Proof. rewrite cmd_len_exact; vm_compute; intuition congruence. Defined.

Lemma packed_command_roundtrip_witness :
  parse_value (C:=combine_ref) (get_packed_command sscan_cmd ++ bs "+") =
  Ok (Array [BulkString (bs "SSCAN"); BulkString (bs "my_set"); BulkString (bs "512")], bs "+").
Proof.
  rewrite (packed_command_roundtrip (C:=combine_ref) (CL:=combine_ref_laws) sscan_cmd (bs "+"));
    vm_compute; intuition congruence.
Defined.

Lemma arg_idx_agrees_witness :
  exists l, args_iter (build [OpArg (bs "GET"); OpArg (bs "k")]) = map Simple l /\
  arg_idx_checked (build [OpArg (bs "GET"); OpArg (bs "k")]) 1 =
  Some (if bool_decide (concat (take 2 l) = []) then None else l !! 1%nat).
Proof. apply (arg_idx_agrees _ 1); [reflexivity|]. vm_compute. set_solver. Defined.

Lemma arg_idx_cursor_witness :
  arg_idx_checked (cursor_arg (cmd "SCAN") 0) 1 = None.
Proof.
  apply (arg_idx_cursor (cmd "SCAN") 0 (bs "MATCH")); [reflexivity|reflexivity|]. by vm_compute.
Defined.
