(* ===== verification/Writers.v ===== *)
(** * Writing arguments

    The trait [RedisWrite] of [types.rs] with its provided methods, its implementation
    for a list of arguments, and that of [cmd.rs] for a command.  An argument is
    written whole, formatted, through an [io::Write] or through a [bytes::BufMut];
    capacities that are reserved beforehand are not represented. *)

From S2P Require Import Prelude Text Errors Types Cmd.

(** What is put into a [BufMut]: a slice, a repeated byte, another buffer, or what was
    written to [chunk_mut] before [advance_mut]. *)
Inductive put := put_slice (src : bytes) | put_bytes (val : byte) (cnt : nat) | put_buf (src : bytes)
| advance_mut (chunk : bytes).
(** What [Vec<u8>] does with it. *)
Definition vec_put (buf : bytes) (p : put) : bytes :=
  match p with
  | put_slice src | put_buf src | advance_mut src => buf ++ src
  | put_bytes val cnt => buf ++ repeat val cnt
  end.

(** The trait; an argument that is formatted is given by its text, a writer by what is
    written to it before it is dropped. *)
Class RedisWrite (W : Type) := {
  rw_write_arg : bytes -> W -> W;
  rw_write_arg_fmt : bytes -> W -> W;
  rw_writer_for_next_arg : list bytes -> W -> W;
  rw_bufmut_for_next_arg : list put -> W -> W
}.

(** The provided methods: a formatted argument is rendered first; the buffer of
    [Wrapper] is written to the writer when it is dropped, before the writer is. *)
Definition provided_write_arg_fmt {W} (write_arg : bytes -> W -> W) (text : bytes) (w : W) : W := write_arg text w.
Definition provided_bufmut_for_next_arg {W} (writer_for_next_arg : list bytes -> W -> W) (puts : list put) (w : W) : W :=
  writer_for_next_arg [foldl vec_put [] puts] w.

(** [RedisWrite for Vec<Vec<u8>>]: a writer appends to the last argument, which is
    empty at first. *)
Definition on_last (f : bytes -> bytes) (v : list bytes) : list bytes :=
  match last v with
  | Some x => removelast v ++ [f x]
  | None => v
  end.
Definition vec_writer_for_next_arg (writes : list bytes) (v : list bytes) : list bytes :=
  foldl (fun v buf => on_last (fun x => x ++ buf) v) (v ++ [[]]) writes.
Definition vec_bufmut_for_next_arg (puts : list put) (v : list bytes) : list bytes :=
  foldl (fun v p => on_last (fun x => vec_put x p) v) (v ++ [[]]) puts.
#[export] Instance vec_RedisWrite : RedisWrite (list bytes) := {|
  rw_write_arg := fun arg v => v ++ [arg];
  rw_write_arg_fmt := fun text v => v ++ [text];
  rw_writer_for_next_arg := vec_writer_for_next_arg;
  rw_bufmut_for_next_arg := vec_bufmut_for_next_arg
|}.

(** [RedisWrite for Cmd]: text and buffers go to the end of the data, and dropping the
    guard ends the argument. *)
Definition cmd_write_arg_fmt (text : bytes) (c : Cmd) : Cmd := push_end (writer_write c text).
Definition cmd_bufmut_for_next_arg (puts : list put) (c : Cmd) : Cmd :=
  push_end (foldl (fun c p => with_data c (vec_put (data c) p)) c puts).
#[export] Instance Cmd_RedisWrite : RedisWrite Cmd := {|
  rw_write_arg := fun arg c => write_arg c arg;
  rw_write_arg_fmt := cmd_write_arg_fmt;
  rw_writer_for_next_arg := fun writes c => writer_for_next_arg c writes;
  rw_bufmut_for_next_arg := cmd_bufmut_for_next_arg
|}.

(** ** One argument per call *)

(** A call of the trait and the argument it writes. *)
Inductive write_call :=
| call_write_arg (arg : bytes)
| call_write_arg_fmt (text : bytes)
| call_writer_for_next_arg (writes : list bytes)
| call_bufmut_for_next_arg (puts : list put).
Definition argument (c : write_call) : bytes :=
  match c with
  | call_write_arg arg => arg
  | call_write_arg_fmt text => text
  | call_writer_for_next_arg writes => concat writes
  | call_bufmut_for_next_arg puts => foldl vec_put [] puts
  end.
Definition make_call {W} `{RedisWrite W} (w : W) (c : write_call) : W :=
  match c with
  | call_write_arg arg => rw_write_arg arg w
  | call_write_arg_fmt text => rw_write_arg_fmt text w
  | call_writer_for_next_arg writes => rw_writer_for_next_arg writes w
  | call_bufmut_for_next_arg puts => rw_bufmut_for_next_arg puts w
  end.

Lemma on_last_app f v x : on_last f (v ++ [x]) = v ++ [f x].
Proof. unfold on_last. by rewrite last_snoc, removelast_last. Qed.
Lemma on_last_fold {A} (f : bytes -> A -> bytes) (l : list A) v x :
  foldl (fun v a => on_last (fun x => f x a) v) (v ++ [x]) l = v ++ [foldl f x l].
Proof. revert x. induction l as [|a l IH]; intros x; simpl; [done|]. by rewrite on_last_app, IH. Qed.
Lemma foldl_app_concat (l : list bytes) x : foldl (fun x buf => x ++ buf) x l = x ++ concat l.
Proof. revert x. induction l as [|b l IH]; intros x; simpl; [by rewrite app_nil_r|]. by rewrite IH, app_assoc. Qed.
Lemma vec_put_app x y p : vec_put (x ++ y) p = x ++ vec_put y p.
Proof. by destruct p; simpl; rewrite app_assoc. Qed.
Lemma vec_puts_app x y l : foldl vec_put (x ++ y) l = x ++ foldl vec_put y l.
Proof. revert y. induction l as [|p l IH]; intros y; simpl; [done|]. by rewrite vec_put_app, IH. Qed.

Lemma vec_call v c : make_call v c = v ++ [argument c].
Proof.
  destruct c as [arg|text|writes|puts]; simpl; [done|done| |].
  - unfold vec_writer_for_next_arg. by rewrite on_last_fold, foldl_app_concat.
  - unfold vec_bufmut_for_next_arg. by rewrite on_last_fold.
Qed.
Lemma cmd_puts c l : foldl (fun c p => with_data c (vec_put (data c) p)) c l = with_data c (foldl vec_put (data c) l).
Proof. revert c. induction l as [|p l IH]; intros c; simpl; [by destruct c|]. by rewrite IH. Qed.
Lemma cmd_call c o : make_call c o = write_arg c (argument o).
Proof.
  destruct o as [arg|text|writes|puts]; simpl; [done|done|apply writer_for_next_arg_eq|].
  unfold cmd_bufmut_for_next_arg, write_arg. rewrite cmd_puts.
  by rewrite <- (app_nil_r (data c)) at 1; rewrite vec_puts_app.
Qed.

Lemma vec_calls calls v : foldl make_call v calls = v ++ map argument calls.
Proof.
  revert v. induction calls as [|o calls IH]; intros v; simpl; [by rewrite app_nil_r|].
  by rewrite vec_call, IH, <- app_assoc.
Qed.
Lemma cmd_calls calls c : cmd_ok c ->
  args_iter (foldl make_call c calls) = args_iter c ++ map Simple (map argument calls).
Proof.
  revert c. induction calls as [|o calls IH]; intros c Hok; simpl; [by rewrite app_nil_r|].
  rewrite cmd_call. destruct (write_arg_ok c (argument o) Hok) as [Hok' Ha]. by rewrite IH, Ha, <- app_assoc.
Qed.

(** Whichever methods arguments are written with, a list of arguments and a command
    receive the same ones, each of them as it was put together, and as many as there
    were calls; and so does a writer that has only the provided methods. *)
Theorem written_alike (calls : list write_call) :
  foldl make_call ([] : list bytes) calls = map argument calls /\
  args_iter (foldl make_call Cmd_new calls) = map Simple (foldl make_call ([] : list bytes) calls) /\
  (forall (v : list bytes) puts, provided_bufmut_for_next_arg vec_writer_for_next_arg puts v = make_call v (call_bufmut_for_next_arg puts)) /\
  (forall (c : Cmd) puts, provided_bufmut_for_next_arg (fun writes c => writer_for_next_arg c writes) puts c =
                          make_call c (call_bufmut_for_next_arg puts)).
Proof.
  rewrite vec_calls. split_and!; [done|by rewrite cmd_calls| |].
  - intros v puts. rewrite vec_call. unfold provided_bufmut_for_next_arg.
    rewrite (vec_call v (call_writer_for_next_arg [_]) : vec_writer_for_next_arg _ v = _). simpl. by rewrite app_nil_r.
  - intros c puts. rewrite cmd_call. unfold provided_bufmut_for_next_arg. rewrite writer_for_next_arg_eq.
    simpl. by rewrite app_nil_r.
Qed.
