(* ===== verification/Convert.v ===== *)
(** * Typed values: [FromRedisValue] and [ToRedisArgs] of [redis/src/types.rs]

    A Rust implementation of [FromRedisValue] is a record of its seven methods;
    the generic implementations (vectors, options, tuples, maps, sets) are
    functions on such records.  The methods come in a borrowing and a consuming
    form, written separately in the source; [FromRedisValueLaws] states that
    they agree, and every implementation is proved to satisfy it.

    The text of an error keeps its constant part.  Printing a double
    ([f64::to_string]) is a parameter. *)

From S2P Require Import Prelude Text Float64 Errors Types.
Local Open Scope Z_scope.

(** [x as T] for an integer type. *)
Definition as_ty (t : int_ty) (z : Z) : Z :=
  (z - int_min t) mod (int_max t - int_min t + 1) + int_min t.

(** [slice::chunks]. *)
Fixpoint chunks_go {A} (fuel : nat) (n : nat) (l : list A) : list (list A) :=
  match fuel, l with
  | _, [] => []
  | O, _ => []
  | S fuel, _ => take n l :: chunks_go fuel n (drop n l)
  end.
Definition chunks {A} (n : nat) (l : list A) : list (list A) := chunks_go (length l) n l.

Record FromRedisValue (T : Type) := {
  from_redis_value_ref : Value -> result ParsingError T;
  from_redis_value : Value -> result ParsingError T;
  from_redis_value_refs : list Value -> result ParsingError (list T);
  from_redis_values : list Value -> result ParsingError (list T);
  from_each_redis_values : list Value -> list (result ParsingError T);
  from_byte_slice : bytes -> option (list T);
  from_byte_vec : bytes -> result ParsingError (list T)
}.
Arguments from_redis_value_ref {T}.
Arguments from_redis_value {T}.
Arguments from_redis_value_refs {T}.
Arguments from_redis_values {T}.
Arguments from_each_redis_values {T}.
Arguments from_byte_slice {T}.
Arguments from_byte_vec {T}.

Definition singleton_of {T} (r : result ParsingError T) : result ParsingError (list T) :=
  (fun rv => [rv]) <$> r.

(** The trait's default methods, from the two conversions. *)
Definition frv_default {T} (by_ref owned : Value -> result ParsingError T) : FromRedisValue T := {|
  from_redis_value_ref := by_ref;
  from_redis_value := owned;
  from_redis_value_refs := try_map by_ref;
  from_redis_values := try_map owned;
  from_each_redis_values := map owned;
  from_byte_slice b := to_option (singleton_of (owned (BulkString b)));
  from_byte_vec b := singleton_of (owned (BulkString b))
|}.

(** A type with the owned conversion only. *)
Definition frv_owned {T} (f : Value -> result ParsingError T) : FromRedisValue T := frv_default f f.

Definition get_inner_value (v : Value) : Value := match v with Attribute data _ => data | _ => v end.
Definition get_owned_inner_value (v : Value) : Value :=
  match v with Attribute data _ => data | _ => v end.

(** ** Scalars *)

(** [from_redis_value_for_num_internal!]. *)
Definition num_of_value {T} (of_int : Z -> T) (of_str : bytes -> option T) (of_f64 : f64 -> T)
    (v : Value) : result ParsingError T :=
  let v := match v with Attribute data _ => data | _ => v end in
  match v with
  | Int val => Ok (of_int val)
  | SimpleString s => ok_or (of_str s) (parsing_error "Could not convert from string.")
  | BulkString b =>
      s ← map_err parsing_error_of_utf8 (from_utf8 b);
      ok_or (of_str s) (parsing_error "Could not convert from string.")
  | Double val => Ok (of_f64 val)
  | _ => Err (parsing_error "Response type not convertible to numeric.")
  end.

Definition frv_int (t : int_ty) : FromRedisValue Z :=
  let conv := num_of_value (as_ty t) (parse_int t) (f64_as_int t) in frv_default conv conv.

(** [u8] takes a byte string as it is. *)
Definition frv_u8 : FromRedisValue Z :=
  let conv := num_of_value (as_ty u8_ty) (parse_int u8_ty) (f64_as_int u8_ty) in
  {| from_redis_value_ref := conv;
     from_redis_value := conv;
     from_redis_value_refs := try_map conv;
     from_redis_values := try_map conv;
     from_each_redis_values := map conv;
     from_byte_slice b := Some (map byte_Z b);
     from_byte_vec b := Ok (map byte_Z b) |}.

Definition bool_of_value (v : Value) : result ParsingError bool :=
  match get_inner_value v with
  | Nil => Ok false
  | Int val => Ok (negb (val =? 0))
  | SimpleString s =>
      if bytes_eqb s (bs "1") then Ok true
      else if bytes_eqb s (bs "0") then Ok false
      else Err (parsing_error "Response status not valid boolean")
  | BulkString b =>
      if bytes_eqb b (bs "1") then Ok true
      else if bytes_eqb b (bs "0") then Ok false
      else Err (parsing_error "Response type not bool compatible.")
  | Boolean b => Ok b
  | Okay => Ok true
  | _ => Err (parsing_error "Response type not bool compatible.")
  end.

Definition frv_bool : FromRedisValue bool := frv_default bool_of_value bool_of_value.

Definition frv_value : FromRedisValue Value := frv_default Ok Ok.

Definition unit_of_value (v : Value) : result ParsingError unit :=
  match v with
  | ServerErr err => Err (parsing_error "server error")
  | _ => Ok tt
  end.
Definition frv_unit : FromRedisValue unit := frv_default unit_of_value unit_of_value.

(** [f64::to_string]. *)
Class F64Display := f64_to_string : f64 -> bytes.

Definition string_of_value_ref `{F64Display} (v : Value) : result ParsingError bytes :=
  match get_inner_value v with
  | BulkString b => map_err parsing_error_of_utf8 (from_utf8 b)
  | Okay => Ok (bs "OK")
  | SimpleString val => Ok val
  | VerbatimString _ text => Ok text
  | Double val => Ok (f64_to_string val)
  | Int val => Ok (itoa val)
  | _ => Err (parsing_error "Response type not string compatible.")
  end.
Definition string_of_value `{F64Display} (v : Value) : result ParsingError bytes :=
  match get_owned_inner_value v with
  | BulkString b => map_err parsing_error_of_from_utf8 (from_utf8 b)
  | Okay => Ok (bs "OK")
  | SimpleString val => Ok val
  | VerbatimString _ text => Ok text
  | Double val => Ok (f64_to_string val)
  | Int val => Ok (itoa val)
  | _ => Err (parsing_error "Response type not string compatible.")
  end.
Definition frv_string `{F64Display} : FromRedisValue bytes :=
  frv_default string_of_value_ref string_of_value.

(** ** Generic implementations *)

Section generic.
Context {T : Type} (F : FromRedisValue T).

(** [Vec<T>] ([from_vec_from_redis_value!]). *)
Definition vec_of_value_ref (v : Value) : result ParsingError (list T) :=
  match v with
  | BulkString b => ok_or (from_byte_slice F b) (parsing_error "Conversion failed.")
  | Array items => from_redis_value_refs F items
  | Set_ items => from_redis_value_refs F items
  | Map items => try_map (fun item => from_redis_value_ref F (Map [item])) items
  | Nil => Ok []
  | _ => Err (parsing_error "Response type not vector compatible.")
  end.
Definition vec_of_value (v : Value) : result ParsingError (list T) :=
  match v with
  | BulkString b => from_byte_vec F b
  | Array items => from_redis_values F items
  | Set_ items => from_redis_values F items
  | Map items => try_map (fun item => from_redis_value F (Map [item])) items
  | Nil => Ok []
  | _ => Err (parsing_error "Response type not vector compatible.")
  end.
Definition frv_vec : FromRedisValue (list T) := frv_default vec_of_value_ref vec_of_value.

Definition is_nil (v : Value) : bool := match v with Nil => true | _ => false end.

Definition option_of_value_ref (v : Value) : result ParsingError (option T) :=
  let v := get_inner_value v in
  if is_nil v then Ok None else Some <$> from_redis_value_ref F v.
Definition option_of_value (v : Value) : result ParsingError (option T) :=
  let v := get_owned_inner_value v in
  if is_nil v then Ok None else Some <$> from_redis_value F v.
Definition frv_option : FromRedisValue (option T) :=
  frv_default option_of_value_ref option_of_value.

(** [[T; N]]. *)
Definition vec_to_array (n : nat) (items : list T) : result ParsingError (list T) :=
  if Nat.eqb (length items) n then Ok items
  else Err (parsing_error "Response has wrong dimension").
Definition array_of_value (n : nat) (v : Value) : result ParsingError (list T) :=
  match v with
  | BulkString b =>
      match from_byte_slice F b with
      | Some items => vec_to_array n items
      | None => Err (parsing_error "Conversion to Array failed")
      end
  | Array items => items ← from_redis_value_refs F items; vec_to_array n items
  | Nil => vec_to_array n []
  | _ => Err (parsing_error "Response type not array compatible")
  end.
Definition frv_array (n : nat) : FromRedisValue (list T) :=
  frv_default (array_of_value n) (array_of_value n).
End generic.

Section maps.
Context `{Countable K} {V : Type} (FK : FromRedisValue K) (FV : FromRedisValue V).

(** Collecting pairs into a map: a later pair replaces an earlier one. *)
Definition collect_map (l : list (K * V)) : gmap K V :=
  foldl (fun m kv => <[kv.1 := kv.2]> m) ∅ l.

Definition map_of_value_ref (v : Value) : result ParsingError (gmap K V) :=
  let v := get_inner_value v in
  match v with
  | Nil => Ok ∅
  | _ =>
      it ← ok_or (as_map_iter v) (parsing_error "Response type not map compatible");
      collect_map <$> try_map (fun '(k, w) =>
        k ← from_redis_value_ref FK k; w ← from_redis_value_ref FV w; Ok (k, w))
        (MapIter_collect it)
  end.
Definition map_of_value (v : Value) : result ParsingError (gmap K V) :=
  let v := get_owned_inner_value v in
  match v with
  | Nil => Ok ∅
  | _ =>
      it ← map_err (fun _ => parsing_error "Response type not map compatible") (into_map_iter v);
      collect_map <$> try_map (fun '(k, w) =>
        k ← from_redis_value FK k; w ← from_redis_value FV w; Ok (k, w))
        (MapIter_collect it)
  end.
Definition frv_map : FromRedisValue (gmap K V) := frv_default map_of_value_ref map_of_value.

Definition set_of_value_ref (v : Value) : result ParsingError (gset K) :=
  let v := get_inner_value v in
  items ← ok_or (as_sequence v) (parsing_error "Response type not map compatible");
  list_to_set <$> try_map (from_redis_value_ref FK) items.
Definition set_of_value (v : Value) : result ParsingError (gset K) :=
  let v := get_owned_inner_value v in
  items ← map_err (fun _ => parsing_error "Response type not map compatible") (into_sequence v);
  list_to_set <$> try_map (from_redis_value FK) items.
Definition frv_set : FromRedisValue (gset K) := frv_default set_of_value_ref set_of_value.
End maps.

(** ** Tuples

    [from_redis_value_for_tuple!] for a tuple of [n] components: [conv_ref] and
    [conv] convert exactly [n] values, left to right. *)
Section tuple.
Context {T : Type} (n : nat) (conv_ref conv : list Value -> result ParsingError T).

Definition flatten_items (items : list (Value * Value)) : list Value :=
  concat (map (fun '(a, b) => [a; b]) items).

Definition tuple_of_value_with (conv : list Value -> result ParsingError T) (v : Value)
    : result ParsingError T :=
  match v with
  | Array items =>
      if negb (Nat.eqb (length items) n)
      then Err (parsing_error "Array response of wrong dimension") else conv items
  | Set_ items =>
      if negb (Nat.eqb (length items) n)
      then Err (parsing_error "Set response of wrong dimension") else conv items
  | Map items =>
      if negb (Nat.eqb n (length items * 2))
      then Err (parsing_error "Map response of wrong dimension") else conv (flatten_items items)
  | _ => Err (parsing_error "Not a Array response")
  end.
Definition tuple_of_value_ref (v : Value) := tuple_of_value_with conv_ref (get_inner_value v).
Definition tuple_of_value (v : Value) := tuple_of_value_with conv (get_owned_inner_value v).

Definition wrong_arity : ParsingError := parsing_error "Vector doesn't have arity".

Definition convert_chunk (conv : list Value -> result ParsingError T) (chunk : list Value)
    : result ParsingError T :=
  if Nat.eqb (length chunk) n then conv chunk else Err wrong_arity.

Definition tuples_of_value_refs (items : list Value) : result ParsingError (list T) :=
  if Nat.eqb (length items) 0 then Ok []
  else if forallb (fun item => is_collection_of_len item n) items
  then try_map tuple_of_value_ref items
  else if Nat.eqb (length items) n then rv ← conv_ref items; Ok [rv]
  else try_map (convert_chunk conv_ref) (chunks n items).

Definition tuples_of_values (items : list Value) : result ParsingError (list T) :=
  if Nat.eqb (length items) 0 then Ok []
  else if forallb (fun item => is_collection_of_len item n) items
  then try_map tuple_of_value items
  else try_map (convert_chunk conv) (chunks n items).

Definition each_tuple (items : list Value) : list (result ParsingError T) :=
  if Nat.eqb (length items) 0 then []
  else if forallb (fun item => is_collection_of_len item n) items
  then map tuple_of_value items
  else if forallb (fun chunk => Nat.eqb (length chunk) n) (chunks n items)
  then map conv (chunks n items)
  else [Err wrong_arity].

Definition frv_tuple : FromRedisValue T := {|
  from_redis_value_ref := tuple_of_value_ref;
  from_redis_value := tuple_of_value;
  from_redis_value_refs := tuples_of_value_refs;
  from_redis_values := tuples_of_values;
  from_each_redis_values := each_tuple;
  from_byte_slice b := to_option (singleton_of (tuple_of_value (BulkString b)));
  from_byte_vec b := singleton_of (tuple_of_value (BulkString b))
|}.
End tuple.

Definition conv1 {A} (f : Value -> result ParsingError A) (l : list Value) : result ParsingError A :=
  match l with
  | [a] => f a
  | _ => Err wrong_arity
  end.
Definition conv2 {A B} (f : Value -> result ParsingError A) (g : Value -> result ParsingError B)
    (l : list Value) : result ParsingError (A * B) :=
  match l with
  | [a; b] => x ← f a; y ← g b; Ok (x, y)
  | _ => Err wrong_arity
  end.
Definition conv3 {A B C} (f : Value -> result ParsingError A) (g : Value -> result ParsingError B)
    (h : Value -> result ParsingError C) (l : list Value) : result ParsingError (A * B * C) :=
  match l with
  | [a; b; c] => x ← f a; y ← g b; z ← h c; Ok (x, y, z)
  | _ => Err wrong_arity
  end.

Definition frv_tuple1 {A} (F : FromRedisValue A) : FromRedisValue A :=
  frv_tuple 1 (conv1 (from_redis_value_ref F)) (conv1 (from_redis_value F)).
Definition frv_tuple2 {A B} (F : FromRedisValue A) (G : FromRedisValue B) : FromRedisValue (A * B) :=
  frv_tuple 2 (conv2 (from_redis_value_ref F) (from_redis_value_ref G))
    (conv2 (from_redis_value F) (from_redis_value G)).
Definition frv_tuple3 {A B C} (F : FromRedisValue A) (G : FromRedisValue B) (I : FromRedisValue C)
    : FromRedisValue (A * B * C) :=
  frv_tuple 3 (conv3 (from_redis_value_ref F) (from_redis_value_ref G) (from_redis_value_ref I))
    (conv3 (from_redis_value F) (from_redis_value G) (from_redis_value I)).

(** ** Other reply types *)

(** [RedisResult<T>]. *)
Section result_conv.
Context {T : Type} (F : FromRedisValue T).
Definition result_of_value_ref (v : Value) : result ParsingError (result RedisError T) :=
  match v with
  | ServerErr err => Ok (Err (redis_error_of_server err))
  | _ => Ok <$> from_redis_value_ref F v
  end.
Definition result_of_value (v : Value) : result ParsingError (result RedisError T) :=
  match v with
  | ServerErr err => Ok (Err (redis_error_of_server err))
  | _ => Ok <$> from_redis_value F v
  end.
Definition frv_result : FromRedisValue (result RedisError T) :=
  frv_default result_of_value_ref result_of_value.

(** [InfoDict::get]. *)
Definition InfoDict_get (d : gmap bytes Value) (key : bytes) : option T :=
  match InfoDict_find d key with
  | Some x => to_option (from_redis_value_ref F x)
  | None => None
  end.
End result_conv.

Definition info_of_value_ref `{F64Display} (v : Value) : result ParsingError (gmap bytes Value) :=
  let v := get_inner_value v in
  s ← from_redis_value_ref frv_string v; Ok (InfoDict_new s).
Definition info_of_value `{F64Display} (v : Value) : result ParsingError (gmap bytes Value) :=
  let v := get_owned_inner_value v in
  s ← from_redis_value frv_string v; Ok (InfoDict_new s).
Definition frv_info `{F64Display} : FromRedisValue (gmap bytes Value) :=
  frv_default info_of_value_ref info_of_value.

Record ReplicaInfo := { replica_ip : bytes; replica_port : Z; replica_offset : Z }.

Definition replica_info_of_value `{F64Display} (v : Value) : result ParsingError ReplicaInfo :=
  v ← map_err (fun _ => parsing_error "Replica response should be an array")
        (into_sequence (get_owned_inner_value v));
  match v with
  | a :: b :: c :: _ =>
      ip ← from_redis_value frv_string a;
      port ← from_redis_value (frv_int u16_ty) b;
      offset ← from_redis_value (frv_int i64_ty) c;
      Ok {| replica_ip := ip; replica_port := port; replica_offset := offset |}
  | _ => Err (parsing_error "Replica array is too short, expected 3 elements")
  end.
Definition frv_replica_info `{F64Display} : FromRedisValue ReplicaInfo :=
  frv_default replica_info_of_value replica_info_of_value.

Inductive Role :=
| Role_Primary (replication_offset : Z) (replicas : list ReplicaInfo)
| Role_Replica (primary_ip : bytes) (primary_port : Z) (replication_state : bytes) (data_received : Z)
| Role_Sentinel (primary_names : list bytes).

Definition new_primary `{F64Display} (values : list Value) : result ParsingError Role :=
  match values with
  | _ :: a :: b :: _ =>
      replication_offset ← from_redis_value (frv_int u64_ty) a;
      replicas ← from_redis_value (frv_vec frv_replica_info) b;
      Ok (Role_Primary replication_offset replicas)
  | _ => Err (parsing_error "Role primary response too short, expected 3 elements")
  end.
Definition new_replica `{F64Display} (values : list Value) : result ParsingError Role :=
  match values with
  | _ :: a :: b :: c :: d :: _ =>
      primary_ip ← from_redis_value frv_string a;
      primary_port ← from_redis_value (frv_int u16_ty) b;
      replication_state ← from_redis_value frv_string c;
      data_received ← from_redis_value (frv_int u64_ty) d;
      Ok (Role_Replica primary_ip primary_port replication_state data_received)
  | _ => Err (parsing_error "Role replica response too short, expected 5 elements")
  end.
Definition new_sentinel `{F64Display} (values : list Value) : result ParsingError Role :=
  match values with
  | _ :: second_val :: _ =>
      primary_names ← from_redis_value (frv_vec frv_string) second_val;
      Ok (Role_Sentinel primary_names)
  | _ => Err (parsing_error "Role sentinel response too short, expected at least 2 elements")
  end.
Definition role_of_value `{F64Display} (v : Value) : result ParsingError Role :=
  v ← map_err (fun _ => parsing_error "Role response should be an array")
        (into_sequence (get_owned_inner_value v));
  match v with
  | first :: _ :: _ =>
      match first with
      | BulkString role =>
          if bytes_eqb role (bs "master") then new_primary v
          else if bytes_eqb role (bs "slave") then new_replica v
          else if bytes_eqb role (bs "sentinel") then new_sentinel v
          else Err (parsing_error "Role type is not master, slave or sentinel")
      | _ => Err (parsing_error "Role type is not a bulk string")
      end
  | _ => Err (parsing_error "Role array is too short, expected at least 2 elements")
  end.

Inductive ValueType :=
| VT_None | VT_String | VT_List | VT_Set | VT_ZSet | VT_Hash | VT_Stream | VT_VectorSet | VT_JSON
| VT_BloomFilterRedis | VT_CuckooFilter | VT_CountMin | VT_TDigest | VT_TopK | VT_TimeSeries
| VT_Trie | VT_BloomFilterValKey | VT_Unknown (s : bytes).

Definition ValueType_of_str (s : bytes) : ValueType :=
  if bytes_eqb s (bs "none") then VT_None
  else if bytes_eqb s (bs "string") then VT_String
  else if bytes_eqb s (bs "list") then VT_List
  else if bytes_eqb s (bs "set") then VT_Set
  else if bytes_eqb s (bs "zset") then VT_ZSet
  else if bytes_eqb s (bs "hash") then VT_Hash
  else if bytes_eqb s (bs "stream") then VT_Stream
  else if bytes_eqb s (bs "vectorset") then VT_VectorSet
  else if bytes_eqb s (bs "ReJSON-RL") then VT_JSON
  else if bytes_eqb s (bs "CMSk-TYPE") then VT_CountMin
  else if bytes_eqb s (bs "MBbloom--") then VT_BloomFilterRedis
  else if bytes_eqb s (bs "MBbloomCF") then VT_CuckooFilter
  else if bytes_eqb s (bs "TDIS-TYPE") then VT_TDigest
  else if bytes_eqb s (bs "TopK-TYPE") then VT_TopK
  else if bytes_eqb s (bs "trietype0") then VT_Trie
  else if bytes_eqb s (bs "TSDB-TYPE") then VT_TimeSeries
  else if bytes_eqb s (bs "bloomfltr") then VT_BloomFilterValKey
  else VT_Unknown s.

Definition ValueType_to_string (v : ValueType) : bytes :=
  match v with
  | VT_None => bs "none" | VT_String => bs "string" | VT_List => bs "list" | VT_Set => bs "set"
  | VT_ZSet => bs "zset" | VT_Hash => bs "hash" | VT_Stream => bs "stream"
  | VT_VectorSet => bs "vectorset" | VT_JSON => bs "ReJSON-RL"
  | VT_BloomFilterRedis => bs "MBbloom--" | VT_CuckooFilter => bs "MBbloomCF"
  | VT_TDigest => bs "TDIS-TYPE" | VT_TopK => bs "TopK-TYPE" | VT_CountMin => bs "CMSk-TYPE"
  | VT_Trie => bs "trietype0" | VT_TimeSeries => bs "TSDB-TYPE"
  | VT_BloomFilterValKey => bs "bloomfltr"
  | VT_Unknown s => s
  end.

Definition value_type_of_value (v : Value) : result ParsingError ValueType :=
  match v with
  | SimpleString s => Ok (ValueType_of_str s)
  | _ => Err (parsing_error "Value type should be a simple string")
  end.

Inductive IntegerReplyOrNoOp :=
| IntegerReply (n : Z)
| NotExists
| ExistsButNotRelevant.

Definition IntegerReplyOrNoOp_raw (r : IntegerReplyOrNoOp) : Z :=
  match r with
  | IntegerReply s => as_i64 s
  | NotExists => -2
  | ExistsButNotRelevant => -1
  end.

Definition integer_reply_of_value (v : Value) : result ParsingError IntegerReplyOrNoOp :=
  match v with
  | Int s => if s =? -2 then Ok NotExists
             else if s =? -1 then Ok ExistsButNotRelevant
             else Ok (IntegerReply (as_usize s))
  | _ => Err (parsing_error "Value should be an integer")
  end.

Record IncrexResult := { increx_value : Value; actual_increment : Value }.

Definition increx_of_value (v : Value) : result ParsingError IncrexResult :=
  l ← from_redis_value (frv_array frv_value 2) v;
  match l with
  | [value; actual] => Ok {| increx_value := value; actual_increment := actual |}
  | _ => Err (parsing_error "Response has wrong dimension")
  end.

Definition is_ascii_hexdigit (b : byte) : bool :=
  between 48 57 b || between 65 70 b || between 97 102 b.
Definition is_valid_16_bytes_hex_digest (s : bytes) : bool :=
  Nat.eqb (length s) 16 && forallb is_ascii_hexdigit s.

(** ** ToRedisArgs

    An implementation writes whole arguments, so writing is the list of
    arguments in order; [None] is the [assert!] of a map entry that is not one
    argument. *)

Inductive NumericBehavior := NonNumeric | NumberIsInteger | NumberIsFloat.

Record ToRedisArgs (T : Type) := {
  write_redis_args : T -> option (list bytes);
  describe_numeric_behavior : T -> NumericBehavior;
  num_of_args : T -> nat;
  write_args_from_slice : list T -> option (list bytes);
  is_single_vec_arg : list T -> bool
}.
Arguments write_redis_args {T}.
Arguments describe_numeric_behavior {T}.
Arguments num_of_args {T}.
Arguments write_args_from_slice {T}.
Arguments is_single_vec_arg {T}.

(** [make_arg_iter_ref]. *)
Definition make_arg_iter_ref {T} (write : T -> option (list bytes)) (items : list T)
    : option (list bytes) :=
  (@concat bytes) <$> mapM write items.

Definition tra_default {T} (write : T -> option (list bytes)) (numeric : T -> NumericBehavior)
    (num : T -> nat) : ToRedisArgs T := {|
  write_redis_args := write;
  describe_numeric_behavior := numeric;
  num_of_args := num;
  write_args_from_slice items := make_arg_iter_ref write items;
  is_single_vec_arg items :=
    match items with [item] => (num item <=? 1)%nat | _ => false end
|}.

(** A value written as a single argument. *)
Definition tra_single {T} (bytes_of : T -> bytes) (numeric : NumericBehavior) : ToRedisArgs T :=
  tra_default (fun x => Some [bytes_of x]) (fun _ => numeric) (fun _ => 1%nat).

(** Integers ([itoa_based_to_redis_impl!]), [bool], [String]/[&str]. *)
Definition tra_int : ToRedisArgs Z := tra_single itoa NumberIsInteger.
Definition tra_bool : ToRedisArgs bool :=
  tra_single (fun b : bool => if b then bs "1" else bs "0") NonNumeric.
Definition tra_string : ToRedisArgs bytes := tra_single (fun s => s) NonNumeric.

(** [u8]: a slice is one argument. *)
Definition tra_u8 : ToRedisArgs byte := {|
  write_redis_args b := Some [itoa (byte_Z b)];
  describe_numeric_behavior _ := NonNumeric;
  num_of_args _ := 1%nat;
  write_args_from_slice items := Some [items];
  is_single_vec_arg _ := true
|}.

Section generic_args.
Context {T : Type} (A : ToRedisArgs T).

Definition tra_option : ToRedisArgs (option T) :=
  tra_default (fun o => match o with Some x => write_redis_args A x | None => Some [] end)
    (fun o => match o with Some x => describe_numeric_behavior A x | None => NonNumeric end)
    (fun o => match o with Some x => num_of_args A x | None => 0%nat end).

(** Slices and vectors ([impl_write_redis_args_for_collection!]). *)
Definition tra_vec : ToRedisArgs (list T) :=
  tra_default (write_args_from_slice A) (fun _ => NonNumeric)
    (fun l => if is_single_vec_arg A l then 1%nat
              else match l with [x] => num_of_args A x | _ => length l end).

(** Sets, iterated in hash order. *)
Definition tra_set `{HashOrder} : ToRedisArgs (list T) :=
  tra_default (fun l => make_arg_iter_ref (write_redis_args A) (hash_order l))
    (fun _ => NonNumeric) length.
End generic_args.

(** Maps as their entries, iterated in hash order. *)
Definition tra_map `{HashOrder} {K V} (AK : ToRedisArgs K) (AV : ToRedisArgs V)
    : ToRedisArgs (list (K * V)) :=
  tra_default (fun l => make_arg_iter_ref (fun '(key, value) =>
      if (num_of_args AK key <=? 1)%nat && (num_of_args AV value <=? 1)%nat
      then k ← write_redis_args AK key; v ← write_redis_args AV value; Some (k ++ v)
      else None) (hash_order l))
    (fun _ => NonNumeric) length.

Definition tra_tuple2 {A B} (TA : ToRedisArgs A) (TB : ToRedisArgs B) : ToRedisArgs (A * B) :=
  tra_default (fun '(a, b) =>
      x ← write_redis_args TA a; y ← write_redis_args TB b; Some (x ++ y))
    (fun _ => NonNumeric) (fun _ => 2%nat).

(** Option enums of [types.rs]. *)
Inductive SetExpiry :=
| SetExpiry_EX (secs : Z) | SetExpiry_PX (millis : Z) | SetExpiry_EXAT (unix_time : Z)
| SetExpiry_PXAT (unix_time : Z) | SetExpiry_KEEPTTL.
Definition SetExpiry_args (e : SetExpiry) : list bytes :=
  match e with
  | SetExpiry_EX secs => [bs "EX"; itoa secs]
  | SetExpiry_PX millis => [bs "PX"; itoa millis]
  | SetExpiry_EXAT unix_time => [bs "EXAT"; itoa unix_time]
  | SetExpiry_PXAT unix_time => [bs "PXAT"; itoa unix_time]
  | SetExpiry_KEEPTTL => [bs "KEEPTTL"]
  end.

Inductive ExistenceCheck := ExistenceCheck_NX | ExistenceCheck_XX.
Definition ExistenceCheck_args (e : ExistenceCheck) : list bytes :=
  match e with ExistenceCheck_NX => [bs "NX"] | ExistenceCheck_XX => [bs "XX"] end.

Inductive FieldExistenceCheck := FNX | FXX.
Definition FieldExistenceCheck_args (e : FieldExistenceCheck) : list bytes :=
  match e with FNX => [bs "FNX"] | FXX => [bs "FXX"] end.

Inductive ExpireOption := ExpireOption_NONE | ExpireOption_NX | ExpireOption_XX | ExpireOption_GT
| ExpireOption_LT.
Definition ExpireOption_args (e : ExpireOption) : list bytes :=
  match e with
  | ExpireOption_NX => [bs "NX"] | ExpireOption_XX => [bs "XX"] | ExpireOption_GT => [bs "GT"]
  | ExpireOption_LT => [bs "LT"] | ExpireOption_NONE => []
  end.

Inductive ValueComparison :=
| IFEQ (value : bytes) | IFNE (value : bytes) | IFDEQ (digest : bytes) | IFDNE (digest : bytes).
Definition ValueComparison_args (c : ValueComparison) : list bytes :=
  match c with
  | IFEQ value => [bs "IFEQ"; value]
  | IFNE value => [bs "IFNE"; value]
  | IFDEQ digest => [bs "IFDEQ"; digest]
  | IFDNE digest => [bs "IFDNE"; digest]
  end.

(** ** The borrowing and the consuming conversions agree *)

(** All results, if none is an error. *)
Definition all_ok {E A} (l : list (result E A)) : option (list A) := mapM to_option l.

Class FromRedisValueLaws {T} (F : FromRedisValue T) := {
  agree_value v : to_option (from_redis_value_ref F v) = to_option (from_redis_value F v);
  agree_values l : to_option (from_redis_value_refs F l) = to_option (from_redis_values F l);
  agree_each l : all_ok (from_each_redis_values F l) = to_option (from_redis_values F l);
  agree_bytes b : from_byte_slice F b = to_option (from_byte_vec F b)
}.

Lemma to_option_try_map {E A B} (f : A -> result E B) l :
  to_option (try_map f l) = all_ok (map f l).
Proof.
  induction l as [|a l IH]; simpl; [done|]. unfold all_ok in *. simpl. rewrite <- IH.
  destruct (f a); simpl; [|done]. by destruct (try_map f l).
Qed.

Lemma try_map_agree {E F A B} (f : A -> result E B) (g : A -> result F B) l :
  Forall (fun a => to_option (f a) = to_option (g a)) l ->
  to_option (try_map f l) = to_option (try_map g l).
Proof.
  intros H. rewrite !to_option_try_map. unfold all_ok.
  induction H as [|a l Ha _ IH]; simpl; [done|]. by rewrite Ha, IH.
Qed.

Lemma to_option_bind {E A B} (r : result E A) (f : A -> result E B) :
  to_option (r ≫= f) = to_option r ≫= (fun a => to_option (f a)).
Proof. by destruct r. Qed.
Lemma to_option_fmap {E A B} (r : result E A) (f : A -> B) : to_option (f <$> r) = f <$> to_option r.
Proof. by destruct r. Qed.
Lemma to_option_ok_or {E A} (o : option A) (e : E) : to_option (ok_or o e) = o.
Proof. by destruct o. Qed.
Lemma to_option_map_err {E F A} (f : E -> F) (r : result E A) : to_option (map_err f r) = to_option r.
Proof. by destruct r. Qed.

#[export] Hint Rewrite @to_option_bind @to_option_fmap @to_option_ok_or @to_option_map_err : redis.

(** An implementation that keeps the default methods. *)
Lemma frv_default_laws {T} (by_ref owned : Value -> result ParsingError T) :
  (forall v, to_option (by_ref v) = to_option (owned v)) ->
  FromRedisValueLaws (frv_default by_ref owned).
Proof.
  intros H. split; simpl; [done| | |done].
  - intros l. apply try_map_agree. by apply Forall_true.
  - intros l. by rewrite to_option_try_map.
Qed.

#[export] Instance frv_int_laws t : FromRedisValueLaws (frv_int t).
Proof. by apply frv_default_laws. Qed.
#[export] Instance frv_bool_laws : FromRedisValueLaws frv_bool.
Proof. by apply frv_default_laws. Qed.
#[export] Instance frv_value_laws : FromRedisValueLaws frv_value.
Proof. by apply frv_default_laws. Qed.
#[export] Instance frv_unit_laws : FromRedisValueLaws frv_unit.
Proof. by apply frv_default_laws. Qed.

#[export] Instance frv_u8_laws : FromRedisValueLaws frv_u8.
Proof. split; simpl; [done..| |done]. intros l. by rewrite to_option_try_map. Qed.

#[export] Instance frv_string_laws `{F64Display} : FromRedisValueLaws frv_string.
Proof.
  apply frv_default_laws. intros v. unfold string_of_value_ref, string_of_value.
  unfold get_inner_value, get_owned_inner_value.
  by repeat case_match; rewrite ?to_option_map_err.
Qed.

Section laws.
Context {T} (F : FromRedisValue T) `{L : !FromRedisValueLaws F}.

#[export] Instance frv_vec_laws : FromRedisValueLaws (frv_vec F).
Proof using L.
  apply frv_default_laws. intros v. destruct v; simpl; try done; try apply agree_values.
  - by rewrite to_option_ok_or, agree_bytes.
  - apply try_map_agree. apply Forall_true. intros a. apply agree_value.
Qed.

#[export] Instance frv_option_laws : FromRedisValueLaws (frv_option F).
Proof using L.
  apply frv_default_laws. intros v. unfold option_of_value_ref, option_of_value.
  change (get_owned_inner_value v) with (get_inner_value v).
  case_match; [done|]. by rewrite !to_option_fmap, agree_value.
Qed.

#[export] Instance frv_array_laws n : FromRedisValueLaws (frv_array F n).
Proof. by apply frv_default_laws. Qed.
End laws.

Lemma as_into_map_iter v : as_map_iter v = to_option (into_map_iter v).
Proof. unfold as_map_iter, into_map_iter. by repeat case_match. Qed.
Lemma as_into_sequence v : as_sequence v = to_option (into_sequence v).
Proof. by destruct v. Qed.

#[export] Instance frv_map_laws `{Countable K} {V} (FK : FromRedisValue K) (FV : FromRedisValue V)
  `{!FromRedisValueLaws FK, !FromRedisValueLaws FV} : FromRedisValueLaws (frv_map FK FV).
Proof.
  apply frv_default_laws. intros v. unfold map_of_value_ref, map_of_value.
  change (get_owned_inner_value v) with (get_inner_value v).
  set (w := get_inner_value v). destruct w eqn:E; try done;
    rewrite !to_option_bind, to_option_ok_or, to_option_map_err, as_into_map_iter;
    (match goal with |- ?o ≫= _ = _ => destruct o as [it|]; simpl; [|done] end);
    rewrite !to_option_fmap; f_equal; apply try_map_agree, Forall_true; intros [k u];
    rewrite !to_option_bind, agree_value; (destruct (to_option _); simpl; [|done]);
    by rewrite !to_option_bind, agree_value.
Qed.

#[export] Instance frv_set_laws `{Countable K} (FK : FromRedisValue K) `{!FromRedisValueLaws FK} :
  FromRedisValueLaws (frv_set FK).
Proof.
  apply frv_default_laws. intros v. unfold set_of_value_ref, set_of_value.
  change (get_owned_inner_value v) with (get_inner_value v).
  rewrite !to_option_bind, to_option_ok_or, to_option_map_err, as_into_sequence.
  destruct (to_option (into_sequence _)) as [l|]; simpl; [|done].
  rewrite !to_option_fmap. f_equal. apply try_map_agree, Forall_true. intros a. apply agree_value.
Qed.

(** Chunks are never empty, full but for the last, and make up the list. *)
Lemma chunks_go_concat {A} fuel n (l : list A) : (0 < n)%nat -> (length l <= fuel)%nat ->
  concat (chunks_go fuel n l) = l.
Proof.
  intros Hn. revert l. induction fuel as [|fuel IH]; intros l Hl; destruct l as [|a l]; try done.
  - simpl in Hl. lia.
  - cbn [chunks_go concat]. rewrite IH, take_drop; [done|]. rewrite length_drop. simpl in *. lia.
Qed.

Lemma chunks_concat {A} n (l : list A) : (0 < n)%nat -> concat (chunks n l) = l.
Proof. intros. by apply chunks_go_concat. Qed.

Lemma chunks_full {A} n (l : list A) : (0 < n)%nat -> length l = n -> chunks n l = [l].
Proof.
  intros Hn Hl. unfold chunks. destruct l as [|a l]; [simpl in Hl; lia|].
  rewrite Hl at 1. destruct n as [|n]; [lia|]. cbn [chunks_go].
  rewrite take_ge, drop_ge by lia. by destruct n.
Qed.

Section tuple_laws.
Context {T} (n : nat) (conv_ref conv : list Value -> result ParsingError T).
Hypothesis Hn : (0 < n)%nat.
Hypothesis Hconv : forall l, to_option (conv_ref l) = to_option (conv l).

Lemma tuple_of_value_agree v :
  to_option (tuple_of_value_ref n conv_ref v) = to_option (tuple_of_value n conv v).
Proof using Hconv.
  unfold tuple_of_value_ref, tuple_of_value.
  change (get_owned_inner_value v) with (get_inner_value v).
  destruct (get_inner_value v); simpl; try done; by case_match.
Qed.

Lemma each_chunk l :
  all_ok (if forallb (fun chunk => Nat.eqb (length chunk) n) l then map conv l else [Err wrong_arity])
  = all_ok (map (convert_chunk n conv) l).
Proof.
  unfold all_ok. destruct (forallb _ l) eqn:E.
  - f_equal. apply map_ext_Forall. apply Forall_forall. intros c Hc%list_elem_of_In.
    rewrite forallb_forall in E. unfold convert_chunk. by rewrite E.
  - symmetry. induction l as [|c l IH]; simpl in *; [done|].
    assert (convert_chunk n conv c = if Nat.eqb (length c) n then conv c else Err wrong_arity)
      as -> by done.
    destruct (Nat.eqb (length c) n); simpl in *; [|done].
    rewrite IH by done. by destruct (to_option (conv c)).
Qed.

Lemma frv_tuple_laws : FromRedisValueLaws (frv_tuple n conv_ref conv).
Proof using Hn Hconv.
  split; simpl; [apply tuple_of_value_agree|..|done].
  - intros l. unfold tuples_of_value_refs, tuples_of_values. case_match; [done|].
    case_match; [apply try_map_agree, Forall_true, tuple_of_value_agree|].
    destruct (Nat.eqb (length l) n) eqn:El.
    + apply Nat.eqb_eq in El. rewrite chunks_full by done. simpl. unfold convert_chunk.
      rewrite El, Nat.eqb_refl, to_option_bind, Hconv. by destruct (conv l).
    + apply try_map_agree, Forall_true. intros c. unfold convert_chunk. by case_match.
  - intros l. unfold each_tuple, tuples_of_values. case_match; [done|].
    case_match; [by rewrite to_option_try_map|]. by rewrite each_chunk, to_option_try_map.
Qed.
End tuple_laws.

#[export] Instance frv_tuple2_laws {A B} (F : FromRedisValue A) (G : FromRedisValue B)
  `{!FromRedisValueLaws F, !FromRedisValueLaws G} : FromRedisValueLaws (frv_tuple2 F G).
Proof.
  apply frv_tuple_laws; [lia|]. intros l. unfold conv2. repeat case_match; try done.
  rewrite !to_option_bind, agree_value. destruct (to_option _); simpl; [|done].
  by rewrite !to_option_bind, agree_value.
Qed.

#[export] Instance frv_tuple1_laws {A} (F : FromRedisValue A) `{!FromRedisValueLaws F} :
  FromRedisValueLaws (frv_tuple1 F).
Proof. apply frv_tuple_laws; [lia|]. intros l. unfold conv1. repeat case_match; try done. apply agree_value. Qed.

#[export] Instance frv_result_laws {T} (F : FromRedisValue T) `{!FromRedisValueLaws F} :
  FromRedisValueLaws (frv_result F).
Proof.
  apply frv_default_laws. intros v. unfold result_of_value_ref, result_of_value.
  destruct v; try done; by rewrite !to_option_fmap, agree_value.
Qed.

#[export] Instance frv_info_laws `{F64Display} : FromRedisValueLaws frv_info.
Proof.
  apply frv_default_laws. intros v. unfold info_of_value_ref, info_of_value.
  change (get_owned_inner_value v) with (get_inner_value v).
  by rewrite !to_option_bind, agree_value.
Qed.

#[export] Instance frv_replica_info_laws `{F64Display} : FromRedisValueLaws frv_replica_info.
Proof. by apply frv_default_laws. Qed.

(** ** Properties *)

Lemma as_ty_small t n : in_ty t n -> as_ty t n = n.
Proof.
  unfold in_ty, as_ty. intros Hn.
  rewrite Z.mod_small by lia. lia.
Qed.

(** The reply types that can be built from the implementations above. *)
Inductive shape :=
| SInt (t : int_ty) | SU8 | SBool | SString | SValue | SUnit | SInfo | SReplicaInfo
| SVec (s : shape) | SOption (s : shape) | SArray (n : nat) (s : shape)
| STuple1 (s : shape) | STuple2 (s1 s2 : shape)
| SMap (s : shape) | SSet | SResult (s : shape).

(** Map and set keys are strings. *)
Fixpoint denote (s : shape) : Type :=
  match s with
  | SInt _ | SU8 => Z
  | SBool => bool
  | SString => bytes
  | SValue => Value
  | SUnit => unit
  | SInfo => gmap bytes Value
  | SReplicaInfo => ReplicaInfo
  | SVec s | SArray _ s => list (denote s)
  | SOption s => option (denote s)
  | STuple1 s => denote s
  | STuple2 s1 s2 => denote s1 * denote s2
  | SMap s => gmap bytes (denote s)
  | SSet => gset bytes
  | SResult s => result RedisError (denote s)
  end.

Fixpoint frv_of `{F64Display} (s : shape) : FromRedisValue (denote s) :=
  match s with
  | SInt t => frv_int t
  | SU8 => frv_u8
  | SBool => frv_bool
  | SString => frv_string
  | SValue => frv_value
  | SUnit => frv_unit
  | SInfo => frv_info
  | SReplicaInfo => frv_replica_info
  | SVec s => frv_vec (frv_of s)
  | SOption s => frv_option (frv_of s)
  | SArray n s => frv_array (frv_of s) n
  | STuple1 s => frv_tuple1 (frv_of s)
  | STuple2 s1 s2 => frv_tuple2 (frv_of s1) (frv_of s2)
  | SMap s => frv_map frv_string (frv_of s)
  | SSet => frv_set frv_string
  | SResult s => frv_result (frv_of s)
  end.

Lemma frv_of_laws `{F64Display} s : FromRedisValueLaws (frv_of s).
Proof. induction s; simpl; apply _. Qed.

(** The borrowing and the consuming conversion of a type give the same value
    or both fail, for every type built from the crate's implementations, alone
    and for whole lists of values; converting the values one by one succeeds for
    all of them exactly when converting the list does. *)
Theorem conversions_agree `{F64Display} (s : shape) (v : Value) (l : list Value) :
  to_option (from_redis_value_ref (frv_of s) v) = to_option (from_redis_value (frv_of s) v) /\
  to_option (from_redis_value_refs (frv_of s) l) = to_option (from_redis_values (frv_of s) l) /\
  all_ok (from_each_redis_values (frv_of s) l) = to_option (from_redis_values (frv_of s) l).
Proof.
  pose proof (frv_of_laws s). split_and!; [apply agree_value|apply agree_values|apply agree_each].
Qed.

(** An integer written as an argument is read back as itself from a bulk
    string, a simple string or an integer reply of its own type; an [Int] reply
    that does not fit the requested type is wrapped around, not refused. *)
Theorem integer_conversion (t : int_ty) (n : Z) (Hmin : int_min t <= 0) (Hn : in_ty t n) :
  write_redis_args tra_int n = Some [itoa n] /\
  from_redis_value (frv_int t) (BulkString (itoa n)) = Ok n /\
  from_redis_value (frv_int t) (SimpleString (itoa n)) = Ok n /\
  from_redis_value (frv_int t) (Int n) = Ok n /\
  from_redis_value (frv_int t) (Int (n + (int_max t - int_min t + 1))) = Ok n.
Proof.
  split_and!; [done|..]; simpl; unfold num_of_value; rewrite ?from_utf8_itoa; simpl;
    rewrite ?parse_int_itoa by done; try done; f_equal; [by apply as_ty_small|].
  unfold as_ty. replace (n + (int_max t - int_min t + 1) - int_min t)
    with (n - int_min t + 1 * (int_max t - int_min t + 1)) by lia.
  unfold in_ty in Hn. rewrite Z.mod_add, Z.mod_small by lia. lia.
Qed.

(** A map written as arguments yields two arguments per entry, but
    [num_of_args], documented as the number of arguments the value will
    generate, counts entries. *)
Theorem map_num_of_args `{HashOrder} (m : list (bytes * bytes)) :
  num_of_args (tra_map tra_string tra_string) m = length m /\
  length <$> write_redis_args (tra_map tra_string tra_string) m = Some (2 * length m)%nat.
Proof.
  split; [done|]. simpl. unfold make_arg_iter_ref.
  assert (forall l : list (bytes * bytes), exists r,
    mapM (fun '(key, value) => Some [key; value]) l = Some r /\
    length (concat r) = (2 * length l)%nat) as Hl.
  { induction l as [|[k v] l (r & Hr & Hlen)]; [by exists []|].
    exists ([k; v] :: r). simpl. rewrite Hr. simpl. rewrite Hlen. split; [done|lia]. }
  destruct (Hl (hash_order m)) as (r & Hr & Hlen).
  assert (length (hash_order m) = length m) as Hp by apply Permutation_length, hash_order_perm.
  transitivity (length <$> (@concat bytes <$> mapM (fun '(key, value) => Some [key; value]) (hash_order m))).
  - done.
  - rewrite Hr. simpl. by rewrite Hlen, Hp.
Qed.

(** [ValueType] and [IntegerReplyOrNoOp] lose nothing: every type name comes
    back out of [ValueType] unchanged, and the raw value of a decoded integer
    reply is the integer the server sent, for every [i64]. *)
Theorem reply_types_lossless (s : bytes) (n : Z) (Hn : in_i64 n) :
  ValueType_to_string (ValueType_of_str s) = s /\
  IntegerReplyOrNoOp_raw <$> integer_reply_of_value (Int n) = Ok n.
Proof.
  split.
  - unfold ValueType_of_str. by repeat (case_match; [bool_to_prop; by subst|]).
  - simpl. repeat case_match; bool_to_prop; simpl; [by subst..|]. f_equal.
    unfold as_usize, as_u64, as_i64, in_i64, i64_min, i64_max in *.
    destruct (Z.lt_ge_cases n 0).
    + replace (n mod 18446744073709551616) with (n + 18446744073709551616).
      2: { symmetry. rewrite <- (Z.mod_add n 1) by lia. apply Z.mod_small. lia. }
      replace (n + 18446744073709551616 + 9223372036854775808)
        with (n + 9223372036854775808 + 1 * 18446744073709551616) by lia.
      rewrite Z.mod_add, Z.mod_small by lia. lia.
    + rewrite (Z.mod_small n), Z.mod_small by lia. lia.
Qed.

Lemma integer_conversion_witness :
  from_redis_value (frv_int u16_ty) (BulkString (itoa 6379)) = Ok 6379 /\
  from_redis_value (frv_int u16_ty) (Int (6379 + 65536)) = Ok 6379.
Proof.
  destruct (integer_conversion u16_ty 6379) as (_ & H1 & _ & _ & H2);
    [vm_compute; congruence|split; vm_compute; congruence|].
  split; [exact H1|exact H2].
Defined.

Lemma reply_types_lossless_witness :
  ValueType_to_string (ValueType_of_str (bs "zset")) = bs "zset" /\
  IntegerReplyOrNoOp_raw <$> integer_reply_of_value (Int (-3)) = Ok (-3).
Proof. apply (reply_types_lossless (bs "zset") (-3)). split; vm_compute; congruence. Defined.

Lemma map_num_of_args_witness :
  length <$> write_redis_args (tra_map (H:=reverse_order) tra_string tra_string)
    [(bs "a", bs "1"); (bs "b", bs "2")] = Some 4%nat.
Proof. apply (map_num_of_args (H:=reverse_order) [(bs "a", bs "1"); (bs "b", bs "2")]). Defined.
