(* ===== verification/Args.v ===== *)
(** * Arguments of commands and their options

    [ToRedisArgs] as a class, so that a command is written as the chain of
    [.arg(..)] calls of the source; the marker trait [ToSingleRedisArg] with the
    law its documentation gives; and the option types of [commands/mod.rs] with
    the arguments they write. *)

From S2P Require Import Prelude Text Float64 Types Cmd Convert.

(** ** The trait *)

Existing Class ToRedisArgs.

#[export] Existing Instance tra_int.
#[export] Existing Instance tra_bool.
#[export] Existing Instance tra_string | 0.
#[export] Existing Instance tra_vec | 5.
#[export] Existing Instance tra_option.
#[export] Existing Instance tra_tuple2.

(** A reference ([&T]): the methods for slices are the default ones again. *)
Definition tra_ref {T} (A : ToRedisArgs T) : ToRedisArgs T :=
  tra_default (write_redis_args A) (describe_numeric_behavior A) (num_of_args A).

(** [usize] read from a length. *)
#[export] Instance tra_len : ToRedisArgs nat := tra_single (fun n => itoa (Z.of_nat n)) NumberIsInteger.

(** [ryu::Buffer::format], of the ryu crate: any function. *)
Class Ryu := ryu_format : f64 -> bytes.

#[export] Instance tra_f64 `{Ryu} : ToRedisArgs f64 := tra_single ryu_format NumberIsFloat.

(** An option type: it writes the arguments listed, and the other methods are
    the default ones. *)
Definition tra_list {T} (write : T -> list bytes) : ToRedisArgs T :=
  tra_default (fun x => Some (write x)) (fun _ => NonNumeric) (fun _ => 1%nat).

(** ** Commands as chains of arguments *)

Declare Scope cmd_scope.
Delimit Scope cmd_scope with cmd.
Open Scope cmd_scope.

(** [Cmd::arg]; [None] when an argument panics while it is written. *)
Definition arg {T} `{A : ToRedisArgs T} (c : option Cmd) (x : T) : option Cmd :=
  c ← c; l ← write_redis_args A x; Some (foldl write_arg c l).

(** A literal argument. *)
Definition lit (s : string) : bytes := bs s.

Notation "'CMD' name" := (Some (cmd name)) (at level 10, name at level 9) : cmd_scope.
Notation "c ▷ x" := (arg c x) (at level 50, left associativity) : cmd_scope.
Notation "c ▷' s" := (arg c (lit s)) (at level 50, left associativity) : cmd_scope.

(** [Cmd::take], which ends a chain. *)
Definition taken (c : option Cmd) : option Cmd := fst ∘ Cmd_take <$> c.

(** ** Laws *)

(** The type never panics while it is written. *)
Class Writes (T : Type) (A : ToRedisArgs T) := writes : forall x, is_Some (write_redis_args A x).

(** [ToSingleRedisArg]: exactly one argument. *)
Class ToSingleRedisArg (T : Type) (A : ToRedisArgs T) := {
  single_arg : T -> bytes;
  single_write : forall x, write_redis_args A x = Some [single_arg x];
  single_num : forall x, num_of_args A x = 1%nat
}.

(** [num_of_args] is the number of arguments written. *)
Class Counted (T : Type) (A : ToRedisArgs T) := {
  counted_args : T -> list bytes;
  counted_write : forall x, write_redis_args A x = Some (counted_args x);
  counted_num : forall x, num_of_args A x = length (counted_args x)
}.
Arguments single_arg {T A _}.
Arguments counted_args {T A _}.

(** ** The option types of [commands/mod.rs] *)

(** [if let Some(x) = ..] and [if flag] around the writes of an option. *)
Definition if_some {T} (o : option T) (write : T -> list bytes) : list bytes :=
  match o with Some x => write x | None => [] end.
Definition if_set (b : bool) (write : list bytes) : list bytes := if b then write else [].

(** [ScanOptions]. *)
Record ScanOptions := { so_pattern : option bytes; so_count : option Z; so_scan_type : option bytes }.
Definition ScanOptions_default : ScanOptions :=
  {| so_pattern := None; so_count := None; so_scan_type := None |}.
Definition with_count (o : ScanOptions) (n : Z) : ScanOptions :=
  {| so_pattern := so_pattern o; so_count := Some n; so_scan_type := so_scan_type o |}.
Definition with_pattern (o : ScanOptions) (p : bytes) : ScanOptions :=
  {| so_pattern := Some p; so_count := so_count o; so_scan_type := so_scan_type o |}.
Definition with_type (o : ScanOptions) (t : bytes) : ScanOptions :=
  {| so_pattern := so_pattern o; so_count := so_count o; so_scan_type := Some t |}.
Definition ScanOptions_args (o : ScanOptions) : list bytes :=
  if_some (so_pattern o) (fun p => [lit "MATCH"; p]) ++
  if_some (so_count o) (fun n => [lit "COUNT"; itoa n]) ++
  if_some (so_scan_type o) (fun t => [lit "TYPE"; t]).
Definition ScanOptions_num_of_args (o : ScanOptions) : nat :=
  let len := 0%nat in
  let len := if so_pattern o then len + 2 else len in
  let len := if so_count o then len + 2 else len in
  let len := if so_scan_type o then len + 2 else len in
  len.
#[export] Instance tra_scan_options : ToRedisArgs ScanOptions :=
  tra_default (fun o => Some (ScanOptions_args o)) (fun _ => NonNumeric) ScanOptions_num_of_args.

(** [LposOptions]. *)
Record LposOptions := { lo_count : option Z; lo_maxlen : option Z; lo_rank : option Z }.
Definition LposOptions_default : LposOptions :=
  {| lo_count := None; lo_maxlen := None; lo_rank := None |}.
Definition lpos_count (o : LposOptions) (n : Z) : LposOptions :=
  {| lo_count := Some n; lo_maxlen := lo_maxlen o; lo_rank := lo_rank o |}.
Definition lpos_rank (o : LposOptions) (n : Z) : LposOptions :=
  {| lo_count := lo_count o; lo_maxlen := lo_maxlen o; lo_rank := Some n |}.
Definition lpos_maxlen (o : LposOptions) (n : Z) : LposOptions :=
  {| lo_count := lo_count o; lo_maxlen := Some n; lo_rank := lo_rank o |}.
Definition LposOptions_args (o : LposOptions) : list bytes :=
  if_some (lo_count o) (fun n => [lit "COUNT"; itoa n]) ++
  if_some (lo_rank o) (fun n => [lit "RANK"; itoa n]) ++
  if_some (lo_maxlen o) (fun n => [lit "MAXLEN"; itoa n]).
Definition LposOptions_num_of_args (o : LposOptions) : nat :=
  let len := 0%nat in
  let len := if lo_count o then len + 2 else len in
  let len := if lo_rank o then len + 2 else len in
  let len := if lo_maxlen o then len + 2 else len in
  len.
#[export] Instance tra_lpos_options : ToRedisArgs LposOptions :=
  tra_default (fun o => Some (LposOptions_args o)) (fun _ => NonNumeric) LposOptions_num_of_args.

(** [Direction]. *)
Inductive Direction := Left | Right.
Definition Direction_arg (d : Direction) : bytes :=
  match d with Left => lit "LEFT" | Right => lit "RIGHT" end.
#[export] Instance tra_direction : ToRedisArgs Direction := tra_single Direction_arg NonNumeric.

(** [CopyOptions<Db>]; [Db] is any type with [ToString]. *)
Class ToString (T : Type) := to_string : T -> bytes.

Record CopyOptions (Db : Type) := { copy_db : option Db; copy_replace : bool }.
Arguments copy_db {Db}.
Arguments copy_replace {Db}.
Definition CopyOptions_default : CopyOptions bytes := {| copy_db := None; copy_replace := false |}.
Definition set_db {Db Db2} (o : CopyOptions Db) (db : Db2) : CopyOptions Db2 :=
  {| copy_db := Some db; copy_replace := copy_replace o |}.
Definition set_replace {Db} (o : CopyOptions Db) (replace : bool) : CopyOptions Db :=
  {| copy_db := copy_db o; copy_replace := replace |}.
Definition CopyOptions_args {Db} `{ToString Db} (o : CopyOptions Db) : list bytes :=
  if_some (copy_db o) (fun db => [lit "DB"; to_string db]) ++ if_set (copy_replace o) [lit "REPLACE"].
#[export] Instance tra_copy_options {Db} `{ToString Db} : ToRedisArgs (CopyOptions Db) :=
  tra_list CopyOptions_args.

#[export] Instance tra_set_expiry : ToRedisArgs SetExpiry := tra_list SetExpiry_args.
#[export] Instance tra_existence_check : ToRedisArgs ExistenceCheck := tra_list ExistenceCheck_args.
#[export] Instance tra_expire_option : ToRedisArgs ExpireOption := tra_list ExpireOption_args.
#[export] Instance tra_value_comparison : ToRedisArgs ValueComparison := tra_list ValueComparison_args.

(** [SetOptions]. *)
Record SetOptions := {
  set_conditional : option ExistenceCheck;
  set_comparison : option ValueComparison;
  set_get : bool;
  set_expiration : option SetExpiry
}.
Definition SetOptions_default : SetOptions :=
  {| set_conditional := None; set_comparison := None; set_get := false; set_expiration := None |}.
Definition conditional_set (o : SetOptions) (e : ExistenceCheck) : SetOptions :=
  {| set_conditional := Some e; set_comparison := set_comparison o; set_get := set_get o;
     set_expiration := set_expiration o |}.
Definition value_comparison (o : SetOptions) (c : ValueComparison) : SetOptions :=
  {| set_conditional := set_conditional o; set_comparison := Some c; set_get := set_get o;
     set_expiration := set_expiration o |}.
Definition with_get (o : SetOptions) (get : bool) : SetOptions :=
  {| set_conditional := set_conditional o; set_comparison := set_comparison o; set_get := get;
     set_expiration := set_expiration o |}.
Definition with_expiration (o : SetOptions) (e : SetExpiry) : SetOptions :=
  {| set_conditional := set_conditional o; set_comparison := set_comparison o; set_get := set_get o;
     set_expiration := Some e |}.
Definition SetOptions_args (o : SetOptions) : list bytes :=
  if_some (set_conditional o) ExistenceCheck_args ++
  if_some (set_comparison o) ValueComparison_args ++
  if_set (set_get o) [lit "GET"] ++
  if_some (set_expiration o) SetExpiry_args.
#[export] Instance tra_set_options : ToRedisArgs SetOptions := tra_list SetOptions_args.

(** [MSetOptions]. *)
Record MSetOptions := { mset_conditional : option ExistenceCheck; mset_expiration : option SetExpiry }.
Definition MSetOptions_default : MSetOptions := {| mset_conditional := None; mset_expiration := None |}.
Definition mset_conditional_set (o : MSetOptions) (e : ExistenceCheck) : MSetOptions :=
  {| mset_conditional := Some e; mset_expiration := mset_expiration o |}.
Definition mset_with_expiration (o : MSetOptions) (e : SetExpiry) : MSetOptions :=
  {| mset_conditional := mset_conditional o; mset_expiration := Some e |}.
Definition MSetOptions_args (o : MSetOptions) : list bytes :=
  if_some (mset_conditional o) ExistenceCheck_args ++ if_some (mset_expiration o) SetExpiry_args.
#[export] Instance tra_mset_options : ToRedisArgs MSetOptions := tra_list MSetOptions_args.

(** [FlushAllOptions], also [FlushDbOptions]. *)
Record FlushAllOptions := { flush_blocking : bool }.
Definition FlushAllOptions_default : FlushAllOptions := {| flush_blocking := false |}.
Definition set_blocking (o : FlushAllOptions) (blocking : bool) : FlushAllOptions :=
  {| flush_blocking := blocking |}.
Definition FlushAllOptions_arg (o : FlushAllOptions) : bytes :=
  if flush_blocking o then lit "SYNC" else lit "ASYNC".
#[export] Instance tra_flush_all_options : ToRedisArgs FlushAllOptions :=
  tra_single FlushAllOptions_arg NonNumeric.

(** [HashFieldExpirationOptions]. *)
Record HashFieldExpirationOptions := {
  hf_existence_check : option FieldExistenceCheck;
  hf_expiration : option SetExpiry
}.
Definition HashFieldExpirationOptions_default : HashFieldExpirationOptions :=
  {| hf_existence_check := None; hf_expiration := None |}.
Definition set_existence_check (o : HashFieldExpirationOptions) (e : FieldExistenceCheck)
    : HashFieldExpirationOptions :=
  {| hf_existence_check := Some e; hf_expiration := hf_expiration o |}.
Definition set_field_expiration (o : HashFieldExpirationOptions) (e : SetExpiry)
    : HashFieldExpirationOptions :=
  {| hf_existence_check := hf_existence_check o; hf_expiration := Some e |}.
Definition HashFieldExpirationOptions_args (o : HashFieldExpirationOptions) : list bytes :=
  if_some (hf_existence_check o) FieldExistenceCheck_args ++ if_some (hf_expiration o) SetExpiry_args.
#[export] Instance tra_hash_field_expiration_options : ToRedisArgs HashFieldExpirationOptions :=
  tra_list HashFieldExpirationOptions_args.

(** [Expiry]. *)
Inductive Expiry :=
| Expiry_EX (sec : Z) | Expiry_PX (ms : Z) | Expiry_EXAT (timestamp_sec : Z)
| Expiry_PXAT (timestamp_ms : Z) | Expiry_PERSIST.
Definition Expiry_args (e : Expiry) : list bytes :=
  match e with
  | Expiry_EX sec => [lit "EX"; itoa sec]
  | Expiry_PX ms => [lit "PX"; itoa ms]
  | Expiry_EXAT timestamp_sec => [lit "EXAT"; itoa timestamp_sec]
  | Expiry_PXAT timestamp_ms => [lit "PXAT"; itoa timestamp_ms]
  | Expiry_PERSIST => [lit "PERSIST"]
  end.
#[export] Instance tra_expiry : ToRedisArgs Expiry := tra_list Expiry_args.

(** [IncrexOptions<T>]. *)
Record IncrexOptions (T : Type) := {
  ix_saturate : bool;
  ix_lower_bound : option T;
  ix_upper_bound : option T;
  ix_expiration : option Expiry;
  ix_enx : bool
}.
Arguments ix_saturate {T}.
Arguments ix_lower_bound {T}.
Arguments ix_upper_bound {T}.
Arguments ix_expiration {T}.
Arguments ix_enx {T}.

Section increx.
Context {T : Type} `{A : ToRedisArgs T}.
Implicit Types o : IncrexOptions T.

Definition IncrexOptions_default : IncrexOptions T :=
  {| ix_saturate := false; ix_lower_bound := None; ix_upper_bound := None; ix_expiration := None;
     ix_enx := false |}.
Definition saturate o : IncrexOptions T :=
  {| ix_saturate := true; ix_lower_bound := ix_lower_bound o; ix_upper_bound := ix_upper_bound o;
     ix_expiration := ix_expiration o; ix_enx := ix_enx o |}.
Definition lower_bound o (b : T) : IncrexOptions T :=
  {| ix_saturate := ix_saturate o; ix_lower_bound := Some b; ix_upper_bound := ix_upper_bound o;
     ix_expiration := ix_expiration o; ix_enx := ix_enx o |}.
Definition upper_bound o (b : T) : IncrexOptions T :=
  {| ix_saturate := ix_saturate o; ix_lower_bound := ix_lower_bound o; ix_upper_bound := Some b;
     ix_expiration := ix_expiration o; ix_enx := ix_enx o |}.
Definition increx_with_expiration o (e : Expiry) : IncrexOptions T :=
  {| ix_saturate := ix_saturate o; ix_lower_bound := ix_lower_bound o;
     ix_upper_bound := ix_upper_bound o; ix_expiration := Some e; ix_enx := ix_enx o |}.
Definition enx o : IncrexOptions T :=
  {| ix_saturate := ix_saturate o; ix_lower_bound := ix_lower_bound o;
     ix_upper_bound := ix_upper_bound o; ix_expiration := ix_expiration o; ix_enx := true |}.

(** A bound: its keyword and the arguments of its value. *)
Definition bound_args (kw : string) (b : option T) : option (list bytes) :=
  match b with Some b => cons (lit kw) <$> write_redis_args A b | None => Some [] end.
Definition IncrexOptions_args o : option (list bytes) :=
  lower ← bound_args "LBOUND" (ix_lower_bound o);
  upper ← bound_args "UBOUND" (ix_upper_bound o);
  Some (if_set (ix_saturate o) [lit "SATURATE"] ++ lower ++ upper ++
        if_some (ix_expiration o) Expiry_args ++ if_set (ix_enx o) [lit "ENX"]).
#[export] Instance tra_increx_options : ToRedisArgs (IncrexOptions T) :=
  tra_default IncrexOptions_args (fun _ => NonNumeric) (fun _ => 1%nat).
End increx.
#[export] Existing Instance tra_increx_options.

(** [UpdateCheck] and [SortedSetAddOptions]. *)
Inductive UpdateCheck := UpdateCheck_LT | UpdateCheck_GT.
Definition UpdateCheck_args (c : UpdateCheck) : list bytes :=
  match c with UpdateCheck_LT => [lit "LT"] | UpdateCheck_GT => [lit "GT"] end.

Record SortedSetAddOptions := {
  zadd_conditional_set : option ExistenceCheck;
  zadd_conditional_update : option UpdateCheck;
  zadd_include_changed : bool;
  zadd_increment : bool
}.
Definition SortedSetAddOptions_default : SortedSetAddOptions :=
  {| zadd_conditional_set := None; zadd_conditional_update := None; zadd_include_changed := false;
     zadd_increment := false |}.
Definition add_only : SortedSetAddOptions :=
  {| zadd_conditional_set := Some ExistenceCheck_NX; zadd_conditional_update := None;
     zadd_include_changed := false; zadd_increment := false |}.
Definition update_only (u : option UpdateCheck) : SortedSetAddOptions :=
  {| zadd_conditional_set := Some ExistenceCheck_XX; zadd_conditional_update := u;
     zadd_include_changed := false; zadd_increment := false |}.
Definition add_or_update (u : option UpdateCheck) : SortedSetAddOptions :=
  {| zadd_conditional_set := None; zadd_conditional_update := u; zadd_include_changed := false;
     zadd_increment := false |}.
Definition include_changed_count (o : SortedSetAddOptions) : SortedSetAddOptions :=
  {| zadd_conditional_set := zadd_conditional_set o;
     zadd_conditional_update := zadd_conditional_update o; zadd_include_changed := true;
     zadd_increment := zadd_increment o |}.
Definition increment_score (o : SortedSetAddOptions) : SortedSetAddOptions :=
  {| zadd_conditional_set := zadd_conditional_set o;
     zadd_conditional_update := zadd_conditional_update o;
     zadd_include_changed := zadd_include_changed o; zadd_increment := true |}.
Definition SortedSetAddOptions_args (o : SortedSetAddOptions) : list bytes :=
  if_some (zadd_conditional_set o) ExistenceCheck_args ++
  if_some (zadd_conditional_update o) UpdateCheck_args ++
  if_set (zadd_include_changed o) [lit "CH"] ++ if_set (zadd_increment o) [lit "INCR"].
#[export] Instance tra_sorted_set_add_options : ToRedisArgs SortedSetAddOptions :=
  tra_list SortedSetAddOptions_args.

(** ** Instances of the laws *)

#[export] Instance single_tra_single {T} (f : T -> bytes) n : ToSingleRedisArg _ (tra_single f n).
Proof. by refine {| single_arg := f |}. Defined.
#[export] Instance single_int : ToSingleRedisArg _ tra_int := single_tra_single _ _.
#[export] Instance single_string : ToSingleRedisArg _ tra_string := single_tra_single _ _.
#[export] Instance single_bool : ToSingleRedisArg _ tra_bool := single_tra_single _ _.
#[export] Instance single_ref {T} (A : ToRedisArgs T) `{!ToSingleRedisArg _ A} : ToSingleRedisArg _ (tra_ref A).
Proof.
  refine {| single_arg := single_arg (A := A) |}; intros x; simpl;
    [apply (single_write (A := A)) | apply (single_num (A := A))].
Defined.

#[export] Instance writes_single {T} (A : ToRedisArgs T) `{!ToSingleRedisArg _ A} : Writes _ A.
Proof. intros x. rewrite single_write. eauto. Qed.
#[export] Instance writes_ref {T} (A : ToRedisArgs T) `{!Writes _ A} : Writes _ (tra_ref A).
Proof. exact (writes (A := A)). Qed.
#[export] Instance writes_list {T} (f : T -> list bytes) : Writes _ (tra_list f).
Proof. intros x. simpl. eauto. Qed.
#[export] Instance writes_option {T} (A : ToRedisArgs T) `{!Writes _ A} : Writes _ (tra_option A).
Proof. intros [x|]; simpl; [apply writes | eauto]. Qed.
#[export] Instance writes_tuple2 {T U} (A : ToRedisArgs T) (B : ToRedisArgs U) `{!Writes _ A, !Writes _ B} :
  Writes _ (tra_tuple2 A B).
Proof. intros [x y]. simpl. destruct (writes (A := A) x) as [? ->], (writes (A := B) y) as [? ->]. simpl. eauto. Qed.
#[export] Instance writes_scan : Writes _ tra_scan_options.
Proof. intros x. simpl. eauto. Qed.
#[export] Instance writes_lpos : Writes _ tra_lpos_options.
Proof. intros x. simpl. eauto. Qed.
#[export] Instance writes_increx {T} (A : ToRedisArgs T) `{!Writes _ A} : Writes _ (tra_increx_options (A := A)).
Proof.
  intros [s lo up ex e]. simpl. unfold IncrexOptions_args. simpl.
  assert (forall kw b, is_Some (bound_args (A := A) kw b)) as Hb.
  { intros kw [b|]; simpl; [|eauto]. destruct (writes (A := A) b) as [? ->]. simpl. eauto. }
  destruct (Hb "LBOUND"%string lo) as [? ->], (Hb "UBOUND"%string up) as [? ->]. simpl. eauto.
Qed.

(** The methods for slices are the default ones: all types but [u8]. *)
Class PlainSlice {T} (A : ToRedisArgs T) := {
  plain_write : forall l, write_args_from_slice A l = make_arg_iter_ref (write_redis_args A) l;
  plain_single : forall l, is_single_vec_arg A l =
    match l with [x] => (num_of_args A x <=? 1)%nat | _ => false end
}.
#[export] Instance plain_default {T} w n (m : T -> nat) : PlainSlice (tra_default w n m).
Proof. done. Qed.
#[export] Instance plain_string : PlainSlice tra_string.
Proof. done. Qed.
#[export] Instance plain_int : PlainSlice tra_int.
Proof. done. Qed.
#[export] Instance plain_ref {T} (A : ToRedisArgs T) : PlainSlice (tra_ref A).
Proof. done. Qed.
#[export] Instance plain_vec {T} (A : ToRedisArgs T) : PlainSlice (tra_vec A).
Proof. done. Qed.
#[export] Instance plain_tuple2 {T U} (A : ToRedisArgs T) (B : ToRedisArgs U) : PlainSlice (tra_tuple2 A B).
Proof. done. Qed.

Lemma make_arg_iter_single {T} (A : ToRedisArgs T) `{!ToSingleRedisArg _ A} l :
  make_arg_iter_ref (write_redis_args A) l = Some (map single_arg l).
Proof.
  unfold make_arg_iter_ref. induction l as [|x l IH]; [done|]. simpl. rewrite single_write. simpl.
  destruct (mapM _ l) as [r|]; [|done]. simpl in *. injection IH as IH. by rewrite IH.
Qed.

#[export] Instance writes_vec {T} (A : ToRedisArgs T) `{!Writes _ A, !PlainSlice A} : Writes _ (tra_vec A).
Proof.
  intros l. simpl. rewrite plain_write. unfold make_arg_iter_ref. apply fmap_is_Some.
  apply mapM_is_Some, Forall_forall. intros x _. apply writes.
Qed.

(** ** What a chain of arguments builds *)

(** The command is built, without panic, and has exactly these arguments. *)
Definition built (c : option Cmd) (l : list bytes) : Prop :=
  exists c', c = Some c' /\ cmd_ok c' /\ Cursor ∉ args c' /\ args_iter c' = map Simple l.

Lemma write_args_built c l l' : cmd_ok c -> Cursor ∉ args c -> args_iter c = map Simple l ->
  built (Some (foldl write_arg c l')) (l ++ l').
Proof.
  revert c l. induction l' as [|a l' IH]; intros c l Hok Hcur Hi; simpl.
  - exists c. by rewrite app_nil_r.
  - destruct (write_arg_ok c a Hok) as [Hok' Hi']. rewrite cons_middle, app_assoc. apply IH; [done| |].
    + simpl. set_solver.
    + by rewrite Hi', Hi, map_app.
Qed.

Lemma built_cmd name : built (CMD name) [bs name].
Proof. apply (write_args_built Cmd_new [] [bs name]); [done | apply not_elem_of_nil | done]. Qed.

Lemma built_arg {T} `{A : ToRedisArgs T} c l (x : T) a :
  built c l -> write_redis_args A x = Some a -> built (c ▷ x) (l ++ a).
Proof.
  intros (c' & -> & Hok & Hcur & Hi) Ha. unfold arg. simpl. rewrite Ha. simpl. by apply write_args_built.
Qed.

Lemma built_taken c l : built c l -> built (taken c) l.
Proof. intros (c' & -> & H). by exists c'. Qed.

Lemma built_inj c l l' : built c l -> built c l' -> l = l'.
Proof.
  intros (c1 & -> & _ & _ & H1) (c2 & [= <-] & _ & _ & H2). rewrite H1 in H2. clear H1.
  revert l' H2. induction l as [|x l IH]; intros [|y l'] H; try done. injection H as -> H. f_equal. eauto.
Qed.

(** The arguments begin with [l]. *)
Definition begins (c : option Cmd) (l : list bytes) : Prop := exists l', built c (l ++ l').

Lemma built_begins c l : built c l -> begins c l.
Proof. intros H. exists []. by rewrite app_nil_r. Qed.

Lemma begins_built c l l' : built c (l ++ l') -> begins c l.
Proof. intros H. by exists l'. Qed.

Lemma begins_arg {T} `{A : ToRedisArgs T} `{!Writes _ A} c l (x : T) : begins c l -> begins (c ▷ x) l.
Proof.
  intros [l' H]. destruct (writes (A := A) x) as [a Ha]. exists (l' ++ a). rewrite app_assoc. by apply built_arg.
Qed.

Lemma begins_taken c l : begins c l -> begins (taken c) l.
Proof. intros [l' H]. exists l'. by apply built_taken. Qed.

(** A key: the first argument written. *)
Lemma begins_key {T} `{A : ToRedisArgs T} c l (x : T) k ks :
  built c l -> write_redis_args A x = Some (k :: ks) -> begins (c ▷ x) (l ++ [k]).
Proof. intros H Hx. exists ks. rewrite <- app_assoc. by apply built_arg. Qed.
