(* ===== verification/Digest.v ===== *)
(** * Comparisons with stored values, and remaining conversions of [types.rs]

    [ValueComparison] with its constructors, the digests that they may be given,
    comparing an [IntegerReplyOrNoOp] with integers, the accessors of [IncrexResult],
    and the conversions of C strings, pointers, and types of the bytes, uuid and decimal
    crates.  The hash function of the xxhash crate and the number types are
    parameters. *)

From S2P Require Import Prelude Text Float64 Combine Errors Types Parser Codec Cmd Convert Args.
Local Open Scope Z_scope.

(** ** Comparisons *)

Section comparisons.
Context {T : Type} `{A : ToRedisArgs T}.

(** The first argument as text; [None] is a panic, of writing or of the index. *)
Definition arg_to_string (value : T) : option bytes :=
  l ← write_redis_args A value; from_utf8_lossy <$> head l.
Definition ifeq (value : T) : option ValueComparison := IFEQ <$> arg_to_string value.
Definition ifne (value : T) : option ValueComparison := IFNE <$> arg_to_string value.
Definition ifdeq (digest : T) : option ValueComparison := IFDEQ <$> arg_to_string digest.
Definition ifdne (digest : T) : option ValueComparison := IFDNE <$> arg_to_string digest.
End comparisons.

(** ** Digests *)

(** [xxh3_64] of the xxhash crate, a [u64]. *)
Class Xxh3 := {
  xxh3_64 : bytes -> Z;
  xxh3_64_u64 : forall b, 0 <= xxh3_64 b <= u64_max
}.

(** A digit of [{:x}]. *)
Definition hex_digit (d : Z) : byte := Z_byte (if d <? 10 then 48 + d else 87 + d).
(** [{:016x}]: sixteen digits, which are enough for a [u64]. *)
Fixpoint hex_digits (n : nat) (v : Z) : bytes :=
  match n with
  | O => []
  | S n => hex_digits n (v / 16) ++ [hex_digit (v mod 16)]
  end.
Definition format_016x (v : Z) : bytes := hex_digits 16 v.

Definition calculate_value_digest {T} `{A : ToRedisArgs T} `{Xxh3} (value : T) : option bytes :=
  args ← write_redis_args A value;
  let combined_bytes := foldl (fun acc arg => acc ++ arg) [] args in
  Some (format_016x (xxh3_64 combined_bytes)).

(** ** Integer replies *)

Definition i32_ty : int_ty := {| int_min := - 2 ^ 31; int_max := 2 ^ 31 - 1 |}.
(** [PartialEq] with [isize], [usize], [i32] and [u32]. *)
Definition eq_isize (r : IntegerReplyOrNoOp) (other : Z) : bool :=
  match r with
  | IntegerReply s => as_i64 s =? other
  | NotExists => other =? -2
  | ExistsButNotRelevant => other =? -1
  end.
Definition eq_usize (r : IntegerReplyOrNoOp) (other : Z) : bool :=
  match r with IntegerReply s => s =? other | _ => false end.
Definition eq_i32 (r : IntegerReplyOrNoOp) (other : Z) : bool :=
  match r with
  | IntegerReply s => as_ty i32_ty s =? other
  | NotExists => other =? -2
  | ExistsButNotRelevant => other =? -1
  end.
Definition eq_u32 (r : IntegerReplyOrNoOp) (other : Z) : bool :=
  match r with IntegerReply s => as_ty u32_ty s =? other | _ => false end.

(** ** [IncrexResult] *)

Definition value_as {T} (F : FromRedisValue T) (r : IncrexResult) : result ParsingError T :=
  from_redis_value_ref F (increx_value r).
Definition actual_increment_as {T} (F : FromRedisValue T) (r : IncrexResult) : result ParsingError T :=
  from_redis_value_ref F (actual_increment r).
Definition increx_as_i64 (r : IncrexResult) : result ParsingError (Z * Z) :=
  v ← value_as (frv_int i64_ty) r; i ← actual_increment_as (frv_int i64_ty) r; Ok (v, i).

(** ** Bytes and uuids *)

Definition bytes_of_value_ref (v : Value) : result ParsingError bytes :=
  match get_inner_value v with
  | BulkString b => Ok b
  | _ => Err (parsing_error "Not a bulk string")
  end.
Definition bytes_of_value (v : Value) : result ParsingError bytes :=
  match get_owned_inner_value v with
  | BulkString b => Ok b
  | _ => Err (parsing_error "Not a bulk string")
  end.
Definition frv_Bytes : FromRedisValue bytes := frv_default bytes_of_value_ref bytes_of_value.

(** A [Uuid] is its sixteen bytes; [Uuid::from_slice] checks the length.  The text of
    its error, which the message repeats, is left out. *)
Record Uuid := { uuid_bytes : list byte }.
Definition uuid_of_value (v : Value) : result ParsingError Uuid :=
  match v with
  | BulkString b =>
      if (length b =? 16)%nat then Ok {| uuid_bytes := b |}
      else Err (parsing_error "Value is not a valid UUID")
  | _ => Err (parsing_error "Response type not uuid compatible.")
  end.
Definition frv_uuid : FromRedisValue Uuid := frv_default uuid_of_value uuid_of_value.
Definition uuid_args (u : Uuid) : list bytes := [uuid_bytes u].

(** ** C strings, pointers and decimals *)

(** [CString::new] refuses a zero byte; the text of its error, which the message
    repeats, is left out. *)
Definition CString_new (b : bytes) : result ParsingError bytes :=
  if existsb (fun x => byte_Z x =? 0) b then Err (parsing_error "Value contains interior nul terminator: ")
  else Ok b.
Definition cstring_of_value_ref (v : Value) : result ParsingError bytes :=
  match get_inner_value v with
  | BulkString b => CString_new b
  | Okay => CString_new (bs "OK")
  | SimpleString s => CString_new s
  | _ => Err (parsing_error "Response type not CString compatible.")
  end.
Definition cstring_of_value (v : Value) : result ParsingError bytes :=
  match get_owned_inner_value v with
  | BulkString b => CString_new b
  | Okay => CString_new (bs "OK")
  | SimpleString s => CString_new s
  | _ => Err (parsing_error "Response type not CString compatible.")
  end.
Definition frv_cstring : FromRedisValue bytes := frv_default cstring_of_value_ref cstring_of_value.

(** [Box<T>], [Arc<T>] and [Rc<T>] convert what they point to; the methods for
    sequences are the default ones. *)
Definition frv_pointer {T} (F : FromRedisValue T) : FromRedisValue T :=
  frv_default (from_redis_value_ref F) (from_redis_value F).

(** The decimals and integers of the crates rust_decimal, bigdecimal and num_bigint. *)
Class BigNum (T : Type) := {
  bignum_try_from : Z -> option T;
  bignum_parse : bytes -> option T;
  bignum_to_string : T -> bytes
}.
Definition bignum_of_value `{BigNum T} (v : Value) : result ParsingError T :=
  match v with
  | Int val => ok_or (bignum_try_from val) (parsing_error "Could not convert from integer.")
  | SimpleString s => ok_or (bignum_parse s) (parsing_error "Could not convert from string.")
  | BulkString b =>
      match from_utf8 b with
      | Ok s => ok_or (bignum_parse s) (parsing_error "Could not convert from string.")
      | Err e => Err (parsing_error_of_utf8 e)
      end
  | _ => Err (parsing_error "Response type not convertible to numeric.")
  end.
Definition frv_bignum `{BigNum T} : FromRedisValue T := frv_default bignum_of_value bignum_of_value.
Definition tra_bignum `{BigNum T} : ToRedisArgs T := tra_single bignum_to_string NonNumeric.

(** [NonZeroU8] and the others, [Cow], and references to arrays, which write their
    elements as a slice does. *)
Definition tra_non_zero : ToRedisArgs Z := tra_single itoa NumberIsInteger.
Inductive Cow (B O : Type) := Borrowed (inner : B) | Owned (inner : O).
Arguments Borrowed {B O} inner.
Arguments Owned {B O} inner.
Definition tra_cow {B O} (TB : ToRedisArgs B) (TO : ToRedisArgs O) : ToRedisArgs (Cow B O) :=
  tra_default (fun c => match c with Borrowed x => write_redis_args TB x | Owned x => write_redis_args TO x end)
    (fun _ => NonNumeric) (fun _ => 1%nat).
Definition tra_array {T} (A : ToRedisArgs T) : ToRedisArgs (list T) :=
  tra_default (write_args_from_slice A) (fun _ => NonNumeric)
    (fun l => if is_single_vec_arg A l then 1%nat
              else match l with [x] => num_of_args A x | _ => length l end).

(** ** Digests are well-formed *)

Lemma for_hex_digits (P : Z -> Prop) d : Forall P (map Z.of_nat (seq 0 16)) -> 0 <= d < 16 -> P d.
Proof.
  rewrite Forall_forall. intros HP Hd. apply HP, list_elem_of_fmap. exists (Z.to_nat d).
  split; [lia|]. apply elem_of_seq. lia.
Qed.
Lemma hex_digit_valid d : 0 <= d < 16 -> is_ascii_hexdigit (hex_digit d) = true.
Proof. apply (for_hex_digits (fun d => is_ascii_hexdigit (hex_digit d) = true)). repeat constructor. Qed.

(** Reading hexadecimal digits. *)
Definition hex_value (b : byte) : Z := if between 97 122 b then byte_Z b - 87 else byte_Z b - 48.
Definition parse_hex (s : bytes) : Z := foldl (fun acc b => acc * 16 + hex_value b) 0 s.

Lemma hex_digit_value d : 0 <= d < 16 -> hex_value (hex_digit d) = d.
Proof. apply (for_hex_digits (fun d => hex_value (hex_digit d) = d)). repeat constructor. Qed.

Lemma hex_digits_spec n v : 0 <= v ->
  length (hex_digits n v) = n /\ forallb is_ascii_hexdigit (hex_digits n v) = true /\
  parse_hex (hex_digits n v) = v mod 16 ^ Z.of_nat n.
Proof.
  revert v. induction n as [|n IH]; intros v Hv; simpl; [by rewrite Z.mod_1_r|].
  destruct (IH (v / 16)) as (Hl & Hf & Hp); [by apply Z.div_pos|].
  pose proof (Z.mod_pos_bound v 16 ltac:(lia)) as Hb. split_and!.
  - rewrite length_app, Hl. simpl. lia.
  - rewrite forallb_app, Hf. simpl. by rewrite hex_digit_valid.
  - unfold parse_hex in *. rewrite foldl_app. simpl. rewrite Hp, hex_digit_value by done.
    rewrite Nat2Z.inj_succ, Z.pow_succ_r by lia.
    rewrite (Z.rem_mul_r v 16 (16 ^ Z.of_nat n)) by lia. lia.
Qed.

(** A C string is read exactly from the replies that a text without a zero byte
    makes. *)
Lemma cstring_read v s : cstring_of_value v = Ok s <->
  Forall (fun x => byte_Z x <> 0) s /\
  (get_inner_value v = BulkString s \/ get_inner_value v = SimpleString s \/ (get_inner_value v = Okay /\ s = bs "OK")).
Proof.
  assert (forall b s, CString_new b = Ok s <-> b = s /\ Forall (fun x => byte_Z x <> 0) s) as Hnew.
  { intros b s'. unfold CString_new. destruct (existsb _ b) eqn:E.
    - split; [done|]. intros [-> HF]. apply existsb_exists in E as (x & Hin & Hx). rewrite Forall_forall in HF.
      apply list_elem_of_In in Hin. specialize (HF x Hin). lia.
    - split; [|by intros [-> _]]. intros [= ->]. split; [done|]. apply Forall_forall. intros x Hin Hx.
      apply list_elem_of_In in Hin. rewrite <- not_true_iff_false in E. apply E, existsb_exists. exists x. split; [done|lia]. }
  unfold cstring_of_value. change (get_owned_inner_value v) with (get_inner_value v).
  destruct (get_inner_value v); rewrite ?Hnew;
    (split; [intros Hx; first [discriminate Hx|destruct Hx as [<- HF]; split; [exact HF|by auto]]
            |intros (HF & [Hx|[Hx|[Hx ->]]]); first [discriminate Hx|by simplify_eq]]).
Qed.

(** The decimals of other crates are not found behind an attribute either. *)
Lemma bignum_behind_attribute `{BigNum T} data attrs : exists e, bignum_of_value (Attribute data attrs) = Err e.
Proof. by eexists. Qed.

(** A decimal sent as an argument and sent back is the same one, where its text is
    UTF-8 and can be parsed. *)
Lemma bignum_round_trip `{BigNum T} (x : T) : is_ok (from_utf8 (bignum_to_string x)) = true ->
  bignum_parse (bignum_to_string x) = Some x ->
  (fun l => map (fun b => bignum_of_value (BulkString b)) l) <$> write_redis_args tra_bignum x = Some [Ok x].
Proof.
  intros Hu Hp. simpl. destruct (from_utf8 (bignum_to_string x)) as [s|] eqn:E; [|done].
  apply from_utf8_Ok in E as [_ ->]. by rewrite Hp.
Qed.

(** The digest computed for a value is one that the check for digests accepts, and
    stands for the hash of its bytes without loss; as a comparison it is sent to the
    server unchanged. *)
Theorem digest_well_formed {T} `{A : ToRedisArgs T} `{!ToSingleRedisArg T A} `{Xxh3} (value : T) :
  exists d, calculate_value_digest value = Some d /\
    is_valid_16_bytes_hex_digest d = true /\ parse_hex d = xxh3_64 (single_arg value) /\
    ValueComparison_args <$> ifdeq (A := tra_string) d = Some [bs "IFDEQ"; d].
Proof.
  unfold calculate_value_digest. rewrite single_write. simpl. exists (format_016x (xxh3_64 (single_arg value))). split; [reflexivity|].
  pose proof (xxh3_64_u64 (single_arg value)) as Hu. unfold format_016x.
  destruct (hex_digits_spec 16 (xxh3_64 (single_arg value))) as (Hl & Hf & Hp); [lia|].
  set (d := hex_digits 16 _) in *. split_and!.
  - unfold is_valid_16_bytes_hex_digest. by rewrite Hl, Hf.
  - rewrite Hp. apply Z.mod_small. unfold u64_max in Hu. change (16 ^ Z.of_nat 16) with (2 ^ 64). lia.
  - clearbody d. unfold ifdeq, arg_to_string. simpl. rewrite from_utf8_lossy_valid; [done|].
    apply utf8_valid_ascii, Forall_forall. intros b Hb.
    rewrite forallb_forall in Hf. apply list_elem_of_In in Hb. specialize (Hf b Hb).
    unfold is_ascii_hexdigit, between in Hf. lia.
Qed.

(** ** What comparisons and equalities lose *)

(** A value that is text is compared as it is. *)
Lemma ifeq_text {T} `{A : ToRedisArgs T} `{!ToSingleRedisArg T A} (value : T) :
  utf8_valid (single_arg value) = true -> ifeq value = Some (IFEQ (single_arg value)).
Proof. intros Hv. unfold ifeq, arg_to_string. rewrite single_write. simpl. by rewrite from_utf8_lossy_valid. Qed.
(** Another value is replaced: the server compares with bytes that were not given,
    and different values become the same comparison. *)
Lemma ifeq_binary_replaced :
  ifeq (A := tra_string) [xff] = ifeq (A := tra_string) [xfe] /\
  ifeq (A := tra_string) [xff] <> Some (IFEQ [xff]).
Proof. vm_compute. split; [reflexivity|discriminate]. Qed.

(** Equality with [isize] is that of the integer of the reply; with the narrower types
    the reply is cut to their width first. *)
Lemma eq_isize_raw r n : eq_isize r n = (IntegerReplyOrNoOp_raw r =? n).
Proof. destruct r; simpl; [done|by rewrite Z.eqb_sym..]. Qed.
Lemma eq_i32_truncates : integer_reply_of_value (Int (2 ^ 32 + 5)) = Ok (IntegerReply (2 ^ 32 + 5)) /\
  eq_i32 (IntegerReply (2 ^ 32 + 5)) 5 = true /\ eq_u32 (IntegerReply (2 ^ 32 + 5)) 5 = true /\
  eq_isize (IntegerReply (2 ^ 32 + 5)) 5 = false.
Proof. by vm_compute. Qed.
(** Bytes and uuids are read as they were written; a uuid is not looked for behind
    attributes. *)
Lemma uuid_round_trip u : length (uuid_bytes u) = 16%nat ->
  uuid_of_value (BulkString (uuid_bytes u)) = Ok u.
Proof. intros Hl. unfold uuid_of_value. rewrite Hl. by destruct u. Qed.
Lemma uuid_behind_attribute u attrs : length (uuid_bytes u) = 16%nat ->
  is_ok (from_redis_value frv_uuid (Attribute (BulkString (uuid_bytes u)) attrs)) = false /\
  from_redis_value frv_Bytes (Attribute (BulkString (uuid_bytes u)) attrs) = Ok (uuid_bytes u).
Proof. done. Qed.
