(* ===== verification/Pipeline.v ===== *)
(** * Pipelines: [redis/src/pipeline.rs], [cluster_handling/sync_connection/pipeline.rs]

    A [Pipeline] is a list of commands with the indices of the ignored ones.
    [implement_pipeline_commands!] gives the plain and the cluster pipeline the
    same methods; the model keeps one record, with [transaction_mode] always
    false for a cluster pipeline. *)

From S2P Require Import Prelude Text Float64 Combine Errors Types Parser Codec Cmd Convert.
Local Open Scope Z_scope.

Record Pipeline := {
  commands : list Cmd;
  transaction_mode : bool;
  ignored_commands : gset nat;
  ignore_errors : bool
}.

Definition Pipeline_new : Pipeline :=
  {| commands := []; transaction_mode := false; ignored_commands := ∅; ignore_errors := false |}.

Definition atomic (p : Pipeline) : Pipeline :=
  {| commands := commands p; transaction_mode := true; ignored_commands := ignored_commands p;
     ignore_errors := ignore_errors p |}.
Definition set_ignore_errors (p : Pipeline) : Pipeline :=
  {| commands := commands p; transaction_mode := transaction_mode p;
     ignored_commands := ignored_commands p; ignore_errors := true |}.
Definition is_transaction (p : Pipeline) : bool := transaction_mode p.
Definition Pipeline_len (p : Pipeline) : nat := length (commands p).
Definition Pipeline_is_empty (p : Pipeline) : bool := Nat.eqb (length (commands p)) 0.

(** ** implement_pipeline_commands! *)

Definition with_commands (p : Pipeline) (l : list Cmd) : Pipeline :=
  {| commands := l; transaction_mode := transaction_mode p;
     ignored_commands := ignored_commands p; ignore_errors := ignore_errors p |}.

Definition add_command (p : Pipeline) (c : Cmd) : Pipeline := with_commands p (commands p ++ [c]).
Definition pipeline_cmd (p : Pipeline) (name : string) : Pipeline := add_command p (cmd name).

Definition ignore (p : Pipeline) : Pipeline :=
  match length (commands p) with
  | O => p
  | S x => {| commands := commands p; transaction_mode := transaction_mode p;
              ignored_commands := {[x]} ∪ ignored_commands p; ignore_errors := ignore_errors p |}
  end.

(** [get_last_command] and an update of it; [None] is the panic on an empty
    pipeline. *)
Definition update_last_command (p : Pipeline) (f : Cmd -> Cmd) : option Pipeline :=
  match length (commands p) with
  | O => None
  | S idx => Some (with_commands p (alter f idx (commands p)))
  end.
Definition pipeline_arg (p : Pipeline) (args : list bytes) : option Pipeline :=
  update_last_command p (fun c => foldl write_arg c args).
Definition pipeline_set_cache_config (p : Pipeline) (cfg : CommandCacheConfig) : option Pipeline :=
  update_last_command p (fun c => set_cache_config c cfg).

Definition pipeline_clear (p : Pipeline) : Pipeline :=
  {| commands := []; transaction_mode := transaction_mode p; ignored_commands := ∅;
     ignore_errors := ignore_errors p |}.

(** [iter().enumerate()]. *)
Definition enumerate {A} (l : list A) : list (nat * A) := imap pair l.

Definition filter_ignored_results (p : Pipeline) (resp : list Value) : list Value :=
  if bool_decide (ignored_commands p = ∅) then resp
  else omap (fun '(index, result) =>
         if bool_decide (index ∈ ignored_commands p) then None else Some result) (enumerate resp).

(** The server errors of a response with their indices. *)
Definition server_errors (response : list Value) : list (Z * ServerError) :=
  omap (fun '(index, value) =>
    match value with ServerErr error => Some (Z.of_nat index, error) | _ => None end)
    (enumerate response).

(** [?] on a [ParsingError]. *)
Definition into_redis_error {A} (r : result ParsingError A) : result RedisError A :=
  map_err redis_error_of_parsing r.

Section response.
Context {T : Type} (F : FromRedisValue T).

Definition compose_response (p : Pipeline) (response : list Value) : result RedisError T :=
  if ignore_errors p then
    into_redis_error (from_redis_value F (Array (filter_ignored_results p response)))
  else
    match server_errors response with
    | [] => v ← extract_error (Array (filter_ignored_results p response));
            into_redis_error (from_redis_value F v)
    | server_errors => Err (pipeline_error server_errors)
    end.

Definition complete_request (p : Pipeline) (response : list Value) : result RedisError T :=
  if is_transaction p then
    match last response with
    | Some Nil => into_redis_error (from_redis_value F Nil)
    | Some (Array items) => compose_response p items
    | _ => Err (redis_error_of UnexpectedReturnType "Invalid response when parsing multi response")
    end
  else compose_response p response.
End response.

(** ** Packing *)

Definition write_pipeline (rv : bytes) (cmds : list Cmd) (atomic : bool) : bytes :=
  if atomic then
    let rv := write_packed_command_preallocated (cmd "MULTI") rv in
    let rv := foldl (fun rv c => write_packed_command_preallocated c rv) rv cmds in
    write_packed_command_preallocated (cmd "EXEC") rv
  else foldl (fun rv c => write_packed_command_preallocated c rv) rv cmds.

Definition encode_pipeline (cmds : list Cmd) (atomic : bool) : bytes := write_pipeline [] cmds atomic.
Definition get_packed_pipeline (p : Pipeline) : bytes :=
  encode_pipeline (commands p) (transaction_mode p).

(** [Pipeline::query]; the connection is its two methods: the packed bytes,
    the number of replies to skip and the number to return. *)
Definition Pipeline_query {T} (F : FromRedisValue T) (supports_pipelining : bool)
    (req_packed_commands : bytes -> nat -> nat -> result RedisError (list Value)) (p : Pipeline)
    : result RedisError T :=
  if negb supports_pipelining
  then Err (redis_error_of Client "This connection does not support pipelining.")
  else
    response ← (if transaction_mode p
                then req_packed_commands (encode_pipeline (commands p) true)
                       (S (length (commands p))) 1%nat
                else req_packed_commands (encode_pipeline (commands p) false)
                       O (length (commands p)));
    complete_request F p response.

(** ** ClusterPipeline *)

Definition UNROUTABLE_ERROR : ErrorKind * string :=
  (Client, "This command cannot be safely routed in cluster mode"%string).

Definition is_illegal_cmd (c : bytes) : bool :=
  one_of c
    ["BGREWRITEAOF"; "BGSAVE"; "BITOP"; "BRPOPLPUSH";
     "CLIENT"; "CLIENT GETNAME"; "CLIENT KILL"; "CLIENT LIST"; "CLIENT SETNAME";
     "CONFIG"; "CONFIG GET"; "CONFIG RESETSTAT"; "CONFIG REWRITE"; "CONFIG SET";
     "DBSIZE"; "ECHO"; "FLUSHALL"; "FLUSHDB"; "INFO"; "KEYS"; "LASTSAVE";
     "MGET"; "MOVE"; "MSET"; "MSETNX"; "MSETEX"; "PING"; "PUBLISH";
     "RANDOMKEY"; "RENAME"; "RENAMENX"; "RPOPLPUSH"; "SAVE"; "SCAN";
     "SCRIPT"; "SCRIPT EXISTS"; "SCRIPT FLUSH"; "SCRIPT KILL"; "SCRIPT LOAD";
     "SDIFF"; "SDIFFSTORE";
     "SENTINEL"; "SENTINEL GET MASTER ADDR BY NAME"; "SENTINEL MASTER"; "SENTINEL MASTERS";
     "SENTINEL MONITOR"; "SENTINEL REMOVE"; "SENTINEL SENTINELS"; "SENTINEL SET";
     "SENTINEL SLAVES"; "SHUTDOWN"; "SINTER"; "SINTERSTORE"; "SLAVEOF";
     "SLOWLOG"; "SLOWLOG GET"; "SLOWLOG LEN"; "SLOWLOG RESET";
     "SMOVE"; "SORT"; "SUNION"; "SUNIONSTORE"; "TIME"]%string.

Definition cluster_cmd_name (c : Cmd) : bytes :=
  to_ascii_uppercase (trim (default [] (to_option (from_utf8 (default [] (arg_idx c 0)))))).

(** [ClusterPipeline::query] over [ClusterConnection::execute_pipeline]. *)
Definition ClusterPipeline_query {T} (F : FromRedisValue T)
    (execute_pipeline : Pipeline -> result RedisError (list Value)) (p : Pipeline)
    : result RedisError T :=
  match find (fun c => is_illegal_cmd (cluster_cmd_name c)) (commands p) with
  | Some c => Err (redis_error_of_detail UNROUTABLE_ERROR.1 UNROUTABLE_ERROR.2
                (bs "Command '" ++ cluster_cmd_name c ++
                 bs "' can't be executed in a cluster pipeline."))
  | None =>
      if Pipeline_is_empty p then Err make_empty_command
      else response ← execute_pipeline p; compose_response F p response
  end.

(** ** Building a pipeline *)

(** A pipeline as the user writes it: every command, and whether [ignore] was
    called on it. *)
Definition add_entry (p : Pipeline) (e : Cmd * bool) : Pipeline :=
  let p := add_command p e.1 in if e.2 then ignore p else p.
Definition pipe_of (entries : list (Cmd * bool)) : Pipeline := foldl add_entry Pipeline_new entries.

Lemma pipe_of_spec entries :
  commands (pipe_of entries) = map fst entries /\
  (forall i, i ∈ ignored_commands (pipe_of entries) <-> snd <$> entries !! i = Some true) /\
  ignore_errors (pipe_of entries) = false /\ transaction_mode (pipe_of entries) = false.
Proof.
  induction entries as [|[c b] entries (Hc & Hi & He & Ht)] using rev_ind; [split_and!; try done; set_solver|].
  unfold pipe_of in *. rewrite foldl_app. cbn [foldl]. set (p := foldl _ _ entries) in *.
  assert (forall i, snd <$> (entries ++ [(c, b)]) !! i = Some true <->
    i ∈ ignored_commands p \/ (i = length entries /\ b = true)) as Hl.
  { intros i. rewrite Hi. destruct (Nat.lt_trichotomy i (length entries)) as [H|[->|H]].
    - rewrite lookup_app_l by done. split; [by left|]. intros [?|[-> _]]; [done|lia].
    - rewrite lookup_app_r, Nat.sub_diag, (lookup_ge_None_2 entries) by lia. simpl.
      split; [intros [= ->]; by right|]. by intros [?|[_ ->]].
    - rewrite lookup_ge_None_2 by (rewrite length_app; simpl; lia).
      rewrite (lookup_ge_None_2 entries) by lia. split; [done|]. intros [?|[-> _]]; [done|lia]. }
  setoid_rewrite Hl. unfold add_entry, ignore, add_command. simpl.
  destruct b; simpl; rewrite ?length_app, ?Hc, ?length_map, ?map_app; simpl.
  - rewrite Nat.add_1_r. simpl. split_and!; [done| |done|done].
    intros i. rewrite elem_of_union, elem_of_singleton. naive_solver.
  - split_and!; [done| |done|done]. naive_solver.
Qed.

(** The replies of the commands that were not ignored. *)
Definition kept (entries : list (Cmd * bool)) (resp : list Value) : list Value :=
  omap (fun '((_, ign), v) => if (ign : bool) then None else Some v) (zip entries resp).

Lemma filter_enumerate {A} (P : nat -> bool) (l : list A) (flags : list bool) n :
  length l = length flags -> (forall i b, flags !! i = Some b -> P (n + i)%nat = b) ->
  omap (fun '(i, v) => if P i then None else Some v) (imap (fun i => pair (n + i)%nat) l) =
  omap (fun '(b, v) => if (b : bool) then None else Some v) (zip flags l).
Proof.
  revert n flags. induction l as [|v l IH]; intros n flags Hlen HP; destruct flags as [|b flags];
    try done. simpl in Hlen. cbn [imap zip omap list_omap]. simpl.
  rewrite (HP 0%nat b) by done.
  assert (omap (fun '(i, v) => if P i then None else Some v)
    (imap ((fun i => pair (n + i)%nat) ∘ S) l) =
    omap (fun '(b, v) => if (b : bool) then None else Some v) (zip flags l)) as Heq.
  { rewrite <- (IH (S n) flags) by (try lia; intros i c Hc;
      rewrite <- (HP (S i) c) by done; f_equal; lia).
    f_equal. apply imap_ext. intros i x _. simpl. f_equal. lia. }
  destruct b; [done|]. by f_equal.
Qed.

Lemma keep_all {A} (P : nat -> bool) (l : list A) : (forall i, P i = false) ->
  omap (fun '(i, v) => if P i then None else Some v) (enumerate l) = l.
Proof.
  intros HP. etransitivity;
    [apply (filter_enumerate P l (replicate (length l) false) 0)|].
  - by rewrite length_replicate.
  - intros i b [-> _]%lookup_replicate. apply HP.
  - induction l as [|v l IH]; [done|]. simpl. f_equal. exact IH.
Qed.

Lemma filter_ignored_kept entries resp : length resp = length entries ->
  filter_ignored_results (pipe_of entries) resp = kept entries resp.
Proof.
  intros Hlen. destruct (pipe_of_spec entries) as (_ & Hi & _ & _).
  assert (omap (fun '(index, result) => if bool_decide (index ∈ ignored_commands (pipe_of entries))
    then None else Some result) (enumerate resp) = kept entries resp) as Hk.
  { unfold enumerate, kept.
    pose proof (filter_enumerate (fun i => bool_decide (i ∈ ignored_commands (pipe_of entries)))
      resp (map snd entries) 0) as Hf. etransitivity; [apply Hf|].
    - by rewrite length_map.
    - intros i b Hb. change (map snd entries) with (snd <$> entries) in Hb.
      rewrite list_lookup_fmap in Hb. simpl.
      destruct b; [rewrite bool_decide_eq_true|rewrite bool_decide_eq_false]; rewrite Hi, Hb;
        congruence.
    - clear. revert resp.
      induction entries as [|[c b] entries IH]; intros [|v resp]; simpl; try done. by rewrite IH. }
  unfold filter_ignored_results. case_bool_decide as Hz; [|done].
  rewrite <- Hk. symmetry. apply keep_all. intros j. rewrite Hz.
  apply bool_decide_eq_false. set_solver.
Qed.

(** ** Errors of a response *)

Lemma server_errors_spec l i e :
  (Z.of_nat i, e) ∈ server_errors l <-> l !! i = Some (ServerErr e).
Proof.
  unfold server_errors. rewrite list_elem_of_omap. split.
  - intros ([j v] & (k & w & ? & Hk)%elem_of_lookup_imap & Hv). destruct w; simplify_eq.
    done.
  - intros Hi. exists (i, ServerErr e). split; [|done].
    apply elem_of_lookup_imap. by exists i, (ServerErr e).
Qed.

(** ** Decoding a packed pipeline *)

Section packed.
Context `{C : Combine} {CL : CombineLaws C}.

Lemma parse_stream_encode vs :
  Forall (fun v => encodable v = true /\ (depth v <= MAX_RECURSE_DEPTH)%nat) vs ->
  parse_stream (concat (map encode vs)) = (vs, Ok []).
Proof.
  induction 1 as [|v vs [He Hd] _ IH]; simpl; rewrite parse_stream_eq; [by rewrite value_nil|].
  unfold value. change (S MAX_RECURSE_DEPTH - default 1 None)%nat with MAX_RECURSE_DEPTH.
  rewrite value_at_encode by done. unfold expect. rewrite (proj2 (Nat.leb_le _ _)) by done.
  by rewrite IH.
Qed.
End packed.

(** The command as the server sees it. *)
Definition wire_value (c : Cmd) : Value := command_value (args_iter c) (default 0 (cursor c)).

Definition packable (c : Cmd) : Prop :=
  sizes_ok (args_iter c) = true /\ in_u64 (default 0 (cursor c)).

Lemma write_packed_fold cmds rv :
  foldl (fun rv c => write_packed_command_preallocated c rv) rv cmds =
  rv ++ concat (map encode (map wire_value cmds)).
Proof.
  revert rv. induction cmds as [|c cmds IH]; intros rv; simpl; [by rewrite app_nil_r|].
  rewrite IH. unfold write_packed_command_preallocated.
  by rewrite write_command_encode, <- app_assoc.
Qed.

(** The commands sent for a pipeline. *)
Definition sent_commands (p : Pipeline) : list Cmd :=
  if transaction_mode p then cmd "MULTI" :: commands p ++ [cmd "EXEC"] else commands p.

Lemma get_packed_pipeline_encode p :
  get_packed_pipeline p = concat (map encode (map wire_value (sent_commands p))).
Proof.
  unfold get_packed_pipeline, encode_pipeline, write_pipeline, sent_commands.
  destruct (transaction_mode p); [|by rewrite write_packed_fold].
  unfold write_packed_command_preallocated at 1 3. rewrite !write_command_encode, write_packed_fold.
  cbn [map concat]. rewrite !map_app, concat_app. cbn [map concat]. by rewrite app_nil_r, app_assoc.
Qed.

(** ** Properties *)

(** A packed pipeline is exactly the stream of its commands: decoding it
    yields each command as an array of bulk strings, in order and with nothing
    left over, and an atomic pipeline is enclosed in [MULTI] and [EXEC]. *)
Theorem packed_pipeline_stream `{C : Combine} {CL : CombineLaws C} (p : Pipeline)
    (H : Forall packable (commands p)) :
  parse_stream (get_packed_pipeline p) =
  (if transaction_mode p
   then Array [BulkString (bs "MULTI")] :: map wire_value (commands p) ++ [Array [BulkString (bs "EXEC")]]
   else map wire_value (commands p), Ok []).
Proof.
  rewrite get_packed_pipeline_encode, parse_stream_encode.
  - unfold sent_commands. destruct (transaction_mode p); [|done]. by rewrite map_cons, map_app.
  - apply Forall_map. assert (Forall packable (sent_commands p)) as Hp.
    { unfold sent_commands. case_match; [|done]. constructor; [by split|].
      apply Forall_app. split; [done|]. by repeat constructor. }
    eapply Forall_impl; [exact Hp|]. intros c [Hs Hc].
    destruct (command_value_encodable _ _ Hs Hc) as [He Hd]. split; [done|].
    unfold wire_value, MAX_RECURSE_DEPTH. lia.
Qed.

(** C11. Composing the response of a pipeline: if a command failed, the caller
    gets one error that lists exactly the failed commands, ignored or not, with
    their positions; otherwise exactly the replies of the commands that were not
    ignored are converted, in order. *)
Theorem compose_response_correct {T} (F : FromRedisValue T) (entries : list (Cmd * bool))
    (resp : list Value) (Hlen : length resp = length entries) :
  (forall i e, (Z.of_nat i, e) ∈ server_errors resp <-> resp !! i = Some (ServerErr e)) /\
  compose_response F (pipe_of entries) resp =
  match server_errors resp with
  | [] => match errors_of (Array (kept entries resp)) with
          | [] => into_redis_error (from_redis_value F (Array (kept entries resp)))
          | e :: _ => Err (redis_error_of_server e)
          end
  | errs => Err (pipeline_error errs)
  end.
Proof.
  split; [intros; apply server_errors_spec|].
  destruct (pipe_of_spec entries) as (_ & _ & He & _). unfold compose_response. rewrite He.
  rewrite filter_ignored_kept by done. case_match; [|done].
  rewrite extract_error_spec. unfold extract_spec. by case_match.
Qed.

(** With [ignore_errors] the reply of a pipeline never fails because of a
    server error: every reply that was not ignored comes back in its place, an
    error as an [Err] element and any other value as an [Ok] one. *)
Theorem ignore_errors_keeps_all (entries : list (Cmd * bool)) (resp : list Value)
    (Hlen : length resp = length entries) :
  compose_response (frv_vec (frv_result frv_value)) (set_ignore_errors (pipe_of entries)) resp =
  Ok (map (fun v => match v with ServerErr e => Err (redis_error_of_server e) | _ => Ok v end)
        (kept entries resp)).
Proof.
  unfold compose_response. simpl.
  assert (filter_ignored_results (set_ignore_errors (pipe_of entries)) resp = kept entries resp) as ->
    by (rewrite <- filter_ignored_kept by done; done).
  unfold into_redis_error.
  rewrite (try_map_total _ (fun v => match v with ServerErr e => Err (redis_error_of_server e)
    | _ => Ok v end)); [done|].
  apply Forall_true. intros v. by destruct v.
Qed.

(** ** Witnesses *)

Definition sample_entries : list (Cmd * bool) :=
  [(cmd "FOO", false); (cmd "BAR", true); (cmd "BAZ", false)].

Lemma packed_pipeline_stream_witness :
  parse_stream (C:=combine_ref) (get_packed_pipeline (atomic (pipe_of sample_entries))) =
  ([Array [BulkString (bs "MULTI")]; Array [BulkString (bs "FOO")]; Array [BulkString (bs "BAR")];
    Array [BulkString (bs "BAZ")]; Array [BulkString (bs "EXEC")]], Ok []).
Proof.
  rewrite (packed_pipeline_stream (C:=combine_ref) (CL:=combine_ref_laws)).
  - vm_compute. reflexivity.
  - repeat constructor; vm_compute; congruence.
Defined.

Lemma compose_response_correct_witness :
  compose_response (frv_vec frv_value) (pipe_of sample_entries) [Int 1; Int 2; Okay] =
  Ok [Int 1; Okay].
Proof.
  rewrite (proj2 (compose_response_correct (frv_vec frv_value) sample_entries [Int 1; Int 2; Okay] eq_refl)).
  vm_compute. reflexivity.
Defined.

Lemma ignore_errors_keeps_all_witness :
  let e := Repr_Known CrossSlot None in
  compose_response (frv_vec (frv_result frv_value)) (set_ignore_errors (pipe_of sample_entries))
    [ServerErr e; Int 2; Okay] = Ok [Err (redis_error_of_server e); Ok Okay].
Proof. intros e. rewrite ignore_errors_keeps_all by reflexivity. reflexivity. Defined.
