(* ===== verification/Slots.v ===== *)
(** * Cluster slots and read routing

    [cluster_handling/slot_range_map.rs], [slot_map.rs], [topology.rs],
    [read_routing/] and the node addresses of [cluster_handling/mod.rs].

    A [BTreeMap] is an association list kept in key order.  [Arc<Shard>] and
    [Arc<AtomicUsize>] are compared and shared by identity: shards and counters
    are indices into a list.  The random choice of a replica is a parameter
    ([Rand]) of which only that it picks an element is known. *)

From S2P Require Import Prelude Text Float64 Errors Types.
Local Open Scope Z_scope.

(** ** Node addresses *)

Record NodeAddress := { host : bytes; port : Z }.

#[export] Instance NodeAddress_eq_dec : EqDecision NodeAddress.
Proof. solve_decision. Defined.

Definition NodeAddress_new (h : bytes) (p : Z) : NodeAddress := {| host := h; port := p |}.

(** [Display for NodeAddress]. *)
Definition NodeAddress_display (a : NodeAddress) : bytes := host a ++ COLON :: itoa (port a).

Definition LBRACKET : byte := x5b.
Definition RBRACKET : byte := x5d.

(** [str::trim_start_matches(c)], [str::trim_end_matches(c)]. *)
Fixpoint trim_start_matches (c : byte) (s : bytes) : bytes :=
  match s with
  | [] => []
  | b :: r => if bool_decide (b = c) then trim_start_matches c r else s
  end.
Definition trim_end_matches (c : byte) (s : bytes) : bytes :=
  reverse (trim_start_matches c (reverse s)).

Definition split_node_address (node : bytes) : result RedisError (bytes * Z) :=
  ok_or
    ('(host, port) ← rsplit_once COLON node;
     let h := trim_end_matches RBRACKET (trim_start_matches LBRACKET host) in
     if bool_decide (h = []) then None
     else p ← parse_int u16_ty port; Some (h, p))
    (redis_error_of InvalidClientConfig "Invalid node string").

(** [TryFrom<&str> for NodeAddress]. *)
Definition NodeAddress_try_from (s : bytes) : result RedisError NodeAddress :=
  '(host, port) ← split_node_address s; Ok (NodeAddress_new host port).

(** [PartialEq<str> for NodeAddress]. *)
Definition NodeAddress_eq_str (a : NodeAddress) (other : bytes) : bool :=
  match NodeAddress_try_from other with
  | Ok parsed => bool_decide (a = parsed)
  | Err _ => false
  end.

(** ** SlotRangeMap *)

(** [BTreeMap::insert]: replaces the value of an equal key. *)
Fixpoint btree_insert {V} (k : Z) (v : V) (l : list (Z * V)) : list (Z * V) :=
  match l with
  | [] => [(k, v)]
  | (k', v') :: l' =>
      if k <? k' then (k, v) :: l
      else if k =? k' then (k, v) :: l'
      else (k', v') :: btree_insert k v l'
  end.

(** [BTreeMap::range(lo..).next()]. *)
Fixpoint btree_first_from {V} (lo : Z) (l : list (Z * V)) : option (Z * V) :=
  match l with
  | [] => None
  | (k, v) :: l => if lo <=? k then Some (k, v) else btree_first_from lo l
  end.

(** end to (start, value) *)
Record SlotRangeMap (V : Type) := { inner : list (Z * (Z * V)) }.
Arguments inner {V}.

Section SlotRangeMap.
Context {V : Type}.

Definition SlotRangeMap_new : SlotRangeMap V := {| inner := [] |}.
Definition srm_insert (m : SlotRangeMap V) (start end_ : Z) (value : V) : SlotRangeMap V :=
  {| inner := btree_insert end_ (start, value) (inner m) |}.
Definition srm_get (m : SlotRangeMap V) (slot : Z) : option V :=
  '(_, (start, v)) ← btree_first_from slot (inner m);
  if start <=? slot then Some v else None.
Definition srm_values (m : SlotRangeMap V) : list V := map (fun e => e.2.2) (inner m).
Definition srm_iter (m : SlotRangeMap V) : list (Z * Z * V) :=
  map (fun '(end_, (start, v)) => (start, end_, v)) (inner m).
Definition srm_clear (m : SlotRangeMap V) : SlotRangeMap V := SlotRangeMap_new.
End SlotRangeMap.

(** ** SlotMap *)

Definition SLOT_SIZE : Z := 16384.

Record SlotRange := {
  start : Z; end_ : Z; master : NodeAddress; range_replicas : list NodeAddress
}.

Record SlotAddrs := { primary : NodeAddress; replicas : list NodeAddress }.

Definition SlotAddrs_from_slot (slot : SlotRange) : SlotAddrs :=
  {| primary := master slot; replicas := range_replicas slot |}.

(** [IntoIterator for &SlotAddrs]. *)
Definition SlotAddrs_into_iter (a : SlotAddrs) : list NodeAddress := primary a :: replicas a.

(** [routing.rs]: which node of a shard a route wants, and a route. *)
Inductive SlotAddr := Master | ReplicaOptional | ReplicaRequired.

#[export] Instance SlotAddr_eq_dec : EqDecision SlotAddr.
Proof. solve_decision. Defined.

Record Route := { route_slot : Z; route_slot_addr : SlotAddr }.

#[export] Instance Route_eq_dec : EqDecision Route.
Proof. solve_decision. Defined.

(** [read_routing/interface.rs]: what a strategy may choose from. [Replicas] is
    a non-empty slice. *)
Inductive ReadCandidates :=
| AnyNode (slot : Z) (primary : NodeAddress) (replicas : list NodeAddress)
| ReplicasOnly (slot : Z) (replicas : list NodeAddress).

Definition candidates_slot (c : ReadCandidates) : Z :=
  match c with AnyNode slot _ _ => slot | ReplicasOnly slot _ => slot end.
Definition candidates_replicas (c : ReadCandidates) : list NodeAddress :=
  match c with AnyNode _ _ r => r | ReplicasOnly _ r => r end.
Definition candidate_nodes (c : ReadCandidates) : list NodeAddress :=
  match c with AnyNode _ p r => p :: r | ReplicasOnly _ r => r end.

(** [Replicas::new]. *)
Definition Replicas_new (slice : list NodeAddress) : option (list NodeAddress) :=
  match slice with [] => None | _ => Some slice end.

(** The random number generator: [IndexedRandom::choose]. *)
Class Rand := {
  rng : Type;
  choose : forall {A}, list A -> rng -> option A * rng;
  choose_elem : forall {A} (l : list A) g a g', choose l g = (Some a, g') -> a ∈ l;
  choose_some : forall {A} (l : list A) g, l <> [] -> exists a g', choose l g = (Some a, g')
}.

(** The accessors of [Replicas]; [None] is the panic of [expect] or of an index out
    of range. *)
Definition Replicas_len (inner : list NodeAddress) : option Z :=
  if (length inner =? 0)%nat then None else Some (Z.of_nat (length inner)).
Definition Replicas_first (inner : list NodeAddress) : option NodeAddress := inner !! 0%nat.
Definition Replicas_get (inner : list NodeAddress) (idx : nat) : option NodeAddress := inner !! idx.
Definition Replicas_choose_random `{Rand} (inner : list NodeAddress) (g : rng) : option NodeAddress * rng :=
  choose inner g.

Record Shard := {
  slot_ranges : list (Z * Z); shard_primary : NodeAddress; shard_replicas : list NodeAddress
}.

(** The shards, and for every range the index of its shard. *)
Record ClusterTopology := { shard_list : list Shard; shard_slots : SlotRangeMap nat }.

(** [ReadRoutingStrategy]: the state of a strategy and of the generator. *)
Class ReadRoutingStrategy `{Rand} (S : Type) := {
  strategy_topology_changed : ClusterTopology -> S -> S;
  route_read : ReadCandidates -> S -> rng -> option NodeAddress * S * rng
}.

(** The contract of [route_read]: one of the addresses provided. *)
Class ReadRoutingStrategyLaws `{Rand} (S : Type) `{!ReadRoutingStrategy S} := {
  route_read_candidate c s g : candidates_replicas c <> [] ->
    exists a s' g', route_read c s g = (Some a, s', g') /\ a ∈ candidate_nodes c
}.

Record SlotMap := { slots : SlotRangeMap SlotAddrs }.

Definition fill_slots (m : SlotMap) (l : list SlotRange) : SlotMap :=
  {| slots := foldl (fun m slot => srm_insert m (start slot) (end_ slot) (SlotAddrs_from_slot slot))
                (slots m) l |}.
Definition SlotMap_new : SlotMap := {| slots := SlotRangeMap_new |}.
Definition from_slots (l : list SlotRange) : SlotMap := fill_slots SlotMap_new l.
Definition SlotMap_clear (m : SlotMap) : SlotMap := {| slots := srm_clear (slots m) |}.
Definition SlotMap_values (m : SlotMap) : list SlotAddrs := srm_values (slots m).

Section lookup.
Context `{R : Rand} {S : Type} `{!ReadRoutingStrategy S}.

(** [SlotAddrs::slot_addr]; [None] is a panic of an [expect]. *)
Definition slot_addr (a : SlotAddrs) (slot : Z) (sa : SlotAddr) (strategy : option S) (g : rng)
    : option NodeAddress * option S * rng :=
  match strategy with
  | None =>
      match sa with
      | Master | ReplicaOptional => (Some (primary a), None, g)
      | ReplicaRequired =>
          match Replicas_new (replicas a) with
          | Some replicas => let '(n, g) := choose replicas g in (n, None, g)
          | None => (Some (primary a), None, g)
          end
      end
  | Some s =>
      match Replicas_new (replicas a) with
      | Some replicas =>
          match sa with
          | Master => (Some (primary a), Some s, g)
          | ReplicaOptional =>
              let '(n, s, g) := route_read (AnyNode slot (primary a) replicas) s g in (n, Some s, g)
          | ReplicaRequired =>
              let '(n, s, g) := route_read (ReplicasOnly slot replicas) s g in (n, Some s, g)
          end
      | None => (Some (primary a), Some s, g)
      end
  end.

(** [None] when no range covers the slot. *)
Definition slot_addr_for_route (m : SlotMap) (route : Route) (strategy : option S) (g : rng)
    : option (option NodeAddress * option S * rng) :=
  let slot := route_slot route in
  (fun addrs => slot_addr addrs slot (route_slot_addr route) strategy g) <$> srm_get (slots m) slot.
End lookup.

Definition shard_fallback_addrs (m : SlotMap) (route : Route) : list NodeAddress :=
  match srm_get (slots m) (route_slot route) with
  | None => []
  | Some addrs =>
      match route_slot_addr route with
      | Master => []
      | ReplicaOptional => replicas addrs ++ [primary addrs]
      | ReplicaRequired => replicas addrs
      end
  end.

(** [all_unique_addresses]: the elements of the set, once each. *)
Definition all_unique_addresses (m : SlotMap) (only_primaries : bool) : list NodeAddress :=
  remove_dups (if only_primaries then map primary (SlotMap_values m)
               else concat (map SlotAddrs_into_iter (SlotMap_values m))).
Definition addresses_for_all_primaries (m : SlotMap) : list NodeAddress := all_unique_addresses m true.
Definition addresses_for_all_nodes (m : SlotMap) : list NodeAddress := all_unique_addresses m false.

(** ** Topology *)

(** Insert all the ranges of a shard with one value. *)
Definition insert_ranges {V} (m : SlotRangeMap V) (ranges : list (Z * Z)) (v : V) : SlotRangeMap V :=
  foldl (fun m '(start, end_) => srm_insert m start end_ v) m ranges.

(** One shard after the other, each with its own value. *)
Definition insert_shards {V} (f : nat -> V) (m : SlotRangeMap V) (shards : list Shard)
    : SlotRangeMap V :=
  (foldl (fun '(m, i) shard => (insert_ranges m (slot_ranges shard) (f i), S i)) (m, O) shards).1.

Definition from_shards (shards : list Shard) : ClusterTopology :=
  {| shard_list := shards; shard_slots := insert_shards id SlotRangeMap_new shards |}.

Definition shard_for_slot (t : ClusterTopology) (slot : Z) : option Shard :=
  i ← srm_get (shard_slots t) slot; shard_list t !! i.

(** [ClusterTopology::shards]: each shard once, in the order of its first range. *)
Definition shards (t : ClusterTopology) : list Shard :=
  omap (fun i => shard_list t !! i) (reverse (remove_dups (reverse (srm_values (shard_slots t))))).

(** [SlotMap::topology]: ranges grouped by primary; a shard keeps the replicas
    of its first range. *)
Definition add_range (builders : list Shard) (r : Z * Z * SlotAddrs) : list Shard :=
  let '(start, end_, addrs) := r in
  match list_find (fun b => shard_primary b = primary addrs) builders with
  | Some (i, b) =>
      <[i := {| slot_ranges := slot_ranges b ++ [(start, end_)];
                shard_primary := shard_primary b; shard_replicas := shard_replicas b |}]> builders
  | None => builders ++ [{| slot_ranges := [(start, end_)]; shard_primary := primary addrs;
                            shard_replicas := replicas addrs |}]
  end.

Definition topology (m : SlotMap) : ClusterTopology :=
  from_shards (foldl add_range [] (srm_iter (slots m))).

(** ** Built-in strategies *)

(** [RandomReplicaStrategy]. *)
Definition RandomReplicaStrategy : Type := unit.

Definition random_replica_route `{Rand} (c : ReadCandidates) (s : RandomReplicaStrategy) (g : rng)
    : option NodeAddress * RandomReplicaStrategy * rng :=
  let '(n, g) := choose (candidates_replicas c) g in (n, s, g).

#[export] Instance RandomReplica `{Rand} : ReadRoutingStrategy RandomReplicaStrategy := {|
  strategy_topology_changed _ s := s; (* the default method *)
  route_read := random_replica_route
|}.

(** [RoundRobinReplicaStrategy]: the counters, and for every range the index of
    the counter of its shard. *)
Record RoundRobinReplicaStrategy := { counters : list Z; counter_slots : SlotRangeMap nat }.

Definition RoundRobin_default : RoundRobinReplicaStrategy :=
  {| counters := []; counter_slots := SlotRangeMap_new |}.

Definition on_topology_changed (s : RoundRobinReplicaStrategy) (t : ClusterTopology)
    : RoundRobinReplicaStrategy :=
  {| counters := replicate (length (shards t)) 0;
     counter_slots := insert_shards id SlotRangeMap_new (shards t) |}.

(** [counter.fetch_add(1)]: the old value; the counter wraps around. *)
Definition fetch_add (counters : list Z) (i : nat) : Z * list Z :=
  let old := default 0 (counters !! i) in (old, <[i := as_usize (old + 1)]> counters).

Definition round_robin_route (c : ReadCandidates) (s : RoundRobinReplicaStrategy)
    : option NodeAddress * RoundRobinReplicaStrategy :=
  let '(idx, s) :=
    match srm_get (counter_slots s) (candidates_slot c) with
    | Some i => let '(idx, l) := fetch_add (counters s) i in
                (idx, {| counters := l; counter_slots := counter_slots s |})
    | None => (0, s)
    end in
  let replicas := candidates_replicas c in
  (replicas !! Z.to_nat (idx mod Z.of_nat (length replicas)), s).

#[export] Instance RoundRobin `{Rand} : ReadRoutingStrategy RoundRobinReplicaStrategy := {|
  strategy_topology_changed t s := on_topology_changed s t;
  route_read c s g := let '(n, s) := round_robin_route c s in (n, s, g)
|}.

(** ** CLUSTER SLOTS: [topology.rs] *)

(** [connection.rs]. *)
Definition is_wildcard_address (address : bytes) : bool :=
  one_of address ["0.0.0.0"; "::"].

(** [try_to_address]; host names are interned in the source, which does not
    change the address. *)
Definition try_to_address (addr_of_answering_node : bytes) (node : Value) : option NodeAddress :=
  match node with
  | Array (n0 :: n1 :: _) =>
      hostname ←
        match n0 with
        | BulkString ip =>
            let hostname := from_utf8_lossy ip in
            if bool_decide (hostname = []) || is_wildcard_address hostname
            then Some addr_of_answering_node
            else if bytes_eqb hostname (bs "?") then None
            else Some hostname
        | Nil => Some addr_of_answering_node
        | _ => None
        end;
      if bool_decide (hostname = []) then None
      else match n1 with
           | Int port => Some (NodeAddress_new hostname (as_u16 port))
           | _ => None
           end
  | _ => None
  end.

(** The first usable node is the primary; what follows it are the replicas. *)
Fixpoint find_primary (addr : bytes) (nodes : list Value) : option (NodeAddress * list Value) :=
  match nodes with
  | [] => None
  | node :: nodes =>
      match try_to_address addr node with
      | Some p => Some (p, nodes)
      | None => find_primary addr nodes
      end
  end.

Definition parse_slot_item (addr : bytes) (item : list Value) : option SlotRange :=
  match item with
  | Int start :: Int end_ :: (_ :: _) as nodes =>
      '(primary, rest) ← find_primary addr (drop 2 item);
      Some {| start := as_u16 start; end_ := as_u16 end_; master := primary;
              range_replicas := omap (try_to_address addr) rest |}
  | _ => None
  end.

(** The [while let Some(Value::Array(item)) = iter.next()] loop: it ends at the
    first element that is not an array. *)
Fixpoint parse_slots_loop (addr : bytes) (items : list Value) : list SlotRange :=
  match items with
  | Array item :: items =>
      match parse_slot_item addr item with
      | Some r => r :: parse_slots_loop addr items
      | None => parse_slots_loop addr items
      end
  | _ => []
  end.

Definition parse_slots (raw_slot_resp : Value) (addr_of_answering_node : bytes)
    : result RedisError (list SlotRange) :=
  match raw_slot_resp with
  | Array items => Ok (parse_slots_loop addr_of_answering_node items)
  | _ => Ok []
  end.

(** ** Ordered maps *)

Definition sorted_keys {V} (l : list (Z * V)) : Prop := StronglySorted Z.lt (map fst l).

Lemma sorted_cons {V} k (v : V) l :
  sorted_keys ((k, v) :: l) <-> Forall (fun e => k < e.1) l /\ sorted_keys l.
Proof.
  unfold sorted_keys. simpl. split.
  - intros [Hs Hf]%StronglySorted_inv. split; [|done]. by rewrite Forall_map in Hf.
  - intros [Hf Hs]. constructor; [done|]. by apply Forall_map.
Qed.

Lemma btree_insert_elem {V} k (v : V) l e : sorted_keys l ->
  e ∈ btree_insert k v l <-> e = (k, v) \/ (e.1 <> k /\ e ∈ l).
Proof.
  induction l as [|[k' v'] l IH]; intros Hs; cbn [btree_insert]; [set_solver|].
  apply sorted_cons in Hs as [Hf Hs]. rewrite Forall_forall in Hf.
  repeat case_match; bool_to_prop.
  - rewrite elem_of_cons. split; [|naive_solver]. intros [->|He]; [by left|right]. split; [|done].
    apply elem_of_cons in He as [->|He%Hf]; simpl in *; lia.
  - subst. rewrite !elem_of_cons. split; [|naive_solver].
    intros [->|He]; [by left|right]. pose proof (Hf _ He). split; [lia|by right].
  - rewrite !elem_of_cons, IH by done. split; [|naive_solver].
    intros [->|[->|[? ?]]]; [right; simpl; split; [lia|by left]|by left|naive_solver].
Qed.

Lemma btree_insert_sorted {V} k (v : V) l : sorted_keys l -> sorted_keys (btree_insert k v l).
Proof.
  induction l as [|[k' v'] l IH]; intros Hs; cbn [btree_insert]; [by apply sorted_cons|].
  pose proof Hs as Hs'. apply sorted_cons in Hs as [Hf Hs].
  repeat case_match; bool_to_prop; apply sorted_cons; split; try done.
  - constructor; [done|]. eapply Forall_impl; [exact Hf|]. simpl. lia.
  - subst. done.
  - apply Forall_forall. intros e [->|[_ He]]%btree_insert_elem; [simpl; lia| |done].
    rewrite Forall_forall in Hf. by apply Hf.
  - by apply IH.
Qed.

(** The entry found is the one with the smallest key from [lo] on. *)
Lemma btree_first_from_spec {V} lo (l : list (Z * V)) : sorted_keys l ->
  match btree_first_from lo l with
  | Some e => e ∈ l /\ lo <= e.1 /\ forall e', e' ∈ l -> lo <= e'.1 -> e.1 <= e'.1
  | None => forall e, e ∈ l -> e.1 < lo
  end.
Proof.
  induction l as [|[k v] l IH]; intros Hs; cbn [btree_first_from]; [set_solver|].
  apply sorted_cons in Hs as [Hf Hs]. rewrite Forall_forall in Hf. destruct (lo <=? k) eqn:E; bool_to_prop.
  - split_and!; [by left|done|]. intros e' [->|He%Hf]%elem_of_cons _; simpl in *; lia.
  - specialize (IH Hs). destruct (btree_first_from lo l) as [e|].
    + destruct IH as (He & Hlo & Hmin). split_and!; [by right|done|].
      intros e' [->|He']%elem_of_cons Hl; [simpl in Hl; lia|by apply Hmin].
    + intros e' [->|He']%elem_of_cons; [done|by apply IH].
Qed.

Lemma sorted_key_unique {V} (l : list (Z * V)) k v v' : sorted_keys l ->
  (k, v) ∈ l -> (k, v') ∈ l -> v = v'.
Proof.
  induction l as [|[k0 v0] l IH]; intros Hs; [set_solver|].
  apply sorted_cons in Hs as [Hf Hs]. rewrite Forall_forall in Hf.
  intros [E|H1]%elem_of_cons [E'|H2]%elem_of_cons; simplify_eq.
  - done.
  - apply Hf in H2. simpl in H2. lia.
  - apply Hf in H1. simpl in H1. lia.
  - by eapply IH.
Qed.

(** ** Ranges *)

(** A map whose ranges are well formed and do not overlap. *)
Record srm_ok {V} (m : SlotRangeMap V) : Prop := {
  srm_sorted : sorted_keys (inner m);
  srm_le e s v : (e, (s, v)) ∈ inner m -> s <= e;
  srm_disjoint e s v e' s' v' : (e, (s, v)) ∈ inner m -> (e', (s', v')) ∈ inner m ->
    e <> e' -> e < s' \/ e' < s
}.

(** A slot is looked up in the range that contains it. *)
Lemma srm_get_spec {V} (m : SlotRangeMap V) slot v : srm_ok m ->
  srm_get m slot = Some v <-> exists s e, (e, (s, v)) ∈ inner m /\ s <= slot <= e.
Proof.
  intros [Hs Hle Hd]. unfold srm_get. pose proof (btree_first_from_spec slot _ Hs) as Hf.
  destruct (btree_first_from slot (inner m)) as [[e [s w]]|]; simpl in *.
  - destruct Hf as (He & Hslot & Hmin). split.
    + case_match; [|done]. bool_to_prop. intros [= <-]. eauto.
    + intros (s' & e' & He' & Hin). pose proof (Hmin _ He' ltac:(simpl; lia)) as Hm. simpl in Hm.
      destruct (decide (e = e')) as [<-|Hne].
      * pose proof (sorted_key_unique _ _ _ _ Hs He He'). simplify_eq.
        by rewrite (proj2 (Z.leb_le _ _)) by lia.
      * pose proof (Hle _ _ _ He). destruct (Hd _ _ _ _ _ _ He He' Hne); lia.
  - split; [done|]. intros (s' & e' & He' & Hin). apply Hf in He'. simpl in He'. lia.
Qed.

(** Ranges given as triples, pairwise apart. *)
Definition range_apart (r r' : Z * Z) : Prop := r.2 < r'.1 \/ r'.2 < r.1.
Fixpoint no_overlap (l : list (Z * Z)) : Prop :=
  match l with
  | [] => True
  | r :: l => r.1 <= r.2 /\ Forall (range_apart r) l /\ no_overlap l
  end.

Definition insert_all {V} (m : SlotRangeMap V) (l : list (Z * Z * V)) : SlotRangeMap V :=
  foldl (fun m '(s, e, v) => srm_insert m s e v) m l.

Lemma insert_all_sorted {V} (l : list (Z * Z * V)) m :
  sorted_keys (inner m) -> sorted_keys (inner (insert_all m l)).
Proof.
  revert m. induction l as [|[[s e] v] l IH]; intros m Hm; simpl; [done|].
  apply IH. by apply btree_insert_sorted.
Qed.

Lemma insert_all_elem {V} (l : list (Z * Z * V)) m x :
  sorted_keys (inner m) -> NoDup (map (fun r => r.1.2) l) ->
  (forall r, r ∈ l -> forall x, x ∈ inner m -> x.1 <> r.1.2) ->
  x ∈ inner (insert_all m l) <-> x ∈ inner m \/ exists r, r ∈ l /\ x = (r.1.2, (r.1.1, r.2)).
Proof.
  revert m. induction l as [|[[s e] v] l IH]; intros m Hm Hnd Hni; simpl in *; [set_solver|].
  apply NoDup_cons in Hnd as [Hne Hnd]. rewrite IH.
  - simpl. rewrite btree_insert_elem by done. split.
    + intros [[->|[? ?]]|(r & Hr & ->)]; [right|by left|right].
      * exists (s, e, v). split; [by left|done].
      * exists r. split; [by right|done].
    + intros [Hx|(r & [->|Hr]%elem_of_cons & ->)].
      * left. right. split; [|done]. apply (Hni (s, e, v)); [by left|done].
      * left. by left.
      * right. eauto.
  - by apply btree_insert_sorted.
  - done.
  - intros r Hr y Hy. simpl in Hy. apply btree_insert_elem in Hy as [->|[_ Hy]]; [|by eapply Hni; [right|]|done].
    simpl. intros ->. apply Hne. apply list_elem_of_fmap. by exists r.
Qed.

Lemma no_overlap_ends l : no_overlap l -> NoDup (map snd l).
Proof.
  induction l as [|[s e] l IH]; simpl; [constructor|]. intros (Hle & Hf & Hl).
  constructor; [|by apply IH]. intros (r & Hr & Hin)%list_elem_of_fmap. simpl in *. subst.
  rewrite Forall_forall in Hf. specialize (Hf r Hin). unfold range_apart in Hf. simpl in Hf.
  assert (r.1 <= r.2); [|lia]. clear -Hl Hin. induction l as [|r' l IHl]; [set_solver|].
  simpl in Hl. apply elem_of_cons in Hin as [->|Hin]; naive_solver.
Qed.

Lemma no_overlap_elem l r : no_overlap l -> r ∈ l -> r.1 <= r.2.
Proof. induction l; simpl; [set_solver|]. intros (? & ? & ?) [->|?]%elem_of_cons; auto. Qed.

Lemma no_overlap_apart l r r' : no_overlap l -> r ∈ l -> r' ∈ l -> r.2 <> r'.2 -> range_apart r r'.
Proof.
  induction l as [|x l IH]; simpl; [set_solver|]. intros (? & Hf & ?). rewrite Forall_forall in Hf.
  intros [->|H1]%elem_of_cons [->|H2]%elem_of_cons Hne; [done|auto| |auto].
  destruct (Hf r H1); [by right|by left].
Qed.

Lemma insert_all_ok {V} (l : list (Z * Z * V)) : no_overlap (map fst l) ->
  srm_ok (insert_all SlotRangeMap_new l) /\
  forall x, x ∈ inner (insert_all SlotRangeMap_new l) <-> exists r, r ∈ l /\ x = (r.1.2, (r.1.1, r.2)).
Proof.
  intros Hl. assert (forall x, x ∈ inner (insert_all SlotRangeMap_new l) <->
    exists r, r ∈ l /\ x = (r.1.2, (r.1.1, r.2))) as Hx.
  { intros x. rewrite insert_all_elem; [|constructor| |set_solver].
    - split; [intros [?|?]; [set_solver|done]|by right].
    - apply no_overlap_ends in Hl. by rewrite map_map in Hl. }
  split; [|done]. split.
  - apply insert_all_sorted. constructor.
  - intros e s v (r & Hr & ?)%Hx. simplify_eq.
    apply (no_overlap_elem _ r.1 Hl). apply list_elem_of_fmap. eauto.
  - intros e s v e' s' v' (r & Hr & ?)%Hx (r' & Hr' & ?)%Hx Hne. simplify_eq.
    apply (no_overlap_apart _ r.1 r'.1 Hl); [apply list_elem_of_fmap; eauto..|done].
Qed.

#[export] Instance no_overlap_dec l : Decision (no_overlap l).
Proof. induction l as [|r l IH]; simpl; [|unfold range_apart]; apply _. Defined.

Lemma range_apart_sym r r' : range_apart r r' -> range_apart r' r.
Proof. unfold range_apart. lia. Qed.

#[export] Instance no_overlap_proper : Proper ((≡ₚ) ==> iff) no_overlap.
Proof.
  assert (forall l l', l ≡ₚ l' -> no_overlap l -> no_overlap l') as H.
  { induction 1 as [|r l l' Hp IH|r r' l|]; simpl; [done| | |by auto].
    - intros (? & Hf & ?). split_and!; [done| |by apply IH]. by rewrite <- Hp.
    - intros (? & (Hr & Hf)%Forall_cons & ? & Hf' & ?).
      split_and!; [done| |done|done|done]. constructor; [by apply range_apart_sym|done]. }
  intros l l' Hp. split; apply H; [done|by symmetry].
Qed.

(** ** The slot map *)

Definition range_of (r : SlotRange) : Z * Z := (start r, end_ r).

Lemma from_slots_insert_all l :
  slots (from_slots l) =
  insert_all SlotRangeMap_new (map (fun r => (start r, end_ r, SlotAddrs_from_slot r)) l).
Proof.
  unfold from_slots, fill_slots, insert_all. simpl. generalize (@SlotRangeMap_new SlotAddrs).
  induction l as [|r l IH]; intros m; simpl; [done|]. apply IH.
Qed.

Lemma from_slots_ok l : no_overlap (map range_of l) ->
  srm_ok (slots (from_slots l)) /\
  forall s e a, (e, (s, a)) ∈ inner (slots (from_slots l)) <->
    exists r, r ∈ l /\ s = start r /\ e = end_ r /\ a = SlotAddrs_from_slot r.
Proof.
  intros Hl. rewrite from_slots_insert_all.
  destruct (insert_all_ok (map (fun r => (start r, end_ r, SlotAddrs_from_slot r)) l)) as [Hok Hx].
  { by rewrite map_map. }
  split; [done|]. intros s e a. rewrite Hx. split.
  - intros (t & (r & -> & Hr)%list_elem_of_fmap & [= -> -> ->]). eauto.
  - intros (r & Hr & -> & -> & ->). eexists. split; [by apply list_elem_of_fmap_2|done].
Qed.

Lemma from_slots_get l slot a : no_overlap (map range_of l) ->
  srm_get (slots (from_slots l)) slot = Some a <->
  exists r, r ∈ l /\ start r <= slot <= end_ r /\ a = SlotAddrs_from_slot r.
Proof.
  intros [Hok Hx]%from_slots_ok. rewrite srm_get_spec by done. split.
  - intros (s & e & (r & Hr & -> & -> & ->)%Hx & Hin). eauto.
  - intros (r & Hr & Hin & ->). exists (start r), (end_ r). split; [|done]. apply Hx. eauto.
Qed.

(** ** Strategies *)

#[export] Instance RandomReplica_laws `{Rand} : ReadRoutingStrategyLaws RandomReplicaStrategy.
Proof.
  split. intros c s g Hne. destruct (choose_some _ g Hne) as (a & g' & E).
  exists a, s, g'. simpl. unfold random_replica_route. rewrite E. split; [done|]. apply choose_elem in E.
  destruct c; simpl in *; set_solver.
Qed.

(** Replicas are never empty, so that none of their accessors panics, and what they
    give is one of the replicas. *)
Lemma Replicas_total `{Rand} slice inner g : Replicas_new slice = Some inner ->
  inner = slice /\ Replicas_len inner = Some (Z.of_nat (length slice)) /\ 0 < Z.of_nat (length slice) /\
  (exists a, Replicas_first inner = Some a /\ Replicas_get inner 0 = Some a /\ a ∈ slice) /\
  (forall idx, is_Some (Replicas_get inner idx) <-> (idx < length slice)%nat) /\
  (exists a g', Replicas_choose_random inner g = (Some a, g') /\ a ∈ slice).
Proof.
  destruct slice as [|x slice]; [done|]. intros [= <-]. split_and!; [done|done|simpl; lia| | |].
  - exists x. split_and!; [done|done|left].
  - intros idx. apply lookup_lt_is_Some.
  - destruct (choose_some (x :: slice) g) as (a & g' & E); [done|]. exists a, g'.
    split; [done|by eapply choose_elem].
Qed.

Lemma round_robin_in_bounds c s : candidates_replicas c <> [] ->
  exists a s', round_robin_route c s = (Some a, s') /\ a ∈ candidates_replicas c.
Proof.
  intros Hne. unfold round_robin_route.
  match goal with |- context [let '(_, _) := ?x in _] => destruct x as [idx s'] end.
  assert (0 < Z.of_nat (length (candidates_replicas c))) as Hlen
    by (destruct (candidates_replicas c); simpl; [done|lia]).
  pose proof (Z.mod_pos_bound idx _ Hlen).
  destruct (lookup_lt_is_Some_2 (candidates_replicas c)
    (Z.to_nat (idx mod Z.of_nat (length (candidates_replicas c))))) as [a Ha]; [lia|].
  exists a, s'. rewrite Ha. split; [done|]. by eapply list_elem_of_lookup_2.
Qed.

#[export] Instance RoundRobin_laws `{Rand} : ReadRoutingStrategyLaws RoundRobinReplicaStrategy.
Proof.
  split. intros c s g Hne. destruct (round_robin_in_bounds c s Hne) as (a & s' & E & Ha).
  exists a, s', g. simpl. rewrite E. split; [done|]. destruct c; simpl in *; set_solver.
Qed.

(** ** One value per shard *)

Definition shard_ranges {V} (f : nat -> V) (k : nat) (l : list Shard) : list (Z * Z * V) :=
  concat (imap (fun i sh => map (fun r => (r.1, r.2, f (k + i)%nat)) (slot_ranges sh)) l).

Lemma insert_ranges_all {V} m ranges (v : V) :
  insert_ranges m ranges v = insert_all m (map (fun r => (r.1, r.2, v)) ranges).
Proof.
  unfold insert_ranges, insert_all. revert m.
  induction ranges as [|[s e] ranges IH]; intros m; simpl; [done|]. apply IH.
Qed.

Lemma insert_all_app {V} m (l1 l2 : list (Z * Z * V)) :
  insert_all m (l1 ++ l2) = insert_all (insert_all m l1) l2.
Proof. apply foldl_app. Qed.

Lemma insert_shards_all {V} (f : nat -> V) l m :
  insert_shards f m l = insert_all m (shard_ranges f 0 l).
Proof.
  unfold insert_shards. generalize O. revert m.
  induction l as [|sh l IH]; intros m k; [done|]. simpl. rewrite IH. unfold shard_ranges. simpl.
  rewrite insert_all_app, insert_ranges_all, Nat.add_0_r. do 2 f_equal.
  apply imap_ext. intros i x _. simpl. apply map_ext. intros r. do 2 f_equal. lia.
Qed.

Lemma shard_ranges_fst {V} (f : nat -> V) k l :
  map fst (shard_ranges f k l) = concat (map slot_ranges l).
Proof.
  unfold shard_ranges. rewrite concat_map. f_equal. revert k.
  induction l as [|sh l IH]; intros k; simpl; [done|]. rewrite map_map. simpl. f_equal.
  - rewrite <- (map_id (slot_ranges sh)) at 2. apply map_ext. by intros [].
  - rewrite <- (IH (S k)). f_equal. apply imap_ext. intros i x _. simpl.
    apply map_ext. intros r. do 2 f_equal. lia.
Qed.

(** The slots of a shard. *)
Definition in_shard (sh : Shard) (slot : Z) : bool :=
  existsb (fun r => (r.1 <=? slot) && (slot <=? r.2)) (slot_ranges sh).

Lemma in_shard_spec sh slot :
  in_shard sh slot = true <-> exists r, r ∈ slot_ranges sh /\ r.1 <= slot <= r.2.
Proof.
  unfold in_shard. rewrite existsb_exists. split; intros (r & Hr & H); exists r;
    (split; [by apply list_elem_of_In|]); rewrite andb_true_iff, !Z.leb_le in *; lia.
Qed.

Lemma insert_shards_get {V} (f : nat -> V) l slot v :
  no_overlap (concat (map slot_ranges l)) ->
  srm_get (insert_shards f SlotRangeMap_new l) slot = Some v <->
  exists i sh, l !! i = Some sh /\ in_shard sh slot = true /\ v = f i.
Proof.
  intros Hl. rewrite insert_shards_all. destruct (insert_all_ok (shard_ranges f 0 l)) as [Hok Hx].
  { by rewrite shard_ranges_fst. }
  rewrite srm_get_spec by done. setoid_rewrite Hx. setoid_rewrite in_shard_spec.
  unfold shard_ranges. split.
  - intros (s & e & (t & (y & Ht & (i & sh & -> & Hi)%elem_of_lookup_imap)%elem_of_concat & [= -> -> ->]) & Hin).
    apply list_elem_of_fmap in Ht as (r & -> & Hr). simpl in *. eauto 10.
  - intros (i & sh & Hi & (r & Hr & Hin) & ->). exists r.1, r.2. split; [|done].
    exists (r.1, r.2, f i). split; [|done]. apply elem_of_concat.
    exists (map (fun r => (r.1, r.2, f i)) (slot_ranges sh)). split.
    + apply list_elem_of_fmap. by exists r.
    + apply elem_of_lookup_imap. eauto.
Qed.

(** ** Grouping ranges into shards *)

(** Every range is in the shard of its primary, and nothing else is. *)
Record grouped (bs : list Shard) (l : list (Z * Z * SlotAddrs)) : Prop := {
  grouped_perm : concat (map slot_ranges bs) ≡ₚ map fst l;
  grouped_primary b r : b ∈ bs -> r ∈ slot_ranges b ->
    exists a, (r, a) ∈ l /\ primary a = shard_primary b
}.

Lemma concat_insert_perm bs i b r rs : bs !! i = Some b ->
  concat (map slot_ranges (<[i := {| slot_ranges := slot_ranges b ++ [r];
    shard_primary := shard_primary b; shard_replicas := rs |}]> bs)) ≡ₚ
  concat (map slot_ranges bs) ++ [r].
Proof.
  intros Hi. rewrite insert_take_drop by (by eapply lookup_lt_Some).
  rewrite <- (take_drop_middle bs i b Hi) at 3. rewrite !map_app, !concat_app. simpl.
  rewrite <- !app_assoc. apply Permutation_app_head. apply Permutation_app_head.
  apply Permutation_app_comm.
Qed.

Lemma add_range_grouped bs l s e a : grouped bs l -> grouped (add_range bs (s, e, a)) (l ++ [(s, e, a)]).
Proof.
  intros [Hp Hg]. unfold add_range.
  destruct (list_find _ bs) as [[i b]|] eqn:E.
  - apply list_find_Some in E as (Hi & Hb & _). split.
    + rewrite concat_insert_perm by done. by rewrite Hp, map_app.
    + intros b' r Hb' Hr. apply elem_of_insert_inv in Hb' as [->|Hb'].
      * simpl in *. apply elem_of_app in Hr as [Hr|Hr].
        -- destruct (Hg b r) as (a' & ? & ?); [by eapply list_elem_of_lookup_2|done|].
           exists a'. split; [|done]. apply elem_of_app. by left.
        -- apply list_elem_of_singleton in Hr as ->. exists a. split; [|done].
           apply elem_of_app. right. by left.
      * destruct (Hg b' r) as (a' & ? & ?); [done..|]. exists a'. split; [|done].
        apply elem_of_app. by left.
  - split.
    + by rewrite map_app, concat_app, Hp, map_app.
    + intros b' r [Hb'|Hb']%elem_of_app Hr.
      * destruct (Hg b' r) as (a' & ? & ?); [done..|]. exists a'. split; [|done].
        apply elem_of_app. by left.
      * apply list_elem_of_singleton in Hb' as ->. simpl in *.
        apply list_elem_of_singleton in Hr as ->. exists a. split; [|done].
        apply elem_of_app. right. by left.
Qed.

Lemma fold_add_range_grouped l : grouped (foldl add_range [] l) l.
Proof.
  induction l as [|[[s e] a] l IH] using rev_ind; [split; simpl; [done|set_solver]|].
  rewrite foldl_app. by apply add_range_grouped.
Qed.

Lemma srm_iter_elem {V} (m : SlotRangeMap V) s e v :
  (s, e, v) ∈ srm_iter m <-> (e, (s, v)) ∈ inner m.
Proof.
  unfold srm_iter. rewrite list_elem_of_fmap. split.
  - intros ([e' [s' v']] & [= -> -> ->] & H). done.
  - intros H. by exists (e, (s, v)).
Qed.

Lemma sorted_no_overlap {V} (m : SlotRangeMap V) : srm_ok m -> no_overlap (map fst (srm_iter m)).
Proof.
  intros [Hs Hle Hd]. unfold srm_iter.
  assert (forall l, sorted_keys l -> (forall e, e ∈ l -> e ∈ inner m) ->
    no_overlap (map fst (map (fun '(end_, (start, v)) => (start, end_, v)) l))) as H; [|by apply H].
  induction l as [|[e [s v]] l IH]; [done|]. intros [Hf Hl]%sorted_cons Hin. simpl. split_and!.
  - eapply Hle, Hin. by left.
  - apply Forall_forall. intros r (t & -> & Ht)%list_elem_of_fmap.
    apply list_elem_of_fmap in Ht as ([e' [s' v']] & -> & He'). simpl. unfold range_apart. simpl.
    rewrite Forall_forall in Hf. pose proof (Hf _ He') as Hlt. simpl in Hlt.
    destruct (Hd e s v e' s' v'); [apply Hin; by left|apply Hin; by right|lia|by left|by right].
  - apply IH; [done|]. intros x Hx. apply Hin. by right.
Qed.

(** ** Properties *)

(** For slot ranges that do not overlap, inserted in any order, a slot is
    served by the nodes of the range that contains it, and by none if no range
    contains it. *)
Theorem slot_map_lookup (l : list SlotRange) (H : no_overlap (map range_of l)) (slot : Z) (a : SlotAddrs) :
  srm_get (slots (from_slots l)) slot = Some a <->
  exists r, r ∈ l /\ start r <= slot <= end_ r /\ a = SlotAddrs_from_slot r.
Proof. by apply from_slots_get. Qed.

(** The node an entry of the slot map answers with. *)
Lemma slot_addr_chooses `{R : Rand} {S : Type} `{RS : !ReadRoutingStrategy S}
    {L : ReadRoutingStrategyLaws S} (x : SlotAddrs) (slot : Z) (sa : SlotAddr)
    (strategy : option S) (g : rng) :
  exists node strategy' g', slot_addr x slot sa strategy g = (Some node, strategy', g') /\
    node ∈ SlotAddrs_into_iter x /\ (sa = Master -> node = primary x) /\
    (sa = ReplicaRequired -> replicas x <> [] -> node ∈ replicas x).
Proof.
  unfold slot_addr, SlotAddrs_into_iter.
  destruct strategy as [s|], (replicas x) as [|rep reps] eqn:Er, sa eqn:Ea;
    simpl; try (eexists _, _, _; split_and!; [reflexivity|set_solver|done|done]).
  - destruct (route_read_candidate (AnyNode slot (primary x) (rep :: reps)) s g)
      as (n & s' & g' & -> & Hn); [done|].
    eexists _, _, _; split_and!; [reflexivity|done|done|done].
  - destruct (route_read_candidate (ReplicasOnly slot (rep :: reps)) s g)
      as (n & s' & g' & -> & Hn); [done|].
    eexists _, _, _; split_and!; [reflexivity|simpl in Hn; set_solver|done|done].
  - destruct (choose_some (rep :: reps) g) as (n & g' & E); [done|]. rewrite E.
    apply choose_elem in E. eexists _, _, _; split_and!; [reflexivity|set_solver|done|done].
Qed.

Lemma srm_get_value {V} (m : SlotRangeMap V) slot v : srm_get m slot = Some v -> v ∈ srm_values m.
Proof.
  unfold srm_get, srm_values. induction (inner m) as [|[k [st w]] l IH]; simpl; [done|].
  destruct (slot <=? k); simpl.
  - destruct (st <=? slot); [|done]. intros [= ->]. left.
  - intros Hv. right. by apply IH.
Qed.

(** C13. A route is answered by a node of the range that owns its slot: the
    primary for [Master], a replica for [ReplicaRequired] when there is one,
    and otherwise one of the two, whatever strategy that keeps its contract is
    used; no lookup panics. *)
Theorem route_answered_by_owner `{R : Rand} {S : Type} `{RS : !ReadRoutingStrategy S}
    {L : ReadRoutingStrategyLaws S} (l : list SlotRange) (r : SlotRange) (route : Route)
    (strategy : option S) (g : rng)
    (Hl : no_overlap (map range_of l)) (Hr : r ∈ l)
    (Hs : start r <= route_slot route <= end_ r) :
  exists node strategy' g',
    slot_addr_for_route (from_slots l) route strategy g = Some (Some node, strategy', g') /\
    node ∈ master r :: range_replicas r /\
    (route_slot_addr route = Master -> node = master r) /\
    (route_slot_addr route = ReplicaRequired -> range_replicas r <> [] -> node ∈ range_replicas r).
Proof.
  unfold slot_addr_for_route.
  rewrite (proj2 (from_slots_get l (route_slot route) (SlotAddrs_from_slot r) Hl)) by eauto.
  destruct (slot_addr_chooses (SlotAddrs_from_slot r) (route_slot route) (route_slot_addr route) strategy g)
    as (n & s' & g' & E & Hn & Hm & Hr'). exists n, s', g'. simpl. by rewrite E.
Qed.

(** The topology handed to a strategy agrees with the slot map: the shard of a
    slot has the primary the slot map answers with, and a slot without a range
    has no shard. *)
Theorem topology_agrees (l : list SlotRange) (slot : Z) (H : no_overlap (map range_of l)) :
  shard_primary <$> shard_for_slot (topology (from_slots l)) slot =
  primary <$> srm_get (slots (from_slots l)) slot.
Proof.
  destruct (from_slots_ok l H) as [Hok _]. set (m := slots (from_slots l)) in *.
  pose proof (fold_add_range_grouped (srm_iter m)) as [Hp Hg].
  set (bs := foldl add_range [] (srm_iter m)) in *.
  assert (no_overlap (concat (map slot_ranges bs))) as Hno by (rewrite Hp; by apply sorted_no_overlap).
  change (shard_for_slot (topology (from_slots l)) slot) with
    (srm_get (insert_shards id SlotRangeMap_new bs) slot ≫= fun i => bs !! i).
  destruct (srm_get (insert_shards id SlotRangeMap_new bs) slot) as [i|] eqn:Ei.
  - apply insert_shards_get in Ei as (j & sh & Hj & Hin & ->); [|done]. unfold id. simpl. rewrite Hj. simpl.
    apply in_shard_spec in Hin as ([s e] & Hr & Hs). simpl in Hs.
    destruct (Hg sh (s, e)) as (a & Ha & <-); [by eapply list_elem_of_lookup_2|done|].
    apply srm_iter_elem in Ha. rewrite (proj2 (srm_get_spec m slot a Hok)) by eauto. done.
  - simpl. destruct (srm_get m slot) as [a|] eqn:Ea; [|done]. exfalso.
    apply srm_get_spec in Ea as (s & e & Ha & Hs); [|done].
    assert ((s, e) ∈ concat (map slot_ranges bs)) as Hc.
    { rewrite Hp. apply list_elem_of_fmap. exists (s, e, a). split; [done|]. by apply srm_iter_elem. }
    apply elem_of_concat in Hc as (rs & Hse & (sh & -> & Hsh)%list_elem_of_fmap).
    apply list_elem_of_lookup_1 in Hsh as [j Hj].
    assert (srm_get (insert_shards id SlotRangeMap_new bs) slot = Some j) as Hx; [|congruence].
    apply insert_shards_get; [done|]. exists j, sh. split_and!; [done| |done].
    apply in_shard_spec. by exists (s, e).
Qed.

(** ** Round robin *)

(** The state after a sequence of reads. *)
Definition after_reads (s : RoundRobinReplicaStrategy) (cs : list ReadCandidates)
    : RoundRobinReplicaStrategy :=
  foldl (fun s c => (round_robin_route c s).2) s cs.

(** How many of the reads were for a slot of the shard. *)
Definition reads_to (sh : Shard) (cs : list ReadCandidates) : nat :=
  length (List.filter (fun c => in_shard sh (candidates_slot c)) cs).

Lemma reads_to_snoc sh cs c :
  reads_to sh (cs ++ [c]) =
  (reads_to sh cs + if in_shard sh (candidates_slot c) then 1 else 0)%nat.
Proof. unfold reads_to. rewrite List.filter_app, length_app. simpl. by case_match. Qed.

Lemma reads_to_le sh cs : (reads_to sh cs <= length cs)%nat.
Proof. apply List.filter_length_le. Qed.

Lemma round_robin_step c s :
  (round_robin_route c s).2 =
  match srm_get (counter_slots s) (candidates_slot c) with
  | Some i => {| counters := (fetch_add (counters s) i).2; counter_slots := counter_slots s |}
  | None => s
  end.
Proof. unfold round_robin_route. by destruct (srm_get _ _). Qed.

Section round_robin.
Variable t : ClusterTopology.
Variable s0 : RoundRobinReplicaStrategy.
Hypothesis Ht : no_overlap (concat (map slot_ranges (shards t))).
Let s := on_topology_changed s0 t.

Lemma counter_slots_get slot i :
  srm_get (counter_slots s) slot = Some i <->
  exists sh, shards t !! i = Some sh /\ in_shard sh slot = true.
Proof.
  unfold s, on_topology_changed. cbn [counter_slots]. rewrite insert_shards_get by done.
  unfold id. naive_solver.
Qed.

Lemma after_reads_counters cs : Z.of_nat (length cs) <= u64_max ->
  counter_slots (after_reads s cs) = counter_slots s /\
  forall i sh, shards t !! i = Some sh ->
    counters (after_reads s cs) !! i = Some (Z.of_nat (reads_to sh cs)).
Proof.
  induction cs as [|c cs IH] using rev_ind; intros Hlen.
  - split; [done|]. intros i sh Hi. unfold s. simpl.
    apply lookup_replicate_2. by eapply lookup_lt_Some.
  - rewrite length_app in Hlen. simpl in Hlen. destruct IH as [Hs Hc]; [lia|].
    unfold after_reads in *. rewrite foldl_app. cbn [foldl]. rewrite round_robin_step, Hs.
    destruct (srm_get (counter_slots s) (candidates_slot c)) as [i|] eqn:Ei.
    + split; [done|]. apply counter_slots_get in Ei as Hi. destruct Hi as (sh & Hi & Hin).
      intros j sh' Hj. rewrite reads_to_snoc. unfold fetch_add. cbn [snd counters].
      rewrite (Hc i sh Hi). simpl. destruct (decide (i = j)) as [<-|Hne].
      * simplify_eq. rewrite Hin, list_lookup_insert_eq by (eapply lookup_lt_Some, Hc, Hi).
        f_equal. pose proof (reads_to_le sh cs). rewrite as_usize_small; [lia|].
        unfold usize_max, u64_max in *. lia.
      * rewrite list_lookup_insert_ne by done. rewrite (Hc j sh' Hj).
        destruct (in_shard sh' (candidates_slot c)) eqn:Hin'; [|by rewrite Nat.add_0_r].
        exfalso. assert (srm_get (counter_slots s) (candidates_slot c) = Some j) as Ej
          by (apply counter_slots_get; eauto). congruence.
    + split; [done|]. intros j sh' Hj. rewrite reads_to_snoc, (Hc j sh' Hj).
      destruct (in_shard sh' (candidates_slot c)) eqn:Hin'; [|by rewrite Nat.add_0_r].
      exfalso. assert (srm_get (counter_slots s) (candidates_slot c) = Some j) as Ej
        by (apply counter_slots_get; eauto). congruence.
Qed.

(** Round robin is per shard: the read that follows any sequence of reads goes
    to the replica whose index is the number of earlier reads of the same shard
    modulo the number of replicas; reads of other shards do not move the
    rotation. *)
Theorem round_robin_rotation (cs : list ReadCandidates) (c : ReadCandidates) (sh : Shard)
    (Hsh : sh ∈ shards t) (Hin : in_shard sh (candidates_slot c) = true)
    (Hlen : Z.of_nat (length cs) <= u64_max) :
  (round_robin_route c (after_reads (on_topology_changed s0 t) cs)).1 =
  candidates_replicas c !! (reads_to sh cs mod length (candidates_replicas c))%nat.
Proof using Ht.
  fold s. destruct (after_reads_counters cs Hlen) as [Hs Hc].
  apply list_elem_of_lookup_1 in Hsh as [i Hi].
  unfold round_robin_route. rewrite Hs.
  rewrite (proj2 (counter_slots_get (candidates_slot c) i)) by eauto. unfold fetch_add.
  rewrite (Hc i sh Hi). simpl. by rewrite <- Nat2Z.inj_mod, Nat2Z.id.
Qed.
End round_robin.

(** ** Addresses and CLUSTER SLOTS *)

Definition host_ok (h : bytes) : bool :=
  negb (bool_decide (h = [])) && negb (bool_decide (head h = Some LBRACKET)) &&
  negb (bool_decide (last h = Some RBRACKET)).

Lemma trim_start_matches_id c s : head s <> Some c -> trim_start_matches c s = s.
Proof. destruct s as [|b s]; simpl; [done|]. intros. rewrite bool_decide_eq_false_2; [done|congruence]. Qed.

Lemma head_reverse_last {A} (l : list A) : head (reverse l) = last l.
Proof.
  induction l as [|a l IH] using rev_ind; [done|]. rewrite reverse_snoc, last_snoc. done.
Qed.

Lemma itoa_no_colon n : 0 <= n -> COLON ∉ itoa n.
Proof.
  intros Hn Hin. unfold itoa in Hin. rewrite (proj2 (Z.ltb_ge _ _)) in Hin by lia.
  pose proof (dec_digits_only n Hn) as H. rewrite Forall_forall in H. apply H in Hin.
  vm_compute in Hin. destruct Hin as [_ Hin]. by apply Hin.
Qed.

Lemma split_node_address_display h p : host_ok h = true -> in_u16 p ->
  split_node_address (h ++ COLON :: itoa p) = Ok (h, p).
Proof.
  unfold host_ok. rewrite !andb_true_iff, !negb_true_iff, !bool_decide_eq_false.
  intros [[Hne Hh] Hl] Hp. unfold split_node_address, rsplit_once.
  unfold in_u16, u16_max in Hp. rewrite reverse_app, reverse_cons, <- app_assoc. simpl.
  rewrite split_once_app.
  2: { rewrite elem_of_reverse. apply itoa_no_colon. lia. }
  simpl. rewrite !reverse_involutive.
  rewrite (trim_start_matches_id LBRACKET h) by done. unfold trim_end_matches.
  rewrite (trim_start_matches_id RBRACKET (reverse h)) by (by rewrite head_reverse_last).
  rewrite reverse_involutive, bool_decide_eq_false_2 by done.
  rewrite parse_int_itoa; [done|done|]. unfold in_ty, u16_ty, u16_max. simpl. lia.
Qed.

(** What a server sends for a slot range. *)
Definition node_value (a : NodeAddress) : Value := Array [BulkString (host a); Int (port a)].
Definition range_value (r : SlotRange) : Value :=
  Array (Int (start r) :: Int (end_ r) :: map node_value (master r :: range_replicas r)).

Definition node_ok (a : NodeAddress) : bool :=
  host_ok (host a) && utf8_valid (host a) && negb (one_of (host a) ["?"; "0.0.0.0"; "::"]%string) &&
  bool_decide (in_u16 (port a)).
Definition range_ok (r : SlotRange) : bool :=
  bool_decide (in_u16 (start r)) && bool_decide (in_u16 (end_ r)) &&
  forallb node_ok (master r :: range_replicas r).

Lemma try_to_address_node addr a : node_ok a = true -> try_to_address addr (node_value a) = Some a.
Proof.
  unfold node_ok, host_ok. intros H. destruct a as [h p]. cbn [host port] in *.
  apply andb_prop in H as [[[Hh Hu]%andb_prop Ho%negb_true_iff]%andb_prop Hp%bool_decide_eq_true].
  apply andb_prop in Hh as [[Hne%negb_true_iff _]%andb_prop _].
  unfold one_of in Ho. cbn [existsb] in Ho. rewrite !orb_false_iff in Ho. destruct Ho as (Hq & Hz & Hw & _).
  unfold try_to_address, node_value. cbn [host port].
  rewrite (from_utf8_lossy_valid h Hu). unfold is_wildcard_address, one_of. cbn [existsb].
  rewrite Hne, Hz, Hw, Hq. simpl. rewrite Hne. unfold NodeAddress_new. by rewrite as_u16_small.
Qed.

(** A node address survives printing and parsing, and the slot ranges a server
    reports are read as they were meant: primary, replicas, bounds and ports,
    whichever node answered. *)
Theorem cluster_slots_roundtrip (l : list SlotRange) (answering : bytes)
    (H : forallb range_ok l = true) :
  parse_slots (Array (map range_value l)) answering = Ok l /\
  Forall (fun r => NodeAddress_try_from (NodeAddress_display (master r)) = Ok (master r)) l.
Proof.
  rewrite forallb_forall in H. split.
  - unfold parse_slots. f_equal. induction l as [|r l IH]; [done|].
    cbn [map parse_slots_loop range_value]. rewrite IH by (intros; apply H; by right).
    assert (range_ok r = true) as Hr by (apply H; by left). unfold range_ok in Hr.
    apply andb_prop in Hr as [[Hs%bool_decide_eq_true He%bool_decide_eq_true]%andb_prop Hn].
    cbn [forallb] in Hn. apply andb_prop in Hn as [Hm Hn].
    cbn [parse_slot_item map drop find_primary]. rewrite try_to_address_node by done.
    cbn [mbind option_bind]. rewrite !as_u16_small by done.
    assert (omap (try_to_address answering) (map node_value (range_replicas r)) = range_replicas r) as ->.
    { clear -Hn. induction (range_replicas r) as [|a l IH]; [done|]. cbn [forallb] in Hn.
      apply andb_prop in Hn as [Ha Hl]. cbn [map omap list_omap].
      rewrite try_to_address_node by done. by rewrite <- IH at 2. }
    by destruct r.
  - apply Forall_forall. intros r Hr%list_elem_of_In%H. unfold range_ok in Hr.
    apply andb_prop in Hr as [_ Hn]. cbn [forallb] in Hn. apply andb_prop in Hn as [Hm _].
    unfold node_ok in Hm. apply andb_prop in Hm as [[[Hh _]%andb_prop _]%andb_prop Hp%bool_decide_eq_true].
    unfold NodeAddress_try_from, NodeAddress_display. rewrite split_node_address_display by done.
    by destruct (master r).
Qed.

(** ** Witnesses *)

(** A generator that always picks the first element. *)
#[refine] Definition rand_first : Rand := {|
  rng := unit;
  choose A l g := (head l, g)
|}.
Proof.
  - intros A l g a g' E. destruct l as [|x l]; simplify_eq/=. by left.
  - intros A l g Hne. destruct l as [|x l]; [done|]. by exists x, g.
Defined.

Definition node (h : string) (p : Z) : NodeAddress := NodeAddress_new (bs h) p.
Definition sample_ranges : list SlotRange :=
  [{| start := 200; end_ := 300; master := node "c" 3; range_replicas := [] |};
   {| start := 0; end_ := 100; master := node "a" 1; range_replicas := [node "b" 2; node "d" 4] |};
   {| start := 101; end_ := 150; master := node "a" 1; range_replicas := [node "b" 2; node "d" 4] |}].

Lemma slot_map_lookup_witness :
  srm_get (slots (from_slots sample_ranges)) 120 =
  Some {| primary := node "a" 1; replicas := [node "b" 2; node "d" 4] |}.
Proof.
  apply (slot_map_lookup sample_ranges); [by apply (bool_decide_unpack _)|].
  eexists. split; [right; right; left|]. split; [simpl; lia|reflexivity].
Defined.

Lemma route_answered_by_owner_witness :
  exists node' strategy' g',
    slot_addr_for_route (R:=rand_first) (S:=RoundRobinReplicaStrategy) (from_slots sample_ranges)
      {| route_slot := 120; route_slot_addr := ReplicaRequired |} None tt =
    Some (Some node', strategy', g') /\ node' ∈ [node "a" 1; node "b" 2; node "d" 4].
Proof.
  destruct (route_answered_by_owner (R:=rand_first) (S:=RoundRobinReplicaStrategy) sample_ranges
    {| start := 101; end_ := 150; master := node "a" 1; range_replicas := [node "b" 2; node "d" 4] |}
    {| route_slot := 120; route_slot_addr := ReplicaRequired |} None tt) as (n & s & g & H1 & H2 & _).
  - by apply (bool_decide_unpack _).
  - right; right; left.
  - simpl. lia.
  - exists n, s, g. split; [exact H1|exact H2].
Defined.

Lemma topology_agrees_witness :
  shard_primary <$> shard_for_slot (topology (from_slots sample_ranges)) 120 = Some (node "a" 1).
Proof. rewrite topology_agrees; [reflexivity|]. by apply (bool_decide_unpack _). Defined.

Lemma round_robin_rotation_witness :
  let t := topology (from_slots sample_ranges) in
  let read slot := ReplicasOnly slot [node "b" 2; node "d" 4] in
  (round_robin_route (read 150)
     (after_reads (on_topology_changed RoundRobin_default t) [read 5; read 250; read 110; read 7])).1 =
  Some (node "d" 4).
Proof.
  intros t read.
  rewrite (round_robin_rotation t RoundRobin_default) with (sh := {| slot_ranges := [(0, 100); (101, 150)];
    shard_primary := node "a" 1; shard_replicas := [node "b" 2; node "d" 4] |}).
  - reflexivity.
  - by apply (bool_decide_unpack _).
  - left.
  - reflexivity.
  - vm_compute. congruence.
Defined.

Lemma cluster_slots_roundtrip_witness :
  parse_slots (Array (map range_value sample_ranges)) (bs "x") = Ok sample_ranges.
Proof. apply cluster_slots_roundtrip. reflexivity. Defined.
