(* ===== verification/Routing.v ===== *)
(** * Routing of commands in a cluster

    [cluster_handling/routing.rs] and the command tables of [commands/mod.rs]:
    which nodes a command is sent to, how a command on keys of several slots is
    split, and how the replies of several nodes are put together.

    [Cmd::arg_idx] may panic, so the functions here return an option whose
    [None] is a panic; inside it is the function's own result.  A [HashMap] is
    an association list in insertion order that is iterated through
    [hash_order].  The CRC of the crc16 crate is a parameter ([Crc16]). *)

From S2P Require Import Prelude Text Float64 Combine Errors Types Parser Cmd Slots.

(** ** Command tables: [commands/mod.rs] *)

Inductive Properties := ReadOnlyCacheable | ReadOnly | Neither.

Definition command_properties (cmd : bytes) : Properties :=
  if one_of cmd [
      "BITCOUNT"; "BITFIELD_RO"; "BITPOS"; "DUMP"; "EXISTS"; "GEODIST"; "GEOHASH";
      "GEOPOS"; "GET"; "GETBIT"; "GETRANGE"; "HEXISTS"; "HGET"; "HGETALL"; "HKEYS"; "HLEN";
      "HMGET"; "HSTRLEN"; "HVALS"; "JSON.ARRINDEX"; "JSON.ARRLEN"; "JSON.GET";
      "JSON.OBJLEN"; "JSON.OBJKEYS"; "JSON.MGET"; "JSON.RESP"; "JSON.STRLEN"; "JSON.TYPE";
      "LCS"; "LINDEX"; "LLEN"; "LPOS"; "LRANGE"; "MGET"; "SCARD"; "SDIFF"; "SINTER";
      "SINTERCARD"; "SISMEMBER"; "SMEMBERS"; "SMISMEMBER"; "STRLEN"; "SUBSTR"; "SUNION";
      "TYPE"; "ZCARD"; "ZCOUNT"; "ZDIFF"; "ZINTER"; "ZINTERCARD"; "ZLEXCOUNT"; "ZMSCORE";
      "ZRANGE"; "ZRANGEBYLEX"; "ZRANGEBYSCORE"; "ZRANK"; "ZREVRANGE"; "ZREVRANGEBYLEX";
      "ZREVRANGEBYSCORE"; "ZREVRANK"; "ZSCORE"; "ZUNION"]
  then ReadOnlyCacheable
  else if one_of cmd [
      "ACL CAT"; "ACL DELUSER"; "ACL DRYRUN"; "ACL GENPASS"; "ACL GETUSER"; "ACL HELP";
      "ACL LIST"; "ACL LOAD"; "ACL LOG"; "ACL SAVE"; "ACL SETUSER"; "ACL USERS";
      "ACL WHOAMI"; "AUTH"; "BF.CARD"; "BF.EXISTS"; "BF.INFO"; "BF.MEXISTS"; "BF.SCANDUMP";
      "BGREWRITEAOF"; "BGSAVE"; "PFCOUNT"; "CLIENT ID"; "CLIENT CACHING"; "CLIENT CAPA";
      "CLIENT GETNAME"; "CLIENT GETREDIR"; "CLIENT HELP"; "CLIENT INFO"; "CLIENT KILL";
      "CLIENT LIST"; "CLIENT NO-EVICT"; "CLIENT NO-TOUCH"; "CLIENT PAUSE"; "CLIENT REPLY";
      "CLIENT SETINFO"; "CLIENT SETNAME"; "CLIENT TRACKING"; "CLIENT TRACKINGINFO";
      "CLIENT UNBLOCK"; "CLIENT UNPAUSE"; "CLUSTER COUNT-FAILURE-REPORTS";
      "CLUSTER COUNTKEYSINSLOT"; "CLUSTER FAILOVER"; "CLUSTER GETKEYSINSLOT";
      "CLUSTER HELP"; "CLUSTER INFO"; "CLUSTER KEYSLOT"; "CLUSTER LINKS"; "CLUSTER MYID";
      "CLUSTER MYSHARDID"; "CLUSTER NODES"; "CLUSTER REPLICATE"; "CLUSTER SAVECONFIG";
      "CLUSTER SHARDS"; "CLUSTER SLOTS"; "COMMAND COUNT"; "COMMAND DOCS";
      "COMMAND GETKEYS"; "COMMAND GETKEYSANDFLAGS"; "COMMAND HELP"; "COMMAND INFO";
      "COMMAND LIST"; "CONFIG GET"; "CONFIG HELP"; "CONFIG RESETSTAT"; "CONFIG REWRITE";
      "CONFIG SET"; "DBSIZE"; "ECHO"; "EVAL_RO"; "EVALSHA_RO"; "EXPIRETIME"; "FCALL_RO";
      "FT.AGGREGATE"; "FT.EXPLAIN"; "FT.EXPLAINCLI"; "FT.INFO"; "FT.PROFILE"; "FT.SEARCH";
      "FT._ALIASLIST"; "FT._LIST"; "FUNCTION DUMP"; "FUNCTION HELP"; "FUNCTION KILL";
      "FUNCTION LIST"; "FUNCTION STATS"; "GEORADIUSBYMEMBER_RO"; "GEORADIUS_RO";
      "GEOSEARCH"; "HELLO"; "HRANDFIELD"; "HSCAN"; "INFO"; "JSON.DEBUG"; "KEYS";
      "LASTSAVE"; "LATENCY DOCTOR"; "LATENCY GRAPH"; "LATENCY HELP"; "LATENCY HISTOGRAM";
      "LATENCY HISTORY"; "LATENCY LATEST"; "LATENCY RESET"; "LOLWUT"; "MEMORY DOCTOR";
      "MEMORY HELP"; "MEMORY MALLOC-STATS"; "MEMORY PURGE"; "MEMORY STATS"; "MEMORY USAGE";
      "MODULE HELP"; "MODULE LIST"; "MODULE LOAD"; "MODULE LOADEX"; "MODULE UNLOAD";
      "OBJECT ENCODING"; "OBJECT FREQ"; "OBJECT HELP"; "OBJECT IDLETIME";
      "OBJECT REFCOUNT"; "PEXPIRETIME"; "PING"; "PTTL"; "PUBLISH"; "PUBSUB CHANNELS";
      "PUBSUB HELP"; "PUBSUB NUMPAT"; "PUBSUB NUMSUB"; "PUBSUB SHARDCHANNELS";
      "PUBSUB SHARDNUMSUB"; "RANDOMKEY"; "REPLICAOF"; "RESET"; "ROLE"; "SAVE"; "SCAN";
      "SCRIPT DEBUG"; "SCRIPT EXISTS"; "SCRIPT FLUSH"; "SCRIPT KILL"; "SCRIPT LOAD";
      "SCRIPT SHOW"; "SELECT"; "SHUTDOWN"; "SLOWLOG GET"; "SLOWLOG HELP"; "SLOWLOG LEN";
      "SLOWLOG RESET"; "SORT_RO"; "SPUBLISH"; "SRANDMEMBER"; "SSCAN"; "SSUBSCRIBE";
      "SUBSCRIBE"; "SUNSUBSCRIBE"; "TIME"; "TOUCH"; "TTL"; "UNSUBSCRIBE";
      "XINFO CONSUMERS"; "XINFO GROUPS"; "XINFO STREAM"; "XLEN"; "XPENDING"; "XRANGE";
      "XREAD"; "XREVRANGE"; "ZRANDMEMBER"; "ZSCAN"]
  then ReadOnly
  else Neither.

Definition is_readonly_cmd (cmd : bytes) : bool :=
  match command_properties cmd with ReadOnly | ReadOnlyCacheable => true | Neither => false end.

Definition is_cachable_cmd (cmd : bytes) : bool :=
  match command_properties cmd with ReadOnlyCacheable => true | _ => false end.

(** ** Routing information *)

Inductive Redirect := Moved (a : NodeAddress) | Ask (a : NodeAddress).

Inductive LogicalAggregateOp := And.
Inductive AggregateOp := Min | Sum.

Inductive ResponsePolicy :=
| OneSucceeded
| FirstSucceededNonEmptyOrAllEmpty
| AllSucceeded
| AggregateLogical (op : LogicalAggregateOp)
| Aggregate (op : AggregateOp)
| CombineArrays
| Special
| CombineMaps.

Inductive MultiSlotArgPattern := KeysOnly | KeyValuePairs | KeysAndLastArg | KeyWithTwoArgTriples.

#[export] Instance MultiSlotArgPattern_eq_dec : EqDecision MultiSlotArgPattern.
Proof. solve_decision. Defined.

Inductive SingleNodeRoutingInfo :=
| Random
| RandomPrimary
| SpecificNode (route : Route)
| ByAddress (host : bytes) (port : Z).

Definition single_of_option (value : option Route) : SingleNodeRoutingInfo :=
  default Random (SpecificNode <$> value).

Inductive MultipleNodeRoutingInfo :=
| AllNodes
| AllMasters
| MultiSlot (routes : list (Route * list nat)) (pattern : MultiSlotArgPattern).

Inductive RoutingInfo :=
| SingleNode (info : SingleNodeRoutingInfo)
| MultiNode (info : MultipleNodeRoutingInfo) (policy : option ResponsePolicy).

(** [ResponsePolicy::for_command]. *)
Definition for_command (cmd : bytes) : option ResponsePolicy :=
  if one_of cmd [
      "SCRIPT EXISTS"]
  then Some (AggregateLogical And)
  else if one_of cmd [
      "DBSIZE"; "DEL"; "EXISTS"; "SLOWLOG LEN"; "TOUCH"; "UNLINK"; "LATENCY RESET";
      "PUBSUB NUMPAT"]
  then Some (Aggregate Sum)
  else if one_of cmd [
      "WAIT"]
  then Some (Aggregate Min)
  else if one_of cmd [
      "ACL SETUSER"; "ACL DELUSER"; "ACL SAVE"; "CLIENT SETNAME"; "CLIENT SETINFO";
      "CONFIG SET"; "CONFIG RESETSTAT"; "CONFIG REWRITE"; "FLUSHALL"; "FLUSHDB";
      "FUNCTION DELETE"; "FUNCTION FLUSH"; "FUNCTION LOAD"; "FUNCTION RESTORE";
      "MEMORY PURGE"; "MSET"; "JSON.MSET"; "PING"; "SCRIPT FLUSH"; "SCRIPT LOAD";
      "SLOWLOG RESET"; "UNWATCH"; "WATCH"]
  then Some AllSucceeded
  else if one_of cmd [
      "KEYS"; "FT._ALIASLIST"; "FT._LIST"; "MGET"; "JSON.MGET"; "SLOWLOG GET";
      "PUBSUB CHANNELS"; "PUBSUB SHARDCHANNELS"]
  then Some CombineArrays
  else if one_of cmd [
      "PUBSUB NUMSUB"; "PUBSUB SHARDNUMSUB"]
  then Some CombineMaps
  else if one_of cmd [
      "FUNCTION KILL"; "SCRIPT KILL"]
  then Some OneSucceeded
  else if one_of cmd [
      "RANDOMKEY"]
  then Some FirstSucceededNonEmptyOrAllEmpty
  else if one_of cmd [
      "LATENCY GRAPH"; "LATENCY HISTOGRAM"; "LATENCY HISTORY"; "LATENCY DOCTOR";
      "LATENCY LATEST"; "FUNCTION STATS"; "MEMORY MALLOC-STATS"; "MEMORY DOCTOR";
      "MEMORY STATS"; "INFO"]
  then Some Special
  else None.

(** [RouteBy], with prefixed constructors. *)
Inductive RouteBy :=
| By_AllNodes | By_AllPrimaries | By_FirstKey | By_MultiShard (p : MultiSlotArgPattern) | By_Random
| By_SecondArg | By_SecondArgAfterKeyCount | By_SecondArgSlot | By_StreamsIndex
| By_ThirdArgAfterKeyCount | By_Undefined.

Definition base_routing (cmd : bytes) : RouteBy :=
  if one_of cmd [
      "ACL SETUSER"; "ACL DELUSER"; "ACL SAVE"; "CLIENT SETNAME"; "CLIENT SETINFO";
      "SLOWLOG GET"; "SLOWLOG LEN"; "SLOWLOG RESET"; "CONFIG SET"; "CONFIG RESETSTAT";
      "CONFIG REWRITE"; "SCRIPT FLUSH"; "SCRIPT LOAD"; "LATENCY RESET"; "LATENCY GRAPH";
      "LATENCY HISTOGRAM"; "LATENCY HISTORY"; "LATENCY DOCTOR"; "LATENCY LATEST";
      "PUBSUB NUMPAT"; "PUBSUB CHANNELS"; "PUBSUB NUMSUB"; "PUBSUB SHARDCHANNELS";
      "PUBSUB SHARDNUMSUB"; "SCRIPT KILL"; "FUNCTION KILL"; "FUNCTION STATS"]
  then By_AllNodes
  else if one_of cmd [
      "DBSIZE"; "DEBUG"; "FLUSHALL"; "FLUSHDB"; "FT._ALIASLIST"; "FT._LIST";
      "FUNCTION DELETE"; "FUNCTION FLUSH"; "FUNCTION LOAD"; "FUNCTION RESTORE"; "INFO";
      "KEYS"; "MEMORY DOCTOR"; "MEMORY MALLOC-STATS"; "MEMORY PURGE"; "MEMORY STATS";
      "PING"; "SCRIPT EXISTS"; "UNWATCH"; "WAIT"; "RANDOMKEY"; "WAITAOF"]
  then By_AllPrimaries
  else if one_of cmd [
      "MGET"; "DEL"; "EXISTS"; "UNLINK"; "TOUCH"; "WATCH"]
  then By_MultiShard KeysOnly
  else if one_of cmd [
      "MSET"]
  then By_MultiShard KeyValuePairs
  else if one_of cmd [
      "JSON.MGET"]
  then By_MultiShard KeysAndLastArg
  else if one_of cmd [
      "JSON.MSET"]
  then By_MultiShard KeyWithTwoArgTriples
  else if one_of cmd [
      "SCAN"; "SHUTDOWN"; "SLAVEOF"; "REPLICAOF"]
  then By_Undefined
  else if one_of cmd [
      "BLMPOP"; "BZMPOP"; "EVAL"; "EVALSHA"; "EVALSHA_RO"; "EVAL_RO"; "FCALL"; "FCALL_RO"]
  then By_ThirdArgAfterKeyCount
  else if one_of cmd [
      "BITOP"; "MEMORY USAGE"; "PFDEBUG"; "XGROUP CREATE"; "XGROUP CREATECONSUMER";
      "XGROUP DELCONSUMER"; "XGROUP DESTROY"; "XGROUP SETID"; "XINFO CONSUMERS";
      "XINFO GROUPS"; "XINFO STREAM"; "OBJECT ENCODING"; "OBJECT FREQ"; "OBJECT IDLETIME";
      "OBJECT REFCOUNT"; "JSON.DEBUG"]
  then By_SecondArg
  else if one_of cmd [
      "LMPOP"; "SINTERCARD"; "ZDIFF"; "ZINTER"; "ZINTERCARD"; "ZMPOP"; "ZUNION"]
  then By_SecondArgAfterKeyCount
  else if one_of cmd [
      "XREAD"; "XREADGROUP"]
  then By_StreamsIndex
  else if one_of cmd [
      "ACL DRYRUN"; "ACL GENPASS"; "ACL GETUSER"; "ACL HELP"; "ACL LIST"; "ACL LOG";
      "ACL USERS"; "ACL WHOAMI"; "AUTH"; "BGSAVE"; "CLIENT GETNAME"; "CLIENT GETREDIR";
      "CLIENT ID"; "CLIENT INFO"; "CLIENT KILL"; "CLIENT PAUSE"; "CLIENT REPLY";
      "CLIENT TRACKINGINFO"; "CLIENT UNBLOCK"; "CLIENT UNPAUSE";
      "CLUSTER COUNT-FAILURE-REPORTS"; "CLUSTER INFO"; "CLUSTER KEYSLOT"; "CLUSTER MEET";
      "CLUSTER MYSHARDID"; "CLUSTER NODES"; "CLUSTER REPLICAS"; "CLUSTER RESET";
      "CLUSTER SET-CONFIG-EPOCH"; "CLUSTER SHARDS"; "CLUSTER SLOTS"; "COMMAND COUNT";
      "COMMAND GETKEYS"; "COMMAND LIST"; "COMMAND"; "CONFIG GET"; "ECHO"; "FUNCTION LIST";
      "LASTSAVE"; "LOLWUT"; "MODULE LIST"; "MODULE LOAD"; "MODULE LOADEX"; "MODULE UNLOAD";
      "READONLY"; "READWRITE"; "SAVE"; "SCRIPT SHOW"; "TFCALL"; "TFCALLASYNC";
      "TFUNCTION DELETE"; "TFUNCTION LIST"; "TFUNCTION LOAD"; "TIME"]
  then By_Random
  else if one_of cmd [
      "CLUSTER ADDSLOTS"; "CLUSTER COUNTKEYSINSLOT"; "CLUSTER DELSLOTS";
      "CLUSTER DELSLOTSRANGE"; "CLUSTER GETKEYSINSLOT"; "CLUSTER SETSLOT"]
  then By_SecondArgSlot
  else By_FirstKey.

(** ** Slots of keys *)

(** [crc16::State::<XMODEM>::calculate], of the crc16 crate: any function. *)
Class Crc16 := crc16_xmodem : bytes -> Z.

Definition OPEN : byte := x7b.
Definition CLOSE : byte := x7d.

Definition get_hashtag (key : bytes) : option bytes :=
  open ← position OPEN key;
  close ← position CLOSE (drop open key);
  let rv := take (close - 1) (drop (S open) key) in
  match rv with [] => None | _ => Some rv end.

(** [Slot]: a checked slot number. *)
Record Slot := { slot_number : Z }.

Definition Slot_new (slot : Z) : option Slot :=
  if (slot <? SLOT_SIZE)%Z then Some {| slot_number := slot |} else None.

Definition Route_with_slot (slot : Slot) (sa : SlotAddr) : Route :=
  {| route_slot := slot_number slot; route_slot_addr := sa |}.

Section keys.
Context `{Crc16}.

Definition Slot_for_key (key : bytes) : Slot :=
  {| slot_number := (crc16_xmodem (default key (get_hashtag key)) mod SLOT_SIZE)%Z |}.

Definition Route_with_key (key : bytes) (sa : SlotAddr) : Route := Route_with_slot (Slot_for_key key) sa.

Definition get_route (is_readonly : bool) (key : bytes) : Route :=
  if is_readonly then Route_with_key key ReplicaOptional else Route_with_key key Master.

(** [RoutingInfo::for_key]. *)
Definition for_key (cmd key : bytes) : RoutingInfo :=
  SingleNode (SpecificNode (get_route (is_readonly_cmd cmd) key)).
End keys.

(** ** Routable requests *)

(** The trait [Routable].  [r_len] bounds the arguments; it is not in the source
    and only limits how long [multi_shard] may loop. *)
Class Routable (R : Type) := {
  r_arg_idx : R -> nat -> option (option bytes);
  r_position : R -> bytes -> option nat;
  r_len : R -> nat
}.

Fixpoint find_position {A} (f : A -> bool) (l : list A) : option nat :=
  match l with
  | [] => None
  | a :: l => if f a then Some O else S <$> find_position f l
  end.

#[export] Instance Routable_Cmd : Routable Cmd := {|
  r_arg_idx := arg_idx_checked;
  r_position c candidate :=
    find_position (fun a => match a with
                            | Simple d => eq_ignore_ascii_case d candidate
                            | Cursor => false
                            end) (args_iter c);
  r_len c := length (args c)
|}.

#[export] Instance Routable_Value : Routable Value := {|
  r_arg_idx v idx :=
    Some (match v with
          | Array args => match args !! idx with Some (BulkString data) => Some data | _ => None end
          | _ => None
          end);
  r_position v candidate :=
    match v with
    | Array args =>
        find_position (fun a => match a with
                                | BulkString d => eq_ignore_ascii_case d candidate
                                | _ => false
                                end) args
    | _ => None
    end;
  r_len v := match v with Array args => length args | _ => O end
|}.

(** The [?] of a function that returns an option and may panic. *)
Definition try_bind {A B} (x : option (option A)) (f : A -> option (option B)) : option (option B) :=
  match x with None => None | Some None => Some None | Some (Some a) => f a end.
Notation "x '←?' e ; k" := (try_bind e (fun x => k))
  (at level 20, e at level 100, k at level 200, only parsing).

Section routing.
Context `{Crc16} `{HashOrder} {R : Type} `{Routable R}.
Implicit Types r : R.

(** [Routable::command]. *)
Definition command r : option (option bytes) :=
  arg0 ←? r_arg_idx r 0;
  let primary_command := to_ascii_uppercase arg0 in
  if one_of primary_command ["XGROUP"; "OBJECT"; "SLOWLOG"; "FUNCTION"; "MODULE"; "COMMAND"; "PUBSUB";
       "CONFIG"; "MEMORY"; "XINFO"; "CLIENT"; "ACL"; "SCRIPT"; "CLUSTER"; "LATENCY"]
  then
    arg1 ← r_arg_idx r 1;
    Some (Some match arg1 with
               | Some secondary_command =>
                   primary_command ++ bs " " ++ to_ascii_uppercase secondary_command
               | None => primary_command
               end)
  else Some (Some primary_command).

Definition routes_map : Type := list (Route * list nat).

(** [routes.entry(route).or_insert(Vec::new())] followed by a push. *)
Fixpoint push_index (routes : routes_map) (route : Route) (i : nat) : routes_map :=
  match routes with
  | [] => [(route, [i])]
  | (k, l) :: routes =>
      if decide (k = route) then (k, l ++ [i]) :: routes else (k, l) :: push_index routes route i
  end.

(** The closure [incr_add_next_arg]. *)
Definition incr_add_next_arg r (routes : routes_map) (route : Route) (curr_arg_idx : nat)
    : option (option (nat * routes_map)) :=
  let curr_arg_idx := S curr_arg_idx in
  _ ←? r_arg_idx r curr_arg_idx;
  Some (Some (curr_arg_idx, push_index routes route curr_arg_idx)).

(** The loop of [multi_shard]. *)
Fixpoint multi_shard_loop (fuel : nat) r (is_readonly : bool) (first_key_index : nat)
    (args_pattern : MultiSlotArgPattern) (curr_arg_idx : nat) (routes : routes_map)
    : option (option routes_map) :=
  match fuel with
  | O => None
  | S fuel =>
      let continue := multi_shard_loop fuel r is_readonly first_key_index args_pattern in
      arg ← r_arg_idx r (first_key_index + curr_arg_idx);
      match arg with
      | None => Some (Some routes)
      | Some arg =>
          let route := get_route is_readonly arg in
          let routes := push_index routes route curr_arg_idx in
          match args_pattern with
          | KeysOnly => continue (S curr_arg_idx) routes
          | KeyValuePairs =>
              p ←? incr_add_next_arg r routes route curr_arg_idx;
              continue (S p.1) p.2
          | KeysAndLastArg =>
              next ← r_arg_idx r (first_key_index + curr_arg_idx + 2);
              match next with
              | None => Some (Some (map (fun '(k, l) => (k, l ++ [S curr_arg_idx])) routes))
              | Some _ => continue (S curr_arg_idx) routes
              end
          | KeyWithTwoArgTriples =>
              p ←? incr_add_next_arg r routes route curr_arg_idx;
              q ←? incr_add_next_arg r p.2 route p.1;
              continue (S q.1) q.2
          end
      end
  end.

(** [S (r_len r)] rounds are enough: every round looks at another argument
    ([multi_shard_split]). *)
Definition multi_shard r (cmd : bytes) (first_key_index : nat) (args_pattern : MultiSlotArgPattern)
    : option (option RoutingInfo) :=
  let is_readonly := is_readonly_cmd cmd in
  routes ←? multi_shard_loop (S (r_len r)) r is_readonly first_key_index args_pattern 0 [];
  Some (match hash_order routes with
        | [] => None
        | [(route, _)] => Some (SingleNode (SpecificNode route))
        | routes => Some (MultiNode (MultiSlot routes args_pattern) (for_command cmd))
        end).

(** [std::str::from_utf8(x).ok()] and [parse().ok()]. *)
Definition parse_arg (t : int_ty) (arg : bytes) : option Z :=
  s ← to_option (from_utf8 arg); parse_int t s.

Definition key_at r (cmd : bytes) (idx : nat) : option (option RoutingInfo) :=
  key ←? r_arg_idx r idx; Some (Some (for_key cmd key)).

(** [RoutingInfo::for_routable]. *)
Definition for_routable r : option (option RoutingInfo) :=
  cmd ←? command r;
  match base_routing cmd with
  | By_AllNodes => Some (Some (MultiNode AllNodes (for_command cmd)))
  | By_AllPrimaries => Some (Some (MultiNode AllMasters (for_command cmd)))
  | By_MultiShard arg_pattern => multi_shard r cmd 1 arg_pattern
  | By_Random => Some (Some (SingleNode Random))
  | By_ThirdArgAfterKeyCount =>
      arg ←? r_arg_idx r 2;
      key_count ←? Some (parse_arg u64_ty arg);
      if (key_count =? 0)%Z then Some (Some (SingleNode Random)) else key_at r cmd 3
  | By_SecondArg => key_at r cmd 2
  | By_SecondArgAfterKeyCount =>
      arg ←? r_arg_idx r 1;
      key_count ←? Some (parse_arg u64_ty arg);
      if (key_count =? 0)%Z then Some (Some (SingleNode Random)) else key_at r cmd 2
  | By_StreamsIndex =>
      streams_position ←? Some (r_position r (bs "STREAMS"));
      key_at r cmd (streams_position + 1)
  | By_SecondArgSlot =>
      arg ←? r_arg_idx r 2;
      slot ←? Some (parse_arg u16_ty arg ≫= Slot_new);
      Some (Some (SingleNode (SpecificNode (Route_with_slot slot Master))))
  | By_FirstKey =>
      key ← r_arg_idx r 1;
      Some (Some match key with
                 | Some key => for_key cmd key
                 | None => SingleNode Random
                 end)
  | By_Undefined => Some None
  end.

(** ** Splitting a command *)

(** [cmd.arg(Option<&[u8]>)]: a missing argument writes nothing. *)
Definition opt_arg (c : Cmd) (a : option bytes) : Cmd :=
  match a with Some a => write_arg c a | None => c end.

Definition command_for_multi_slot_indices r (indices : list nat) : option Cmd :=
  arg0 ← r_arg_idx r 0;
  foldl (fun acc index =>
           new_cmd ← acc;
           a ← r_arg_idx r (index + 1);
           Some (opt_arg new_cmd a))
    (Some (opt_arg Cmd_new arg0)) indices.
End routing.

(** ** Combining replies *)

Definition unexpected (desc : string) : RedisError := redis_error_of UnexpectedReturnType desc.
Definition expected_integers : RedisError := unexpected "expected array of integers as response".
Definition expected_array : RedisError := unexpected "expected array of values as response".

(** [try_fold] of a closure that may panic. *)
Fixpoint try_fold_checked {E A S} (f : S -> A -> option (result E S)) (s : S) (l : list A)
    : option (result E S) :=
  match l with
  | [] => Some (Ok s)
  | a :: l => r ← f s a;
              match r with Err e => Some (Err e) | Ok s => try_fold_checked f s l end
  end.

Definition map_checked {E A B} (f : A -> B) (x : option (result E A)) : option (result E B) :=
  match x with None => None | Some (Ok a) => Some (Ok (f a)) | Some (Err e) => Some (Err e) end.

Section combine.
Context `{BuildProfile} `{HashOrder}.

Definition aggregate_step (op : AggregateOp) (acc : Z) (curr : Value) : option (result RedisError Z) :=
  match curr with
  | Int int =>
      match op with
      | Min => Some (Ok (Z.min acc int))
      | Sum => Ok <$> i64_add acc int
      end
  | _ => Some (Err expected_integers)
  end.

Definition aggregate (values : list Value) (op : AggregateOp) : option (result RedisError Value) :=
  let initial_value := match op with Min => i64_max | Sum => 0%Z end in
  map_checked Int (try_fold_checked (aggregate_step op) initial_value values).

(** The inner loop: [acc[index] = acc[index] && (int > 0)]. *)
Fixpoint logical_row (acc : list bool) (index : nat) (values : list Value)
    : option (result RedisError (list bool)) :=
  match values with
  | [] => Some (Ok acc)
  | Int int :: values =>
      b ← acc !! index;
      logical_row (<[index := b && (0 <? int)%Z]> acc) (S index) values
  | _ :: _ => Some (Err expected_integers)
  end.

Definition logical_step (acc : list bool) (curr : Value) : option (result RedisError (list bool)) :=
  match curr with
  | Array values =>
      let acc := match acc with [] => replicate (length values) true | _ => acc end in
      logical_row acc 0 values
  | _ => Some (Err expected_integers)
  end.

Definition logical_aggregate (values : list Value) (op : LogicalAggregateOp)
    : option (result RedisError Value) :=
  match op with
  | And =>
      map_checked (fun results => Array (map (fun b : bool => Int (if b then 1 else 0)%Z) results))
        (try_fold_checked logical_step [] values)
  end.

(** [*map.entry(key).or_insert(0) += value]. *)
Fixpoint add_entry (m : list (bytes * Z)) (key : bytes) (value : Z) : option (list (bytes * Z)) :=
  match m with
  | [] => v ← i64_add 0 value; Some [(key, v)]
  | (k, v) :: m =>
      if decide (k = key) then v ← i64_add v value; Some ((k, v) :: m)
      else m ← add_entry m key value; Some ((k, v) :: m)
  end.

Fixpoint add_elements (m : list (bytes * Z)) (elements : list Value)
    : option (result RedisError (list (bytes * Z))) :=
  match elements with
  | [] => Some (Ok m)
  | BulkString key_bytes :: Int value :: elements =>
      m ← add_entry m key_bytes value; add_elements m elements
  | BulkString _ :: _ => Some (Err (unexpected "expected integer value"))
  | _ => Some (Err (unexpected "expected string key"))
  end.

Definition combine_map_step (m : list (bytes * Z)) (value : Value)
    : option (result RedisError (list (bytes * Z))) :=
  match value with
  | Array elements => add_elements m elements
  | _ => Some (Err expected_array)
  end.

Definition combine_map_results (values : list Value) : option (result RedisError Value) :=
  map_checked (fun m => Map (map (fun '(k, v) => (BulkString k, Int v)) (hash_order m)))
    (try_fold_checked combine_map_step [] values).
End combine.

Definition combine_array_results (values : list Value) : result RedisError Value :=
  Array <$> try_fold (fun results value =>
                        match value with
                        | Array values => Ok (results ++ values)
                        | _ => Err expected_array
                        end) [] values.

(** [{indices:?}]. *)
Definition debug_indices (l : list nat) : bytes :=
  bs "[" ++ concat (imap (fun i n => (if (i =? 0)%nat then [] else bs ", ") ++ itoa (Z.of_nat n)) l)
  ++ bs "]".

Fixpoint check_indices_input (step_count : nat) (route_arg_indices : list (Route * list nat))
    : result RedisError unit :=
  match route_arg_indices with
  | [] => Ok ()
  | (_, indices) :: l =>
      if (length indices mod step_count =? 0)%nat then check_indices_input step_count l
      else Err (redis_error_of_detail Client "Invalid indices input detected"
                  (bs "Expected argument pattern with tuples of size " ++ itoa (Z.of_nat step_count)
                   ++ bs ", but found indices: " ++ debug_indices indices))
  end.

(** [iter().step_by(n)], run to its end. *)
Fixpoint step_by_go {A} (n skip : nat) (l : list A) : list A :=
  match l with
  | [] => []
  | a :: l => match skip with
              | O => a :: step_by_go n (n - 1) l
              | S skip => step_by_go n skip l
              end
  end.
Definition step_by {A} (n : nat) (l : list A) : list A := step_by_go n 0 l.

Definition grouped_indices (step_count : nat) (route_arg_indices : list (Route * list nat))
    : result RedisError (list (option (list nat))) :=
  _ ← check_indices_input step_count route_arg_indices;
  Ok (map (fun '(_, indices) =>
             Some (map (fun idx => idx / step_count)%nat (step_by step_count indices)))
        route_arg_indices).

(** [&indices[..indices.len() - 1]] panics on an empty vector, in either build. *)
Definition without_last (indices : list nat) : option (list nat) :=
  match indices with [] => None | _ => Some (take (length indices - 1) indices) end.

(** The iterator is lazy: an element that panics does so when it is taken. *)
Definition calculate_multi_slot_result_indices (route_arg_indices : list (Route * list nat))
    (args_pattern : MultiSlotArgPattern) : result RedisError (list (option (list nat))) :=
  match args_pattern with
  | KeysOnly => Ok (map (fun '(_, indices) => Some indices) route_arg_indices)
  | KeysAndLastArg => Ok (map (fun '(_, indices) => without_last indices) route_arg_indices)
  | KeyWithTwoArgTriples => grouped_indices 3 route_arg_indices
  | KeyValuePairs => grouped_indices 2 route_arg_indices
  end.

(** The size [results] is given: it restarts at a value that is not an array. *)
Definition result_count (values : list Value) : nat :=
  foldl (fun acc value => match value with Array values => (length values + acc)%nat | _ => O end)
    O values.

(** [results[index] = value] for every pair; [None] is out of bounds. *)
Fixpoint write_results (results : list Value) (l : list (nat * Value)) : option (list Value) :=
  match l with
  | [] => Some results
  | (i, v) :: l => if (i <? length results)%nat then write_results (<[i := v]> results) l else None
  end.

Definition combine_sorted_step (results : list Value) (p : option (list nat) * Value)
    : option (result RedisError (list Value)) :=
  key_indices ← p.1;
  match p.2 with
  | Array values =>
      if (length values =? length key_indices)%nat
      then Ok <$> write_results results (zip key_indices values) else None
  | _ => Some (Err expected_array)
  end.

Definition combine_and_sort_array_results (values : list Value)
    (route_arg_indices : list (Route * list nat)) (args_pattern : MultiSlotArgPattern)
    : option (result RedisError Value) :=
  match calculate_multi_slot_result_indices route_arg_indices args_pattern with
  | Err e => Some (Err e)
  | Ok result_indices =>
      if (length values =? length result_indices)%nat then
        map_checked Array (try_fold_checked combine_sorted_step (replicate (result_count values) Nil)
                             (zip result_indices values))
      else
        Some (Err (redis_error_of_detail Client
          "Mismatch in the number of multi-slot results compared to the expected result count."
          (bs "Expected: " ++ itoa (Z.of_nat (length values)) ++ bs ", Found: "
           ++ itoa (Z.of_nat (length result_indices)))))
  end.

(** ** Hash tags *)

Lemma position_split b s i : position b s = Some i ->
  exists l r, s = l ++ b :: r /\ b ∉ l /\ i = length l.
Proof.
  intros [Hi Hn]%position_spec. exists (take i s), (drop (S i) s).
  rewrite length_take_le by (apply lookup_lt_Some in Hi; lia). by rewrite take_drop_middle.
Qed.

Lemma get_hashtag_spec key t :
  get_hashtag key = Some t <->
  exists pre post, key = pre ++ OPEN :: t ++ CLOSE :: post /\ OPEN ∉ pre /\ CLOSE ∉ t /\ t <> [].
Proof.
  unfold get_hashtag. split.
  - destruct (position OPEN key) as [o|] eqn:Eo; [|done]. simpl.
    apply position_split in Eo as (pre & rest & -> & Hp & ->).
    rewrite (drop_length_app pre _ (length pre)) by done. simpl.
    destruct (position CLOSE rest) as [c|] eqn:Ec; [|done]. simpl.
    apply position_split in Ec as (t' & post & -> & Ht & ->).
    rewrite cons_middle, app_assoc, (drop_length_app (pre ++ [OPEN])) by (rewrite length_app; simpl; lia).
    rewrite take_length_app by lia. intros E. exists pre, post. destruct t'; [done|]. simplify_eq.
    by rewrite <- app_assoc.
  - intros (pre & post & -> & Hp & Ht & Hne).
    rewrite position_app by done. simpl. rewrite (drop_length_app pre _ (length pre)) by done. simpl.
    rewrite position_app by done. simpl.
    rewrite (cons_middle OPEN), app_assoc, (drop_length_app (pre ++ [OPEN])) by
      (rewrite length_app; simpl; lia).
    rewrite take_length_app by lia. by destruct t.
Qed.

Lemma Slot_for_key_bound `{Crc16} key :
  (0 <= slot_number (Slot_for_key key) < SLOT_SIZE)%Z.
Proof. simpl. by apply Z.mod_pos_bound. Qed.

(** ** Splitting by slot

    A request whose arguments are the list [l]. *)
Record presents {R} `{Routable R} (r : R) (l : list bytes) : Prop := {
  presents_arg i : r_arg_idx r i = Some (l !! i);
  presents_position x : r_position r x = find_position (fun a => eq_ignore_ascii_case a x) l;
  presents_len : r_len r = length l
}.

(** The arguments behind the command name come in groups, one per key, of
    [width] arguments each; [KeysAndLastArg] shares its last argument. *)
Definition width (p : MultiSlotArgPattern) : nat :=
  match p with KeysOnly | KeysAndLastArg => 1 | KeyValuePairs => 2 | KeyWithTwoArgTriples => 3 end.
Definition ngroups (p : MultiSlotArgPattern) (l : list bytes) : nat :=
  match p with KeysAndLastArg => length l - 1 | _ => length l / width p end.
Definition shared_args (p : MultiSlotArgPattern) (l : list bytes) : list bytes :=
  match p with KeysAndLastArg => drop (length l - 1) l | _ => [] end.
Definition shared_index (p : MultiSlotArgPattern) (n : nat) : list nat :=
  match p with KeysAndLastArg => [n] | _ => [] end.
Definition group (p : MultiSlotArgPattern) (l : list bytes) (j : nat) : list bytes :=
  take (width p) (drop (j * width p) l) ++ shared_args p l.
Definition groups (p : MultiSlotArgPattern) (l : list bytes) : list (list bytes) :=
  map (group p l) (seq 0 (ngroups p l)).

(** The arguments fit the pattern, and there is a key. *)
Definition complete (p : MultiSlotArgPattern) (l : list bytes) : bool :=
  match p with
  | KeysAndLastArg => 2 <=? length l
  | _ => (length l mod width p =? 0) && (1 <=? length l)
  end.

Lemma complete_length p l : complete p l = true ->
  length l = ngroups p l * width p + length (shared_args p l) /\ 1 <= ngroups p l.
Proof.
  unfold complete, ngroups, shared_args. destruct p; cbn [width length].
  all: rewrite ?andb_true_iff, ?Nat.eqb_eq, ?Nat.leb_le, ?length_drop; intros Hc.
  all: try (pose proof (Nat.div_mod_eq (length l) 1)).
  all: try (pose proof (Nat.div_mod_eq (length l) 2)).
  all: try (pose proof (Nat.div_mod_eq (length l) 3)).
  all: lia.
Qed.

(** Append what is not there yet. *)
Definition add_new `{EqDecision A} (rts : list A) (rt : A) : list A :=
  if decide (rt ∈ rts) then rts else rts ++ [rt].

Lemma add_new_elem `{EqDecision A} (rts : list A) rt x : x ∈ add_new rts rt <-> x ∈ rts \/ x = rt.
Proof. unfold add_new. case_decide; set_solver. Qed.
Lemma add_new_NoDup `{EqDecision A} (rts : list A) rt : NoDup rts -> NoDup (add_new rts rt).
Proof.
  unfold add_new. case_decide; [done|]. intros. apply NoDup_app. split_and!; [done| |apply NoDup_singleton].
  set_solver.
Qed.

Lemma push_index_absent (g : Route -> list nat) rts rt i : rt ∉ rts ->
  push_index (map (fun x => (x, g x)) rts) rt i = map (fun x => (x, g x)) rts ++ [(rt, [i])].
Proof.
  induction rts as [|a rts IH]; intros Hn; simpl; [done|].
  rewrite decide_False by set_solver. by rewrite IH by set_solver.
Qed.

Lemma push_index_map (g : Route -> list nat) rts rt i : NoDup rts -> (rt ∉ rts -> g rt = []) ->
  push_index (map (fun x => (x, g x)) rts) rt i =
  map (fun x => (x, if decide (x = rt) then g x ++ [i] else g x)) (add_new rts rt).
Proof.
  intros Hnd Hg. unfold add_new. case_decide as Hin.
  - clear Hg. induction rts as [|a rts IH]; [set_solver|]. apply NoDup_cons in Hnd as [Ha Hnd]. simpl.
    case_decide as Ea.
    + f_equal. apply map_ext_in. intros x Hx%list_elem_of_In. rewrite decide_False; [done|]. by intros ->; subst.
    + f_equal. apply IH; set_solver.
  - rewrite push_index_absent by done. rewrite map_app. simpl. rewrite decide_True, Hg by done. simpl.
    f_equal. apply map_ext_in. intros x Hx%list_elem_of_In. rewrite decide_False; [done|]. by intros ->.
Qed.

Definition push_all (m : routes_map) (rt : Route) (ix : list nat) : routes_map :=
  foldl (fun m i => push_index m rt i) m ix.

Lemma push_all_map (g : Route -> list nat) rts rt ix : NoDup rts -> (rt ∉ rts -> g rt = []) ->
  ix <> [] ->
  push_all (map (fun x => (x, g x)) rts) rt ix =
  map (fun x => (x, if decide (x = rt) then g x ++ ix else g x)) (add_new rts rt).
Proof.
  revert g rts. induction ix as [|i ix IH]; intros g rts Hnd Hg Hne; [done|].
  unfold push_all. simpl. rewrite push_index_map by done. destruct ix as [|i' ix]; [done|].
  change (push_all (map (fun x => (x, if decide (x = rt) then g x ++ [i] else g x)) (add_new rts rt)) rt
    (i' :: ix) = map (fun x => (x, if decide (x = rt) then g x ++ i :: i' :: ix else g x)) (add_new rts rt)).
  rewrite (IH (fun x => if decide (x = rt) then g x ++ [i] else g x)); [|by apply add_new_NoDup| |done].
  - unfold add_new at 1. rewrite decide_True by (apply add_new_elem; by right).
    apply map_ext. intros x. case_decide; [|done]. by rewrite <- app_assoc.
  - intros Hn. destruct Hn. apply add_new_elem. by right.
Qed.

Section split.
Context `{Crc16}.
Variables (ro : bool) (p : MultiSlotArgPattern) (l : list bytes).
Let w := width p.

Definition route_of (j : nat) : Route := get_route ro (nth (j * width p) l []).
(** The groups below [j] that go to [x]. *)
Definition groups_of (j : nat) (x : Route) : list nat := filter (fun i => route_of i = x) (seq 0 j).
Definition indices_of (j : nat) (x : Route) : list nat :=
  concat (map (fun i => seq (i * width p) (width p)) (groups_of j x)).
Definition routes_seen (j : nat) : list Route := foldl add_new [] (map route_of (seq 0 j)).
Definition routes_upto (j : nat) : routes_map := map (fun x => (x, indices_of j x)) (routes_seen j).

Lemma width_pos : 1 <= width p.
Proof using. destruct p; simpl; lia. Qed.

Lemma groups_of_S j x :
  groups_of (S j) x = groups_of j x ++ (if decide (x = route_of j) then [j] else []).
Proof using.
  unfold groups_of. rewrite seq_S, filter_app. simpl. f_equal. rewrite filter_cons, filter_nil.
  repeat case_decide; subst; done.
Qed.

Lemma indices_of_S j x :
  indices_of (S j) x = indices_of j x ++ (if decide (x = route_of j) then seq (j * width p) (width p) else []).
Proof using.
  unfold indices_of. rewrite groups_of_S, map_app, concat_app. f_equal. case_decide; [|done]. simpl.
  by rewrite app_nil_r.
Qed.

Lemma routes_seen_S j : routes_seen (S j) = add_new (routes_seen j) (route_of j).
Proof using. unfold routes_seen. by rewrite seq_S, map_app, foldl_app. Qed.

Lemma routes_seen_elem j x : x ∈ routes_seen j <-> exists i, i < j /\ route_of i = x.
Proof using.
  induction j as [|j IH]; [split; [set_solver|intros (i & ? & _); lia]|].
  rewrite routes_seen_S, add_new_elem, IH. split.
  - intros [(i & ? & ?)| ->]; [exists i|exists j]; (split; [lia|done]).
  - intros (i & ? & <-). destruct (decide (i = j)) as [->|]; [by right|left; exists i; split; [lia|done]].
Qed.

Lemma routes_seen_NoDup j : NoDup (routes_seen j).
Proof using.
  induction j as [|j IH]; [apply NoDup_nil_2|]. rewrite routes_seen_S. by apply add_new_NoDup.
Qed.

Lemma groups_of_absent j x : x ∉ routes_seen j -> groups_of j x = [].
Proof using.
  intros Hn. unfold groups_of. destruct (filter _ _) as [|i ix] eqn:E; [done|]. destruct Hn.
  assert (i ∈ filter (fun i => route_of i = x) (seq 0 j)) as Hi by (rewrite E; set_solver).
  apply list_elem_of_filter in Hi as [Hi Hj%elem_of_seq]. apply routes_seen_elem. exists i. split; [lia|done].
Qed.

Lemma routes_upto_S j : push_all (routes_upto j) (route_of j) (seq (j * width p) (width p)) = routes_upto (S j).
Proof using.
  unfold routes_upto. rewrite push_all_map, routes_seen_S.
  - apply map_ext. intros x. rewrite indices_of_S. case_decide; [done|by rewrite app_nil_r].
  - apply routes_seen_NoDup.
  - intros Hn. unfold indices_of. by rewrite groups_of_absent by done.
  - pose proof width_pos. by destruct (width p); [lia|].
Qed.
End split.

Section split_loop.
Context `{Crc16} {R : Type} `{Routable R}.
Implicit Types (r : R) (l : list bytes).

Lemma nth_some l i : i < length l -> l !! i = Some (nth i l []).
Proof. intros Hi. destruct (nth_lookup_or_length l i []); [done|lia]. Qed.

Lemma presents_arg_S r name l i : presents r (name :: l) -> r_arg_idx r (S i) = Some (l !! i).
Proof. intros Hr. by rewrite (presents_arg _ _ Hr). Qed.

Lemma push_index_arg r name l m rt c : presents r (name :: l) -> c < length l ->
  incr_add_next_arg r m rt c = Some (Some (S c, push_index m rt (S c))).
Proof.
  intros Hr Hc. unfold incr_add_next_arg. rewrite (presents_arg _ _ Hr). simpl.
  by rewrite nth_some by done.
Qed.

(** A round of the loop handles one group. *)
Lemma split_round fuel r name l ro p j : presents r (name :: l) -> complete p l = true ->
  j < ngroups p l -> p <> KeysAndLastArg \/ S j < ngroups p l ->
  multi_shard_loop (S fuel) r ro 1 p (j * width p) (routes_upto ro p l j) =
  multi_shard_loop fuel r ro 1 p (S j * width p) (routes_upto ro p l (S j)).
Proof.
  intros Hr [Hl _]%complete_length Hj Hp. rewrite <- routes_upto_S. cbn [multi_shard_loop].
  assert (S j * width p <= ngroups p l * width p) as Hw by (apply Nat.mul_le_mono_r; lia).
  pose proof (width_pos p). cbn [plus].
  rewrite (presents_arg_S r name l (j * width p)) by done. rewrite (nth_some l (j * width p)) by lia. cbn [mbind option_bind].
  change (get_route ro (nth (j * width p) l [])) with (route_of ro p l j).
  destruct p; cbn [width] in *; unfold push_all; cbn [seq foldl].
  - done.
  - rewrite (push_index_arg r name l) by (done || lia). cbn [try_bind fst snd]. done.
  - destruct Hp as [|Hp]; [done|]. rewrite (presents_arg_S r name l) by done. unfold ngroups in *.
    rewrite (nth_some l (j * 1 + 2)) by lia. cbn [mbind option_bind]. done.
  - rewrite (push_index_arg r name l) by (done || lia). cbn [try_bind fst snd].
    rewrite (push_index_arg r name l) by (done || lia). cbn [try_bind fst snd]. done.
Qed.

Definition with_shared (p : MultiSlotArgPattern) (n : nat) (m : routes_map) : routes_map :=
  map (fun '(x, ix) => (x, ix ++ shared_index p n)) m.

Lemma with_shared_id p n m : p <> KeysAndLastArg -> with_shared p n m = m.
Proof.
  intros Hp. unfold with_shared. assert (shared_index p n = []) as -> by (by destruct p).
  induction m as [|[x ix] m IH]; [done|]. simpl. by rewrite app_nil_r, IH.
Qed.

(** The last round. *)
Lemma split_end fuel r name l ro p : presents r (name :: l) -> complete p l = true ->
  p <> KeysAndLastArg ->
  multi_shard_loop (S fuel) r ro 1 p (ngroups p l * width p) (routes_upto ro p l (ngroups p l)) =
  Some (Some (routes_upto ro p l (ngroups p l))).
Proof.
  intros Hr [Hl _]%complete_length Hp. cbn [multi_shard_loop plus].
  rewrite (presents_arg_S r name l (ngroups p l * width p)) by done.
  assert (shared_args p l = []) as E by (by destruct p). rewrite E in Hl. simpl in Hl.
  by rewrite (lookup_ge_None_2 l (ngroups p l * width p)) by lia.
Qed.

Lemma split_end_last fuel r name l ro j : presents r (name :: l) ->
  complete KeysAndLastArg l = true -> S j = ngroups KeysAndLastArg l ->
  multi_shard_loop (S fuel) r ro 1 KeysAndLastArg j (routes_upto ro KeysAndLastArg l j) =
  Some (Some (with_shared KeysAndLastArg (S j) (routes_upto ro KeysAndLastArg l (S j)))).
Proof.
  intros Hr Hc%Nat.leb_le Hj. unfold ngroups in Hj. rewrite <- routes_upto_S. cbn [multi_shard_loop plus].
  rewrite !(presents_arg_S r name l) by done. rewrite (nth_some l j) by lia.
  rewrite (lookup_ge_None_2 l (j + 2)) by lia.
  cbn [mbind option_bind width]. unfold push_all, route_of, with_shared. cbn [seq foldl width shared_index].
  by rewrite Nat.mul_1_r.
Qed.

Lemma multi_shard_loop_split fuel r name l ro p m j : presents r (name :: l) -> complete p l = true ->
  j + m = ngroups p l -> (p = KeysAndLastArg -> 1 <= m) -> m < fuel ->
  multi_shard_loop fuel r ro 1 p (j * width p) (routes_upto ro p l j) =
  Some (Some (with_shared p (ngroups p l) (routes_upto ro p l (ngroups p l)))).
Proof.
  intros Hr Hc. revert fuel j. induction m as [|m IH]; intros fuel j Hj Hm Hf;
    (destruct fuel as [|fuel]; [lia|]).
  - assert (p <> KeysAndLastArg) as Hp by (intros ->; specialize (Hm eq_refl); lia). replace j with (ngroups p l) by lia.
    rewrite (split_end fuel r name l ro p) by done. by rewrite with_shared_id.
  - destruct (decide (p = KeysAndLastArg /\ m = O)) as [[-> ->]|Hn].
    + replace (ngroups KeysAndLastArg l) with (S j) by lia. cbn [width]. rewrite Nat.mul_1_r.
      apply split_end_last with name; [done..|lia].
    + assert (p <> KeysAndLastArg \/ m <> O) as Hn' by (destruct p; naive_solver).
      rewrite (split_round fuel r name l ro p j) by (done || lia || (destruct Hn'; [by left|right; lia])).
      apply IH; [lia| |lia]. intros ->. destruct Hn'; [done|lia].
Qed.
End split_loop.

(** ** Putting the replies in order *)

(** The argument positions of the groups [js]. *)
Definition expand (w : nat) (js : list nat) : list nat := concat (map (fun i => seq (i * w) w) js).

Lemma expand_cons w j js : expand w (j :: js) = seq (j * w) w ++ expand w js.
Proof. done. Qed.

Lemma length_expand w js : length (expand w js) = length js * w.
Proof. induction js as [|j js IH]; [done|]. rewrite expand_cons, length_app, length_seq. simpl. lia. Qed.

Lemma expand_1 js : expand 1 js = js.
Proof. induction js as [|j js IH]; [done|]. rewrite expand_cons, IH. simpl. f_equal. lia. Qed.

Lemma step_by_expand w js : w = 2 \/ w = 3 ->
  map (fun idx => idx / w) (step_by w (expand w js)) = js.
Proof.
  intros Hw. unfold step_by. induction js as [|j js IH]; [done|]. rewrite expand_cons.
  destruct Hw as [-> | ->]; cbn [map seq app step_by_go Nat.sub]; by rewrite IH, Nat.div_mul.
Qed.

Lemma check_indices_expand w (rts : list Route) (g : Route -> list nat) : w <> 0 ->
  check_indices_input w (map (fun x => (x, expand w (g x) ++ [])) rts) = Ok ().
Proof.
  intros Hw. induction rts as [|x rts IH]; [done|]. simpl. rewrite app_nil_r, length_expand.
  by rewrite Nat.Div0.mod_mul, IH.
Qed.

Lemma calculate_expand p n (rts : list Route) (g : Route -> list nat) :
  calculate_multi_slot_result_indices
    (map (fun x => (x, expand (width p) (g x) ++ shared_index p n)) rts) p =
  Ok (map (fun x => Some (g x)) rts).
Proof.
  unfold calculate_multi_slot_result_indices, grouped_indices.
  destruct p; cbn [width shared_index]; rewrite ?check_indices_expand by done; cbn [mbind result_bind];
    f_equal; rewrite map_map; apply map_ext; intros x; rewrite ?app_nil_r, ?expand_1; try done.
  - by rewrite step_by_expand by auto.
  - unfold without_last. destruct (g x ++ [n]) eqn:E; [by destruct (g x)|]. rewrite <- E.
    by rewrite length_app, Nat.add_sub, take_app_length.
  - by rewrite step_by_expand by auto.
Qed.

(** Writing [h j] at every [j] of a list. *)
Definition fill (h : nat -> Value) (results : list Value) (js : list nat) : list Value :=
  foldl (fun res j => <[j := h j]> res) results js.

Lemma fill_length h results js : length (fill h results js) = length results.
Proof.
  unfold fill. revert results. induction js as [|j js IH]; intros results; simpl; [done|].
  by rewrite IH, length_insert.
Qed.

Lemma fill_lookup h results js i : i ∈ js -> i < length results -> fill h results js !! i = Some (h i).
Proof.
  revert i. induction js as [|j js IH] using rev_ind; intros i Hi Hl; [set_solver|].
  unfold fill. rewrite foldl_app. simpl. fold (fill h results js).
  destruct (decide (i = j)) as [->|Hij]; [by rewrite list_lookup_insert_eq by (by rewrite fill_length)|].
  rewrite list_lookup_insert_ne by done. apply IH; [set_solver|done].
Qed.

Lemma fill_all h results js : (forall i, i < length results -> i ∈ js) ->
  fill h results js = map h (seq 0 (length results)).
Proof.
  intros Hall. apply list_eq. intros i. destruct (decide (i < length results)) as [Hi|Hi].
  - rewrite fill_lookup by auto. change (map h ?x) with (h <$> x).
    by rewrite list_lookup_fmap, lookup_seq_lt by done.
  - rewrite !lookup_ge_None_2; rewrite ?length_map, ?length_seq, ?fill_length; (done || lia).
Qed.

Lemma write_results_fill h results js : Forall (fun j => j < length results) js ->
  write_results results (zip js (map h js)) = Some (fill h results js).
Proof.
  revert results. induction js as [|j js IH]; intros results Hf; [done|]. apply Forall_cons in Hf as [Hj Hf].
  simpl. rewrite (proj2 (Nat.ltb_lt _ _)) by done. apply IH. by rewrite length_insert.
Qed.

Lemma combine_step_fill h results js : Forall (fun j => j < length results) js ->
  combine_sorted_step results (Some js, Array (map h js)) = Some (Ok (fill h results js)).
Proof.
  intros Hf. unfold combine_sorted_step. cbn [fst snd mbind option_bind].
  by rewrite length_map, Nat.eqb_refl, write_results_fill.
Qed.

Lemma combine_steps_fill h (g : Route -> list nat) results rts :
  Forall (fun x => Forall (fun j => j < length results) (g x)) rts ->
  try_fold_checked combine_sorted_step results
    (map (fun x => (Some (g x), Array (map h (g x)))) rts) =
  Some (Ok (fill h results (concat (map g rts)))).
Proof.
  revert results. induction rts as [|x rts IH]; intros results Hf; [done|].
  apply Forall_cons in Hf as [Hx Hf]. cbn [map try_fold_checked].
  rewrite combine_step_fill by done. cbn [mbind option_bind]. rewrite IH; [|by rewrite fill_length].
  cbn [map concat]. unfold fill. by rewrite foldl_app.
Qed.

Lemma result_count_arrays (h : nat -> Value) (g : Route -> list nat) rts :
  result_count (map (fun x => Array (map h (g x))) rts) = sum_list (map (fun x => length (g x)) rts).
Proof.
  enough (forall k, foldl (fun acc value => match value with Array vs => length vs + acc | _ => 0 end) k
    (map (fun x => Array (map h (g x))) rts) = sum_list (map (fun x => length (g x)) rts) + k) as E
    by (unfold result_count; rewrite E; lia).
  induction rts as [|x rts IH]; intros k; simpl; [done|]. rewrite IH, length_map. lia.
Qed.

Lemma zip_map {A B C} (f : A -> B) (g : A -> C) l : zip (map f l) (map g l) = map (fun x => (f x, g x)) l.
Proof. induction l as [|a l IH]; [done|]. simpl. by rewrite IH. Qed.

(** Every group is in the share of exactly one route. *)
Lemma sum_shares {A} (f : A -> Route) (s : list A) (rts : list Route) : NoDup rts ->
  Forall (fun a => f a ∈ rts) s ->
  sum_list (map (fun x => length (filter (fun a => f a = x) s)) rts) = length s.
Proof.
  intros Hnd. induction s as [|a s IH]; intros Hf.
  - clear. by induction rts as [|x rts IH].
  - apply Forall_cons in Hf as [Ha Hf]. simpl. rewrite <- (IH Hf). clear IH Hf.
    induction rts as [|x rts IH]; [set_solver|]. apply NoDup_cons in Hnd as [Hx Hnd]. simpl.
    rewrite filter_cons. case_decide as E.
    + subst x. cbn [length plus]. do 3 f_equal. apply map_ext_in. intros y Hy%list_elem_of_In.
      rewrite filter_cons, decide_False; [done|]. by intros E; rewrite E in Hx.
    + rewrite IH; [lia|done|set_solver].
Qed.

(** ** The sub-commands *)

Lemma sub_args_fold {R} `{Routable R} (r : R) name l ix c : presents r (name :: l) -> cmd_ok c ->
  exists c', foldl (fun acc index => new_cmd ← acc; a ← r_arg_idx r (index + 1);
                                     Some (opt_arg new_cmd a)) (Some c) ix = Some c' /\
    cmd_ok c' /\ args_iter c' = args_iter c ++ map Simple (omap (fun i => l !! i) ix).
Proof.
  intros Hr. revert c. induction ix as [|i ix IH]; intros c Hok; simpl.
  - exists c. by rewrite app_nil_r.
  - rewrite Nat.add_1_r, (presents_arg_S r name l) by done. cbn [mbind option_bind].
    destruct (l !! i) as [a|]; simpl; [|by apply IH].
    destruct (write_arg_ok c a Hok) as [Hok' E]. destruct (IH _ Hok') as (c' & -> & ? & Hi).
    exists c'. by rewrite Hi, E, <- app_assoc.
Qed.

Lemma sub_command {R} `{Routable R} (r : R) name l ix : presents r (name :: l) ->
  exists c, command_for_multi_slot_indices r ix = Some c /\ cmd_ok c /\
    args_iter c = map Simple (name :: omap (fun i => l !! i) ix).
Proof.
  intros Hr. unfold command_for_multi_slot_indices. rewrite (presents_arg _ _ Hr). cbn [mbind option_bind].
  destruct (write_arg_ok Cmd_new name) as [Hok E]; [done|].
  destruct (sub_args_fold r name l ix _ Hr Hok) as (c & Hc & ? & Hi). exists c. simpl in *.
  by rewrite Hc, Hi, E.
Qed.

Lemma omap_seq (l : list bytes) a w : omap (fun i => l !! i) (seq a w) = take w (drop a l).
Proof.
  revert a. induction w as [|w IH]; intros a; [done|]. cbn [seq]. destruct (l !! a) as [x|] eqn:E.
  - rewrite (drop_S _ _ _ E). cbn [omap list_omap take]. rewrite E. f_equal. apply IH.
  - cbn [omap list_omap]. rewrite E. etrans; [apply IH|]. apply lookup_ge_None in E.
    by rewrite !drop_ge, !take_nil by lia.
Qed.

Lemma omap_expand (l : list bytes) w js :
  omap (fun i => l !! i) (expand w js) = concat (map (fun j => take w (drop (j * w) l)) js).
Proof.
  induction js as [|j js IH]; [done|]. by rewrite expand_cons, omap_app, omap_seq, IH.
Qed.

Lemma omap_shared p l : complete p l = true ->
  omap (fun i => l !! i) (shared_index p (ngroups p l)) = shared_args p l.
Proof.
  intros Hc. destruct p; try done. apply Nat.leb_le in Hc. cbn [shared_index ngroups].
  change [length l - 1] with (seq (length l - 1) 1). rewrite omap_seq. unfold shared_args.
  apply take_ge. rewrite length_drop. lia.
Qed.

Lemma length_concat_uniform {A B} (f : A -> list B) w js : Forall (fun j => length (f j) = w) js ->
  length (concat (map f js)) = length js * w.
Proof.
  induction js as [|j js IH]; intros Hf; [done|]. apply Forall_cons in Hf as [Hj Hf]. simpl.
  rewrite length_app, IH, Hj by done. lia.
Qed.

Lemma chunk_lookup {A B} (f : A -> list B) w js rest i j : Forall (fun j => length (f j) = w) js ->
  js !! i = Some j -> take w (drop (i * w) (concat (map f js) ++ rest)) = f j.
Proof.
  revert i. induction js as [|j' js IH]; intros i Hf Hi; [done|]. apply Forall_cons in Hf as [Hj Hf].
  simpl. rewrite <- app_assoc. destruct i as [|i]; simpl in *.
  - simplify_eq. by rewrite drop_0, take_app_length.
  - replace (w + i * w) with (length (f j') + i * w) by lia.
    rewrite <- drop_drop, drop_app_length. by apply IH.
Qed.

Lemma length_shared p l : complete p l = true -> length (shared_args p l) = length (shared_index p 0).
Proof.
  intros Hc. destruct p; try done. apply Nat.leb_le in Hc. unfold shared_args. rewrite length_drop.
  cbn [shared_index length]. lia.
Qed.

(** A sub-command consists of the groups of its route. *)
Lemma groups_sub p l js : complete p l = true -> js <> [] -> Forall (fun j => j < ngroups p l) js ->
  groups p (concat (map (fun j => take (width p) (drop (j * width p) l)) js) ++ shared_args p l) =
  map (group p l) js.
Proof.
  intros Hc Hne Hjs. pose proof (length_shared _ _ Hc) as Hs. apply complete_length in Hc as [Hl _].
  set (f := fun j => take (width p) (drop (j * width p) l)).
  assert (Forall (fun j => length (f j) = width p) js) as Hf.
  { eapply Forall_impl; [exact Hjs|]. intros j Hj. cbv beta in Hj. unfold f. rewrite length_take, length_drop.
    assert (S j * width p <= ngroups p l * width p) by (apply Nat.mul_le_mono_r; lia). lia. }
  pose proof (length_concat_uniform f _ _ Hf) as Hlen. set (sub := concat (map f js) ++ shared_args p l).
  assert (length sub = length js * width p + length (shared_args p l)) as Hsub by
    (unfold sub; rewrite length_app; lia).
  assert (ngroups p sub = length js) as Hn.
  { unfold ngroups. rewrite Hsub, Hs. destruct p; cbn [shared_index width length];
      rewrite ?Nat.add_0_r, ?Nat.div_mul by done; lia. }
  assert (shared_args p sub = shared_args p l) as Hsh.
  { destruct p; try done. unfold shared_args at 1. unfold sub. rewrite drop_length_app; [done|].
    fold sub. rewrite Hsub, Hs, Hlen. simpl. lia. }
  unfold groups. rewrite Hn. apply list_eq. intros i.
  change (map (group p sub) ?x) with (group p sub <$> x). change (map (group p l) ?x) with (group p l <$> x).
  rewrite !list_lookup_fmap. destruct (js !! i) as [j|] eqn:Ej.
  - rewrite lookup_seq_lt by (by eapply lookup_lt_Some). simpl. f_equal. unfold group. rewrite Hsh. f_equal.
    exact (chunk_lookup f _ _ _ _ _ Hf Ej).
  - apply lookup_ge_None in Ej. by rewrite lookup_seq_ge by done.
Qed.

(** What a route carries after the split: the positions of its groups. *)
Definition share `{Crc16} (ro : bool) (p : MultiSlotArgPattern) (l : list bytes) (x : Route)
    : Route * list nat :=
  (x, expand (width p) (groups_of ro p l (ngroups p l) x) ++ shared_index p (ngroups p l)).

Lemma multi_shard_split `{Crc16} `{HashOrder} {R} `{Routable R} (r : R) cmd name l p :
  presents r (name :: l) -> complete p l = true ->
  exists rts, NoDup rts /\ rts <> [] /\
    (forall x, x ∈ rts <-> exists j, j < ngroups p l /\ route_of (is_readonly_cmd cmd) p l j = x) /\
    multi_shard r cmd 1 p =
    Some (Some (match map (share (is_readonly_cmd cmd) p l) rts with
                | [(route, _)] => SingleNode (SpecificNode route)
                | routes => MultiNode (MultiSlot routes p) (for_command cmd)
                end)).
Proof.
  intros Hr Hc. set (ro := is_readonly_cmd cmd). pose proof (complete_length _ _ Hc) as [Hl Hn].
  unfold multi_shard. rewrite (presents_len _ _ Hr). fold ro.
  assert (ngroups p l <= length l) as Hle by (pose proof (width_pos p); nia).
  pose proof (multi_shard_loop_split (S (length (name :: l))) r name l ro p (ngroups p l) 0 Hr Hc eq_refl)
    as E. cbn [Nat.mul] in E. change (routes_upto ro p l 0) with (@nil (Route * list nat)) in E.
  rewrite E by (simpl; lia). clear E. cbn [try_bind].
  assert (with_shared p (ngroups p l) (routes_upto ro p l (ngroups p l)) =
    map (share ro p l) (routes_seen ro p l (ngroups p l))) as ->
    by (unfold with_shared, routes_upto; by rewrite map_map).
  pose proof (hash_order_perm (map (share ro p l) (routes_seen ro p l (ngroups p l)))) as Hp.
  apply Permutation_map_inv in Hp as (rts & -> & Hp). assert (rts <> []) as Hne.
  { intros ->. apply Permutation_sym, Permutation_nil in Hp.
    assert (route_of ro p l 0 ∈ routes_seen ro p l (ngroups p l)) as Hin
      by (apply routes_seen_elem; exists O; split; [lia|done]).
    rewrite Hp in Hin. set_solver. }
  exists rts. split_and!; [|done| |].
  - rewrite <- Hp. apply routes_seen_NoDup.
  - intros x. rewrite <- Hp. apply routes_seen_elem.
  - by destruct rts as [|x [|]].
Qed.

(** The arguments of a command, and the array a node answers a sub-command
    with: one reply per group, which only depends on the group. *)
Definition args_of (c : Cmd) : list bytes :=
  omap (fun a => match a with Simple b => Some b | Cursor => None end) (args_iter c).
Definition node_reply (p : MultiSlotArgPattern) (f : list bytes -> Value) (c : Cmd) : Value :=
  Array (map f (groups p (tail (args_of c)))).

Lemma args_of_simple c l : args_iter c = map Simple l -> args_of c = l.
Proof.
  intros E. unfold args_of. rewrite E. clear E. induction l as [|a l IH]; [done|].
  cbn. f_equal. exact IH.
Qed.

Section recombine.
Context `{Crc16} {R : Type} `{Routable R}.
Variables (r : R) (name : bytes) (l : list bytes) (ro : bool) (p : MultiSlotArgPattern).
Hypothesis Hr : presents r (name :: l).
Hypothesis Hc : complete p l = true.
Let n := ngroups p l.
Let gs := groups_of ro p l n.

Lemma groups_of_bound x : Forall (fun j => j < n) (gs x).
Proof using.
  apply Forall_forall. intros j Hj. unfold gs, groups_of in Hj.
  apply list_elem_of_filter in Hj as [_ Hj%elem_of_seq]. lia.
Qed.

Lemma groups_of_elem j : j < n -> j ∈ gs (route_of ro p l j).
Proof using. intros Hj. apply list_elem_of_filter. split; [done|]. apply elem_of_seq. lia. Qed.

Lemma sub_commands rts : (forall x, x ∈ rts -> exists j, j < n /\ route_of ro p l j = x) ->
  exists subs, mapM (fun '(_, ix) => command_for_multi_slot_indices r ix) (map (share ro p l) rts) = Some subs /\
    Forall2 (fun x c => groups p (tail (args_of c)) = map (group p l) (gs x)) rts subs.
Proof using Hr Hc.
  induction rts as [|x rts IH]; intros Hx; [by exists []|]. cbn [map mapM].
  destruct (sub_command r name l (share ro p l x).2 Hr) as (c & Ec & _ & Hi).
  destruct IH as (subs & Es & Hs); [intros; apply Hx; set_solver|]. exists (c :: subs). split.
  - simpl in *. rewrite Ec. simpl. by rewrite Es.
  - constructor; [|done]. rewrite (args_of_simple _ _ Hi). simpl.
    rewrite omap_app, omap_expand, omap_shared by done. apply groups_sub; [done| |apply groups_of_bound].
    destruct (Hx x) as (j & Hj & <-); [set_solver|]. pose proof (groups_of_elem j Hj) as Hg.
    intros E. rewrite E in Hg. set_solver.
Qed.

Lemma group_head j : j < n -> exists g, group p l j = nth (j * width p) l [] :: g.
Proof using Hc.
  intros Hj. pose proof (complete_length _ _ Hc) as [Hl _]. pose proof (width_pos p).
  assert (S j * width p <= n * width p) by (apply Nat.mul_le_mono_r; lia). unfold n in *.
  unfold group. destruct (width p) as [|w]; [lia|].
  rewrite (drop_S _ _ _ (nth_some l (j * S w) ltac:(lia))). simpl. eauto.
Qed.

Lemma replies_in_order (f : list bytes -> Value) rts : NoDup rts ->
  (forall x, x ∈ rts <-> exists j, j < n /\ route_of ro p l j = x) ->
  combine_and_sort_array_results (map (fun x => Array (map f (map (group p l) (gs x)))) rts)
    (map (share ro p l) rts) p = Some (Ok (Array (map f (groups p l)))).
Proof using Hc.
  intros Hnd Hx. unfold combine_and_sort_array_results. unfold share at 1. rewrite calculate_expand.
  rewrite !length_map, Nat.eqb_refl.
  assert (map (fun x => Array (map f (map (group p l) (gs x)))) rts =
    map (fun x => Array (map (fun j => f (group p l j)) (gs x))) rts) as ->
    by (apply map_ext; intros; by rewrite map_map).
  assert (sum_list (map (fun x => length (gs x)) rts) = n) as Hsum.
  { rewrite <- (length_seq n 0). apply (sum_shares (route_of ro p l) (seq 0 n)); [done|].
    apply Forall_forall. intros j Hj%elem_of_seq. apply Hx. exists j. split; [lia|done]. }
  rewrite (zip_map (fun x => Some (gs x))), result_count_arrays, Hsum, combine_steps_fill.
  - rewrite fill_all; rewrite length_replicate; [by unfold groups; rewrite map_map|].
    intros j Hj. apply elem_of_concat. exists (gs (route_of ro p l j)). split; [by apply groups_of_elem|].
    apply list_elem_of_In, in_map, list_elem_of_In, Hx. eauto.
  - rewrite length_replicate. apply Forall_forall. intros x _. apply groups_of_bound.
Qed.

(** The replies to the sub-commands, combined. *)
Lemma sub_replies_combine (f : list bytes -> Value) rts subs : NoDup rts ->
  (forall x, x ∈ rts <-> exists j, j < n /\ route_of ro p l j = x) ->
  Forall2 (fun x c => groups p (tail (args_of c)) = map (group p l) (gs x)) rts subs ->
  combine_and_sort_array_results (map (node_reply p f) subs) (map (share ro p l) rts) p =
    Some (Ok (Array (map f (groups p l)))).
Proof using Hc.
  intros Hnd Hx Hs. rewrite <- (replies_in_order f rts Hnd Hx). f_equal. clear -Hs.
  induction Hs as [|x c rts subs E _ IH]; [done|]. simpl. rewrite IH. f_equal.
  unfold node_reply. by rewrite E.
Qed.
End recombine.

(** C4. A command on keys of several slots is split into sub-commands, one per
    slot, and the replies to the sub-commands are put back in the order of the
    keys of the original command: for each of the four argument patterns,
    whatever order the routes come in, [multi_shard] succeeds (sending to one
    node when all keys share a slot), every key is in the sub-command sent to
    its own slot, and combining the replies gives what one node holding all
    keys would have answered. *)
Theorem multi_slot_recombined `{Crc16} `{HashOrder} {R} `{Routable R} (r : R) (cmd name : bytes)
    (l : list bytes) (p : MultiSlotArgPattern) (f : list bytes -> Value)
    (Hr : presents r (name :: l)) (Hc : complete p l = true) :
  exists routes subs,
    multi_shard r cmd 1 p =
      Some (Some (match routes with
                  | [(route, _)] => SingleNode (SpecificNode route)
                  | _ => MultiNode (MultiSlot routes p) (for_command cmd)
                  end)) /\
    NoDup (map fst routes) /\
    mapM (fun '(_, ix) => command_for_multi_slot_indices r ix) routes = Some subs /\
    Forall2 (fun '(route, _) c => Forall (fun g => exists key rest, g = key :: rest /\
        get_route (is_readonly_cmd cmd) key = route) (groups p (tail (args_of c)))) routes subs /\
    combine_and_sort_array_results (map (node_reply p f) subs) routes p =
      Some (Ok (Array (map f (groups p l)))).
Proof.
  destruct (multi_shard_split r cmd name l p Hr Hc) as (rts & Hnd & Hne & Hx & E).
  destruct (sub_commands r name l (is_readonly_cmd cmd) p Hr Hc rts) as (subs & Es & Hs); [by intros ? ?%Hx|].
  exists (map (share (is_readonly_cmd cmd) p l) rts), subs.
  split_and!; [rewrite E; by destruct rts as [|? [|]]| |done| |].
  - rewrite map_map. simpl. by rewrite map_id.
  - apply Forall2_fmap_l. eapply Forall2_impl; [exact Hs|]. intros x c Hg. cbn. rewrite Hg.
    apply Forall_fmap, Forall_forall. intros j Hj. pose proof (groups_of_bound l (is_readonly_cmd cmd) p x) as Hb.
    rewrite Forall_forall in Hb. specialize (Hb j Hj). destruct (group_head l p Hc j Hb) as [g Eg].
    exists (nth (j * width p) l []), g. split; [done|]. by apply list_elem_of_filter in Hj as [Hj _].
  - by apply sub_replies_combine.
Qed.

(** ** Requests in memory and on the wire are routed alike *)

Lemma find_position_map {A B} (g : A -> B) (f : B -> bool) l :
  find_position f (map g l) = find_position (fun a => f (g a)) l.
Proof. induction l as [|a l IH]; [done|]. simpl. case_match; [done|]. by rewrite IH. Qed.

Lemma presents_value l : presents (Array (map BulkString l)) l.
Proof.
  split; simpl.
  - intros i. change (map BulkString l) with (BulkString <$> l). rewrite list_lookup_fmap.
    by destruct (l !! i).
  - intros x. apply find_position_map.
  - apply length_map.
Qed.

Lemma presents_cmd c : cmd_ok c -> Cursor ∉ args c -> head (args_iter c) <> Some (Simple []) ->
  exists l, args_iter c = map Simple l /\ presents c l.
Proof.
  intros Hok Hcur Hh. destruct (arg_idx_simple c Hok Hcur) as (l & Hi & Hl & Ha). exists l.
  split; [done|]. split; simpl; [|intros x; rewrite Hi; apply find_position_map|done].
  intros i. rewrite Ha. case_bool_decide as E; [|done]. destruct l as [|a l]; [by destruct i|].
  simpl in E. apply app_eq_nil in E as [-> _]. by rewrite Hi in Hh.
Qed.
Lemma presents_args c l : cmd_ok c -> Cursor ∉ args c -> args_iter c = map Simple l -> head l <> Some [] ->
  presents c l.
Proof.
  intros Hok Hcur Hi Hh. destruct (presents_cmd c Hok Hcur) as (l' & Hi' & Hp).
  { rewrite Hi. destruct l as [|[] l]; simpl in *; congruence. }
  assert (l = l') as ->; [|done]. rewrite Hi in Hi'. clear -Hi'.
  revert l' Hi'. induction l as [|a l IH]; intros [|b l']; simpl; try done.
  intros [= -> Hl]. f_equal. by apply IH.
Qed.

Section same_route.
Context `{Crc16} `{HashOrder} {R R' : Type} `{Routable R} `{Routable R'}.
Variables (r : R) (r' : R') (l : list bytes).
Hypothesis Hr : presents r l.
Hypothesis Hr' : presents r' l.

Lemma same_args i : r_arg_idx r i = r_arg_idx r' i.
Proof using Hr Hr'. by rewrite (presents_arg _ _ Hr), (presents_arg _ _ Hr'). Qed.

Lemma same_loop fuel ro first p curr m :
  multi_shard_loop fuel r ro first p curr m = multi_shard_loop fuel r' ro first p curr m.
Proof using Hr Hr'.
  revert curr m. induction fuel as [|fuel IH]; intros curr m; [done|]. cbn [multi_shard_loop].
  unfold incr_add_next_arg. rewrite !same_args. destruct (r_arg_idx r' (first + curr)) as [[a|]|]; [|done..].
  cbn [mbind option_bind]. destruct p; rewrite ?IH; try done.
  - destruct (r_arg_idx r' (S curr)) as [[]|]; [|done..]. apply IH.
  - destruct (r_arg_idx r' (S curr)) as [[]|]; [|done..]. cbn [try_bind fst snd]. rewrite same_args.
    destruct (r_arg_idx r' (S (S curr))) as [[]|]; [|done..]. apply IH.
Qed.

Lemma same_routing : for_routable r = for_routable r'.
Proof using Hr Hr'.
  unfold for_routable, command, key_at, multi_shard.
  rewrite !same_args, (presents_position _ _ Hr), (presents_position _ _ Hr').
  rewrite (presents_len _ _ Hr), (presents_len _ _ Hr').
  destruct (r_arg_idx r' 0) as [[a|]|]; [|done..]. cbn [try_bind].
  destruct (if one_of _ _ then _ else _) as [[cmd|]|]; [|done..]. cbn [try_bind].
  destruct (base_routing cmd); try done; [by rewrite same_loop|].
  destruct (find_position _ l) as [k|]; [|done]. cbn [try_bind]. by rewrite same_args.
Qed.
End same_route.

Lemma multi_shard_loop_eq `{Crc16} {R} `{Routable R} (r : R) fuel ro p curr m :
  multi_shard_loop (S fuel) r ro 1 p curr m =
  (arg ← r_arg_idx r (1 + curr);
   match arg with
   | None => Some (Some m)
   | Some arg =>
       let route := get_route ro arg in
       let m := push_index m route curr in
       match p with
       | KeysOnly => multi_shard_loop fuel r ro 1 p (S curr) m
       | KeyValuePairs =>
           q ←? incr_add_next_arg r m route curr; multi_shard_loop fuel r ro 1 p (S q.1) q.2
       | KeysAndLastArg =>
           next ← r_arg_idx r (1 + curr + 2);
           match next with
           | None => Some (Some (map (fun '(k, ix) => (k, ix ++ [S curr])) m))
           | Some _ => multi_shard_loop fuel r ro 1 p (S curr) m
           end
       | KeyWithTwoArgTriples =>
           q ←? incr_add_next_arg r m route curr;
           q' ←? incr_add_next_arg r q.2 route q.1;
           multi_shard_loop fuel r ro 1 p (S q'.1) q'.2
       end
   end).
Proof. by destruct p. Qed.

(** The loop ends within [S (length l)] rounds and does not panic. *)
Lemma multi_shard_loop_total `{Crc16} {R} `{Routable R} (r : R) l fuel ro p curr m :
  presents r l -> length l <= curr + S fuel -> is_Some (multi_shard_loop (S fuel) r ro 1 p curr m).
Proof.
  intros Hr. revert curr m. induction fuel as [|fuel IH]; intros curr m Hf;
    rewrite multi_shard_loop_eq, (presents_arg _ _ Hr (1 + curr)); cbn [mbind option_bind].
  - rewrite (lookup_ge_None_2 l (1 + curr)) by (simpl; lia). eauto.
  - destruct (l !! (1 + curr)) as [a|] eqn:Ea; [|eauto]. destruct p.
    + apply IH. lia.
    + unfold incr_add_next_arg. rewrite (presents_arg _ _ Hr). destruct (l !! S curr); simpl; [|eauto].
      apply IH. lia.
    + rewrite (presents_arg _ _ Hr). cbn [mbind option_bind]. case_match; [|eauto]. apply IH. lia.
    + unfold incr_add_next_arg. rewrite (presents_arg _ _ Hr). destruct (l !! S curr); simpl; [|eauto].
      rewrite (presents_arg _ _ Hr). destruct (l !! S (S curr)); simpl; [|eauto]. apply IH. lia.
Qed.

Lemma for_routable_total `{Crc16} `{HashOrder} {R} `{Routable R} (r : R) l :
  presents r l -> is_Some (for_routable r).
Proof.
  intros Hr. unfold for_routable, command, key_at, multi_shard. rewrite !(presents_arg _ _ Hr).
  destruct (l !! 0) as [a|]; [|eauto]. cbn [try_bind mbind option_bind].
  destruct (if one_of _ _ then _ else _) as [[cmd|]|] eqn:E; [|eauto|by case_match]. clear E. cbn [try_bind].
  destruct (base_routing cmd); cbn [try_bind mbind option_bind]; eauto.
  - destruct (multi_shard_loop_total r l (r_len r) (is_readonly_cmd cmd) p 0 [] Hr) as [[m|] Em];
      rewrite ?(presents_len _ _ Hr) in *; [lia| |]; rewrite Em; simpl; eauto.
  - destruct (l !! 2); simpl; eauto.
  - destruct (l !! 1) as [b|]; simpl; [|eauto]. destruct (parse_arg u64_ty b); simpl; [|eauto].
    case_match; [eauto|]. destruct (l !! 2); simpl; eauto.
  - destruct (l !! 2) as [b|]; simpl; [|eauto]. destruct (parse_arg u16_ty b ≫= Slot_new); simpl; eauto.
  - destruct (r_position r (bs "STREAMS")) as [k|]; simpl; [|eauto]. rewrite (presents_arg _ _ Hr).
    destruct (l !! (k + 1)); simpl; eauto.
  - destruct (l !! 2) as [b|]; simpl; [|eauto]. destruct (parse_arg u64_ty b); simpl; [|eauto].
    case_match; [eauto|]. destruct (l !! 3); simpl; eauto.
Qed.

(** A command is routed like the array of bulk strings it is on the wire,
    and routing it never panics, provided it has no cursor argument and its
    name is not empty: the routing of the cluster client does not depend on
    whether it looks at the command or at its encoding. *)
Theorem routed_as_on_the_wire `{Crc16} `{HashOrder} (c : Cmd) (cur : Z) (Hok : cmd_ok c)
    (Hcur : Cursor ∉ args c) (Hname : head (args_iter c) <> Some (Simple [])) :
  for_routable c = for_routable (command_value (args_iter c) cur) /\ is_Some (for_routable c).
Proof.
  destruct (presents_cmd c Hok Hcur Hname) as (l & Hi & Hp). split; [|by eapply for_routable_total].
  rewrite Hi. unfold command_value. rewrite map_map. apply same_routing with l; [done|]. apply presents_value.
Qed.

(** The slot of a key is a valid slot; it is computed from the hash tag when
    the key has one (the part between the first opening brace and the first
    closing brace behind it, when it is not empty) and from the whole key
    otherwise, so keys with the same tag share a slot. *)
Theorem key_slot_correct `{Crc16} (key : bytes) :
  let tagged t := exists pre post,
    key = pre ++ OPEN :: t ++ CLOSE :: post /\ OPEN ∉ pre /\ CLOSE ∉ t /\ t <> [] in
  (0 <= slot_number (Slot_for_key key) < SLOT_SIZE)%Z /\
  Slot_new (slot_number (Slot_for_key key)) = Some (Slot_for_key key) /\
  ((exists t, tagged t /\ slot_number (Slot_for_key key) = crc16_xmodem t mod SLOT_SIZE)%Z \/
   ((forall t, ~ tagged t) /\ slot_number (Slot_for_key key) = crc16_xmodem key mod SLOT_SIZE)%Z).
Proof.
  intros tagged. pose proof (Slot_for_key_bound key) as Hb. split; [done|]. split.
  - unfold Slot_new. rewrite (proj2 (Z.ltb_lt _ _)) by lia. done.
  - simpl. destruct (get_hashtag key) as [t|] eqn:E.
    + left. exists t. split; [|done]. by apply get_hashtag_spec.
    + right. split; [|done]. intros t Ht%get_hashtag_spec. by rewrite Ht in E.
Qed.

Lemma pairs_round `{Crc16} {R} `{Routable R} (r : R) name l fuel ro i k m :
  presents r (name :: l) -> l !! i = Some k ->
  multi_shard_loop (S fuel) r ro 1 KeyValuePairs i m =
  multi_shard_loop fuel r ro 1 KeyValuePairs (S (S i))
    (push_index (push_index m (get_route ro k) i) (get_route ro k) (S i)).
Proof.
  intros Hr Hk. rewrite multi_shard_loop_eq. cbn [plus]. rewrite (presents_arg_S r name l i), Hk by done.
  cbn [mbind option_bind]. rewrite (push_index_arg r name l) by (done || by eapply lookup_lt_Some). done.
Qed.

(** The check for a missing value in [multi_shard] looks one argument too
    early and never fails: a command of key and value pairs whose last value is
    missing is routed all the same, and the sub-command for its last key is
    sent without a value. *)
Theorem missing_value_not_detected `{Crc16} `{HashOrder} {R} `{Routable R} (r : R)
    (cmd name k1 v1 k2 : bytes) (Hr : presents r [name; k1; v1; k2])
    (Hne : get_route (is_readonly_cmd cmd) k1 <> get_route (is_readonly_cmd cmd) k2) :
  exists routes c,
    multi_shard r cmd 1 KeyValuePairs =
      Some (Some (MultiNode (MultiSlot routes KeyValuePairs) (for_command cmd))) /\
    (get_route (is_readonly_cmd cmd) k2, [2; 3]) ∈ routes /\
    command_for_multi_slot_indices r [2; 3] = Some c /\ args_of c = [name; k2].
Proof.
  unfold multi_shard. rewrite (presents_len _ _ Hr). set (ro := is_readonly_cmd cmd) in *.
  set (m := [(get_route ro k1, [0; 1]); (get_route ro k2, [2; 3])]).
  assert (multi_shard_loop 5 r ro 1 KeyValuePairs 0 [] = Some (Some m)) as E.
  { rewrite (pairs_round r name [k1; v1; k2] 4 ro 0 k1), (pairs_round r name [k1; v1; k2] 3 ro 2 k2) by done.
    rewrite multi_shard_loop_eq, (presents_arg _ _ Hr (1 + 4)).
    change ([name; k1; v1; k2] !! (1 + 4)) with (@None bytes). cbn [mbind option_bind].
    do 2 f_equal. unfold m. cbn [push_index app]. repeat (case_decide; cbn [push_index app]); done || congruence. }
  cbn [length]. rewrite E. cbn [try_bind]. pose proof (hash_order_perm m) as Hp.
  destruct (sub_command r name [k1; v1; k2] [2; 3] Hr) as (c & Ec & _ & Hi).
  exists (hash_order m), c. split_and!; [| |done|by rewrite (args_of_simple _ _ Hi)].
  - pose proof (Permutation_length Hp) as Hl. by destruct (hash_order m) as [|[] [|]].
  - rewrite Hp. unfold m. set_solver.
Qed.

(** ** Aggregation *)

Lemma sum_steps `{BuildProfile} ns acc vs :
  Forall (fun k => in_i64 (acc + foldr Z.add 0 (take k ns))%Z) (seq 0 (S (length ns))) ->
  try_fold_checked (aggregate_step Sum) acc (map Int ns ++ vs) =
  try_fold_checked (aggregate_step Sum) (acc + foldr Z.add 0 ns)%Z vs.
Proof.
  revert acc. induction ns as [|n ns IH]; intros acc Hf; [simpl; by rewrite Z.add_0_r|].
  cbn [map app try_fold_checked aggregate_step foldr]. rewrite Forall_forall in Hf.
  rewrite i64_add_small.
  2:{ specialize (Hf 1). simpl in Hf. rewrite Z.add_0_r in Hf. apply Hf. set_solver. }
  cbn [fmap option_fmap option_map mbind option_bind]. rewrite IH; [by rewrite Z.add_assoc|].
  apply Forall_forall. intros k Hk%elem_of_seq. specialize (Hf (S k)). cbn [take foldr] in Hf.
  rewrite <- Z.add_assoc. apply Hf. apply elem_of_seq. simpl. lia.
Qed.

Lemma min_steps `{BuildProfile} ns acc vs : (acc <= i64_max)%Z ->
  try_fold_checked (aggregate_step Min) acc (map Int ns ++ vs) =
  try_fold_checked (aggregate_step Min) (Z.min acc (foldr Z.min i64_max ns)) vs.
Proof.
  revert acc. induction ns as [|n ns IH]; intros acc Ha; [simpl; by rewrite Z.min_l|].
  cbn [map app try_fold_checked aggregate_step foldr mbind option_bind]. rewrite IH by lia.
  by rewrite Z.min_assoc.
Qed.

(** [aggregate] of integer replies is their sum (as long as no partial sum
    leaves the range of [i64]) or their least element, and a reply that is not
    an integer makes it fail. *)
Theorem numeric_aggregates `{BuildProfile} (ns : list Z) (v : Value) (rest : list Value)
    (Hs : forallb (fun k => bool_decide (in_i64 (foldr Z.add 0%Z (take k ns)))) (seq 0 (S (length ns))) = true)
    (Hv : match v with Int _ => false | _ => true end = true) :
  aggregate (map Int ns) Sum = Some (Ok (Int (foldr Z.add 0%Z ns))) /\
  aggregate (map Int ns) Min = Some (Ok (Int (foldr Z.min i64_max ns))) /\
  aggregate (map Int ns ++ v :: rest) Sum = Some (Err expected_integers) /\
  aggregate (map Int ns ++ v :: rest) Min = Some (Err expected_integers).
Proof.
  assert (Forall (fun k => in_i64 (0 + foldr Z.add 0 (take k ns))%Z) (seq 0 (S (length ns)))) as HS.
  { apply Forall_forall. intros k Hk%list_elem_of_In. rewrite forallb_forall in Hs.
    specialize (Hs k Hk). by apply bool_decide_eq_true_1 in Hs. }
  assert (Z.min i64_max (foldr Z.min i64_max ns) = foldr Z.min i64_max ns) as Em.
  { apply Z.min_r. clear. induction ns; simpl; lia. }
  unfold aggregate. rewrite <- (app_nil_r (map Int ns)) at 1 2.
  rewrite !sum_steps, !min_steps, Em by done. by destruct v.
Qed.

(** The sum is computed without overflow checks of its own: two replies whose
    sum is out of range panic in a debug build and give a negative total in a
    release build. *)
Theorem sum_may_overflow `{B : BuildProfile} :
  aggregate [Int i64_max; Int 1] Sum =
  if overflow_checks then None else Some (Ok (Int i64_min)).
Proof. destruct B; by vm_compute. Qed.

Definition and_positive (b : bool) (n : Z) : bool := b && (0 <? n)%Z.

Lemma logical_row_ints pre acc row : length row <= length acc ->
  logical_row (pre ++ acc) (length pre) (map Int row) =
  Some (Ok (pre ++ zip_with and_positive acc row ++ drop (length row) acc)).
Proof.
  revert pre acc. induction row as [|n row IH]; intros pre acc Hl; simpl.
  - by destruct acc.
  - destruct acc as [|b acc]; [simpl in Hl; lia|]. rewrite list_lookup_middle by done. simpl.
    rewrite insert_app_r_alt, Nat.sub_diag by lia. simpl.
    rewrite (cons_middle (b && (0 <? n)%Z) pre), app_assoc.
    replace (S (length pre)) with (length (pre ++ [b && (0 <? n)%Z])) by (rewrite length_app; simpl; lia).
    rewrite IH by (simpl in Hl; lia). by rewrite <- app_assoc.
Qed.

Lemma logical_row_short pre acc row : length acc < length row ->
  logical_row (pre ++ acc) (length pre) (map Int row) = None.
Proof.
  revert pre acc. induction row as [|n row IH]; intros pre acc Hl; simpl in *; [lia|].
  destruct acc as [|b acc]; [by rewrite app_nil_r, lookup_ge_None_2|]. rewrite list_lookup_middle by done. simpl.
  rewrite insert_app_r_alt, Nat.sub_diag by lia. simpl.
  rewrite (cons_middle (b && (0 <? n)%Z) pre), app_assoc.
  replace (S (length pre)) with (length (pre ++ [b && (0 <? n)%Z])) by (rewrite length_app; simpl; lia).
  apply IH. simpl in Hl. lia.
Qed.

(** Column [i] holds if every row has a positive number there. *)
Definition columns (rows : list (list Z)) (n : nat) : list bool :=
  map (fun i => forallb (fun row => 0 <? nth i row 0)%Z rows) (seq 0 n).

Lemma columns_snoc rows row n : length row = n ->
  zip_with and_positive (columns rows n) row = columns (rows ++ [row]) n.
Proof.
  intros <-. unfold columns. apply list_eq. intros i. change (map ?f ?x) with (f <$> x).
  rewrite lookup_zip_with, !list_lookup_fmap. destruct (decide (i < length row)) as [Hi|Hi].
  - rewrite lookup_seq_lt by done. simpl. destruct (nth_lookup_or_length row i 0%Z) as [E|]; [|lia].
    rewrite E. simpl. rewrite forallb_app. simpl. by rewrite andb_true_r.
  - by rewrite lookup_seq_ge by lia.
Qed.

Lemma logical_step_columns rows row n : length row = n -> n <> O ->
  logical_step (columns rows n) (Array (map Int row)) = Some (Ok (columns (rows ++ [row]) n)).
Proof.
  intros Hl Hn. unfold logical_step.
  assert (length (columns rows n) = n) as Hc by (unfold columns; by rewrite length_map, length_seq).
  destruct (columns rows n) as [|b acc] eqn:E; [by rewrite <- Hc in Hn|]. rewrite <- E in *.
  pose proof (logical_row_ints [] (columns rows n) row) as ER. cbn [app length] in ER. rewrite ER by lia.
  rewrite (drop_ge (columns rows n)) by lia. simpl. by rewrite app_nil_r, columns_snoc.
Qed.

Lemma logical_steps_columns rows done_ n : n <> O -> Forall (fun row => length row = n) rows ->
  try_fold_checked logical_step (columns done_ n) (map (fun row => Array (map Int row)) rows) =
  Some (Ok (columns (done_ ++ rows) n)).
Proof.
  intros Hn. revert done_. induction rows as [|row rows IH]; intros done_ Hf; [by rewrite app_nil_r|].
  apply Forall_cons in Hf as [Hr Hf]. cbn [map try_fold_checked]. rewrite logical_step_columns by done.
  cbn [mbind option_bind]. rewrite IH by done. by rewrite <- app_assoc.
Qed.

Lemma logical_first row n : length row = n -> n <> O ->
  logical_step [] (Array (map Int row)) = logical_step (columns [] n) (Array (map Int row)).
Proof.
  intros Hl Hn. unfold logical_step. rewrite length_map, Hl. unfold columns. simpl.
  assert (forall k, map (fun _ : nat => true) (seq k n) = replicate n true) as E.
  { clear. induction n as [|n IH]; intros k; [done|]. simpl. by rewrite IH. }
  rewrite E. by destruct n.
Qed.

(** [logical_aggregate] of rows of integers of the same length is, column by
    column, whether every row has a positive number there; a later row that is
    longer than the first makes it panic. *)
Theorem logical_aggregate_columns (rows : list (list Z)) (n : nat) (first longer : list Z)
    (Hn : n <> O) (Hne : rows <> []) (Hrows : forallb (fun row => length row =? n) rows = true)
    (Hfirst : length first = n) (Hlonger : n < length longer) :
  logical_aggregate (map (fun row => Array (map Int row)) rows) And =
    Some (Ok (Array (map (fun b : bool => Int (if b then 1 else 0)) (columns rows n)))) /\
  logical_aggregate [Array (map Int first); Array (map Int longer)] And = None.
Proof.
  split.
  - destruct rows as [|row rows]; [done|]. unfold logical_aggregate. cbn [map try_fold_checked].
    assert (Forall (fun row => length row = n) (row :: rows)) as Hf.
    { apply Forall_forall. intros x Hx%list_elem_of_In. rewrite forallb_forall in Hrows.
      by apply Nat.eqb_eq, Hrows. }
    apply Forall_cons in Hf as [Hr Hf]. rewrite (logical_first row n), logical_step_columns by done.
    cbn [mbind option_bind app]. by rewrite logical_steps_columns.
  - unfold logical_aggregate. cbn [try_fold_checked]. rewrite (logical_first first n), logical_step_columns by done.
    cbn [mbind option_bind app]. unfold logical_step.
    assert (length (columns [first] n) = n) as Hc by (unfold columns; by rewrite length_map, length_seq).
    destruct (columns [first] n) as [|b acc] eqn:E; [by rewrite <- Hc in Hn|]. rewrite <- E in *.
    pose proof (logical_row_short [] (columns [first] n) longer) as ER. cbn [app length] in ER.
    by rewrite ER by lia.
Qed.

(** ** Maps of counters *)

(** The flat array a node answers with. *)
Definition flat_pairs (kvs : list (bytes * Z)) : list Value :=
  concat (map (fun '(k, v) => [BulkString k; Int v]) kvs).

Fixpoint total (k : bytes) (kvs : list (bytes * Z)) : Z :=
  match kvs with
  | [] => 0
  | (k', v) :: kvs => (if decide (k' = k) then v else 0) + total k kvs
  end%Z.

Definition counters_ok (kvs : list (bytes * Z)) : bool :=
  forallb (fun kv => 0 <=? kv.2)%Z kvs && (foldr (fun kv s => kv.2 + s) 0 kvs <=? i64_max)%Z.

Lemma total_app k l1 l2 : total k (l1 ++ l2) = (total k l1 + total k l2)%Z.
Proof. induction l1 as [|[k' v] l1 IH]; [done|]. simpl. rewrite IH. lia. Qed.

Lemma counters_ok_bounds kvs1 kvs2 k : counters_ok (kvs1 ++ kvs2) = true -> in_i64 (total k kvs1).
Proof.
  unfold counters_ok. rewrite andb_true_iff, forallb_app, andb_true_iff, Z.leb_le.
  intros [[H1 H2] Hs]. rewrite foldr_app in Hs.
  assert (forall l, forallb (fun kv : bytes * Z => 0 <=? kv.2)%Z l = true -> forall s, (0 <= s)%Z ->
    (0 <= foldr (fun kv s => kv.2 + s) s l /\ 0 <= total k l /\
     total k l + s <= foldr (fun kv s => kv.2 + s) s l)%Z) as Hl.
  { clear. induction l as [|[k' v] l IH]; simpl; [lia|]. rewrite andb_true_iff, Z.leb_le.
    intros [Hv Hl] s Hs. specialize (IH Hl s Hs). case_decide; lia. }
  pose proof (Hl _ H2 0%Z ltac:(lia)) as (Hp & _). pose proof (Hl _ H1 _ Hp) as (_ & ? & ?).
  unfold in_i64, i64_min. lia.
Qed.

Definition table (kvs : list (bytes * Z)) : list (bytes * Z) :=
  map (fun k => (k, total k kvs)) (foldl add_new [] (map fst kvs)).

Lemma table_keys_elem (kvs : list (bytes * Z)) k : k ∈ foldl add_new [] (map fst kvs) <-> k ∈ map fst kvs.
Proof.
  induction kvs as [|[k' v] kvs IH] using rev_ind; [done|]. rewrite map_app, foldl_app. simpl.
  rewrite add_new_elem, IH. set_solver.
Qed.

Lemma table_keys_NoDup (kvs : list (bytes * Z)) : NoDup (foldl add_new [] (map fst kvs)).
Proof.
  induction kvs as [|[k' v] kvs IH] using rev_ind; [apply NoDup_nil_2|].
  rewrite map_app, foldl_app. by apply add_new_NoDup.
Qed.

Lemma total_absent k kvs : k ∉ map fst kvs -> total k kvs = 0%Z.
Proof.
  induction kvs as [|[k' v] kvs IH]; [done|]. simpl. intros Hn. rewrite decide_False by set_solver.
  rewrite IH by set_solver. lia.
Qed.

Lemma add_entry_map `{BuildProfile} (t : bytes -> Z) keys k v : NoDup keys -> (k ∉ keys -> t k = 0%Z) ->
  in_i64 (t k + v) ->
  add_entry (map (fun x => (x, t x)) keys) k v =
  Some (map (fun x => (x, t x + (if decide (k = x) then v else 0))%Z) (add_new keys k)).
Proof.
  intros Hnd Ht Hb. unfold add_new. induction keys as [|a keys IH].
  - rewrite Ht in Hb by set_solver. simpl. rewrite i64_add_small by done. simpl.
    rewrite decide_True, Ht by (done || set_solver). done.
  - apply NoDup_cons in Hnd as [Ha Hnd]. simpl. destruct (decide (a = k)) as [->|Hk].
    + rewrite i64_add_small by done. rewrite decide_True by set_solver. simpl. rewrite decide_True by done.
      do 2 f_equal. apply map_ext_in. intros x Hx%list_elem_of_In. rewrite decide_False; [f_equal; lia|].
      by intros ->.
    + rewrite IH by (done || (intros Hn; apply Ht; set_solver)). simpl.
      destruct (decide (k ∈ keys)) as [Hin|Hin].
      * rewrite (decide_True (P := k ∈ a :: keys)) by set_solver. simpl. rewrite decide_False by done.
        by rewrite Z.add_0_r.
      * rewrite (decide_False (P := k ∈ a :: keys)) by set_solver. simpl. rewrite decide_False by done.
        by rewrite Z.add_0_r.
Qed.

Lemma add_entry_table `{BuildProfile} kvs k v rest : counters_ok (kvs ++ (k, v) :: rest) = true ->
  add_entry (table kvs) k v = Some (table (kvs ++ [(k, v)])).
Proof.
  intros Hok. unfold table. rewrite add_entry_map.
  - f_equal. rewrite map_app, foldl_app. simpl. apply map_ext. intros x. rewrite total_app. simpl.
    f_equal. lia.
  - apply table_keys_NoDup.
  - rewrite table_keys_elem. apply total_absent.
  - rewrite cons_middle, app_assoc in Hok. apply (counters_ok_bounds _ _ k) in Hok.
    rewrite total_app in Hok. simpl in Hok. rewrite decide_True in Hok by done. by rewrite Z.add_0_r in Hok.
Qed.

Lemma add_elements_table `{BuildProfile} kvs done_ rest : counters_ok (done_ ++ kvs ++ rest) = true ->
  add_elements (table done_) (flat_pairs kvs) = Some (Ok (table (done_ ++ kvs))).
Proof.
  revert done_. induction kvs as [|[k v] kvs IH]; intros done_ Hok; [by rewrite app_nil_r|].
  unfold flat_pairs. cbn [map concat app add_elements]. rewrite (add_entry_table _ _ _ (kvs ++ rest)) by done.
  cbn [mbind option_bind]. fold (flat_pairs kvs). rewrite IH by (by rewrite <- app_assoc). by rewrite <- app_assoc.
Qed.

(** [combine_map_results] adds up the counters of every key over all nodes,
    each key appearing once, in whatever order. *)
Theorem combine_map_totals `{BuildProfile} `{HashOrder} (tables : list (list (bytes * Z)))
    (Hok : counters_ok (concat tables) = true) :
  exists keys, NoDup keys /\ (forall k, k ∈ keys <-> k ∈ map fst (concat tables)) /\
  combine_map_results (map (fun kvs => Array (flat_pairs kvs)) tables) =
  Some (Ok (Map (map (fun k => (BulkString k, Int (total k (concat tables)))) keys))).
Proof.
  assert (forall done_, counters_ok (done_ ++ concat tables) = true ->
    try_fold_checked combine_map_step (table done_) (map (fun kvs => Array (flat_pairs kvs)) tables) =
    Some (Ok (table (done_ ++ concat tables)))) as E.
  { clear Hok. induction tables as [|kvs tables IH]; intros done_ Hok; [by rewrite app_nil_r|].
    cbn [map try_fold_checked combine_map_step]. rewrite (add_elements_table _ _ (concat tables)) by done.
    cbn [mbind option_bind]. rewrite IH by (by rewrite <- app_assoc). by rewrite <- app_assoc. }
  pose proof (hash_order_perm (table (concat tables))) as Hp.
  apply Permutation_map_inv in Hp as (keys & Eh & Hp). exists keys. split_and!.
  - rewrite <- Hp. apply table_keys_NoDup.
  - intros k. rewrite <- Hp. apply table_keys_elem.
  - specialize (E [] Hok). change (table []) with (@nil (bytes * Z)) in E. unfold combine_map_results.
    rewrite E. cbn [app map_checked]. rewrite Eh.
    do 3 f_equal. by rewrite map_map.
Qed.

(** ** Witnesses *)

(** CRC-16/XMODEM: polynomial 0x1021, initial value 0. *)
Definition xmodem_bit (crc : Z) : Z :=
  let shifted := Z.land (Z.shiftl crc 1) 65535 in
  if Z.testbit crc 15 then Z.lxor shifted 4129 else shifted.
Definition xmodem : Crc16 :=
  foldl (fun crc b => Nat.iter 8 xmodem_bit (Z.lxor crc (Z.shiftl (byte_Z b) 8))) 0%Z.

Definition slot_of (key : string) : Z := slot_number (@Slot_for_key xmodem (bs key)).

(** The check value of the polynomial, and the slots of some keys. *)
Lemma xmodem_check : crc16_xmodem (Crc16 := xmodem) (bs "123456789") = 12739%Z /\
  slot_of "foo" = 12182%Z /\ slot_of "{foo}bar" = 12182%Z /\ slot_of "bar" = 5061%Z.
Proof. by vm_compute. Qed.

Definition mget : Value := Array (map (fun s => BulkString (bs s)) ["MGET"; "foo"; "bar"; "{foo}3"]).
Definition echo (g : list bytes) : Value := BulkString (concat g).

Lemma multi_slot_recombined_witness : exists routes subs,
  @multi_shard xmodem reverse_order Value _ mget (bs "MGET") 1 KeysOnly =
    Some (Some (MultiNode (MultiSlot routes KeysOnly) (Some CombineArrays))) /\
  map snd routes = [[1]; [0; 2]] /\
  combine_and_sort_array_results (map (node_reply KeysOnly echo) subs) routes KeysOnly =
    Some (Ok (Array [BulkString (bs "foo"); BulkString (bs "bar"); BulkString (bs "{foo}3")])).
Proof.
  destruct (@multi_slot_recombined xmodem reverse_order Value _ mget (bs "MGET") (bs "MGET")
    [bs "foo"; bs "bar"; bs "{foo}3"] KeysOnly echo) as (routes & subs & E & _ & _ & _ & Hc).
  - exact (presents_value [bs "MGET"; bs "foo"; bs "bar"; bs "{foo}3"]).
  - reflexivity.
  - exists routes, subs. vm_compute in E. destruct routes as [|[r1 i1] [|[r2 i2] l]]; [discriminate..|].
    injection E as <- <- <- <- <-. split; [reflexivity|]. split; [reflexivity|exact Hc].
Defined.

Definition xread_cmd : Cmd := build [OpArg (bs "xread"); OpArg (bs "Streams"); OpArg (bs "k"); OpArg (bs "0")].

Lemma routed_as_on_the_wire_witness :
  @for_routable xmodem insertion_order Cmd _ xread_cmd =
    Some (Some (SingleNode (SpecificNode {| route_slot := 7629; route_slot_addr := ReplicaOptional |}))) /\
  @for_routable xmodem insertion_order Value _ (command_value (args_iter xread_cmd) 0) =
    Some (Some (SingleNode (SpecificNode {| route_slot := 7629; route_slot_addr := ReplicaOptional |}))).
Proof.
  assert (@for_routable xmodem insertion_order Cmd _ xread_cmd =
    Some (Some (SingleNode (SpecificNode {| route_slot := 7629; route_slot_addr := ReplicaOptional |})))) as E
    by (vm_compute; reflexivity).
  split; [exact E|].
  rewrite <- E. symmetry.
  apply (@routed_as_on_the_wire xmodem insertion_order xread_cmd 0).
  - reflexivity.
  - simpl. set_solver.
  - vm_compute. discriminate.
Defined.

Lemma missing_value_not_detected_witness : exists routes c,
  @multi_shard xmodem insertion_order Value _
     (Array (map BulkString [bs "MSET"; bs "foo"; bs "1"; bs "bar"])) (bs "MSET") 1 KeyValuePairs =
    Some (Some (MultiNode (MultiSlot routes KeyValuePairs) (Some AllSucceeded))) /\
  args_of c = [bs "MSET"; bs "bar"].
Proof.
  destruct (@missing_value_not_detected xmodem insertion_order Value _
    (Array (map BulkString [bs "MSET"; bs "foo"; bs "1"; bs "bar"])) (bs "MSET") (bs "MSET")
    (bs "foo") (bs "1") (bs "bar")) as (routes & c & E & _ & _ & Hc).
  - apply presents_value.
  - vm_compute. discriminate.
  - exists routes, c. split; [exact E|exact Hc].
Defined.

Lemma numeric_aggregates_witness :
  aggregate (H := true) [Int 3; Int (-1)] Sum = Some (Ok (Int 2)) /\
  aggregate (H := true) [Int 3; Int (-1); Nil] Sum = Some (Err expected_integers).
Proof.
  destruct (@numeric_aggregates true [3; -1]%Z Nil []) as (E1 & _ & E2 & _); [reflexivity..|].
  split; [exact E1|exact E2].
Defined.

Lemma logical_aggregate_columns_witness :
  logical_aggregate [Array [Int 1; Int 0]; Array [Int 1; Int 1]] And = Some (Ok (Array [Int 1; Int 0])) /\
  logical_aggregate [Array [Int 1; Int 1]; Array [Int 1; Int 1; Int 1]] And = None.
Proof.
  apply (logical_aggregate_columns [[1; 0]; [1; 1]]%Z 2 [1; 1]%Z [1; 1; 1]%Z);
    (discriminate || reflexivity || (simpl; lia)).
Defined.

Lemma combine_map_totals_witness : exists keys, NoDup keys /\
  @combine_map_results true reverse_order
    [Array [BulkString (bs "a"); Int 1; BulkString (bs "b"); Int 2]; Array [BulkString (bs "a"); Int 3]] =
  Some (Ok (Map (map (fun k =>
    (BulkString k, Int (total k [(bs "a", 1); (bs "b", 2); (bs "a", 3)]%Z))) keys))).
Proof.
  destruct (@combine_map_totals true reverse_order [[(bs "a", 1); (bs "b", 2)]; [(bs "a", 3)]]%Z)
    as (keys & Hn & _ & E); [reflexivity|]. exists keys. split; [exact Hn|exact E].
Defined.
