(* ===== verification/Commands.v ===== *)
(** * Command builders

    The functions of [implement_commands!] in [commands/mod.rs] that need no
    optional feature, one definition each: [Cmd::get], [Commands::get],
    [AsyncCommands::get] and [Pipeline::get] are all generated from the one
    body.  The theorems say where a cluster client sends what they build, and
    that the counts they write are those of the arguments behind them. *)

From S2P Require Import Prelude Text Float64 Types Cmd Convert Slots Routing Args.

(** What a builder returns; [None] is a panic while an argument is written. *)
Abbreviation Command := (option Cmd).

(** [delta.describe_numeric_behavior() == NumericBehavior::NumberIsFloat]. *)
Definition is_float {T} `{A : ToRedisArgs T} (x : T) : bool :=
  match describe_numeric_behavior A x with NumberIsFloat => true | _ => false end.

(** A vector of references, as [unzip] gives it. *)
Definition arg_refs {T} `{A : ToRedisArgs T} (c : Command) (l : list T) : Command :=
  arg (A := tra_vec (tra_ref A)) c l.
Definition num_of_refs {T} `{A : ToRedisArgs T} (l : list T) : nat := num_of_args (tra_vec (tra_ref A)) l.
Notation "c ▷& l" := (arg_refs c l) (at level 50, left associativity) : cmd_scope.

Section builders.
Context {K V KSrc KDst NK D SK F P M MM W E Db : Type}.
Context `{AK : ToRedisArgs K} `{AV : ToRedisArgs V} `{AKSrc : ToRedisArgs KSrc}
  `{AKDst : ToRedisArgs KDst} `{ANK : ToRedisArgs NK} `{AD : ToRedisArgs D}
  `{ASK : ToRedisArgs SK} `{AF : ToRedisArgs F} `{AP : ToRedisArgs P} `{AM : ToRedisArgs M}
  `{AMM : ToRedisArgs MM} `{AW : ToRedisArgs W} `{AE : ToRedisArgs E} `{ToString Db}.
Context `{Ryu}.

(** Keys and strings. *)

Definition get (key : K) : Command := taken (CMD "GET" ▷ key).
Definition mget (key : K) : Command := taken (CMD "MGET" ▷ key).
Definition keys (key : K) : Command := taken (CMD "KEYS" ▷ key).
Definition set (key : K) (value : V) : Command := taken (CMD "SET" ▷ key ▷ value).
Definition set_options (key : K) (value : V) (options : SetOptions) : Command :=
  taken (CMD "SET" ▷ key ▷ value ▷ options).
Definition mset (items : list (K * V)) : Command := taken (CMD "MSET" ▷ items).
Definition set_ex (key : K) (value : V) (seconds : Z) : Command :=
  taken (CMD "SETEX" ▷ key ▷ seconds ▷ value).
Definition pset_ex (key : K) (value : V) (milliseconds : Z) : Command :=
  taken (CMD "PSETEX" ▷ key ▷ milliseconds ▷ value).
Definition set_nx (key : K) (value : V) : Command := taken (CMD "SETNX" ▷ key ▷ value).
Definition mset_nx (items : list (K * V)) : Command := taken (CMD "MSETNX" ▷ items).
Definition mset_ex (items : list (K * V)) (options : MSetOptions) : Command :=
  taken (CMD "MSETEX" ▷ length items ▷ items ▷ options).
Definition getset (key : K) (value : V) : Command := taken (CMD "GETSET" ▷ key ▷ value).
Definition getrange (key : K) (from to : Z) : Command := taken (CMD "GETRANGE" ▷ key ▷ from ▷ to).
Definition setrange (key : K) (offset : Z) (value : V) : Command :=
  taken (CMD "SETRANGE" ▷ key ▷ offset ▷ value).
Definition del (key : K) : Command := taken (CMD "DEL" ▷ key).
Definition del_ex (key : K) (value_comparison : ValueComparison) : Command :=
  taken (CMD "DELEX" ▷ key ▷ value_comparison).
Definition digest (key : K) : Command := taken (CMD "DIGEST" ▷ key).
Definition exists_ (key : K) : Command := taken (CMD "EXISTS" ▷ key).
Definition key_type (key : K) : Command := taken (CMD "TYPE" ▷ key).
Definition expire (key : K) (seconds : Z) : Command := taken (CMD "EXPIRE" ▷ key ▷ seconds).
Definition expire_at (key : K) (ts : Z) : Command := taken (CMD "EXPIREAT" ▷ key ▷ ts).
Definition pexpire (key : K) (ms : Z) : Command := taken (CMD "PEXPIRE" ▷ key ▷ ms).
Definition pexpire_at (key : K) (ts : Z) : Command := taken (CMD "PEXPIREAT" ▷ key ▷ ts).
Definition expire_time (key : K) : Command := taken (CMD "EXPIRETIME" ▷ key).
Definition pexpire_time (key : K) : Command := taken (CMD "PEXPIRETIME" ▷ key).
Definition persist (key : K) : Command := taken (CMD "PERSIST" ▷ key).
Definition ttl (key : K) : Command := taken (CMD "TTL" ▷ key).
Definition pttl (key : K) : Command := taken (CMD "PTTL" ▷ key).
Definition get_ex (key : K) (expire_at : Expiry) : Command :=
  taken (CMD "GETEX" ▷ key ▷ expire_at).
Definition get_del (key : K) : Command := taken (CMD "GETDEL" ▷ key).
Definition copy (source : KSrc) (destination : KDst) (options : CopyOptions Db) : Command :=
  taken (CMD "COPY" ▷ source ▷ destination ▷ options).
Definition rename (key : K) (new_key : NK) : Command := taken (CMD "RENAME" ▷ key ▷ new_key).
Definition rename_nx (key : K) (new_key : NK) : Command := taken (CMD "RENAMENX" ▷ key ▷ new_key).
Definition unlink (key : K) : Command := taken (CMD "UNLINK" ▷ key).

(** Strings. *)

Definition append (key : K) (value : V) : Command := taken (CMD "APPEND" ▷ key ▷ value).
Definition incr (key : K) (delta : V) : Command :=
  taken (Some (cmd (if is_float delta then "INCRBYFLOAT" else "INCRBY")) ▷ key ▷ delta).
Definition decr (key : K) (delta : V) : Command := taken (CMD "DECRBY" ▷ key ▷ delta).
Definition increx (key : K) (increment : V) (options : IncrexOptions V) : Command :=
  taken (CMD "INCREX" ▷ key ▷ lit (if is_float increment then "BYFLOAT" else "BYINT") ▷ increment
    ▷ options).
Definition setbit (key : K) (offset : Z) (value : bool) : Command :=
  taken (CMD "SETBIT" ▷ key ▷ offset ▷ Z.b2z value).
Definition getbit (key : K) (offset : Z) : Command := taken (CMD "GETBIT" ▷ key ▷ offset).
Definition bitcount (key : K) : Command := taken (CMD "BITCOUNT" ▷ key).
Definition bitcount_range (key : K) (start end_ : Z) : Command :=
  taken (CMD "BITCOUNT" ▷ key ▷ start ▷ end_).
Definition bit_and (dstkey : D) (srckeys : SK) : Command :=
  taken (CMD "BITOP" ▷' "AND" ▷ dstkey ▷ srckeys).
Definition bit_or (dstkey : D) (srckeys : SK) : Command :=
  taken (CMD "BITOP" ▷' "OR" ▷ dstkey ▷ srckeys).
Definition bit_xor (dstkey : D) (srckeys : SK) : Command :=
  taken (CMD "BITOP" ▷' "XOR" ▷ dstkey ▷ srckeys).
Definition bit_not (dstkey : D) (srckey : SK) : Command :=
  taken (CMD "BITOP" ▷' "NOT" ▷ dstkey ▷ srckey).
Definition bit_diff (dstkey : D) (srckeys : SK) : Command :=
  taken (CMD "BITOP" ▷' "DIFF" ▷ dstkey ▷ srckeys).
Definition bit_diff1 (dstkey : D) (srckeys : SK) : Command :=
  taken (CMD "BITOP" ▷' "DIFF1" ▷ dstkey ▷ srckeys).
Definition bit_and_or (dstkey : D) (srckeys : SK) : Command :=
  taken (CMD "BITOP" ▷' "ANDOR" ▷ dstkey ▷ srckeys).
Definition bit_one (dstkey : D) (srckeys : SK) : Command :=
  taken (CMD "BITOP" ▷' "ONE" ▷ dstkey ▷ srckeys).
Definition strlen (key : K) : Command := taken (CMD "STRLEN" ▷ key).

(** Hashes. *)

Definition hget (key : K) (field : F) : Command := taken (CMD "HGET" ▷ key ▷ field).
Definition hmget (key : K) (fields : F) : Command := taken (CMD "HMGET" ▷ key ▷ fields).
Definition hget_ex (key : K) (fields : F) (expire_at : Expiry) : Command :=
  taken (CMD "HGETEX" ▷ key ▷ expire_at ▷' "FIELDS" ▷ num_of_args AF fields ▷ fields).
Definition hdel (key : K) (field : F) : Command := taken (CMD "HDEL" ▷ key ▷ field).
Definition hget_del (key : K) (fields : F) : Command :=
  taken (CMD "HGETDEL" ▷ key ▷' "FIELDS" ▷ num_of_args AF fields ▷ fields).
Definition hset (key : K) (field : F) (value : V) : Command :=
  taken (CMD "HSET" ▷ key ▷ field ▷ value).
Definition hset_ex (key : K) (hash_field_expiration_options : HashFieldExpirationOptions)
    (fields_values : list (F * V)) : Command :=
  taken (CMD "HSETEX" ▷ key ▷ hash_field_expiration_options ▷' "FIELDS" ▷ length fields_values
    ▷ fields_values).
Definition hset_nx (key : K) (field : F) (value : V) : Command :=
  taken (CMD "HSETNX" ▷ key ▷ field ▷ value).
Definition hset_multiple (key : K) (items : list (F * V)) : Command :=
  taken (CMD "HMSET" ▷ key ▷ items).
Definition hincr (key : K) (field : F) (delta : D) : Command :=
  taken (Some (cmd (if is_float delta then "HINCRBYFLOAT" else "HINCRBY")) ▷ key ▷ field ▷ delta).
Definition hexists (key : K) (field : F) : Command := taken (CMD "HEXISTS" ▷ key ▷ field).
Definition httl (key : K) (fields : F) : Command :=
  taken (CMD "HTTL" ▷ key ▷' "FIELDS" ▷ num_of_args AF fields ▷ fields).
Definition hpttl (key : K) (fields : F) : Command :=
  taken (CMD "HPTTL" ▷ key ▷' "FIELDS" ▷ num_of_args AF fields ▷ fields).
Definition hexpire (key : K) (seconds : Z) (opt : ExpireOption) (fields : F) : Command :=
  taken (CMD "HEXPIRE" ▷ key ▷ seconds ▷ opt ▷' "FIELDS" ▷ num_of_args AF fields ▷ fields).
Definition hexpire_at (key : K) (ts : Z) (opt : ExpireOption) (fields : F) : Command :=
  taken (CMD "HEXPIREAT" ▷ key ▷ ts ▷ opt ▷' "FIELDS" ▷ num_of_args AF fields ▷ fields).
Definition hexpire_time (key : K) (fields : F) : Command :=
  taken (CMD "HEXPIRETIME" ▷ key ▷' "FIELDS" ▷ num_of_args AF fields ▷ fields).
Definition hpersist (key : K) (fields : F) : Command :=
  taken (CMD "HPERSIST" ▷ key ▷' "FIELDS" ▷ num_of_args AF fields ▷ fields).
Definition hpexpire (key : K) (milliseconds : Z) (opt : ExpireOption) (fields : F) : Command :=
  taken (CMD "HPEXPIRE" ▷ key ▷ milliseconds ▷ opt ▷' "FIELDS" ▷ num_of_args AF fields ▷ fields).
Definition hpexpire_at (key : K) (ts : Z) (opt : ExpireOption) (fields : F) : Command :=
  taken (CMD "HPEXPIREAT" ▷ key ▷ ts ▷ opt ▷' "FIELDS" ▷ num_of_args AF fields ▷ fields).
Definition hpexpire_time (key : K) (fields : F) : Command :=
  taken (CMD "HPEXPIRETIME" ▷ key ▷' "FIELDS" ▷ num_of_args AF fields ▷ fields).
Definition hkeys (key : K) : Command := taken (CMD "HKEYS" ▷ key).
Definition hvals (key : K) : Command := taken (CMD "HVALS" ▷ key).
Definition hgetall (key : K) : Command := taken (CMD "HGETALL" ▷ key).
Definition hlen (key : K) : Command := taken (CMD "HLEN" ▷ key).

(** Lists. *)

Definition blmove (srckey : SK) (dstkey : D) (src_dir dst_dir : Direction) (timeout : f64) :
    Command :=
  taken (CMD "BLMOVE" ▷ srckey ▷ dstkey ▷ src_dir ▷ dst_dir ▷ timeout).
Definition blmpop (timeout : f64) (numkeys : Z) (key : K) (dir : Direction) (count : Z) : Command
    :=
  taken (CMD "BLMPOP" ▷ timeout ▷ numkeys ▷ key ▷ dir ▷' "COUNT" ▷ count).
Definition blpop (key : K) (timeout : f64) : Command := taken (CMD "BLPOP" ▷ key ▷ timeout).
Definition brpop (key : K) (timeout : f64) : Command := taken (CMD "BRPOP" ▷ key ▷ timeout).
Definition brpoplpush (srckey : SK) (dstkey : D) (timeout : f64) : Command :=
  taken (CMD "BRPOPLPUSH" ▷ srckey ▷ dstkey ▷ timeout).
Definition lindex (key : K) (index : Z) : Command := taken (CMD "LINDEX" ▷ key ▷ index).
Definition linsert_before (key : K) (pivot : P) (value : V) : Command :=
  taken (CMD "LINSERT" ▷ key ▷' "BEFORE" ▷ pivot ▷ value).
Definition linsert_after (key : K) (pivot : P) (value : V) : Command :=
  taken (CMD "LINSERT" ▷ key ▷' "AFTER" ▷ pivot ▷ value).
Definition llen (key : K) : Command := taken (CMD "LLEN" ▷ key).
Definition lmove (srckey : SK) (dstkey : D) (src_dir dst_dir : Direction) : Command :=
  taken (CMD "LMOVE" ▷ srckey ▷ dstkey ▷ src_dir ▷ dst_dir).
Definition lmpop (numkeys : Z) (key : K) (dir : Direction) (count : Z) : Command :=
  taken (CMD "LMPOP" ▷ numkeys ▷ key ▷ dir ▷' "COUNT" ▷ count).
Definition lpop (key : K) (count : option Z) : Command := taken (CMD "LPOP" ▷ key ▷ count).
Definition lpos (key : K) (value : V) (options : LposOptions) : Command :=
  taken (CMD "LPOS" ▷ key ▷ value ▷ options).
Definition lpush (key : K) (value : V) : Command := taken (CMD "LPUSH" ▷ key ▷ value).
Definition lpush_exists (key : K) (value : V) : Command := taken (CMD "LPUSHX" ▷ key ▷ value).
Definition lrange (key : K) (start stop : Z) : Command :=
  taken (CMD "LRANGE" ▷ key ▷ start ▷ stop).
Definition lrem (key : K) (count : Z) (value : V) : Command :=
  taken (CMD "LREM" ▷ key ▷ count ▷ value).
Definition ltrim (key : K) (start stop : Z) : Command := taken (CMD "LTRIM" ▷ key ▷ start ▷ stop).
Definition lset (key : K) (index : Z) (value : V) : Command :=
  taken (CMD "LSET" ▷ key ▷ index ▷ value).
Definition ping : Command := taken (CMD "PING").
Definition ping_message (message : K) : Command := taken (CMD "PING" ▷ message).
Definition rpop (key : K) (count : option Z) : Command := taken (CMD "RPOP" ▷ key ▷ count).
Definition rpoplpush (key : K) (dstkey : D) : Command := taken (CMD "RPOPLPUSH" ▷ key ▷ dstkey).
Definition rpush (key : K) (value : V) : Command := taken (CMD "RPUSH" ▷ key ▷ value).
Definition rpush_exists (key : K) (value : V) : Command := taken (CMD "RPUSHX" ▷ key ▷ value).

(** Sets. *)

Definition sadd (key : K) (member : M) : Command := taken (CMD "SADD" ▷ key ▷ member).
Definition scard (key : K) : Command := taken (CMD "SCARD" ▷ key).
Definition sdiff (keys : K) : Command := taken (CMD "SDIFF" ▷ keys).
Definition sdiffstore (dstkey : D) (keys : K) : Command :=
  taken (CMD "SDIFFSTORE" ▷ dstkey ▷ keys).
Definition sinter (keys : K) : Command := taken (CMD "SINTER" ▷ keys).
Definition sinterstore (dstkey : D) (keys : K) : Command :=
  taken (CMD "SINTERSTORE" ▷ dstkey ▷ keys).
Definition sismember (key : K) (member : M) : Command := taken (CMD "SISMEMBER" ▷ key ▷ member).
Definition smismember (key : K) (members : M) : Command :=
  taken (CMD "SMISMEMBER" ▷ key ▷ members).
Definition smembers (key : K) : Command := taken (CMD "SMEMBERS" ▷ key).
Definition smove (srckey : SK) (dstkey : D) (member : M) : Command :=
  taken (CMD "SMOVE" ▷ srckey ▷ dstkey ▷ member).
Definition spop (key : K) : Command := taken (CMD "SPOP" ▷ key).
Definition srandmember (key : K) : Command := taken (CMD "SRANDMEMBER" ▷ key).
Definition srandmember_multiple (key : K) (count : Z) : Command :=
  taken (CMD "SRANDMEMBER" ▷ key ▷ count).
Definition srem (key : K) (member : M) : Command := taken (CMD "SREM" ▷ key ▷ member).
Definition sunion (keys : K) : Command := taken (CMD "SUNION" ▷ keys).
Definition sunionstore (dstkey : D) (keys : K) : Command :=
  taken (CMD "SUNIONSTORE" ▷ dstkey ▷ keys).

(** Sorted sets. *)

Definition zadd (key : K) (member : M) (score : SK) : Command :=
  taken (CMD "ZADD" ▷ key ▷ score ▷ member).
Definition zadd_multiple (key : K) (items : list (SK * M)) : Command :=
  taken (CMD "ZADD" ▷ key ▷ items).
Definition zadd_options (key : K) (member : M) (score : SK) (options : SortedSetAddOptions) :
    Command :=
  taken (CMD "ZADD" ▷ key ▷ options ▷ score ▷ member).
Definition zadd_multiple_options (key : K) (items : list (SK * M)) (options : SortedSetAddOptions)
    : Command :=
  taken (CMD "ZADD" ▷ key ▷ options ▷ items).
Definition zcard (key : K) : Command := taken (CMD "ZCARD" ▷ key).
Definition zcount (key : K) (min : M) (max : MM) : Command :=
  taken (CMD "ZCOUNT" ▷ key ▷ min ▷ max).
Definition zincr (key : K) (member : M) (delta : D) : Command :=
  taken (CMD "ZINCRBY" ▷ key ▷ delta ▷ member).
Definition zinterstore (dstkey : D) (keys : K) : Command :=
  taken (CMD "ZINTERSTORE" ▷ dstkey ▷ num_of_args AK keys ▷ keys).
Definition zinterstore_min (dstkey : D) (keys : K) : Command :=
  taken (CMD "ZINTERSTORE" ▷ dstkey ▷ num_of_args AK keys ▷ keys ▷' "AGGREGATE" ▷' "MIN").
Definition zinterstore_max (dstkey : D) (keys : K) : Command :=
  taken (CMD "ZINTERSTORE" ▷ dstkey ▷ num_of_args AK keys ▷ keys ▷' "AGGREGATE" ▷' "MAX").
Definition zinterstore_weights (dstkey : D) (keys : list (K * W)) : Command :=
  taken (CMD "ZINTERSTORE" ▷ dstkey ▷ num_of_refs (map fst keys) ▷& map fst keys ▷' "WEIGHTS"
    ▷& map snd keys).
Definition zinterstore_min_weights (dstkey : D) (keys : list (K * W)) : Command :=
  taken (CMD "ZINTERSTORE" ▷ dstkey ▷ num_of_refs (map fst keys) ▷& map fst keys ▷' "AGGREGATE"
    ▷' "MIN" ▷' "WEIGHTS" ▷& map snd keys).
Definition zinterstore_max_weights (dstkey : D) (keys : list (K * W)) : Command :=
  taken (CMD "ZINTERSTORE" ▷ dstkey ▷ num_of_refs (map fst keys) ▷& map fst keys ▷' "AGGREGATE"
    ▷' "MAX" ▷' "WEIGHTS" ▷& map snd keys).
Definition zlexcount (key : K) (min : M) (max : MM) : Command :=
  taken (CMD "ZLEXCOUNT" ▷ key ▷ min ▷ max).
Definition bzpopmax (key : K) (timeout : f64) : Command := taken (CMD "BZPOPMAX" ▷ key ▷ timeout).
Definition zpopmax (key : K) (count : Z) : Command := taken (CMD "ZPOPMAX" ▷ key ▷ count).
Definition bzpopmin (key : K) (timeout : f64) : Command := taken (CMD "BZPOPMIN" ▷ key ▷ timeout).
Definition zpopmin (key : K) (count : Z) : Command := taken (CMD "ZPOPMIN" ▷ key ▷ count).
Definition bzmpop_max (timeout : f64) (keys : K) (count : Z) : Command :=
  taken (CMD "BZMPOP" ▷ timeout ▷ num_of_args AK keys ▷ keys ▷' "MAX" ▷' "COUNT" ▷ count).
Definition zmpop_max (keys : K) (count : Z) : Command :=
  taken (CMD "ZMPOP" ▷ num_of_args AK keys ▷ keys ▷' "MAX" ▷' "COUNT" ▷ count).
Definition bzmpop_min (timeout : f64) (keys : K) (count : Z) : Command :=
  taken (CMD "BZMPOP" ▷ timeout ▷ num_of_args AK keys ▷ keys ▷' "MIN" ▷' "COUNT" ▷ count).
Definition zmpop_min (keys : K) (count : Z) : Command :=
  taken (CMD "ZMPOP" ▷ num_of_args AK keys ▷ keys ▷' "MIN" ▷' "COUNT" ▷ count).
Definition zrandmember (key : K) (count : option Z) : Command :=
  taken (CMD "ZRANDMEMBER" ▷ key ▷ count).
Definition zrandmember_withscores (key : K) (count : Z) : Command :=
  taken (CMD "ZRANDMEMBER" ▷ key ▷ count ▷' "WITHSCORES").
Definition zrange (key : K) (start stop : Z) : Command :=
  taken (CMD "ZRANGE" ▷ key ▷ start ▷ stop).
Definition zrange_withscores (key : K) (start stop : Z) : Command :=
  taken (CMD "ZRANGE" ▷ key ▷ start ▷ stop ▷' "WITHSCORES").
Definition zrangebylex (key : K) (min : M) (max : MM) : Command :=
  taken (CMD "ZRANGEBYLEX" ▷ key ▷ min ▷ max).
Definition zrangebylex_limit (key : K) (min : M) (max : MM) (offset count : Z) : Command :=
  taken (CMD "ZRANGEBYLEX" ▷ key ▷ min ▷ max ▷' "LIMIT" ▷ offset ▷ count).
Definition zrevrangebylex (key : K) (max : MM) (min : M) : Command :=
  taken (CMD "ZREVRANGEBYLEX" ▷ key ▷ max ▷ min).
Definition zrevrangebylex_limit (key : K) (max : MM) (min : M) (offset count : Z) : Command :=
  taken (CMD "ZREVRANGEBYLEX" ▷ key ▷ max ▷ min ▷' "LIMIT" ▷ offset ▷ count).
Definition zrangebyscore (key : K) (min : M) (max : MM) : Command :=
  taken (CMD "ZRANGEBYSCORE" ▷ key ▷ min ▷ max).
Definition zrangebyscore_withscores (key : K) (min : M) (max : MM) : Command :=
  taken (CMD "ZRANGEBYSCORE" ▷ key ▷ min ▷ max ▷' "WITHSCORES").
Definition zrangebyscore_limit (key : K) (min : M) (max : MM) (offset count : Z) : Command :=
  taken (CMD "ZRANGEBYSCORE" ▷ key ▷ min ▷ max ▷' "LIMIT" ▷ offset ▷ count).
Definition zrangebyscore_limit_withscores (key : K) (min : M) (max : MM) (offset count : Z) :
    Command :=
  taken (CMD "ZRANGEBYSCORE" ▷ key ▷ min ▷ max ▷' "WITHSCORES" ▷' "LIMIT" ▷ offset ▷ count).
Definition zrank (key : K) (member : M) : Command := taken (CMD "ZRANK" ▷ key ▷ member).
Definition zrem (key : K) (members : M) : Command := taken (CMD "ZREM" ▷ key ▷ members).
Definition zrembylex (key : K) (min : M) (max : MM) : Command :=
  taken (CMD "ZREMRANGEBYLEX" ▷ key ▷ min ▷ max).
Definition zremrangebyrank (key : K) (start stop : Z) : Command :=
  taken (CMD "ZREMRANGEBYRANK" ▷ key ▷ start ▷ stop).
Definition zrembyscore (key : K) (min : M) (max : MM) : Command :=
  taken (CMD "ZREMRANGEBYSCORE" ▷ key ▷ min ▷ max).
Definition zrevrange (key : K) (start stop : Z) : Command :=
  taken (CMD "ZREVRANGE" ▷ key ▷ start ▷ stop).
Definition zrevrange_withscores (key : K) (start stop : Z) : Command :=
  taken (CMD "ZREVRANGE" ▷ key ▷ start ▷ stop ▷' "WITHSCORES").
Definition zrevrangebyscore (key : K) (max : MM) (min : M) : Command :=
  taken (CMD "ZREVRANGEBYSCORE" ▷ key ▷ max ▷ min).
Definition zrevrangebyscore_withscores (key : K) (max : MM) (min : M) : Command :=
  taken (CMD "ZREVRANGEBYSCORE" ▷ key ▷ max ▷ min ▷' "WITHSCORES").
Definition zrevrangebyscore_limit (key : K) (max : MM) (min : M) (offset count : Z) : Command :=
  taken (CMD "ZREVRANGEBYSCORE" ▷ key ▷ max ▷ min ▷' "LIMIT" ▷ offset ▷ count).
Definition zrevrangebyscore_limit_withscores (key : K) (max : MM) (min : M) (offset count : Z) :
    Command :=
  taken (CMD "ZREVRANGEBYSCORE" ▷ key ▷ max ▷ min ▷' "WITHSCORES" ▷' "LIMIT" ▷ offset ▷ count).
Definition zrevrank (key : K) (member : M) : Command := taken (CMD "ZREVRANK" ▷ key ▷ member).
Definition zscore (key : K) (member : M) : Command := taken (CMD "ZSCORE" ▷ key ▷ member).
Definition zscore_multiple (key : K) (members : list M) : Command :=
  taken (CMD "ZMSCORE" ▷ key ▷ members).
Definition zunionstore (dstkey : D) (keys : K) : Command :=
  taken (CMD "ZUNIONSTORE" ▷ dstkey ▷ num_of_args AK keys ▷ keys).
Definition zunionstore_min (dstkey : D) (keys : K) : Command :=
  taken (CMD "ZUNIONSTORE" ▷ dstkey ▷ num_of_args AK keys ▷ keys ▷' "AGGREGATE" ▷' "MIN").
Definition zunionstore_max (dstkey : D) (keys : K) : Command :=
  taken (CMD "ZUNIONSTORE" ▷ dstkey ▷ num_of_args AK keys ▷ keys ▷' "AGGREGATE" ▷' "MAX").
Definition zunionstore_weights (dstkey : D) (keys : list (K * W)) : Command :=
  taken (CMD "ZUNIONSTORE" ▷ dstkey ▷ num_of_refs (map fst keys) ▷& map fst keys ▷' "WEIGHTS"
    ▷& map snd keys).
Definition zunionstore_min_weights (dstkey : D) (keys : list (K * W)) : Command :=
  taken (CMD "ZUNIONSTORE" ▷ dstkey ▷ num_of_refs (map fst keys) ▷& map fst keys ▷' "AGGREGATE"
    ▷' "MIN" ▷' "WEIGHTS" ▷& map snd keys).
Definition zunionstore_max_weights (dstkey : D) (keys : list (K * W)) : Command :=
  taken (CMD "ZUNIONSTORE" ▷ dstkey ▷ num_of_refs (map fst keys) ▷& map fst keys ▷' "AGGREGATE"
    ▷' "MAX" ▷' "WEIGHTS" ▷& map snd keys).

(** HyperLogLogs. *)

Definition pfadd (key : K) (element : E) : Command := taken (CMD "PFADD" ▷ key ▷ element).
Definition pfcount (key : K) : Command := taken (CMD "PFCOUNT" ▷ key).
Definition pfmerge (dstkey : D) (srckeys : SK) : Command :=
  taken (CMD "PFMERGE" ▷ dstkey ▷ srckeys).

(** Publishing. *)

Definition publish (channel : K) (message : E) : Command :=
  taken (CMD "PUBLISH" ▷ channel ▷ message).
Definition spublish (channel : K) (message : E) : Command :=
  taken (CMD "SPUBLISH" ▷ channel ▷ message).

(** Objects and clients. *)

Definition object_encoding (key : K) : Command := taken (CMD "OBJECT" ▷' "ENCODING" ▷ key).
Definition object_idletime (key : K) : Command := taken (CMD "OBJECT" ▷' "IDLETIME" ▷ key).
Definition object_freq (key : K) : Command := taken (CMD "OBJECT" ▷' "FREQ" ▷ key).
Definition object_refcount (key : K) : Command := taken (CMD "OBJECT" ▷' "REFCOUNT" ▷ key).
Definition client_getname : Command := taken (CMD "CLIENT" ▷' "GETNAME").
Definition client_id : Command := taken (CMD "CLIENT" ▷' "ID").
Definition client_setname (connection_name : K) : Command :=
  taken (CMD "CLIENT" ▷' "SETNAME" ▷ connection_name).

(** Flushing. *)

Definition flushall : Command := taken (CMD "FLUSHALL").
Definition flushall_options (options : FlushAllOptions) : Command :=
  taken (CMD "FLUSHALL" ▷ options).
Definition flushdb : Command := taken (CMD "FLUSHDB").
Definition flushdb_options (options : FlushAllOptions) : Command :=
  taken (CMD "FLUSHDB" ▷ options).
End builders.

(** ** Iterators ([implement_iterators!] of [commands/macros.rs])

    The command an iterator starts from, with its cursor argument. *)

Definition with_cursor_arg (c : Command) (cur : Z) : Command := c ← c; Some (cursor_arg c cur).

Section iterators.
Context `{AK : ToRedisArgs K} `{AP : ToRedisArgs P}.

Definition scan : Command := with_cursor_arg (CMD "SCAN") 0.
Definition scan_options (opts : ScanOptions) : Command := with_cursor_arg (CMD "SCAN") 0 ▷ opts.
Definition scan_match (pattern : P) : Command := with_cursor_arg (CMD "SCAN") 0 ▷' "MATCH" ▷ pattern.
Definition hscan (key : K) : Command := with_cursor_arg (CMD "HSCAN" ▷ key) 0.
Definition hscan_match (key : K) (pattern : P) : Command :=
  with_cursor_arg (CMD "HSCAN" ▷ key) 0 ▷' "MATCH" ▷ pattern.
Definition sscan (key : K) : Command := with_cursor_arg (CMD "SSCAN" ▷ key) 0.
Definition sscan_match (key : K) (pattern : P) : Command :=
  with_cursor_arg (CMD "SSCAN" ▷ key) 0 ▷' "MATCH" ▷ pattern.
Definition zscan (key : K) : Command := with_cursor_arg (CMD "ZSCAN" ▷ key) 0.
Definition zscan_match (key : K) (pattern : P) : Command :=
  with_cursor_arg (CMD "ZSCAN" ▷ key) 0 ▷' "MATCH" ▷ pattern.
End iterators.

(** ** Where a cluster client sends a command *)

(** The node the command is sent to is that of the slot of the key, a replica
    being allowed when the command is a reading one. *)
Definition routed_by_key `{Crc16} `{HashOrder} (name : string) (key : bytes) (b : Command) : Prop :=
  exists c, b = Some c /\ for_routable c = Some (Some (for_key (bs name) key)).

(** The first word of the commands with subcommands. *)
Definition has_subcommands (name : bytes) : bool :=
  one_of name ["XGROUP"; "OBJECT"; "SLOWLOG"; "FUNCTION"; "MODULE"; "COMMAND"; "PUBSUB"; "CONFIG";
    "MEMORY"; "XINFO"; "CLIENT"; "ACL"; "SCRIPT"; "CLUSTER"; "LATENCY"].

(** The arguments [l] are those of the command called [name]. *)
Definition names (l : list bytes) (name : bytes) : bool :=
  match l with
  | a :: l' =>
      negb (bool_decide (a = [])) &&
      if has_subcommands (to_ascii_uppercase a)
      then match l' with
           | b :: _ => bool_decide (to_ascii_uppercase a ++ bs " " ++ to_ascii_uppercase b = name)
           | [] => false
           end
      else bool_decide (to_ascii_uppercase a = name)
  | [] => false
  end.

Lemma names_app l l' name : names l name = true -> names (l ++ l') name = true.
Proof. destruct l as [|a [|b l]]; simpl; [done| |done]. case_match; [by rewrite andb_false_r | done]. Qed.

Section routes.
Context `{Crc16} `{HashOrder}.

Lemma command_named l name (c : Cmd) : presents c l -> names l name = true -> command c = Some (Some name).
Proof.
  intros Hp Hn. unfold command. rewrite !(presents_arg _ _ Hp).
  destruct l as [|a l]; [done|]. unfold names in Hn. apply andb_true_iff in Hn as [_ Hn].
  cbn [lookup list_lookup try_bind]. cbv zeta. change (one_of (to_ascii_uppercase a) _) with
    (has_subcommands (to_ascii_uppercase a)).
  destruct (has_subcommands _); [|by apply bool_decide_eq_true in Hn as ->].
  destruct l as [|b l]; [done|]. by apply bool_decide_eq_true in Hn as <-.
Qed.

Lemma built_named b l name : built b l -> names l name = true ->
  exists c, b = Some c /\ presents c l /\ command c = Some (Some name).
Proof.
  intros (c & -> & Hok & Hcur & Hi) Hn. exists c. split; [done|].
  assert (presents c l) as Hp; [|split; [done | by apply command_named with l]].
  apply presents_args; [done..|]. destruct l as [|[] l]; [done| |done]. intros _. done.
Qed.

(** The key behind [pre] is the one a command is routed by. *)
Definition key_behind (name : bytes) (pre : list bytes) : Prop :=
  match base_routing name with
  | By_FirstKey => length pre = 1%nat
  | By_SecondArg => length pre = 2%nat
  | By_SecondArgAfterKeyCount => exists n, (0 < n <= u64_max)%Z /\ tail pre = [itoa n]
  | By_ThirdArgAfterKeyCount => exists a n, (0 < n <= u64_max)%Z /\ tail pre = [a; itoa n]
  | By_StreamsIndex => find_position (fun a => eq_ignore_ascii_case a (bs "STREAMS")) pre =
      Some (length pre - 1)%nat
  | _ => False
  end.

Lemma parse_count n : (0 < n <= u64_max)%Z -> parse_arg u64_ty (itoa n) = Some n.
Proof.
  intros Hn. unfold parse_arg. rewrite from_utf8_itoa. simpl. apply parse_int_itoa; [done|].
  split; simpl; unfold u64_max in *; lia.
Qed.

Lemma find_position_app {A} (f : A -> bool) l l' i :
  find_position f l = Some i -> find_position f (l ++ l') = Some i.
Proof.
  revert i. induction l as [|a l IH]; intros i; [done|]. simpl. case_match; [done|].
  destruct (find_position f l); [|done]. by rewrite (IH _ eq_refl).
Qed.

Lemma route_by_key name pre k b : begins b (pre ++ [k]) -> names pre (bs name) = true ->
  key_behind (bs name) pre -> routed_by_key name k b.
Proof.
  intros [l Hb] Hn Hk. rewrite <- app_assoc in Hb. simpl in Hb.
  destruct (built_named _ _ _ Hb (names_app _ _ _ Hn)) as (c & -> & Hp & Hc).
  exists c. split; [done|]. unfold for_routable. rewrite Hc. cbn [try_bind]. unfold key_behind, key_at in *.
  assert ((pre ++ k :: l) !! length pre = Some k) as Hl by (by rewrite list_lookup_middle).
  destruct (base_routing (bs name)); try done.
  - rewrite (presents_arg _ _ Hp), <- Hk, Hl. done.
  - rewrite (presents_arg _ _ Hp), <- Hk, Hl. done.
  - destruct Hk as (n & Hn' & Ht). destruct pre as [|a [|? [|? ?]]]; simplify_eq/=.
    rewrite !(presents_arg _ _ Hp). simpl. rewrite parse_count by done. simpl.
    by rewrite (proj2 (Z.eqb_neq _ _)) by lia.
  - rewrite (presents_position _ _ Hp), (find_position_app _ _ _ _ Hk). cbn [try_bind].
    rewrite (presents_arg _ _ Hp), Nat.sub_add, Hl; [done|]. by destruct pre; simpl; [|lia].
  - destruct Hk as (a' & n & Hn' & Ht). destruct pre as [|a [|? [|? [|? ?]]]]; simplify_eq/=.
    rewrite !(presents_arg _ _ Hp). simpl. rewrite parse_count by done. simpl.
    by rewrite (proj2 (Z.eqb_neq _ _)) by lia.
Qed.
End routes.

(** The builders that take a key, by the command they build and the key. *)
Inductive on_key `{Ryu} : string -> bytes -> Command -> Prop :=
| on_get `{ToSingleRedisArg K} (key : K) :
    on_key "GET" (single_arg key) (get key)
| on_set `{ToSingleRedisArg K} `{ToSingleRedisArg V} (key : K) (value : V) :
    on_key "SET" (single_arg key) (set key value)
| on_set_options `{ToSingleRedisArg K} `{ToSingleRedisArg V} (key : K) (value : V)
    (options : SetOptions) :
    on_key "SET" (single_arg key) (set_options key value options)
| on_set_ex `{ToSingleRedisArg K} `{ToSingleRedisArg V} (key : K) (value : V) (seconds : Z) :
    on_key "SETEX" (single_arg key) (set_ex key value seconds)
| on_pset_ex `{ToSingleRedisArg K} `{ToSingleRedisArg V} (key : K) (value : V)
    (milliseconds : Z) :
    on_key "PSETEX" (single_arg key) (pset_ex key value milliseconds)
| on_set_nx `{ToSingleRedisArg K} `{ToSingleRedisArg V} (key : K) (value : V) :
    on_key "SETNX" (single_arg key) (set_nx key value)
| on_mset_nx `{AK : ToRedisArgs K} `{AV : ToRedisArgs V} (items : list (K * V)) k ks :
    write_redis_args _ items = Some (k :: ks) -> on_key "MSETNX" k (mset_nx items)
| on_getset `{ToSingleRedisArg K} `{ToSingleRedisArg V} (key : K) (value : V) :
    on_key "GETSET" (single_arg key) (getset key value)
| on_getrange `{ToSingleRedisArg K} (key : K) (from to : Z) :
    on_key "GETRANGE" (single_arg key) (getrange key from to)
| on_setrange `{ToSingleRedisArg K} `{ToSingleRedisArg V} (key : K) (offset : Z) (value : V) :
    on_key "SETRANGE" (single_arg key) (setrange key offset value)
| on_del_ex `{ToSingleRedisArg K} (key : K) (value_comparison : ValueComparison) :
    on_key "DELEX" (single_arg key) (del_ex key value_comparison)
| on_digest `{ToSingleRedisArg K} (key : K) :
    on_key "DIGEST" (single_arg key) (digest key)
| on_key_type `{ToSingleRedisArg K} (key : K) :
    on_key "TYPE" (single_arg key) (key_type key)
| on_expire `{ToSingleRedisArg K} (key : K) (seconds : Z) :
    on_key "EXPIRE" (single_arg key) (expire key seconds)
| on_expire_at `{ToSingleRedisArg K} (key : K) (ts : Z) :
    on_key "EXPIREAT" (single_arg key) (expire_at key ts)
| on_pexpire `{ToSingleRedisArg K} (key : K) (ms : Z) :
    on_key "PEXPIRE" (single_arg key) (pexpire key ms)
| on_pexpire_at `{ToSingleRedisArg K} (key : K) (ts : Z) :
    on_key "PEXPIREAT" (single_arg key) (pexpire_at key ts)
| on_expire_time `{ToSingleRedisArg K} (key : K) :
    on_key "EXPIRETIME" (single_arg key) (expire_time key)
| on_pexpire_time `{ToSingleRedisArg K} (key : K) :
    on_key "PEXPIRETIME" (single_arg key) (pexpire_time key)
| on_persist `{ToSingleRedisArg K} (key : K) :
    on_key "PERSIST" (single_arg key) (persist key)
| on_ttl `{ToSingleRedisArg K} (key : K) :
    on_key "TTL" (single_arg key) (ttl key)
| on_pttl `{ToSingleRedisArg K} (key : K) :
    on_key "PTTL" (single_arg key) (pttl key)
| on_get_ex `{ToSingleRedisArg K} (key : K) (expire_at : Expiry) :
    on_key "GETEX" (single_arg key) (get_ex key expire_at)
| on_get_del `{ToSingleRedisArg K} (key : K) :
    on_key "GETDEL" (single_arg key) (get_del key)
| on_copy `{ToSingleRedisArg KSrc} `{ToSingleRedisArg KDst} `{ToString Db} (source : KSrc)
    (destination : KDst) (options : CopyOptions Db) :
    on_key "COPY" (single_arg source) (copy source destination options)
| on_rename `{ToSingleRedisArg K} `{ToSingleRedisArg NK} (key : K) (new_key : NK) :
    on_key "RENAME" (single_arg key) (rename key new_key)
| on_rename_nx `{ToSingleRedisArg K} `{ToSingleRedisArg NK} (key : K) (new_key : NK) :
    on_key "RENAMENX" (single_arg key) (rename_nx key new_key)
| on_append `{ToSingleRedisArg K} `{ToSingleRedisArg V} (key : K) (value : V) :
    on_key "APPEND" (single_arg key) (append key value)
| on_incr `{ToSingleRedisArg K} `{ToSingleRedisArg V} (key : K) (delta : V) :
    on_key (if is_float delta then "INCRBYFLOAT" else "INCRBY") (single_arg key) (incr key delta)
| on_decr `{ToSingleRedisArg K} `{ToSingleRedisArg V} (key : K) (delta : V) :
    on_key "DECRBY" (single_arg key) (decr key delta)
| on_increx `{ToSingleRedisArg K} `{ToSingleRedisArg V} (key : K) (increment : V)
    (options : IncrexOptions V) :
    on_key "INCREX" (single_arg key) (increx key increment options)
| on_setbit `{ToSingleRedisArg K} (key : K) (offset : Z) (value : bool) :
    on_key "SETBIT" (single_arg key) (setbit key offset value)
| on_getbit `{ToSingleRedisArg K} (key : K) (offset : Z) :
    on_key "GETBIT" (single_arg key) (getbit key offset)
| on_bitcount `{ToSingleRedisArg K} (key : K) :
    on_key "BITCOUNT" (single_arg key) (bitcount key)
| on_bitcount_range `{ToSingleRedisArg K} (key : K) (start end_ : Z) :
    on_key "BITCOUNT" (single_arg key) (bitcount_range key start end_)
| on_bit_and `{ToSingleRedisArg D} `{Writes SK} (dstkey : D) (srckeys : SK) :
    on_key "BITOP" (single_arg dstkey) (bit_and dstkey srckeys)
| on_bit_or `{ToSingleRedisArg D} `{Writes SK} (dstkey : D) (srckeys : SK) :
    on_key "BITOP" (single_arg dstkey) (bit_or dstkey srckeys)
| on_bit_xor `{ToSingleRedisArg D} `{Writes SK} (dstkey : D) (srckeys : SK) :
    on_key "BITOP" (single_arg dstkey) (bit_xor dstkey srckeys)
| on_bit_not `{ToSingleRedisArg D} `{ToSingleRedisArg SK} (dstkey : D) (srckey : SK) :
    on_key "BITOP" (single_arg dstkey) (bit_not dstkey srckey)
| on_bit_diff `{ToSingleRedisArg D} `{Writes SK} (dstkey : D) (srckeys : SK) :
    on_key "BITOP" (single_arg dstkey) (bit_diff dstkey srckeys)
| on_bit_diff1 `{ToSingleRedisArg D} `{Writes SK} (dstkey : D) (srckeys : SK) :
    on_key "BITOP" (single_arg dstkey) (bit_diff1 dstkey srckeys)
| on_bit_and_or `{ToSingleRedisArg D} `{Writes SK} (dstkey : D) (srckeys : SK) :
    on_key "BITOP" (single_arg dstkey) (bit_and_or dstkey srckeys)
| on_bit_one `{ToSingleRedisArg D} `{Writes SK} (dstkey : D) (srckeys : SK) :
    on_key "BITOP" (single_arg dstkey) (bit_one dstkey srckeys)
| on_strlen `{ToSingleRedisArg K} (key : K) :
    on_key "STRLEN" (single_arg key) (strlen key)
| on_hget `{ToSingleRedisArg K} `{ToSingleRedisArg F} (key : K) (field : F) :
    on_key "HGET" (single_arg key) (hget key field)
| on_hmget `{ToSingleRedisArg K} `{Writes F} (key : K) (fields : F) :
    on_key "HMGET" (single_arg key) (hmget key fields)
| on_hget_ex `{ToSingleRedisArg K} `{Writes F} (key : K) (fields : F) (expire_at : Expiry) :
    on_key "HGETEX" (single_arg key) (hget_ex key fields expire_at)
| on_hdel `{ToSingleRedisArg K} `{Writes F} (key : K) (field : F) :
    on_key "HDEL" (single_arg key) (hdel key field)
| on_hget_del `{ToSingleRedisArg K} `{Writes F} (key : K) (fields : F) :
    on_key "HGETDEL" (single_arg key) (hget_del key fields)
| on_hset `{ToSingleRedisArg K} `{ToSingleRedisArg F} `{ToSingleRedisArg V} (key : K)
    (field : F) (value : V) :
    on_key "HSET" (single_arg key) (hset key field value)
| on_hset_ex `{ToSingleRedisArg K} `{Writes F} `{Writes V} (key : K)
    (hash_field_expiration_options : HashFieldExpirationOptions) (fields_values : list (F * V)) :
    on_key "HSETEX" (single_arg key) (hset_ex key hash_field_expiration_options fields_values)
| on_hset_nx `{ToSingleRedisArg K} `{ToSingleRedisArg F} `{ToSingleRedisArg V} (key : K)
    (field : F) (value : V) :
    on_key "HSETNX" (single_arg key) (hset_nx key field value)
| on_hset_multiple `{ToSingleRedisArg K} `{Writes F} `{Writes V} (key : K)
    (items : list (F * V)) :
    on_key "HMSET" (single_arg key) (hset_multiple key items)
| on_hincr `{ToSingleRedisArg K} `{ToSingleRedisArg F} `{ToSingleRedisArg D} (key : K)
    (field : F) (delta : D) :
    on_key (if is_float delta then "HINCRBYFLOAT" else "HINCRBY") (single_arg key) (hincr key field delta)
| on_hexists `{ToSingleRedisArg K} `{ToSingleRedisArg F} (key : K) (field : F) :
    on_key "HEXISTS" (single_arg key) (hexists key field)
| on_httl `{ToSingleRedisArg K} `{Writes F} (key : K) (fields : F) :
    on_key "HTTL" (single_arg key) (httl key fields)
| on_hpttl `{ToSingleRedisArg K} `{Writes F} (key : K) (fields : F) :
    on_key "HPTTL" (single_arg key) (hpttl key fields)
| on_hexpire `{ToSingleRedisArg K} `{Writes F} (key : K) (seconds : Z) (opt : ExpireOption)
    (fields : F) :
    on_key "HEXPIRE" (single_arg key) (hexpire key seconds opt fields)
| on_hexpire_at `{ToSingleRedisArg K} `{Writes F} (key : K) (ts : Z) (opt : ExpireOption)
    (fields : F) :
    on_key "HEXPIREAT" (single_arg key) (hexpire_at key ts opt fields)
| on_hexpire_time `{ToSingleRedisArg K} `{Writes F} (key : K) (fields : F) :
    on_key "HEXPIRETIME" (single_arg key) (hexpire_time key fields)
| on_hpersist `{ToSingleRedisArg K} `{Writes F} (key : K) (fields : F) :
    on_key "HPERSIST" (single_arg key) (hpersist key fields)
| on_hpexpire `{ToSingleRedisArg K} `{Writes F} (key : K) (milliseconds : Z)
    (opt : ExpireOption) (fields : F) :
    on_key "HPEXPIRE" (single_arg key) (hpexpire key milliseconds opt fields)
| on_hpexpire_at `{ToSingleRedisArg K} `{Writes F} (key : K) (ts : Z) (opt : ExpireOption)
    (fields : F) :
    on_key "HPEXPIREAT" (single_arg key) (hpexpire_at key ts opt fields)
| on_hpexpire_time `{ToSingleRedisArg K} `{Writes F} (key : K) (fields : F) :
    on_key "HPEXPIRETIME" (single_arg key) (hpexpire_time key fields)
| on_hkeys `{ToSingleRedisArg K} (key : K) :
    on_key "HKEYS" (single_arg key) (hkeys key)
| on_hvals `{ToSingleRedisArg K} (key : K) :
    on_key "HVALS" (single_arg key) (hvals key)
| on_hgetall `{ToSingleRedisArg K} (key : K) :
    on_key "HGETALL" (single_arg key) (hgetall key)
| on_hlen `{ToSingleRedisArg K} (key : K) :
    on_key "HLEN" (single_arg key) (hlen key)
| on_blmove `{ToSingleRedisArg SK} `{ToSingleRedisArg D} (srckey : SK) (dstkey : D)
    (src_dir dst_dir : Direction) (timeout : f64) :
    on_key "BLMOVE" (single_arg srckey) (blmove srckey dstkey src_dir dst_dir timeout)
| on_blmpop `{AK : ToRedisArgs K} (timeout : f64) (numkeys : Z) (key : K) (dir : Direction)
    (count : Z) k ks :
    write_redis_args AK key = Some (k :: ks) -> (0 < numkeys <= u64_max)%Z ->
    on_key "BLMPOP" k (blmpop timeout numkeys key dir count)
| on_blpop `{AK : ToRedisArgs K} (key : K) (timeout : f64) k ks :
    write_redis_args AK key = Some (k :: ks) -> on_key "BLPOP" k (blpop key timeout)
| on_brpop `{AK : ToRedisArgs K} (key : K) (timeout : f64) k ks :
    write_redis_args AK key = Some (k :: ks) -> on_key "BRPOP" k (brpop key timeout)
| on_brpoplpush `{ToSingleRedisArg SK} `{ToSingleRedisArg D} (srckey : SK) (dstkey : D)
    (timeout : f64) :
    on_key "BRPOPLPUSH" (single_arg srckey) (brpoplpush srckey dstkey timeout)
| on_lindex `{ToSingleRedisArg K} (key : K) (index : Z) :
    on_key "LINDEX" (single_arg key) (lindex key index)
| on_linsert_before `{ToSingleRedisArg K} `{ToSingleRedisArg P} `{ToSingleRedisArg V} (key : K)
    (pivot : P) (value : V) :
    on_key "LINSERT" (single_arg key) (linsert_before key pivot value)
| on_linsert_after `{ToSingleRedisArg K} `{ToSingleRedisArg P} `{ToSingleRedisArg V} (key : K)
    (pivot : P) (value : V) :
    on_key "LINSERT" (single_arg key) (linsert_after key pivot value)
| on_llen `{ToSingleRedisArg K} (key : K) :
    on_key "LLEN" (single_arg key) (llen key)
| on_lmove `{ToSingleRedisArg SK} `{ToSingleRedisArg D} (srckey : SK) (dstkey : D)
    (src_dir dst_dir : Direction) :
    on_key "LMOVE" (single_arg srckey) (lmove srckey dstkey src_dir dst_dir)
| on_lmpop `{AK : ToRedisArgs K} (numkeys : Z) (key : K) (dir : Direction) (count : Z) k ks :
    write_redis_args AK key = Some (k :: ks) -> (0 < numkeys <= u64_max)%Z ->
    on_key "LMPOP" k (lmpop numkeys key dir count)
| on_lpop `{ToSingleRedisArg K} (key : K) (count : option Z) :
    on_key "LPOP" (single_arg key) (lpop key count)
| on_lpos `{ToSingleRedisArg K} `{ToSingleRedisArg V} (key : K) (value : V)
    (options : LposOptions) :
    on_key "LPOS" (single_arg key) (lpos key value options)
| on_lpush `{ToSingleRedisArg K} `{Writes V} (key : K) (value : V) :
    on_key "LPUSH" (single_arg key) (lpush key value)
| on_lpush_exists `{ToSingleRedisArg K} `{Writes V} (key : K) (value : V) :
    on_key "LPUSHX" (single_arg key) (lpush_exists key value)
| on_lrange `{ToSingleRedisArg K} (key : K) (start stop : Z) :
    on_key "LRANGE" (single_arg key) (lrange key start stop)
| on_lrem `{ToSingleRedisArg K} `{ToSingleRedisArg V} (key : K) (count : Z) (value : V) :
    on_key "LREM" (single_arg key) (lrem key count value)
| on_ltrim `{ToSingleRedisArg K} (key : K) (start stop : Z) :
    on_key "LTRIM" (single_arg key) (ltrim key start stop)
| on_lset `{ToSingleRedisArg K} `{ToSingleRedisArg V} (key : K) (index : Z) (value : V) :
    on_key "LSET" (single_arg key) (lset key index value)
| on_rpop `{ToSingleRedisArg K} (key : K) (count : option Z) :
    on_key "RPOP" (single_arg key) (rpop key count)
| on_rpoplpush `{ToSingleRedisArg K} `{ToSingleRedisArg D} (key : K) (dstkey : D) :
    on_key "RPOPLPUSH" (single_arg key) (rpoplpush key dstkey)
| on_rpush `{ToSingleRedisArg K} `{Writes V} (key : K) (value : V) :
    on_key "RPUSH" (single_arg key) (rpush key value)
| on_rpush_exists `{ToSingleRedisArg K} `{Writes V} (key : K) (value : V) :
    on_key "RPUSHX" (single_arg key) (rpush_exists key value)
| on_sadd `{ToSingleRedisArg K} `{Writes M} (key : K) (member : M) :
    on_key "SADD" (single_arg key) (sadd key member)
| on_scard `{ToSingleRedisArg K} (key : K) :
    on_key "SCARD" (single_arg key) (scard key)
| on_sdiff `{AK : ToRedisArgs K} (keys : K) k ks :
    write_redis_args AK keys = Some (k :: ks) -> on_key "SDIFF" k (sdiff keys)
| on_sdiffstore `{ToSingleRedisArg D} `{Writes K} (dstkey : D) (keys : K) :
    on_key "SDIFFSTORE" (single_arg dstkey) (sdiffstore dstkey keys)
| on_sinter `{AK : ToRedisArgs K} (keys : K) k ks :
    write_redis_args AK keys = Some (k :: ks) -> on_key "SINTER" k (sinter keys)
| on_sinterstore `{ToSingleRedisArg D} `{Writes K} (dstkey : D) (keys : K) :
    on_key "SINTERSTORE" (single_arg dstkey) (sinterstore dstkey keys)
| on_sismember `{ToSingleRedisArg K} `{ToSingleRedisArg M} (key : K) (member : M) :
    on_key "SISMEMBER" (single_arg key) (sismember key member)
| on_smismember `{ToSingleRedisArg K} `{Writes M} (key : K) (members : M) :
    on_key "SMISMEMBER" (single_arg key) (smismember key members)
| on_smembers `{ToSingleRedisArg K} (key : K) :
    on_key "SMEMBERS" (single_arg key) (smembers key)
| on_smove `{ToSingleRedisArg SK} `{ToSingleRedisArg D} `{ToSingleRedisArg M} (srckey : SK)
    (dstkey : D) (member : M) :
    on_key "SMOVE" (single_arg srckey) (smove srckey dstkey member)
| on_spop `{ToSingleRedisArg K} (key : K) :
    on_key "SPOP" (single_arg key) (spop key)
| on_srandmember `{ToSingleRedisArg K} (key : K) :
    on_key "SRANDMEMBER" (single_arg key) (srandmember key)
| on_srandmember_multiple `{ToSingleRedisArg K} (key : K) (count : Z) :
    on_key "SRANDMEMBER" (single_arg key) (srandmember_multiple key count)
| on_srem `{ToSingleRedisArg K} `{Writes M} (key : K) (member : M) :
    on_key "SREM" (single_arg key) (srem key member)
| on_sunion `{AK : ToRedisArgs K} (keys : K) k ks :
    write_redis_args AK keys = Some (k :: ks) -> on_key "SUNION" k (sunion keys)
| on_sunionstore `{ToSingleRedisArg D} `{Writes K} (dstkey : D) (keys : K) :
    on_key "SUNIONSTORE" (single_arg dstkey) (sunionstore dstkey keys)
| on_zadd `{ToSingleRedisArg K} `{ToSingleRedisArg SK} `{ToSingleRedisArg M} (key : K)
    (member : M) (score : SK) :
    on_key "ZADD" (single_arg key) (zadd key member score)
| on_zadd_multiple `{ToSingleRedisArg K} `{Writes SK} `{Writes M} (key : K)
    (items : list (SK * M)) :
    on_key "ZADD" (single_arg key) (zadd_multiple key items)
| on_zadd_options `{ToSingleRedisArg K} `{ToSingleRedisArg SK} `{ToSingleRedisArg M} (key : K)
    (member : M) (score : SK) (options : SortedSetAddOptions) :
    on_key "ZADD" (single_arg key) (zadd_options key member score options)
| on_zadd_multiple_options `{ToSingleRedisArg K} `{Writes SK} `{Writes M} (key : K)
    (items : list (SK * M)) (options : SortedSetAddOptions) :
    on_key "ZADD" (single_arg key) (zadd_multiple_options key items options)
| on_zcard `{ToSingleRedisArg K} (key : K) :
    on_key "ZCARD" (single_arg key) (zcard key)
| on_zcount `{ToSingleRedisArg K} `{ToSingleRedisArg M} `{ToSingleRedisArg MM} (key : K)
    (min : M) (max : MM) :
    on_key "ZCOUNT" (single_arg key) (zcount key min max)
| on_zincr `{ToSingleRedisArg K} `{ToSingleRedisArg M} `{ToSingleRedisArg D} (key : K)
    (member : M) (delta : D) :
    on_key "ZINCRBY" (single_arg key) (zincr key member delta)
| on_zinterstore `{ToSingleRedisArg D} `{Writes K} (dstkey : D) (keys : K) :
    on_key "ZINTERSTORE" (single_arg dstkey) (zinterstore dstkey keys)
| on_zinterstore_min `{ToSingleRedisArg D} `{Writes K} (dstkey : D) (keys : K) :
    on_key "ZINTERSTORE" (single_arg dstkey) (zinterstore_min dstkey keys)
| on_zinterstore_max `{ToSingleRedisArg D} `{Writes K} (dstkey : D) (keys : K) :
    on_key "ZINTERSTORE" (single_arg dstkey) (zinterstore_max dstkey keys)
| on_zinterstore_weights `{ToSingleRedisArg D} `{Writes K} `{Writes W} (dstkey : D)
    (keys : list (K * W)) :
    on_key "ZINTERSTORE" (single_arg dstkey) (zinterstore_weights dstkey keys)
| on_zinterstore_min_weights `{ToSingleRedisArg D} `{Writes K} `{Writes W} (dstkey : D)
    (keys : list (K * W)) :
    on_key "ZINTERSTORE" (single_arg dstkey) (zinterstore_min_weights dstkey keys)
| on_zinterstore_max_weights `{ToSingleRedisArg D} `{Writes K} `{Writes W} (dstkey : D)
    (keys : list (K * W)) :
    on_key "ZINTERSTORE" (single_arg dstkey) (zinterstore_max_weights dstkey keys)
| on_zlexcount `{ToSingleRedisArg K} `{ToSingleRedisArg M} `{ToSingleRedisArg MM} (key : K)
    (min : M) (max : MM) :
    on_key "ZLEXCOUNT" (single_arg key) (zlexcount key min max)
| on_bzpopmax `{AK : ToRedisArgs K} (key : K) (timeout : f64) k ks :
    write_redis_args AK key = Some (k :: ks) -> on_key "BZPOPMAX" k (bzpopmax key timeout)
| on_zpopmax `{ToSingleRedisArg K} (key : K) (count : Z) :
    on_key "ZPOPMAX" (single_arg key) (zpopmax key count)
| on_bzpopmin `{AK : ToRedisArgs K} (key : K) (timeout : f64) k ks :
    write_redis_args AK key = Some (k :: ks) -> on_key "BZPOPMIN" k (bzpopmin key timeout)
| on_zpopmin `{ToSingleRedisArg K} (key : K) (count : Z) :
    on_key "ZPOPMIN" (single_arg key) (zpopmin key count)
| on_bzmpop_max `{AK : ToRedisArgs K} (timeout : f64) (keys : K) (count : Z) k ks :
    write_redis_args AK keys = Some (k :: ks) ->
    (0 < Z.of_nat (num_of_args AK keys) <= u64_max)%Z ->
    on_key "BZMPOP" k (bzmpop_max timeout keys count)
| on_zmpop_max `{AK : ToRedisArgs K} (keys : K) (count : Z) k ks :
    write_redis_args AK keys = Some (k :: ks) ->
    (0 < Z.of_nat (num_of_args AK keys) <= u64_max)%Z ->
    on_key "ZMPOP" k (zmpop_max keys count)
| on_bzmpop_min `{AK : ToRedisArgs K} (timeout : f64) (keys : K) (count : Z) k ks :
    write_redis_args AK keys = Some (k :: ks) ->
    (0 < Z.of_nat (num_of_args AK keys) <= u64_max)%Z ->
    on_key "BZMPOP" k (bzmpop_min timeout keys count)
| on_zmpop_min `{AK : ToRedisArgs K} (keys : K) (count : Z) k ks :
    write_redis_args AK keys = Some (k :: ks) ->
    (0 < Z.of_nat (num_of_args AK keys) <= u64_max)%Z ->
    on_key "ZMPOP" k (zmpop_min keys count)
| on_zrandmember `{ToSingleRedisArg K} (key : K) (count : option Z) :
    on_key "ZRANDMEMBER" (single_arg key) (zrandmember key count)
| on_zrandmember_withscores `{ToSingleRedisArg K} (key : K) (count : Z) :
    on_key "ZRANDMEMBER" (single_arg key) (zrandmember_withscores key count)
| on_zrange `{ToSingleRedisArg K} (key : K) (start stop : Z) :
    on_key "ZRANGE" (single_arg key) (zrange key start stop)
| on_zrange_withscores `{ToSingleRedisArg K} (key : K) (start stop : Z) :
    on_key "ZRANGE" (single_arg key) (zrange_withscores key start stop)
| on_zrangebylex `{ToSingleRedisArg K} `{ToSingleRedisArg M} `{ToSingleRedisArg MM} (key : K)
    (min : M) (max : MM) :
    on_key "ZRANGEBYLEX" (single_arg key) (zrangebylex key min max)
| on_zrangebylex_limit `{ToSingleRedisArg K} `{ToSingleRedisArg M} `{ToSingleRedisArg MM}
    (key : K) (min : M) (max : MM) (offset count : Z) :
    on_key "ZRANGEBYLEX" (single_arg key) (zrangebylex_limit key min max offset count)
| on_zrevrangebylex `{ToSingleRedisArg K} `{ToSingleRedisArg MM} `{ToSingleRedisArg M} (key : K)
    (max : MM) (min : M) :
    on_key "ZREVRANGEBYLEX" (single_arg key) (zrevrangebylex key max min)
| on_zrevrangebylex_limit `{ToSingleRedisArg K} `{ToSingleRedisArg MM} `{ToSingleRedisArg M}
    (key : K) (max : MM) (min : M) (offset count : Z) :
    on_key "ZREVRANGEBYLEX" (single_arg key) (zrevrangebylex_limit key max min offset count)
| on_zrangebyscore `{ToSingleRedisArg K} `{ToSingleRedisArg M} `{ToSingleRedisArg MM} (key : K)
    (min : M) (max : MM) :
    on_key "ZRANGEBYSCORE" (single_arg key) (zrangebyscore key min max)
| on_zrangebyscore_withscores `{ToSingleRedisArg K} `{ToSingleRedisArg M} `{ToSingleRedisArg MM}
    (key : K) (min : M) (max : MM) :
    on_key "ZRANGEBYSCORE" (single_arg key) (zrangebyscore_withscores key min max)
| on_zrangebyscore_limit `{ToSingleRedisArg K} `{ToSingleRedisArg M} `{ToSingleRedisArg MM}
    (key : K) (min : M) (max : MM) (offset count : Z) :
    on_key "ZRANGEBYSCORE" (single_arg key) (zrangebyscore_limit key min max offset count)
| on_zrangebyscore_limit_withscores `{ToSingleRedisArg K} `{ToSingleRedisArg M}
    `{ToSingleRedisArg MM} (key : K) (min : M) (max : MM) (offset count : Z) :
    on_key "ZRANGEBYSCORE" (single_arg key) (zrangebyscore_limit_withscores key min max offset count)
| on_zrank `{ToSingleRedisArg K} `{ToSingleRedisArg M} (key : K) (member : M) :
    on_key "ZRANK" (single_arg key) (zrank key member)
| on_zrem `{ToSingleRedisArg K} `{Writes M} (key : K) (members : M) :
    on_key "ZREM" (single_arg key) (zrem key members)
| on_zrembylex `{ToSingleRedisArg K} `{ToSingleRedisArg M} `{ToSingleRedisArg MM} (key : K)
    (min : M) (max : MM) :
    on_key "ZREMRANGEBYLEX" (single_arg key) (zrembylex key min max)
| on_zremrangebyrank `{ToSingleRedisArg K} (key : K) (start stop : Z) :
    on_key "ZREMRANGEBYRANK" (single_arg key) (zremrangebyrank key start stop)
| on_zrembyscore `{ToSingleRedisArg K} `{ToSingleRedisArg M} `{ToSingleRedisArg MM} (key : K)
    (min : M) (max : MM) :
    on_key "ZREMRANGEBYSCORE" (single_arg key) (zrembyscore key min max)
| on_zrevrange `{ToSingleRedisArg K} (key : K) (start stop : Z) :
    on_key "ZREVRANGE" (single_arg key) (zrevrange key start stop)
| on_zrevrange_withscores `{ToSingleRedisArg K} (key : K) (start stop : Z) :
    on_key "ZREVRANGE" (single_arg key) (zrevrange_withscores key start stop)
| on_zrevrangebyscore `{ToSingleRedisArg K} `{ToSingleRedisArg MM} `{ToSingleRedisArg M}
    (key : K) (max : MM) (min : M) :
    on_key "ZREVRANGEBYSCORE" (single_arg key) (zrevrangebyscore key max min)
| on_zrevrangebyscore_withscores `{ToSingleRedisArg K} `{ToSingleRedisArg MM}
    `{ToSingleRedisArg M} (key : K) (max : MM) (min : M) :
    on_key "ZREVRANGEBYSCORE" (single_arg key) (zrevrangebyscore_withscores key max min)
| on_zrevrangebyscore_limit `{ToSingleRedisArg K} `{ToSingleRedisArg MM} `{ToSingleRedisArg M}
    (key : K) (max : MM) (min : M) (offset count : Z) :
    on_key "ZREVRANGEBYSCORE" (single_arg key) (zrevrangebyscore_limit key max min offset count)
| on_zrevrangebyscore_limit_withscores `{ToSingleRedisArg K} `{ToSingleRedisArg MM}
    `{ToSingleRedisArg M} (key : K) (max : MM) (min : M) (offset count : Z) :
    on_key "ZREVRANGEBYSCORE" (single_arg key) (zrevrangebyscore_limit_withscores key max min offset count)
| on_zrevrank `{ToSingleRedisArg K} `{ToSingleRedisArg M} (key : K) (member : M) :
    on_key "ZREVRANK" (single_arg key) (zrevrank key member)
| on_zscore `{ToSingleRedisArg K} `{ToSingleRedisArg M} (key : K) (member : M) :
    on_key "ZSCORE" (single_arg key) (zscore key member)
| on_zscore_multiple `{ToSingleRedisArg K} `{AM : ToRedisArgs M} `{!Writes _ (tra_vec AM)}
    (key : K) (members : list M) :
    on_key "ZMSCORE" (single_arg key) (zscore_multiple key members)
| on_zunionstore `{ToSingleRedisArg D} `{Writes K} (dstkey : D) (keys : K) :
    on_key "ZUNIONSTORE" (single_arg dstkey) (zunionstore dstkey keys)
| on_zunionstore_min `{ToSingleRedisArg D} `{Writes K} (dstkey : D) (keys : K) :
    on_key "ZUNIONSTORE" (single_arg dstkey) (zunionstore_min dstkey keys)
| on_zunionstore_max `{ToSingleRedisArg D} `{Writes K} (dstkey : D) (keys : K) :
    on_key "ZUNIONSTORE" (single_arg dstkey) (zunionstore_max dstkey keys)
| on_zunionstore_weights `{ToSingleRedisArg D} `{Writes K} `{Writes W} (dstkey : D)
    (keys : list (K * W)) :
    on_key "ZUNIONSTORE" (single_arg dstkey) (zunionstore_weights dstkey keys)
| on_zunionstore_min_weights `{ToSingleRedisArg D} `{Writes K} `{Writes W} (dstkey : D)
    (keys : list (K * W)) :
    on_key "ZUNIONSTORE" (single_arg dstkey) (zunionstore_min_weights dstkey keys)
| on_zunionstore_max_weights `{ToSingleRedisArg D} `{Writes K} `{Writes W} (dstkey : D)
    (keys : list (K * W)) :
    on_key "ZUNIONSTORE" (single_arg dstkey) (zunionstore_max_weights dstkey keys)
| on_pfadd `{ToSingleRedisArg K} `{Writes E} (key : K) (element : E) :
    on_key "PFADD" (single_arg key) (pfadd key element)
| on_pfcount `{AK : ToRedisArgs K} (key : K) k ks :
    write_redis_args AK key = Some (k :: ks) -> on_key "PFCOUNT" k (pfcount key)
| on_pfmerge `{ToSingleRedisArg D} `{Writes SK} (dstkey : D) (srckeys : SK) :
    on_key "PFMERGE" (single_arg dstkey) (pfmerge dstkey srckeys)
| on_publish `{ToSingleRedisArg K} `{ToSingleRedisArg E} (channel : K) (message : E) :
    on_key "PUBLISH" (single_arg channel) (publish channel message)
| on_spublish `{ToSingleRedisArg K} `{ToSingleRedisArg E} (channel : K) (message : E) :
    on_key "SPUBLISH" (single_arg channel) (spublish channel message)
| on_object_encoding `{ToSingleRedisArg K} (key : K) :
    on_key "OBJECT ENCODING" (single_arg key) (object_encoding key)
| on_object_idletime `{ToSingleRedisArg K} (key : K) :
    on_key "OBJECT IDLETIME" (single_arg key) (object_idletime key)
| on_object_freq `{ToSingleRedisArg K} (key : K) :
    on_key "OBJECT FREQ" (single_arg key) (object_freq key)
| on_object_refcount `{ToSingleRedisArg K} (key : K) :
    on_key "OBJECT REFCOUNT" (single_arg key) (object_refcount key).

Lemma begins_refs `{Writes T} c l (xs : list T) : begins c l -> begins (c ▷& xs) l.
Proof. apply begins_arg. Qed.

(** Builds the arguments in front of the key, then peels those behind it. *)
Ltac solve_built := repeat first
  [ apply built_cmd | apply built_taken
  | eapply built_arg; [|first [eassumption | apply single_write | reflexivity]] ].
Ltac solve_begins :=
  first [ eapply begins_key; [solve_built | first [eassumption | apply single_write]]
        | apply begins_taken; solve_begins
        | apply begins_arg; solve_begins
        | apply begins_refs; solve_begins ].
Ltac solve_key_behind :=
  unfold key_behind;
  match goal with
  | |- context [base_routing ?n] =>
      let r := eval vm_compute in (base_routing n) in
      assert (base_routing n = r) as -> by (vm_compute; reflexivity)
  end; simpl; eauto.
Ltac solve_route :=
  eapply route_by_key; [solve_begins | vm_compute; reflexivity | solve_key_behind].

(** C14. Every command built for a key is sent, in a cluster, to a node that serves
    the slot of that key, whatever the types of the other arguments; reading
    commands may go to a replica.  The builders never panic on arguments that
    can be written. *)
Theorem builders_routed_by_key `{Ryu} `{Crc16} `{HashOrder} (name : string) (key : bytes) (b : Command)
    (Hb : on_key name key b) : routed_by_key name key b.
Proof.
  destruct Hb; unfold incr, hincr; repeat case_match; solve_route.
Qed.

(** ** Counts written in front of what they count *)

#[export] Instance counted_single {T} (A : ToRedisArgs T) `{!ToSingleRedisArg T A} : Counted T A.
Proof.
  refine {| counted_args x := [single_arg x] |}; intros x; [apply single_write | apply single_num].
Defined.

Lemma num_of_vec {T} (A : ToRedisArgs T) `{!ToSingleRedisArg T A} `{!PlainSlice A} (l : list T) :
  num_of_args (tra_vec A) l = length l.
Proof. destruct l as [|x [|y l]]; simpl; rewrite plain_single; [done| |done]. by rewrite single_num. Qed.

Lemma write_vec {T} (A : ToRedisArgs T) `{!ToSingleRedisArg T A} `{!PlainSlice A} (l : list T) :
  write_redis_args (tra_vec A) l = Some (map single_arg l).
Proof. simpl. rewrite plain_write. apply make_arg_iter_single. Qed.

#[export] Instance counted_vec {T} (A : ToRedisArgs T) `{!ToSingleRedisArg T A} `{!PlainSlice A} :
  Counted (list T) (tra_vec A).
Proof.
  refine {| counted_args l := map single_arg l |}; intros l; [by apply write_vec|].
  rewrite length_map. by apply num_of_vec.
Defined.

(** The arguments of pairs. *)
Definition pair_args `{ToSingleRedisArg T} `{ToSingleRedisArg U} (l : list (T * U)) : list bytes :=
  concat (map (fun p => [single_arg p.1; single_arg p.2]) l).

Lemma write_pairs `{ToSingleRedisArg T} `{ToSingleRedisArg U} (l : list (T * U)) :
  write_redis_args (tra_vec (tra_tuple2 A A0)) l = Some (pair_args l).
Proof.
  unfold pair_args. simpl. unfold make_arg_iter_ref. induction l as [|[x y] l IH]; [done|]. simpl.
  rewrite !single_write. simpl. destruct (mapM _ l); simplify_eq/=. by rewrite IH.
Qed.

(** A count [n] is followed by the arguments [l]. *)
Definition announces (b : Command) (n : nat) (l : list bytes) : Prop :=
  exists pre post, built b (pre ++ itoa (Z.of_nat n) :: l ++ post).

Lemma announces_here {T} `{A : ToRedisArgs T} c pre n m (x : T) l : built c pre -> n = m ->
  write_redis_args A x = Some l -> announces (c ▷ n ▷ x) m l.
Proof.
  intros Hc -> Hx. exists pre, []. rewrite app_nil_r, cons_middle, app_assoc.
  apply built_arg; [|done]. by apply built_arg.
Qed.

Lemma announces_arg `{Writes T} c n l (x : T) : announces c n l -> announces (c ▷ x) n l.
Proof.
  intros (pre & post & Hc). destruct (writes x) as [a Ha]. exists pre, (post ++ a).
  rewrite app_assoc, app_comm_cons, app_assoc. by apply built_arg.
Qed.

Lemma announces_taken c n l : announces c n l -> announces (taken c) n l.
Proof. intros (pre & post & Hc). exists pre, post. by apply built_taken. Qed.

(** The builders that write a count, with the arguments it counts. *)
Inductive counted `{Ryu} : nat -> list bytes -> Command -> Prop :=
| counted_mset_ex `{ToSingleRedisArg K} `{ToSingleRedisArg V} (items : list (K * V))
    (options : MSetOptions) :
    counted (length items) (pair_args items) (mset_ex items options)
| counted_hget_ex `{ToSingleRedisArg K} `{Counted F} (key : K) (fields : F) (expire_at : Expiry) :
    counted (length (counted_args fields)) (counted_args fields) (hget_ex key fields expire_at)
| counted_hget_del `{ToSingleRedisArg K} `{Counted F} (key : K) (fields : F) :
    counted (length (counted_args fields)) (counted_args fields) (hget_del key fields)
| counted_hset_ex `{ToSingleRedisArg K} `{ToSingleRedisArg F} `{ToSingleRedisArg V} (key : K)
    (hash_field_expiration_options : HashFieldExpirationOptions) (fields_values : list (F * V)) :
    counted (length fields_values) (pair_args fields_values)
      (hset_ex key hash_field_expiration_options fields_values)
| counted_httl `{ToSingleRedisArg K} `{Counted F} (key : K) (fields : F) :
    counted (length (counted_args fields)) (counted_args fields) (httl key fields)
| counted_hpttl `{ToSingleRedisArg K} `{Counted F} (key : K) (fields : F) :
    counted (length (counted_args fields)) (counted_args fields) (hpttl key fields)
| counted_hexpire `{ToSingleRedisArg K} `{Counted F} (key : K) (seconds : Z)
    (opt : ExpireOption) (fields : F) :
    counted (length (counted_args fields)) (counted_args fields)
      (hexpire key seconds opt fields)
| counted_hexpire_at `{ToSingleRedisArg K} `{Counted F} (key : K) (ts : Z) (opt : ExpireOption)
    (fields : F) :
    counted (length (counted_args fields)) (counted_args fields) (hexpire_at key ts opt fields)
| counted_hexpire_time `{ToSingleRedisArg K} `{Counted F} (key : K) (fields : F) :
    counted (length (counted_args fields)) (counted_args fields) (hexpire_time key fields)
| counted_hpersist `{ToSingleRedisArg K} `{Counted F} (key : K) (fields : F) :
    counted (length (counted_args fields)) (counted_args fields) (hpersist key fields)
| counted_hpexpire `{ToSingleRedisArg K} `{Counted F} (key : K) (milliseconds : Z)
    (opt : ExpireOption) (fields : F) :
    counted (length (counted_args fields)) (counted_args fields)
      (hpexpire key milliseconds opt fields)
| counted_hpexpire_at `{ToSingleRedisArg K} `{Counted F} (key : K) (ts : Z) (opt : ExpireOption)
    (fields : F) :
    counted (length (counted_args fields)) (counted_args fields) (hpexpire_at key ts opt fields)
| counted_hpexpire_time `{ToSingleRedisArg K} `{Counted F} (key : K) (fields : F) :
    counted (length (counted_args fields)) (counted_args fields) (hpexpire_time key fields)
| counted_zinterstore `{ToSingleRedisArg D} `{Counted K} (dstkey : D) (keys : K) :
    counted (length (counted_args keys)) (counted_args keys) (zinterstore dstkey keys)
| counted_zinterstore_min `{ToSingleRedisArg D} `{Counted K} (dstkey : D) (keys : K) :
    counted (length (counted_args keys)) (counted_args keys) (zinterstore_min dstkey keys)
| counted_zinterstore_max `{ToSingleRedisArg D} `{Counted K} (dstkey : D) (keys : K) :
    counted (length (counted_args keys)) (counted_args keys) (zinterstore_max dstkey keys)
| counted_zinterstore_weights `{ToSingleRedisArg D} `{ToSingleRedisArg K} `{Writes W} (dstkey : D)
    (keys : list (K * W)) :
    counted (length keys) (map (fun p => single_arg p.1) keys) (zinterstore_weights dstkey keys)
| counted_zinterstore_min_weights `{ToSingleRedisArg D} `{ToSingleRedisArg K} `{Writes W} (dstkey : D)
    (keys : list (K * W)) :
    counted (length keys) (map (fun p => single_arg p.1) keys) (zinterstore_min_weights dstkey keys)
| counted_zinterstore_max_weights `{ToSingleRedisArg D} `{ToSingleRedisArg K} `{Writes W} (dstkey : D)
    (keys : list (K * W)) :
    counted (length keys) (map (fun p => single_arg p.1) keys) (zinterstore_max_weights dstkey keys)
| counted_bzmpop_max `{Counted K} (timeout : f64) (keys : K) (count : Z) :
    counted (length (counted_args keys)) (counted_args keys) (bzmpop_max timeout keys count)
| counted_zmpop_max `{Counted K} (keys : K) (count : Z) :
    counted (length (counted_args keys)) (counted_args keys) (zmpop_max keys count)
| counted_bzmpop_min `{Counted K} (timeout : f64) (keys : K) (count : Z) :
    counted (length (counted_args keys)) (counted_args keys) (bzmpop_min timeout keys count)
| counted_zmpop_min `{Counted K} (keys : K) (count : Z) :
    counted (length (counted_args keys)) (counted_args keys) (zmpop_min keys count)
| counted_zunionstore `{ToSingleRedisArg D} `{Counted K} (dstkey : D) (keys : K) :
    counted (length (counted_args keys)) (counted_args keys) (zunionstore dstkey keys)
| counted_zunionstore_min `{ToSingleRedisArg D} `{Counted K} (dstkey : D) (keys : K) :
    counted (length (counted_args keys)) (counted_args keys) (zunionstore_min dstkey keys)
| counted_zunionstore_max `{ToSingleRedisArg D} `{Counted K} (dstkey : D) (keys : K) :
    counted (length (counted_args keys)) (counted_args keys) (zunionstore_max dstkey keys)
| counted_zunionstore_weights `{ToSingleRedisArg D} `{ToSingleRedisArg K} `{Writes W} (dstkey : D)
    (keys : list (K * W)) :
    counted (length keys) (map (fun p => single_arg p.1) keys) (zunionstore_weights dstkey keys)
| counted_zunionstore_min_weights `{ToSingleRedisArg D} `{ToSingleRedisArg K} `{Writes W} (dstkey : D)
    (keys : list (K * W)) :
    counted (length keys) (map (fun p => single_arg p.1) keys) (zunionstore_min_weights dstkey keys)
| counted_zunionstore_max_weights `{ToSingleRedisArg D} `{ToSingleRedisArg K} `{Writes W} (dstkey : D)
    (keys : list (K * W)) :
    counted (length keys) (map (fun p => single_arg p.1) keys) (zunionstore_max_weights dstkey keys).

Lemma num_of_keys `{ToSingleRedisArg K} {W} (l : list (K * W)) : num_of_refs (map fst l) = length l.
Proof. unfold num_of_refs. rewrite <- (length_map fst l). apply num_of_vec; apply _. Qed.

Lemma write_keys `{ToSingleRedisArg K} {W} (l : list (K * W)) :
  write_redis_args (tra_vec (tra_ref A)) (map fst l) = Some (map (fun p => single_arg p.1) l).
Proof. rewrite counted_write. simpl. by rewrite map_map. Qed.

Ltac solve_announces :=
  first [ eapply announces_here;
            [ solve_built
            | first [reflexivity | apply counted_num | apply num_of_vec | apply num_of_keys]
            | first [apply counted_write | apply write_pairs | apply write_keys] ]
        | apply announces_taken; solve_announces
        | eapply announces_arg; solve_announces ].

(** Where the protocol wants a number of fields or keys, the number written is
    that of the arguments behind it, for arguments that count themselves
    correctly: single values and vectors of single values. *)
Theorem counts_announced `{Ryu} (n : nat) (l : list bytes) (b : Command) (Hb : counted n l b) :
  announces b n l.
Proof. destruct Hb; solve_announces. Qed.

(** The commands that are split by slot: the name and the keys, one argument
    each, as [multi_slot_recombined] wants them. *)
Lemma multi_key_builders `{ToSingleRedisArg K} `{!PlainSlice A} (ks : list K) :
  let keys := map single_arg ks in
  built (mget ks) (bs "MGET" :: keys) /\ built (del ks) (bs "DEL" :: keys) /\
  built (exists_ ks) (bs "EXISTS" :: keys) /\ built (unlink ks) (bs "UNLINK" :: keys).
Proof.
  intros keys. split_and!; apply built_taken; (eapply built_arg with (l := [_]);
    [apply built_cmd | by apply write_vec]).
Qed.

(** MSETEX has its number of keys in front of them, but the routing table has no
    entry for it: the command goes to the slot of that number. *)
Lemma mset_ex_routed_by_count `{Crc16} `{HashOrder} `{ToSingleRedisArg K} `{ToSingleRedisArg V}
    (items : list (K * V)) (options : MSetOptions) :
  routed_by_key "MSETEX" (itoa (Z.of_nat (length items))) (mset_ex items options).
Proof.
  eapply (route_by_key _ [bs "MSETEX"]); [|vm_compute; reflexivity | solve_key_behind].
  apply begins_taken, begins_arg, begins_arg, begins_built with (l' := []). rewrite app_nil_r.
  by eapply (built_arg _ [_]); [apply built_cmd|].
Qed.

(** [num_of_args] of a vector of tuples counts the tuples, not the arguments:
    four fields are announced as two. *)
Lemma tuple_fields_miscounted `{ToSingleRedisArg F} (a b c d : F) :
  built (hget_del (bs "h") [(a, b); (c, d)])
    ([bs "HGETDEL"; bs "h"; bs "FIELDS"; bs "2"] ++ map single_arg [a; b; c; d]).
Proof.
  apply built_taken. eapply (built_arg _ [_; _; _; _]); [|by rewrite write_pairs].
  eapply (built_arg _ [_; _; _]); [|done]. eapply (built_arg _ [_; _]); [|done].
  by eapply (built_arg _ [_]); [apply built_cmd|].
Qed.

(** A pop from one of two lists goes to the slot of the first. *)
Lemma builders_routed_by_key_witness :
  let crc := (fun k => Z.of_nat (length k)) : Crc16 in
  let ryu := (fun _ => bs "1.5") : Ryu in
  (0 < 2 <= u64_max)%Z /\
  routed_by_key (H0 := insertion_order) "BLMPOP" (bs "{user}:queue")
    (blmpop S754_nan 2 [bs "{user}:queue"; bs "{user}:other"] Left 10).
Proof.
  intros crc ryu. split; [unfold u64_max; lia|]. apply builders_routed_by_key.
  eapply on_blmpop; [reflexivity | unfold u64_max; lia].
Defined.

(** The expiry times of two fields. *)
Lemma counts_announced_witness : let ryu := (fun _ => bs "1.5") : Ryu in
  announces (httl (bs "user:1") [bs "mail"; bs "phone"]) 2 [bs "mail"; bs "phone"].
Proof.
  intros ryu. apply (counts_announced 2). exact (counted_httl (bs "user:1") [bs "mail"; bs "phone"]).
Defined.
