(* ===== verification/Streams.v ===== *)
(** * Streams: [commands/streams.rs] and the stream commands of [commands/mod.rs]

    The option types with the arguments they write, the reply types with their
    conversions, and the builders.  The theorems say that replies are read back
    entry by entry, that reading commands are routed by their first stream, and
    that the idempotency settings stay within their limits. *)

From S2P Require Import Prelude Text Float64 Errors Types Cmd Convert Args Slots Routing Commands.

(** ** Options *)

Inductive StreamMaxlen := Maxlen_Equals (v : Z) | Maxlen_Approx (v : Z).
Definition StreamMaxlen_args (m : StreamMaxlen) : list bytes :=
  let '(ch, val) := match m with
                    | Maxlen_Equals v => (lit "=", v)
                    | Maxlen_Approx v => (lit "~", v)
                    end in
  [lit "MAXLEN"; ch; itoa val].
#[export] Instance tra_stream_maxlen : ToRedisArgs StreamMaxlen := tra_list StreamMaxlen_args.

Inductive StreamTrimmingMode := Exact | Approx.
Definition StreamTrimmingMode_arg (m : StreamTrimmingMode) : bytes :=
  match m with Exact => lit "=" | Approx => lit "~" end.

Inductive StreamTrimStrategy :=
| MaxLen (trim : StreamTrimmingMode) (max_entries : Z) (limit : option Z)
| MinId (trim : StreamTrimmingMode) (stream_id : bytes) (limit : option Z).
Definition strategy_maxlen (trim : StreamTrimmingMode) (max_entries : Z) : StreamTrimStrategy :=
  MaxLen trim max_entries None.
Definition strategy_minid (trim : StreamTrimmingMode) (stream_id : bytes) : StreamTrimStrategy :=
  MinId trim stream_id None.
Definition strategy_limit (s : StreamTrimStrategy) (limit : Z) : StreamTrimStrategy :=
  match s with
  | MaxLen m t _ => MaxLen m t (Some limit)
  | MinId m t _ => MinId m t (Some limit)
  end.
Definition StreamTrimStrategy_args (s : StreamTrimStrategy) : list bytes :=
  let '(written, limit) :=
    match s with
    | MaxLen m t limit => ([lit "MAXLEN"; StreamTrimmingMode_arg m; itoa t], limit)
    | MinId m t limit => ([lit "MINID"; StreamTrimmingMode_arg m; t], limit)
    end in
  written ++ if_some limit (fun limit => [lit "LIMIT"; itoa limit]).

Inductive StreamDeletionPolicy := KeepRef | DelRef | Acked.
Definition StreamDeletionPolicy_arg (p : StreamDeletionPolicy) : bytes :=
  match p with KeepRef => lit "KEEPREF" | DelRef => lit "DELREF" | Acked => lit "ACKED" end.
#[export] Instance tra_stream_deletion_policy : ToRedisArgs StreamDeletionPolicy :=
  tra_single StreamDeletionPolicy_arg NonNumeric.

Record StreamTrimOptions := {
  trim_strategy : StreamTrimStrategy;
  trim_deletion_policy : option StreamDeletionPolicy
}.
Definition trim_maxlen (mode : StreamTrimmingMode) (max_entries : Z) : StreamTrimOptions :=
  {| trim_strategy := strategy_maxlen mode max_entries; trim_deletion_policy := None |}.
Definition trim_minid (mode : StreamTrimmingMode) (stream_id : bytes) : StreamTrimOptions :=
  {| trim_strategy := strategy_minid mode stream_id; trim_deletion_policy := None |}.
Definition trim_limit (o : StreamTrimOptions) (limit : Z) : StreamTrimOptions :=
  {| trim_strategy := strategy_limit (trim_strategy o) limit;
     trim_deletion_policy := trim_deletion_policy o |}.
Definition trim_set_deletion_policy (o : StreamTrimOptions) (p : StreamDeletionPolicy)
    : StreamTrimOptions :=
  {| trim_strategy := trim_strategy o; trim_deletion_policy := Some p |}.
Definition StreamTrimOptions_args (o : StreamTrimOptions) : list bytes :=
  StreamTrimStrategy_args (trim_strategy o) ++
  if_some (trim_deletion_policy o) (fun p => [StreamDeletionPolicy_arg p]).
#[export] Instance tra_stream_trim_options : ToRedisArgs StreamTrimOptions :=
  tra_list StreamTrimOptions_args.

Inductive StreamIdempotencyMode :=
| Manual (producer_id idempotent_id : bytes)
| Automatic (producer_id : bytes).
Definition StreamIdempotencyMode_args (m : StreamIdempotencyMode) : list bytes :=
  match m with
  | Manual producer_id idempotent_id => [lit "IDMP"; producer_id; idempotent_id]
  | Automatic producer_id => [lit "IDMPAUTO"; producer_id]
  end.

Definition IDMP_DURATION_MIN : Z := 1.
Definition IDMP_DURATION_MAX : Z := 86400.
Definition IDMP_MAXSIZE_MIN : Z := 1.
Definition IDMP_MAXSIZE_MAX : Z := 10000.

Record StreamConfigOptions := { idmp_duration : option Z; idmp_maxsize : option Z }.

(** [(min..=max).contains(&x)], and the messages of [format!]. *)
Definition in_range (min max x : Z) : bool := (min <=? x)%Z && (x <=? max)%Z.
Definition duration_error (seconds : Z) : bytes :=
  bs "IDMP-DURATION must be between " ++ itoa IDMP_DURATION_MIN ++ bs " and " ++
  itoa IDMP_DURATION_MAX ++ bs " seconds, got: " ++ itoa seconds.
Definition maxsize_error (size : Z) : bytes :=
  bs "IDMP-MAXSIZE must be between " ++ itoa IDMP_MAXSIZE_MIN ++ bs " and " ++
  itoa IDMP_MAXSIZE_MAX ++ bs " entries, got: " ++ itoa size.

Definition with_idempotency_seconds (seconds : Z) : result bytes StreamConfigOptions :=
  if negb (in_range IDMP_DURATION_MIN IDMP_DURATION_MAX seconds) then Err (duration_error seconds)
  else Ok {| idmp_duration := Some seconds; idmp_maxsize := None |}.
Definition with_idempotency_maxsize (size : Z) : result bytes StreamConfigOptions :=
  if negb (in_range IDMP_MAXSIZE_MIN IDMP_MAXSIZE_MAX size) then Err (maxsize_error size)
  else Ok {| idmp_duration := None; idmp_maxsize := Some size |}.
Definition idempotency_seconds (o : StreamConfigOptions) (seconds : Z)
    : result bytes StreamConfigOptions :=
  if negb (in_range IDMP_DURATION_MIN IDMP_DURATION_MAX seconds) then Err (duration_error seconds)
  else Ok {| idmp_duration := Some seconds; idmp_maxsize := idmp_maxsize o |}.
Definition idempotency_maxsize (o : StreamConfigOptions) (size : Z)
    : result bytes StreamConfigOptions :=
  if negb (in_range IDMP_MAXSIZE_MIN IDMP_MAXSIZE_MAX size) then Err (maxsize_error size)
  else Ok {| idmp_duration := idmp_duration o; idmp_maxsize := Some size |}.
Definition StreamConfigOptions_args (o : StreamConfigOptions) : list bytes :=
  if_some (idmp_duration o) (fun duration => [lit "IDMP-DURATION"; itoa duration]) ++
  if_some (idmp_maxsize o) (fun maxsize => [lit "IDMP-MAXSIZE"; itoa maxsize]).
#[export] Instance tra_stream_config_options : ToRedisArgs StreamConfigOptions :=
  tra_list StreamConfigOptions_args.

Record StreamAddOptions := {
  add_nomkstream : bool;
  add_trim : option StreamTrimStrategy;
  add_deletion_policy : option StreamDeletionPolicy;
  add_idempotency : option StreamIdempotencyMode
}.
Definition StreamAddOptions_default : StreamAddOptions :=
  {| add_nomkstream := false; add_trim := None; add_deletion_policy := None; add_idempotency := None |}.
Definition nomkstream (o : StreamAddOptions) : StreamAddOptions :=
  {| add_nomkstream := true; add_trim := add_trim o; add_deletion_policy := add_deletion_policy o;
     add_idempotency := add_idempotency o |}.
Definition trim (o : StreamAddOptions) (t : StreamTrimStrategy) : StreamAddOptions :=
  {| add_nomkstream := add_nomkstream o; add_trim := Some t;
     add_deletion_policy := add_deletion_policy o; add_idempotency := add_idempotency o |}.
Definition add_set_deletion_policy (o : StreamAddOptions) (p : StreamDeletionPolicy)
    : StreamAddOptions :=
  {| add_nomkstream := add_nomkstream o; add_trim := add_trim o; add_deletion_policy := Some p;
     add_idempotency := add_idempotency o |}.
Definition idmp (o : StreamAddOptions) (producer_id idempotent_id : bytes) : StreamAddOptions :=
  {| add_nomkstream := add_nomkstream o; add_trim := add_trim o;
     add_deletion_policy := add_deletion_policy o;
     add_idempotency := Some (Manual producer_id idempotent_id) |}.
Definition idmpauto (o : StreamAddOptions) (producer_id : bytes) : StreamAddOptions :=
  {| add_nomkstream := add_nomkstream o; add_trim := add_trim o;
     add_deletion_policy := add_deletion_policy o; add_idempotency := Some (Automatic producer_id) |}.
Definition StreamAddOptions_args (o : StreamAddOptions) : list bytes :=
  if_set (add_nomkstream o) [lit "NOMKSTREAM"] ++
  if_some (add_deletion_policy o) (fun p => [StreamDeletionPolicy_arg p]) ++
  if_some (add_idempotency o) StreamIdempotencyMode_args ++
  if_some (add_trim o) StreamTrimStrategy_args.
#[export] Instance tra_stream_add_options : ToRedisArgs StreamAddOptions :=
  tra_list StreamAddOptions_args.

Record StreamAutoClaimOptions := { autoclaim_count : option Z; autoclaim_justid : bool }.
Definition StreamAutoClaimOptions_default : StreamAutoClaimOptions :=
  {| autoclaim_count := None; autoclaim_justid := false |}.
Definition set_autoclaim_count (o : StreamAutoClaimOptions) (n : Z) : StreamAutoClaimOptions :=
  {| autoclaim_count := Some n; autoclaim_justid := autoclaim_justid o |}.
Definition autoclaim_with_justid (o : StreamAutoClaimOptions) : StreamAutoClaimOptions :=
  {| autoclaim_count := autoclaim_count o; autoclaim_justid := true |}.
Definition StreamAutoClaimOptions_args (o : StreamAutoClaimOptions) : list bytes :=
  if_some (autoclaim_count o) (fun count => [lit "COUNT"; itoa count]) ++
  if_set (autoclaim_justid o) [lit "JUSTID"].
#[export] Instance tra_stream_autoclaim_options : ToRedisArgs StreamAutoClaimOptions :=
  tra_list StreamAutoClaimOptions_args.

Record StreamClaimOptions := {
  claim_idle : option Z;
  claim_time : option Z;
  claim_retry : option Z;
  claim_force : bool;
  claim_justid : bool;
  claim_lastid : option bytes
}.
Definition StreamClaimOptions_default : StreamClaimOptions :=
  {| claim_idle := None; claim_time := None; claim_retry := None; claim_force := false;
     claim_justid := false; claim_lastid := None |}.
Definition idle (o : StreamClaimOptions) (ms : Z) : StreamClaimOptions :=
  {| claim_idle := Some ms; claim_time := claim_time o; claim_retry := claim_retry o;
     claim_force := claim_force o; claim_justid := claim_justid o; claim_lastid := claim_lastid o |}.
Definition time (o : StreamClaimOptions) (ms_time : Z) : StreamClaimOptions :=
  {| claim_idle := claim_idle o; claim_time := Some ms_time; claim_retry := claim_retry o;
     claim_force := claim_force o; claim_justid := claim_justid o; claim_lastid := claim_lastid o |}.
Definition retry (o : StreamClaimOptions) (count : Z) : StreamClaimOptions :=
  {| claim_idle := claim_idle o; claim_time := claim_time o; claim_retry := Some count;
     claim_force := claim_force o; claim_justid := claim_justid o; claim_lastid := claim_lastid o |}.
Definition with_force (o : StreamClaimOptions) : StreamClaimOptions :=
  {| claim_idle := claim_idle o; claim_time := claim_time o; claim_retry := claim_retry o;
     claim_force := true; claim_justid := claim_justid o; claim_lastid := claim_lastid o |}.
Definition with_justid (o : StreamClaimOptions) : StreamClaimOptions :=
  {| claim_idle := claim_idle o; claim_time := claim_time o; claim_retry := claim_retry o;
     claim_force := claim_force o; claim_justid := true; claim_lastid := claim_lastid o |}.
Definition with_lastid (o : StreamClaimOptions) (lastid : bytes) : StreamClaimOptions :=
  {| claim_idle := claim_idle o; claim_time := claim_time o; claim_retry := claim_retry o;
     claim_force := claim_force o; claim_justid := claim_justid o; claim_lastid := Some lastid |}.
Definition StreamClaimOptions_args (o : StreamClaimOptions) : list bytes :=
  if_some (claim_idle o) (fun ms => [lit "IDLE"; itoa ms]) ++
  if_some (claim_time o) (fun ms_time => [lit "TIME"; itoa ms_time]) ++
  if_some (claim_retry o) (fun count => [lit "RETRYCOUNT"; itoa count]) ++
  if_set (claim_force o) [lit "FORCE"] ++
  if_set (claim_justid o) [lit "JUSTID"] ++
  if_some (claim_lastid o) (fun lastid => [lit "LASTID"; lastid]).
#[export] Instance tra_stream_claim_options : ToRedisArgs StreamClaimOptions :=
  tra_list StreamClaimOptions_args.

(** [SRGroup]: the arguments of the group's and of the consumer's name. *)
Record StreamReadOptions := {
  read_block : option Z;
  read_count : option Z;
  read_noack : option bool;
  read_group : option (list bytes * list bytes);
  read_claim : option Z
}.
Definition StreamReadOptions_default : StreamReadOptions :=
  {| read_block := None; read_count := None; read_noack := None; read_group := None;
     read_claim := None |}.
Definition read_only (o : StreamReadOptions) : bool := bool_decide (read_group o = None).
Definition noack (o : StreamReadOptions) : StreamReadOptions :=
  {| read_block := read_block o; read_count := read_count o; read_noack := Some true;
     read_group := read_group o; read_claim := read_claim o |}.
Definition block (o : StreamReadOptions) (ms : Z) : StreamReadOptions :=
  {| read_block := Some ms; read_count := read_count o; read_noack := read_noack o;
     read_group := read_group o; read_claim := read_claim o |}.
Definition count (o : StreamReadOptions) (n : Z) : StreamReadOptions :=
  {| read_block := read_block o; read_count := Some n; read_noack := read_noack o;
     read_group := read_group o; read_claim := read_claim o |}.
(** [None] when a name panics while it is written. *)
Definition group {GN CN} `{AGN : ToRedisArgs GN} `{ACN : ToRedisArgs CN} (o : StreamReadOptions)
    (group_name : GN) (consumer_name : CN) : option StreamReadOptions :=
  g ← write_redis_args AGN group_name;
  c ← write_redis_args ACN consumer_name;
  Some {| read_block := read_block o; read_count := read_count o; read_noack := read_noack o;
          read_group := Some (g, c); read_claim := read_claim o |}.
Definition claim (o : StreamReadOptions) (min_idle_time : Z) : StreamReadOptions :=
  {| read_block := read_block o; read_count := read_count o; read_noack := read_noack o;
     read_group := read_group o; read_claim := Some min_idle_time |}.
Definition StreamReadOptions_args (o : StreamReadOptions) : list bytes :=
  if_some (read_group o) (fun '(g, c) => lit "GROUP" :: g ++ c) ++
  if_some (read_block o) (fun ms => [lit "BLOCK"; itoa ms]) ++
  if_some (read_count o) (fun n => [lit "COUNT"; itoa n]) ++
  if_set (negb (read_only o))
    (if_set (bool_decide (read_noack o = Some true)) [lit "NOACK"] ++
     if_some (read_claim o) (fun min_idle_time => [lit "CLAIM"; itoa min_idle_time])).
#[export] Instance tra_stream_read_options : ToRedisArgs StreamReadOptions :=
  tra_list StreamReadOptions_args.

Inductive StreamNackMode := Silent | Nack_Fail | Fatal.
Definition StreamNackMode_arg (m : StreamNackMode) : bytes :=
  match m with Silent => lit "SILENT" | Nack_Fail => lit "FAIL" | Fatal => lit "FATAL" end.
Record StreamNackOptions := { nack_mode : StreamNackMode }.
Definition StreamNackOptions_new (mode : StreamNackMode) : StreamNackOptions := {| nack_mode := mode |}.
Definition StreamNackOptions_args (o : StreamNackOptions) : list bytes := [StreamNackMode_arg (nack_mode o)].
#[export] Instance tra_stream_nack_options : ToRedisArgs StreamNackOptions :=
  tra_list StreamNackOptions_args.

(** ** Replies *)

Record StreamId := {
  sid : bytes;
  smap : gmap bytes Value;
  milliseconds_elapsed_from_delivery : option Z;
  delivered_count : option Z
}.
Definition StreamId_default : StreamId :=
  {| sid := []; smap := ∅; milliseconds_elapsed_from_delivery := None; delivered_count := None |}.
Definition StreamId_of (p : bytes * gmap bytes Value) : StreamId :=
  {| sid := p.1; smap := p.2; milliseconds_elapsed_from_delivery := None; delivered_count := None |}.

Record StreamKey := { skey : bytes; skey_ids : list StreamId }.
Record StreamAutoClaimReply := {
  next_stream_id : bytes;
  claimed : list StreamId;
  deleted_ids : list bytes;
  invalid_entries : bool
}.
Record StreamReadReply := { read_keys : list StreamKey }.
Record StreamRangeReply := { range_ids : list StreamId }.
Record StreamClaimReply := { claim_ids : list StreamId }.
Record StreamInfoConsumer := { consumer_name : bytes; consumer_pending : Z; consumer_idle : Z }.
Record StreamPendingData := {
  pending_count : Z;
  start_id : bytes;
  end_id : bytes;
  pending_consumers : list StreamInfoConsumer
}.
Inductive StreamPendingReply := Pending_Empty | Pending_Data (d : StreamPendingData).
Definition StreamPendingReply_count (r : StreamPendingReply) : Z :=
  match r with Pending_Empty => 0 | Pending_Data x => pending_count x end.
Record StreamPendingId := {
  pending_id : bytes;
  pending_consumer : bytes;
  last_delivered_ms : Z;
  times_delivered : Z
}.
Record StreamPendingCountReply := { pending_ids : list StreamPendingId }.
Record StreamInfoStreamReply := {
  last_generated_id : bytes;
  radix_tree_keys : Z;
  info_groups : Z;
  info_length : Z;
  first_entry : StreamId;
  last_entry : StreamId
}.
Record StreamInfoStreamReplyWithIdempotency := {
  idmp_base : StreamInfoStreamReply;
  info_idmp_duration : Z;
  info_idmp_maxsize : Z;
  pids_tracked : Z;
  iids_tracked : Z;
  iids_added : Z;
  iids_duplicates : Z
}.
Record StreamInfoConsumersReply := { info_consumers : list StreamInfoConsumer }.
Record StreamInfoGroup := {
  group_name : bytes;
  group_consumers : Z;
  group_pending : Z;
  last_delivered_id : bytes;
  entries_read : option Z;
  lag : option Z
}.
Record StreamInfoGroupsReply := { groups_reply : list StreamInfoGroup }.

(** ** Conversions of replies *)

Section replies.
Context `{F64Display} `{HashOrder}.

Definition conv4 {A B C D} (f : Value -> result ParsingError A) (g : Value -> result ParsingError B)
    (h : Value -> result ParsingError C) (i : Value -> result ParsingError D) (l : list Value)
    : result ParsingError (A * B * C * D) :=
  match l with
  | [a; b; c; d] => x ← f a; y ← g b; z ← h c; w ← i d; Ok (x, y, z, w)
  | _ => Err wrong_arity
  end.
Definition frv_tuple4 {A B C D} (F : FromRedisValue A) (G : FromRedisValue B) (I : FromRedisValue C)
    (J : FromRedisValue D) : FromRedisValue (A * B * C * D) :=
  frv_tuple 4
    (conv4 (from_redis_value_ref F) (from_redis_value_ref G) (from_redis_value_ref I)
       (from_redis_value_ref J))
    (conv4 (from_redis_value F) (from_redis_value G) (from_redis_value I) (from_redis_value J)).

Definition frv_usize : FromRedisValue Z := frv_int u64_ty.
Definition frv_fields : FromRedisValue (gmap bytes Value) := frv_map frv_string frv_value.

(** [StreamId::from_array_value]: the first value is taken, leaving [Nil]. *)
Definition from_array_value (v : Value) : result ParsingError StreamId :=
  match v with
  | Array values =>
      p ← (match values with
           | v :: rest => id ← from_redis_value frv_string v; Ok (id, Nil :: rest)
           | [] => Ok ([], [])
           end : result ParsingError (bytes * list Value));
      m ← (match p.2 with
           | v :: _ => from_redis_value frv_fields v
           | [] => Ok ∅
           end : result ParsingError (gmap bytes Value));
      Ok (StreamId_of (p.1, m))
  | _ => Ok StreamId_default
  end.

Definition StreamId_get {T} (F : FromRedisValue T) (s : StreamId) (key : bytes) : option T :=
  match smap s !! key with Some x => to_option (from_redis_value_ref F x) | None => None end.
Definition contains_key (s : StreamId) (key : bytes) : bool := bool_decide (is_Some (smap s !! key)).
Definition StreamId_len (s : StreamId) : nat := size (smap s).
Definition StreamId_is_empty (s : StreamId) : bool := Nat.eqb (StreamId_len s) 0.

(** The rows of entries, each a map from an id to its fields. *)
Definition frv_rows : FromRedisValue (list (gmap bytes (gmap bytes Value))) :=
  frv_vec (frv_map frv_string frv_fields).
Definition entries_of_row (row : gmap bytes (gmap bytes Value)) : list StreamId :=
  map StreamId_of (hash_order (map_to_list row)).

(** The next id, the claimed entries and the deleted ids, popped from the end. *)
Definition autoclaim_items (items : list Value) : result ParsingError (Value * Value * list bytes) :=
  match items with
  | [next; c; d] => ids ← from_redis_value (frv_vec frv_string) d; Ok (next, c, ids)
  | [next; c] => Ok (next, c, [])
  | _ => Err (parsing_error "Incorrect number of items")
  end.
Definition claimed_of_value (entry c : Value) : result ParsingError (list StreamId) :=
  match entry with
  | BulkString _ =>
      ids ← from_redis_value (frv_vec (frv_option frv_string)) c;
      Ok (omap (fun id : option bytes => (fun id => StreamId_of (id, ∅)) <$> id) (ids : list (option bytes)))
  | Array _ => rows ← from_redis_value frv_rows c; Ok (concat (map entries_of_row rows))
  | _ => Err (parsing_error "Incorrect type")
  end.
Definition autoclaim_of_value (v : Value) : result ParsingError StreamAutoClaimReply :=
  match v with
  | Array items =>
      p ← autoclaim_items items;
      next_stream_id ← from_redis_value frv_string p.1.1;
      match p.1.2 with
      | Array arr =>
          match List.find (fun val => negb (is_nil val)) arr with
          | None =>
              Ok {| next_stream_id := next_stream_id; claimed := []; deleted_ids := p.2;
                    invalid_entries := negb (Nat.eqb (length arr) 0) |}
          | Some entry =>
              claimed ← claimed_of_value entry (Array arr);
              Ok {| next_stream_id := next_stream_id; claimed := claimed; deleted_ids := p.2;
                    invalid_entries := (length claimed <? length arr)%nat |}
          end
      | _ => Err (parsing_error "Incorrect type")
      end
  | _ => Err (parsing_error "Not a array response")
  end.
Definition frv_autoclaim := frv_owned autoclaim_of_value.

(** [SRRows] and [SRClaimRows]. *)
Definition frv_read_rows : FromRedisValue (list (gmap bytes (list (gmap bytes (gmap bytes Value))))) :=
  frv_vec (frv_map frv_string frv_rows).
Definition claim_row : Type := bytes * gmap bytes Value * option Z * option Z.
Definition frv_claim_rows : FromRedisValue (list (gmap bytes (list claim_row))) :=
  frv_vec (frv_map frv_string
    (frv_vec (frv_tuple4 frv_string frv_fields (frv_option frv_usize) (frv_option frv_usize)))).

Definition from_standard_rows (rows : list (gmap bytes (list (gmap bytes (gmap bytes Value)))))
    : StreamReadReply :=
  {| read_keys := concat (map (fun row =>
       map (fun '(key, entries) => {| skey := key; skey_ids := concat (map entries_of_row entries) |})
         (hash_order (map_to_list row))) rows) |}.
Definition from_claim_rows (rows : list (gmap bytes (list claim_row))) : StreamReadReply :=
  {| read_keys := concat (map (fun row =>
       map (fun '(key, entries) =>
              {| skey := key;
                 skey_ids := map (fun '(id, m, ms, n) =>
                   {| sid := id; smap := m; milliseconds_elapsed_from_delivery := ms;
                      delivered_count := n |}) entries |})
         (hash_order (map_to_list row))) rows) |}.
Definition read_of_value (v : Value) : result ParsingError StreamReadReply :=
  match from_redis_value frv_read_rows v with
  | Ok rows => Ok (from_standard_rows rows)
  | Err _ =>
      match from_redis_value frv_claim_rows v with
      | Ok rows => Ok (from_claim_rows rows)
      | Err _ => Err (parsing_error "Could not parse StreamReadReply in any known format")
      end
  end.
Definition frv_read := frv_owned read_of_value.

Definition range_of_value (v : Value) : result ParsingError StreamRangeReply :=
  rows ← from_redis_value frv_rows v;
  Ok {| range_ids := concat (map entries_of_row rows) |}.
Definition frv_range := frv_owned range_of_value.
Definition claim_of_value (v : Value) : result ParsingError StreamClaimReply :=
  rows ← from_redis_value frv_rows v;
  Ok {| claim_ids := concat (map entries_of_row rows) |}.
Definition frv_claim := frv_owned claim_of_value.

(** [SPRInner]. *)
Definition frv_pending_inner
    : FromRedisValue (Z * option bytes * option bytes * list (option (bytes * bytes))) :=
  frv_tuple4 frv_usize (frv_option frv_string) (frv_option frv_string)
    (frv_vec (frv_option (frv_tuple2 frv_string frv_string))).
Definition pending_of_value (v : Value) : result ParsingError StreamPendingReply :=
  p ← from_redis_value frv_pending_inner v;
  let '(count, start, end_, consumer_data) := p in
  if (count =? 0)%Z then Ok Pending_Empty
  else
    start_id ← ok_or start (parsing_error "IllegalState: Non-zero pending expects start id");
    end_id ← ok_or end_ (parsing_error "IllegalState: Non-zero pending expects end id");
    Ok (Pending_Data {|
      pending_count := count; start_id := start_id; end_id := end_id;
      pending_consumers := map (fun '(name, pending) =>
          {| consumer_name := name; consumer_pending := default 0%Z (parse_int u64_ty pending);
             consumer_idle := 0 |}) (omap id consumer_data)
    |}).
Definition frv_pending := frv_owned pending_of_value.

Definition pending_id_of_value (outer : Value) : result ParsingError StreamPendingId :=
  match outer with
  | Array [BulkString id_bytes; BulkString consumer_bytes; Int last; Int times] =>
      id ← map_err parsing_error_of_from_utf8 (from_utf8 id_bytes);
      consumer ← map_err parsing_error_of_from_utf8 (from_utf8 consumer_bytes);
      Ok {| pending_id := id; pending_consumer := consumer; last_delivered_ms := as_ty u64_ty last;
            times_delivered := as_ty u64_ty times |}
  | Array _ => Err (parsing_error "Cannot parse redis data (3)")
  | _ => Err (parsing_error "Cannot parse redis data (2)")
  end.
Definition pending_count_of_value (v : Value) : result ParsingError StreamPendingCountReply :=
  match v with
  | Array outer_tuple => ids ← try_map pending_id_of_value outer_tuple; Ok {| pending_ids := ids |}
  | _ => Err (parsing_error "Cannot parse redis data (1)")
  end.
Definition frv_pending_count := frv_owned pending_count_of_value.

(** [if let Some(v) = map.remove(name) { field = from_redis_value(v)?; }]. *)
Definition field {T} (f : Value -> result ParsingError T) (m : gmap bytes Value) (name : string)
    (unset : T) : result ParsingError T :=
  match m !! bs name with Some v => f v | None => Ok unset end.
(** The same where [Nil] is [None]. *)
Definition nullable (v : Value) : result ParsingError (option Z) :=
  match v with Nil => Ok None | _ => Some <$> from_redis_value frv_usize v end.

Definition info_of_map (m : gmap bytes Value) : result ParsingError StreamInfoStreamReply :=
  last_generated_id ← field (from_redis_value frv_string) m "last-generated-id" [];
  radix_tree_keys ← field (from_redis_value frv_usize) m "radix-tree-nodes" 0%Z;
  groups ← field (from_redis_value frv_usize) m "groups" 0%Z;
  length ← field (from_redis_value frv_usize) m "length" 0%Z;
  first_entry ← field from_array_value m "first-entry" StreamId_default;
  last_entry ← field from_array_value m "last-entry" StreamId_default;
  Ok {| last_generated_id := last_generated_id; radix_tree_keys := radix_tree_keys;
        info_groups := groups; info_length := length; first_entry := first_entry;
        last_entry := last_entry |}.
Definition stream_info_of_value (v : Value) : result ParsingError StreamInfoStreamReply :=
  m ← from_redis_value frv_fields v; info_of_map m.
Definition frv_stream_info := frv_owned stream_info_of_value.

Definition stream_info_idmp_of_value (v : Value)
    : result ParsingError StreamInfoStreamReplyWithIdempotency :=
  m ← from_redis_value frv_fields v;
  base ← info_of_map m;
  idmp_duration ← field (from_redis_value (frv_int u32_ty)) m "idmp-duration" 0%Z;
  idmp_maxsize ← field (from_redis_value (frv_int u16_ty)) m "idmp-maxsize" 0%Z;
  pids_tracked ← field (from_redis_value frv_usize) m "pids-tracked" 0%Z;
  iids_tracked ← field (from_redis_value frv_usize) m "iids-tracked" 0%Z;
  iids_added ← field (from_redis_value frv_usize) m "iids-added" 0%Z;
  iids_duplicates ← field (from_redis_value frv_usize) m "iids-duplicates" 0%Z;
  Ok {| idmp_base := base; info_idmp_duration := idmp_duration; info_idmp_maxsize := idmp_maxsize;
        pids_tracked := pids_tracked; iids_tracked := iids_tracked; iids_added := iids_added;
        iids_duplicates := iids_duplicates |}.
Definition frv_stream_info_idmp := frv_owned stream_info_idmp_of_value.

Definition consumer_of_map (m : gmap bytes Value) : result ParsingError StreamInfoConsumer :=
  name ← field (from_redis_value frv_string) m "name" [];
  pending ← field (from_redis_value frv_usize) m "pending" 0%Z;
  idle ← field (from_redis_value frv_usize) m "idle" 0%Z;
  Ok {| consumer_name := name; consumer_pending := pending; consumer_idle := idle |}.
Definition consumers_of_value (v : Value) : result ParsingError StreamInfoConsumersReply :=
  consumers ← from_redis_value (frv_vec frv_fields) v;
  cs ← try_map consumer_of_map consumers;
  Ok {| info_consumers := cs |}.
Definition frv_consumers := frv_owned consumers_of_value.

Definition group_of_map (m : gmap bytes Value) : result ParsingError StreamInfoGroup :=
  name ← field (from_redis_value frv_string) m "name" [];
  pending ← field (from_redis_value frv_usize) m "pending" 0%Z;
  consumers ← field (from_redis_value frv_usize) m "consumers" 0%Z;
  last_delivered_id ← field (from_redis_value frv_string) m "last-delivered-id" [];
  entries_read ← field nullable m "entries-read" None;
  lag ← field nullable m "lag" None;
  Ok {| group_name := name; group_consumers := consumers; group_pending := pending;
        last_delivered_id := last_delivered_id; entries_read := entries_read; lag := lag |}.
Definition groups_of_value (v : Value) : result ParsingError StreamInfoGroupsReply :=
  groups ← from_redis_value (frv_vec frv_fields) v;
  gs ← try_map group_of_map groups;
  Ok {| groups_reply := gs |}.
Definition frv_groups := frv_owned groups_of_value.
End replies.

Inductive XDelExStatusCode :=
| XDelEx_IdNotFound | Deleted | NotDeletedUnacknowledgedOrStillReferenced.
Definition xdelex_of_value (v : Value) : result ParsingError XDelExStatusCode :=
  match v with
  | Int code =>
      if (code =? -1)%Z then Ok XDelEx_IdNotFound
      else if (code =? 1)%Z then Ok Deleted
      else if (code =? 2)%Z then Ok NotDeletedUnacknowledgedOrStillReferenced
      else Err {| description := bs "Invalid XDelExStatusCode status code: " ++ itoa code |}
  | _ => Err (parsing_error "Response type not XAckDelStatusCode compatible")
  end.
Definition frv_xdelex := frv_owned xdelex_of_value.

Inductive XAckDelStatusCode :=
| XAckDel_IdNotFound | AcknowledgedAndDeleted | AcknowledgedNotDeletedStillReferenced.
Definition xackdel_of_value (v : Value) : result ParsingError XAckDelStatusCode :=
  match v with
  | Int code =>
      if (code =? -1)%Z then Ok XAckDel_IdNotFound
      else if (code =? 1)%Z then Ok AcknowledgedAndDeleted
      else if (code =? 2)%Z then Ok AcknowledgedNotDeletedStillReferenced
      else Err (parsing_error "Invalid XAckDelStatusCode status code: {code}")
  | _ => Err (parsing_error "Response type not XAckDelStatusCode compatible")
  end.
Definition frv_xackdel := frv_owned xackdel_of_value.

(** ** Builders *)

Section builders.
Context {K GK IK XID F V BTM C MIT SK E CN : Type}.
Context `{AK : ToRedisArgs K} `{AGK : ToRedisArgs GK} `{AIK : ToRedisArgs IK}
  `{AXID : ToRedisArgs XID} `{AF : ToRedisArgs F} `{AV : ToRedisArgs V} `{ABTM : ToRedisArgs BTM}
  `{AC : ToRedisArgs C} `{AMIT : ToRedisArgs MIT} `{ASK : ToRedisArgs SK} `{AE : ToRedisArgs E}
  `{ACN : ToRedisArgs CN}.
Definition xack (key : K) (group : GK) (ids : list IK) : Command :=
  taken (CMD "XACK" ▷ key ▷ group ▷ ids).
Definition xnack (key : K) (group : GK) (ids : list XID) (options : StreamNackOptions) : Command
    :=
  taken (CMD "XNACK" ▷ key ▷ group ▷ options ▷' "IDS" ▷ length ids ▷ ids).
Definition xadd (key : K) (id : XID) (items : list (F * V)) : Command :=
  taken (CMD "XADD" ▷ key ▷ id ▷ items).
Definition xadd_map (key : K) (id : XID) (map : BTM) : Command :=
  taken (CMD "XADD" ▷ key ▷ id ▷ map).
Definition xadd_options (key : K) (id : XID) (items : IK) (options : StreamAddOptions) : Command
    :=
  taken (CMD "XADD" ▷ key ▷ options ▷ id ▷ items).
Definition xadd_maxlen (key : K) (maxlen : StreamMaxlen) (id : XID) (items : list (F * V)) :
    Command :=
  taken (CMD "XADD" ▷ key ▷ maxlen ▷ id ▷ items).
Definition xadd_maxlen_map (key : K) (maxlen : StreamMaxlen) (id : XID) (map : BTM) : Command :=
  taken (CMD "XADD" ▷ key ▷ maxlen ▷ id ▷ map).
Definition xautoclaim_options (key : K) (group : GK) (consumer : C) (min_idle_time : MIT)
    (start : SK) (options : StreamAutoClaimOptions) : Command :=
  taken (CMD "XAUTOCLAIM" ▷ key ▷ group ▷ consumer ▷ min_idle_time ▷ start ▷ options).
Definition xclaim (key : K) (group : GK) (consumer : C) (min_idle_time : MIT) (ids : list XID) :
    Command :=
  taken (CMD "XCLAIM" ▷ key ▷ group ▷ consumer ▷ min_idle_time ▷ ids).
Definition xclaim_options (key : K) (group : GK) (consumer : C) (min_idle_time : MIT)
    (ids : list XID) (options : StreamClaimOptions) : Command :=
  taken (CMD "XCLAIM" ▷ key ▷ group ▷ consumer ▷ min_idle_time ▷ ids ▷ options).
Definition xdel (key : K) (ids : list XID) : Command := taken (CMD "XDEL" ▷ key ▷ ids).
Definition xdel_ex (key : K) (ids : list XID) (options : StreamDeletionPolicy) : Command :=
  taken (CMD "XDELEX" ▷ key ▷ options ▷' "IDS" ▷ length ids ▷ ids).
Definition xack_del (key : K) (group : GK) (ids : list XID) (options : StreamDeletionPolicy) :
    Command :=
  taken (CMD "XACKDEL" ▷ key ▷ group ▷ options ▷' "IDS" ▷ length ids ▷ ids).
Definition xgroup_create (key : K) (group : GK) (id : XID) : Command :=
  taken (CMD "XGROUP" ▷' "CREATE" ▷ key ▷ group ▷ id).
Definition xgroup_createconsumer (key : K) (group : GK) (consumer : C) : Command :=
  taken (CMD "XGROUP" ▷' "CREATECONSUMER" ▷ key ▷ group ▷ consumer).
Definition xgroup_create_mkstream (key : K) (group : GK) (id : XID) : Command :=
  taken (CMD "XGROUP" ▷' "CREATE" ▷ key ▷ group ▷ id ▷' "MKSTREAM").
Definition xgroup_setid (key : K) (group : GK) (id : XID) : Command :=
  taken (CMD "XGROUP" ▷' "SETID" ▷ key ▷ group ▷ id).
Definition xgroup_destroy (key : K) (group : GK) : Command :=
  taken (CMD "XGROUP" ▷' "DESTROY" ▷ key ▷ group).
Definition xgroup_delconsumer (key : K) (group : GK) (consumer : C) : Command :=
  taken (CMD "XGROUP" ▷' "DELCONSUMER" ▷ key ▷ group ▷ consumer).
Definition xinfo_consumers (key : K) (group : GK) : Command :=
  taken (CMD "XINFO" ▷' "CONSUMERS" ▷ key ▷ group).
Definition xinfo_groups (key : K) : Command := taken (CMD "XINFO" ▷' "GROUPS" ▷ key).
Definition xinfo_stream (key : K) : Command := taken (CMD "XINFO" ▷' "STREAM" ▷ key).
Definition xinfo_stream_with_idempotency (key : K) : Command :=
  taken (CMD "XINFO" ▷' "STREAM" ▷ key).
Definition xlen (key : K) : Command := taken (CMD "XLEN" ▷ key).
Definition xpending (key : K) (group : GK) : Command := taken (CMD "XPENDING" ▷ key ▷ group).
Definition xpending_count (key : K) (group : GK) (start : SK) (end_ : E) (count : C) : Command :=
  taken (CMD "XPENDING" ▷ key ▷ group ▷ start ▷ end_ ▷ count).
Definition xpending_consumer_count (key : K) (group : GK) (start : SK) (end_ : E) (count : C)
    (consumer : CN) : Command :=
  taken (CMD "XPENDING" ▷ key ▷ group ▷ start ▷ end_ ▷ count ▷ consumer).
Definition xrange (key : K) (start : SK) (end_ : E) : Command :=
  taken (CMD "XRANGE" ▷ key ▷ start ▷ end_).
Definition xrange_all (key : K) : Command := taken (CMD "XRANGE" ▷ key ▷' "-" ▷' "+").
Definition xrange_count (key : K) (start : SK) (end_ : E) (count : C) : Command :=
  taken (CMD "XRANGE" ▷ key ▷ start ▷ end_ ▷' "COUNT" ▷ count).
Definition xread (keys : list K) (ids : list XID) : Command :=
  taken (CMD "XREAD" ▷' "STREAMS" ▷ keys ▷ ids).
Definition xread_options (keys : list K) (ids : list XID) (options : StreamReadOptions) : Command
    :=
  taken (Some (cmd (if read_only options then "XREAD" else "XREADGROUP")) ▷ options ▷' "STREAMS"
    ▷ keys ▷ ids).
Definition xrevrange (key : K) (end_ : E) (start : SK) : Command :=
  taken (CMD "XREVRANGE" ▷ key ▷ end_ ▷ start).
Definition xrevrange_all (key : K) : Command := taken (CMD "XREVRANGE" ▷ key ▷' "+" ▷' "-").
Definition xrevrange_count (key : K) (end_ : E) (start : SK) (count : C) : Command :=
  taken (CMD "XREVRANGE" ▷ key ▷ end_ ▷ start ▷' "COUNT" ▷ count).
Definition xtrim (key : K) (maxlen : StreamMaxlen) : Command :=
  taken (CMD "XTRIM" ▷ key ▷ maxlen).
Definition xtrim_options (key : K) (options : StreamTrimOptions) : Command :=
  taken (CMD "XTRIM" ▷ key ▷ options).
Definition xcfgset (key : K) (options : StreamConfigOptions) : Command :=
  taken (CMD "XCFGSET" ▷ key ▷ options).
End builders.

(** The names in the arguments of the options. *)
Definition group_names (o : StreamReadOptions) : list bytes :=
  match read_group o with Some (g, c) => g ++ c | None => [] end.

(** The builders that take the key of a stream. *)
Inductive on_stream : string -> bytes -> Command -> Prop :=
| on_xack `{AK : ToRedisArgs K} `{Writes GK} `{AIK : ToRedisArgs IK} `{!Writes _ (tra_vec AIK)}
    (key : K) (group : GK) (ids : list IK) k ks :
    write_redis_args AK key = Some (k :: ks) -> on_stream "XACK" k (xack key group ids)
| on_xnack `{ToSingleRedisArg K} `{ToSingleRedisArg GK} `{AXID : ToRedisArgs XID}
    `{!ToSingleRedisArg XID AXID} `{!Writes _ (tra_vec AXID)} (key : K) (group : GK)
    (ids : list XID) (options : StreamNackOptions) :
    on_stream "XNACK" (single_arg key) (xnack key group ids options)
| on_xadd `{AK : ToRedisArgs K} `{Writes XID} `{Writes F} `{Writes V} (key : K) (id : XID)
    (items : list (F * V)) k ks :
    write_redis_args AK key = Some (k :: ks) -> on_stream "XADD" k (xadd key id items)
| on_xadd_map `{AK : ToRedisArgs K} `{Writes XID} `{Writes BTM} (key : K) (id : XID) (map : BTM)
    k ks :
    write_redis_args AK key = Some (k :: ks) -> on_stream "XADD" k (xadd_map key id map)
| on_xadd_options `{AK : ToRedisArgs K} `{Writes XID} `{Writes IK} (key : K) (id : XID)
    (items : IK) (options : StreamAddOptions) k ks :
    write_redis_args AK key = Some (k :: ks) ->
    on_stream "XADD" k (xadd_options key id items options)
| on_xadd_maxlen `{ToSingleRedisArg K} `{Writes XID} `{Writes F} `{Writes V} (key : K)
    (maxlen : StreamMaxlen) (id : XID) (items : list (F * V)) :
    on_stream "XADD" (single_arg key) (xadd_maxlen key maxlen id items)
| on_xadd_maxlen_map `{ToSingleRedisArg K} `{Writes XID} `{Writes BTM} (key : K)
    (maxlen : StreamMaxlen) (id : XID) (map : BTM) :
    on_stream "XADD" (single_arg key) (xadd_maxlen_map key maxlen id map)
| on_xautoclaim_options `{ToSingleRedisArg K} `{Writes GK} `{Writes C} `{Writes MIT}
    `{Writes SK} (key : K) (group : GK) (consumer : C) (min_idle_time : MIT) (start : SK)
    (options : StreamAutoClaimOptions) :
    on_stream "XAUTOCLAIM" (single_arg key) (xautoclaim_options key group consumer min_idle_time start options)
| on_xclaim `{ToSingleRedisArg K} `{Writes GK} `{Writes C} `{Writes MIT}
    `{AXID : ToRedisArgs XID} `{!Writes _ (tra_vec AXID)} (key : K) (group : GK) (consumer : C)
    (min_idle_time : MIT) (ids : list XID) :
    on_stream "XCLAIM" (single_arg key) (xclaim key group consumer min_idle_time ids)
| on_xclaim_options `{ToSingleRedisArg K} `{Writes GK} `{Writes C} `{Writes MIT}
    `{AXID : ToRedisArgs XID} `{!Writes _ (tra_vec AXID)} (key : K) (group : GK) (consumer : C)
    (min_idle_time : MIT) (ids : list XID) (options : StreamClaimOptions) :
    on_stream "XCLAIM" (single_arg key) (xclaim_options key group consumer min_idle_time ids options)
| on_xdel `{ToSingleRedisArg K} `{AXID : ToRedisArgs XID} `{!Writes _ (tra_vec AXID)} (key : K)
    (ids : list XID) :
    on_stream "XDEL" (single_arg key) (xdel key ids)
| on_xdel_ex `{AK : ToRedisArgs K} `{AXID : ToRedisArgs XID} `{!Writes _ (tra_vec AXID)}
    (key : K) (ids : list XID) (options : StreamDeletionPolicy) k ks :
    write_redis_args AK key = Some (k :: ks) -> on_stream "XDELEX" k (xdel_ex key ids options)
| on_xack_del `{AK : ToRedisArgs K} `{Writes GK} `{AXID : ToRedisArgs XID}
    `{!Writes _ (tra_vec AXID)} (key : K) (group : GK) (ids : list XID)
    (options : StreamDeletionPolicy) k ks :
    write_redis_args AK key = Some (k :: ks) ->
    on_stream "XACKDEL" k (xack_del key group ids options)
| on_xgroup_create `{AK : ToRedisArgs K} `{Writes GK} `{Writes XID} (key : K) (group : GK)
    (id : XID) k ks :
    write_redis_args AK key = Some (k :: ks) ->
    on_stream "XGROUP CREATE" k (xgroup_create key group id)
| on_xgroup_createconsumer `{AK : ToRedisArgs K} `{Writes GK} `{Writes C} (key : K) (group : GK)
    (consumer : C) k ks :
    write_redis_args AK key = Some (k :: ks) ->
    on_stream "XGROUP CREATECONSUMER" k (xgroup_createconsumer key group consumer)
| on_xgroup_create_mkstream `{AK : ToRedisArgs K} `{Writes GK} `{Writes XID} (key : K)
    (group : GK) (id : XID) k ks :
    write_redis_args AK key = Some (k :: ks) ->
    on_stream "XGROUP CREATE" k (xgroup_create_mkstream key group id)
| on_xgroup_setid `{AK : ToRedisArgs K} `{Writes GK} `{Writes XID} (key : K) (group : GK)
    (id : XID) k ks :
    write_redis_args AK key = Some (k :: ks) ->
    on_stream "XGROUP SETID" k (xgroup_setid key group id)
| on_xgroup_destroy `{AK : ToRedisArgs K} `{Writes GK} (key : K) (group : GK) k ks :
    write_redis_args AK key = Some (k :: ks) ->
    on_stream "XGROUP DESTROY" k (xgroup_destroy key group)
| on_xgroup_delconsumer `{AK : ToRedisArgs K} `{Writes GK} `{Writes C} (key : K) (group : GK)
    (consumer : C) k ks :
    write_redis_args AK key = Some (k :: ks) ->
    on_stream "XGROUP DELCONSUMER" k (xgroup_delconsumer key group consumer)
| on_xinfo_consumers `{AK : ToRedisArgs K} `{Writes GK} (key : K) (group : GK) k ks :
    write_redis_args AK key = Some (k :: ks) ->
    on_stream "XINFO CONSUMERS" k (xinfo_consumers key group)
| on_xinfo_groups `{AK : ToRedisArgs K} (key : K) k ks :
    write_redis_args AK key = Some (k :: ks) -> on_stream "XINFO GROUPS" k (xinfo_groups key)
| on_xinfo_stream `{AK : ToRedisArgs K} (key : K) k ks :
    write_redis_args AK key = Some (k :: ks) -> on_stream "XINFO STREAM" k (xinfo_stream key)
| on_xinfo_stream_with_idempotency `{AK : ToRedisArgs K} (key : K) k ks :
    write_redis_args AK key = Some (k :: ks) ->
    on_stream "XINFO STREAM" k (xinfo_stream_with_idempotency key)
| on_xlen `{AK : ToRedisArgs K} (key : K) k ks :
    write_redis_args AK key = Some (k :: ks) -> on_stream "XLEN" k (xlen key)
| on_xpending `{AK : ToRedisArgs K} `{Writes GK} (key : K) (group : GK) k ks :
    write_redis_args AK key = Some (k :: ks) -> on_stream "XPENDING" k (xpending key group)
| on_xpending_count `{AK : ToRedisArgs K} `{Writes GK} `{Writes SK} `{Writes E} `{Writes C}
    (key : K) (group : GK) (start : SK) (end_ : E) (count : C) k ks :
    write_redis_args AK key = Some (k :: ks) ->
    on_stream "XPENDING" k (xpending_count key group start end_ count)
| on_xpending_consumer_count `{AK : ToRedisArgs K} `{Writes GK} `{Writes SK} `{Writes E}
    `{Writes C} `{Writes CN} (key : K) (group : GK) (start : SK) (end_ : E) (count : C)
    (consumer : CN) k ks :
    write_redis_args AK key = Some (k :: ks) ->
    on_stream "XPENDING" k (xpending_consumer_count key group start end_ count consumer)
| on_xrange `{AK : ToRedisArgs K} `{Writes SK} `{Writes E} (key : K) (start : SK) (end_ : E) k
    ks :
    write_redis_args AK key = Some (k :: ks) -> on_stream "XRANGE" k (xrange key start end_)
| on_xrange_all `{AK : ToRedisArgs K} (key : K) k ks :
    write_redis_args AK key = Some (k :: ks) -> on_stream "XRANGE" k (xrange_all key)
| on_xrange_count `{AK : ToRedisArgs K} `{Writes SK} `{Writes E} `{Writes C} (key : K)
    (start : SK) (end_ : E) (count : C) k ks :
    write_redis_args AK key = Some (k :: ks) ->
    on_stream "XRANGE" k (xrange_count key start end_ count)
| on_xrevrange `{AK : ToRedisArgs K} `{Writes E} `{Writes SK} (key : K) (end_ : E) (start : SK)
    k ks :
    write_redis_args AK key = Some (k :: ks) -> on_stream "XREVRANGE" k (xrevrange key end_ start)
| on_xrevrange_all `{AK : ToRedisArgs K} (key : K) k ks :
    write_redis_args AK key = Some (k :: ks) -> on_stream "XREVRANGE" k (xrevrange_all key)
| on_xrevrange_count `{AK : ToRedisArgs K} `{Writes E} `{Writes SK} `{Writes C} (key : K)
    (end_ : E) (start : SK) (count : C) k ks :
    write_redis_args AK key = Some (k :: ks) ->
    on_stream "XREVRANGE" k (xrevrange_count key end_ start count)
| on_xtrim `{AK : ToRedisArgs K} (key : K) (maxlen : StreamMaxlen) k ks :
    write_redis_args AK key = Some (k :: ks) -> on_stream "XTRIM" k (xtrim key maxlen)
| on_xtrim_options `{AK : ToRedisArgs K} (key : K) (options : StreamTrimOptions) k ks :
    write_redis_args AK key = Some (k :: ks) -> on_stream "XTRIM" k (xtrim_options key options)
| on_xcfgset `{AK : ToRedisArgs K} (key : K) (options : StreamConfigOptions) k ks :
    write_redis_args AK key = Some (k :: ks) -> on_stream "XCFGSET" k (xcfgset key options)
| on_xread `{AK : ToRedisArgs K} `{AXID : ToRedisArgs XID} `{!Writes _ (tra_vec AXID)} (keys : list K)
    (ids : list XID) k ks :
    write_redis_args (tra_vec AK) keys = Some (k :: ks) -> on_stream "XREAD" k (xread keys ids)
| on_xread_options `{AK : ToRedisArgs K} `{AXID : ToRedisArgs XID} `{!Writes _ (tra_vec AXID)}
    (keys : list K) (ids : list XID) (options : StreamReadOptions) k ks :
    write_redis_args (tra_vec AK) keys = Some (k :: ks) ->
    Forall (fun name => eq_ignore_ascii_case name (bs "STREAMS") = false) (group_names options) ->
    on_stream (if read_only options then "XREAD" else "XREADGROUP") k (xread_options keys ids options).

(** ** Stream commands are routed by their stream *)

Lemma itoa_not_streams n : eq_ignore_ascii_case (itoa n) (bs "STREAMS") = false.
Proof.
  unfold eq_ignore_ascii_case, bytes_eqb. apply bool_decide_eq_false_2.
  destruct (itoa n) as [|b s] eqn:E; [by apply itoa_nonempty in E|].
  pose proof (itoa_chars n) as Hc. rewrite E in Hc. apply Forall_cons in Hc as [Hb%dec_char_range _].
  intros Hs. injection Hs as Hs _. unfold to_ascii_uppercase_byte, between in Hs.
  rewrite (proj2 (Z.leb_gt 97 (byte_Z b))) in Hs by lia. simpl in Hs. subst b. destruct Hb as [_ Hb]. by vm_compute in Hb.
Qed.

Lemma no_streams_position l : Forall (fun a => eq_ignore_ascii_case a (bs "STREAMS") = false) l ->
  find_position (fun a => eq_ignore_ascii_case a (bs "STREAMS")) (l ++ [lit "STREAMS"]) = Some (length l).
Proof. induction 1 as [|a l Ha _ IH]; [done|]. cbn [app find_position]. by rewrite Ha, IH. Qed.

(** The keywords and numbers of the options are not [STREAMS]. *)
Lemma read_options_no_streams o :
  Forall (fun name => eq_ignore_ascii_case name (bs "STREAMS") = false) (group_names o) ->
  Forall (fun a => eq_ignore_ascii_case a (bs "STREAMS") = false) (StreamReadOptions_args o).
Proof.
  intros Hg. unfold StreamReadOptions_args, group_names, if_some, if_set in *.
  repeat (apply Forall_app; split); repeat case_match; repeat constructor; try apply itoa_not_streams; done.
Qed.

Lemma xread_options_routed `{Crc16} `{HashOrder} `{AK : ToRedisArgs K} `{AXID : ToRedisArgs XID}
    `{!Writes _ (tra_vec AXID)} (keys : list K) (ids : list XID) o k ks :
  write_redis_args (tra_vec AK) keys = Some (k :: ks) ->
  Forall (fun name => eq_ignore_ascii_case name (bs "STREAMS") = false) (group_names o) ->
  routed_by_key (if read_only o then "XREAD" else "XREADGROUP") k (xread_options keys ids o).
Proof.
  intros Hk Hg%read_options_no_streams. unfold xread_options.
  set (name := if read_only o then _ else _).
  eapply (route_by_key _ ((bs name :: StreamReadOptions_args o) ++ [lit "STREAMS"])).
  - apply begins_taken, begins_arg. eapply begins_key; [|done].
    eapply built_arg; [|done]. eapply (built_arg _ [_]); [apply built_cmd | done].
  - by unfold name; case_match.
  - unfold key_behind. assert (base_routing (bs name) = By_StreamsIndex) as -> by (by unfold name; case_match).
    rewrite no_streams_position; [by rewrite length_app, Nat.add_sub|].
    constructor; [by unfold name; case_match | done].
Qed.

(** Every stream command is sent, in a cluster, to a node of the slot of its
    stream, the first one of a read; reads name their streams behind their
    options, and the group and consumer in the options must not be called
    [streams]. *)
Theorem stream_commands_routed `{Crc16} `{HashOrder} (name : string) (key : bytes) (b : Command)
    (Hb : on_stream name key b) : routed_by_key name key b.
Proof. destruct Hb; try solve_route. by eapply xread_options_routed. Qed.

(** A consumer group called [streams] is taken for the keyword: the command goes
    to the slot of the consumer's name. *)
Lemma streams_group_misrouted `{Crc16} `{HashOrder} (stream id : bytes) :
  routed_by_key "XREADGROUP" (bs "consumer-1")
    (o ← group StreamReadOptions_default (bs "streams") (bs "consumer-1");
     xread_options [stream] [id] o).
Proof.
  eapply (route_by_key _ [bs "XREADGROUP"; bs "GROUP"; bs "streams"]);
    [|vm_compute; reflexivity | solve_key_behind].
  apply begins_taken, begins_arg, begins_arg, begins_arg, built_begins.
  by eapply (built_arg _ [bs "XREADGROUP"]); [apply built_cmd|].
Qed.

(** ** Replies are read entry by entry *)

(** What the server sends: an entry with its fields, a stream with its entries,
    and the streams of a read in the two protocol versions. *)
Definition flat (l : list (Value * Value)) : list Value := concat (map (fun p => [p.1; p.2]) l).
Definition named (p : bytes * Value) : Value * Value := (BulkString p.1, p.2).
Definition entry_value (e : bytes * list (bytes * Value)) : Value :=
  Array [BulkString e.1; Array (flat (map named e.2))].
Definition entries_value (es : list (bytes * list (bytes * Value))) : Value := Array (map entry_value es).
Definition read_value (streams : list (bytes * list (bytes * list (bytes * Value)))) : Value :=
  Array (map (fun s => Array [BulkString s.1; entries_value s.2]) streams).
Definition read_value_resp3 (streams : list (bytes * list (bytes * list (bytes * Value)))) : Value :=
  Map (map (fun s => (BulkString s.1, entries_value s.2)) streams).

(** What they are read as; a later field replaces an earlier one of its name. *)
Definition entry_of (e : bytes * list (bytes * Value)) : StreamId := StreamId_of (e.1, collect_map e.2).

(** The intermediate rows: maps with one entry. *)
Definition entry_row (e : bytes * list (bytes * Value)) : gmap bytes (gmap bytes Value) :=
  collect_map [(e.1, collect_map e.2)].
Definition stream_row (s : bytes * list (bytes * list (bytes * Value)))
    : gmap bytes (list (gmap bytes (gmap bytes Value))) :=
  collect_map [(s.1, map entry_row s.2)].

Definition valid_entry (e : bytes * list (bytes * Value)) : Prop :=
  utf8_valid e.1 = true /\ Forall (fun p => utf8_valid p.1 = true) e.2.

Lemma pairs_of_flat l : pairs_of (flat l) = l.
Proof. induction l as [|[a b] l IH]; [done|]. cbn. by rewrite <- IH at 2. Qed.

Lemma flat_even l : (length (flat l) mod 2)%nat = 0%nat.
Proof.
  assert (length (flat l) = length l * 2)%nat as ->; [|apply Nat.Div0.mod_mul].
  induction l as [|p l IH]; [done|]. simpl. by do 2 f_equal.
Qed.

Section read_back.
Context `{F64Display} `{HashOrder}.

Lemma string_of_valid b : utf8_valid b = true -> from_redis_value frv_string (BulkString b) = Ok b.
Proof. intros Hb. cbn -[from_utf8]. unfold from_utf8. by rewrite Hb. Qed.

(** A map, as a flat array or as a map. *)
Lemma map_of_entries {V} (FV : FromRedisValue V) l (m : list (bytes * V)) :
  Forall2 (fun p kv => p.1 = BulkString kv.1 /\ utf8_valid kv.1 = true /\
                       from_redis_value FV p.2 = Ok kv.2) l m ->
  from_redis_value (frv_map frv_string FV) (Array (flat l)) = Ok (collect_map m) /\
  from_redis_value (frv_map frv_string FV) (Map l) = Ok (collect_map m).
Proof.
  intros Hl. assert (try_map (fun '(k, w) => k ← from_redis_value frv_string k;
    w ← from_redis_value FV w; Ok (k, w)) l = Ok m) as Ht.
  { apply try_map_Ok. eapply Forall2_impl; [exact Hl|]. intros [k w] [k' w'] (Hk & Hu & Hw). simpl in *.
    subst. change (string_of_value (BulkString k')) with (from_redis_value frv_string (BulkString k')).
    by rewrite (string_of_valid _ Hu), Hw. }
  cbn [frv_map frv_default from_redis_value]. unfold map_of_value.
  cbn [get_owned_inner_value into_map_iter map_err]. rewrite flat_even. cbn [Nat.eqb].
  cbn [map_err mbind result_bind MapIter_collect]. rewrite pairs_of_flat. by rewrite Ht.
Qed.

Lemma row_of_one {V} (k : bytes) (x : V) : hash_order (map_to_list (collect_map [(k, x)])) = [(k, x)].
Proof.
  apply Permutation_singleton_r. rewrite hash_order_perm. unfold collect_map. simpl.
  by rewrite insert_empty, map_to_list_singleton.
Qed.

Lemma fields_read l : Forall (fun p => utf8_valid p.1 = true) l ->
  from_redis_value frv_fields (Array (flat (map named l))) = Ok (collect_map l).
Proof.
  intros Hl. apply map_of_entries. induction Hl as [|p l Hp _ IH]; constructor; [|done]. by split.
Qed.

Lemma entry_read e : valid_entry e ->
  from_redis_value (frv_map frv_string frv_fields) (entry_value e) = Ok (entry_row e).
Proof.
  intros [Hid Hf].
  apply (map_of_entries frv_fields [(BulkString e.1, Array (flat (map named e.2)))]).
  constructor; [|done]. split_and!; [done..|]. by apply fields_read.
Qed.

Lemma rows_read es : Forall valid_entry es ->
  from_redis_value frv_rows (entries_value es) = Ok (map entry_row es).
Proof.
  intros Hes. apply try_map_Ok. induction Hes as [|e es He _ IH]; constructor; [by apply entry_read | done].
Qed.

Lemma entries_of_entry e : entries_of_row (entry_row e) = [entry_of e].
Proof. unfold entries_of_row, entry_row. by rewrite row_of_one. Qed.

Lemma rows_entries es : concat (map entries_of_row (map entry_row es)) = map entry_of es.
Proof. induction es as [|e es IH]; [done|]. cbn [map concat]. by rewrite IH, entries_of_entry. Qed.

Lemma stream_read s : utf8_valid s.1 = true -> Forall valid_entry s.2 ->
  from_redis_value (frv_map frv_string frv_rows) (Array [BulkString s.1; entries_value s.2]) =
    Ok (stream_row s) /\
  from_redis_value (frv_map frv_string frv_rows) (Map [(BulkString s.1, entries_value s.2)]) =
    Ok (stream_row s).
Proof.
  intros Hs Hes. apply (map_of_entries frv_rows [(BulkString s.1, entries_value s.2)]).
  constructor; [|done]. split_and!; [done..|]. by apply rows_read.
Qed.

Lemma streams_read streams :
  Forall (fun s => utf8_valid s.1 = true /\ Forall valid_entry s.2) streams ->
  from_redis_value frv_read_rows (read_value streams) = Ok (map stream_row streams) /\
  from_redis_value frv_read_rows (read_value_resp3 streams) = Ok (map stream_row streams).
Proof.
  intros Hs. split; apply try_map_Ok;
    (induction Hs as [|s l [Hu Hl] _ IH]; constructor; [by apply stream_read | done]).
Qed.

Lemma standard_rows streams : from_standard_rows (map stream_row streams) =
  {| read_keys := map (fun s => {| skey := s.1; skey_ids := map entry_of s.2 |}) streams |}.
Proof.
  unfold from_standard_rows. f_equal. induction streams as [|s l IH]; [done|].
  cbn [map concat]. rewrite IH. unfold stream_row at 1. rewrite row_of_one. cbn [map app].
  by rewrite rows_entries.
Qed.

(** Entries of which some are gone, [Nil] in the reply. *)
Definition holey_value (es : list (option (bytes * list (bytes * Value)))) : list Value :=
  map (from_option entry_value Nil) es.

Lemma holey_rows_read es : Forall (fun e => from_option valid_entry True e) es ->
  from_redis_value frv_rows (Array (holey_value es)) = Ok (map (from_option entry_row ∅) es).
Proof.
  intros Hes. apply try_map_Ok. induction Hes as [|[e|] es He _ IH]; constructor; try done.
  by apply entry_read.
Qed.

Lemma holey_rows_entries es :
  concat (map entries_of_row (map (from_option entry_row ∅) es)) = map entry_of (omap id es).
Proof.
  induction es as [|[e|] es IH]; [done|..]; cbn [map concat]; rewrite IH.
  - cbn [from_option]. by rewrite entries_of_entry.
  - unfold entries_of_row at 1. cbn [from_option]. rewrite map_to_list_empty.
    pose proof (hash_order_perm (A := bytes * gmap bytes Value) []) as Hp%Permutation_nil_r.
    by rewrite Hp.
Qed.

Definition gone {A} (e : option A) : bool := match e with Some _ => false | None => true end.

Lemma omap_id_le {A} (es : list (option A)) : (length (omap id es) <= length es)%nat.
Proof. induction es as [|[e|] es IH]; cbn in *; lia. Qed.

Lemma omap_id_length {A} (es : list (option A)) :
  (length (omap id es) <? length es)%nat = existsb gone es.
Proof.
  induction es as [|[e|] es IH]; [done|..]; cbn in *; [by rewrite <- IH|].
  apply Nat.leb_le. exact (omap_id_le es).
Qed.

Lemma find_entry es :
  List.find (fun val => negb (is_nil val)) (holey_value es) = entry_value <$> head (omap id es).
Proof. by induction es as [|[e|] es IH]. Qed.
End read_back.

(** C37. The reply of a range, a claim or a read is understood as the server sent
    it: the entries in their order, each with its id and its fields, and for a
    read the streams in their order, in both protocol versions. *)
Theorem stream_replies_read `{F64Display} `{HashOrder}
    (streams : list (bytes * list (bytes * list (bytes * Value))))
    (es : list (bytes * list (bytes * Value)))
    (Hs : Forall (fun s => utf8_valid s.1 = true /\ Forall valid_entry s.2) streams)
    (He : Forall valid_entry es) :
  let ids := map entry_of es in
  let keys := map (fun s => {| skey := s.1; skey_ids := map entry_of s.2 |}) streams in
  from_redis_value frv_range (entries_value es) = Ok {| range_ids := ids |} /\
  from_redis_value frv_claim (entries_value es) = Ok {| claim_ids := ids |} /\
  from_redis_value frv_read (read_value streams) = Ok {| read_keys := keys |} /\
  from_redis_value frv_read (read_value_resp3 streams) = Ok {| read_keys := keys |}.
Proof.
  intros ids keys. cbn [frv_range frv_claim frv_read frv_owned frv_default from_redis_value].
  unfold range_of_value, claim_of_value, read_of_value.
  rewrite rows_read by done. cbn [mbind result_bind]. rewrite rows_entries.
  destruct (streams_read _ Hs) as [-> ->]. by rewrite standard_rows.
Qed.

(** The reply of XAUTOCLAIM is understood as the server sent it: the claimed
    entries in their order with their fields, those that no longer exist left
    out and reported by [invalid_entries]. *)
Theorem autoclaim_reply_read `{F64Display} `{HashOrder} (next : bytes)
    (es : list (option (bytes * list (bytes * Value)))) (deleted : list bytes)
    (Hnext : utf8_valid next = true) (Hes : Forall (fun e => from_option valid_entry True e) es)
    (Hdel : Forall (fun d => utf8_valid d = true) deleted) :
  from_redis_value frv_autoclaim
    (Array [BulkString next; Array (holey_value es); Array (map BulkString deleted)]) =
  Ok {| next_stream_id := next; claimed := map entry_of (omap id es); deleted_ids := deleted;
        invalid_entries := existsb gone es |}.
Proof.
  assert (from_redis_value (frv_vec frv_string) (Array (map BulkString deleted)) = Ok deleted) as Hd.
  { apply try_map_Ok. induction Hdel; constructor; [by apply string_of_valid | done]. }
  cbn [frv_autoclaim frv_owned frv_default from_redis_value]. unfold autoclaim_of_value.
  cbn [autoclaim_items]. rewrite Hd. cbn [mbind result_bind fst snd].
  rewrite string_of_valid by done. cbn [mbind result_bind].
  rewrite find_entry, <- omap_id_length. destruct (omap id es) as [|e es'] eqn:E.
  - f_equal. simpl. f_equal. unfold holey_value. rewrite length_map. by destruct (length es).
  - change (entry_value <$> head (e :: es')) with (Some (entry_value e)). cbv iota beta.
    assert (claimed_of_value (entry_value e) (Array (holey_value es)) = Ok (map entry_of (omap id es))) as ->.
    { unfold claimed_of_value, entry_value at 1. rewrite holey_rows_read by done. cbn [mbind result_bind].
      by rewrite holey_rows_entries. }
    cbn [mbind result_bind]. rewrite E. unfold holey_value. by rewrite !length_map.
Qed.

(** The first and last entries of XINFO STREAM lose their fields: both the id
    and the fields are read from the first value, which is gone by then. *)
Lemma info_entry_fields_lost `{F64Display} (e : bytes * list (bytes * Value)) :
  valid_entry e -> from_array_value (entry_value e) = Ok (StreamId_of (e.1, ∅)).
Proof. intros [Hid _]. unfold from_array_value, entry_value. by rewrite string_of_valid. Qed.

(** ** Idempotency settings stay within their limits *)

(** The configurations a caller can make. *)
Inductive configured : StreamConfigOptions -> Prop :=
| configured_seconds s o : with_idempotency_seconds s = Ok o -> configured o
| configured_maxsize s o : with_idempotency_maxsize s = Ok o -> configured o
| configured_set_seconds o s o' : configured o -> idempotency_seconds o s = Ok o' -> configured o'
| configured_set_maxsize o s o' : configured o -> idempotency_maxsize o s = Ok o' -> configured o'.

Lemma in_range_spec min max x : in_range min max x = true <-> (min <= x <= max)%Z.
Proof. unfold in_range. rewrite andb_true_iff, Z.leb_le, Z.leb_le. done. Qed.

(** A checked setting: refused exactly outside the limits. *)
Lemma checked_Ok {E A} min max x (e : E) (a : A) (r : A) :
  (if negb (in_range min max x) then Err e else Ok a) = Ok r <-> (min <= x <= max)%Z /\ r = a.
Proof.
  rewrite <- in_range_spec. destruct (in_range min max x); simpl; split; [by intros [= ->]| |done|];
    [by intros [_ ->] | by intros [? _]].
Qed.

(** C39. Every configuration that can be made has a duration of 1 to 86400 seconds
    and a size of 1 to 10000 entries, and at least one of the two; and both
    constructors and both setters accept exactly the values within these
    limits, keep the accepted value and leave the other setting as it is. *)
Theorem config_within_limits (o : StreamConfigOptions) (Ho : configured o) :
  (forall s, idmp_duration o = Some s -> 1 <= s <= 86400)%Z /\
  (forall s, idmp_maxsize o = Some s -> 1 <= s <= 10000)%Z /\
  StreamConfigOptions_args o <> [] /\
  (forall s o', with_idempotency_seconds s = Ok o' <->
     (1 <= s <= 86400)%Z /\ o' = {| idmp_duration := Some s; idmp_maxsize := None |}) /\
  (forall s o', with_idempotency_maxsize s = Ok o' <->
     (1 <= s <= 10000)%Z /\ o' = {| idmp_duration := None; idmp_maxsize := Some s |}) /\
  (forall s o', idempotency_seconds o s = Ok o' <->
     (1 <= s <= 86400)%Z /\ o' = {| idmp_duration := Some s; idmp_maxsize := idmp_maxsize o |}) /\
  (forall s o', idempotency_maxsize o s = Ok o' <->
     (1 <= s <= 10000)%Z /\ o' = {| idmp_duration := idmp_duration o; idmp_maxsize := Some s |}).
Proof.
  split_and!; try (intros s o'; apply checked_Ok);
    induction Ho as [s o Hs|s o Hs|o s o' Ho IH Hs|o s o' Ho IH Hs]; apply checked_Ok in Hs as [Hr ->]; simpl;
    intros; simplify_eq; try done; try by apply IH.
  all: unfold StreamConfigOptions_args in *; simpl in *; try done.
  by destruct (idmp_duration o).
Qed.

(** The counts in front of ids are those of the ids. *)
Lemma stream_counts_announced `{ToSingleRedisArg K} `{ToSingleRedisArg GK} `{AXID : ToRedisArgs XID}
    `{!ToSingleRedisArg XID AXID} `{!PlainSlice AXID} (key : K) (group : GK) (ids : list XID) o p :
  announces (xnack key group ids o) (length ids) (map single_arg ids) /\
  announces (xdel_ex key ids p) (length ids) (map single_arg ids) /\
  announces (xack_del key group ids p) (length ids) (map single_arg ids).
Proof.
  split_and!; apply announces_taken; (eapply announces_here; [solve_built | done | by apply write_vec]).
Qed.

(** Reading two streams as a member of a group. *)
Lemma stream_commands_routed_witness :
  let crc := (fun k => Z.of_nat (length k)) : Crc16 in
  exists o, group StreamReadOptions_default (bs "workers") (bs "w1") = Some o /\
  routed_by_key (H0 := insertion_order) "XREADGROUP" (bs "{jobs}:a")
    (xread_options [bs "{jobs}:a"; bs "{jobs}:b"] [bs ">"; bs ">"] (block o 100)).
Proof.
  intros crc. eexists. split; [reflexivity|]. apply (stream_commands_routed "XREADGROUP").
  change "XREADGROUP"%string with (if read_only (block {| read_block := None; read_count := None;
    read_noack := None; read_group := Some ([bs "workers"], [bs "w1"]); read_claim := None |} 100)
    then "XREAD"%string else "XREADGROUP"%string).
  eapply on_xread_options; [reflexivity|]. by repeat constructor.
Defined.

(** Two entries of one stream. *)
Lemma stream_replies_read_witness :
  let d := (fun _ => bs "1.5") : F64Display in
  let es := [(bs "1-0", [(bs "a", Int 1)]); (bs "2-0", [])] in
  from_redis_value (frv_read (H := d) (H0 := reverse_order)) (read_value [(bs "log", es)]) =
  Ok {| read_keys := [{| skey := bs "log"; skey_ids := map entry_of es |}] |}.
Proof.
  intros d es. assert (Forall valid_entry es) as Hes by (repeat constructor).
  apply (stream_replies_read (H0 := reverse_order) [(bs "log", es)] es); [by repeat constructor | done].
Defined.

(** One entry claimed, one gone. *)
Lemma autoclaim_reply_read_witness :
  let d := (fun _ => bs "1.5") : F64Display in
  let e := (bs "1-0", [(bs "a", Int 1)]) in
  from_redis_value (frv_autoclaim (H := d) (H0 := insertion_order))
    (Array [BulkString (bs "0-0"); Array [entry_value e; Nil]; Array [BulkString (bs "2-0")]]) =
  Ok {| next_stream_id := bs "0-0"; claimed := [entry_of e]; deleted_ids := [bs "2-0"];
        invalid_entries := true |}.
Proof.
  intros d e. apply (autoclaim_reply_read (H0 := insertion_order) (bs "0-0") [Some e; None] [bs "2-0"]);
    repeat constructor.
Defined.

(** A day, then a thousand entries. *)
Lemma config_within_limits_witness :
  let o := {| idmp_duration := Some 86400%Z; idmp_maxsize := Some 1000%Z |} in
  configured o /\ (forall o', idempotency_seconds o 86401 <> Ok o') /\ is_ok (with_idempotency_maxsize 10000) = true.
Proof.
  intros o. assert (configured o) as Ho.
  { eapply (configured_set_maxsize _ 1000); [eapply (configured_seconds 86400)|]; reflexivity. }
  split; [done|]. split; [|done]. intros o' Hs.
  destruct (config_within_limits o Ho) as (_ & _ & _ & _ & _ & Hset & _). apply Hset in Hs as [Hs _]. lia.
Defined.
