(* ===== verification/Geo.v ===== *)
(** * Geospatial commands: [commands/geo.rs] and its builders in [commands/mod.rs]

    Units, coordinates, search options and search results.  The theorems: the
    builders are routed by their key, coordinates and results are read back, and
    where [RadiusOptions] counts its arguments wrongly. *)

From S2P Require Import Prelude Text Float64 Errors Types Cmd Convert Args Slots Routing Commands Streams.

(** [f64::from_redis_value]; [val as f64] rounds to the nearest. *)
Definition f64_of_int (z : Z) : f64 := f64_of_decimal (z <? 0)%Z (Z.abs z) 0.
Definition frv_f64 : FromRedisValue f64 :=
  let conv := num_of_value f64_of_int parse_f64 (fun x => x) in frv_default conv conv.

Inductive Unit := Meters | Kilometers | Miles | Feet.
Definition Unit_arg (u : Unit) : bytes :=
  match u with
  | Meters => lit "m" | Kilometers => lit "km" | Miles => lit "mi" | Feet => lit "ft"
  end.
#[export] Instance tra_unit : ToRedisArgs Unit := tra_single Unit_arg NonNumeric.

Record Coord (T : Type) := { longitude : T; latitude : T }.
Arguments longitude {T}.
Arguments latitude {T}.
Definition lon_lat {T} (longitude latitude : T) : Coord T :=
  {| longitude := longitude; latitude := latitude |}.
Definition coord_of_value {T} (F : FromRedisValue T) (v : Value) : result ParsingError (Coord T) :=
  values ← from_redis_value_ref (frv_vec F) v;
  match values with
  | [longitude; latitude] => Ok (lon_lat longitude latitude)
  | _ => Err (parsing_error "Expect a pair of numbers")
  end.
Definition frv_coord {T} (F : FromRedisValue T) : FromRedisValue (Coord T) :=
  frv_default (coord_of_value F) (coord_of_value F).
#[export] Instance tra_coord {T} `{A : ToRedisArgs T} : ToRedisArgs (Coord T) :=
  tra_default (fun c => x ← write_redis_args A (longitude c); y ← write_redis_args A (latitude c);
                        Some (x ++ y))
    (fun _ => NonNumeric) (fun _ => 2%nat).

Inductive RadiusOrder := Unsorted | Asc | Desc.

(** The keys of [store] and [store_dist] are kept as their arguments. *)
Record RadiusOptions := {
  ro_with_coord : bool;
  ro_with_dist : bool;
  ro_count : option Z;
  ro_order : RadiusOrder;
  ro_store : option (list bytes);
  ro_store_dist : option (list bytes)
}.
Definition RadiusOptions_default : RadiusOptions :=
  {| ro_with_coord := false; ro_with_dist := false; ro_count := None; ro_order := Unsorted;
     ro_store := None; ro_store_dist := None |}.
Definition limit (o : RadiusOptions) (n : Z) : RadiusOptions :=
  {| ro_with_coord := ro_with_coord o; ro_with_dist := ro_with_dist o; ro_count := Some n;
     ro_order := ro_order o; ro_store := ro_store o; ro_store_dist := ro_store_dist o |}.
Definition with_dist (o : RadiusOptions) : RadiusOptions :=
  {| ro_with_coord := ro_with_coord o; ro_with_dist := true; ro_count := ro_count o;
     ro_order := ro_order o; ro_store := ro_store o; ro_store_dist := ro_store_dist o |}.
Definition with_coord (o : RadiusOptions) : RadiusOptions :=
  {| ro_with_coord := true; ro_with_dist := ro_with_dist o; ro_count := ro_count o;
     ro_order := ro_order o; ro_store := ro_store o; ro_store_dist := ro_store_dist o |}.
Definition order (o : RadiusOptions) (r : RadiusOrder) : RadiusOptions :=
  {| ro_with_coord := ro_with_coord o; ro_with_dist := ro_with_dist o; ro_count := ro_count o;
     ro_order := r; ro_store := ro_store o; ro_store_dist := ro_store_dist o |}.
(** [None] when the key panics while it is written. *)
Definition store {K} `{AK : ToRedisArgs K} (o : RadiusOptions) (key : K) : option RadiusOptions :=
  k ← write_redis_args AK key;
  Some {| ro_with_coord := ro_with_coord o; ro_with_dist := ro_with_dist o; ro_count := ro_count o;
          ro_order := ro_order o; ro_store := Some k; ro_store_dist := ro_store_dist o |}.
Definition store_dist {K} `{AK : ToRedisArgs K} (o : RadiusOptions) (key : K) : option RadiusOptions :=
  k ← write_redis_args AK key;
  Some {| ro_with_coord := ro_with_coord o; ro_with_dist := ro_with_dist o; ro_count := ro_count o;
          ro_order := ro_order o; ro_store := ro_store o; ro_store_dist := Some k |}.
Definition RadiusOptions_args (o : RadiusOptions) : list bytes :=
  if_set (ro_with_coord o) [lit "WITHCOORD"] ++
  if_set (ro_with_dist o) [lit "WITHDIST"] ++
  if_some (ro_count o) (fun n => [lit "COUNT"; itoa n]) ++
  match ro_order o with Asc => [lit "ASC"] | Desc => [lit "DESC"] | Unsorted => [] end ++
  if_some (ro_store o) (fun store => lit "STORE" :: store) ++
  if_some (ro_store_dist o) (fun store_dist => lit "STOREDIST" :: store_dist).
Definition RadiusOptions_num_of_args (o : RadiusOptions) : nat :=
  let n := 0%nat in
  let n := if ro_with_coord o then n + 1 else n in
  let n := if ro_with_dist o then n + 1 else n in
  let n := if ro_count o then n + 2 else n in
  let n := match ro_order o with Asc | Desc => n + 1 | Unsorted => n end in
  let n := n + (1 + default 0 (length <$> ro_store o)) in
  let n := n + (1 + default 0 (length <$> ro_store_dist o)) in
  n.
#[export] Instance tra_radius_options : ToRedisArgs RadiusOptions :=
  tra_default (fun o => Some (RadiusOptions_args o)) (fun _ => NonNumeric) RadiusOptions_num_of_args.
#[export] Instance writes_radius : Writes _ tra_radius_options.
Proof. intros x. simpl. eauto. Qed.

Record RadiusSearchResult := {
  rs_name : bytes;
  rs_coord : option (Coord f64);
  rs_dist : option f64
}.

Section results.
Context `{F64Display}.

(** [RadiusSearchResult::parse_multi_values]. *)
Definition parse_multi_values (items : list Value) : result ParsingError RadiusSearchResult :=
  match items with
  | [] => Err (parsing_error "Missing member name")
  | name :: rest =>
      match from_redis_value frv_string name with
      | Err _ => Err (parsing_error "Missing member name")
      | Ok name =>
          p ← (match rest with
               | [] => Ok (None, None)
               | [Array coords] =>
                   c ← from_redis_value (frv_coord frv_f64) (Array coords); Ok (None, Some c)
               | dist :: rest =>
                   d ← from_redis_value (frv_option frv_f64) dist;
                   Ok (d, c ← head rest; to_option (from_redis_value (frv_coord frv_f64) c))
               end : result ParsingError (option f64 * option (Coord f64)));
          Ok {| rs_name := name; rs_coord := p.2; rs_dist := p.1 |}
      end
  end.
Definition radius_of_value (v : Value) : result ParsingError RadiusSearchResult :=
  match v with
  | BulkString b =>
      s ← map_err parsing_error_of_from_utf8 (from_utf8 b);
      Ok {| rs_name := s; rs_coord := None; rs_dist := None |}
  | Array items => parse_multi_values items
  | _ => Err (parsing_error "Response type not RadiusSearchResult compatible.")
  end.
Definition frv_radius : FromRedisValue RadiusSearchResult := frv_owned radius_of_value.
End results.

(** ** Builders *)

Section builders.
Context {K M M1 M2 : Type}.
Context `{AK : ToRedisArgs K} `{AM : ToRedisArgs M} `{AM1 : ToRedisArgs M1}
  `{AM2 : ToRedisArgs M2}.
Context `{Ryu}.
Definition geo_add (key : K) (members : M) : Command := taken (CMD "GEOADD" ▷ key ▷ members).
Definition geo_dist (key : K) (member1 : M1) (member2 : M2) (unit : Unit) : Command :=
  taken (CMD "GEODIST" ▷ key ▷ member1 ▷ member2 ▷ unit).
Definition geo_hash (key : K) (members : M) : Command := taken (CMD "GEOHASH" ▷ key ▷ members).
Definition geo_pos (key : K) (members : M) : Command := taken (CMD "GEOPOS" ▷ key ▷ members).
Definition geo_radius (key : K) (longitude latitude radius : f64) (unit : Unit)
    (options : RadiusOptions) : Command :=
  taken (CMD "GEORADIUS" ▷ key ▷ longitude ▷ latitude ▷ radius ▷ unit ▷ options).
Definition geo_radius_by_member (key : K) (member : M) (radius : f64) (unit : Unit)
    (options : RadiusOptions) : Command :=
  taken (CMD "GEORADIUSBYMEMBER" ▷ key ▷ member ▷ radius ▷ unit ▷ options).
End builders.

(** The builders that take the key of a geospatial set. *)
Inductive on_geo `{Ryu} : string -> bytes -> Command -> Prop :=
| on_geo_add `{ToSingleRedisArg K} `{Writes M} (key : K) (members : M) :
    on_geo "GEOADD" (single_arg key) (geo_add key members)
| on_geo_dist `{ToSingleRedisArg K} `{ToSingleRedisArg M1} `{ToSingleRedisArg M2} (key : K)
    (member1 : M1) (member2 : M2) (unit : Unit) :
    on_geo "GEODIST" (single_arg key) (geo_dist key member1 member2 unit)
| on_geo_hash `{ToSingleRedisArg K} `{Writes M} (key : K) (members : M) :
    on_geo "GEOHASH" (single_arg key) (geo_hash key members)
| on_geo_pos `{ToSingleRedisArg K} `{Writes M} (key : K) (members : M) :
    on_geo "GEOPOS" (single_arg key) (geo_pos key members)
| on_geo_radius `{ToSingleRedisArg K} (key : K) (longitude latitude radius : f64) (unit : Unit)
    (options : RadiusOptions) :
    on_geo "GEORADIUS" (single_arg key) (geo_radius key longitude latitude radius unit options)
| on_geo_radius_by_member `{ToSingleRedisArg K} `{ToSingleRedisArg M} (key : K) (member : M)
    (radius : f64) (unit : Unit) (options : RadiusOptions) :
    on_geo "GEORADIUSBYMEMBER" (single_arg key) (geo_radius_by_member key member radius unit options).

(** Every geospatial command goes to a node of the slot of its key. *)
Lemma geo_commands_routed `{Ryu} `{Crc16} `{HashOrder} name key b :
  on_geo name key b -> routed_by_key name key b.
Proof. destruct 1; solve_route. Qed.

(** [num_of_args] counts the keywords [STORE] and [STOREDIST] even where they
    are not written. *)
Lemma radius_options_overcounted o :
  num_of_args tra_radius_options o =
  (length (RadiusOptions_args o) + (if ro_store o then 0 else 1) + (if ro_store_dist o then 0 else 1))%nat.
Proof.
  destruct o as [c d n r s t]. simpl. unfold RadiusOptions_num_of_args, RadiusOptions_args.
  cbn [ro_with_coord ro_with_dist ro_count ro_order ro_store ro_store_dist]. rewrite !length_app.
  destruct c, d, n, r, s, t; simpl; lia.
Qed.

(** The four shapes of a search result: the member alone, or with its distance,
    its position or both. *)
Definition radius_value (name : bytes) (dist : option bytes) (coord : option (bytes * bytes)) : Value :=
  let position c := Array [BulkString c.1; BulkString c.2] in
  match dist, coord with
  | None, None => BulkString name
  | Some d, None => Array [BulkString name; BulkString d]
  | None, Some c => Array [BulkString name; position c]
  | Some d, Some c => Array [BulkString name; BulkString d; position c]
  end.

(** [s] is the text of [x]. *)
Definition denotes (s : bytes) (x : f64) : Prop := utf8_valid s = true /\ parse_f64 s = Some x.

Section search_results.
Context `{F64Display}.

Lemma f64_read s x : denotes s x -> from_redis_value frv_f64 (BulkString s) = Ok x.
Proof. intros [Hu Hp]. cbn -[parse_f64]. unfold from_utf8. rewrite Hu. cbn -[parse_f64]. by rewrite Hp. Qed.

Lemma coord_read s t x y : denotes s x -> denotes t y ->
  from_redis_value (frv_coord frv_f64) (Array [BulkString s; BulkString t]) = Ok (lon_lat x y).
Proof.
  intros Hs%f64_read Ht%f64_read. cbn [frv_coord frv_default from_redis_value]. unfold coord_of_value.
  assert (from_redis_value_ref (frv_vec frv_f64) (Array [BulkString s; BulkString t]) = Ok [x; y]) as ->; [|done].
  apply try_map_Ok. by repeat constructor.
Qed.

Lemma dist_read s x : denotes s x -> from_redis_value (frv_option frv_f64) (BulkString s) = Ok (Some x).
Proof.
  intros Hs%f64_read. cbn [frv_option frv_default from_redis_value]. unfold option_of_value.
  cbn [get_owned_inner_value is_nil]. by rewrite Hs.
Qed.

(** A search result is understood as the server sent it. *)
Lemma radius_results_read (name : bytes) (dist : option (bytes * f64))
    (coord : option (bytes * f64 * (bytes * f64))) (Hname : utf8_valid name = true)
    (Hdist : from_option (fun d => denotes d.1 d.2) True dist)
    (Hcoord : from_option (fun c => denotes c.1.1 c.1.2 /\ denotes c.2.1 c.2.2) True coord) :
  from_redis_value frv_radius (radius_value name (fst <$> dist) ((fun c => (c.1.1, c.2.1)) <$> coord)) =
  Ok {| rs_name := name; rs_coord := (fun c => lon_lat c.1.2 c.2.2) <$> coord; rs_dist := snd <$> dist |}.
Proof.
  destruct dist as [[d x]|], coord as [[[lo xlo] [la xla]]|]; cbn [fmap option_fmap option_map fst snd] in *;
    cbn [radius_value from_redis_value frv_radius frv_owned frv_default radius_of_value];
    unfold parse_multi_values; rewrite ?string_of_valid by done; cbn [from_option] in *.
  - destruct Hcoord as [Hlo Hla]. rewrite (dist_read d x Hdist). cbn [mbind result_bind head option_bind fst snd].
    by rewrite (coord_read lo la xlo xla Hlo Hla).
  - by rewrite (dist_read d x Hdist).
  - destruct Hcoord as [Hlo Hla]. cbn [fst snd]. by rewrite (coord_read lo la xlo xla Hlo Hla).
  - unfold from_utf8. by rewrite Hname.
Qed.
End search_results.
