(* ===== verification/Acl.v ===== *)
(** * Access control lists: [commands/acl.rs] and its builders in [commands/mod.rs]

    The rules with the argument each writes, and the reply of ACL GETUSER.  The
    theorems: the reply is understood as the rules it lists, and where the
    client loses rules or sends a command to the wrong nodes. *)

From S2P Require Import Prelude Text Errors Types Cmd Convert Args Slots Routing Commands.

(** ** Text *)

(** [s.split(c)]; [cur] is the piece being read, reversed. *)
Fixpoint split_go (c : byte) (cur s : bytes) : list bytes :=
  match s with
  | [] => [reverse cur]
  | b :: s => if decide (b = c) then reverse cur :: split_go c [] s else split_go c (b :: cur) s
  end.
(** [s.split_terminator(c)]: an empty last piece is dropped. *)
Definition split_terminator (c : byte) (s : bytes) : list bytes :=
  let pieces := split_go c [] s in
  if bool_decide (last pieces = Some []) then removelast pieces else pieces.

(** [s.split_whitespace()]: the non-empty pieces between white space, which may
    take one, two or three bytes. *)
Fixpoint split_whitespace_go (cur s : bytes) : list bytes :=
  let done := if bool_decide (cur = []) then [] else [reverse cur] in
  match s with
  | [] => done
  | b0 :: s1 =>
      if ws1 b0 then done ++ split_whitespace_go [] s1
      else match s1 with
           | [] => split_whitespace_go (b0 :: cur) s1
           | b1 :: s2 =>
               if ws2 b0 b1 then done ++ split_whitespace_go [] s2
               else match s2 with
                    | [] => split_whitespace_go (b0 :: cur) s1
                    | b2 :: s3 =>
                        if ws3 b0 b1 b2 then done ++ split_whitespace_go [] s3
                        else split_whitespace_go (b0 :: cur) s1
                    end
           end
  end.
Definition split_whitespace (s : bytes) : list bytes := split_whitespace_go [] s.

(** [s.join(" ")]. *)
Fixpoint join_space (l : list bytes) : bytes :=
  match l with
  | [] => []
  | [s] => s
  | s :: l => s ++ bs " " ++ join_space l
  end.

Definition QUOTE : byte := x22.
Definition quoted (s : bytes) : bool :=
  (2 <=? length s)%nat && starts_with [QUOTE] s && bool_decide (last s = Some QUOTE).
(** [&s[1..s.len() - 1]] of a quoted string. *)
Definition unquote (s : bytes) : bytes :=
  if quoted s then take (length s - 2) (drop 1 s) else s.

Definition strip_prefix (p s : bytes) : bytes := if starts_with p s then drop (length p) s else s.

(** ** Rules *)

Inductive Rule :=
| On | Off
| AddCommand (cmd : bytes) | RemoveCommand (cmd : bytes)
| AddCategory (cat : bytes) | RemoveCategory (cat : bytes)
| AllCommands | NoCommands
| AddPass (pass : bytes) | RemovePass (pass : bytes)
| AddHashedPass (pass : bytes) | RemoveHashedPass (pass : bytes)
| NoPass | ResetPass
| Pattern (pat : bytes) | AllKeys | ResetKeys
| Rule_Channel (pat : bytes) | ResetChannels
| Selector (sel : list Rule)
| Rule_Reset
| Rule_Other (rule : bytes).

Fixpoint Rule_arg (r : Rule) : bytes :=
  match r with
  | On => bs "on"
  | Off => bs "off"
  | AddCommand cmd => bs "+" ++ cmd
  | RemoveCommand cmd => bs "-" ++ cmd
  | AddCategory cat => bs "+@" ++ cat
  | RemoveCategory cat => bs "-@" ++ cat
  | AllCommands => bs "allcommands"
  | NoCommands => bs "nocommands"
  | AddPass pass => bs ">" ++ pass
  | RemovePass pass => bs "<" ++ pass
  | AddHashedPass pass => bs "#" ++ pass
  | RemoveHashedPass pass => bs "!" ++ pass
  | NoPass => bs "nopass"
  | ResetPass => bs "resetpass"
  | Pattern pat => bs "~" ++ pat
  | AllKeys => bs "allkeys"
  | ResetKeys => bs "resetkeys"
  | Rule_Channel pat => bs "&" ++ pat
  | ResetChannels => bs "resetchannels"
  | Selector sel => bs "(" ++ join_space (map (fun r => from_utf8_lossy (Rule_arg r)) sel) ++ bs ")"
  | Rule_Reset => bs "reset"
  | Rule_Other rule => rule
  end.
#[export] Instance tra_rule : ToRedisArgs Rule := tra_single Rule_arg NonNumeric.

(** ** The reply of ACL GETUSER *)

Record AclInfo := {
  acl_flags : list Rule;
  acl_passwords : list Rule;
  acl_commands : list Rule;
  acl_keys : list Rule;
  acl_channels : list Rule;
  acl_selectors : list Rule
}.
Definition AclInfo_default : AclInfo :=
  {| acl_flags := []; acl_passwords := []; acl_commands := []; acl_keys := []; acl_channels := [];
     acl_selectors := [] |}.

Section getuser.
Context `{F64Display}.

Definition flag_of_value (flag : Value) : result ParsingError Rule :=
  match flag with
  | BulkString flag =>
      Ok (if bytes_eqb flag (bs "on") then On
          else if bytes_eqb flag (bs "off") then Off
          else if bytes_eqb flag (bs "allkeys") then AllKeys
          else if bytes_eqb flag (bs "allcommands") then AllCommands
          else if bytes_eqb flag (bs "nopass") then NoPass
          else Rule_Other (from_utf8_lossy flag))
  | _ => Err (parsing_error "Expect an arbitrary binary data")
  end.
Definition password_of_value (pass : Value) : result ParsingError Rule :=
  s ← from_redis_value_ref frv_string pass; Ok (AddHashedPass s).
Definition command_rule (cmd : bytes) : result ParsingError Rule :=
  if starts_with (bs "+@") cmd then Ok (AddCategory (drop 2 cmd))
  else if starts_with (bs "-@") cmd then Ok (RemoveCategory (drop 2 cmd))
  else if starts_with (bs "+") cmd then Ok (AddCommand (drop 1 cmd))
  else if starts_with (bs "-") cmd then Ok (RemoveCommand (drop 1 cmd))
  else Err (parsing_error "Expect a command addition/removal").
Definition key_rule (tok : bytes) : Rule :=
  if bytes_eqb tok (bs "*") then AllKeys else Pattern tok.
Definition key_of_value (pat : Value) : result ParsingError Rule :=
  s ← from_redis_value_ref frv_string pat; Ok (key_rule s).
Definition channel_of_value (pat : Value) : result ParsingError Rule :=
  s ← from_redis_value_ref frv_string pat; Ok (Rule_Channel (strip_prefix (bs "&") s)).

(** [std::str::from_utf8(bs)?], trimmed and unquoted. *)
Definition text_of (b : bytes) : result ParsingError bytes :=
  s ← map_err parsing_error_of_utf8 (from_utf8 b); Ok (unquote (Text.trim s)).

Definition flags_of_value (value : Value) : result ParsingError (list Rule) :=
  items ← ok_or (as_sequence value) (parsing_error "Expect an array response of ACL flags");
  try_map flag_of_value items.
Definition passwords_of_value (value : Value) : result ParsingError (list Rule) :=
  items ← ok_or (as_sequence value) (parsing_error "Expect an array response of ACL passwords");
  try_map password_of_value items.
Definition commands_of_value (value : Value) : result ParsingError (list Rule) :=
  match value with
  | BulkString cmd =>
      cmds ← map_err parsing_error_of_utf8 (from_utf8 cmd);
      try_map command_rule (split_terminator x20 cmds)
  | _ => Err (parsing_error "Expect a valid UTF8 string for commands")
  end.
Definition keys_of_value (value : Value) : result ParsingError (list Rule) :=
  match value with
  | Array arr => try_map key_of_value arr
  | BulkString b =>
      s ← text_of b; Ok (map (fun tok => key_rule (strip_prefix (bs "~") tok)) (split_whitespace s))
  | _ => Err (parsing_error "Expect an array or bulk-string of keys")
  end.
Definition channels_of_value (value : Value) : result ParsingError (list Rule) :=
  match value with
  | Array arr | Set_ arr => try_map channel_of_value arr
  | BulkString b =>
      s ← text_of b;
      Ok (map (fun tok => Rule_Channel (strip_prefix (bs "&") tok)) (split_whitespace s))
  | _ => Err (parsing_error "Expect an array or bulk-string of channels")
  end.

Definition key_name (name : Value) : result ParsingError bytes :=
  match name with
  | BulkString b => text_of b
  | _ => Err (parsing_error "Expect a bulk string key name")
  end.

(** [AclInfo::handle_pair].  [selectors] is what the selectors are converted to
    when the pair is that of the selectors. *)
Definition handle_pair (acl : AclInfo) (name value : Value)
    (selectors : result ParsingError (list Rule)) : result ParsingError AclInfo :=
  key ← key_name name;
  if bytes_eqb key (bs "flags") then
    f ← flags_of_value value;
    Ok {| acl_flags := f; acl_passwords := acl_passwords acl; acl_commands := acl_commands acl;
          acl_keys := acl_keys acl; acl_channels := acl_channels acl;
          acl_selectors := acl_selectors acl |}
  else if bytes_eqb key (bs "passwords") then
    p ← passwords_of_value value;
    Ok {| acl_flags := acl_flags acl; acl_passwords := p; acl_commands := acl_commands acl;
          acl_keys := acl_keys acl; acl_channels := acl_channels acl;
          acl_selectors := acl_selectors acl |}
  else if bytes_eqb key (bs "commands") then
    cmds ← commands_of_value value;
    Ok {| acl_flags := acl_flags acl; acl_passwords := acl_passwords acl; acl_commands := cmds;
          acl_keys := acl_keys acl; acl_channels := acl_channels acl;
          acl_selectors := acl_selectors acl |}
  else if bytes_eqb key (bs "keys") then
    parsed ← keys_of_value value;
    Ok {| acl_flags := acl_flags acl; acl_passwords := acl_passwords acl;
          acl_commands := acl_commands acl; acl_keys := parsed; acl_channels := acl_channels acl;
          acl_selectors := acl_selectors acl |}
  else if bytes_eqb key (bs "channels") then
    parsed ← channels_of_value value;
    Ok {| acl_flags := acl_flags acl; acl_passwords := acl_passwords acl;
          acl_commands := acl_commands acl; acl_keys := acl_keys acl; acl_channels := parsed;
          acl_selectors := acl_selectors acl |}
  else if bytes_eqb key (bs "selectors") then
    parsed ← selectors;
    Ok {| acl_flags := acl_flags acl; acl_passwords := acl_passwords acl;
          acl_commands := acl_commands acl; acl_keys := acl_keys acl; acl_channels := acl_channels acl;
          acl_selectors := parsed |}
  else Ok acl.

(** The rules of a selector, in the order they are chained. *)
Definition selector_rules (acl : AclInfo) : list Rule :=
  acl_flags acl ++ acl_commands acl ++ acl_channels acl ++ acl_keys acl.

Fixpoint acl_of_value (v : Value) : result ParsingError AclInfo :=
  let selectors := fix selectors (l : list Value) : result ParsingError (list Rule) :=
    match l with
    | [] => Ok []
    | pat :: l => acl ← acl_of_value pat; rest ← selectors l; Ok (selector_rules acl ++ rest)
    end in
  let selectors_of := fun value =>
    match value with
    | Array arr | Set_ arr => selectors arr
    | _ => Err (parsing_error "Expect an array or bulk-string of selectors")
    end in
  let flat_pairs := fix flat_pairs (acl : AclInfo) (l : list Value) : result ParsingError AclInfo :=
    match l with
    | name :: value :: l => acl ← handle_pair acl name value (selectors_of value); flat_pairs acl l
    | _ => Ok acl
    end in
  let map_pairs := fix map_pairs (acl : AclInfo) (l : list (Value * Value)) : result ParsingError AclInfo :=
    match l with
    | (name, value) :: l => acl ← handle_pair acl name value (selectors_of value); map_pairs acl l
    | [] => Ok acl
    end in
  match v with
  | Map items => map_pairs AclInfo_default items
  | Array seq | Set_ seq =>
      if Nat.eqb (length seq mod 2) 0 then flat_pairs AclInfo_default seq else Err (parsing_error "")
  | Nil => Ok AclInfo_default
  | _ => Err (parsing_error "")
  end.
Definition frv_acl : FromRedisValue AclInfo := frv_owned acl_of_value.
End getuser.

(** ** Builders *)

Section builders.
Context {K C A : Type}.
Context `{AK : ToRedisArgs K} `{AC : ToRedisArgs C} `{AA : ToRedisArgs A}.
Definition acl_load : Command := taken (CMD "ACL" ▷' "LOAD").
Definition acl_save : Command := taken (CMD "ACL" ▷' "SAVE").
Definition acl_list : Command := taken (CMD "ACL" ▷' "LIST").
Definition acl_users : Command := taken (CMD "ACL" ▷' "USERS").
Definition acl_getuser (username : K) : Command := taken (CMD "ACL" ▷' "GETUSER" ▷ username).
Definition acl_setuser (username : K) : Command := taken (CMD "ACL" ▷' "SETUSER" ▷ username).
Definition acl_setuser_rules (username : K) (rules : list Rule) : Command :=
  taken (CMD "ACL" ▷' "SETUSER" ▷ username ▷ rules).
Definition acl_deluser (usernames : list K) : Command :=
  taken (CMD "ACL" ▷' "DELUSER" ▷ usernames).
Definition acl_dryrun (username : K) (command : C) (args : A) : Command :=
  taken (CMD "ACL" ▷' "DRYRUN" ▷ username ▷ command ▷ args).
Definition acl_cat : Command := taken (CMD "ACL" ▷' "CAT").
Definition acl_cat_categoryname (categoryname : K) : Command :=
  taken (CMD "ACL" ▷' "CAT" ▷ categoryname).
Definition acl_genpass : Command := taken (CMD "ACL" ▷' "GENPASS").
Definition acl_genpass_bits (bits : Z) : Command := taken (CMD "ACL" ▷' "GENPASS" ▷ bits).
Definition acl_whoami : Command := taken (CMD "ACL" ▷' "WHOAMI").
Definition acl_log (count : Z) : Command := taken (CMD "ACL" ▷' "LOG" ▷ count).
Definition acl_log_reset : Command := taken (CMD "ACL" ▷' "LOG" ▷' "RESET").
Definition acl_help : Command := taken (CMD "ACL" ▷' "HELP").
End builders.

(** ** Text that is split is the text that was joined *)

Lemma split_go_piece c cur s rest : c ∉ s ->
  split_go c cur (s ++ rest) = split_go c (reverse s ++ cur) rest.
Proof.
  revert cur. induction s as [|b s IH]; intros cur Hc; [done|]. apply not_elem_of_cons in Hc as [Hb Hs].
  simpl. rewrite decide_False by done. rewrite IH by done. f_equal. by rewrite reverse_cons, <- app_assoc.
Qed.

Lemma split_join l : l <> [] -> Forall (fun s => x20 ∉ s) l -> split_go x20 [] (join_space l) = l.
Proof.
  intros Hl HF. induction HF as [|s l Hs HF IH]; [done|]. destruct l as [|s' l].
  - simpl. rewrite <- (app_nil_r s) at 1. rewrite split_go_piece by done. simpl.
    by rewrite app_nil_r, reverse_involutive.
  - change (join_space (s :: s' :: l)) with (s ++ x20 :: join_space (s' :: l)).
    rewrite split_go_piece by done. cbn [split_go]. rewrite decide_True by done.
    rewrite app_nil_r, reverse_involutive. f_equal. by apply IH.
Qed.

Lemma split_terminator_join l : Forall (fun s => s <> [] /\ x20 ∉ s) l ->
  split_terminator x20 (join_space l) = l.
Proof.
  intros HF. destruct (decide (l = [])) as [->|Hl]; [done|].
  unfold split_terminator. rewrite split_join; [|done | by eapply Forall_impl; [exact HF|intros ? []]].
  rewrite bool_decide_eq_false_2; [done|]. intros Hlast. apply last_Some_elem_of in Hlast.
  rewrite Forall_forall in HF. by destruct (HF _ Hlast).
Qed.

(** Visible ASCII characters. *)
Definition visible (b : byte) : Prop := (33 <= byte_Z b <= 126)%Z.

(** Decides the comparisons of a byte of known range with constants. *)
Ltac compare_byte b :=
  repeat match goal with
  | |- context [(?x <=? byte_Z b)%Z] => destruct (Z.leb_spec x (byte_Z b)); try lia
  | |- context [(byte_Z b <=? ?x)%Z] => destruct (Z.leb_spec (byte_Z b) x); try lia
  end; simpl; by rewrite ?andb_false_r, ?orb_false_r.

Lemma visible_not_ws b : visible b -> ws1 b = false /\ (forall b1, ws2 b b1 = false) /\
  (forall b1 b2, ws3 b b1 b2 = false).
Proof.
  unfold visible, ws1, ws2, ws3, between. intros Hb. split_and!; intros; compare_byte b.
Qed.

Lemma split_ws_step cur b s : visible b -> split_whitespace_go cur (b :: s) = split_whitespace_go (b :: cur) s.
Proof.
  intros (H1 & H2 & H3)%visible_not_ws. destruct s as [|b1 [|b2 s]]; cbn [split_whitespace_go];
    by rewrite H1, ?H2, ?H3.
Qed.

Lemma split_ws_piece cur s rest : Forall visible s ->
  split_whitespace_go cur (s ++ rest) = split_whitespace_go (reverse s ++ cur) rest.
Proof.
  intros Hs. revert cur. induction Hs as [|b s Hb _ IH]; intros cur; [done|].
  rewrite <- app_comm_cons, split_ws_step, IH by done. by rewrite reverse_cons, <- app_assoc.
Qed.

(** Words: non-empty and of visible characters. *)
Definition word (s : bytes) : Prop := s <> [] /\ Forall visible s.

Lemma reverse_not_nil {A} (l : list A) : l <> [] -> reverse l <> [].
Proof. intros Hl H. apply Hl. by rewrite <- (reverse_involutive l), H. Qed.

Lemma split_whitespace_join l : Forall word l -> split_whitespace (join_space l) = l.
Proof.
  unfold split_whitespace. induction 1 as [|s l [Hn Hs] HF IH]; [done|].
  assert (bool_decide (reverse s = []) = false) as Hr.
  { apply bool_decide_eq_false_2. by apply reverse_not_nil. }
  destruct l as [|s' l].
  - simpl. rewrite <- (app_nil_r s) at 1. rewrite split_ws_piece by done. simpl.
    by rewrite app_nil_r, Hr, reverse_involutive.
  - change (join_space (s :: s' :: l)) with (s ++ x20 :: join_space (s' :: l)).
    rewrite split_ws_piece, app_nil_r by done.
    assert (split_whitespace_go (reverse s) (x20 :: join_space (s' :: l)) =
            s :: split_whitespace_go [] (join_space (s' :: l))) as ->; [|by rewrite IH].
    cbn [split_whitespace_go]. change (ws1 x20) with true. cbv iota.
    by rewrite Hr, reverse_involutive.
Qed.

(** A text of words is not changed by [trim]. *)
Lemma trim_start_visible b s : visible b -> trim_start (b :: s) = b :: s.
Proof.
  intros (H1 & H2 & H3)%visible_not_ws. destruct s as [|b1 [|b2 s]]; cbn [trim_start];
    by rewrite H1, ?H2, ?H3.
Qed.

Lemma visible_not_ws_last b : visible b -> ws1 b = false /\ (forall b1, ws2 b1 b = false) /\
  (forall b1 b2, ws3 b2 b1 b = false).
Proof.
  unfold visible, ws1, ws2, ws3, between. intros Hb. split_and!; intros; compare_byte b.
Qed.

Lemma trim_end_visible s b : visible b -> trim_end (s ++ [b]) = s ++ [b].
Proof.
  intros (H1 & H2 & H3)%visible_not_ws_last. unfold trim_end. rewrite reverse_snoc.
  assert (trim_start_rev (b :: reverse s) = b :: reverse s) as ->.
  { destruct (reverse s) as [|b1 [|b2 r]]; cbn [trim_start_rev]; by rewrite H1, ?H2, ?H3. }
  by rewrite reverse_cons, reverse_involutive.
Qed.

Lemma join_last l : Forall word l -> l <> [] -> exists s b, visible b /\ join_space l = s ++ [b].
Proof.
  induction 1 as [|s l [Hn Hs] HF IH]; [done|]. intros _.
  assert (exists t b, visible b /\ s = t ++ [b]) as (t & b & Hb & Ht).
  { destruct s as [|b t _] using rev_ind; [done|]. exists t, b. split; [|done].
    apply Forall_app in Hs as [_ Hs]. by inversion Hs. }
  destruct l as [|s' l]; [by exists t, b|]. destruct IH as (u & c & Hc & Hu); [done|].
  exists (s ++ bs " " ++ u), c. split; [done|].
  change (join_space (s :: s' :: l)) with (s ++ bs " " ++ join_space (s' :: l)). by rewrite Hu, <- !app_assoc.
Qed.

Lemma trim_join l : Forall word l -> Text.trim (join_space l) = join_space l.
Proof.
  intros HF. destruct (decide (l = [])) as [->|Hl]; [done|]. unfold Text.trim.
  destruct (join_last l HF Hl) as (s & b & Hb & Hs). destruct HF as [|w l [Hn Hw] HF]; [done|].
  destruct Hw as [|c w Hc Hw]; [done|].
  assert (exists r, join_space ((c :: w) :: l) = c :: r) as [r Hr] by (destruct l; simpl; eauto).
  rewrite Hr, trim_start_visible, <- Hr, Hs by done. by apply trim_end_visible.
Qed.

Lemma visible_ascii s : Forall visible s -> Forall (fun b => byte_Z b < 128)%Z s.
Proof. intros Hs. eapply Forall_impl; [exact Hs|]. unfold visible. intros. lia. Qed.

Lemma join_ascii l : Forall word l -> Forall (fun b => byte_Z b < 128)%Z (join_space l).
Proof.
  induction 1 as [|s l [Hn Hs] HF IH]; [constructor|]. apply visible_ascii in Hs.
  destruct l as [|s' l]; [done|].
  change (join_space (s :: s' :: l)) with (s ++ bs " " ++ join_space (s' :: l)).
  rewrite !Forall_app. split_and!; [done| |done]. by repeat constructor.
Qed.

(** ** The reply of ACL GETUSER is understood as the rules it lists *)

(** Rules on commands and categories, as the server prints them: the names have
    no space, and the name of a command does not begin like a category. *)
Definition command_rule_ok (r : Rule) : Prop :=
  match r with
  | AddCommand n | RemoveCommand n => x20 ∉ n /\ starts_with (bs "@") n = false /\ utf8_valid n = true
  | AddCategory n | RemoveCategory n => x20 ∉ n /\ utf8_valid n = true
  | _ => False
  end.

(** What the server sends for a user. *)
Definition getuser_value (flags passwords : list bytes) (commands : list Rule) (keys channels : list bytes)
    : Value :=
  Array [BulkString (bs "flags"); Array (map BulkString flags);
         BulkString (bs "passwords"); Array (map BulkString passwords);
         BulkString (bs "commands"); BulkString (join_space (map Rule_arg commands));
         BulkString (bs "keys"); BulkString (join_space (map (app (bs "~")) keys));
         BulkString (bs "channels"); BulkString (join_space (map (app (bs "&")) channels));
         BulkString (bs "selectors"); Array []].

Definition flag_rule (flag : bytes) : Rule :=
  if bytes_eqb flag (bs "on") then On
  else if bytes_eqb flag (bs "off") then Off
  else if bytes_eqb flag (bs "allkeys") then AllKeys
  else if bytes_eqb flag (bs "allcommands") then AllCommands
  else if bytes_eqb flag (bs "nopass") then NoPass
  else Rule_Other flag.

Lemma command_rule_arg r : command_rule_ok r ->
  command_rule (Rule_arg r) = Ok r /\ Rule_arg r <> [] /\ x20 ∉ Rule_arg r /\ utf8_valid (Rule_arg r) = true.
Proof.
  destruct r; try done; simpl; intros (Hs & H); [destruct H as [Ha Hu]..|rename H into Hu|rename H into Hu];
    (split_and!; [unfold command_rule; simpl; try done | done | | done]).
  all: repeat (apply not_elem_of_cons; split; [done|]); try done.
  all: destruct cmd as [|b cmd]; simpl in *; [done|]; rewrite !andb_true_r in *; by rewrite Ha.
Qed.

Lemma word_tagged c p : visible c -> Forall visible p -> word (c :: p).
Proof. intros Hc Hp. split; [done | by constructor]. Qed.

Lemma unquote_tagged c l : c <> QUOTE -> unquote (join_space (map (app [c]) l)) = join_space (map (app [c]) l).
Proof.
  intros Hc. unfold unquote, quoted. destruct l as [|s l]; [done|].
  assert (exists r, join_space (map (app [c]) (s :: l)) = c :: r) as [r ->] by (destruct l; simpl; eauto).
  simpl. rewrite bool_decide_eq_false_2 by congruence. by rewrite !andb_false_r.
Qed.

(** Tagged words are read back without their tag. *)
Lemma tagged_words_read c l : visible c -> c <> QUOTE -> Forall (Forall visible) l ->
  exists s, text_of (join_space (map (app [c]) l)) = Ok s /\ 
    map (strip_prefix [c]) (split_whitespace s) = l.
Proof.
  intros Hc Hq Hl. exists (join_space (map (app [c]) l)).
  assert (Forall word (map (app [c]) l)) as Hw.
  { induction Hl; simpl; constructor; [by apply word_tagged | done]. }
  split.
  - unfold text_of, from_utf8. rewrite utf8_valid_ascii by (by apply join_ascii). cbn [map_err mbind result_bind].
    by rewrite trim_join, unquote_tagged.
  - rewrite split_whitespace_join by done. rewrite map_map. rewrite <- (map_id l) at 2. apply map_ext.
    intros s. unfold strip_prefix. simpl. by rewrite bool_decide_eq_true_2, drop_0.
Qed.

Lemma join_utf8 l : Forall (fun s => utf8_valid s = true) l -> utf8_valid (join_space l) = true.
Proof.
  induction 1 as [|s l Hs HF IH]; [done|]. destruct l as [|s' l]; [done|].
  change (join_space (s :: s' :: l)) with (s ++ bs " " ++ join_space (s' :: l)).
  apply utf8_valid_app; [done|]. by apply utf8_valid_app.
Qed.

Section user.
Context `{F64Display}.

Lemma flags_read flags : Forall (fun s => utf8_valid s = true) flags ->
  flags_of_value (Array (map BulkString flags)) = Ok (map flag_rule flags).
Proof.
  intros HF. apply try_map_Ok. induction HF as [|s l Hs _ IH]; constructor; [|done].
  unfold flag_of_value, flag_rule. by rewrite from_utf8_lossy_valid.
Qed.

Lemma passwords_read l : Forall (fun s => utf8_valid s = true) l ->
  passwords_of_value (Array (map BulkString l)) = Ok (map AddHashedPass l).
Proof.
  intros HF. apply try_map_Ok. induction HF as [|s l Hs _ IH]; constructor; [|done].
  cbn -[from_utf8]. unfold from_utf8. by rewrite Hs.
Qed.

Lemma commands_read l : Forall command_rule_ok l ->
  commands_of_value (BulkString (join_space (map Rule_arg l))) = Ok l.
Proof.
  intros HF. unfold commands_of_value, from_utf8. rewrite join_utf8; cbn [map_err mbind result_bind].
  - rewrite split_terminator_join.
    + apply try_map_Ok. induction HF as [|r l Hr _ IH]; constructor; [by apply command_rule_arg | done].
    + apply Forall_map. eapply Forall_impl; [exact HF|]. intros r Hr%command_rule_arg. by destruct_and! Hr.
  - apply Forall_map. eapply Forall_impl; [exact HF|]. intros r Hr%command_rule_arg. by destruct_and! Hr.
Qed.

Lemma keys_read l : Forall (Forall visible) l ->
  keys_of_value (BulkString (join_space (map (app (bs "~")) l))) = Ok (map key_rule l).
Proof.
  intros Hl. destruct (tagged_words_read x7e l) as (s & Hs & Hm); [by vm_compute | done | done |].
  unfold keys_of_value. change (bs "~") with [x7e]. rewrite Hs. cbn [mbind result_bind].
  by rewrite <- (map_map (strip_prefix [x7e]) key_rule), Hm.
Qed.

Lemma channels_read l : Forall (Forall visible) l ->
  channels_of_value (BulkString (join_space (map (app (bs "&")) l))) = Ok (map Rule_Channel l).
Proof.
  intros Hl. destruct (tagged_words_read x26 l) as (s & Hs & Hm); [by vm_compute | done | done |].
  unfold channels_of_value. change (bs "&") with [x26]. rewrite Hs. cbn [mbind result_bind].
  by rewrite <- (map_map (strip_prefix [x26]) Rule_Channel), Hm.
Qed.
(** The pairs of the reply, by their names. *)
Lemma handle_flags acl v sel : handle_pair acl (BulkString (bs "flags")) v sel =
  (r ← flags_of_value v; Ok {| acl_flags := r; acl_passwords := acl_passwords acl; acl_commands := acl_commands acl; acl_keys := acl_keys acl; acl_channels := acl_channels acl; acl_selectors := acl_selectors acl |}).
Proof. reflexivity. Qed.
Lemma handle_passwords acl v sel : handle_pair acl (BulkString (bs "passwords")) v sel =
  (r ← passwords_of_value v; Ok {| acl_flags := acl_flags acl; acl_passwords := r; acl_commands := acl_commands acl; acl_keys := acl_keys acl; acl_channels := acl_channels acl; acl_selectors := acl_selectors acl |}).
Proof. reflexivity. Qed.
Lemma handle_commands acl v sel : handle_pair acl (BulkString (bs "commands")) v sel =
  (r ← commands_of_value v; Ok {| acl_flags := acl_flags acl; acl_passwords := acl_passwords acl; acl_commands := r; acl_keys := acl_keys acl; acl_channels := acl_channels acl; acl_selectors := acl_selectors acl |}).
Proof. reflexivity. Qed.
Lemma handle_keys acl v sel : handle_pair acl (BulkString (bs "keys")) v sel =
  (r ← keys_of_value v; Ok {| acl_flags := acl_flags acl; acl_passwords := acl_passwords acl; acl_commands := acl_commands acl; acl_keys := r; acl_channels := acl_channels acl; acl_selectors := acl_selectors acl |}).
Proof. reflexivity. Qed.
Lemma handle_channels acl v sel : handle_pair acl (BulkString (bs "channels")) v sel =
  (r ← channels_of_value v; Ok {| acl_flags := acl_flags acl; acl_passwords := acl_passwords acl; acl_commands := acl_commands acl; acl_keys := acl_keys acl; acl_channels := r; acl_selectors := acl_selectors acl |}).
Proof. reflexivity. Qed.
End user.

(** The description of a user is understood as the flags, password hashes,
    command rules, key patterns and channel patterns the server lists; a rule on
    commands is read as the rule that is sent for it. *)
Theorem acl_user_read `{F64Display} (flags passwords : list bytes) (commands : list Rule)
    (keys channels : list bytes) (Hf : Forall (fun s => utf8_valid s = true) flags)
    (Hp : Forall (fun s => utf8_valid s = true) passwords) (Hc : Forall command_rule_ok commands)
    (Hk : Forall (Forall visible) keys) (Hch : Forall (Forall visible) channels) :
  from_redis_value frv_acl (getuser_value flags passwords commands keys channels) =
  Ok {| acl_flags := map flag_rule flags; acl_passwords := map AddHashedPass passwords;
        acl_commands := commands; acl_keys := map key_rule keys;
        acl_channels := map Rule_Channel channels; acl_selectors := [] |}.
Proof.
  unfold getuser_value. cbn [from_redis_value frv_acl frv_owned frv_default acl_of_value].
  change (Nat.eqb (length _ mod 2) 0) with true. cbv iota.
  rewrite handle_flags, flags_read by done. cbn [mbind result_bind].
  rewrite handle_passwords, passwords_read by done. cbn [mbind result_bind].
  rewrite handle_commands, commands_read by done. cbn [mbind result_bind].
  rewrite handle_keys, keys_read by done. cbn [mbind result_bind].
  by rewrite handle_channels, channels_read by done.
Qed.

(** A pattern with a permission is taken for a pattern of that name: sent again,
    it is another rule. *)
Lemma key_permission_not_read_back `{F64Display} :
  keys_of_value (BulkString (bs "%R~app:*")) = Ok [Pattern (bs "%R~app:*")] /\
  Rule_arg (Pattern (bs "%R~app:*")) = bs "~%R~app:*".
Proof. split; vm_compute; reflexivity. Qed.

(** The rules of several selectors are put together in one list without
    [Selector], so that selectors of one command each read like one selector of
    both commands. *)
Lemma selectors_flattened `{F64Display} (c1 c2 : bytes) :
  x20 ∉ c1 -> x20 ∉ c2 -> starts_with (bs "@") c1 = false -> starts_with (bs "@") c2 = false ->
  utf8_valid c1 = true -> utf8_valid c2 = true ->
  let selector rules := Map [(BulkString (bs "commands"), BulkString (join_space (map Rule_arg rules)))] in
  let user selectors := Map [(BulkString (bs "selectors"), Array selectors)] in
  from_redis_value frv_acl (user [selector [AddCommand c1]; selector [AddCommand c2]]) =
  from_redis_value frv_acl (user [selector [AddCommand c1; AddCommand c2]]).
Proof.
  intros H1 H2 A1 A2 U1 U2 selector user.
  cbn [from_redis_value frv_acl frv_owned frv_default acl_of_value].
  assert (Forall command_rule_ok [AddCommand c1; AddCommand c2]) as Hc by (by repeat constructor).
  apply Forall_cons in Hc as [Hc1 Hc2]. apply Forall_cons in Hc2 as [Hc2 _].
  unfold user, selector. cbn [acl_of_value]. rewrite !handle_commands, !commands_read by (by repeat constructor).
  reflexivity.
Qed.

(** ACL LOAD and ACL CAT have no entry in the routing table: the name of the
    subcommand is taken for a key, and one node gets the command, where ACL SAVE
    goes to all nodes. *)
Lemma acl_subcommand_as_key `{Crc16} `{HashOrder} :
  routed_by_key "ACL LOAD" (bs "LOAD") acl_load /\ routed_by_key "ACL CAT" (bs "CAT") acl_cat /\
  exists c, acl_save = Some c /\ for_routable c = Some (Some (MultiNode AllNodes (Some AllSucceeded))).
Proof.
  split_and!.
  - eexists. split; [reflexivity|]. vm_compute. reflexivity.
  - eexists. split; [reflexivity|]. vm_compute. reflexivity.
  - eexists. split; [reflexivity|]. vm_compute. reflexivity.
Qed.

(** A user with one key pattern and one command. *)
Lemma acl_user_read_witness : let d := (fun _ => bs "1.5") : F64Display in
  from_redis_value (frv_acl (H := d))
    (getuser_value [bs "on"] [] [RemoveCategory (bs "all"); AddCommand (bs "get")] [bs "app:*"] []) =
  Ok {| acl_flags := [On]; acl_passwords := [];
        acl_commands := [RemoveCategory (bs "all"); AddCommand (bs "get")];
        acl_keys := [Pattern (bs "app:*")]; acl_channels := []; acl_selectors := [] |}.
Proof.
  intros d. apply (acl_user_read [bs "on"] [] [RemoveCategory (bs "all"); AddCommand (bs "get")]
    [bs "app:*"] []); repeat constructor; try (by vm_compute); apply (bool_decide_unpack _); by vm_compute.
Defined.
