(* ===== verification/Json.v ===== *)
(** * JSON commands: [commands/json.rs]

    The builders of [implement_json_commands!]; serialising a value may fail, so
    a builder returns an error instead of a command.  The theorems: the builders
    are routed by their key, and JSON.MSET is built as the triples the splitting
    by slot expects. *)

From S2P Require Import Prelude Text Errors Types Cmd Convert Args Slots Routing Commands.

(** [serde_json::to_string] of a type with [Serialize], its error converted with
    [From<serde_json::Error>]; of the serde crates: any function. *)
Class Serialize (V : Type) := serialize : V -> result RedisError bytes.

(** A command or an error; [None] is a panic. *)
Abbreviation JsonCommand := (option (result RedisError Cmd)).

Definition json_ok (c : Command) : JsonCommand := Ok <$> c.
Definition with_json {V} `{Serialize V} (value : V) (k : bytes -> Command) : JsonCommand :=
  match serialize value with
  | Ok json => json_ok (k json)
  | Err e => Some (Err e)
  end.

Inductive FphaType := Bf16 | Fp16 | Fp32 | Fp64.
Definition FphaType_args (t : FphaType) : list bytes :=
  match t with
  | Bf16 => [lit "BF16"] | Fp16 => [lit "FP16"] | Fp32 => [lit "FP32"] | Fp64 => [lit "FP64"]
  end.

Record JsonSetOptions := {
  json_conditional : option ExistenceCheck;
  json_fpha_type : option FphaType
}.
Definition JsonSetOptions_default : JsonSetOptions := {| json_conditional := None; json_fpha_type := None |}.
Definition json_conditional_set (o : JsonSetOptions) (e : ExistenceCheck) : JsonSetOptions :=
  {| json_conditional := Some e; json_fpha_type := json_fpha_type o |}.
Definition fpha (o : JsonSetOptions) (t : FphaType) : JsonSetOptions :=
  {| json_conditional := json_conditional o; json_fpha_type := Some t |}.
Definition JsonSetOptions_args (o : JsonSetOptions) : list bytes :=
  if_some (json_conditional o) ExistenceCheck_args ++
  if_some (json_fpha_type o) (fun ty => lit "FPHA" :: FphaType_args ty).
#[export] Instance tra_json_set_options : ToRedisArgs JsonSetOptions := tra_list JsonSetOptions_args.

Section builders.
Context {K P V : Type}.
Context `{AK : ToRedisArgs K} `{AP : ToRedisArgs P} `{Serialize V}.

Definition json_arr_append (key : K) (path : P) (value : V) : JsonCommand :=
  with_json value (fun json => taken (CMD "JSON.ARRAPPEND" ▷ key ▷ path ▷ json)).
Definition json_arr_index (key : K) (path : P) (value : V) : JsonCommand :=
  with_json value (fun json => taken (CMD "JSON.ARRINDEX" ▷ key ▷ path ▷ json)).
Definition json_arr_index_ss (key : K) (path : P) (value : V) (start stop : Z) : JsonCommand :=
  with_json value (fun json => taken (CMD "JSON.ARRINDEX" ▷ key ▷ path ▷ json ▷ start ▷ stop)).
Definition json_arr_insert (key : K) (path : P) (index : Z) (value : V) : JsonCommand :=
  with_json value (fun json => taken (CMD "JSON.ARRINSERT" ▷ key ▷ path ▷ index ▷ json)).
Definition json_arr_len (key : K) (path : P) : JsonCommand :=
  json_ok (taken (CMD "JSON.ARRLEN" ▷ key ▷ path)).
Definition json_arr_pop (key : K) (path : P) (index : Z) : JsonCommand :=
  json_ok (taken (CMD "JSON.ARRPOP" ▷ key ▷ path ▷ index)).
Definition json_arr_trim (key : K) (path : P) (start stop : Z) : JsonCommand :=
  json_ok (taken (CMD "JSON.ARRTRIM" ▷ key ▷ path ▷ start ▷ stop)).
Definition json_clear (key : K) (path : P) : JsonCommand :=
  json_ok (taken (CMD "JSON.CLEAR" ▷ key ▷ path)).
Definition json_del (key : K) (path : P) : JsonCommand :=
  json_ok (taken (CMD "JSON.DEL" ▷ key ▷ path)).
Definition json_get (key : K) (path : P) : JsonCommand :=
  json_ok (taken (CMD "JSON.GET" ▷ key ▷ path)).
Definition json_mget (key : K) (path : P) : JsonCommand :=
  json_ok (taken (CMD "JSON.MGET" ▷ key ▷ path)).
Definition json_num_incr_by (key : K) (path : P) (value : Z) : JsonCommand :=
  json_ok (taken (CMD "JSON.NUMINCRBY" ▷ key ▷ path ▷ value)).
Definition json_obj_keys (key : K) (path : P) : JsonCommand :=
  json_ok (taken (CMD "JSON.OBJKEYS" ▷ key ▷ path)).
Definition json_obj_len (key : K) (path : P) : JsonCommand :=
  json_ok (taken (CMD "JSON.OBJLEN" ▷ key ▷ path)).
Definition json_set (key : K) (path : P) (value : V) : JsonCommand :=
  with_json value (fun json => taken (CMD "JSON.SET" ▷ key ▷ path ▷ json)).
Definition json_set_options (key : K) (path : P) (value : V) (options : JsonSetOptions) :
    JsonCommand :=
  with_json value (fun json => taken (CMD "JSON.SET" ▷ key ▷ path ▷ json ▷ options)).
Definition json_mset (key_path_values : list (K * P * V)) : JsonCommand :=
  foldl (fun cmd '(key, path, value) =>
           r ← cmd;
           match r with
           | Err e => Some (Err e)
           | Ok cmd => with_json value (fun json => Some cmd ▷ key ▷ path ▷ json)
           end) (json_ok (CMD "JSON.MSET")) key_path_values.
Definition json_str_append {V} `{AV : ToRedisArgs V} (key : K) (path : P) (value : V) : JsonCommand :=
  json_ok (taken (CMD "JSON.STRAPPEND" ▷ key ▷ path ▷ value)).
Definition json_str_len (key : K) (path : P) : JsonCommand :=
  json_ok (taken (CMD "JSON.STRLEN" ▷ key ▷ path)).
Definition json_toggle (key : K) (path : P) : JsonCommand :=
  json_ok (taken (CMD "JSON.TOGGLE" ▷ key ▷ path)).
Definition json_type (key : K) (path : P) : JsonCommand :=
  json_ok (taken (CMD "JSON.TYPE" ▷ key ▷ path)).
End builders.

(** The builders that take one key. *)
Inductive on_json : string -> bytes -> JsonCommand -> Prop :=
| on_json_arr_append `{ToSingleRedisArg K} `{ToSingleRedisArg P} `{Serialize V} (key : K)
    (path : P) (value : V) :
    on_json "JSON.ARRAPPEND" (single_arg key) (json_arr_append key path value)
| on_json_arr_index `{ToSingleRedisArg K} `{ToSingleRedisArg P} `{Serialize V} (key : K)
    (path : P) (value : V) :
    on_json "JSON.ARRINDEX" (single_arg key) (json_arr_index key path value)
| on_json_arr_index_ss `{ToSingleRedisArg K} `{ToSingleRedisArg P} `{Serialize V} (key : K)
    (path : P) (value : V) (start stop : Z) :
    on_json "JSON.ARRINDEX" (single_arg key) (json_arr_index_ss key path value start stop)
| on_json_arr_insert `{ToSingleRedisArg K} `{ToSingleRedisArg P} `{Serialize V} (key : K)
    (path : P) (index : Z) (value : V) :
    on_json "JSON.ARRINSERT" (single_arg key) (json_arr_insert key path index value)
| on_json_arr_len `{ToSingleRedisArg K} `{ToSingleRedisArg P} (key : K) (path : P) :
    on_json "JSON.ARRLEN" (single_arg key) (json_arr_len key path)
| on_json_arr_pop `{ToSingleRedisArg K} `{ToSingleRedisArg P} (key : K) (path : P) (index : Z) :
    on_json "JSON.ARRPOP" (single_arg key) (json_arr_pop key path index)
| on_json_arr_trim `{ToSingleRedisArg K} `{ToSingleRedisArg P} (key : K) (path : P)
    (start stop : Z) :
    on_json "JSON.ARRTRIM" (single_arg key) (json_arr_trim key path start stop)
| on_json_clear `{ToSingleRedisArg K} `{ToSingleRedisArg P} (key : K) (path : P) :
    on_json "JSON.CLEAR" (single_arg key) (json_clear key path)
| on_json_del `{ToSingleRedisArg K} `{ToSingleRedisArg P} (key : K) (path : P) :
    on_json "JSON.DEL" (single_arg key) (json_del key path)
| on_json_get `{ToSingleRedisArg K} `{Writes P} (key : K) (path : P) :
    on_json "JSON.GET" (single_arg key) (json_get key path)
| on_json_num_incr_by `{ToSingleRedisArg K} `{ToSingleRedisArg P} (key : K) (path : P)
    (value : Z) :
    on_json "JSON.NUMINCRBY" (single_arg key) (json_num_incr_by key path value)
| on_json_obj_keys `{ToSingleRedisArg K} `{ToSingleRedisArg P} (key : K) (path : P) :
    on_json "JSON.OBJKEYS" (single_arg key) (json_obj_keys key path)
| on_json_obj_len `{ToSingleRedisArg K} `{ToSingleRedisArg P} (key : K) (path : P) :
    on_json "JSON.OBJLEN" (single_arg key) (json_obj_len key path)
| on_json_set `{ToSingleRedisArg K} `{ToSingleRedisArg P} `{Serialize V} (key : K) (path : P)
    (value : V) :
    on_json "JSON.SET" (single_arg key) (json_set key path value)
| on_json_set_options `{ToSingleRedisArg K} `{ToSingleRedisArg P} `{Serialize V} (key : K)
    (path : P) (value : V) (options : JsonSetOptions) :
    on_json "JSON.SET" (single_arg key) (json_set_options key path value options)
| on_json_str_append `{ToSingleRedisArg K} `{ToSingleRedisArg P} `{ToSingleRedisArg V} (key : K)
    (path : P) (value : V) :
    on_json "JSON.STRAPPEND" (single_arg key) (json_str_append key path value)
| on_json_str_len `{ToSingleRedisArg K} `{ToSingleRedisArg P} (key : K) (path : P) :
    on_json "JSON.STRLEN" (single_arg key) (json_str_len key path)
| on_json_toggle `{ToSingleRedisArg K} `{ToSingleRedisArg P} (key : K) (path : P) :
    on_json "JSON.TOGGLE" (single_arg key) (json_toggle key path)
| on_json_type `{ToSingleRedisArg K} `{ToSingleRedisArg P} (key : K) (path : P) :
    on_json "JSON.TYPE" (single_arg key) (json_type key path).

(** A JSON command goes to a node of the slot of its key, or is not built because
    a value cannot be serialised. *)
Lemma json_commands_routed `{Crc16} `{HashOrder} name key b : on_json name key b ->
  (exists e, b = Some (Err e)) \/ exists c, b = Some (Ok c) /\ routed_by_key name key (Some c).
Proof.
  assert (forall c, routed_by_key name key c ->
    (exists e, json_ok c = Some (Err e)) \/
    exists c', json_ok c = Some (Ok c') /\ routed_by_key name key (Some c')) as Hok.
  { intros c (c' & -> & Hr). right. exists c'. split; [done|]. by exists c'. }
  destruct 1; try (apply Hok; solve_route); unfold json_arr_append, json_arr_index, json_arr_index_ss,
    json_arr_insert, json_set, json_set_options, with_json;
    (destruct (serialize value); [apply Hok; solve_route | eauto]).
Qed.

(** The arguments of a triple. *)
Definition triple_args `{ToSingleRedisArg K} `{ToSingleRedisArg P} {V} (json : V -> bytes) (t : K * P * V)
    : list bytes := [single_arg t.1.1; single_arg t.1.2; json t.2].

Lemma mset_fold `{ToSingleRedisArg K} `{ToSingleRedisArg P} `{Serialize V} (l : list (K * P * V))
    (json : V -> bytes) c pre :
  Forall (fun t => serialize t.2 = Ok (json t.2)) l -> built (Some c) pre ->
  exists c', foldl (fun cmd '(key, path, value) =>
      r ← cmd;
      match r with
      | Err e => Some (Err e)
      | Ok cmd => with_json value (fun json => Some cmd ▷ key ▷ path ▷ json)
      end) (Some (Ok c)) l = Some (Ok c') /\
    built (Some c') (pre ++ concat (map (triple_args json) l)).
Proof.
  intros Hl. revert c pre. induction Hl as [|[[k p] v] l Hv _ IH]; intros c pre Hc.
  - exists c. split; [done|]. by rewrite app_nil_r.
  - cbn [foldl mbind option_bind]. unfold with_json. simpl in Hv. rewrite Hv.
    assert (built (Some c ▷ k ▷ p ▷ json v) (pre ++ triple_args json (k, p, v))) as Ht.
    { change (triple_args json (k, p, v)) with ([single_arg k] ++ [single_arg p] ++ [json v]).
      rewrite !app_assoc. solve_built. done. }
    destruct Ht as (c1 & Hc1 & Ht). rewrite Hc1. cbn [json_ok fmap option_fmap option_map].
    destruct (IH c1 (pre ++ triple_args json (k, p, v))) as (c' & Hc' & Hb); [by exists c1|].
    exists c'. split; [done|]. cbn [map concat]. by rewrite app_assoc.
Qed.

Lemma triples_length `{ToSingleRedisArg K} `{ToSingleRedisArg P} {V} (json : V -> bytes) (l : list (K * P * V)) :
  length (concat (map (triple_args json) l)) = (length l * 3)%nat.
Proof. induction l as [|t l IH]; [done|]. simpl. by rewrite IH. Qed.

(** JSON.MSET is the triples in their order, each with the text of its value:
    what the splitting by slot ([KeyWithTwoArgTriples]) expects. *)
Theorem json_mset_built `{ToSingleRedisArg K} `{ToSingleRedisArg P} `{Serialize V}
    (l : list (K * P * V)) (json : V -> bytes)
    (Hl : Forall (fun t => serialize t.2 = Ok (json t.2)) l) :
  let arguments := concat (map (triple_args json) l) in
  exists c, json_mset l = Some (Ok c) /\ built (Some c) (bs "JSON.MSET" :: arguments) /\
  (l <> [] -> complete KeyWithTwoArgTriples arguments = true).
Proof.
  intros arguments. destruct (mset_fold l json (cmd "JSON.MSET") [bs "JSON.MSET"] Hl) as (c & Hc & Hb);
    [apply built_cmd|].
  exists c. split_and!; [exact Hc | exact Hb |]. intros Hne. unfold complete, arguments.
  rewrite triples_length. change (width KeyWithTwoArgTriples) with 3. rewrite Nat.Div0.mod_mul. by destruct l.
Qed.

(** Two documents. *)
Lemma json_mset_built_witness : let ser := (fun v : bytes => Ok v) : Serialize bytes in
  exists c, json_mset [(bs "a", bs "$", bs "1"); (bs "b", bs "$", bs "2")] = Some (Ok c) /\
  built (Some c) [bs "JSON.MSET"; bs "a"; bs "$"; bs "1"; bs "b"; bs "$"; bs "2"].
Proof.
  intros ser. destruct (json_mset_built [(bs "a", bs "$", bs "1"); (bs "b", bs "$", bs "2")] (fun v => v))
    as (c & Hc & Hb & _); [by repeat constructor|]. by exists c.
Defined.
