(* ===== verification/VectorSets.v ===== *)
(** * Vector sets: [commands/vector_sets.rs] and its builders in [commands/mod.rs]

    Vectors as arguments, in text and in binary, and the options of VADD, VEMB
    and VSIM.  The theorems: the builders are routed by their key, the binary
    form of a vector is read back, and the vector of a command ends where its
    length says. *)

From S2P Require Import Prelude Text Float64 Errors Types Cmd Convert Args Slots Routing Commands Json.

(** ** Vectors *)

(** An [f32] as its bits. *)
Definition f32 : Type := Z.
(** [f32::to_le_bytes]. *)
Definition to_le_bytes (x : f32) : bytes :=
  map (fun i => Z_byte (Z.shiftr x (8 * i) mod 256)) [0; 1; 2; 3]%Z.
(** [f32] printed with [Display]. *)
Class F32Display := f32_to_string : f32 -> bytes.

(** [serde_json::Value], of the serde_json crate, and the text that
    [serde_json::to_vec] gives; [None] where it fails. *)
Class JsonValue (J : Type) := json_to_vec : J -> option bytes.

Inductive EmbeddingInput :=
| Float32 (vector : list f32)
| Float64 (vector : list f64)
| Embedding_String (vector : list bytes).
Inductive VectorAddInput := Add_Fp32 (vector : list f32) | Add_Values (input : EmbeddingInput).
Inductive VectorSimilaritySearchInput :=
| Sim_Fp32 (vector : list f32)
| Sim_Values (input : EmbeddingInput)
| Sim_Element (element : bytes).

Section vectors.
Context `{F32Display} `{F64Display}.

Definition EmbeddingInput_args (i : EmbeddingInput) : list bytes :=
  match i with
  | Float32 vector => itoa (Z.of_nat (length vector)) :: map f32_to_string vector
  | Float64 vector => itoa (Z.of_nat (length vector)) :: map f64_to_string vector
  | Embedding_String vector => itoa (Z.of_nat (length vector)) :: vector
  end.
Definition VectorAddInput_args (i : VectorAddInput) : list bytes :=
  match i with
  | Add_Fp32 vector => [lit "FP32"; concat (map to_le_bytes vector)]
  | Add_Values embedding_input => lit "VALUES" :: EmbeddingInput_args embedding_input
  end.
Definition VectorSimilaritySearchInput_args (i : VectorSimilaritySearchInput) : list bytes :=
  match i with
  | Sim_Fp32 vector => [lit "FP32"; concat (map to_le_bytes vector)]
  | Sim_Values embedding_input => lit "VALUES" :: EmbeddingInput_args embedding_input
  | Sim_Element element => [lit "ELE"; element]
  end.
#[export] Instance tra_vector_add : ToRedisArgs VectorAddInput := tra_list VectorAddInput_args.
#[export] Instance tra_vector_sim : ToRedisArgs VectorSimilaritySearchInput :=
  tra_list VectorSimilaritySearchInput_args.
End vectors.

(** ** Options *)

Record VSimOptions := {
  with_scores : bool;
  vsim_count : option Z;
  search_exploration_factor : option Z;
  vsim_filter : option bytes;
  filter_max_effort : option Z;
  truth : bool;
  no_thread : bool
}.
Definition VSimOptions_default : VSimOptions :=
  {| with_scores := false; vsim_count := None; search_exploration_factor := None; vsim_filter := None;
     filter_max_effort := None; truth := false; no_thread := false |}.
Definition set_with_scores (o : VSimOptions) (enabled : bool) : VSimOptions :=
  {| with_scores := enabled; vsim_count := vsim_count o;
     search_exploration_factor := search_exploration_factor o; vsim_filter := vsim_filter o;
     filter_max_effort := filter_max_effort o; truth := truth o; no_thread := no_thread o |}.
Definition set_count (o : VSimOptions) (count : Z) : VSimOptions :=
  {| with_scores := with_scores o; vsim_count := Some count;
     search_exploration_factor := search_exploration_factor o; vsim_filter := vsim_filter o;
     filter_max_effort := filter_max_effort o; truth := truth o; no_thread := no_thread o |}.
Definition set_search_exploration_factor (o : VSimOptions) (factor : Z) : VSimOptions :=
  {| with_scores := with_scores o; vsim_count := vsim_count o;
     search_exploration_factor := Some factor; vsim_filter := vsim_filter o;
     filter_max_effort := filter_max_effort o; truth := truth o; no_thread := no_thread o |}.
Definition set_filter_expression (o : VSimOptions) (expression : bytes) : VSimOptions :=
  {| with_scores := with_scores o; vsim_count := vsim_count o;
     search_exploration_factor := search_exploration_factor o;
     vsim_filter := Some expression; filter_max_effort := filter_max_effort o;
     truth := truth o; no_thread := no_thread o |}.
Definition set_max_filtering_effort (o : VSimOptions) (effort : Z) : VSimOptions :=
  {| with_scores := with_scores o; vsim_count := vsim_count o;
     search_exploration_factor := search_exploration_factor o; vsim_filter := vsim_filter o;
     filter_max_effort := Some effort; truth := truth o; no_thread := no_thread o |}.
Definition set_truth (o : VSimOptions) (enabled : bool) : VSimOptions :=
  {| with_scores := with_scores o; vsim_count := vsim_count o;
     search_exploration_factor := search_exploration_factor o; vsim_filter := vsim_filter o;
     filter_max_effort := filter_max_effort o; truth := enabled; no_thread := no_thread o |}.
Definition set_no_thread (o : VSimOptions) (enabled : bool) : VSimOptions :=
  {| with_scores := with_scores o; vsim_count := vsim_count o;
     search_exploration_factor := search_exploration_factor o; vsim_filter := vsim_filter o;
     filter_max_effort := filter_max_effort o; truth := truth o; no_thread := enabled |}.
Definition VSimOptions_args (o : VSimOptions) : list bytes :=
  if_set (with_scores o) [lit "WITHSCORES"] ++
  if_some (vsim_count o) (fun count => [lit "COUNT"; itoa count]) ++
  if_some (search_exploration_factor o) (fun ef => [lit "EF"; itoa ef]) ++
  if_some (vsim_filter o) (fun filter => [lit "FILTER"; filter]) ++
  if_some (filter_max_effort o) (fun filter_ef => [lit "FILTER-EF"; itoa filter_ef]) ++
  if_set (truth o) [lit "TRUTH"] ++
  if_set (no_thread o) [lit "NOTHREAD"].
#[export] Instance tra_vsim_options : ToRedisArgs VSimOptions := tra_list VSimOptions_args.

Inductive VectorQuantization := NoQuant | Q8 | Bin.
Definition VectorQuantization_arg (q : VectorQuantization) : bytes :=
  match q with NoQuant => lit "NOQUANT" | Q8 => lit "Q8" | Bin => lit "BIN" end.

Record VAddOptions (J : Type) := {
  reduction_dimension : option Z;
  enable_check_and_set_style : bool;
  vector_quantization : option VectorQuantization;
  build_exploration_factor : option Z;
  attributes : option J;
  max_number_of_links : option Z
}.
Arguments reduction_dimension {J}.
Arguments enable_check_and_set_style {J}.
Arguments vector_quantization {J}.
Arguments build_exploration_factor {J}.
Arguments attributes {J}.
Arguments max_number_of_links {J}.

Section vadd_options.
Context {J : Type} `{JsonValue J}.

Definition VAddOptions_default : VAddOptions J :=
  {| reduction_dimension := None; enable_check_and_set_style := false; vector_quantization := None;
     build_exploration_factor := None; attributes := None; max_number_of_links := None |}.
Definition set_reduction_dimension (o : VAddOptions J) (dimension : Z) : VAddOptions J :=
  {| reduction_dimension := Some dimension;
     enable_check_and_set_style := enable_check_and_set_style o;
     vector_quantization := vector_quantization o;
     build_exploration_factor := build_exploration_factor o; attributes := attributes o;
     max_number_of_links := max_number_of_links o |}.
Definition set_check_and_set_style (o : VAddOptions J) (cas_enabled : bool) : VAddOptions J :=
  {| reduction_dimension := reduction_dimension o;
     enable_check_and_set_style := cas_enabled;
     vector_quantization := vector_quantization o;
     build_exploration_factor := build_exploration_factor o; attributes := attributes o;
     max_number_of_links := max_number_of_links o |}.
Definition set_quantization (o : VAddOptions J) (quantization : VectorQuantization) : VAddOptions J :=
  {| reduction_dimension := reduction_dimension o;
     enable_check_and_set_style := enable_check_and_set_style o;
     vector_quantization := Some quantization;
     build_exploration_factor := build_exploration_factor o; attributes := attributes o;
     max_number_of_links := max_number_of_links o |}.
Definition set_build_exploration_factor (o : VAddOptions J) (factor : Z) : VAddOptions J :=
  {| reduction_dimension := reduction_dimension o;
     enable_check_and_set_style := enable_check_and_set_style o;
     vector_quantization := vector_quantization o; build_exploration_factor := Some factor;
     attributes := attributes o; max_number_of_links := max_number_of_links o |}.
Definition set_attributes (o : VAddOptions J) (attrs : J) : VAddOptions J :=
  {| reduction_dimension := reduction_dimension o;
     enable_check_and_set_style := enable_check_and_set_style o;
     vector_quantization := vector_quantization o;
     build_exploration_factor := build_exploration_factor o; attributes := Some attrs;
     max_number_of_links := max_number_of_links o |}.
Definition set_max_number_of_links (o : VAddOptions J) (links : Z) : VAddOptions J :=
  {| reduction_dimension := reduction_dimension o;
     enable_check_and_set_style := enable_check_and_set_style o;
     vector_quantization := vector_quantization o;
     build_exploration_factor := build_exploration_factor o; attributes := attributes o;
     max_number_of_links := Some links |}.
(** [None]: the attributes cannot be serialised, and [unwrap] panics. *)
Definition VAddOptions_args (o : VAddOptions J) : option (list bytes) :=
  attrs ← (match attributes o with
           | Some attrs => json ← json_to_vec attrs; Some [lit "SETATTR"; json]
           | None => Some []
           end : option (list bytes));
  Some (if_set (enable_check_and_set_style o) [lit "CAS"] ++
        if_some (vector_quantization o) (fun quantization => [VectorQuantization_arg quantization]) ++
        if_some (build_exploration_factor o) (fun factor => [lit "EF"; itoa factor]) ++
        attrs ++
        if_some (max_number_of_links o) (fun max_links => [lit "M"; itoa max_links])).
#[export] Instance tra_vadd_options : ToRedisArgs (VAddOptions J) :=
  tra_default VAddOptions_args (fun _ => NonNumeric) (fun _ => 1%nat).
End vadd_options.

Record VEmbOptions := { raw_representation : bool }.
Definition VEmbOptions_default : VEmbOptions := {| raw_representation := false |}.
Definition set_raw_representation (o : VEmbOptions) (enabled : bool) : VEmbOptions :=
  {| raw_representation := enabled |}.
Definition VEmbOptions_args (o : VEmbOptions) : list bytes := if_set (raw_representation o) [lit "RAW"].
#[export] Instance tra_vemb_options : ToRedisArgs VEmbOptions := tra_list VEmbOptions_args.

(** ** Builders *)

(** Whether [serde_json::to_value] gives an empty string. *)
Class IsEmptyString (J : Type) := is_empty_string : J -> bool.

Section builders.
Context {K E J A : Type}.
Context `{AK : ToRedisArgs K} `{AE : ToRedisArgs E} `{Serialize J} `{IsEmptyString J}
  `{JsonValue A} `{F32Display} `{F64Display}.
Definition vadd (key : K) (input : VectorAddInput) (element : E) : Command :=
  taken (CMD "VADD" ▷ key ▷ input ▷ element).
Definition vadd_options (key : K) (input : VectorAddInput) (element : E) (options : VAddOptions A) :
    Command :=
  taken (CMD "VADD" ▷ key ▷ ((fun _ => lit "REDUCE") <$> reduction_dimension options)
    ▷ reduction_dimension options ▷ input ▷ element ▷ options).
Definition vcard (key : K) : Command := taken (CMD "VCARD" ▷ key).
Definition vdim (key : K) : Command := taken (CMD "VDIM" ▷ key).
Definition vemb (key : K) (element : E) : Command := taken (CMD "VEMB" ▷ key ▷ element).
Definition vemb_options (key : K) (element : E) (options : VEmbOptions) : Command :=
  taken (CMD "VEMB" ▷ key ▷ element ▷ options).
Definition vrem (key : K) (element : E) : Command := taken (CMD "VREM" ▷ key ▷ element).
Definition vsetattr (key : K) (element : E) (json_object : J) : Command :=
  attributes_json ← (if is_empty_string json_object then Some [] else to_option (serialize json_object));
  taken (CMD "VSETATTR"
    ▷ key ▷ element ▷ (attributes_json : bytes)).
Definition vdelattr (key : K) (element : E) : Command :=
  taken (CMD "VSETATTR" ▷ key ▷ element ▷' "").
Definition vgetattr (key : K) (element : E) : Command := taken (CMD "VGETATTR" ▷ key ▷ element).
Definition vinfo (key : K) : Command := taken (CMD "VINFO" ▷ key).
Definition vlinks (key : K) (element : E) : Command := taken (CMD "VLINKS" ▷ key ▷ element).
Definition vlinks_with_scores (key : K) (element : E) : Command :=
  taken (CMD "VLINKS" ▷ key ▷ element ▷' "WITHSCORES").
Definition vrandmember (key : K) : Command := taken (CMD "VRANDMEMBER" ▷ key).
Definition vrandmember_multiple (key : K) (count : Z) : Command :=
  taken (CMD "VRANDMEMBER" ▷ key ▷ count).
Definition vsim (key : K) (input : VectorSimilaritySearchInput) : Command :=
  taken (CMD "VSIM" ▷ key ▷ input).
Definition vsim_options (key : K) (input : VectorSimilaritySearchInput) (options : VSimOptions) :
    Command :=
  taken (CMD "VSIM" ▷ key ▷ input ▷ options).
End builders.

(** The builders that take the key of a vector set, whose first argument is [k]. *)
Inductive on_vector `{F32Display} `{F64Display} : string -> bytes -> Command -> Prop :=
| on_vadd `{AK : ToRedisArgs K} `{Writes E} (key : K) (input : VectorAddInput) (element : E) k
    ks :
    write_redis_args AK key = Some (k :: ks) -> on_vector "VADD" k (vadd key input element)
| on_vadd_options `{AK : ToRedisArgs K} `{Writes E} `{JsonValue J} `{!Writes _ (tra_vadd_options (J := J))}
    (key : K) (input : VectorAddInput) (element : E) (options : VAddOptions J) k ks :
    write_redis_args AK key = Some (k :: ks) ->
    on_vector "VADD" k (vadd_options key input element options)
| on_vsetattr `{AK : ToRedisArgs K} `{Writes E} `{Serialize J} `{IsEmptyString J} (key : K) (element : E)
    (json_object : J) json k ks :
    serialize json_object = Ok json -> write_redis_args AK key = Some (k :: ks) ->
    on_vector "VSETATTR" k (vsetattr key element json_object)
| on_vcard `{AK : ToRedisArgs K} (key : K) k ks :
    write_redis_args AK key = Some (k :: ks) -> on_vector "VCARD" k (vcard key)
| on_vdim `{AK : ToRedisArgs K} (key : K) k ks :
    write_redis_args AK key = Some (k :: ks) -> on_vector "VDIM" k (vdim key)
| on_vemb `{AK : ToRedisArgs K} `{Writes E} (key : K) (element : E) k ks :
    write_redis_args AK key = Some (k :: ks) -> on_vector "VEMB" k (vemb key element)
| on_vemb_options `{AK : ToRedisArgs K} `{Writes E} (key : K) (element : E)
    (options : VEmbOptions) k ks :
    write_redis_args AK key = Some (k :: ks) ->
    on_vector "VEMB" k (vemb_options key element options)
| on_vrem `{AK : ToRedisArgs K} `{Writes E} (key : K) (element : E) k ks :
    write_redis_args AK key = Some (k :: ks) -> on_vector "VREM" k (vrem key element)
| on_vdelattr `{AK : ToRedisArgs K} `{Writes E} (key : K) (element : E) k ks :
    write_redis_args AK key = Some (k :: ks) -> on_vector "VSETATTR" k (vdelattr key element)
| on_vgetattr `{AK : ToRedisArgs K} `{Writes E} (key : K) (element : E) k ks :
    write_redis_args AK key = Some (k :: ks) -> on_vector "VGETATTR" k (vgetattr key element)
| on_vinfo `{AK : ToRedisArgs K} (key : K) k ks :
    write_redis_args AK key = Some (k :: ks) -> on_vector "VINFO" k (vinfo key)
| on_vlinks `{AK : ToRedisArgs K} `{Writes E} (key : K) (element : E) k ks :
    write_redis_args AK key = Some (k :: ks) -> on_vector "VLINKS" k (vlinks key element)
| on_vlinks_with_scores `{AK : ToRedisArgs K} `{Writes E} (key : K) (element : E) k ks :
    write_redis_args AK key = Some (k :: ks) ->
    on_vector "VLINKS" k (vlinks_with_scores key element)
| on_vrandmember `{AK : ToRedisArgs K} (key : K) k ks :
    write_redis_args AK key = Some (k :: ks) -> on_vector "VRANDMEMBER" k (vrandmember key)
| on_vrandmember_multiple `{AK : ToRedisArgs K} (key : K) (count : Z) k ks :
    write_redis_args AK key = Some (k :: ks) ->
    on_vector "VRANDMEMBER" k (vrandmember_multiple key count)
| on_vsim `{AK : ToRedisArgs K} (key : K) (input : VectorSimilaritySearchInput) k ks :
    write_redis_args AK key = Some (k :: ks) -> on_vector "VSIM" k (vsim key input)
| on_vsim_options `{AK : ToRedisArgs K} (key : K) (input : VectorSimilaritySearchInput)
    (options : VSimOptions) k ks :
    write_redis_args AK key = Some (k :: ks) -> on_vector "VSIM" k (vsim_options key input options).

(** Every vector set command goes to a node of the slot of its key. *)
Lemma vector_commands_routed `{F32Display} `{F64Display} `{Crc16} `{HashOrder} name key b :
  on_vector name key b -> routed_by_key name key b.
Proof.
  destruct 1 as [| |K AK E AE ? J ? ? key element json_object json k ks Hs Hk| | | | | | | | | | | | | |];
    try solve_route. unfold vsetattr. rewrite Hs. destruct (is_empty_string json_object); solve_route.
Qed.

(** ** The binary form of a vector *)

(** [f32::from_le_bytes] of every four bytes, as the server reads them. *)
Fixpoint from_le_bytes (b : bytes) : list f32 :=
  match b with
  | b0 :: b1 :: b2 :: b3 :: rest =>
      (byte_Z b0 + Z.shiftl (byte_Z b1) 8 + Z.shiftl (byte_Z b2) 16 + Z.shiftl (byte_Z b3) 24)%Z
      :: from_le_bytes rest
  | _ => []
  end.

Lemma from_to_le_bytes x rest : (0 <= x < 2 ^ 32)%Z ->
  from_le_bytes (to_le_bytes x ++ rest) = x :: from_le_bytes rest.
Proof.
  intros Hx. cbn [to_le_bytes map app from_le_bytes]. f_equal.
  rewrite !byte_Z_Z_byte by (apply Z.mod_pos_bound; lia). rewrite !Z.shiftl_mul_pow2, !Z.shiftr_div_pow2 by lia.
  Z.to_euclidean_division_equations; lia.
Qed.

(** The binary argument of a vector holds four bytes for every number, and the
    server reads the numbers back. *)
Lemma binary_vector_read v : Forall (fun x => 0 <= x < 2 ^ 32)%Z v ->
  from_le_bytes (concat (map to_le_bytes v)) = v.
Proof.
  induction 1 as [|x v Hx _ IH]; [done|]. cbn [map concat]. by rewrite from_to_le_bytes, IH.
Qed.

(** ** Where a vector ends *)

(** The numbers of the text form, in the order of the command. *)
Definition read_values (args : list bytes) : option (list bytes * list bytes) :=
  match args with
  | kw :: n :: rest =>
      if bytes_eqb kw (bs "VALUES") then
        n ← parse_arg u64_ty n;
        if (length rest <? Z.to_nat n)%nat then None else Some (take (Z.to_nat n) rest, drop (Z.to_nat n) rest)
      else None
  | _ => None
  end.

Section delimited.
Context `{F32Display} `{F64Display}.

(** The numbers of a vector as they are written. *)
Definition numbers (i : EmbeddingInput) : list bytes :=
  match i with
  | Float32 vector => map f32_to_string vector
  | Float64 vector => map f64_to_string vector
  | Embedding_String vector => vector
  end.

Lemma embedding_args i : EmbeddingInput_args i = itoa (Z.of_nat (length (numbers i))) :: numbers i.
Proof. destruct i; cbn [EmbeddingInput_args numbers]; by rewrite ?length_map. Qed.

(** In VADD and VSIM the element and the options are found behind the vector,
    whatever its numbers look like. *)
Lemma vector_delimited i rest : (Z.of_nat (length (numbers i)) <= u64_max)%Z ->
  read_values (VectorAddInput_args (Add_Values i) ++ rest) = Some (numbers i, rest) /\
  read_values (VectorSimilaritySearchInput_args (Sim_Values i) ++ rest) = Some (numbers i, rest).
Proof.
  intros Hn.
  assert (read_values ((lit "VALUES" :: EmbeddingInput_args i) ++ rest) = Some (numbers i, rest)); [|done].
  rewrite embedding_args. cbn [app read_values]. rewrite bytes_eqb_refl. unfold parse_arg.
  rewrite from_utf8_itoa. cbn [try_bind to_option mbind option_bind]. rewrite parse_int_itoa; [|done|].
  - cbn [try_bind mbind option_bind]. rewrite Nat2Z.id. rewrite length_app.
    rewrite (proj2 (Nat.ltb_ge _ _)) by lia. by rewrite take_app_length, drop_app_length.
  - split; simpl; unfold u64_max in *; lia.
Qed.
End delimited.
