(* ===== verification/Search.v ===== *)
(** * FT.CREATE: [commands/search/create] and [ft_create] of [commands/mod.rs]

    The fields of a schema, the options of an index and the command they make.
    The theorem: a reader of the documented syntax of FT.CREATE gets from the
    command exactly the options and the schema it was built from.  The builders
    of fields never reach their [unreachable!]. *)

From S2P Require Import Prelude Text Float64 Errors Types Cmd Convert Args Slots Routing Commands.

(** ** Fields of a schema ([fields.rs]) *)

Inductive FieldType := FText | FTag | FNumeric | FGeo | FVector | FGeoShape.
Definition FieldType_arg (t : FieldType) : bytes :=
  match t with
  | FText => lit "TEXT" | FTag => lit "TAG" | FNumeric => lit "NUMERIC" | FGeo => lit "GEO"
  | FVector => lit "VECTOR" | FGeoShape => lit "GEOSHAPE"
  end.
Definition is_sortable (t : FieldType) : bool :=
  match t with FText | FTag | FNumeric | FGeo => true | _ => false end.

Inductive Sortable := Sortable_Yes | Sortable_Unf.
Definition Sortable_args (s : Sortable) : list bytes :=
  match s with Sortable_Yes => [lit "SORTABLE"] | Sortable_Unf => [lit "SORTABLE"; lit "UNF"] end.

Inductive Phonetic := DmEnglish | DmFrench | DmPortuguese | DmSpanish.
Definition Phonetic_arg (p : Phonetic) : bytes :=
  match p with
  | DmEnglish => lit "dm:en" | DmFrench => lit "dm:fr" | DmPortuguese => lit "dm:pt" | DmSpanish => lit "dm:es"
  end.

Record BaseSchemaField := { field_type : FieldType; field_alias : option bytes; field_index_missing : bool }.
Definition BaseSchemaField_new (t : FieldType) : BaseSchemaField :=
  {| field_type := t; field_alias := None; field_index_missing := false |}.
Definition base_alias (o : BaseSchemaField) (alias : bytes) : BaseSchemaField :=
  {| field_type := field_type o; field_alias := Some alias; field_index_missing := field_index_missing o |}.
Definition base_index_missing (o : BaseSchemaField) (b : bool) : BaseSchemaField :=
  {| field_type := field_type o; field_alias := field_alias o; field_index_missing := b |}.
Definition BaseSchemaField_args (o : BaseSchemaField) : list bytes :=
  if_some (field_alias o) (fun alias => [lit "AS"; alias]) ++
  [FieldType_arg (field_type o)] ++
  if_set (field_index_missing o) [lit "INDEXMISSING"].

Record SchemaCommonField := { base : BaseSchemaField; field_sortable : option Sortable; field_no_index : bool }.
Definition SchemaCommonField_new (t : FieldType) : SchemaCommonField :=
  {| base := BaseSchemaField_new t; field_sortable := None; field_no_index := false |}.
(** [None]: the [unreachable!] of a type that cannot be sorted. *)
Definition common_sortable (o : SchemaCommonField) (s : Sortable) : option SchemaCommonField :=
  if is_sortable (field_type (base o))
  then Some {| base := base o; field_sortable := Some s; field_no_index := field_no_index o |}
  else None.
Definition common_no_index (o : SchemaCommonField) (b : bool) : SchemaCommonField :=
  {| base := base o; field_sortable := field_sortable o; field_no_index := b |}.
Definition common_alias (o : SchemaCommonField) (alias : bytes) : SchemaCommonField :=
  {| base := base_alias (base o) alias; field_sortable := field_sortable o; field_no_index := field_no_index o |}.
Definition common_index_missing (o : SchemaCommonField) (b : bool) : SchemaCommonField :=
  {| base := base_index_missing (base o) b; field_sortable := field_sortable o;
     field_no_index := field_no_index o |}.
Definition SchemaCommonField_args (o : SchemaCommonField) : list bytes :=
  if_some (field_sortable o) Sortable_args ++ if_set (field_no_index o) [lit "NOINDEX"].

Record SchemaTextField := {
  text_common : SchemaCommonField;
  text_no_stem : bool;
  text_weight : option f64;
  text_phonetic : option Phonetic;
  text_with_suffix_trie : bool;
  text_index_empty : bool
}.
Definition SchemaTextField_new : SchemaTextField :=
  {| text_common := SchemaCommonField_new FText; text_no_stem := false; text_weight := None;
     text_phonetic := None; text_with_suffix_trie := false; text_index_empty := false |}.
Definition text_set_no_stem (o : SchemaTextField) (b : bool) : SchemaTextField :=
  {| text_common := text_common o; text_no_stem := b; text_weight := text_weight o;
     text_phonetic := text_phonetic o; text_with_suffix_trie := text_with_suffix_trie o;
     text_index_empty := text_index_empty o |}.
Definition text_set_weight (o : SchemaTextField) (w : f64) : SchemaTextField :=
  {| text_common := text_common o; text_no_stem := text_no_stem o; text_weight := Some w;
     text_phonetic := text_phonetic o; text_with_suffix_trie := text_with_suffix_trie o;
     text_index_empty := text_index_empty o |}.
Definition text_set_phonetic (o : SchemaTextField) (p : Phonetic) : SchemaTextField :=
  {| text_common := text_common o; text_no_stem := text_no_stem o;
     text_weight := text_weight o; text_phonetic := Some p;
     text_with_suffix_trie := text_with_suffix_trie o; text_index_empty := text_index_empty o |}.
Definition text_set_with_suffix_trie (o : SchemaTextField) (b : bool) : SchemaTextField :=
  {| text_common := text_common o; text_no_stem := text_no_stem o;
     text_weight := text_weight o; text_phonetic := text_phonetic o;
     text_with_suffix_trie := b; text_index_empty := text_index_empty o |}.
Definition text_set_index_empty (o : SchemaTextField) (b : bool) : SchemaTextField :=
  {| text_common := text_common o; text_no_stem := text_no_stem o;
     text_weight := text_weight o; text_phonetic := text_phonetic o;
     text_with_suffix_trie := text_with_suffix_trie o; text_index_empty := b |}.
Definition text_set_sortable (o : SchemaTextField) (s : Sortable) : option SchemaTextField :=
  c ← common_sortable (text_common o) s;
  Some {| text_common := c; text_no_stem := text_no_stem o; text_weight := text_weight o;
          text_phonetic := text_phonetic o; text_with_suffix_trie := text_with_suffix_trie o;
          text_index_empty := text_index_empty o |}.
Definition text_set_no_index (o : SchemaTextField) (b : bool) : SchemaTextField :=
  {| text_common := common_no_index (text_common o) b; text_no_stem := text_no_stem o;
     text_weight := text_weight o; text_phonetic := text_phonetic o;
     text_with_suffix_trie := text_with_suffix_trie o; text_index_empty := text_index_empty o |}.
Definition text_set_alias (o : SchemaTextField) (alias : bytes) : SchemaTextField :=
  {| text_common := common_alias (text_common o) alias; text_no_stem := text_no_stem o;
     text_weight := text_weight o; text_phonetic := text_phonetic o;
     text_with_suffix_trie := text_with_suffix_trie o; text_index_empty := text_index_empty o |}.
Definition text_set_index_missing (o : SchemaTextField) (b : bool) : SchemaTextField :=
  {| text_common := common_index_missing (text_common o) b; text_no_stem := text_no_stem o;
     text_weight := text_weight o; text_phonetic := text_phonetic o;
     text_with_suffix_trie := text_with_suffix_trie o; text_index_empty := text_index_empty o |}.
Definition SchemaTextField_args `{Ryu} (o : SchemaTextField) : list bytes :=
  BaseSchemaField_args (base (text_common o)) ++
  if_set (text_no_stem o) [lit "NOSTEM"] ++
  if_some (text_weight o) (fun weight => [lit "WEIGHT"; ryu_format weight]) ++
  if_some (text_phonetic o) (fun phonetic => [lit "PHONETIC"; Phonetic_arg phonetic]) ++
  if_set (text_with_suffix_trie o) [lit "WITHSUFFIXTRIE"] ++
  if_set (text_index_empty o) [lit "INDEXEMPTY"] ++
  SchemaCommonField_args (text_common o).

(** The separator, a [char], is its UTF-8 form. *)
Record SchemaTagField := {
  tag_common : SchemaCommonField;
  tag_separator : option bytes;
  tag_case_sensitive : bool;
  tag_with_suffix_trie : bool;
  tag_index_empty : bool
}.
Definition SchemaTagField_new : SchemaTagField :=
  {| tag_common := SchemaCommonField_new FTag; tag_separator := None;
     tag_case_sensitive := false; tag_with_suffix_trie := false; tag_index_empty := false |}.
Definition tag_set_separator (o : SchemaTagField) (c : bytes) : SchemaTagField :=
  {| tag_common := tag_common o; tag_separator := Some c;
     tag_case_sensitive := tag_case_sensitive o;
     tag_with_suffix_trie := tag_with_suffix_trie o; tag_index_empty := tag_index_empty o |}.
Definition tag_set_case_sensitive (o : SchemaTagField) (b : bool) : SchemaTagField :=
  {| tag_common := tag_common o; tag_separator := tag_separator o; tag_case_sensitive := b;
     tag_with_suffix_trie := tag_with_suffix_trie o; tag_index_empty := tag_index_empty o |}.
Definition tag_set_with_suffix_trie (o : SchemaTagField) (b : bool) : SchemaTagField :=
  {| tag_common := tag_common o; tag_separator := tag_separator o;
     tag_case_sensitive := tag_case_sensitive o; tag_with_suffix_trie := b;
     tag_index_empty := tag_index_empty o |}.
Definition tag_set_index_empty (o : SchemaTagField) (b : bool) : SchemaTagField :=
  {| tag_common := tag_common o; tag_separator := tag_separator o;
     tag_case_sensitive := tag_case_sensitive o;
     tag_with_suffix_trie := tag_with_suffix_trie o; tag_index_empty := b |}.
Definition tag_set_sortable (o : SchemaTagField) (s : Sortable) : option SchemaTagField :=
  c ← common_sortable (tag_common o) s;
  Some {| tag_common := c; tag_separator := tag_separator o;
          tag_case_sensitive := tag_case_sensitive o;
          tag_with_suffix_trie := tag_with_suffix_trie o; tag_index_empty := tag_index_empty o |}.
Definition tag_set_no_index (o : SchemaTagField) (b : bool) : SchemaTagField :=
  {| tag_common := common_no_index (tag_common o) b; tag_separator := tag_separator o;
     tag_case_sensitive := tag_case_sensitive o;
     tag_with_suffix_trie := tag_with_suffix_trie o; tag_index_empty := tag_index_empty o |}.
Definition tag_set_alias (o : SchemaTagField) (alias : bytes) : SchemaTagField :=
  {| tag_common := common_alias (tag_common o) alias; tag_separator := tag_separator o;
     tag_case_sensitive := tag_case_sensitive o;
     tag_with_suffix_trie := tag_with_suffix_trie o; tag_index_empty := tag_index_empty o |}.
Definition tag_set_index_missing (o : SchemaTagField) (b : bool) : SchemaTagField :=
  {| tag_common := common_index_missing (tag_common o) b; tag_separator := tag_separator o;
     tag_case_sensitive := tag_case_sensitive o;
     tag_with_suffix_trie := tag_with_suffix_trie o; tag_index_empty := tag_index_empty o |}.
Definition SchemaTagField_args (o : SchemaTagField) : list bytes :=
  BaseSchemaField_args (base (tag_common o)) ++
  if_some (tag_separator o) (fun separator => [lit "SEPARATOR"; separator]) ++
  if_set (tag_case_sensitive o) [lit "CASESENSITIVE"] ++
  if_set (tag_with_suffix_trie o) [lit "WITHSUFFIXTRIE"] ++
  if_set (tag_index_empty o) [lit "INDEXEMPTY"] ++
  SchemaCommonField_args (tag_common o).

Record SchemaNumericField := {
  numeric_common : SchemaCommonField
}.
Definition SchemaNumericField_new : SchemaNumericField :=
  {| numeric_common := SchemaCommonField_new FNumeric |}.
Definition numeric_set_sortable (o : SchemaNumericField) (s : Sortable) : option SchemaNumericField :=
  c ← common_sortable (numeric_common o) s;
  Some {| numeric_common := c |}.
Definition numeric_set_no_index (o : SchemaNumericField) (b : bool) : SchemaNumericField :=
  {| numeric_common := common_no_index (numeric_common o) b |}.
Definition numeric_set_alias (o : SchemaNumericField) (alias : bytes) : SchemaNumericField :=
  {| numeric_common := common_alias (numeric_common o) alias |}.
Definition numeric_set_index_missing (o : SchemaNumericField) (b : bool) : SchemaNumericField :=
  {| numeric_common := common_index_missing (numeric_common o) b |}.
Definition SchemaNumericField_args (o : SchemaNumericField) : list bytes :=
  BaseSchemaField_args (base (numeric_common o)) ++ SchemaCommonField_args (numeric_common o).

Record SchemaGeoField := {
  geo_common : SchemaCommonField
}.
Definition SchemaGeoField_new : SchemaGeoField :=
  {| geo_common := SchemaCommonField_new FGeo |}.
Definition geo_set_sortable (o : SchemaGeoField) (s : Sortable) : option SchemaGeoField :=
  c ← common_sortable (geo_common o) s;
  Some {| geo_common := c |}.
Definition geo_set_no_index (o : SchemaGeoField) (b : bool) : SchemaGeoField :=
  {| geo_common := common_no_index (geo_common o) b |}.
Definition geo_set_alias (o : SchemaGeoField) (alias : bytes) : SchemaGeoField :=
  {| geo_common := common_alias (geo_common o) alias |}.
Definition geo_set_index_missing (o : SchemaGeoField) (b : bool) : SchemaGeoField :=
  {| geo_common := common_index_missing (geo_common o) b |}.
Definition SchemaGeoField_args (o : SchemaGeoField) : list bytes :=
  BaseSchemaField_args (base (geo_common o)) ++ SchemaCommonField_args (geo_common o).

Inductive CoordSystem := Spherical | Flat.
Definition CoordSystem_arg (c : CoordSystem) : bytes :=
  match c with Spherical => lit "SPHERICAL" | Flat => lit "FLAT" end.

Record SchemaGeoShapeField := {
  shape_common : SchemaCommonField;
  shape_coord_system : CoordSystem
}.
Definition SchemaGeoShapeField_new : SchemaGeoShapeField :=
  {| shape_common := SchemaCommonField_new FGeoShape; shape_coord_system := Spherical |}.
Definition shape_set_coord_system (o : SchemaGeoShapeField) (c : CoordSystem) : SchemaGeoShapeField :=
  {| shape_common := shape_common o; shape_coord_system := c |}.
Definition shape_set_no_index (o : SchemaGeoShapeField) (b : bool) : SchemaGeoShapeField :=
  {| shape_common := common_no_index (shape_common o) b;
     shape_coord_system := shape_coord_system o |}.
Definition shape_set_alias (o : SchemaGeoShapeField) (alias : bytes) : SchemaGeoShapeField :=
  {| shape_common := common_alias (shape_common o) alias;
     shape_coord_system := shape_coord_system o |}.
Definition shape_set_index_missing (o : SchemaGeoShapeField) (b : bool) : SchemaGeoShapeField :=
  {| shape_common := common_index_missing (shape_common o) b;
     shape_coord_system := shape_coord_system o |}.
Definition SchemaGeoShapeField_args (o : SchemaGeoShapeField) : list bytes :=
  if_some (field_alias (base (shape_common o))) (fun alias => [lit "AS"; alias]) ++
  [FieldType_arg (field_type (base (shape_common o))); CoordSystem_arg (shape_coord_system o)] ++
  if_set (field_index_missing (base (shape_common o))) [lit "INDEXMISSING"] ++
  SchemaCommonField_args (shape_common o).

(** ** Schemas ([schema.rs]) *)

Inductive FieldDefinition :=
| Field_Text (f : SchemaTextField)
| Field_Numeric (f : SchemaNumericField)
| Field_Geo (f : SchemaGeoField)
| Field_Tag (f : SchemaTagField)
| Field_GeoShape (f : SchemaGeoShapeField).
Definition FieldDefinition_args `{Ryu} (d : FieldDefinition) : list bytes :=
  match d with
  | Field_Text f => SchemaTextField_args f
  | Field_Numeric f => SchemaNumericField_args f
  | Field_Geo f => SchemaGeoField_args f
  | Field_Tag f => SchemaTagField_args f
  | Field_GeoShape f => SchemaGeoShapeField_args f
  end.

Record SearchSchema := { schema_fields : list (bytes * FieldDefinition) }.
Definition SearchSchema_new (key : bytes) (value : FieldDefinition) : SearchSchema :=
  {| schema_fields := [(key, value)] |}.
Definition schema_insert (o : SearchSchema) (key : bytes) (value : FieldDefinition) : SearchSchema :=
  {| schema_fields := schema_fields o ++ [(key, value)] |}.
Definition SearchSchema_args `{Ryu} (o : SearchSchema) : list bytes :=
  concat (map (fun '(key, field) => key :: FieldDefinition_args field) (schema_fields o)).
#[export] Instance tra_schema `{Ryu} : ToRedisArgs SearchSchema := tra_list SearchSchema_args.

(** ** Options of an index ([options.rs]) *)

Inductive IndexDataType := Index_Hash | Index_Json.
Definition IndexDataType_arg (t : IndexDataType) : bytes :=
  match t with Index_Hash => lit "HASH" | Index_Json => lit "JSON" end.

Inductive SearchLanguage :=
  Arabic | Armenian | Basque | Catalan | Danish | Dutch | English | Finnish | French | German
  | Greek | Hindi | Hungarian | Indonesian | Irish | Italian | Lithuanian | Malay | Nepali
  | Norwegian | Portuguese | Romanian | Russian | Serbian | Spanish | Swedish | Tagalog
  | Tamil | Turkish | Yiddish | Chinese.
Definition SearchLanguage_arg (l : SearchLanguage) : bytes :=
  match l with
  | Arabic => lit "ARABIC" | Armenian => lit "ARMENIAN" | Basque => lit "BASQUE"
  | Catalan => lit "CATALAN" | Danish => lit "DANISH" | Dutch => lit "DUTCH"
  | English => lit "ENGLISH" | Finnish => lit "FINNISH" | French => lit "FRENCH"
  | German => lit "GERMAN" | Greek => lit "GREEK" | Hindi => lit "HINDI"
  | Hungarian => lit "HUNGARIAN" | Indonesian => lit "INDONESIAN" | Irish => lit "IRISH"
  | Italian => lit "ITALIAN" | Lithuanian => lit "LITHUANIAN" | Malay => lit "MALAY"
  | Nepali => lit "NEPALI" | Norwegian => lit "NORWEGIAN" | Portuguese => lit "PORTUGUESE"
  | Romanian => lit "ROMANIAN" | Russian => lit "RUSSIAN" | Serbian => lit "SERBIAN"
  | Spanish => lit "SPANISH" | Swedish => lit "SWEDISH" | Tagalog => lit "TAGALOG"
  | Tamil => lit "TAMIL" | Turkish => lit "TURKISH" | Yiddish => lit "YIDDISH"
  | Chinese => lit "CHINESE"
  end.

Record CreateOptions := {
  ft_on : option IndexDataType;
  ft_prefixes : list bytes;
  ft_filter : option bytes;
  ft_language : option SearchLanguage;
  ft_language_field : option bytes;
  ft_score : option f64;
  ft_score_field : option bytes;
  ft_max_text_fields : bool;
  ft_no_offsets : bool;
  ft_temporary : option Z;
  ft_no_highlight : bool;
  ft_no_fields : bool;
  ft_no_freqs : bool;
  ft_stopwords : list bytes;
  ft_skip_initial_scan : bool
}.
Definition CreateOptions_new : CreateOptions :=
  {| ft_on := None; ft_prefixes := []; ft_filter := None; ft_language := None;
     ft_language_field := None; ft_score := None; ft_score_field := None;
     ft_max_text_fields := false; ft_no_offsets := false; ft_temporary := None;
     ft_no_highlight := false; ft_no_fields := false; ft_no_freqs := false;
     ft_stopwords := []; ft_skip_initial_scan := false |}.
Definition create_on (o : CreateOptions) (x : IndexDataType) : CreateOptions :=
  {| ft_on := Some x; ft_prefixes := ft_prefixes o; ft_filter := ft_filter o;
     ft_language := ft_language o; ft_language_field := ft_language_field o;
     ft_score := ft_score o; ft_score_field := ft_score_field o;
     ft_max_text_fields := ft_max_text_fields o; ft_no_offsets := ft_no_offsets o;
     ft_temporary := ft_temporary o; ft_no_highlight := ft_no_highlight o;
     ft_no_fields := ft_no_fields o; ft_no_freqs := ft_no_freqs o;
     ft_stopwords := ft_stopwords o; ft_skip_initial_scan := ft_skip_initial_scan o |}.
Definition create_prefix (o : CreateOptions) (x : bytes) : CreateOptions :=
  {| ft_on := ft_on o; ft_prefixes := ft_prefixes o ++ [x]; ft_filter := ft_filter o;
     ft_language := ft_language o; ft_language_field := ft_language_field o;
     ft_score := ft_score o; ft_score_field := ft_score_field o;
     ft_max_text_fields := ft_max_text_fields o; ft_no_offsets := ft_no_offsets o;
     ft_temporary := ft_temporary o; ft_no_highlight := ft_no_highlight o;
     ft_no_fields := ft_no_fields o; ft_no_freqs := ft_no_freqs o;
     ft_stopwords := ft_stopwords o; ft_skip_initial_scan := ft_skip_initial_scan o |}.
Definition create_filter (o : CreateOptions) (x : bytes) : CreateOptions :=
  {| ft_on := ft_on o; ft_prefixes := ft_prefixes o; ft_filter := Some x;
     ft_language := ft_language o; ft_language_field := ft_language_field o;
     ft_score := ft_score o; ft_score_field := ft_score_field o;
     ft_max_text_fields := ft_max_text_fields o; ft_no_offsets := ft_no_offsets o;
     ft_temporary := ft_temporary o; ft_no_highlight := ft_no_highlight o;
     ft_no_fields := ft_no_fields o; ft_no_freqs := ft_no_freqs o;
     ft_stopwords := ft_stopwords o; ft_skip_initial_scan := ft_skip_initial_scan o |}.
Definition create_language (o : CreateOptions) (x : SearchLanguage) : CreateOptions :=
  {| ft_on := ft_on o; ft_prefixes := ft_prefixes o; ft_filter := ft_filter o;
     ft_language := Some x; ft_language_field := ft_language_field o; ft_score := ft_score o;
     ft_score_field := ft_score_field o; ft_max_text_fields := ft_max_text_fields o;
     ft_no_offsets := ft_no_offsets o; ft_temporary := ft_temporary o;
     ft_no_highlight := ft_no_highlight o; ft_no_fields := ft_no_fields o;
     ft_no_freqs := ft_no_freqs o; ft_stopwords := ft_stopwords o;
     ft_skip_initial_scan := ft_skip_initial_scan o |}.
Definition create_language_field (o : CreateOptions) (x : bytes) : CreateOptions :=
  {| ft_on := ft_on o; ft_prefixes := ft_prefixes o; ft_filter := ft_filter o;
     ft_language := ft_language o; ft_language_field := Some x; ft_score := ft_score o;
     ft_score_field := ft_score_field o; ft_max_text_fields := ft_max_text_fields o;
     ft_no_offsets := ft_no_offsets o; ft_temporary := ft_temporary o;
     ft_no_highlight := ft_no_highlight o; ft_no_fields := ft_no_fields o;
     ft_no_freqs := ft_no_freqs o; ft_stopwords := ft_stopwords o;
     ft_skip_initial_scan := ft_skip_initial_scan o |}.
Definition create_score (o : CreateOptions) (x : f64) : CreateOptions :=
  {| ft_on := ft_on o; ft_prefixes := ft_prefixes o; ft_filter := ft_filter o;
     ft_language := ft_language o; ft_language_field := ft_language_field o;
     ft_score := Some x; ft_score_field := ft_score_field o;
     ft_max_text_fields := ft_max_text_fields o; ft_no_offsets := ft_no_offsets o;
     ft_temporary := ft_temporary o; ft_no_highlight := ft_no_highlight o;
     ft_no_fields := ft_no_fields o; ft_no_freqs := ft_no_freqs o;
     ft_stopwords := ft_stopwords o; ft_skip_initial_scan := ft_skip_initial_scan o |}.
Definition create_score_field (o : CreateOptions) (x : bytes) : CreateOptions :=
  {| ft_on := ft_on o; ft_prefixes := ft_prefixes o; ft_filter := ft_filter o;
     ft_language := ft_language o; ft_language_field := ft_language_field o;
     ft_score := ft_score o; ft_score_field := Some x;
     ft_max_text_fields := ft_max_text_fields o; ft_no_offsets := ft_no_offsets o;
     ft_temporary := ft_temporary o; ft_no_highlight := ft_no_highlight o;
     ft_no_fields := ft_no_fields o; ft_no_freqs := ft_no_freqs o;
     ft_stopwords := ft_stopwords o; ft_skip_initial_scan := ft_skip_initial_scan o |}.
Definition create_max_text_fields (o : CreateOptions) : CreateOptions :=
  {| ft_on := ft_on o; ft_prefixes := ft_prefixes o; ft_filter := ft_filter o;
     ft_language := ft_language o; ft_language_field := ft_language_field o;
     ft_score := ft_score o; ft_score_field := ft_score_field o; ft_max_text_fields := true;
     ft_no_offsets := ft_no_offsets o; ft_temporary := ft_temporary o;
     ft_no_highlight := ft_no_highlight o; ft_no_fields := ft_no_fields o;
     ft_no_freqs := ft_no_freqs o; ft_stopwords := ft_stopwords o;
     ft_skip_initial_scan := ft_skip_initial_scan o |}.
Definition create_no_offsets (o : CreateOptions) : CreateOptions :=
  {| ft_on := ft_on o; ft_prefixes := ft_prefixes o; ft_filter := ft_filter o;
     ft_language := ft_language o; ft_language_field := ft_language_field o;
     ft_score := ft_score o; ft_score_field := ft_score_field o;
     ft_max_text_fields := ft_max_text_fields o; ft_no_offsets := true;
     ft_temporary := ft_temporary o; ft_no_highlight := ft_no_highlight o;
     ft_no_fields := ft_no_fields o; ft_no_freqs := ft_no_freqs o;
     ft_stopwords := ft_stopwords o; ft_skip_initial_scan := ft_skip_initial_scan o |}.
Definition create_temporary (o : CreateOptions) (x : Z) : CreateOptions :=
  {| ft_on := ft_on o; ft_prefixes := ft_prefixes o; ft_filter := ft_filter o;
     ft_language := ft_language o; ft_language_field := ft_language_field o;
     ft_score := ft_score o; ft_score_field := ft_score_field o;
     ft_max_text_fields := ft_max_text_fields o; ft_no_offsets := ft_no_offsets o;
     ft_temporary := Some x; ft_no_highlight := ft_no_highlight o;
     ft_no_fields := ft_no_fields o; ft_no_freqs := ft_no_freqs o;
     ft_stopwords := ft_stopwords o; ft_skip_initial_scan := ft_skip_initial_scan o |}.
Definition create_no_highlight (o : CreateOptions) : CreateOptions :=
  {| ft_on := ft_on o; ft_prefixes := ft_prefixes o; ft_filter := ft_filter o;
     ft_language := ft_language o; ft_language_field := ft_language_field o;
     ft_score := ft_score o; ft_score_field := ft_score_field o;
     ft_max_text_fields := ft_max_text_fields o; ft_no_offsets := ft_no_offsets o;
     ft_temporary := ft_temporary o; ft_no_highlight := true; ft_no_fields := ft_no_fields o;
     ft_no_freqs := ft_no_freqs o; ft_stopwords := ft_stopwords o;
     ft_skip_initial_scan := ft_skip_initial_scan o |}.
Definition create_no_fields (o : CreateOptions) : CreateOptions :=
  {| ft_on := ft_on o; ft_prefixes := ft_prefixes o; ft_filter := ft_filter o;
     ft_language := ft_language o; ft_language_field := ft_language_field o;
     ft_score := ft_score o; ft_score_field := ft_score_field o;
     ft_max_text_fields := ft_max_text_fields o; ft_no_offsets := ft_no_offsets o;
     ft_temporary := ft_temporary o; ft_no_highlight := ft_no_highlight o;
     ft_no_fields := true; ft_no_freqs := ft_no_freqs o; ft_stopwords := ft_stopwords o;
     ft_skip_initial_scan := ft_skip_initial_scan o |}.
Definition create_no_freqs (o : CreateOptions) : CreateOptions :=
  {| ft_on := ft_on o; ft_prefixes := ft_prefixes o; ft_filter := ft_filter o;
     ft_language := ft_language o; ft_language_field := ft_language_field o;
     ft_score := ft_score o; ft_score_field := ft_score_field o;
     ft_max_text_fields := ft_max_text_fields o; ft_no_offsets := ft_no_offsets o;
     ft_temporary := ft_temporary o; ft_no_highlight := ft_no_highlight o;
     ft_no_fields := ft_no_fields o; ft_no_freqs := true; ft_stopwords := ft_stopwords o;
     ft_skip_initial_scan := ft_skip_initial_scan o |}.
Definition create_stopword (o : CreateOptions) (x : bytes) : CreateOptions :=
  {| ft_on := ft_on o; ft_prefixes := ft_prefixes o; ft_filter := ft_filter o;
     ft_language := ft_language o; ft_language_field := ft_language_field o;
     ft_score := ft_score o; ft_score_field := ft_score_field o;
     ft_max_text_fields := ft_max_text_fields o; ft_no_offsets := ft_no_offsets o;
     ft_temporary := ft_temporary o; ft_no_highlight := ft_no_highlight o;
     ft_no_fields := ft_no_fields o; ft_no_freqs := ft_no_freqs o;
     ft_stopwords := ft_stopwords o ++ [x]; ft_skip_initial_scan := ft_skip_initial_scan o |}.
Definition create_skip_initial_scan (o : CreateOptions) : CreateOptions :=
  {| ft_on := ft_on o; ft_prefixes := ft_prefixes o; ft_filter := ft_filter o;
     ft_language := ft_language o; ft_language_field := ft_language_field o;
     ft_score := ft_score o; ft_score_field := ft_score_field o;
     ft_max_text_fields := ft_max_text_fields o; ft_no_offsets := ft_no_offsets o;
     ft_temporary := ft_temporary o; ft_no_highlight := ft_no_highlight o;
     ft_no_fields := ft_no_fields o; ft_no_freqs := ft_no_freqs o;
     ft_stopwords := ft_stopwords o; ft_skip_initial_scan := true |}.
(** [format!("'{filter}'")]. *)
Definition quoted_filter (filter : bytes) : bytes := bs "'" ++ filter ++ bs "'".
Definition listed_args (kw : string) (l : list bytes) : list bytes :=
  if_set (negb (bool_decide (l = []))) ([lit kw; itoa (Z.of_nat (length l))] ++ l).
Definition CreateOptions_args `{Ryu} (o : CreateOptions) : list bytes :=
  if_some (ft_on o) (fun on => [lit "ON"; IndexDataType_arg on]) ++
  listed_args "PREFIX" (ft_prefixes o) ++
  if_some (ft_filter o) (fun filter => [lit "FILTER"; quoted_filter filter]) ++
  if_some (ft_language o) (fun language => [lit "LANGUAGE"; SearchLanguage_arg language]) ++
  if_some (ft_language_field o) (fun language_field => [lit "LANGUAGE_FIELD"; language_field]) ++
  if_some (ft_score o) (fun score => [lit "SCORE"; ryu_format score]) ++
  if_some (ft_score_field o) (fun score_field => [lit "SCORE_FIELD"; score_field]) ++
  if_set (ft_max_text_fields o) [lit "MAXTEXTFIELDS"] ++
  if_set (ft_no_offsets o) [lit "NOOFFSETS"] ++
  if_some (ft_temporary o) (fun temporary => [lit "TEMPORARY"; itoa temporary]) ++
  if_set (ft_no_highlight o) [lit "NOHL"] ++
  if_set (ft_no_fields o) [lit "NOFIELDS"] ++
  if_set (ft_no_freqs o) [lit "NOFREQS"] ++
  listed_args "STOPWORDS" (ft_stopwords o) ++
  if_set (ft_skip_initial_scan o) [lit "SKIPINITIALSCAN"].
#[export] Instance tra_create_options `{Ryu} : ToRedisArgs CreateOptions := tra_list CreateOptions_args.

(** ** The command ([mod.rs] of the directory, and [ft_create]) *)

Record FtCreateCommand := { ft_index : bytes; ft_options : CreateOptions; ft_schema : SearchSchema }.
Definition FtCreateCommand_new (index : bytes) (schema : SearchSchema) : FtCreateCommand :=
  {| ft_index := index; ft_options := CreateOptions_new; ft_schema := schema |}.
Definition ftc_options (c : FtCreateCommand) (options : CreateOptions) : FtCreateCommand :=
  {| ft_index := ft_index c; ft_options := options; ft_schema := ft_schema c |}.
Definition into_cmd `{Ryu} (c : FtCreateCommand) : Command :=
  CMD "FT.CREATE" ▷ ft_index c ▷ ft_options c ▷' "SCHEMA" ▷ ft_schema c.
Definition ft_create {K} `{AK : ToRedisArgs K} `{Ryu} (index_name : K) (options : CreateOptions)
    (schema : SearchSchema) : Command :=
  taken (CMD "FT.CREATE" ▷ index_name ▷ options ▷' "SCHEMA" ▷ schema).

(** ** The builders of fields do not panic *)

(** A field as its constructor and setters leave it has the type of its kind, so
    that [sortable] is never called on a type that cannot be sorted. *)
Inductive text_field : SchemaTextField -> Prop :=
| text_field_new : text_field SchemaTextField_new
| text_field_no_stem o b : text_field o -> text_field (text_set_no_stem o b)
| text_field_weight o w : text_field o -> text_field (text_set_weight o w)
| text_field_phonetic o p : text_field o -> text_field (text_set_phonetic o p)
| text_field_suffix o b : text_field o -> text_field (text_set_with_suffix_trie o b)
| text_field_empty o b : text_field o -> text_field (text_set_index_empty o b)
| text_field_sortable o s o' : text_field o -> text_set_sortable o s = Some o' -> text_field o'
| text_field_no_index o b : text_field o -> text_field (text_set_no_index o b)
| text_field_alias o a : text_field o -> text_field (text_set_alias o a)
| text_field_missing o b : text_field o -> text_field (text_set_index_missing o b).
Inductive tag_field : SchemaTagField -> Prop :=
| tag_field_new : tag_field SchemaTagField_new
| tag_field_separator o c : tag_field o -> tag_field (tag_set_separator o c)
| tag_field_case o b : tag_field o -> tag_field (tag_set_case_sensitive o b)
| tag_field_suffix o b : tag_field o -> tag_field (tag_set_with_suffix_trie o b)
| tag_field_empty o b : tag_field o -> tag_field (tag_set_index_empty o b)
| tag_field_sortable o s o' : tag_field o -> tag_set_sortable o s = Some o' -> tag_field o'
| tag_field_no_index o b : tag_field o -> tag_field (tag_set_no_index o b)
| tag_field_alias o a : tag_field o -> tag_field (tag_set_alias o a)
| tag_field_missing o b : tag_field o -> tag_field (tag_set_index_missing o b).
Inductive numeric_field : SchemaNumericField -> Prop :=
| numeric_field_new : numeric_field SchemaNumericField_new
| numeric_field_sortable o s o' : numeric_field o -> numeric_set_sortable o s = Some o' -> numeric_field o'
| numeric_field_no_index o b : numeric_field o -> numeric_field (numeric_set_no_index o b)
| numeric_field_alias o a : numeric_field o -> numeric_field (numeric_set_alias o a)
| numeric_field_missing o b : numeric_field o -> numeric_field (numeric_set_index_missing o b).
Inductive geo_field : SchemaGeoField -> Prop :=
| geo_field_new : geo_field SchemaGeoField_new
| geo_field_sortable o s o' : geo_field o -> geo_set_sortable o s = Some o' -> geo_field o'
| geo_field_no_index o b : geo_field o -> geo_field (geo_set_no_index o b)
| geo_field_alias o a : geo_field o -> geo_field (geo_set_alias o a)
| geo_field_missing o b : geo_field o -> geo_field (geo_set_index_missing o b).
Inductive shape_field : SchemaGeoShapeField -> Prop :=
| shape_field_new : shape_field SchemaGeoShapeField_new
| shape_field_coord o c : shape_field o -> shape_field (shape_set_coord_system o c)
| shape_field_no_index o b : shape_field o -> shape_field (shape_set_no_index o b)
| shape_field_alias o a : shape_field o -> shape_field (shape_set_alias o a)
| shape_field_missing o b : shape_field o -> shape_field (shape_set_index_missing o b).

(** The setters keep the type. *)
Lemma common_sortable_type o s o' : common_sortable o s = Some o' -> field_type (base o') = field_type (base o).
Proof. unfold common_sortable. case_match; [by intros [= <-]|done]. Qed.

Ltac keep_type :=
  simpl; try done;
  match goal with
  | H : _ = Some ?o |- context [?o] =>
      apply bind_Some in H as (c & Hc & [= <-]); simpl; by rewrite (common_sortable_type _ _ _ Hc)
  end.
Lemma text_field_type o : text_field o -> field_type (base (text_common o)) = FText.
Proof. induction 1; keep_type. Qed.
Lemma tag_field_type o : tag_field o -> field_type (base (tag_common o)) = FTag.
Proof. induction 1; keep_type. Qed.
Lemma numeric_field_type o : numeric_field o -> field_type (base (numeric_common o)) = FNumeric.
Proof. induction 1; keep_type. Qed.
Lemma geo_field_type o : geo_field o -> field_type (base (geo_common o)) = FGeo.
Proof. induction 1; keep_type. Qed.
Lemma shape_field_type o : shape_field o ->
  field_type (base (shape_common o)) = FGeoShape /\ field_sortable (shape_common o) = None.
Proof. induction 1 as [|? ? ? []|? ? ? []|? ? ? []|? ? ? []]; done. Qed.

Lemma sortable_total o s t : field_type (base o) = t -> is_sortable t = true -> is_Some (common_sortable o s).
Proof. intros <- Ht. unfold common_sortable. rewrite Ht. eauto. Qed.

(** No sequence of calls of the public builders reaches [unreachable!]. *)
Lemma field_builders_total s :
  (forall o, text_field o -> is_Some (text_set_sortable o s)) /\
  (forall o, tag_field o -> is_Some (tag_set_sortable o s)) /\
  (forall o, numeric_field o -> is_Some (numeric_set_sortable o s)) /\
  (forall o, geo_field o -> is_Some (geo_set_sortable o s)).
Proof.
  split_and!; intros o Ho;
    [apply text_field_type in Ho | apply tag_field_type in Ho | apply numeric_field_type in Ho
    | apply geo_field_type in Ho];
    destruct (sortable_total _ s _ Ho eq_refl) as [c Hc];
    [unfold text_set_sortable | unfold tag_set_sortable | unfold numeric_set_sortable
    | unfold geo_set_sortable]; rewrite Hc; eauto.
Qed.

(** ** Reading FT.CREATE *)

(** The documented syntax of FT.CREATE: keywords in any case, options before
    [SCHEMA], and for every field its name, an alias, its type and the attributes
    of the type.  What is read is the text of every part. *)
Definition is_kw (kw : string) (a : bytes) : bool := eq_ignore_ascii_case a (bs kw).

Definition read_flag (kw : string) (args : list bytes) : bool * list bytes :=
  match args with
  | a :: rest => if is_kw kw a then (true, rest) else (false, args)
  | [] => (false, [])
  end.
Definition read_value (kw : string) (args : list bytes) : option bytes * list bytes :=
  match args with
  | a :: v :: rest => if is_kw kw a then (Some v, rest) else (None, args)
  | _ => (None, args)
  end.
Definition read_list (kw : string) (args : list bytes) : list bytes * list bytes :=
  match args with
  | a :: n :: rest =>
      if is_kw kw a then
        match parse_arg u64_ty n with
        | Some n => (take (Z.to_nat n) rest, drop (Z.to_nat n) rest)
        | None => ([], args)
        end
      else ([], args)
  | _ => ([], args)
  end.

Record IndexText := {
  it_on : option bytes;
  it_prefixes : list bytes;
  it_filter : option bytes;
  it_language : option bytes;
  it_language_field : option bytes;
  it_score : option bytes;
  it_score_field : option bytes;
  it_max_text_fields : bool;
  it_no_offsets : bool;
  it_temporary : option bytes;
  it_no_highlight : bool;
  it_no_fields : bool;
  it_no_freqs : bool;
  it_stopwords : list bytes;
  it_skip_initial_scan : bool
}.

Definition read_options (args : list bytes) : IndexText * list bytes :=
  let '(on, args) := read_value "ON" args in
  let '(prefixes, args) := read_list "PREFIX" args in
  let '(filter, args) := read_value "FILTER" args in
  let '(language, args) := read_value "LANGUAGE" args in
  let '(language_field, args) := read_value "LANGUAGE_FIELD" args in
  let '(score, args) := read_value "SCORE" args in
  let '(score_field, args) := read_value "SCORE_FIELD" args in
  let '(max_text_fields, args) := read_flag "MAXTEXTFIELDS" args in
  let '(no_offsets, args) := read_flag "NOOFFSETS" args in
  let '(temporary, args) := read_value "TEMPORARY" args in
  let '(no_highlight, args) := read_flag "NOHL" args in
  let '(no_fields, args) := read_flag "NOFIELDS" args in
  let '(no_freqs, args) := read_flag "NOFREQS" args in
  let '(stopwords, args) := read_list "STOPWORDS" args in
  let '(skip_initial_scan, args) := read_flag "SKIPINITIALSCAN" args in
  ({| it_on := on; it_prefixes := prefixes; it_filter := filter; it_language := language;
      it_language_field := language_field; it_score := score; it_score_field := score_field;
      it_max_text_fields := max_text_fields; it_no_offsets := no_offsets; it_temporary := temporary;
      it_no_highlight := no_highlight; it_no_fields := no_fields; it_no_freqs := no_freqs;
      it_stopwords := stopwords; it_skip_initial_scan := skip_initial_scan |}, args).

Record FieldText := {
  fx_alias : option bytes;
  fx_type : bytes;
  fx_coord_system : option bytes;
  fx_index_missing : bool;
  fx_no_stem : bool;
  fx_weight : option bytes;
  fx_phonetic : option bytes;
  fx_separator : option bytes;
  fx_case_sensitive : bool;
  fx_suffix_trie : bool;
  fx_index_empty : bool;
  fx_sortable : bool;
  fx_unf : bool;
  fx_no_index : bool
}.

(** The keywords that may follow the type of a field. *)
Definition attributes : list string :=
  ["INDEXMISSING"; "NOSTEM"; "WEIGHT"; "PHONETIC"; "SEPARATOR"; "CASESENSITIVE"; "WITHSUFFIXTRIE";
   "INDEXEMPTY"; "SORTABLE"; "UNF"; "NOINDEX"]%string.

(** The end of a field: SORTABLE, UNF and NOINDEX. *)
Definition read_common (args : list bytes) : bool * bool * bool * list bytes :=
  let '(sortable, args) := read_flag "SORTABLE" args in
  let '(unf, args) := if sortable then read_flag "UNF" args else (false, args) in
  let '(no_index, args) := read_flag "NOINDEX" args in
  (sortable, unf, no_index, args).

Definition read_field (args : list bytes) : option (bytes * FieldText * list bytes) :=
  match args with
  | [] => None
  | name :: args =>
      let '(alias, args) := read_value "AS" args in
      match args with
      | [] => None
      | type :: args =>
          let '(coord_system, args) :=
            if is_kw "GEOSHAPE" type then (head args, tail args) else (None, args) in
          let '(index_missing, args) := read_flag "INDEXMISSING" args in
          let '(no_stem, args) := read_flag "NOSTEM" args in
          let '(weight, args) := read_value "WEIGHT" args in
          let '(phonetic, args) := read_value "PHONETIC" args in
          let '(separator, args) := read_value "SEPARATOR" args in
          let '(case_sensitive, args) := read_flag "CASESENSITIVE" args in
          let '(suffix_trie, args) := read_flag "WITHSUFFIXTRIE" args in
          let '(index_empty, args) := read_flag "INDEXEMPTY" args in
          let '(sortable, unf, no_index, args) := read_common args in
          Some (name,
            {| fx_alias := alias; fx_type := type; fx_coord_system := coord_system;
               fx_index_missing := index_missing; fx_no_stem := no_stem; fx_weight := weight;
               fx_phonetic := phonetic; fx_separator := separator; fx_case_sensitive := case_sensitive;
               fx_suffix_trie := suffix_trie; fx_index_empty := index_empty; fx_sortable := sortable;
               fx_unf := unf; fx_no_index := no_index |}, args)
      end
  end.

Fixpoint read_fields (fuel : nat) (args : list bytes) : option (list (bytes * FieldText)) :=
  match args, fuel with
  | [], _ => Some []
  | _, O => None
  | _, S fuel => '(name, f, args) ← read_field args; fs ← read_fields fuel args; Some ((name, f) :: fs)
  end.

(** Index, options and schema of a command. *)
Definition read_create (args : list bytes) : option (bytes * IndexText * list (bytes * FieldText)) :=
  match args with
  | name :: index :: args =>
      let '(options, args) := read_options args in
      match args with
      | kw :: args =>
          if is_kw "FT.CREATE" name && is_kw "SCHEMA" kw then
            fields ← read_fields (length args) args; Some (index, options, fields)
          else None
      | [] => None
      end
  | _ => None
  end.

(** *** Readers undo writers *)

(** The first argument is none of the keywords. *)
Definition avoids (kw : string) (l : list bytes) : Prop :=
  match l with a :: _ => is_kw kw a = false | [] => True end.

Lemma is_kw_refl kw : is_kw kw (bs kw) = true.
Proof. apply bytes_eqb_refl. Qed.

Section readers.
Implicit Types (kw : string) (rest : list bytes).

Lemma avoids_flag kw kw' b rest : is_kw kw (bs kw') = false -> avoids kw rest ->
  avoids kw (if_set b [lit kw'] ++ rest).
Proof. by destruct b. Qed.
Lemma avoids_value {A} kw kw' (o : option A) g rest : is_kw kw (bs kw') = false -> avoids kw rest ->
  avoids kw (if_some o (fun x => lit kw' :: g x) ++ rest).
Proof. by destruct o. Qed.
Lemma avoids_list kw kw' l rest : is_kw kw (bs kw') = false -> avoids kw rest ->
  avoids kw (listed_args kw' l ++ rest).
Proof. unfold listed_args. by destruct (bool_decide _). Qed.

Lemma read_flag_ok kw b rest : avoids kw rest -> read_flag kw (if_set b [lit kw] ++ rest) = (b, rest).
Proof.
  intros Ha. destruct b; simpl; [by rewrite is_kw_refl|]. destruct rest; [done|]. simpl in *. by rewrite Ha.
Qed.
Lemma read_value_ok {A} kw (o : option A) g rest : avoids kw rest ->
  read_value kw (if_some o (fun x => [lit kw; g x]) ++ rest) = (g <$> o, rest).
Proof.
  intros Ha. destruct o; simpl; [by rewrite is_kw_refl|]. destruct rest as [|a [|]]; [done..|]. simpl in *.
  by rewrite Ha.
Qed.
Lemma read_value_none kw rest : avoids kw rest -> read_value kw rest = (None, rest).
Proof. intros Ha. destruct rest as [|a [|]]; [done..|]. simpl in *. by rewrite Ha. Qed.
Lemma read_flag_none kw rest : avoids kw rest -> read_flag kw rest = (false, rest).
Proof. intros Ha. destruct rest as [|a]; [done|]. simpl in *. by rewrite Ha. Qed.
Lemma read_list_ok kw l rest : avoids kw rest -> (Z.of_nat (length l) <= u64_max)%Z ->
  read_list kw (listed_args kw l ++ rest) = (l, rest).
Proof.
  intros Ha Hl. unfold listed_args. case_bool_decide as Hn; simpl.
  - subst l. destruct rest as [|a [|]]; [done..|]. simpl in *. by rewrite Ha.
  - rewrite is_kw_refl. unfold parse_arg. rewrite from_utf8_itoa. cbn [to_option mbind option_bind].
    rewrite parse_int_itoa; [|done|split; simpl; unfold u64_max in *; lia].
    by rewrite Nat2Z.id, take_app_length, drop_app_length.
Qed.
End readers.

(** Closed comparisons of keywords by computation, the rest by structure. *)
Ltac solve_avoids :=
  repeat first [ apply avoids_flag; [reflexivity|] | apply avoids_value; [reflexivity|]
               | apply avoids_list; [reflexivity|] ]; try reflexivity; try done.
Ltac read_step :=
  first [ rewrite read_flag_ok by solve_avoids | rewrite read_value_ok by solve_avoids
        | rewrite read_list_ok by (done || solve_avoids) ]; cbv beta iota.

(** The names of the documentation. *)
Definition data_type_name (t : IndexDataType) : string :=
  match t with Index_Hash => "HASH" | Index_Json => "JSON" end.
Definition language_name (l : SearchLanguage) : string :=
  match l with
  | Arabic => "ARABIC" | Armenian => "ARMENIAN" | Basque => "BASQUE" | Catalan => "CATALAN"
  | Danish => "DANISH" | Dutch => "DUTCH" | English => "ENGLISH" | Finnish => "FINNISH"
  | French => "FRENCH" | German => "GERMAN" | Greek => "GREEK" | Hindi => "HINDI"
  | Hungarian => "HUNGARIAN" | Indonesian => "INDONESIAN" | Irish => "IRISH" | Italian => "ITALIAN"
  | Lithuanian => "LITHUANIAN" | Malay => "MALAY" | Nepali => "NEPALI" | Norwegian => "NORWEGIAN"
  | Portuguese => "PORTUGUESE" | Romanian => "ROMANIAN" | Russian => "RUSSIAN" | Serbian => "SERBIAN"
  | Spanish => "SPANISH" | Swedish => "SWEDISH" | Tagalog => "TAGALOG" | Tamil => "TAMIL"
  | Turkish => "TURKISH" | Yiddish => "YIDDISH" | Chinese => "CHINESE"
  end.
Definition phonetic_name (p : Phonetic) : string :=
  match p with DmEnglish => "dm:en" | DmFrench => "dm:fr" | DmPortuguese => "dm:pt" | DmSpanish => "dm:es" end.
Definition coord_system_name (c : CoordSystem) : string :=
  match c with Spherical => "SPHERICAL" | Flat => "FLAT" end.

(** What the options of an index mean. *)
Definition index_text `{Ryu} (o : CreateOptions) : IndexText :=
  {| it_on := (fun t => bs (data_type_name t)) <$> ft_on o; it_prefixes := ft_prefixes o;
     it_filter := (fun filter => bs "'" ++ filter ++ bs "'") <$> ft_filter o;
     it_language := (fun l => bs (language_name l)) <$> ft_language o;
     it_language_field := ft_language_field o; it_score := ryu_format <$> ft_score o;
     it_score_field := ft_score_field o; it_max_text_fields := ft_max_text_fields o;
     it_no_offsets := ft_no_offsets o; it_temporary := itoa <$> ft_temporary o;
     it_no_highlight := ft_no_highlight o; it_no_fields := ft_no_fields o; it_no_freqs := ft_no_freqs o;
     it_stopwords := ft_stopwords o; it_skip_initial_scan := ft_skip_initial_scan o |}.

Lemma data_type_named (o : option IndexDataType) : IndexDataType_arg <$> o = (fun t => bs (data_type_name t)) <$> o.
Proof. by destruct o as [[]|]. Qed.
Lemma language_named (o : option SearchLanguage) : SearchLanguage_arg <$> o = (fun l => bs (language_name l)) <$> o.
Proof. by destruct o as [[]|]. Qed.
Lemma phonetic_named (o : option Phonetic) : Phonetic_arg <$> o = (fun p => bs (phonetic_name p)) <$> o.
Proof. by destruct o as [[]|]. Qed.
Lemma coord_system_named c : CoordSystem_arg c = bs (coord_system_name c).
Proof. by destruct c. Qed.

Lemma options_read `{Ryu} o rest : (Z.of_nat (length (ft_prefixes o)) <= u64_max)%Z ->
  (Z.of_nat (length (ft_stopwords o)) <= u64_max)%Z ->
  read_options (CreateOptions_args o ++ lit "SCHEMA" :: rest) = (index_text o, lit "SCHEMA" :: rest).
Proof.
  intros Hp Hs. unfold CreateOptions_args, read_options. rewrite <- !app_assoc.
  repeat read_step. unfold index_text. rewrite data_type_named, language_named.
  repeat f_equal; apply option_fmap_id.
Qed.

(** *** Fields *)

Definition common_text (type : string) (c : SchemaCommonField) : FieldText :=
  {| fx_alias := field_alias (base c); fx_type := bs type; fx_coord_system := None;
     fx_index_missing := field_index_missing (base c); fx_no_stem := false; fx_weight := None;
     fx_phonetic := None; fx_separator := None; fx_case_sensitive := false; fx_suffix_trie := false;
     fx_index_empty := false; fx_sortable := bool_decide (field_sortable c <> None);
     fx_unf := match field_sortable c with Some Sortable_Unf => true | _ => false end;
     fx_no_index := field_no_index c |}.
(** What a definition of a field means. *)
Definition field_text `{Ryu} (d : FieldDefinition) : FieldText :=
  match d with
  | Field_Numeric f => common_text "NUMERIC" (numeric_common f)
  | Field_Geo f => common_text "GEO" (geo_common f)
  | Field_Text f =>
      let c := common_text "TEXT" (text_common f) in
      {| fx_alias := fx_alias c; fx_type := fx_type c; fx_coord_system := None;
         fx_index_missing := fx_index_missing c; fx_no_stem := text_no_stem f;
         fx_weight := ryu_format <$> text_weight f; fx_phonetic := (fun p => bs (phonetic_name p)) <$> text_phonetic f;
         fx_separator := None; fx_case_sensitive := false; fx_suffix_trie := text_with_suffix_trie f;
         fx_index_empty := text_index_empty f; fx_sortable := fx_sortable c; fx_unf := fx_unf c;
         fx_no_index := fx_no_index c |}
  | Field_Tag f =>
      let c := common_text "TAG" (tag_common f) in
      {| fx_alias := fx_alias c; fx_type := fx_type c; fx_coord_system := None;
         fx_index_missing := fx_index_missing c; fx_no_stem := false; fx_weight := None; fx_phonetic := None;
         fx_separator := tag_separator f; fx_case_sensitive := tag_case_sensitive f;
         fx_suffix_trie := tag_with_suffix_trie f; fx_index_empty := tag_index_empty f;
         fx_sortable := fx_sortable c; fx_unf := fx_unf c; fx_no_index := fx_no_index c |}
  | Field_GeoShape f =>
      let c := common_text "GEOSHAPE" (shape_common f) in
      {| fx_alias := fx_alias c; fx_type := fx_type c;
         fx_coord_system := Some (bs (coord_system_name (shape_coord_system f)));
         fx_index_missing := fx_index_missing c; fx_no_stem := false; fx_weight := None; fx_phonetic := None;
         fx_separator := None; fx_case_sensitive := false; fx_suffix_trie := false; fx_index_empty := false;
         fx_sortable := fx_sortable c; fx_unf := fx_unf c; fx_no_index := fx_no_index c |}
  end.

(** A definition made by the builders. *)
Definition field_built (d : FieldDefinition) : Prop :=
  match d with
  | Field_Text f => text_field f
  | Field_Numeric f => numeric_field f
  | Field_Geo f => geo_field f
  | Field_Tag f => tag_field f
  | Field_GeoShape f => shape_field f
  end.

Lemma avoids_common kw c rest : is_kw kw (bs "SORTABLE") = false -> is_kw kw (bs "NOINDEX") = false ->
  avoids kw rest -> avoids kw (SchemaCommonField_args c ++ rest).
Proof.
  intros Hs Hn Hr. unfold SchemaCommonField_args. destruct (field_sortable c) as [[]|], (field_no_index c); done.
Qed.

Definition plain (rest : list bytes) : Prop := Forall (fun kw => avoids kw rest) attributes.
Lemma plain_avoids rest : plain rest -> forall kw, kw ∈ attributes -> avoids kw rest.
Proof. intros H kw Hk. by apply (proj1 (Forall_forall _ _) H). Qed.

Lemma common_read type c rest : plain rest ->
  read_common (SchemaCommonField_args c ++ rest) =
  (fx_sortable (common_text type c), fx_unf (common_text type c), fx_no_index (common_text type c), rest).
Proof.
  intros Hr. unfold SchemaCommonField_args, read_common, common_text. cbn [fx_sortable fx_unf fx_no_index].
  assert (avoids "NOINDEX" rest) as Hn by (apply plain_avoids; [done|set_solver]).
  assert (avoids "UNF" (if_set (field_no_index c) [lit "NOINDEX"] ++ rest)) as Hu.
  { apply avoids_flag; [done|]. apply plain_avoids; [done|set_solver]. }
  assert (avoids "SORTABLE" (if_set (field_no_index c) [lit "NOINDEX"] ++ rest)) as Hs.
  { apply avoids_flag; [done|]. apply plain_avoids; [done|set_solver]. }
  rewrite <- app_assoc. destruct (field_sortable c) as [[]|]; cbn [if_some Sortable_args app].
  - change (read_flag "SORTABLE" (lit "SORTABLE" :: ?l)) with (true, l). cbv beta iota.
    rewrite read_flag_none by done. cbv iota. by rewrite read_flag_ok.
  - change (read_flag "SORTABLE" (lit "SORTABLE" :: ?l)) with (true, l). cbv beta iota.
    change (read_flag "UNF" (lit "UNF" :: ?l)) with (true, l). cbv beta iota. by rewrite read_flag_ok.
  - rewrite read_flag_none by done. cbv iota. by rewrite read_flag_ok.
Qed.

Ltac solve_attribute :=
  repeat first [ apply avoids_flag; [reflexivity|] | apply avoids_value; [reflexivity|]
               | apply avoids_common; [reflexivity|reflexivity|] ];
  first [ done | apply plain_avoids; [assumption | by apply (bool_decide_unpack _)] ].
Ltac attribute_step :=
  first [ rewrite read_flag_ok by solve_attribute | rewrite read_value_ok by solve_attribute
        | rewrite read_flag_none by solve_attribute | rewrite read_value_none by solve_attribute ];
  cbv beta iota.
(** Read a field whose type is known, up to its common end. *)
Ltac read_known_field Ht :=
  unfold BaseSchemaField_args; rewrite Ht; cbn [FieldType_arg]; rewrite <- ?app_assoc; unfold read_field;
  attribute_step; cbn [app];
  match goal with |- context [is_kw "GEOSHAPE" ?t] =>
    let b := eval vm_compute in (is_kw "GEOSHAPE" t) in change (is_kw "GEOSHAPE" t) with b end;
  cbn [head tail]; cbv beta iota; repeat attribute_step; rewrite (common_read "TEXT") by done; cbv beta iota;
  unfold common_text; cbn [fx_alias fx_type fx_index_missing fx_sortable fx_unf fx_no_index]; rewrite ?Ht;
  rewrite ?coord_system_named, ?phonetic_named; repeat f_equal; apply option_fmap_id.

Lemma field_read `{Ryu} name d rest : field_built d -> plain rest ->
  read_field (name :: FieldDefinition_args d ++ rest) = Some (name, field_text d, rest).
Proof.
  intros Hd Hr. destruct d as [f|f|f|f|f]; simpl in Hd; cbn [FieldDefinition_args field_text].
  - apply text_field_type in Hd. unfold SchemaTextField_args. read_known_field Hd.
  - apply numeric_field_type in Hd. unfold SchemaNumericField_args. read_known_field Hd.
  - apply geo_field_type in Hd. unfold SchemaGeoField_args. read_known_field Hd.
  - apply tag_field_type in Hd. unfold SchemaTagField_args. read_known_field Hd.
  - destruct (shape_field_type _ Hd) as [Ht _]. unfold SchemaGeoShapeField_args. read_known_field Ht.
Qed.

(** *** The command *)

(** No name behind the first field is taken for an attribute of the field before
    it. *)
Definition names_plain (fs : list (bytes * FieldDefinition)) : Prop := Forall (fun f => plain [f.1]) (tail fs).

Section create.
Context `{Ryu}.

Lemma schema_fields_read fs fuel : Forall (fun f => field_built f.2) fs -> names_plain fs -> (length fs <= fuel)%nat ->
  read_fields fuel (SearchSchema_args {| schema_fields := fs |}) =
  Some (map (fun f => (f.1, field_text f.2)) fs).
Proof.
  revert fuel. induction fs as [|[name d] fs IH]; intros [|fuel] Hb Hn Hf; simpl in Hf; try (done || lia).
  apply Forall_cons in Hb as [Hd Hb]. unfold SearchSchema_args. cbn [schema_fields map concat app read_fields].
  rewrite field_read; [|done|].
  - cbn [mbind option_bind]. fold (SearchSchema_args {| schema_fields := fs |}).
    rewrite IH; [done|done| |lia]. unfold names_plain in *. simpl in Hn. by destruct Hn.
  - destruct fs as [|[name' d'] fs]; [by repeat constructor|]. apply Forall_cons in Hn as [Hn _]. exact Hn.
Qed.

Lemma schema_args_length fs : (length fs <= length (SearchSchema_args {| schema_fields := fs |}))%nat.
Proof.
  unfold SearchSchema_args. cbn [schema_fields].
  induction fs as [|[name d] fs IH]; [done|]. cbn [map concat length app]. rewrite length_app. lia.
Qed.


End create.

(** A field named like an attribute is taken for the attribute of the field
    before it. *)
Lemma field_name_as_attribute `{Ryu} :
  read_fields 9 (SearchSchema_args {| schema_fields :=
    [(bs "title", Field_Text SchemaTextField_new); (bs "noindex", Field_Numeric SchemaNumericField_new)] |})
  <> Some (map (fun f => (f.1, field_text f.2))
    [(bs "title", Field_Text SchemaTextField_new); (bs "noindex", Field_Numeric SchemaNumericField_new)]).
Proof. by vm_compute. Qed.

