(* ===== verification/Multiplexed.v ===== *)
(** * The multiplexed connection

    [aio/multiplexed_connection.rs]: many requests share one connection; the
    replies come back in the order of the requests and are handed to whoever
    waits for them.

    [PipelineSink] is a state machine driven by the executor: [poll_ready],
    [start_send], [poll_flush] and [poll_close].  What the stream and sink
    below it answer is an argument of the operation.  A [oneshot::Sender] is
    the number of the request; what was sent through it, through the push
    sender and to the cache manager is recorded in the state.  The outer
    [None] of an operation is a panic. *)

From S2P Require Import Prelude Text Float64 Combine Errors Types Parser Cmd Convert Pipeline.

(** ** Data *)

Inductive ErrorOrErrors :=
| Errors (errs : list (Z * ServerError))
| FirstError (e : RedisError).

Record PipelineResponseExpectation := {
  skipped_response_count : nat;
  expected_response_count : nat;
  exp_is_transaction : bool;
  seen_responses : nat
}.

Inductive ResponseAggregate :=
| SingleCommand
| Aggregating (buffer : list Value) (error_or_errors : ErrorOrErrors)
    (expectation : PipelineResponseExpectation).

Definition ResponseAggregate_new (expectation : option PipelineResponseExpectation) : ResponseAggregate :=
  match expectation with
  | Some expectation => Aggregating [] (Errors []) expectation
  | None => SingleCommand
  end.

Record InFlight := { output : option nat; response_aggregate : ResponseAggregate }.

Record PipelineMessage := {
  input : bytes;
  message_output : option nat;
  expectation : option PipelineResponseExpectation
}.

(** The state of the sink, and what it has sent so far: [written] to the
    stream, [answers] through the oneshot channels, [pushes] to the push
    sender, [cache_pushes] to the cache manager. *)
Record PipelineSink := {
  in_flight : list InFlight;
  sink_error : option RedisError;
  push_sender : bool;
  cache_manager : bool;
  written : list bytes;
  answers : list (nat * result RedisError Value);
  pushes : list PushInfo;
  cache_pushes : list (PushKind * list Value)
}.

Definition PipelineSink_new (push_sender cache_manager : bool) : PipelineSink :=
  {| in_flight := []; sink_error := None; push_sender := push_sender; cache_manager := cache_manager;
     written := []; answers := []; pushes := []; cache_pushes := [] |}.

Definition with_in_flight (s : PipelineSink) (l : list InFlight) : PipelineSink :=
  {| in_flight := l; sink_error := sink_error s; push_sender := push_sender s;
     cache_manager := cache_manager s; written := written s; answers := answers s;
     pushes := pushes s; cache_pushes := cache_pushes s |}.
Definition with_error (s : PipelineSink) (e : option RedisError) : PipelineSink :=
  {| in_flight := in_flight s; sink_error := e; push_sender := push_sender s;
     cache_manager := cache_manager s; written := written s; answers := answers s;
     pushes := pushes s; cache_pushes := cache_pushes s |}.

(** [output.send(result)], if there is an output. *)
Definition answer (s : PipelineSink) (output : option nat) (r : result RedisError Value) : PipelineSink :=
  match output with
  | None => s
  | Some id =>
      {| in_flight := in_flight s; sink_error := sink_error s; push_sender := push_sender s;
         cache_manager := cache_manager s; written := written s; answers := answers s ++ [(id, r)];
         pushes := pushes s; cache_pushes := cache_pushes s |}
  end.

Definition send_push (s : PipelineSink) (info : PushInfo) : PipelineSink :=
  if push_sender s then
    {| in_flight := in_flight s; sink_error := sink_error s; push_sender := push_sender s;
       cache_manager := cache_manager s; written := written s; answers := answers s;
       pushes := pushes s ++ [info]; cache_pushes := cache_pushes s |}
  else s.

Definition send_disconnect (s : PipelineSink) : PipelineSink :=
  let s := send_push s PushInfo_disconnect in
  {| in_flight := in_flight s; sink_error := sink_error s; push_sender := false;
     cache_manager := cache_manager s; written := written s; answers := answers s;
     pushes := pushes s; cache_pushes := cache_pushes s |}.

(** [cache_manager.handle_push_value(&kind, &data)]. *)
Definition cache_push (s : PipelineSink) (kind : PushKind) (data : list Value) : PipelineSink :=
  if cache_manager s then
    {| in_flight := in_flight s; sink_error := sink_error s; push_sender := push_sender s;
       cache_manager := cache_manager s; written := written s; answers := answers s;
       pushes := pushes s; cache_pushes := cache_pushes s ++ [(kind, data)] |}
  else s.

(** [sink_stream.start_send(input)] that succeeds. *)
Definition write_input (s : PipelineSink) (input : bytes) : PipelineSink :=
  {| in_flight := in_flight s; sink_error := sink_error s; push_sender := push_sender s;
     cache_manager := cache_manager s; written := written s ++ [input]; answers := answers s;
     pushes := pushes s; cache_pushes := cache_pushes s |}.

(** ** Replies *)

(** What a reply does to the entry at the front. *)
Inductive progress :=
| More (response_aggregate : ResponseAggregate)
| Complete (response : result RedisError Value).

Section sink.
Context `{BuildProfile}.

(** The [ResponseAggregate::Pipeline] branch of [send_result]. *)
Definition pipeline_reply (buffer : list Value) (error_or_errors : ErrorOrErrors)
    (e : PipelineResponseExpectation) (result : result RedisError Value) : option progress :=
  let seen := S (seen_responses e) in
  if (0 <? skipped_response_count e)%nat then
    error_or_errors ←
      match error_or_errors with
      | Errors errs =>
          if exp_is_transaction e then
            match result with
            | Ok (ServerErr err) =>
                index ← usize_sub (Z.of_nat seen) 2; Some (Errors (errs ++ [(index, err)]))
            | Err err => Some (FirstError err)
            | _ => Some error_or_errors
            end
          else Some error_or_errors
      | FirstError _ => Some error_or_errors
      end;
    Some (More (Aggregating buffer error_or_errors
      {| skipped_response_count := skipped_response_count e - 1;
         expected_response_count := expected_response_count e;
         exp_is_transaction := exp_is_transaction e; seen_responses := seen |}))
  else
    let '(buffer, error_or_errors) :=
      match result with
      | Ok item => (buffer ++ [item], error_or_errors)
      | Err err => (buffer, match error_or_errors with
                            | Errors _ => FirstError err
                            | FirstError _ => error_or_errors
                            end)
      end in
    if (length buffer <? expected_response_count e)%nat then
      Some (More (Aggregating buffer error_or_errors
        {| skipped_response_count := skipped_response_count e;
           expected_response_count := expected_response_count e;
           exp_is_transaction := exp_is_transaction e; seen_responses := seen |}))
    else
      Some (Complete match error_or_errors with
                     | Errors [] => Ok (Array buffer)
                     | Errors errors => Err (make_aborted_transaction errors)
                     | FirstError redis_error => Err redis_error
                     end).

Definition entry_reply (a : ResponseAggregate) (result : result RedisError Value) : option progress :=
  match a with
  | SingleCommand => Some (Complete result)
  | Aggregating buffer error_or_errors e => pipeline_reply buffer error_or_errors e result
  end.

(** The part of [send_result] behind the treatment of push messages. *)
Definition deliver (s : PipelineSink) (result : result RedisError Value) : option PipelineSink :=
  match in_flight s with
  | [] => Some s
  | entry :: rest =>
      p ← entry_reply (response_aggregate entry) result;
      Some (match p with
            | More a => with_in_flight s ({| output := output entry; response_aggregate := a |} :: rest)
            | Complete response => answer (with_in_flight s rest) (output entry) response
            end)
  end.

Definition send_result (s : PipelineSink) (result : result RedisError Value) : option PipelineSink :=
  match result with
  | Ok (Push kind data) =>
      if has_reply kind
      then deliver (send_push s {| push_kind := kind; push_data := data |}) result
      else Some (send_push (cache_push s kind data) {| push_kind := kind; push_data := data |})
  | _ => deliver s result
  end.

Definition send_disconnect_if_needed (s : PipelineSink) (err : RedisError) : PipelineSink :=
  if is_unrecoverable_error err then send_disconnect s else s.

(** ** Driving the sink *)

Inductive Poll (A : Type) := Pending | Ready (a : A).
#[global] Arguments Pending {A}.
#[global] Arguments Ready {A} a.

(** [poll_read], when the stream yields [items] ([None] is its end) and is
    pending after them. *)
Fixpoint poll_read (s : PipelineSink) (items : list (option (result RedisError Value)))
    : option (PipelineSink * Poll (result unit unit)) :=
  match items with
  | [] => Some (s, Pending)
  | item :: items =>
      let item := default (Err closed_connection_error) item in
      s ← send_result s item;
      match item with
      | Err err => if is_unrecoverable_error err then Some (send_disconnect s, Ready (Err ()))
                   else poll_read s items
      | Ok _ => poll_read s items
      end
  end.

(** [ready] is what [poll_ready] of the stream answers. *)
Definition poll_ready (s : PipelineSink) (items : list (option (result RedisError Value)))
    (ready : Poll (result RedisError unit)) : option (PipelineSink * Poll (result unit unit)) :=
  '(s, read) ← poll_read s items;
  match read with
  | Ready (Err _) => Some (s, Ready (Err ()))
  | _ =>
      Some (match ready with
            | Pending => (s, Pending)
            | Ready (Ok _) => (s, Ready (Ok ()))
            | Ready (Err err) => (with_error (send_disconnect_if_needed s err) (Some err), Ready (Ok ()))
            end)
  end.

(** [closed]: the receiver of the output was dropped; [sent]: what [start_send]
    of the stream answers. *)
Definition start_send (s : PipelineSink) (m : PipelineMessage) (closed : bool)
    (sent : result RedisError unit) : PipelineSink * result unit unit :=
  if (match message_output m with Some _ => closed | None => false end) then (s, Ok ())
  else
    match sink_error s with
    | Some err => (answer (with_error s None) (message_output m) (Err err), Err ())
    | None =>
        match sent with
        | Ok _ =>
            let s := write_input s (input m) in
            (with_in_flight s (in_flight s ++
               [{| output := message_output m; response_aggregate := ResponseAggregate_new (expectation m) |}]),
             Ok ())
        | Err err => (answer s (message_output m) (Err err), Err ())
        end
    end.

Definition poll_flush (s : PipelineSink) (items : list (option (result RedisError Value)))
    (flushed : Poll (result RedisError unit)) : option (PipelineSink * Poll (result unit unit)) :=
  '(s, read) ← poll_read s items;
  match read with
  | Ready (Err _) => Some (s, Ready (Err ()))
  | _ =>
      match flushed with
      | Pending => Some (s, Pending)
      | Ready (Ok _) => Some (s, Ready (Ok ()))
      | Ready (Err err) =>
          s ← send_result (send_disconnect_if_needed s err) (Err err); Some (s, Ready (Err ()))
      end
  end.

Definition poll_close (s : PipelineSink) (items : list (option (result RedisError Value)))
    (flushed closed : Poll (result RedisError unit)) : option (PipelineSink * Poll (result unit unit)) :=
  '(s, r) ← (match in_flight s with
             | [] => Some (s, Ready (Ok ()))
             | _ => poll_flush s items flushed
             end);
  match r with
  | Pending => Some (s, Pending)
  | Ready (Err _) => Some (s, Ready (Err ()))
  | Ready (Ok _) =>
      match closed with
      | Pending => Some (s, Pending)
      | Ready (Ok _) => Some (s, Ready (Ok ()))
      | Ready (Err err) => s ← send_result s (Err err); Some (s, Ready (Err ()))
      end
  end.
End sink.

(** ** The side of the caller *)

(** How waiting for the answer of a request ends. *)
Inductive outcome :=
| Received (r : result RedisError Value)
| SenderDropped
| Elapsed.

(** [From<Elapsed> for RedisError]. *)
Definition elapsed_error : RedisError := redis_error_of_io TimedOut.

(** [Pipeline::send_recv]: [sent] tells whether the driver still takes messages. *)
Definition send_recv (input : bytes) (skip_response sent : bool) (o : outcome) : result RedisError Value :=
  match input with
  | [] => Err make_empty_command
  | _ =>
      match o with
      | Elapsed => Err elapsed_error
      | _ =>
          if negb sent then Err closed_connection_error
          else if skip_response then Ok Nil
          else match o with
               | Received r => r
               | _ => Err closed_connection_error
               end
      end
  end.

(** The message of a single command, and of a pipeline. *)
Definition command_message (c : Cmd) (id : nat) : PipelineMessage :=
  {| input := get_packed_command c; message_output := if is_no_response c then None else Some id;
     expectation := None |}.

Definition pipeline_message (p : Pipeline) (offset count id : nat) : PipelineMessage :=
  {| input := get_packed_pipeline p; message_output := Some id;
     expectation := Some {| skipped_response_count := offset; expected_response_count := count;
                            exp_is_transaction := is_transaction p; seen_responses := 0 |} |}.

(** [send_packed_command] and [send_packed_commands] of a connection without a
    cache manager. *)
Definition send_packed_command (c : Cmd) (sent : bool) (o : outcome) : result RedisError Value :=
  send_recv (get_packed_command c) (is_no_response c) sent o.

Definition send_packed_commands (p : Pipeline) (sent : bool) (o : outcome) : result RedisError (list Value) :=
  value ← send_recv (get_packed_pipeline p) false sent o;
  Ok (match value with Array values => values | _ => [value] end).

(** [permit_vec_capacity] and [build_concurrency_limiter]. *)
Definition permit_vec_capacity (count limit : nat) : nat := Nat.max (Nat.min count limit) 1.
Definition build_concurrency_limiter (limit : option nat) : result RedisError (option nat) :=
  match limit with
  | Some O => Err (redis_error_of InvalidClientConfig "concurrency limit must be greater than 0")
  | Some n => Ok (Some n)
  | None => Ok None
  end.

(** ** Replies reach the requests in order *)

(** How many replies a message takes; a pipeline that expects none still takes
    one. *)
Definition need (m : PipelineMessage) : nat :=
  match expectation m with
  | None => 1
  | Some e => skipped_response_count e + Nat.max 1 (expected_response_count e)
  end.

(** The errors of the queued commands of a transaction; the first reply is that
    of [MULTI]. *)
Definition queue_errors (skipped : list Value) : list (Z * ServerError) :=
  omap (fun '(i, v) => match v with ServerErr err => Some ((Z.of_nat i - 1)%Z, err) | _ => None end)
    (imap pair skipped).

(** What the caller is given for the replies [chunk] to its message. *)
Definition reply_of (m : PipelineMessage) (chunk : list Value) : result RedisError Value :=
  match expectation m with
  | None => Ok (default Nil (head chunk))
  | Some e =>
      let skipped := take (skipped_response_count e) chunk in
      match (if exp_is_transaction e then queue_errors skipped else []) with
      | [] => Ok (Array (drop (skipped_response_count e) chunk))
      | errs => Err (make_aborted_transaction errs)
      end
  end.

(** A fresh message whose replies fit it: as many as it needs, and [MULTI]
    itself not refused. *)
Definition fits (m : PipelineMessage) (chunk : list Value) : bool :=
  (length chunk =? need m)%nat &&
  match expectation m with
  | None => true
  | Some e =>
      (seen_responses e =? 0)%nat &&
      match exp_is_transaction e && (0 <? skipped_response_count e)%nat, head chunk with
      | true, Some (ServerErr _) => false
      | _, _ => true
      end
  end.

(** The entry of a message of which the replies [got] have arrived. *)
Definition entry_of (m : PipelineMessage) (got : list Value) : InFlight :=
  {| output := message_output m;
     response_aggregate :=
       match expectation m with
       | None => SingleCommand
       | Some e =>
           let k := skipped_response_count e in
           Aggregating (drop k got)
             (Errors (if exp_is_transaction e then queue_errors (take k got) else []))
             {| skipped_response_count := k - length got;
                expected_response_count := expected_response_count e;
                exp_is_transaction := exp_is_transaction e;
                seen_responses := length got |}
       end |}.

Lemma queue_errors_snoc l v :
  queue_errors (l ++ [v]) = queue_errors l ++
    match v with ServerErr err => [((Z.of_nat (length l) - 1)%Z, err)] | _ => [] end.
Proof.
  unfold queue_errors. rewrite imap_app, omap_app. f_equal. simpl. rewrite Nat.add_0_r. by destruct v.
Qed.

Lemma entry_of_nil m : match expectation m with Some e => seen_responses e = 0 | None => True end ->
  entry_of m [] = {| output := message_output m; response_aggregate := ResponseAggregate_new (expectation m) |}.
Proof.
  unfold entry_of, ResponseAggregate_new. destruct (expectation m) as [[k c t s]|]; simpl; [|done].
  intros ->. rewrite drop_nil, take_nil, Nat.sub_0_r. unfold queue_errors. simpl. by destruct t.
Qed.

(** One more reply brings the entry forward, and the last one completes it. *)
Lemma entry_of_reply `{BuildProfile} m got v rest : fits m (got ++ v :: rest) = true ->
  entry_reply (response_aggregate (entry_of m got)) (Ok v) =
  Some (match rest with
        | [] => Complete (reply_of m (got ++ [v]))
        | _ => More (response_aggregate (entry_of m (got ++ [v])))
        end).
Proof.
  unfold fits, need, reply_of, entry_of, entry_reply. destruct (expectation m) as [[k c t s]|]; simpl.
  2:{ rewrite length_app, andb_true_r, Nat.eqb_eq. simpl. intros Hl.
      destruct got, rest; simpl in *; done || lia. }
  rewrite length_app, !andb_true_iff, !Nat.eqb_eq. simpl. intros [Hl [-> Hm]].
  unfold pipeline_reply. cbn [skipped_response_count expected_response_count exp_is_transaction seen_responses].
  destruct (0 <? k - length got) eqn:Ek.
  - apply Nat.ltb_lt in Ek.
    assert (rest <> []) as Hr by (intros ->; simpl in *; lia). destruct rest as [|v' rest]; [done|].
    assert (drop k (got ++ [v]) = []) as Ed by (apply drop_ge; rewrite length_app; simpl; lia).
    rewrite Ed, (drop_ge got) by lia. rewrite (take_ge got) by lia. rewrite take_ge by
      (rewrite length_app; simpl; lia). rewrite queue_errors_snoc, length_app. simpl.
    replace (k - (length got + 1)) with (k - length got - 1) by lia.
    replace (length got + 1) with (S (length got)) by lia. destruct t; [|done]. destruct v; try (by rewrite app_nil_r).
    destruct got as [|g got]; [by rewrite (proj2 (Nat.ltb_lt 0 k)) in Hm by (simpl in *; lia)|].
    unfold usize_sub. rewrite (proj2 (Z.leb_le _ _)) by (simpl; lia). simpl.
    do 4 f_equal. f_equal. f_equal. f_equal. lia.
  - apply Nat.ltb_ge in Ek. rewrite (take_app_le got), (drop_app_le got) by lia.
    rewrite length_app, length_drop. simpl. replace (k - length got) with 0 by lia.
    replace (k - length (got ++ [v])) with 0 by (rewrite length_app; simpl; lia).
    replace (length (got ++ [v])) with (S (length got)) by (rewrite length_app; simpl; lia).
    destruct rest as [|v' rest]; simpl in Hl.
    + rewrite (proj2 (Nat.ltb_ge _ _)) by lia. by destruct (if t then _ else _).
    + rewrite (proj2 (Nat.ltb_lt _ _)) by lia. done.
Qed.

(** A request is sent, or a value arrives. *)
Inductive event := Sent (m : PipelineMessage) | Arrived (v : Value).

Definition sink_event `{BuildProfile} (s : PipelineSink) (e : event) : option PipelineSink :=
  match e with
  | Sent m => Some (start_send s m false (Ok ())).1
  | Arrived v => fst <$> poll_read s [Some (Ok v)]
  end.
Fixpoint run_events `{BuildProfile} (s : PipelineSink) (es : list event) : option PipelineSink :=
  match es with [] => Some s | e :: es => s ← sink_event s e; run_events s es end.

Definition requests (es : list event) : list PipelineMessage :=
  omap (fun e => match e with Sent m => Some m | Arrived _ => None end) es.
Definition arrivals (es : list event) : list Value :=
  omap (fun e => match e with Sent _ => None | Arrived v => Some v end) es.
Definition is_reply (v : Value) : bool := match v with Push kind _ => has_reply kind | _ => true end.
Definition replies (es : list event) : list Value := List.filter is_reply (arrivals es).
Definition push_infos (es : list event) : list PushInfo :=
  omap (fun v => match v with
                 | Push kind data => Some {| push_kind := kind; push_data := data |}
                 | _ => None
                 end) (arrivals es).

(** A reply only arrives while a request waits for one. *)
Fixpoint causal (waiting : nat) (es : list event) : bool :=
  match es with
  | [] => true
  | Sent m :: es => causal (waiting + need m) es
  | Arrived v :: es =>
      if is_reply v then match waiting with O => false | S n => causal n es end else causal waiting es
  end.

(** The answers for messages and their replies. *)
Definition answers_of (l : list (PipelineMessage * list Value)) : list (nat * result RedisError Value) :=
  omap (fun '(m, chunk) => (fun id => (id, reply_of m chunk)) <$> message_output m) l.

(** The queue: every message with the replies it has got and those it still
    waits for. *)
Record waiting_entry := { w_msg : PipelineMessage; w_got : list Value; w_rest : list Value }.
Definition w_ok (w : waiting_entry) : Prop := fits (w_msg w) (w_got w ++ w_rest w) = true /\ w_rest w <> [].
Definition w_full (w : waiting_entry) : PipelineMessage * list Value := (w_msg w, w_got w ++ w_rest w).

Definition queue_ok (s : PipelineSink) (q : list waiting_entry) : Prop :=
  in_flight s = map (fun w => entry_of (w_msg w) (w_got w)) q /\ sink_error s = None /\ Forall w_ok q.

Lemma fits_fresh m chunk : fits m chunk = true ->
  chunk <> [] /\ match expectation m with Some e => seen_responses e = 0 | None => True end.
Proof.
  unfold fits, need. rewrite andb_true_iff, Nat.eqb_eq. intros [Hl Hf]. split.
  - intros ->. destruct (expectation m); simpl in Hl; lia.
  - destruct (expectation m); [|done]. rewrite andb_true_iff, Nat.eqb_eq in Hf. naive_solver.
Qed.

Lemma fits_length m chunk : fits m chunk = true -> length chunk = need m.
Proof. unfold fits. rewrite andb_true_iff, Nat.eqb_eq. naive_solver. Qed.

(** What a step leaves of the logs. *)
Record logs (s s' : PipelineSink) (a : list (nat * result RedisError Value)) (p : list PushInfo) : Prop := {
  logs_answers : answers s' = answers s ++ a;
  logs_pushes : pushes s' = if push_sender s then pushes s ++ p else pushes s;
  logs_sender : push_sender s' = push_sender s
}.

Lemma logs_trans s1 s2 s3 a1 a2 p1 p2 : logs s1 s2 a1 p1 -> logs s2 s3 a2 p2 ->
  logs s1 s3 (a1 ++ a2) (p1 ++ p2).
Proof.
  intros [A1 P1 S1] [A2 P2 S2]. rewrite S1 in *. split.
  - by rewrite A2, A1, <- app_assoc.
  - rewrite P2, P1. destruct (push_sender s1); [|done]. by rewrite <- app_assoc.
  - done.
Qed.

Lemma sent_step `{BuildProfile} s q m chunk : queue_ok s q -> fits m chunk = true ->
  exists s', sink_event s (Sent m) = Some s' /\
    queue_ok s' (q ++ [{| w_msg := m; w_got := []; w_rest := chunk |}]) /\ logs s s' [] [].
Proof.
  intros (Hi & He & Hq) Hf. destruct (fits_fresh m chunk Hf) as [Hne Hs]. unfold sink_event, start_send.
  assert ((match message_output m with Some _ => false | None => false end) = false) as ->
    by (by destruct (message_output m)).
  rewrite He. eexists. split; [done|]. split.
  - split_and!; simpl; [|done|].
    + by rewrite Hi, map_app, <- entry_of_nil.
    + apply Forall_app. split; [done|]. by apply Forall_singleton.
  - split; simpl; rewrite ?app_nil_r; done || by destruct (push_sender s).
Qed.

Lemma deliver_step `{BuildProfile} s w q v rest : queue_ok s (w :: q) -> w_rest w = v :: rest ->
  exists s', deliver s (Ok v) = Some s' /\
    queue_ok s' (match rest with
                 | [] => q
                 | _ => {| w_msg := w_msg w; w_got := w_got w ++ [v]; w_rest := rest |} :: q
                 end) /\
    logs s s' (match rest with [] => answers_of [w_full w] | _ => [] end) [].
Proof.
  intros (Hi & He & Hq) Hw. apply Forall_cons in Hq as [[Hf _] Hq]. rewrite Hw in Hf.
  unfold deliver. rewrite Hi. cbn [map]. rewrite (entry_of_reply _ _ _ _ Hf). cbn [mbind option_bind].
  eexists. split; [done|]. destruct rest as [|v' rest].
  - unfold w_full, answers_of. rewrite Hw. simpl. unfold answer.
    destruct (message_output (w_msg w)); (split; [split_and!|split]); simpl; rewrite ?app_nil_r; try done;
      by destruct (push_sender s).
  - split; [split_and!|split]; simpl; rewrite ?app_nil_r; try done; [|by destruct (push_sender s)].
    constructor; [|done]. split; [|done]. simpl. by rewrite <- app_assoc.
Qed.

Definition push_of (v : Value) : list PushInfo :=
  match v with Push kind data => [{| push_kind := kind; push_data := data |}] | _ => [] end.

Lemma send_push_logs s q info : queue_ok s q ->
  queue_ok (send_push s info) q /\ logs s (send_push s info) [] [info].
Proof.
  intros (Hi & He & Hq). unfold send_push.
  destruct (push_sender s) eqn:E; (split; [split_and!|split]); simpl; rewrite ?app_nil_r, ?E; done.
Qed.

Lemma arrived_aside `{BuildProfile} s q v : queue_ok s q -> is_reply v = false ->
  exists s', sink_event s (Arrived v) = Some s' /\ queue_ok s' q /\ logs s s' [] (push_of v).
Proof.
  intros Hq Hv. destruct v; try discriminate. simpl in Hv. unfold sink_event. simpl. rewrite Hv. simpl.
  eexists. split; [done|].
  assert (queue_ok (cache_push s kind data) q /\ logs s (cache_push s kind data) [] []) as [Hc Hl].
  { destruct Hq as (? & ? & ?). unfold cache_push. destruct (cache_manager s); (split; [split_and!|split]);
      simpl; rewrite ?app_nil_r; try done; by destruct (push_sender s). }
  destruct (send_push_logs _ q {| push_kind := kind; push_data := data |} Hc) as [? Hs]. split; [done|].
  exact (logs_trans _ _ _ _ _ _ _ Hl Hs).
Qed.

Lemma arrived_reply `{BuildProfile} s w q v rest : queue_ok s (w :: q) -> w_rest w = v :: rest ->
  is_reply v = true ->
  exists s', sink_event s (Arrived v) = Some s' /\
    queue_ok s' (match rest with
                 | [] => q
                 | _ => {| w_msg := w_msg w; w_got := w_got w ++ [v]; w_rest := rest |} :: q
                 end) /\
    logs s s' (match rest with [] => answers_of [w_full w] | _ => [] end) (push_of v).
Proof.
  intros Hq Hw Hv.
  assert (sink_event s (Arrived v) =
    deliver (match v with
             | Push kind data => send_push s {| push_kind := kind; push_data := data |}
             | _ => s
             end) (Ok v)) as ->.
  { unfold sink_event. simpl. unfold send_result.
    destruct v; simpl in Hv; rewrite ?Hv; destruct (deliver _ _); done. }
  destruct v; try (destruct (deliver_step s w q _ rest Hq Hw) as (s' & -> & ? & ?); exists s'; done).
  destruct (send_push_logs s _ {| push_kind := kind; push_data := data |} Hq) as [Hq' Hl].
  destruct (deliver_step _ w q _ rest Hq' Hw) as (s' & -> & ? & ?). exists s'. split; [done|]. split; [done|].
  by eapply (logs_trans _ _ _ [] _ [_] []).
Qed.

Lemma answers_of_app l1 l2 : answers_of (l1 ++ l2) = answers_of l1 ++ answers_of l2.
Proof. apply omap_app. Qed.

Lemma replies_arrived v es :
  replies (Arrived v :: es) = (if is_reply v then [v] else []) ++ replies es.
Proof. unfold replies, arrivals. simpl. by destruct (is_reply v). Qed.
Lemma push_infos_arrived v es : push_infos (Arrived v :: es) = push_of v ++ push_infos es.
Proof. unfold push_infos, arrivals. simpl. by destruct v. Qed.

Lemma run_queue `{BuildProfile} es s q chunks : queue_ok s q ->
  Forall2 (fun m chunk => fits m chunk = true) (requests es) chunks ->
  replies es = concat (map w_rest q) ++ concat chunks ->
  causal (length (concat (map w_rest q))) es = true ->
  exists s', run_events s es = Some s' /\ queue_ok s' [] /\
    logs s s' (answers_of (map w_full q ++ zip (requests es) chunks)) (push_infos es).
Proof.
  revert s q chunks. induction es as [|e es IH]; intros s q chunks Hq Hc Hr Hcau.
  - apply Forall2_nil_inv_l in Hc as ->. exists s. split; [done|]. destruct q as [|w q].
    + split; [done|]. split; simpl; rewrite ?app_nil_r; done || by destruct (push_sender s).
    + destruct Hq as (_ & _ & Hw). apply Forall_cons in Hw as [[_ Hw] _]. cbn in Hr.
      by destruct (w_rest w).
  - destruct e as [m|v].
    + apply Forall2_cons_inv_l in Hc as (chunk & chunks' & Hf & Hc & ->).
      destruct (sent_step s q m chunk Hq Hf) as (s1 & E1 & Hq1 & Hl1).
      destruct (IH s1 _ chunks' Hq1 Hc) as (s' & E2 & Hq2 & Hl2).
      * rewrite map_app, concat_app. simpl. rewrite app_nil_r, <- app_assoc. exact Hr.
      * rewrite map_app, concat_app. simpl. rewrite app_nil_r, length_app, (fits_length _ _ Hf). exact Hcau.
      * exists s'. cbn [run_events]. rewrite E1. split; [exact E2|]. split; [done|].
        pose proof (logs_trans _ _ _ _ _ _ _ Hl1 Hl2) as Hl. cbn [app] in Hl.
        rewrite map_app, <- app_assoc in Hl. exact Hl.
    + cbn [causal] in Hcau. rewrite replies_arrived in Hr. rewrite push_infos_arrived.
      change (requests (Arrived v :: es)) with (requests es) in *. destruct (is_reply v) eqn:Hv.
      * destruct q as [|w q]; [done|]. pose proof Hq as (_ & _ & [[_ Hne] _]%Forall_cons).
        cbn [map concat] in Hr, Hcau. destruct (w_rest w) as [|v0 rest] eqn:Ew; [done|].
        cbn [app] in Hr. injection Hr as <- Hr.
        destruct (arrived_reply s w q v rest Hq Ew Hv) as (s1 & E1 & Hq1 & Hl1).
        destruct (IH s1 _ chunks Hq1 Hc) as (s' & E2 & Hq2 & Hl2).
        -- etrans; [exact Hr|]. by destruct rest.
        -- simpl in Hcau. by destruct rest.
        -- exists s'. cbn [run_events]. rewrite E1. split; [exact E2|]. split; [done|].
           pose proof (logs_trans _ _ _ _ _ _ _ Hl1 Hl2) as Hl. cbn [map].
           destruct rest as [|v' rest]; [by rewrite <- answers_of_app in Hl|]. cbn [app map] in Hl.
           replace (w_full w) with (w_msg w, (w_got w ++ [v]) ++ v' :: rest); [done|].
           unfold w_full. by rewrite Ew, <- app_assoc.
      * destruct (arrived_aside s q v Hq Hv) as (s1 & E1 & Hq1 & Hl1).
        destruct (IH s1 q chunks Hq1 Hc Hr Hcau) as (s' & E2 & Hq2 & Hl2).
        exists s'. cbn [run_events]. rewrite E1. split; [exact E2|]. split; [done|].
        exact (logs_trans _ _ _ _ _ _ _ Hl1 Hl2).
Qed.

(** C3. Replies are handed to the requests in order.  Whatever the interleaving
    of requests being sent and values arriving, as long as a reply only arrives
    while a request waits for one: every request gets exactly the replies that
    answer it (one for a single command; for a pipeline those behind the
    skipped ones as an array, or the errors of the queued commands of a
    transaction), push messages that answer no request are passed on and
    disturb nothing, and in the end no request is waiting. *)
Theorem replies_matched `{BuildProfile} (es : list event) (chunks : list (list Value)) (ps cm : bool)
    (Hc : Forall2 (fun m chunk => fits m chunk = true) (requests es) chunks)
    (Hr : replies es = concat chunks) (Hcau : causal 0 es = true) :
  exists s, run_events (PipelineSink_new ps cm) es = Some s /\
    in_flight s = [] /\
    answers s = answers_of (zip (requests es) chunks) /\
    pushes s = (if ps then push_infos es else []).
Proof.
  destruct (run_queue es (PipelineSink_new ps cm) [] chunks) as (s & E & Hq & [A P _]); [|done..|].
  - by split_and!.
  - exists s. split_and!; [done|by destruct Hq|done|done].
Qed.

(** ** Every request is answered at most once *)

Definition ids (s : PipelineSink) : list nat := map fst (answers s) ++ omap output (in_flight s).
Definition disconnections (s : PipelineSink) : nat :=
  length (filter (fun i => push_kind i = Disconnection) (pushes s)).

(** The parser never makes a disconnection message of what the server sends. *)
Lemma get_push_kind_not_disconnection k : get_push_kind k <> Disconnection.
Proof. unfold get_push_kind. by repeat case_match. Qed.

Definition from_server (item : result RedisError Value) : Prop :=
  match item with Ok (Push Disconnection _) => False | _ => True end.
Definition items_ok (items : list (option (result RedisError Value))) : Prop :=
  Forall (fun i => match i with Some r => from_server r | None => True end) items.

(** The executor drives the sink; every request has an output of its own. *)
Inductive sink_step `{BuildProfile} : PipelineSink -> PipelineSink -> Prop :=
| Step_ready s items ready s' r : items_ok items ->
    poll_ready s items ready = Some (s', r) -> sink_step s s'
| Step_send s m closed sent : (forall id, message_output m = Some id -> id ∉ ids s) ->
    sink_step s (start_send s m closed sent).1
| Step_flush s items flushed s' r : items_ok items ->
    poll_flush s items flushed = Some (s', r) -> sink_step s s'
| Step_close s items flushed closed s' r : items_ok items ->
    poll_close s items flushed closed = Some (s', r) -> sink_step s s'.

Definition sink_reachable `{BuildProfile} (ps cm : bool) : PipelineSink -> Prop :=
  rtc sink_step (PipelineSink_new ps cm).

Record sink_inv (s : PipelineSink) : Prop := {
  inv_ids : NoDup (ids s);
  inv_disconnections : disconnections s + (if push_sender s then 1 else 0) <= 1
}.

Lemma deliver_ids `{BuildProfile} s r s' : deliver s r = Some s' ->
  ids s' = ids s /\ pushes s' = pushes s /\ push_sender s' = push_sender s.
Proof.
  unfold deliver, ids. destruct (in_flight s) as [|entry rest] eqn:E.
  { intros [= <-]. by rewrite E. }
  destruct (entry_reply (response_aggregate entry) r) as [[a|res]|]; simpl; [| |done]; intros [= <-].
  - done.
  - unfold answer. destruct (output entry); simpl; [|done]. by rewrite map_app, <- app_assoc.
Qed.

Lemma send_push_inv s info : push_kind info <> Disconnection -> sink_inv s -> sink_inv (send_push s info).
Proof.
  intros Hk [Hi Hd]. unfold send_push. destruct (push_sender s) eqn:E; [|by split; rewrite ?E].
  split; [done|]. unfold disconnections in *. simpl. rewrite filter_app, length_app, filter_cons, decide_False by done.
  rewrite filter_nil. simpl. lia.
Qed.

Lemma send_disconnect_inv s : sink_inv s -> sink_inv (send_disconnect s).
Proof.
  intros [Hi Hd]. unfold send_disconnect, send_push. destruct (push_sender s) eqn:E; (split; [done|]).
  - unfold disconnections in *. simpl. rewrite filter_app, length_app, filter_cons, decide_True by done.
    rewrite filter_nil. simpl. lia.
  - simpl. unfold disconnections in *. simpl. lia.
Qed.

Lemma sink_inv_ext s s' : ids s' = ids s -> pushes s' = pushes s -> push_sender s' = push_sender s ->
  sink_inv s -> sink_inv s'.
Proof. intros E1 E2 E3 [Hi Hd]. split; [by rewrite E1|]. unfold disconnections in *. by rewrite E2, E3. Qed.

Lemma deliver_inv `{BuildProfile} s r s' : deliver s r = Some s' -> sink_inv s -> sink_inv s'.
Proof. intros (E1 & E2 & E3)%deliver_ids. by apply sink_inv_ext. Qed.

Lemma send_result_inv `{BuildProfile} s r s' : from_server r -> send_result s r = Some s' ->
  sink_inv s -> sink_inv s'.
Proof.
  intros Hr E Hs. unfold send_result in E.
  destruct r as [v|e]; [|by eapply deliver_inv]. destruct v; try (by eapply deliver_inv).
  assert (kind <> Disconnection) as Hk by (by intros ->). case_match.
  - eapply deliver_inv; [exact E|]. by apply send_push_inv.
  - simplify_eq. apply send_push_inv; [done|]. unfold cache_push. case_match; [|done].
    by eapply sink_inv_ext; [..|exact Hs].
Qed.

Lemma poll_read_inv `{BuildProfile} items s s' r : items_ok items -> poll_read s items = Some (s', r) ->
  sink_inv s -> sink_inv s'.
Proof.
  revert s. induction items as [|item items IH]; intros s Hi E Hs; simpl in E; [by simplify_eq|].
  apply Forall_cons in Hi as [Hitem Hi].
  destruct (send_result s (default (Err closed_connection_error) item)) as [s1|] eqn:E1; [|done].
  simpl in E. assert (sink_inv s1) as Hs1 by (eapply send_result_inv; [|exact E1|done]; by destruct item).
  destruct item as [[v|e]|]; simpl in E; [by eapply IH| |].
  - case_match; [|by eapply IH]. simplify_eq. by apply send_disconnect_inv.
  - simplify_eq. by apply send_disconnect_inv.
Qed.

Lemma disconnect_if_needed_inv s err : sink_inv s -> sink_inv (send_disconnect_if_needed s err).
Proof. unfold send_disconnect_if_needed. case_match; [apply send_disconnect_inv|done]. Qed.

Lemma poll_ready_inv `{BuildProfile} s items ready s' r : items_ok items ->
  poll_ready s items ready = Some (s', r) -> sink_inv s -> sink_inv s'.
Proof.
  unfold poll_ready. intros Hi E Hs. destruct (poll_read s items) as [[s1 r1]|] eqn:E1; [|done]. simpl in E.
  pose proof (poll_read_inv _ _ _ _ Hi E1 Hs) as Hs1.
  destruct r1 as [|[|]], ready as [|[|err]]; simplify_eq; try done.
  all: eapply sink_inv_ext; [..|exact (disconnect_if_needed_inv _ err Hs1)]; done.
Qed.

Lemma poll_flush_inv `{BuildProfile} s items flushed s' r : items_ok items ->
  poll_flush s items flushed = Some (s', r) -> sink_inv s -> sink_inv s'.
Proof.
  unfold poll_flush. intros Hi E Hs. destruct (poll_read s items) as [[s1 r1]|] eqn:E1; [|done]. simpl in E.
  pose proof (poll_read_inv _ _ _ _ Hi E1 Hs) as Hs1.
  destruct r1 as [|[|]], flushed as [|[|err]]; simplify_eq; try done.
  all: destruct (deliver (send_disconnect_if_needed s1 err) (Err err)) as [s2|] eqn:E2; simplify_eq/=;
    eapply deliver_inv; [exact E2|by apply disconnect_if_needed_inv].
Qed.

Lemma poll_close_inv `{BuildProfile} s items flushed closed s' r : items_ok items ->
  poll_close s items flushed closed = Some (s', r) -> sink_inv s -> sink_inv s'.
Proof.
  unfold poll_close. intros Hi E Hs.
  destruct (match in_flight s with [] => _ | _ => _ end) as [[s1 r1]|] eqn:E1; [|done]. simpl in E.
  assert (sink_inv s1) as Hs1.
  { destruct (in_flight s); [by simplify_eq|by eapply poll_flush_inv]. }
  destruct r1 as [|[|]], closed as [|[|err]]; simplify_eq; try done.
  destruct (deliver s1 (Err err)) as [s2|] eqn:E2; simplify_eq/=. by eapply deliver_inv.
Qed.

Lemma answer_inv s m e : (forall id, message_output m = Some id -> id ∉ ids s) -> sink_inv s ->
  sink_inv (answer s (message_output m) e).
Proof.
  intros Hf [Hi Hd]. unfold answer. destruct (message_output m) as [id|]; [|done]. split; [|done].
  unfold ids in *. simpl. rewrite map_app, <- app_assoc. simpl.
  assert (map fst (answers s) ++ id :: omap output (in_flight s) ≡ₚ
          id :: map fst (answers s) ++ omap output (in_flight s)) as -> by (symmetry; apply Permutation_middle).
  apply NoDup_cons. split; [by apply Hf|done].
Qed.

Lemma start_send_inv s m closed sent : (forall id, message_output m = Some id -> id ∉ ids s) ->
  sink_inv s -> sink_inv (start_send s m closed sent).1.
Proof.
  intros Hf Hs. unfold start_send. case_match; [done|].
  destruct (sink_error s).
  - apply answer_inv; [done|]. by eapply sink_inv_ext; [..|exact Hs].
  - destruct sent; simpl; [|by apply answer_inv]. destruct Hs as [Hi Hd]. split; [|done].
    unfold ids in *. simpl. rewrite omap_app, app_assoc. simpl. destruct (message_output m) as [id|]; simpl;
      [|by rewrite app_nil_r]. apply NoDup_app. split_and!; [done| |apply NoDup_singleton].
    intros x Hx ->%list_elem_of_singleton. by eapply Hf.
Qed.

Lemma sink_step_inv `{BuildProfile} s s' : sink_step s s' -> sink_inv s -> sink_inv s'.
Proof.
  intros [????? Hi E|? m ?? Hf|????? Hi E|?????? Hi E] Hs.
  - by eapply poll_ready_inv.
  - by apply start_send_inv.
  - by eapply poll_flush_inv.
  - by eapply poll_close_inv.
Qed.

(** C8. Whatever the executor does and the stream answers, errors and the end of
    the stream included, no request is ever answered twice, a request that was
    answered is not waiting any more, and the push sender is told of the
    disconnection at most once. *)
Theorem answered_at_most_once `{BuildProfile} (ps cm : bool) (s : PipelineSink)
    (Hr : sink_reachable ps cm s) :
  NoDup (map fst (answers s)) /\
  (forall id, id ∈ map fst (answers s) -> id ∉ omap output (in_flight s)) /\
  disconnections s <= 1.
Proof.
  assert (sink_inv s) as [Hi Hd].
  { assert (sink_inv (PipelineSink_new ps cm)) as H0 by (split; [apply NoDup_nil_2|by destruct ps; simpl; lia]).
    revert H0. unfold sink_reachable in Hr. induction Hr as [|s1 s2 s3 Hstep _ IH]; [done|].
    intros H1. by apply IH, (sink_step_inv _ _ Hstep). }
  unfold ids in Hi. apply NoDup_app in Hi as (Ha & Hd' & _). split; [done|]. split; [by apply Hd'|lia].
Qed.

(** A transaction whose [MULTI] the server refuses with an error: computing
    the position of the error underflows, which stops the driver in a debug
    build and reports the position [usize::MAX] in a release build. *)
Theorem refused_multi_underflows `{B : BuildProfile} (s : PipelineSink) (p : Pipeline)
    (offset count id : nat) (e : ServerError) (Ht : is_transaction p = true) (Ho : 0 < offset)
    (Hs : sink_error s = None) (Hi : in_flight s = []) :
  send_result (start_send s (pipeline_message p offset count id) false (Ok ())).1 (Ok (ServerErr e)) =
  if overflow_checks then None
  else Some (with_in_flight (write_input s (get_packed_pipeline p))
    [{| output := Some id;
        response_aggregate := Aggregating [] (Errors [(usize_max, e)])
          {| skipped_response_count := offset - 1; expected_response_count := count;
             exp_is_transaction := true; seen_responses := 1 |} |}]).
Proof.
  unfold start_send. cbn [pipeline_message message_output]. rewrite Hs. cbn [fst send_result].
  unfold deliver. cbn [with_in_flight in_flight write_input]. rewrite Hi. cbn [app].
  cbn [response_aggregate expectation ResponseAggregate_new pipeline_message entry_reply].
  unfold pipeline_reply. cbn [skipped_response_count exp_is_transaction seen_responses expected_response_count].
  rewrite (proj2 (Nat.ltb_lt _ _)) by done. rewrite Ht. by destruct B.
Qed.

(** ** Witnesses *)

Definition get_message (id : nat) : PipelineMessage := command_message (write_arg (cmd "GET") (bs "k")) id.
Definition pipe_message (id : nat) : PipelineMessage := pipeline_message
  (atomic (add_command (add_command Pipeline_new (cmd "PING")) (cmd "TIME"))) 3 1 id.

Definition sample_events : list event :=
  [Sent (get_message 0); Arrived (Push Message []); Sent (pipe_message 1); Arrived (Int 7);
   Arrived Okay; Arrived (SimpleString (bs "QUEUED")); Sent (get_message 2);
   Arrived (SimpleString (bs "QUEUED")); Arrived (Push Invalidate []); Arrived (Array [Nil]); Arrived (Int 8)].

Lemma replies_matched_witness :
  exists s, run_events (H := true) (PipelineSink_new true false) sample_events = Some s /\ in_flight s = [] /\
    answers s = [(0, Ok (Int 7)); (1, Ok (Array [Array [Nil]])); (2, Ok (Int 8))] /\ length (pushes s) = 2.
Proof.
  destruct (@replies_matched true sample_events
    [[Int 7]; [Okay; SimpleString (bs "QUEUED"); SimpleString (bs "QUEUED"); Array [Nil]]; [Int 8]] true false)
    as (s & E & Hi & Ha & Hp).
  - repeat constructor.
  - reflexivity.
  - reflexivity.
  - exists s. split; [exact E|]. split; [exact Hi|]. split; [rewrite Ha; reflexivity|rewrite Hp; reflexivity].
Defined.

Lemma answered_at_most_once_witness : exists s,
  sink_reachable (H := true) true false s /\ answers s = [(0, Err closed_connection_error)] /\ disconnections s <= 1.
Proof.
  set (s1 := (start_send (PipelineSink_new true false) (get_message 0) false (Ok ())).1).
  destruct (poll_flush (H := true) s1 [None] Pending) as [[s2 r]|] eqn:E; [|vm_compute in E; discriminate].
  assert (sink_reachable (H := true) true false s2) as Hr.
  { apply rtc_l with s1; [apply Step_send; intros id _ Hin; vm_compute in Hin; inversion Hin|].
    apply rtc_once. apply (@Step_flush true s1 [None] Pending s2 r); [repeat constructor|exact E]. }
  exists s2. split; [exact Hr|]. split.
  - vm_compute in E. injection E as <- _. reflexivity.
  - apply (@answered_at_most_once true true false s2 Hr).
Defined.

Lemma refused_multi_underflows_witness :
  send_result (H := true) (start_send (PipelineSink_new false false) (pipe_message 1) false (Ok ())).1
    (Ok (ServerErr (Repr_Extension (bs "X") None))) = None.
Proof.
  apply (@refused_multi_underflows true (PipelineSink_new false false)
    (atomic (add_command (add_command Pipeline_new (cmd "PING")) (cmd "TIME"))) 3 1 1
    (Repr_Extension (bs "X") None)); [reflexivity|lia|reflexivity|reflexivity].
Defined.
