(* ===== verification/Subscription.v ===== *)
(** * The subscription tracker: [redis/src/subscription_tracker.rs]

    A connection manager remembers which channels its user subscribed to, so
    that it can subscribe to them again on a new connection.  A
    [HashSet<Vec<u8>>] is a [gset] that is iterated in [hash_order]. *)

From S2P Require Import Prelude Text Float64 Combine Errors Types Parser Codec Cmd Convert Pipeline.

Record SubscriptionTracker := {
  subscriptions : gset bytes;
  s_subscriptions : gset bytes;
  p_subscriptions : gset bytes
}.

Definition SubscriptionTracker_default : SubscriptionTracker :=
  {| subscriptions := ∅; s_subscriptions := ∅; p_subscriptions := ∅ |}.

(** [SubscriptionAction], with prefixed constructors. *)
Inductive SubscriptionAction :=
| Do_Subscribe | Do_Unsubscribe | Do_PSubscribe | Do_PUnsubscribe | Do_SSubscribe | Do_Sunsubscribe.

#[export] Instance SubscriptionAction_eq_dec : EqDecision SubscriptionAction.
Proof. solve_decision. Defined.

Definition additive (a : SubscriptionAction) : bool :=
  match a with
  | Do_Subscribe | Do_PSubscribe | Do_SSubscribe => true
  | Do_Unsubscribe | Do_PUnsubscribe | Do_Sunsubscribe => false
  end.

Definition simple_args (l : list (Arg bytes)) : list bytes :=
  omap (fun arg => match arg with Simple arg => Some arg | Cursor => None end) l.

Definition to_request (c : Cmd) : option (SubscriptionAction * list bytes) :=
  match args_iter c with
  | Simple first_arg :: args_iter =>
      first_arg ← to_option (from_utf8 first_arg);
      let args := simple_args args_iter in
      if eq_ignore_ascii_case first_arg (bs "SUBSCRIBE") then Some (Do_Subscribe, args)
      else if eq_ignore_ascii_case first_arg (bs "PSUBSCRIBE") then Some (Do_PSubscribe, args)
      else if eq_ignore_ascii_case first_arg (bs "SSUBSCRIBE") then Some (Do_SSubscribe, args)
      else if eq_ignore_ascii_case first_arg (bs "UNSUBSCRIBE") then Some (Do_Unsubscribe, args)
      else if eq_ignore_ascii_case first_arg (bs "PUNSUBSCRIBE") then Some (Do_PUnsubscribe, args)
      else if eq_ignore_ascii_case first_arg (bs "SUNSUBSCRIBE") then Some (Do_Sunsubscribe, args)
      else None
  | _ => None
  end.

(** The three kinds of subscriptions, and the set of each. *)
Inductive channel_kind := Plain | Pattern | Sharded.

#[export] Instance channel_kind_eq_dec : EqDecision channel_kind.
Proof. solve_decision. Defined.

Definition kind_of (a : SubscriptionAction) : channel_kind :=
  match a with
  | Do_Subscribe | Do_Unsubscribe => Plain
  | Do_PSubscribe | Do_PUnsubscribe => Pattern
  | Do_SSubscribe | Do_Sunsubscribe => Sharded
  end.

Definition tracked (t : SubscriptionTracker) (k : channel_kind) : gset bytes :=
  match k with Plain => subscriptions t | Pattern => p_subscriptions t | Sharded => s_subscriptions t end.

Definition with_tracked (t : SubscriptionTracker) (k : channel_kind) (s : gset bytes) : SubscriptionTracker :=
  match k with
  | Plain => {| subscriptions := s; s_subscriptions := s_subscriptions t; p_subscriptions := p_subscriptions t |}
  | Pattern => {| subscriptions := subscriptions t; s_subscriptions := s_subscriptions t; p_subscriptions := s |}
  | Sharded => {| subscriptions := subscriptions t; s_subscriptions := s; p_subscriptions := p_subscriptions t |}
  end.

Definition update_with_request (t : SubscriptionTracker) (action : SubscriptionAction) (args : list bytes)
    : SubscriptionTracker :=
  let k := kind_of action in
  with_tracked t k
    (if additive action then foldl (fun set sub => {[sub]} ∪ set) (tracked t k) args
     else foldl (fun set sub => set ∖ {[sub]}) (tracked t k) args).

Definition update_with_cmd (t : SubscriptionTracker) (c : Cmd) : SubscriptionTracker :=
  match to_request c with
  | Some (action, args) => update_with_request t action args
  | None => t
  end.

Section pipeline.
Context `{HashOrder}.

(** One block of [get_subscription_pipeline]; [None] is the panic of an
    argument added to an empty pipeline. *)
Definition add_subscriptions (p : option Pipeline) (name : string) (channels : gset bytes) : option Pipeline :=
  pipeline ← p;
  if bool_decide (channels = ∅) then Some pipeline
  else foldl (fun p channel => pipeline ← p; pipeline_arg pipeline [channel])
         (Some (pipeline_cmd pipeline name)) (hash_order (elements channels)).

Definition get_subscription_pipeline (t : SubscriptionTracker) : option Pipeline :=
  let p := add_subscriptions (Some Pipeline_new) "SUBSCRIBE" (subscriptions t) in
  let p := add_subscriptions p "SSUBSCRIBE" (s_subscriptions t) in
  add_subscriptions p "PSUBSCRIBE" (p_subscriptions t).
End pipeline.

(** ** What is tracked *)

Lemma tracked_with t k k' s :
  tracked (with_tracked t k s) k' = if decide (k = k') then s else tracked t k'.
Proof. by destruct k, k'. Qed.

Lemma foldl_insert_set (l : list bytes) (s : gset bytes) :
  foldl (fun set sub => {[sub]} ∪ set) s l = s ∪ list_to_set l.
Proof. revert s. induction l as [|a l IH]; intros s; simpl; [set_solver|]. rewrite IH. set_solver. Qed.

Lemma foldl_remove_set (l : list bytes) (s : gset bytes) :
  foldl (fun set sub => set ∖ {[sub]}) s l = s ∖ list_to_set l.
Proof. revert s. induction l as [|a l IH]; intros s; simpl; [set_solver|]. rewrite IH. set_solver. Qed.

Lemma update_tracked t a args k ch :
  ch ∈ tracked (update_with_request t a args) k <->
  if decide (kind_of a = k /\ ch ∈ args) then additive a = true else ch ∈ tracked t k.
Proof.
  unfold update_with_request. rewrite tracked_with, foldl_insert_set, foldl_remove_set.
  destruct (decide (kind_of a = k)) as [<-|Hk].
  - destruct (decide (ch ∈ args)) as [Hin|Hin]; [rewrite decide_True by done|rewrite decide_False by naive_solver];
      destruct (additive a); set_solver.
  - by rewrite decide_False by naive_solver.
Qed.

(** ** The specification: who named a channel last *)

(** [c] is the command [name], in any case, with [ch] among its arguments. *)
Definition names (c : Cmd) (name : string) (ch : bytes) : Prop :=
  exists n l, args_iter c = Simple n :: l /\ eq_ignore_ascii_case n (bs name) = true /\ Simple ch ∈ l.

(** Some command [on] named [ch], and no command [off] has named it since. *)
Definition last_named (on off : string) (ch : bytes) (cs : list Cmd) : Prop :=
  exists before c after, cs = before ++ c :: after /\ names c on ch /\
    Forall (fun c' => ~ names c' off ch) after.

Lemma last_named_nil on off ch : ~ last_named on off ch [].
Proof. by intros ([|? ?] & ? & ? & ? & _). Qed.

Lemma last_named_snoc on off ch cs c :
  last_named on off ch (cs ++ [c]) <-> names c on ch \/ (~ names c off ch /\ last_named on off ch cs).
Proof.
  split.
  - intros (before & c' & after & E & Hc & Ha). destruct after as [|x after _] using rev_ind.
    + apply app_inj_tail in E as [-> ->]. by left.
    + rewrite app_comm_cons, app_assoc in E. apply app_inj_tail in E as [-> ->].
      apply Forall_app in Ha as [Ha Hx]. rewrite Forall_singleton in Hx. right. split; [exact Hx|]. by exists before, c', after.
  - intros [Hc|[Hc (before & c' & after & -> & Hc' & Ha)]]; [by exists cs, c, []|].
    exists before, c', (after ++ [c]). rewrite <- app_assoc. split; [done|]. split; [done|].
    apply Forall_app. split; [done|]. by rewrite Forall_singleton.
Qed.

(** The names of the six commands, as they are upper-cased. *)
Definition action_name (a : SubscriptionAction) : string :=
  match a with
  | Do_Subscribe => "SUBSCRIBE" | Do_Unsubscribe => "UNSUBSCRIBE" | Do_PSubscribe => "PSUBSCRIBE"
  | Do_PUnsubscribe => "PUNSUBSCRIBE" | Do_SSubscribe => "SSUBSCRIBE" | Do_Sunsubscribe => "SUNSUBSCRIBE"
  end.

Lemma upper_ascii (b : byte) : (byte_Z (to_ascii_uppercase_byte b) < 128)%Z -> (byte_Z b < 128)%Z.
Proof. destruct b; vm_compute; congruence. Qed.

Lemma action_name_valid n a : eq_ignore_ascii_case n (bs (action_name a)) = true -> from_utf8 n = Ok n.
Proof.
  unfold eq_ignore_ascii_case. intros E%bytes_eqb_true. apply from_utf8_Ok. split; [|done].
  apply utf8_valid_ascii. apply (Forall_impl (fun b => (byte_Z (to_ascii_uppercase_byte b) < 128)%Z));
    [|intros b; apply upper_ascii].
  apply (proj1 (List.Forall_map to_ascii_uppercase_byte (fun b => byte_Z b < 128)%Z n)).
  change (Forall (fun b => byte_Z b < 128)%Z (to_ascii_uppercase n)). rewrite E. by destruct a; repeat constructor.
Qed.

Lemma action_name_inj n a a' : eq_ignore_ascii_case n (bs (action_name a)) = true ->
  eq_ignore_ascii_case n (bs (action_name a')) = true -> a = a'.
Proof.
  unfold eq_ignore_ascii_case. intros E%bytes_eqb_true E'%bytes_eqb_true. rewrite E in E'.
  by destruct a, a'; vm_compute in E'.
Qed.

Lemma simple_args_elem l ch : ch ∈ simple_args l <-> Simple ch ∈ l.
Proof.
  unfold simple_args. rewrite list_elem_of_omap. split.
  - intros ([x|] & Hx & [= ->]). done.
  - intros Hx. by exists (Simple ch).
Qed.

(** A command names a channel exactly if it is read as that request for it. *)
Lemma to_request_names c a ch :
  names c (action_name a) ch <-> exists args, to_request c = Some (a, args) /\ ch ∈ args.
Proof.
  unfold names, to_request. split.
  - intros (n & l & -> & Hn & Hch). exists (simple_args l). rewrite (action_name_valid n a Hn).
    cbn [mbind option_bind to_option]. split; [|by apply simple_args_elem].
    repeat (case_match; [f_equal; f_equal; symmetry;
      lazymatch goal with H : eq_ignore_ascii_case n (bs ?s) = true |- a = ?a' =>
        exact (action_name_inj n a a' Hn H) end|]).
    destruct a; simpl in *; congruence.
  - intros (args & E & Hch). destruct (args_iter c) as [|[n|] l]; [done| |done].
    destruct (from_utf8 n) as [n'|] eqn:Hn; [|done]. apply from_utf8_Ok in Hn as [_ ->].
    cbn [mbind option_bind to_option] in E. exists n, l. split; [done|].
    repeat (case_match; [simplify_eq; split; [done|by apply simple_args_elem]|]). done.
Qed.

(** The pair of commands of each kind. *)
Definition subscribing (k : channel_kind) : SubscriptionAction :=
  match k with Plain => Do_Subscribe | Pattern => Do_PSubscribe | Sharded => Do_SSubscribe end.
Definition unsubscribing (k : channel_kind) : SubscriptionAction :=
  match k with Plain => Do_Unsubscribe | Pattern => Do_PUnsubscribe | Sharded => Do_Sunsubscribe end.

Lemma update_named t c k ch :
  ch ∈ tracked (update_with_cmd t c) k <->
  names c (action_name (subscribing k)) ch \/
  (~ names c (action_name (unsubscribing k)) ch /\ ch ∈ tracked t k).
Proof.
  rewrite !to_request_names. unfold update_with_cmd. destruct (to_request c) as [[a args]|] eqn:E.
  - rewrite update_tracked. destruct (decide (ch ∈ args)) as [Hin|Hout].
    + destruct a, k; first [rewrite decide_True by done | rewrite decide_False by (by intros [? _])]; cbn; naive_solver.
    + rewrite decide_False by (by intros [_ ?]). naive_solver.
  - naive_solver.
Qed.

(** What the tracker holds after the commands [cs]. *)
Lemma tracked_last_named (cs : list Cmd) k ch :
  ch ∈ tracked (foldl update_with_cmd SubscriptionTracker_default cs) k <->
  last_named (action_name (subscribing k)) (action_name (unsubscribing k)) ch cs.
Proof.
  induction cs as [|c cs IH] using rev_ind.
  - split; [by destruct k; simpl; set_solver|]. intros []%last_named_nil.
  - rewrite foldl_app, last_named_snoc. cbn [foldl]. by rewrite update_named, IH.
Qed.

(** C33. What the tracker holds after any sequence of commands: a channel is
    in the set of its kind exactly if some SUBSCRIBE (PSUBSCRIBE, SSUBSCRIBE)
    named it, in any case, and no UNSUBSCRIBE (PUNSUBSCRIBE, SUNSUBSCRIBE)
    that names it came after; all other commands leave the tracker as it is.
    (An UNSUBSCRIBE without channels names none.) *)
Theorem tracker_refines (cs : list Cmd) (ch : bytes) :
  let t := foldl update_with_cmd SubscriptionTracker_default cs in
  (ch ∈ subscriptions t <-> last_named "SUBSCRIBE" "UNSUBSCRIBE" ch cs) /\
  (ch ∈ p_subscriptions t <-> last_named "PSUBSCRIBE" "PUNSUBSCRIBE" ch cs) /\
  (ch ∈ s_subscriptions t <-> last_named "SSUBSCRIBE" "SUNSUBSCRIBE" ch cs).
Proof.
  intros t. split_and!; [apply (tracked_last_named cs Plain) | apply (tracked_last_named cs Pattern) |
    apply (tracked_last_named cs Sharded)].
Qed.

(** ** Subscribing again *)

Lemma pipeline_args_fold (p : Pipeline) l cs c : commands p = cs ++ [c] -> cmd_ok c ->
  exists c', foldl (fun p ch => pipeline ← p; pipeline_arg pipeline [ch]) (Some p) l =
               Some (with_commands p (cs ++ [c'])) /\
    cmd_ok c' /\ args_iter c' = args_iter c ++ map Simple l.
Proof.
  revert p c. induction l as [|a l IH]; intros p c Hp Hok.
  - exists c. rewrite app_nil_r. split; [|done]. simpl. rewrite <- Hp. by destruct p.
  - cbn [foldl mbind option_bind]. unfold pipeline_arg at 2. unfold update_last_command.
    rewrite Hp, length_app, Nat.add_1_r. rewrite alter_app_r_alt, Nat.sub_diag by lia.
    destruct (write_arg_ok c a Hok) as [Hok' E]. cbn [alter list_alter foldl].
    destruct (IH (with_commands p (cs ++ [write_arg c a])) (write_arg c a) eq_refl Hok') as (c' & E' & ? & Hi).
    exists c'. split; [exact E'|]. split; [done|]. by rewrite Hi, E, <- app_assoc.
Qed.

Lemma add_subscriptions_cmd `{HashOrder} p name channels : exists p' cs,
  add_subscriptions (Some p) name channels = Some p' /\ commands p' = commands p ++ cs /\
  (if decide (channels = ∅) then cs = []
   else exists c l, cs = [c] /\ cmd_ok c /\ args_iter c = Simple (bs name) :: map Simple l /\
     list_to_set l = channels).
Proof.
  unfold add_subscriptions. cbn [mbind option_bind]. case_bool_decide as He.
  - exists p, []. rewrite app_nil_r. by destruct (decide (channels = ∅)).
  - destruct (decide (channels = ∅)) as [|_]; [done|].
    destruct (write_arg_ok Cmd_new (bs name)) as [Hok Hi]; [done|].
    destruct (pipeline_args_fold (pipeline_cmd p name) (hash_order (elements channels)) (commands p) (cmd name))
      as (c & E & Hc & Ha); [done..|].
    exists (with_commands (pipeline_cmd p name) (commands p ++ [c])), [c]. split; [exact E|]. split; [done|].
    exists c, (hash_order (elements channels)). split; [done|]. split; [done|].
    split; [by rewrite Ha; unfold cmd; rewrite Hi|].
    rewrite <- (list_to_set_elements_L channels) at 2. apply leibniz_equiv. by rewrite (hash_order_perm _).
Qed.

Definition resubscription (name : string) (k : channel_kind) : Prop :=
  forall c l t, args_iter c = Simple (bs name) :: map Simple l ->
    update_with_cmd t c = with_tracked t k (tracked t k ∪ list_to_set l).

Lemma simple_args_map l : simple_args (map Simple l) = l.
Proof. induction l as [|a l IH]; [done|]. cbn. f_equal. exact IH. Qed.

Ltac solve_resubscription :=
  intros c l t Hi; unfold update_with_cmd, to_request; rewrite Hi;
  lazymatch goal with |- context [to_option (from_utf8 ?x)] =>
    change (to_option (from_utf8 x)) with (Some x) end;
  cbn [mbind option_bind]; rewrite simple_args_map;
  repeat lazymatch goal with |- context [eq_ignore_ascii_case ?x ?y] =>
    let b := eval vm_compute in (eq_ignore_ascii_case x y) in
    change (eq_ignore_ascii_case x y) with b end;
  cbv beta iota; unfold update_with_request; cbn [kind_of additive]; by rewrite foldl_insert_set.

Lemma resubscribe_plain : resubscription "SUBSCRIBE" Plain.
Proof. solve_resubscription. Qed.
Lemma resubscribe_sharded : resubscription "SSUBSCRIBE" Sharded.
Proof. solve_resubscription. Qed.
Lemma resubscribe_pattern : resubscription "PSUBSCRIBE" Pattern.
Proof. solve_resubscription. Qed.

Lemma replay_block (cs : list Cmd) name k channels t : resubscription name k -> tracked t k = ∅ ->
  (if decide (channels = ∅) then cs = []
   else exists c l, cs = [c] /\ cmd_ok c /\ args_iter c = Simple (bs name) :: map Simple l /\
     list_to_set l = channels) ->
  foldl update_with_cmd t cs = with_tracked t k channels.
Proof.
  intros Hre Ht. case_decide as He.
  - intros ->. subst channels. rewrite <- Ht. by destruct t, k.
  - intros (c & l & -> & _ & Hi & Hl). simpl. rewrite (Hre _ _ _ Hi), Ht, Hl. f_equal. set_solver.
Qed.

(** A command of the resubscription pipeline. *)
Definition subscribes (c : Cmd) : Prop :=
  exists name l, name ∈ ["SUBSCRIBE"; "SSUBSCRIBE"; "PSUBSCRIBE"] /\ args_iter c = Simple (bs name) :: map Simple l.

Lemma block_subscribes (cs : list Cmd) (name : string) (channels : gset bytes) :
  name ∈ ["SUBSCRIBE"; "SSUBSCRIBE"; "PSUBSCRIBE"] ->
  (if decide (channels = ∅) then cs = []
   else exists c l, cs = [c] /\ cmd_ok c /\ args_iter c = Simple (bs name) :: map Simple l /\
     list_to_set l = channels) ->
  Forall subscribes cs.
Proof.
  intros Hn. case_decide; [by intros ->|]. intros (c & l & -> & _ & Hi & _). rewrite Forall_singleton.
  by exists name, l.
Qed.

(** The commands of the resubscription pipeline, replayed. *)
Lemma resubscription_replayed `{HashOrder} (t : SubscriptionTracker) :
  exists p, get_subscription_pipeline t = Some p /\ Forall subscribes (commands p) /\
    foldl update_with_cmd SubscriptionTracker_default (commands p) = t.
Proof.
  unfold get_subscription_pipeline.
  destruct (add_subscriptions_cmd Pipeline_new "SUBSCRIBE" (subscriptions t)) as (p1 & c1 & -> & E1 & H1).
  destruct (add_subscriptions_cmd p1 "SSUBSCRIBE" (s_subscriptions t)) as (p2 & c2 & -> & E2 & H2).
  destruct (add_subscriptions_cmd p2 "PSUBSCRIBE" (p_subscriptions t)) as (p3 & c3 & -> & E3 & H3).
  exists p3. split; [done|]. rewrite E3, E2, E1. cbn [Pipeline_new commands app]. split.
  { rewrite !Forall_app. split_and!; (eapply block_subscribes; [|eassumption]); set_solver. }
  rewrite !foldl_app.
  rewrite (replay_block c1 _ Plain _ SubscriptionTracker_default resubscribe_plain eq_refl H1).
  erewrite (replay_block c2 _ Sharded _ _ resubscribe_sharded); [|done|exact H2].
  erewrite (replay_block c3 _ Pattern _ _ resubscribe_pattern); [|done|exact H3]. by destruct t.
Qed.

Lemma subscribes_not_off c k ch : subscribes c -> ~ names c (action_name (unsubscribing k)) ch.
Proof.
  intros (name & l & Hn & Hi) (n & l' & Hi' & E & _). rewrite Hi in Hi'. injection Hi' as <- _.
  revert E. rewrite !elem_of_cons in Hn. by destruct Hn as [->|[->|[->|Hn%elem_of_nil]]], k; vm_compute.
Qed.

(** In commands that only subscribe, the channels named last are those named. *)
Lemma last_named_subscribes k ch cs : Forall subscribes cs ->
  last_named (action_name (subscribing k)) (action_name (unsubscribing k)) ch cs <->
  exists c, c ∈ cs /\ names c (action_name (subscribing k)) ch.
Proof.
  intros Hs. split.
  - intros (before & c & after & -> & Hc & _). exists c. set_solver.
  - intros (c & Hin & Hc). apply list_elem_of_split in Hin as (before & after & ->).
    exists before, c, after. split; [done|]. split; [done|]. apply Forall_app in Hs as [_ Hs].
    apply Forall_cons in Hs as [_ Hs]. eapply Forall_impl; [exact Hs|]. intros c'. apply subscribes_not_off.
Qed.

(** The pipeline names exactly the channels of the tracker. *)
Lemma resubscription_names `{HashOrder} (t : SubscriptionTracker) :
  exists p, get_subscription_pipeline t = Some p /\ Forall subscribes (commands p) /\
    forall k ch, (exists c, c ∈ commands p /\ names c (action_name (subscribing k)) ch) <-> ch ∈ tracked t k.
Proof.
  destruct (resubscription_replayed t) as (p & Hp & Hs & Ht). exists p. split; [done|]. split; [done|].
  intros k ch. rewrite <- Ht, tracked_last_named. by rewrite last_named_subscribes.
Qed.

(** The pipeline a new connection is given makes it subscribe to exactly what
    is tracked: it can always be built, and a fresh tracker that sees its
    commands ends up in the tracked state, whatever the iteration order. *)
Theorem resubscribe_restores `{HashOrder} (t : SubscriptionTracker) :
  exists p, get_subscription_pipeline t = Some p /\
    foldl update_with_cmd SubscriptionTracker_default (commands p) = t.
Proof. destruct (resubscription_replayed t) as (p & Hp & _ & Ht). by exists p. Qed.

(** An UNSUBSCRIBE without channels, with which a server drops all
    subscriptions of the connection, leaves the tracker as it is: the channels
    are subscribed to again on the next connection. *)
Theorem unsubscribe_all_not_tracked (t : SubscriptionTracker) (name : string)
    (Hn : name ∈ ["UNSUBSCRIBE"; "PUNSUBSCRIBE"; "SUNSUBSCRIBE"]) :
  is_Some (to_request (cmd name)) /\ update_with_cmd t (cmd name) = t.
Proof.
  assert (name = "UNSUBSCRIBE" \/ name = "PUNSUBSCRIBE" \/ name = "SUNSUBSCRIBE") as Hc by set_solver.
  destruct Hc as [->|[->| ->]]; (split; [by eexists|by destruct t]).
Qed.

(** ** Witnesses *)

Lemma unsubscribe_all_not_tracked_witness :
  update_with_cmd (with_tracked SubscriptionTracker_default Plain {[bs "news"]}) (cmd "UNSUBSCRIBE") =
  with_tracked SubscriptionTracker_default Plain {[bs "news"]}.
Proof. apply (unsubscribe_all_not_tracked _ "UNSUBSCRIBE"). apply list_elem_of_here. Defined.
