(* ===== verification/Caching.v ===== *)
(** * Client-side caching: [redis/src/caching/]

    [statistics.rs], [config.rs], [sharded_lru.rs], [cache_manager.rs] and
    [cmd.rs]: replies are kept per key and command, dropped when the server
    invalidates the key, and a request that misses is sent with a PTTL so that
    the reply can be stored.

    The lru crate is an interface ([LruCache]) with the behaviour it documents;
    the hash that picks a shard is any function; [Instant::now()] reads the next
    value of any clock.  An [Instant] is a number of nanoseconds without bound:
    that [Instant + Duration] panics beyond the range of the platform's clock
    (some 10^11 years) is not modelled.  The shared cache is threaded through
    the operations.  [None] of an operation is a panic. *)

From S2P Require Import Prelude Text Float64 Combine Errors Types Parser Codec Cmd Convert Pipeline.
From S2P Require Import Slots Routing.
Local Open Scope Z_scope.

(** ** config.rs and statistics.rs *)

Inductive CacheMode := CacheAll | OptIn.

#[export] Instance CacheMode_eq_dec : EqDecision CacheMode.
Proof. solve_decision. Defined.

Record CacheConfig := { mode : CacheMode; size : Z; default_client_ttl : Duration }.

Definition nanos_per_milli : Z := 1000000.
Definition nanos_per_sec : Z := 1000000000.

Definition CacheConfig_new : CacheConfig :=
  {| mode := CacheAll; size := 10000; default_client_ttl := 60 * 30 * nanos_per_sec |}.
Definition set_mode (c : CacheConfig) (m : CacheMode) : CacheConfig :=
  {| mode := m; size := size c; default_client_ttl := default_client_ttl c |}.
Definition set_size (c : CacheConfig) (s : Z) : CacheConfig :=
  {| mode := mode c; size := s; default_client_ttl := default_client_ttl c |}.
Definition set_default_client_ttl (c : CacheConfig) (ttl : Duration) : CacheConfig :=
  {| mode := mode c; size := size c; default_client_ttl := ttl |}.

Record Statistics := { hit : Z; miss : Z; invalidate_count : Z }.
Definition Statistics_default : Statistics := {| hit := 0; miss := 0; invalidate_count := 0 |}.

(** [fetch_add] wraps around. *)
Definition increase_hit (s : Statistics) (val : Z) : Statistics :=
  {| hit := as_usize (hit s + val); miss := miss s; invalidate_count := invalidate_count s |}.
Definition increase_miss (s : Statistics) (val : Z) : Statistics :=
  {| hit := hit s; miss := as_usize (miss s + val); invalidate_count := invalidate_count s |}.
Definition increase_invalidate (s : Statistics) (val : Z) : Statistics :=
  {| hit := hit s; miss := miss s; invalidate_count := as_usize (invalidate_count s + val) |}.

(** ** sharded_lru.rs *)

(** [lru::LruCache]: [lru_get] is [get_mut], which counts as a use; [lru_peek]
    and [lru_write] are [peek_mut] and writing through it. *)
Class LruCache := {
  lru : Type -> Type;
  lru_new : forall {V}, Z -> lru V;
  lru_get : forall {V}, lru V -> bytes -> option V * lru V;
  lru_peek : forall {V}, lru V -> bytes -> option V;
  lru_write : forall {V}, lru V -> bytes -> V -> lru V;
  lru_pop : forall {V}, lru V -> bytes -> option V * lru V;
  lru_push : forall {V}, lru V -> bytes -> V -> lru V
}.

(** Its documentation: it is a map of at most so many entries; pushing into a
    full cache drops one other entry. *)
Class LruCacheLaws (C : LruCache) := {
  lru_map : forall {V}, lru V -> bytes -> option V;
  lru_map_new : forall {V} n k, lru_map (@lru_new C V n) k = None;
  lru_get_spec : forall {V} (l : lru V) k,
    (lru_get l k).1 = lru_map l k /\ forall k', lru_map (lru_get l k).2 k' = lru_map l k';
  lru_peek_spec : forall {V} (l : lru V) k, lru_peek l k = lru_map l k;
  lru_write_spec : forall {V} (l : lru V) k v k', is_Some (lru_map l k) ->
    lru_map (lru_write l k v) k' = if decide (k' = k) then Some v else lru_map l k';
  lru_pop_spec : forall {V} (l : lru V) k,
    (lru_pop l k).1 = lru_map l k /\
    forall k', lru_map (lru_pop l k).2 k' = if decide (k' = k) then None else lru_map l k';
  lru_push_spec : forall {V} (l : lru V) k v,
    lru_map (lru_push l k v) k = Some v /\
    forall k', k' <> k -> lru_map (lru_push l k v) k' = lru_map l k' \/ lru_map (lru_push l k v) k' = None
}.

(** [DefaultHasher] applied to a key. *)
Class KeyHash := key_hash : bytes -> Z.

(** [Instant::now()]: the [n]-th reading of the clock, in nanoseconds. *)
Class Clock := clock : nat -> Z.

Record CacheCmdEntry := { entry_cmd : bytes; entry_value : Value }.
Record CacheItem := { expire_time : Z; item_epoch : Z; value_list : list CacheCmdEntry }.

Definition MAX_SHARD_COUNT : Z := 32.

Section sharded_lru.
Context `{LruCache} `{KeyHash} `{Clock}.

(** The cache, shared by the managers, with the number of clock readings so
    far. *)
Record ShardedLRU := {
  lru_shards : list (lru CacheItem);
  statistics : Statistics;
  last_epoch : Z;
  clock_reads : nat
}.

Definition ShardedLRU_new (total_key_size : Z) : ShardedLRU :=
  let '(shard_count, shard_size) :=
    if MAX_SHARD_COUNT <=? total_key_size then (MAX_SHARD_COUNT, total_key_size / MAX_SHARD_COUNT)
    else (1, total_key_size) in
  {| lru_shards := replicate (Z.to_nat shard_count) (lru_new shard_size);
     statistics := Statistics_default; last_epoch := 0; clock_reads := 0 |}.

Definition with_statistics (c : ShardedLRU) (s : Statistics) : ShardedLRU :=
  {| lru_shards := lru_shards c; statistics := s; last_epoch := last_epoch c; clock_reads := clock_reads c |}.

Definition shard_index (c : ShardedLRU) (key : bytes) : nat :=
  Z.to_nat (as_usize (key_hash key) mod Z.of_nat (length (lru_shards c))).

(** [get_shard]; [None] is a panic. *)
Definition get_shard (c : ShardedLRU) (key : bytes) : option (lru CacheItem) :=
  lru_shards c !! shard_index c key.

Definition set_shard (c : ShardedLRU) (key : bytes) (l : lru CacheItem) : ShardedLRU :=
  {| lru_shards := <[shard_index c key := l]> (lru_shards c); statistics := statistics c;
     last_epoch := last_epoch c; clock_reads := clock_reads c |}.

(** [Instant::now()]. *)
Definition now (c : ShardedLRU) : Z * ShardedLRU :=
  (clock (clock_reads c),
   {| lru_shards := lru_shards c; statistics := statistics c; last_epoch := last_epoch c;
      clock_reads := S (clock_reads c) |}).

Fixpoint find_entry (cmd : bytes) (l : list CacheCmdEntry) : option Value :=
  match l with
  | [] => None
  | entry :: l => if bytes_eqb (entry_cmd entry) cmd then Some (entry_value entry) else find_entry cmd l
  end.

Definition lru_cache_get (c : ShardedLRU) (redis_key redis_cmd : bytes) (epoch : Z)
    : option (option Value * ShardedLRU) :=
  lru_cache ← get_shard c redis_key;
  let '(found, lru_cache) := lru_get lru_cache redis_key in
  let c := set_shard c redis_key lru_cache in
  match found with
  | None => Some (None, with_statistics c (increase_miss (statistics c) 1))
  | Some cache_item =>
      let '(cache_item_is_invalid, c) :=
        if negb (item_epoch cache_item =? epoch) then (true, c)
        else let '(t, c) := now c in (expire_time cache_item <? t, c) in
      if cache_item_is_invalid then
        let s := increase_invalidate (statistics c) (Z.of_nat (length (value_list cache_item))) in
        let c := with_statistics c (increase_miss s 1) in
        Some (None, set_shard c redis_key (lru_pop lru_cache redis_key).2)
      else
        match find_entry redis_cmd (value_list cache_item) with
        | Some value => Some (Some value, with_statistics c (increase_hit (statistics c) 1))
        | None => Some (None, with_statistics c (increase_miss (statistics c) 1))
        end
  end.

(** Overwrite the entry of a command, or add one. *)
Fixpoint set_entry (cmd : bytes) (value : Value) (l : list CacheCmdEntry) : list CacheCmdEntry :=
  match l with
  | [] => [{| entry_cmd := cmd; entry_value := value |}]
  | entry :: l =>
      if bytes_eqb (entry_cmd entry) cmd
      then {| entry_cmd := entry_cmd entry; entry_value := value |} :: l
      else entry :: set_entry cmd value l
  end.

Definition lru_cache_insert (c : ShardedLRU) (redis_key cmd_key : bytes) (value : Value)
    (expire_time epoch : Z) : option ShardedLRU :=
  lru_cache ← get_shard c redis_key;
  let push := set_shard c redis_key (lru_push lru_cache redis_key
    {| expire_time := expire_time; item_epoch := epoch;
       value_list := [{| entry_cmd := cmd_key; entry_value := value |}] |}) in
  Some (match lru_peek lru_cache redis_key with
        | Some ch =>
            if item_epoch ch =? epoch then
              set_shard c redis_key (lru_write lru_cache redis_key
                {| expire_time := expire_time; item_epoch := epoch;
                   value_list := set_entry cmd_key value (value_list ch) |})
            else push
        | None => push
        end).

Definition invalidate (c : ShardedLRU) (cache_key : bytes) : option ShardedLRU :=
  lru_cache ← get_shard c cache_key;
  let '(maybe_cache_holder, lru_cache) := lru_pop lru_cache cache_key in
  let c := set_shard c cache_key lru_cache in
  Some (match maybe_cache_holder with
        | Some cache_holder =>
            with_statistics c
              (increase_invalidate (statistics c) (Z.of_nat (length (value_list cache_holder))))
        | None => c
        end).

(** The epoch before the increment. *)
Definition increase_epoch (c : ShardedLRU) : Z * ShardedLRU :=
  (last_epoch c, {| lru_shards := lru_shards c; statistics := statistics c;
                    last_epoch := as_usize (last_epoch c + 1); clock_reads := clock_reads c |}).

(** ** cache_manager.rs *)

(** A [CacheManager] without the shared cache. *)
Record CacheManager := { cache_config : CacheConfig; epoch : Z }.

Definition CacheManager_new (config : CacheConfig) : CacheManager * ShardedLRU :=
  let '(epoch, c) := increase_epoch (ShardedLRU_new (size config)) in
  ({| cache_config := config; epoch := epoch |}, c).

Definition clone_and_increase_epoch (m : CacheManager) (c : ShardedLRU) : CacheManager * ShardedLRU :=
  let '(epoch, c) := increase_epoch c in
  ({| cache_config := cache_config m; epoch := epoch |}, c).

Definition manager_get (m : CacheManager) (c : ShardedLRU) (redis_key redis_cmd : bytes)
    : option (option Value * ShardedLRU) :=
  lru_cache_get c redis_key redis_cmd (epoch m).

Definition manager_insert (m : CacheManager) (c : ShardedLRU) (redis_key cmd_key : bytes) (value : Value)
    (client_side_expire_time : Z) (server_side_ttl_value : Value) : option ShardedLRU :=
  let '(expire_time, c) :=
    match from_redis_value_ref (frv_int i64_ty) server_side_ttl_value with
    | Ok pttl =>
        if 0 <? pttl then
          let '(t, c) := now c in (Z.min (t + as_u64 pttl * nanos_per_milli) client_side_expire_time, c)
        else (client_side_expire_time, c)
    | Err _ => (client_side_expire_time, c)
    end in
  lru_cache_insert c redis_key cmd_key value expire_time (epoch m).

(** A [Vec<u8>] of a value. *)
Definition key_of_value (v : Value) : option bytes :=
  map Z_byte <$> to_option (from_redis_value_ref (frv_vec frv_u8) v).

Definition handle_push_value (c : ShardedLRU) (kind : PushKind) (data : list Value) : option ShardedLRU :=
  if bool_decide (kind = Invalidate) then
    match data with
    | Array (first :: _) :: _ =>
        match key_of_value first with
        | Some redis_key => invalidate c redis_key
        | None => Some c
        end
    | _ => Some c
    end
  else Some c.

Record SingleCachedCommand := {
  redis_key : bytes; cmd_key : bytes; cached_cmd : Cmd; client_side_expire : Z
}.
Record MultipleCachedCommandPart := { part_key : bytes; part_cmd_key : bytes }.

Inductive CacheableCommand :=
| Single (c : SingleCachedCommand)
| Multiple (command_name : string) (commands : list (nat * MultipleCachedCommandPart))
    (response : list Value) (client_side_expire : Z) (tail_args : list bytes).

Inductive PrepCacheItem :=
| Cached (v : Value)
| NotCached (c : CacheableCommand)
| NotCacheable.

Inductive CachingResult := Item (i : PrepCacheItem) | Ignored.

Definition calculate_expiration_time (m : CacheManager) (c : ShardedLRU) (cmd : Cmd) : Z * ShardedLRU :=
  let client_side_ttl :=
    default (default_client_ttl (cache_config m)) (get_cache_config cmd ≫= client_side_ttl) in
  let '(t, c) := now c in (t + client_side_ttl, c).

Definition prepare_key_buffer (single_command_name redis_key : bytes) (json_path_key : option bytes) : bytes :=
  single_command_name ++ redis_key ++ default [] json_path_key.

Definition extract_simple_arguments (cmd : Cmd) : list bytes :=
  omap (fun arg => match arg with Simple a => Some a | Cursor => None end) (drop 1 (args_iter cmd)).

(** The loop of [process_multi_key_arguments] from position [i] on: what is
    pushed to [commands] and to [response]. *)
Fixpoint process_keys (m : CacheManager) (c : ShardedLRU) (single_command_name : bytes)
    (json_path_key : option bytes) (i : nat) (arguments : list bytes)
    : option (list (nat * MultipleCachedCommandPart) * list Value * ShardedLRU) :=
  match arguments with
  | [] => Some ([], [], c)
  | redis_key :: arguments =>
      let buffer := prepare_key_buffer single_command_name redis_key json_path_key in
      '(found, c) ← manager_get m c redis_key buffer;
      '(commands, response, c) ← process_keys m c single_command_name json_path_key (S i) arguments;
      Some (match found with
            | Some value => (commands, value :: response, c)
            | None => ((i, {| part_key := redis_key; part_cmd_key := buffer |}) :: commands,
                       Nil :: response, c)
            end)
  end.

(** The arguments, with the path of a JSON command taken off. *)
Definition multi_key_arguments (is_json_command : bool) (cmd : Cmd) : list bytes * option bytes :=
  let arguments := extract_simple_arguments cmd in
  if is_json_command then (take (length arguments - 1) arguments, last arguments) else (arguments, None).

Definition handle_multi_key_command (m : CacheManager) (c : ShardedLRU) (cmd : Cmd)
    (command_name : string) (single_command_name : bytes) (client_side_expire : Z)
    : option (PrepCacheItem * ShardedLRU) :=
  let is_json_command := starts_with (bs "JSON") (bs command_name) in
  let '(arguments, json_path_key) := multi_key_arguments is_json_command cmd in
  '(commands, response, c) ← process_keys m c single_command_name json_path_key 0 arguments;
  Some (match commands with
        | [] => Cached (Array response)
        | _ => NotCached (Multiple command_name commands response client_side_expire
                            (match json_path_key with Some k => [k] | None => [] end))
        end, c).

Definition handle_single_key_command (m : CacheManager) (c : ShardedLRU) (cmd : Cmd)
    (client_side_expire : Z) : option (PrepCacheItem * ShardedLRU) :=
  key ← arg_idx_checked cmd 1;
  match key with
  | None => Some (NotCacheable, c)
  | Some redis_key =>
      let cmd_key := data cmd in
      '(found, c) ← manager_get m c redis_key cmd_key;
      Some (match found with
            | Some value => Cached value
            | None => NotCached (Single {| redis_key := redis_key; cmd_key := cmd_key; cached_cmd := cmd;
                                           client_side_expire := client_side_expire |})
            end, c)
  end.

Definition is_multi_key (command_name : bytes) : option (string * bytes) :=
  if bytes_eqb command_name (bs "MGET") then Some ("MGET"%string, bs "GET")
  else if bytes_eqb command_name (bs "JSON.MGET") then Some ("JSON.MGET"%string, bs "JSON.GET")
  else None.

Definition get_cached_cmd_inner (m : CacheManager) (c : ShardedLRU) (cmd : Cmd)
    : option (PrepCacheItem * ShardedLRU) :=
  if cmd_len cmd <? 2 then Some (NotCacheable, c)
  else
    name ← arg_idx_checked cmd 0;
    match name with
    | None => Some (NotCacheable, c)
    | Some command_name =>
        let '(client_side_expire, c) := calculate_expiration_time m c cmd in
        match is_multi_key command_name with
        | Some (command_name_str, single_command_name) =>
            handle_multi_key_command m c cmd command_name_str single_command_name client_side_expire
        | None =>
            if is_cachable_cmd command_name then handle_single_key_command m c cmd client_side_expire
            else Some (NotCacheable, c)
        end
    end.

Definition get_cached_cmd (m : CacheManager) (c : ShardedLRU) (cmd : Cmd)
    : option (PrepCacheItem * ShardedLRU) :=
  match mode (cache_config m) with
  | CacheAll => get_cached_cmd_inner m c cmd
  | OptIn =>
      if match get_cache_config cmd with Some cfg => enable_cache cfg | None => false end
      then get_cached_cmd_inner m c cmd else Some (NotCacheable, c)
  end.

(** ** cmd.rs *)

Definition pttl_cmd (key : bytes) : Cmd := write_arg (cmd "PTTL") key.
Definition caching_yes_cmd : Cmd := write_arg (write_arg (cmd "CLIENT") (bs "CACHING")) (bs "YES").

(** [CacheableCommand::pack_command]: the commands added to the pipeline. *)
Definition pack_cacheable (m : CacheManager) (cc : CacheableCommand) : list Cmd :=
  (match mode (cache_config m) with OptIn => [caching_yes_cmd] | CacheAll => [] end) ++
  match cc with
  | Single scc => [pttl_cmd (redis_key scc); cached_cmd scc]
  | Multiple command_name commands _ _ tail_args =>
      foldl write_arg (cmd command_name) (map (fun p => part_key p.2) commands ++ tail_args)
      :: map (fun p => pttl_cmd (part_key p.2)) commands
  end.

(** [get_next_reply], on the list of the replies left. *)
Definition get_next_reply (replies : list Value) : result RedisError (Value * list Value) :=
  match replies with
  | reply :: replies => Ok (reply, replies)
  | [] => Err (redis_error_of UnexpectedReturnType "Expected Value from server")
  end.

Definition is_server_error (v : Value) : bool := match v with ServerErr _ => true | _ => false end.

(** The loop over [zip(zip(mget_values, replies), commands)]; the replies left
    come back.  [None] is a panic. *)
Fixpoint resolve_parts (m : CacheManager) (c : ShardedLRU) (client_side_expire : Z)
    (mget_values replies : list Value) (commands : list (nat * MultipleCachedCommandPart))
    (cached_response : list Value) : option (list Value * ShardedLRU * list Value) :=
  match mget_values with
  | [] => Some (cached_response, c, replies)
  | key_value :: mget_values =>
      match replies with
      | [] => Some (cached_response, c, [])
      | pttl_value :: replies =>
          match commands with
          | [] => Some (cached_response, c, replies)
          | (key_index, part) :: commands =>
              c ← (if is_server_error key_value then Some c
                   else manager_insert m c (part_key part) (part_cmd_key part) key_value
                          client_side_expire pttl_value);
              if (key_index <? length cached_response)%nat
              then resolve_parts m c client_side_expire mget_values replies commands
                     (<[key_index := key_value]> cached_response)
              else None
          end
      end
  end.

(** [CacheableCommand::resolve]; the replies left come back with the result. *)
Definition resolve_command (m : CacheManager) (c : ShardedLRU) (cc : CacheableCommand) (replies : list Value)
    : option (result RedisError (Value * list Value) * ShardedLRU) :=
  let skipped := match mode (cache_config m) with
                 | OptIn => match get_next_reply replies with Ok (_, replies) => Ok replies | Err e => Err e end
                 | CacheAll => Ok replies
                 end in
  match skipped with
  | Err e => Some (Err e, c)
  | Ok replies =>
      match cc with
      | Single scc =>
          match replies with
          | pttl :: reply :: replies =>
              c ← (if is_server_error reply then Some c
                   else manager_insert m c (redis_key scc) (cmd_key scc) reply (client_side_expire scc) pttl);
              Some (Ok (reply, replies), c)
          | _ => Some (Err (redis_error_of UnexpectedReturnType "Expected two Value from server"), c)
          end
      | Multiple _ commands cached_response client_side_expire _ =>
          match replies with
          | Array mget_values :: replies =>
              '(response, c, replies) ←
                resolve_parts m c client_side_expire mget_values replies commands cached_response;
              Some (Ok (Array response, replies), c)
          | _ => Some (Err (redis_error_of UnexpectedReturnType "Expected Value::Array from server"), c)
          end
      end
  end.

Record CacheablePipeline := { cp_commands : list CachingResult; cp_transaction_mode : bool }.

Fixpoint resolve_loop (m : CacheManager) (c : ShardedLRU) (l : list CachingResult) (replies : list Value)
    : option (result RedisError (list Value) * ShardedLRU) :=
  match l with
  | [] => Some (Ok [], c)
  | prepared :: l =>
      '(r, c) ← match prepared with
                | Item (Cached reply) => Some (Ok (reply, replies), c)
                | Item (NotCached cc) => resolve_command m c cc replies
                | Item NotCacheable | Ignored => Some (get_next_reply replies, c)
                end;
      match r with
      | Err e => Some (Err e, c)
      | Ok (reply, replies) =>
          '(rest, c) ← resolve_loop m c l replies;
          Some (match rest with Ok response => Ok (reply :: response) | Err e => Err e end, c)
      end
  end.

Definition resolve (m : CacheManager) (c : ShardedLRU) (cp : CacheablePipeline) (reply : Value)
    : option (result RedisError (list Value) * ShardedLRU) :=
  match into_redis_error (if cp_transaction_mode cp
                          then from_redis_value (frv_tuple1 (frv_vec frv_value)) reply
                          else from_redis_value (frv_vec frv_value) reply) with
  | Err e => Some (Err e, c)
  | Ok replies =>
      '(r, c) ← resolve_loop m c (cp_commands cp) replies;
      Some (match r with
            | Ok response => Ok (if cp_transaction_mode cp then [Array response] else response)
            | Err e => Err e
            end, c)
  end.

(** The loop of [get_cached_pipeline] from command [idx] on. *)
Fixpoint prepare_commands (m : CacheManager) (c : ShardedLRU) (ignored : gset nat) (idx : nat) (l : list Cmd)
    : option (list CachingResult * list Cmd * ShardedLRU) :=
  match l with
  | [] => Some ([], [], c)
  | cmd :: l =>
      '(item, packed, c) ←
        (if bool_decide (idx ∈ ignored) then Some (Ignored, [cmd], c)
         else '(prep, c) ← get_cached_cmd m c cmd;
              Some (Item prep,
                    match prep with
                    | Cached _ => []
                    | NotCached cc => pack_cacheable m cc
                    | NotCacheable => [cmd]
                    end, c));
      '(items, rest, c) ← prepare_commands m c ignored (S idx) l;
      Some (item :: items, packed ++ rest, c)
  end.

Definition get_cached_pipeline (m : CacheManager) (c : ShardedLRU) (requested : Pipeline)
    : option (CacheablePipeline * Pipeline * (nat * nat) * ShardedLRU) :=
  '(items, cmds, c) ← prepare_commands m c (ignored_commands requested) 0 (commands requested);
  let packed := with_commands Pipeline_new cmds in
  let '(packed, counts) :=
    if transaction_mode requested then (atomic packed, (length (commands packed) + 1, 1)%nat)
    else (packed, (O, length (commands packed))) in
  Some ({| cp_commands := items; cp_transaction_mode := transaction_mode requested |}, packed, counts, c).
End sharded_lru.

(** ** What is stored *)

Section soundness.
Context `{C : LruCache} {CL : LruCacheLaws C} `{KeyHash} `{Clock}.
Implicit Types c : ShardedLRU.

Definition cache_wf c : Prop := lru_shards c <> [].

Lemma cache_wf_new n : cache_wf (ShardedLRU_new n).
Proof using. unfold cache_wf, ShardedLRU_new. destruct (MAX_SHARD_COUNT <=? n); simpl; discriminate. Qed.

(** The item stored for a key. *)
Definition stored c (k : bytes) : option CacheItem := get_shard c k ≫= fun l => lru_map l k.

Lemma get_shard_wf c k : cache_wf c -> is_Some (get_shard c k).
Proof using.
  unfold cache_wf. intros Hw. apply lookup_lt_is_Some_2. unfold shard_index.
  assert (0 < Z.of_nat (length (lru_shards c))) by (destruct (lru_shards c); [done|simpl; lia]).
  pose proof (Z.mod_pos_bound (as_usize (key_hash k)) (Z.of_nat (length (lru_shards c)))). lia.
Qed.

Lemma set_shard_wf c k l : cache_wf c -> cache_wf (set_shard c k l).
Proof using.
  unfold cache_wf, set_shard. simpl. intros Hw E. apply (f_equal length) in E. rewrite length_insert in E.
  by destruct (lru_shards c).
Qed.

(** Replacing the shard of [k] changes what is stored for the keys of that
    shard only. *)
Lemma stored_set_shard c k l l' k' : get_shard c k = Some l ->
  stored (set_shard c k l') k' =
  if decide (shard_index c k' = shard_index c k) then lru_map l' k' else stored c k'.
Proof using.
  intros Hl. unfold stored, get_shard, set_shard, shard_index in *. simpl. rewrite length_insert.
  case_decide as E.
  - rewrite E, list_lookup_insert_eq; [done|]. by eapply lookup_lt_Some.
  - by rewrite list_lookup_insert_ne.
Qed.

Lemma stored_self c k l : get_shard c k = Some l -> stored c k = lru_map l k.
Proof using. intros Hl. unfold stored. by rewrite Hl. Qed.

Lemma stored_same_shard c k l k' : get_shard c k = Some l -> shard_index c k' = shard_index c k ->
  stored c k' = lru_map l k'.
Proof using. intros Hl E. unfold stored, get_shard in *. by rewrite E, Hl. Qed.

(** The shard is replaced by one that holds the same. *)
Lemma stored_set_same c k l l' k' : get_shard c k = Some l ->
  (forall x, lru_map l' x = lru_map l x) -> stored (set_shard c k l') k' = stored c k'.
Proof using.
  intros Hl Hs. rewrite (stored_set_shard _ _ _ _ _ Hl). case_decide as E; [|done].
  by rewrite Hs, (stored_same_shard _ _ _ _ Hl E).
Qed.

(** [c'] stores what [c] stores, except for [k] and what was dropped. *)
Definition keeps_others c c' (k : bytes) : Prop :=
  forall k', k' <> k -> stored c' k' = stored c k' \/ stored c' k' = None.

Lemma keeps_others_set c k l l' : get_shard c k = Some l ->
  (forall k', k' <> k -> lru_map l' k' = lru_map l k' \/ lru_map l' k' = None) ->
  keeps_others c (set_shard c k l') k.
Proof using.
  intros Hl Hs k' Hk. rewrite (stored_set_shard _ _ _ _ _ Hl). case_decide as E; [|by left].
  rewrite (stored_same_shard _ _ _ _ Hl E). by apply Hs.
Qed.

(** [get]: hit, miss, or the item is dropped. *)
Definition item_valid c (item : CacheItem) (e : Z) : bool :=
  (item_epoch item =? e) && negb (expire_time item <? clock (clock_reads c)).

Lemma get_spec c k cmd e : cache_wf c -> exists c',
  lru_cache_get c k cmd e =
    Some (item ← stored c k; if item_valid c item e then find_entry cmd (value_list item) else None, c') /\
  cache_wf c' /\ keeps_others c c' k /\ (stored c' k = stored c k \/ stored c' k = None).
Proof using CL.
  intros Hw. destruct (get_shard_wf c k Hw) as [l Hl]. unfold lru_cache_get. rewrite Hl. simpl.
  pose proof (lru_get_spec l k) as [Hg Hm]. destruct (lru_get l k) as [found l1] eqn:Eg. simpl in Hg, Hm.
  rewrite (stored_self _ _ _ Hl), <- Hg.
  assert (forall k', stored (set_shard c k l1) k' = stored c k') as Hsame
    by (intros k'; by eapply stored_set_same).
  assert (get_shard (set_shard c k l1) k = Some l1) as Hl1.
  { unfold get_shard, set_shard, shard_index. simpl. rewrite length_insert.
    apply list_lookup_insert_eq. by eapply lookup_lt_Some. }
  assert (cache_wf (set_shard c k l1)) as Hw1 by (by apply set_shard_wf).
  destruct found as [item|]; simpl.
  2:{ eexists. split; [done|]. split; [done|]. split; [intros k' _; left; apply Hsame|left; etrans; [apply Hsame|by rewrite (stored_self _ _ _ Hl), <- Hg]]. }
  unfold item_valid.
  (* the item is dropped *)
  assert (forall c2, lru_shards c2 = lru_shards (set_shard c k l1) ->
    cache_wf (set_shard c2 k (lru_pop l1 k).2) /\ keeps_others c (set_shard c2 k (lru_pop l1 k).2) k /\
    stored (set_shard c2 k (lru_pop l1 k).2) k = None) as Hdrop.
  { intros c2 E2. assert (get_shard c2 k = Some l1) as Hl2.
    { unfold get_shard, shard_index in *. by rewrite E2. }
    assert (forall k', stored c2 k' = stored c k') as Hs2.
    { intros k'. rewrite <- Hsame. unfold stored, get_shard, shard_index. by rewrite E2. }
    split; [apply set_shard_wf; unfold cache_wf; by rewrite E2|]. pose proof (lru_pop_spec l1 k) as [_ Hp].
    split.
    - intros k' Hk. destruct (keeps_others_set c2 k l1 (lru_pop l1 k).2 Hl2) with (k' := k') as [E|E]; [|done| |].
      + intros k'' Hk'. left. by rewrite Hp, decide_False.
      + left. by rewrite E.
      + by right.
    - rewrite (stored_set_shard _ _ _ _ _ Hl2), decide_True by done. by rewrite Hp, decide_True. }
  destruct (item_epoch item =? e) eqn:Ee; simpl.
  2:{ eexists. split; [done|]. destruct (Hdrop (with_statistics (set_shard c k l1)
        (increase_miss (increase_invalidate (statistics c) (Z.of_nat (length (value_list item)))) 1)) eq_refl)
        as (? & ? & ?). by auto. }
  destruct (expire_time item <? clock (clock_reads c)) eqn:Et; simpl.
  - eexists. split; [done|]. destruct (Hdrop (with_statistics (now (set_shard c k l1)).2
        (increase_miss (increase_invalidate (statistics c) (Z.of_nat (length (value_list item)))) 1)) eq_refl)
        as (? & ? & ?). by auto.
  - destruct (find_entry cmd (value_list item)); eexists; (split; [done|]);
      (split; [done|]); (split; [intros k' _; left; apply Hsame|left; etrans; [apply Hsame|by rewrite (stored_self _ _ _ Hl), <- Hg]]).
Qed.

Lemma insert_spec c k cmd v x e : cache_wf c -> exists c',
  lru_cache_insert c k cmd v x e = Some c' /\ cache_wf c' /\ keeps_others c c' k /\
  clock_reads c' = clock_reads c /\
  stored c' k = Some {| expire_time := x; item_epoch := e;
    value_list := match stored c k with
                  | Some item => if item_epoch item =? e then set_entry cmd v (value_list item)
                                 else [{| entry_cmd := cmd; entry_value := v |}]
                  | None => [{| entry_cmd := cmd; entry_value := v |}]
                  end |}.
Proof using CL.
  intros Hw. destruct (get_shard_wf c k Hw) as [l Hl]. unfold lru_cache_insert. rewrite Hl. cbn [mbind option_bind].
  rewrite lru_peek_spec, (stored_self _ _ _ Hl).
  assert (forall item, exists c', Some (set_shard c k (lru_push l k item)) = Some c' /\ cache_wf c' /\
    keeps_others c c' k /\ clock_reads c' = clock_reads c /\ stored c' k = Some item) as Hpush.
  { intros item. eexists. split; [done|]. pose proof (lru_push_spec l k item) as [Hk Ho].
    split; [by apply set_shard_wf|]. split; [by eapply keeps_others_set|]. split; [done|].
    by rewrite (stored_set_shard _ _ _ _ _ Hl), decide_True. }
  destruct (lru_map l k) as [item|] eqn:Em; [|by apply Hpush].
  destruct (item_epoch item =? e) eqn:Ee; [|by apply Hpush].
  eexists. split; [done|]. pose proof (fun item' k' => lru_write_spec l k item' k' ltac:(eauto)) as Hwr.
  split; [by apply set_shard_wf|]. split.
  - eapply keeps_others_set; [done|]. intros k' Hk. left. by rewrite Hwr, decide_False.
  - split; [done|]. rewrite (stored_set_shard _ _ _ _ _ Hl), decide_True by done.
    by rewrite Hwr, decide_True.
Qed.

Lemma invalidate_spec c k : cache_wf c -> exists c',
  invalidate c k = Some c' /\ cache_wf c' /\ (forall k', k' <> k -> stored c' k' = stored c k') /\
  stored c' k = None.
Proof using CL.
  intros Hw. destruct (get_shard_wf c k Hw) as [l Hl]. unfold invalidate. rewrite Hl. simpl.
  pose proof (lru_pop_spec l k) as [_ Hp]. destruct (lru_pop l k) as [found l1] eqn:E. simpl in Hp.
  assert (cache_wf (set_shard c k l1) /\
    (forall k', k' <> k -> stored (set_shard c k l1) k' = stored c k') /\
    stored (set_shard c k l1) k = None) as (H1 & H2 & H3).
  { split; [by apply set_shard_wf|]. split.
    - intros k' Hk. rewrite (stored_set_shard _ _ _ _ _ Hl). case_decide as Ei; [|done].
      by rewrite Hp, decide_False, (stored_same_shard _ _ _ _ Hl Ei).
    - rewrite (stored_set_shard _ _ _ _ _ Hl), decide_True by done. by rewrite Hp, decide_True. }
  eexists. split; [done|]. by destruct found.
Qed.
End soundness.

(** ** Histories of the cache *)

Inductive cache_op :=
| DoGet (k cmd : bytes) (e : Z)
| DoInsert (k cmd : bytes) (v : Value) (x e : Z)
| DoInvalidate (k : bytes)
| DoEpoch.

(** The specification: what a client of epoch [e] may be told for [cmd] on [k],
    and until when.  An insertion for the key renews the time of everything
    stored for it; one of another epoch, or an invalidation, drops it. *)
Definition current_step (k cmd : bytes) (e : Z) (cur : option (Value * Z)) (op : cache_op)
    : option (Value * Z) :=
  match op with
  | DoInsert k' cmd' v x e' =>
      if decide (k' = k) then
        if decide (e' = e) then
          if decide (cmd' = cmd) then Some (v, x) else (fun p => (p.1, x)) <$> cur
        else None
      else cur
  | DoInvalidate k' => if decide (k' = k) then None else cur
  | DoGet _ _ _ | DoEpoch => cur
  end.
Definition current (k cmd : bytes) (e : Z) (ops : list cache_op) : option (Value * Z) :=
  foldl (current_step k cmd e) None ops.

Section history.
Context `{C : LruCache} {CL : LruCacheLaws C} `{KeyHash} `{Clock}.
Implicit Types c : ShardedLRU.

Definition cache_apply c (op : cache_op) : option ShardedLRU :=
  match op with
  | DoGet k cmd e => snd <$> lru_cache_get c k cmd e
  | DoInsert k cmd v x e => lru_cache_insert c k cmd v x e
  | DoInvalidate k => invalidate c k
  | DoEpoch => Some (increase_epoch c).2
  end.
Fixpoint run_cache c (ops : list cache_op) : option ShardedLRU :=
  match ops with [] => Some c | op :: ops => c ← cache_apply c op; run_cache c ops end.

Record item_current (ops : list cache_op) (k : bytes) (item : CacheItem) : Prop := {
  item_nodup : NoDup (map entry_cmd (value_list item));
  item_entries : forall entry, entry ∈ value_list item ->
    current k (entry_cmd entry) (item_epoch item) ops = Some (entry_value entry, expire_time item)
}.
Record cache_inv (ops : list cache_op) c : Prop := {
  inv_wf : cache_wf c;
  inv_items : forall k item, stored c k = Some item -> item_current ops k item
}.

Lemma current_snoc k cmd e ops op : current k cmd e (ops ++ [op]) = current_step k cmd e (current k cmd e ops) op.
Proof using. unfold current. by rewrite foldl_app. Qed.

Lemma set_entry_elem cmd v l entry : NoDup (map entry_cmd l) -> entry ∈ set_entry cmd v l ->
  entry = {| entry_cmd := cmd; entry_value := v |} \/ (entry ∈ l /\ entry_cmd entry <> cmd).
Proof using.
  induction l as [|a l IH]; simpl; intros Hnd; [set_solver|]. apply NoDup_cons in Hnd as [Ha Hnd].
  destruct (bytes_eqb (entry_cmd a) cmd) eqn:E.
  - apply bytes_eqb_true in E. rewrite elem_of_cons. intros [->|Hin]; [left; by rewrite E|].
    right. split; [set_solver|]. intros E'. apply Ha. rewrite E, <- E'. apply list_elem_of_In, in_map. by apply list_elem_of_In.
  - assert (entry_cmd a <> cmd) by (intros E'; apply bytes_eqb_true in E'; congruence).
    rewrite elem_of_cons. intros [->|Hin]; [right; split; [set_solver|done]|].
    destruct (IH Hnd Hin) as [->|[? ?]]; [by left|right; set_solver].
Qed.

Lemma set_entry_cmds cmd v l : map entry_cmd (set_entry cmd v l) =
  if decide (cmd ∈ map entry_cmd l) then map entry_cmd l else map entry_cmd l ++ [cmd].
Proof using.
  induction l as [|a l IH]; [done|]. cbn [set_entry]. destruct (bytes_eqb (entry_cmd a) cmd) eqn:E.
  - apply bytes_eqb_true in E. rewrite decide_True; [done|]. simpl. set_solver.
  - assert (entry_cmd a <> cmd) by (intros E'; apply bytes_eqb_true in E'; congruence).
    cbn [map]. rewrite IH. case_decide; [rewrite decide_True by set_solver|rewrite decide_False by set_solver]; done.
Qed.

Lemma set_entry_NoDup cmd v l : NoDup (map entry_cmd l) -> NoDup (map entry_cmd (set_entry cmd v l)).
Proof using.
  intros Hnd. rewrite set_entry_cmds. case_decide; [done|]. apply NoDup_app. split_and!; [done| |apply NoDup_singleton].
  set_solver.
Qed.

Lemma find_entry_elem cmd l v : find_entry cmd l = Some v ->
  {| entry_cmd := cmd; entry_value := v |} ∈ l.
Proof using.
  induction l as [|[cmd' v'] l IH]; simpl; [done|]. case_match eqn:E.
  - apply bytes_eqb_true in E as ->. intros [= ->]. apply list_elem_of_here.
  - intros Hf. apply list_elem_of_further. by apply IH.
Qed.

(** What is stored for other keys is untouched by the operation. *)
Lemma inv_other ops op c c' k : cache_inv ops c -> keeps_others c c' k ->
  (forall k' cmd e cur, k' <> k -> current_step k' cmd e cur op = cur) ->
  forall k' item, k' <> k -> stored c' k' = Some item -> item_current (ops ++ [op]) k' item.
Proof using.
  intros [_ Hi] Hk Hcur k' item Hne Hs. destruct (Hk k' Hne) as [E|E]; [|congruence]. rewrite E in Hs.
  destruct (Hi k' item Hs) as [Hn He]. split; [done|]. intros entry Hin. rewrite current_snoc, Hcur by done. by apply He.
Qed.

Lemma inv_get ops c k cmd e : cache_inv ops c -> exists c',
  cache_apply c (DoGet k cmd e) = Some c' /\ cache_inv (ops ++ [DoGet k cmd e]) c'.
Proof using CL.
  intros Hinv. destruct (get_spec c k cmd e (inv_wf _ _ Hinv)) as (c' & E & Hw & Hk & Hs).
  exists c'. unfold cache_apply. rewrite E. split; [done|]. split; [done|]. intros k' item Hst.
  destruct (decide (k' = k)) as [->|Hne].
  - destruct Hs as [Hs|Hs]; [|congruence]. rewrite Hs in Hst. destruct (inv_items _ _ Hinv k item Hst) as [Hn He].
    split; [done|]. intros entry Hin. rewrite current_snoc. by apply He.
  - eapply inv_other; [exact Hinv|exact Hk|done|exact Hne|exact Hst].
Qed.

Lemma inv_insert ops c k cmd v x e : cache_inv ops c -> exists c',
  cache_apply c (DoInsert k cmd v x e) = Some c' /\ cache_inv (ops ++ [DoInsert k cmd v x e]) c'.
Proof using CL.
  intros Hinv. destruct (insert_spec c k cmd v x e (inv_wf _ _ Hinv)) as (c' & E & Hw & Hk & _ & Hs).
  exists c'. unfold cache_apply. rewrite E. split; [done|]. split; [done|]. intros k' item Hst.
  destruct (decide (k' = k)) as [->|Hne].
  2:{ eapply inv_other; [exact Hinv|exact Hk| |exact Hne|exact Hst]. intros. simpl. by rewrite decide_False. }
  rewrite Hs in Hst. injection Hst as <-.
  assert (current k cmd e (ops ++ [DoInsert k cmd v x e]) = Some (v, x)) as Hnew
    by (rewrite current_snoc; simpl; by rewrite !decide_True).
  assert (item_current (ops ++ [DoInsert k cmd v x e]) k {| expire_time := x; item_epoch := e;
    value_list := [{| entry_cmd := cmd; entry_value := v |}] |}) as Hfresh.
  { split; simpl; [apply NoDup_singleton|]. by intros entry ->%list_elem_of_singleton. }
  destruct (stored c k) as [item|] eqn:Est; [|done]. destruct (item_epoch item =? e) eqn:Ee; [|done].
  apply Z.eqb_eq in Ee. destruct (inv_items _ _ Hinv k item Est) as [Hn He].
  split; simpl; [by apply set_entry_NoDup|]. intros entry Hin.
  destruct (set_entry_elem _ _ _ _ Hn Hin) as [->|[Hold Hcmd]]; [done|].
  rewrite current_snoc. simpl. rewrite !decide_True, decide_False by done. rewrite <- Ee. by rewrite (He entry Hold).
Qed.

Lemma inv_invalidate ops c k : cache_inv ops c -> exists c',
  cache_apply c (DoInvalidate k) = Some c' /\ cache_inv (ops ++ [DoInvalidate k]) c'.
Proof using CL.
  intros Hinv. destruct (invalidate_spec c k (inv_wf _ _ Hinv)) as (c' & E & Hw & Hk & Hs).
  exists c'. unfold cache_apply. rewrite E. split; [done|]. split; [done|]. intros k' item Hst.
  destruct (decide (k' = k)) as [->|Hne]; [congruence|].
  eapply inv_other; [exact Hinv|intros k0 Hk0; left; by apply Hk| |exact Hne|exact Hst]. intros. simpl. by rewrite decide_False.
Qed.

Lemma inv_run ops done_ c : cache_inv done_ c -> exists c', run_cache c ops = Some c' /\ cache_inv (done_ ++ ops) c'.
Proof using CL.
  revert done_ c. induction ops as [|op ops IH]; intros done_ c Hinv; [exists c; by rewrite app_nil_r|].
  assert (exists c1, cache_apply c op = Some c1 /\ cache_inv (done_ ++ [op]) c1) as (c1 & E & Hinv1).
  { destruct op; [by apply inv_get|by apply inv_insert|by apply inv_invalidate|].
    eexists. split; [done|]. destruct Hinv as [Hw Hi]. split; [done|]. intros k item Hs.
    destruct (Hi k item Hs) as [Hn He]. split; [done|]. intros entry Hin. rewrite current_snoc. by apply He. }
  destruct (IH _ _ Hinv1) as (c' & E' & Hinv'). exists c'. cbn [run_cache]. rewrite E.
  split; [exact E'|]. by rewrite <- app_assoc in Hinv'.
Qed.

Lemma stored_new n k : stored (ShardedLRU_new n) k = None.
Proof using CL.
  unfold stored. destruct (get_shard (ShardedLRU_new n) k) as [l|] eqn:E; [|done]. simpl.
  unfold get_shard, ShardedLRU_new in E. assert (exists m, l = lru_new m) as [m ->].
  { destruct (MAX_SHARD_COUNT <=? n); apply lookup_replicate in E as [-> _]; eauto. }
  apply lru_map_new.
Qed.

Lemma inv_new n : cache_inv [] (ShardedLRU_new n).
Proof using CL. split; [apply cache_wf_new|]. intros k item Hs. by rewrite stored_new in Hs. Qed.

(** ** Statistics *)

Definition lookups c : Z := hit (statistics c) + miss (statistics c).

Lemma as_usize_count a b : as_usize (as_usize (a + 1) + b) = as_usize (a + b + 1).
Proof using. unfold as_usize, as_u64. rewrite Zplus_mod_idemp_l. f_equal. lia. Qed.

Lemma get_counted c k cmd e r c' : lru_cache_get c k cmd e = Some (r, c') ->
  as_usize (lookups c') = as_usize (lookups c + 1) /\
  (is_Some r -> miss (statistics c') = miss (statistics c)) /\ (r = None -> hit (statistics c') = hit (statistics c)).
Proof using.
  unfold lru_cache_get, lookups. destruct (get_shard c k) as [l|]; [|done]. simpl.
  destruct (lru_get l k) as [[item|] l1]; simpl.
  2:{ intros [= <- <-]. simpl. split; [rewrite Z.add_comm, as_usize_count; f_equal; lia|]. split; [by intros []|done]. }
  assert (forall s : Statistics, as_usize (hit s + as_usize (miss s + 1)) = as_usize (hit s + miss s + 1)) as Hmiss
    by (intros s; rewrite Z.add_comm, as_usize_count; f_equal; lia).
  destruct (item_epoch item =? e); simpl.
  2:{ intros [= <- <-]. simpl. split; [apply Hmiss|]. split; [by intros []|done]. }
  destruct (expire_time item <? clock (clock_reads c)); simpl.
  - intros [= <- <-]. simpl. split; [apply Hmiss|]. split; [by intros []|done].
  - destruct (find_entry cmd (value_list item)); intros [= <- <-]; simpl.
    + split; [apply as_usize_count|]. by split.
    + split; [apply Hmiss|]. split; [by intros []|done].
Qed.
End history.

(** ** Caching is transparent *)

Section transparency.
Context `{C : LruCache} {CL : LruCacheLaws C} `{KeyHash} `{Clock}.
Implicit Types c : ShardedLRU.

(** What the server answers a list of arguments, and the value that belongs to
    a key and a cache key. *)
Variable reply : list (Arg bytes) -> Value.
Variable truth : bytes -> bytes -> Value.
Variable m : CacheManager.
(** The keys whose values the cache is asked for. *)
Variable looked : bytes -> Prop.

Definition server (cmd : Cmd) : Value := reply (args_iter cmd).

(** Everything in the cache is what the server would answer. *)
Definition coherent c : Prop :=
  cache_wf c /\
  forall k item, stored c k = Some item -> forall cmd v, find_entry cmd (value_list item) = Some v -> v = truth k cmd.

Definition part_value (single : bytes) (path : option bytes) (k : bytes) : Value :=
  truth k (prepare_key_buffer single k path).
Definition tail_of (path : option bytes) : list bytes := match path with Some p => [p] | None => [] end.

(** A JSON command has a path behind its keys. *)
Definition path_fits (name : string) (path : option bytes) : Prop :=
  is_Some path <-> starts_with (bs "JSON") (bs name) = true.

(** The server answers a multi-key command key by key. *)
Hypothesis server_multi : forall name single ks path, ks <> [] -> Forall looked ks ->
  is_multi_key (bs name) = Some (name, single) -> path_fits name path ->
  reply (map Simple (bs name :: ks ++ tail_of path)) = Array (map (part_value single path) ks).

(** The replies to a command belong to the keys it is cached under. *)
Record answered (cmd : Cmd) : Prop := {
  answered_ok : cmd_ok cmd;
  answered_no_cursor : Cursor ∉ args cmd;
  answered_single name k : arg_idx_checked cmd 0 = Some (Some name) -> is_multi_key name = None ->
    is_cachable_cmd name = true -> arg_idx_checked cmd 1 = Some (Some k) -> server cmd = truth k (data cmd);
  answered_multi name name' single : arg_idx_checked cmd 0 = Some (Some name) ->
    is_multi_key name = Some (name', single) ->
    let '(ks, path) := multi_key_arguments (starts_with (bs "JSON") (bs name')) cmd in
    server cmd = Array (map (part_value single path) ks)
}.

(** The keys under which the reply to a command is looked up in the cache. *)
Definition looks_up (cmd : Cmd) (k : bytes) : Prop :=
  exists name, arg_idx_checked cmd 0 = Some (Some name) /\
  match is_multi_key name with
  | Some (name', _) => k ∈ (multi_key_arguments (starts_with (bs "JSON") (bs name')) cmd).1
  | None => is_cachable_cmd name = true /\ arg_idx_checked cmd 1 = Some (Some k)
  end.

Lemma is_multi_key_name name name' single : is_multi_key name = Some (name', single) -> name = bs name'.
Proof using.
  unfold is_multi_key. intros E. destruct (bytes_eqb name (bs "MGET")) eqn:E1.
  { apply bytes_eqb_true in E1. by simplify_eq. }
  destruct (bytes_eqb name (bs "JSON.MGET")) eqn:E2; [|done]. apply bytes_eqb_true in E2. by simplify_eq.
Qed.

Lemma coherent_get c k cmd e : coherent c -> exists r c',
  lru_cache_get c k cmd e = Some (r, c') /\ coherent c' /\ (forall v, r = Some v -> v = truth k cmd).
Proof using CL.
  intros [Hw Hc]. destruct (get_spec c k cmd e Hw) as (c' & E & Hw' & Hk & Hs). rewrite E.
  eexists _, c'. split; [done|]. split.
  - split; [done|]. intros k' item Hst. destruct (decide (k' = k)) as [->|Hne].
    + destruct Hs as [Hs|Hs]; [|congruence]. apply Hc. congruence.
    + destruct (Hk k' Hne) as [E'|E']; [|congruence]. apply Hc. congruence.
  - intros v Hv. destruct (stored c k) as [item|] eqn:Est; [|done]. simpl in Hv.
    destruct (item_valid c item e); [|done]. by eapply Hc.
Qed.

Lemma find_set_entry cmd v l cmd' :
  find_entry cmd' (set_entry cmd v l) = if decide (cmd' = cmd) then Some v else find_entry cmd' l.
Proof using.
  induction l as [|a l IH]; cbn [set_entry find_entry entry_cmd entry_value].
  - case_decide as E; [subst; by rewrite bytes_eqb_refl|].
    destruct (bytes_eqb cmd cmd') eqn:E'; [|done]. apply bytes_eqb_true in E'. congruence.
  - destruct (bytes_eqb (entry_cmd a) cmd) eqn:E.
    + apply bytes_eqb_true in E. cbn [find_entry entry_cmd entry_value]. rewrite E.
      destruct (bytes_eqb cmd cmd') eqn:E'.
      * apply bytes_eqb_true in E'. by rewrite decide_True.
      * rewrite decide_False; [done|]. intros ->. by rewrite bytes_eqb_refl in E'.
    + cbn [find_entry]. destruct (bytes_eqb (entry_cmd a) cmd') eqn:E'; [|done].
      apply bytes_eqb_true in E'. rewrite decide_False; [done|]. intros ->. rewrite <- E', bytes_eqb_refl in E. done.
Qed.

Lemma coherent_insert c k cmd x e : coherent c -> exists c',
  lru_cache_insert c k cmd (truth k cmd) x e = Some c' /\ coherent c'.
Proof using CL.
  intros [Hw Hc]. destruct (insert_spec c k cmd (truth k cmd) x e Hw) as (c' & E & Hw' & Hk & _ & Hs).
  exists c'. split; [done|]. split; [done|]. intros k' item Hst. destruct (decide (k' = k)) as [->|Hne].
  2:{ destruct (Hk k' Hne) as [E'|E']; [|congruence]. apply Hc. congruence. }
  rewrite Hs in Hst. injection Hst as <-. cbn [value_list]. intros cmd' v.
  assert (forall l, (forall cmd' v, find_entry cmd' l = Some v -> v = truth k cmd') ->
    find_entry cmd' (set_entry cmd (truth k cmd) l) = Some v -> v = truth k cmd') as Hl.
  { intros l Hl. rewrite find_set_entry. case_decide; [congruence|apply Hl]. }
  destruct (stored c k) as [item|] eqn:Est; [destruct (item_epoch item =? e)|].
  - apply Hl. by apply Hc.
  - by apply (Hl []).
  - by apply (Hl []).
Qed.

Lemma coherent_manager_insert c k cmd x pttl : coherent c -> exists c',
  manager_insert m c k cmd (truth k cmd) x pttl = Some c' /\ coherent c'.
Proof using CL.
  intros Hc. unfold manager_insert. destruct (from_redis_value_ref (frv_int i64_ty) pttl) as [n|];
    [|by apply coherent_insert]. destruct (0 <? n); [|by apply coherent_insert]. simpl. by apply coherent_insert.
Qed.

(** What [process_keys] leaves to do: hits are in place, misses are [Nil] and
    listed with their position. *)
Fixpoint parts_ok (single : bytes) (path : option bytes) (i : nat) (ks : list bytes)
    (commands : list (nat * MultipleCachedCommandPart)) (response : list Value) : Prop :=
  match ks with
  | [] => commands = [] /\ response = []
  | k :: ks =>
      (exists response', response = part_value single path k :: response' /\
         parts_ok single path (S i) ks commands response') \/
      (exists commands' response',
         commands = (i, {| part_key := k; part_cmd_key := prepare_key_buffer single k path |}) :: commands' /\
         response = Nil :: response' /\ parts_ok single path (S i) ks commands' response')
  end.

Lemma process_keys_ok c single path i ks : coherent c -> exists commands response c',
  process_keys m c single path i ks = Some (commands, response, c') /\ coherent c' /\
  parts_ok single path i ks commands response.
Proof using CL.
  revert c i. induction ks as [|k ks IH]; intros c i Hc; [by exists [], [], c|]. cbn [process_keys].
  unfold manager_get. destruct (coherent_get c k (prepare_key_buffer single k path) (epoch m) Hc)
    as (r & c1 & -> & Hc1 & Hr). cbn [mbind option_bind].
  destruct (IH c1 (S i) Hc1) as (commands & response & c2 & -> & Hc2 & Hp). cbn [mbind option_bind].
  destruct r as [v|]; eexists _, _, c2; (split; [done|]); (split; [done|]); cbn [parts_ok].
  - left. exists response. by rewrite (Hr v eq_refl).
  - right. by exists commands, response.
Qed.

Definition part_keys (commands : list (nat * MultipleCachedCommandPart)) : list bytes :=
  map (fun p => part_key p.2) commands.

Lemma parts_looked single path ks : forall i commands response,
  parts_ok single path i ks commands response -> Forall looked ks -> Forall looked (part_keys commands).
Proof using.
  induction ks as [|k ks IH]; intros i commands response; cbn [parts_ok].
  - intros [-> _] _. by apply Forall_nil.
  - intros [(response' & _ & Hp)|(commands' & response' & -> & _ & Hp)] [Hk Hks]%Forall_cons; [by eapply IH|].
    apply Forall_cons. split; [done|by eapply IH].
Qed.

Lemma resolve_parts_ok c x single path ks : forall pre i commands response pttls rest,
  coherent c -> parts_ok single path i ks commands response -> length pre = i ->
  length pttls = length commands ->
  exists c', resolve_parts m c x (map (part_value single path) (part_keys commands)) (pttls ++ rest) commands
               (pre ++ response) = Some (pre ++ map (part_value single path) ks, c', rest) /\ coherent c'.
Proof using CL.
  revert c. induction ks as [|k ks IH]; intros c pre i commands response pttls rest Hc Hp Hi Hl.
  - destruct Hp as [-> ->]. exists c. simpl. split; [|done]. by destruct pttls.
  - cbn [parts_ok] in Hp. destruct Hp as [(response' & -> & Hp)|(commands' & response' & -> & -> & Hp)].
    + rewrite cons_middle, app_assoc. destruct (IH c (pre ++ [part_value single path k]) (S i) commands response'
        pttls rest Hc Hp) as (c' & -> & Hc'); [rewrite length_app; simpl; lia|done|].
      exists c'. by rewrite <- app_assoc.
    + destruct pttls as [|pttl pttls]; [done|]. cbn [map part_keys snd part_key app resolve_parts part_cmd_key].
      assert (exists c1, (if is_server_error (part_value single path k) then Some c
        else manager_insert m c k (prepare_key_buffer single k path) (part_value single path k) x pttl) = Some c1 /\
        coherent c1) as (c1 & E & Hc1).
      { case_match; [by exists c|]. by apply coherent_manager_insert. }
      rewrite E. cbn [mbind option_bind].
      rewrite (proj2 (Nat.ltb_lt _ _)) by (rewrite length_app; simpl; lia).
      rewrite <- Hi, insert_app_r_alt, Nat.sub_diag by lia. cbn [insert list_insert].
      rewrite (cons_middle (part_value single path k)), app_assoc.
      destruct (IH c1 (pre ++ [part_value single path k]) (S i) commands' response' pttls rest Hc1 Hp)
        as (c' & E' & Hc'); [rewrite length_app; simpl; lia|simpl in Hl; lia|].
      exists c'. split; [|done]. unfold part_keys in E'. rewrite E'. by rewrite <- app_assoc.
Qed.

(** A prepared command knows how to make the server's answer. *)
Definition prepared (cmd : Cmd) (p : PrepCacheItem) : Prop :=
  match p with
  | Cached v => v = server cmd
  | NotCached (Single scc) =>
      cached_cmd scc = cmd /\ server cmd = truth (redis_key scc) (cmd_key scc)
  | NotCached (Multiple name commands response _ tail) =>
      exists single path ks, is_multi_key (bs name) = Some (name, single) /\ tail = tail_of path /\
        path_fits name path /\ commands <> [] /\ parts_ok single path 0 ks commands response /\ Forall looked ks /\
        server cmd = Array (map (part_value single path) ks)
  | NotCacheable => True
  end.

Lemma multi_hits single path i ks response : parts_ok single path i ks [] response ->
  response = map (part_value single path) ks.
Proof using.
  revert i response. induction ks as [|k ks IH]; intros i response; simpl; [naive_solver|].
  intros [(response' & -> & Hp)|(? & ? & ? & _)]; [|done]. f_equal. by eapply IH.
Qed.

Lemma multi_key_path json cmd ks path : multi_key_arguments json cmd = (ks, path) -> ks <> [] ->
  (is_Some path <-> json = true).
Proof using.
  unfold multi_key_arguments. destruct json; intros [= <- <-] Hne; [|by split; [intros []|]].
  split; [done|]. intros _. apply last_is_Some. intros E. rewrite E in Hne. done.
Qed.

Lemma coherent_now c : coherent c -> coherent (now c).2.
Proof using. done. Qed.

Lemma prepare_command_ok c cmd : coherent c -> answered cmd -> (forall k, looks_up cmd k -> looked k) -> exists p c',
  get_cached_cmd m c cmd = Some (p, c') /\ coherent c' /\ prepared cmd p.
Proof using CL.
  intros Hc Ha Hlooked. destruct (arg_idx_simple cmd (answered_ok _ Ha) (answered_no_cursor _ Ha)) as (l & Hi & _ & Harg).
  assert (exists p c', get_cached_cmd_inner m c cmd = Some (p, c') /\ coherent c' /\ prepared cmd p) as Hinner.
  2:{ unfold get_cached_cmd. destruct (mode (cache_config m)); [done|]. case_match; [done|].
      by exists NotCacheable, c. }
  unfold get_cached_cmd_inner. case_match; [by exists NotCacheable, c|].
  destruct (arg_idx_checked cmd 0) as [[name|]|] eqn:E0; [| |by rewrite Harg in E0].
  2:{ by exists NotCacheable, c. }
  cbn [mbind option_bind]. unfold calculate_expiration_time.
  apply coherent_now in Hc. set (c1 := (now c).2) in *. change (now c) with (clock (clock_reads c), c1).
  cbv beta iota zeta. generalize (clock (clock_reads c) +
    default (default_client_ttl (cache_config m)) (get_cache_config cmd ≫= client_side_ttl)). intros x.
  destruct (is_multi_key name) as [[name' single]|] eqn:Em.
  - pose proof (answered_multi _ Ha _ _ _ E0 Em) as Hs. pose proof (is_multi_key_name _ _ _ Em) as ->.
    unfold handle_multi_key_command. destruct (multi_key_arguments _ cmd) as [ks path] eqn:Eargs.
    destruct (process_keys_ok c1 single path 0 ks Hc) as (commands & response & c2 & -> & Hc2 & Hp).
    cbn [mbind option_bind]. eexists _, c2. split; [done|]. split; [done|].
    destruct commands as [|p commands].
    + simpl. rewrite Hs. f_equal. by eapply multi_hits.
    + simpl. exists single, path, ks. split_and!; [done|by destruct path| |done|done| |done].
      * eapply multi_key_path; [exact Eargs|]. intros ->. by destruct Hp.
      * apply Forall_forall. intros k Hk. apply Hlooked. exists (bs name'). by rewrite Em, Eargs.
  - destruct (is_cachable_cmd name) eqn:Ec; [|by exists NotCacheable, c1].
    unfold handle_single_key_command.
    destruct (arg_idx_checked cmd 1) as [[k|]|] eqn:E1; [| |by rewrite Harg in E1]; cbn [mbind option_bind].
    2:{ by exists NotCacheable, c1. }
    unfold manager_get. destruct (coherent_get c1 k (data cmd) (epoch m) Hc) as (r & c2 & -> & Hc2 & Hr).
    cbn [mbind option_bind]. eexists _, c2. split; [done|]. split; [done|].
    pose proof (answered_single _ Ha _ _ E0 Em Ec E1) as Hs.
    destruct r as [v|]; simpl; [by rewrite Hs, (Hr v eq_refl)|done].
Qed.

(** The commands sent for a prepared command, and reading back their replies. *)
Lemma foldl_write_args name l :
  args_iter (foldl write_arg (cmd name) l) = map Simple (bs name :: l).
Proof using.
  assert (forall l (c0 : Cmd), cmd_ok c0 -> args_iter (foldl write_arg c0 l) = args_iter c0 ++ map Simple l) as Hf.
  { clear. induction l as [|a l IH]; intros c0 Hok; [by rewrite app_nil_r|]. simpl.
    destruct (write_arg_ok c0 a Hok) as [Hok' E]. rewrite IH, E by done. by rewrite <- app_assoc. }
  destruct (write_arg_ok Cmd_new (bs name)) as [Hok E]; [done|]. unfold cmd. rewrite Hf by done. by rewrite E.
Qed.

Lemma resolve_command_ok c cmd cc rest : coherent c -> prepared cmd (NotCached cc) -> exists c',
  resolve_command m c cc (map server (pack_cacheable m cc) ++ rest) = Some (Ok (server cmd, rest), c') /\ coherent c'.
Proof using CL server_multi.
  intros Hc Hp. unfold resolve_command, pack_cacheable.
  set (body := match cc with Single scc => _ | Multiple _ _ _ _ _ => _ end).
  assert (match mode (cache_config m) with
          | OptIn => match get_next_reply (map server (match mode (cache_config m) with
                       | OptIn => [caching_yes_cmd] | CacheAll => [] end ++ body) ++ rest) with
                     | Ok (_, replies) => Ok replies | Err e => Err e end
          | CacheAll => Ok (map server (match mode (cache_config m) with
                       | OptIn => [caching_yes_cmd] | CacheAll => [] end ++ body) ++ rest)
          end = Ok (map server body ++ rest)) as -> by (by destruct (mode (cache_config m))).
  destruct cc as [scc|name commands response x tail]; unfold body; clear body; simpl in Hp.
  - destruct Hp as [-> Ht]. cbn [map app].
    assert (exists c1, (if is_server_error (server cmd) then Some c
      else manager_insert m c (redis_key scc) (cmd_key scc) (server cmd) (client_side_expire scc)
             (server (pttl_cmd (redis_key scc)))) = Some c1 /\ coherent c1) as (c1 & -> & Hc1).
    { case_match; [by exists c|]. rewrite Ht. by apply coherent_manager_insert. }
    exists c1. done.
  - destruct Hp as (single & path & ks & Hm & -> & Hpath & Hne & Hp & Hks & Hs). cbn [map app].
    assert (server (foldl write_arg (Cmd.cmd name) (map (fun p => part_key p.2) commands ++ tail_of path)) =
      Array (map (part_value single path) (part_keys commands))) as ->.
    { unfold server. rewrite foldl_write_args. apply server_multi; [by destruct commands| |done|done].
      by eapply (parts_looked single path ks). }
    rewrite map_map.
    destruct (resolve_parts_ok c x single path ks [] 0 commands response
      (map (fun p => server (pttl_cmd (part_key p.2))) commands) rest Hc Hp eq_refl) as (c' & E & Hc');
      [by rewrite length_map|].
    cbn [app] in E. rewrite E. cbn [mbind option_bind]. exists c'. by rewrite Hs.
Qed.

End transparency.

(** A server with a state: what it answers a list of arguments, and the state it
    leaves behind; and what belongs to a key and a cache key in a state. *)
Section stateful.
Context `{C : LruCache} {CL : LruCacheLaws C} `{KeyHash} `{Clock}.
Implicit Types c : ShardedLRU.
Context {St : Type} (exec : St -> list (Arg bytes) -> Value * St) (truth : St -> bytes -> bytes -> Value).
Variable m : CacheManager.

Definition answers (s : St) (l : list (Arg bytes)) : Value := (exec s l).1.
Definition after (s : St) (cmds : list Cmd) : St := foldl (fun s cmd => (exec s (args_iter cmd)).2) s cmds.
(** The replies to commands that are executed one after the other. *)
Fixpoint replies (s : St) (cmds : list Cmd) : list Value :=
  match cmds with
  | [] => []
  | cmd :: cmds => server (answers s) cmd :: replies (after s [cmd]) cmds
  end.

(** The commands that the cache looks up, and those it adds, read. *)
Definition reading (l : list bytes) : Prop :=
  match l with
  | name :: _ => name = bs "PTTL" \/ is_Some (is_multi_key name) \/ is_cachable_cmd name = true
  | [] => False
  end \/ l = [bs "CLIENT"; bs "CACHING"; bs "YES"].

(** What is assumed of the server in every state: reading changes nothing, and a
    multi-key command is answered key by key. *)
Record well_behaved : Prop := {
  reading_keeps s l : reading l -> (exec s (map Simple l)).2 = s;
  answers_by_key s name single ks path : ks <> [] -> is_multi_key (bs name) = Some (name, single) ->
    path_fits name path ->
    answers s (map Simple (bs name :: ks ++ tail_of path)) = Array (map (part_value (truth s) single path) ks)
}.
Hypothesis server_ok : well_behaved.

Definition looked_up (cmds : list Cmd) (k : bytes) : Prop := Exists (fun cmd => looks_up cmd k) cmds.
(** The pipeline writes no key that it looks up. *)
Definition writes_elsewhere (cmds : list Cmd) : Prop :=
  Forall (fun cmd => forall s k key, looked_up cmds k ->
    truth (after s [cmd]) k key = truth s k key) cmds.

(** A state in which the keys looked up are as in [s0]. *)
Section from.
Context (s0 : St) (looked : bytes -> Prop).
Definition unchanged (s : St) : Prop := forall k key, looked k -> truth s k key = truth s0 k key.

Lemma parts_unchanged s single path ks : unchanged s -> Forall looked ks ->
  map (part_value (truth s) single path) ks = map (part_value (truth s0) single path) ks.
Proof using.
  intros Hs Hks. apply map_ext_Forall. eapply Forall_impl; [exact Hks|]. intros k Hk. by apply Hs.
Qed.

Lemma multi_unchanged s : unchanged s -> forall name single ks path, ks <> [] -> Forall looked ks ->
  is_multi_key (bs name) = Some (name, single) -> path_fits name path ->
  answers s (map Simple (bs name :: ks ++ tail_of path)) = Array (map (part_value (truth s0) single path) ks).
Proof using server_ok.
  intros Hs name single ks path Hne Hks Hm Hp. rewrite (answers_by_key server_ok s name single) by done.
  by rewrite (parts_unchanged s).
Qed.

Lemma answered_unchanged s cmd : unchanged s -> (forall k, looks_up cmd k -> looked k) ->
  answered (answers s) (truth s) cmd -> answered (answers s) (truth s0) cmd.
Proof using.
  intros Hs Hlooked [Hok Hcur Hone Hmany]. split; [done|done| |].
  - intros name k E0 Em Ec E1. rewrite (Hone name k) by done. apply Hs, Hlooked. exists name. by rewrite Em.
  - intros name name' single E0 Em. specialize (Hmany name name' single E0 Em).
    destruct (multi_key_arguments _ cmd) as [ks path] eqn:Ea. rewrite Hmany. f_equal. apply parts_unchanged; [done|].
    apply Forall_forall. intros k Hk. apply Hlooked. exists name. by rewrite Em, Ea.
Qed.
End from.

(** [reading] of the arguments of a command. *)
Definition reads (cmd : Cmd) : Prop := exists l, args_iter cmd = map Simple l /\ reading l.

Lemma reads_keep s cmd : reads cmd -> after s [cmd] = s.
Proof using server_ok. intros (l & E & Hl). simpl. rewrite E. by apply reading_keeps. Qed.

Lemma reads_replies s cmds rest : Forall reads cmds ->
  replies s (cmds ++ rest) = map (server (answers s)) cmds ++ replies s rest /\ after s (cmds ++ rest) = after s rest.
Proof using server_ok.
  induction 1 as [|cmd cmds Hc _ IH]; [done|]. cbn [app replies map].
  change (after s (cmd :: cmds ++ rest)) with (after (after s [cmd]) (cmds ++ rest)).
  rewrite reads_keep by done. destruct IH as [-> ->]. done.
Qed.

(** What the cache takes over reads. *)
Lemma taken_reads c cmd p c' : cmd_ok cmd -> Cursor ∉ args cmd -> get_cached_cmd m c cmd = Some (p, c') ->
  p <> NotCacheable -> reads cmd.
Proof using.
  intros Hok Hcur E Hp. destruct (arg_idx_simple cmd Hok Hcur) as (l & Hi & _ & Harg).
  assert (get_cached_cmd_inner m c cmd = Some (p, c')) as E'.
  { revert E. unfold get_cached_cmd. destruct (mode (cache_config m)); [done|]. case_match; [done|]. congruence. }
  clear E. revert E'. unfold get_cached_cmd_inner. case_match; [congruence|]. specialize (Harg 0%nat).
  destruct (arg_idx_checked cmd 0) as [[name|]|]; simpl; [|congruence|done].
  assert (exists l', l = name :: l') as [l' ->].
  { injection Harg as Harg. case_bool_decide; [done|]. destruct l; simplify_eq/=. by eexists. }
  destruct (is_multi_key name) as [[name' single]|] eqn:Em.
  - intros _. exists (name :: l'). split; [done|]. left. right. left. by rewrite Em.
  - destruct (is_cachable_cmd name) eqn:Ec; [|simpl; congruence]. intros _. exists (name :: l'). split; [done|].
    left. by do 2 right.
Qed.

Lemma pttl_reads k : reads (pttl_cmd k).
Proof using.
  exists [bs "PTTL"; k]. split; [|by do 2 left]. exact (foldl_write_args "PTTL" [k]).
Qed.

Lemma packed_reads reply values looked cmd cc : reads cmd -> prepared reply values looked cmd (NotCached cc) ->
  Forall reads (pack_cacheable m cc).
Proof using.
  intros Hcmd Hp. unfold pack_cacheable. apply Forall_app. split.
  { destruct (mode (cache_config m)); [by apply Forall_nil|]. apply Forall_singleton.
    exists [bs "CLIENT"; bs "CACHING"; bs "YES"]. split; [|by right].
    exact (foldl_write_args "CLIENT" [bs "CACHING"; bs "YES"]). }
  destruct cc as [scc|name commands response x tail]; simpl in Hp.
  - destruct Hp as [-> _]. repeat apply Forall_cons_2; [apply pttl_reads|done|apply Forall_nil_2].
  - destruct Hp as (single & path & ks & Hm & _). apply Forall_cons. split.
    + eexists. split; [apply foldl_write_args|]. left. right. left. by rewrite Hm.
    + apply Forall_fmap, Forall_true. intros p. apply pttl_reads.
Qed.

(** The replies to what is sent for one command, and those to what follows. *)
Lemma prepare_item_ok s0 (looked : bytes -> Prop) c cmd : coherent (truth s0) c ->
  (forall s, answered (answers s) (truth s) cmd) -> (forall k, looks_up cmd k -> looked k) ->
  exists prep c1, get_cached_cmd m c cmd = Some (prep, c1) /\ coherent (truth s0) c1 /\
  let packed := match prep with Cached _ => [] | NotCached cc => pack_cacheable m cc | NotCacheable => [cmd] end in
  forall s rest, unchanged s0 looked s ->
    after s (packed ++ rest) = after (after s [cmd]) rest /\
    forall c2, coherent (truth s0) c2 -> exists c3,
    match prep with
    | Cached reply => Some (Ok (reply, replies s (packed ++ rest)), c2)
    | NotCached cc => resolve_command m c2 cc (replies s (packed ++ rest))
    | NotCacheable => Some (get_next_reply (replies s (packed ++ rest)), c2)
    end = Some (Ok (server (answers s) cmd, replies (after s [cmd]) rest), c3) /\ coherent (truth s0) c3.
Proof using CL server_ok.
  intros Hc Ha Hlooked.
  assert (forall s, unchanged s0 looked s -> exists prep c1, get_cached_cmd m c cmd = Some (prep, c1) /\
    coherent (truth s0) c1 /\ prepared (answers s) (truth s0) looked cmd prep) as Hprep.
  { intros s Hs. apply prepare_command_ok; [done|by apply (answered_unchanged s0 looked)|done]. }
  destruct (Hprep s0) as (prep & c1 & E & Hc1 & _); [done|]. exists prep, c1. split; [done|]. split; [done|].
  assert (prep <> NotCacheable -> reads cmd) as Hreads.
  { eapply taken_reads; [apply (answered_ok _ _ _ (Ha s0))|apply (answered_no_cursor _ _ _ (Ha s0))|exact E]. }
  intros packed s rest Hs. destruct (Hprep s Hs) as (prep' & c1' & E' & _ & Hp). rewrite E in E'.
  injection E' as <- <-. destruct prep as [v|cc|]; subst packed.
  - rewrite reads_keep by (by apply Hreads). split; [done|]. intros c2 Hc2. exists c2. simpl in Hp. by rewrite Hp.
  - assert (reads cmd) as Hcmd by (by apply Hreads).
    destruct (reads_replies s (pack_cacheable m cc) rest) as [-> ->]; [by eapply packed_reads|].
    rewrite reads_keep by done. split; [done|]. intros c2 Hc2.
    apply (resolve_command_ok (answers s) (truth s0) m looked); [by apply multi_unchanged|done|done].
  - split; [done|]. intros c2 Hc2. by exists c2.
Qed.

Lemma prepare_commands_ok s0 (looked : bytes -> Prop) cmds : forall c ignored idx, coherent (truth s0) c ->
  Forall (fun cmd => forall s, answered (answers s) (truth s) cmd) cmds ->
  Forall (fun cmd => forall k, looks_up cmd k -> looked k) cmds ->
  Forall (fun cmd => forall s k key, looked k -> truth (after s [cmd]) k key = truth s k key) cmds ->
  exists items packed c', prepare_commands m c ignored idx cmds = Some (items, packed, c') /\ coherent (truth s0) c' /\
    forall s, unchanged s0 looked s -> after s packed = after s cmds /\
    forall c2, coherent (truth s0) c2 -> exists c3,
      resolve_loop m c2 items (replies s packed) = Some (Ok (replies s cmds), c3) /\ coherent (truth s0) c3.
Proof using CL server_ok.
  induction cmds as [|cmd cmds IH]; intros c ignored idx Hc Ha Hl Hw.
  { exists [], [], c. split; [done|]. split; [done|]. intros s _. split; [done|]. intros c2 Hc2. by exists c2. }
  apply Forall_cons in Ha as [Hcmd Ha]. apply Forall_cons in Hl as [Hlcmd Hl]. apply Forall_cons in Hw as [Hwcmd Hw].
  cbn [prepare_commands].
  assert (forall s, unchanged s0 looked s -> unchanged s0 looked (after s [cmd])) as Hnext.
  { intros s Hs k key Hk. rewrite Hwcmd by done. by apply Hs. }
  case_bool_decide.
  - cbn [mbind option_bind]. destruct (IH c ignored (S idx)) as (items & packed & c' & -> & Hc' & Hrest); [done..|].
    cbn [mbind option_bind]. eexists _, _, c'. split; [done|]. split; [done|]. intros s Hs.
    destruct (Hrest _ (Hnext s Hs)) as [Eafter Hres]. split; [exact Eafter|]. intros c2 Hc2.
    destruct (Hres c2 Hc2) as (c3 & E3 & Hc3). cbn [app replies resolve_loop get_next_reply mbind option_bind].
    rewrite E3. by exists c3.
  - destruct (prepare_item_ok s0 looked c cmd Hc Hcmd Hlcmd) as (prep & c1 & -> & Hc1 & Hitem).
    cbn [mbind option_bind]. destruct (IH c1 ignored (S idx)) as (items & packed & c' & -> & Hc' & Hrest); [done..|].
    cbn [mbind option_bind]. eexists _, _, c'. split; [done|]. split; [done|]. intros s Hs.
    destruct (Hitem s packed Hs) as [Eafter Hres]. destruct (Hrest _ (Hnext s Hs)) as [Eafter' Hres'].
    split; [by rewrite Eafter, Eafter'|]. intros c2 Hc2.
    destruct (Hres c2 Hc2) as (c3 & E3 & Hc3). destruct (Hres' c3 Hc3) as (c4 & E4 & Hc4).
    exists c4. cbn [resolve_loop].
    destruct prep; (rewrite E3; cbn [mbind option_bind]; rewrite E4; done).
Qed.
End stateful.

(** What the multiplexed connection hands to [resolve] when the server answers
    the packed commands with [replies]: nothing is sent for an empty pipeline. *)
Definition packed_reply (transaction : bool) (replies : list Value) : Value :=
  match replies with
  | [] => Array []
  | _ => if transaction then Array [Array replies] else Array replies
  end.

(** C6. Caching is transparent to a pipeline that writes none of the keys it looks
    up.  Take a server with a state, on which the commands that are cached, PTTL
    and CLIENT CACHING change nothing and the other commands do anything, and a
    cache that holds nothing but what the server would answer.  A pipeline sent
    through the cache (hits answered from it, misses sent with a PTTL for each
    key, multi-key commands sent for the missing keys only) resolves to exactly
    the replies that the pipeline would have had without it, in order, leaves
    the server in the same state, and puts nothing else into the cache.  The one
    exception is a transaction for which nothing is left to send, which fails.
    The commands are taken to be such that what is cached for them tells them
    apart ([cache_key_ambiguous] shows some that are not), and those of a
    transaction to be queued and executed by the server.  The numbers of replies to skip and to keep are those of the packed pipeline. *)
Theorem pipeline_transparent `{LC : LruCache} {CL : LruCacheLaws LC} `{KeyHash} `{Clock} {St : Type}
    (exec : St -> list (Arg bytes) -> Value * St) (truth : St -> bytes -> bytes -> Value) (m : CacheManager)
    (c : ShardedLRU) (s : St) (p : Pipeline) (Hserver : well_behaved exec truth)
    (Hp : Forall (fun cmd => forall s, answered (answers exec s) (truth s) cmd) (commands p))
    (Hw : writes_elsewhere exec truth (commands p)) (Hc : coherent (truth s) c) :
  exists cp packed counts c1 c2,
    get_cached_pipeline m c p = Some (cp, packed, counts, c1) /\
    counts = (if transaction_mode p then (length (commands packed) + 1, 1) else (0, length (commands packed)))%nat /\
    transaction_mode packed = transaction_mode p /\
    after exec s (commands packed) = after exec s (commands p) /\
    resolve m c1 cp (packed_reply (transaction_mode p) (replies exec s (commands packed))) =
      Some (match transaction_mode p, commands packed with
            | true, [] => Err (redis_error_of_parsing (parsing_error "Array response of wrong dimension"))
            | true, _ => Ok [Array (replies exec s (commands p))]
            | false, _ => Ok (replies exec s (commands p))
            end, c2) /\
    coherent (truth s) c2.
Proof.
  destruct (prepare_commands_ok exec truth m Hserver s (looked_up (commands p)) (commands p) c (ignored_commands p) 0)
    as (items & cmds & c1 & E & Hc1 & Hres); [done|done| |done|].
  { apply Forall_forall. intros cmd Hcmd k Hk. apply Exists_exists. by exists cmd. }
  destruct (Hres s) as [Eafter Hloop]; [done|]. destruct (Hloop c1 Hc1) as (c2 & E2 & Hc2).
  assert (forall l : list Value, @try_map ParsingError Value Value Ok l = Ok l) as Hid.
  { induction l as [|v l IH]; [done|]. simpl. by rewrite IH. }
  assert (cmds <> [] -> exists v vs, replies exec s cmds = v :: vs) as Hsome by (destruct cmds; [done|by eexists _, _]).
  unfold get_cached_pipeline. rewrite E. cbn [mbind option_bind]. unfold packed_reply, resolve.
  destruct (transaction_mode p) eqn:Et.
  - destruct (decide (cmds = [])) as [->|Hne].
    { eexists _, _, _, c1, c1. do 4 (split; [done|]). done. }
    destruct (Hsome Hne) as (v & vs & Er). eexists _, _, _, c1, c2. do 4 (split; [done|]). split; [|done].
    cbn -[resolve_loop replies try_map]. rewrite Er. cbn -[resolve_loop replies try_map]. rewrite <- Er, Hid.
    cbn -[resolve_loop replies]. rewrite E2. by destruct cmds.
  - eexists _, _, _, c1, c2. do 4 (split; [done|]). split; [|done].
    cbn -[resolve_loop replies try_map]. destruct (replies exec s cmds) as [|v vs] eqn:Er.
    + cbn -[resolve_loop replies]. by rewrite E2.
    + cbn -[resolve_loop replies try_map]. rewrite Hid. cbn -[resolve_loop replies]. by rewrite E2.
Qed.

(** C12. The cache tells the truth about its history.  After any sequence of
    lookups, insertions, invalidations and new epochs on a new cache, none of
    which panics, a lookup returns a value only if that value was the last one
    inserted for this key and command by a client of this epoch, the key was
    not invalidated nor taken over by another epoch since, and its time has not
    run out. *)
Theorem cached_value_current `{C : LruCache} {CL : LruCacheLaws C} `{KeyHash} `{Clock}
    (size : Z) (ops : list cache_op) :
  exists c, run_cache (ShardedLRU_new size) ops = Some c /\
  forall k cmd e, exists r c', lru_cache_get c k cmd e = Some (r, c') /\
  forall v, r = Some v -> exists x, current k cmd e ops = Some (v, x) /\ clock (clock_reads c) <= x.
Proof.
  destruct (inv_run ops [] _ (inv_new size)) as (c & E & Hinv). exists c. split; [done|]. intros k cmd e.
  destruct (get_spec c k cmd e (inv_wf _ _ Hinv)) as (c' & Eg & _). rewrite Eg. eexists _, c'. split; [done|].
  intros v Hv. destruct (stored c k) as [item|] eqn:Es; [|done]. simpl in Hv.
  destruct (item_valid c item e) eqn:Ev; [|done]. unfold item_valid in Ev.
  apply andb_prop in Ev as [Ee%Z.eqb_eq Et%negb_true_iff%Z.ltb_ge].
  destruct (inv_items _ _ Hinv k item Es) as [_ He]. exists (expire_time item). split; [|done].
  rewrite <- Ee. by apply (He _ (find_entry_elem _ _ _ Hv)).
Qed.

(** What is inserted is found: right after an insertion the same client finds
    the value as long as its time has not run out, and after an invalidation it
    finds nothing. *)
Theorem insert_then_get `{C : LruCache} {CL : LruCacheLaws C} `{KeyHash} `{Clock}
    (c : ShardedLRU) (k cmd : bytes) (v : Value) (x e : Z)
    (Hw : cache_wf c) (Hx : clock (clock_reads c) <= x) :
  exists c1 c2 c3, lru_cache_insert c k cmd v x e = Some c1 /\
    lru_cache_get c1 k cmd e = Some (Some v, c2) /\
    invalidate c2 k = Some c3 /\
    forall cmd' e', exists c4, lru_cache_get c3 k cmd' e' = Some (None, c4).
Proof.
  destruct (insert_spec c k cmd v x e Hw) as (c1 & E1 & Hw1 & _ & Hr & Hs).
  destruct (get_spec c1 k cmd e Hw1) as (c2 & E2 & Hw2 & _).
  destruct (invalidate_spec c2 k Hw2) as (c3 & E3 & Hw3 & _ & Hs3). exists c1, c2, c3. split; [done|]. split.
  - rewrite E2, Hs. simpl. unfold item_valid. simpl. rewrite Hr, Z.eqb_refl, (proj2 (Z.ltb_ge _ _)) by done. simpl.
    repeat f_equal. destruct (stored c k) as [item|]; [destruct (item_epoch item =? e)|]; simpl;
      rewrite ?find_set_entry, ?decide_True, ?bytes_eqb_refl; done.
  - split; [done|]. intros cmd' e'. destruct (get_spec c3 k cmd' e' Hw3) as (c4 & E4 & _).
    exists c4. by rewrite E4, Hs3.
Qed.

(** ** Behaviour worth knowing *)

(** The cache key of a single-key command is its arguments without separators:
    two commands on the same key whose arguments concatenate to the same bytes
    share an entry, and the reply to one is returned for the other. *)
Theorem cache_key_ambiguous `{C : LruCache} {CL : LruCacheLaws C} `{KeyHash} `{Clock}
    (m : CacheManager) (c : ShardedLRU) (v : Value) (x : Z) :
  let c1 := build (map OpArg [bs "GETRANGE"; bs "k"; bs "1"; bs "23"]) in
  let c2 := build (map OpArg [bs "GETRANGE"; bs "k"; bs "12"; bs "3"]) in
  cache_wf c -> mode (cache_config m) = CacheAll -> clock (S (clock_reads c)) <= x ->
  exists c', lru_cache_insert c (bs "k") (data c1) v x (epoch m) = Some c' /\
  exists c'', get_cached_cmd m c' c2 = Some (Cached v, c'').
Proof.
  intros c1 c2 Hw Hm Hx. destruct (insert_spec c (bs "k") (data c1) v x (epoch m) Hw) as (c' & E & Hw' & _ & Hr & Hs).
  exists c'. split; [done|]. unfold get_cached_cmd. rewrite Hm. unfold get_cached_cmd_inner.
  change (cmd_len c2 <? 2) with false. cbv iota. change (arg_idx_checked c2 0) with (Some (Some (bs "GETRANGE"))).
  cbn [mbind option_bind]. unfold calculate_expiration_time. cbn [now].
  change (is_multi_key (bs "GETRANGE")) with (@None (string * bytes)). cbv iota.
  change (is_cachable_cmd (bs "GETRANGE")) with true. cbv iota. unfold handle_single_key_command.
  change (arg_idx_checked c2 1) with (Some (Some (bs "k"))). cbn [mbind option_bind]. unfold manager_get.
  set (c0 := {| lru_shards := _ |}).
  assert (cache_wf c0) as Hw0 by done. destruct (get_spec c0 (bs "k") (data c2) (epoch m) Hw0) as (c'' & E2 & _).
  rewrite E2. exists c''. change (stored c0 (bs "k")) with (stored c' (bs "k")). rewrite Hs. simpl.
  unfold item_valid. simpl. rewrite Hr, Z.eqb_refl, (proj2 (Z.ltb_ge _ _)) by done. simpl.
  destruct (stored c (bs "k")) as [item|]; [destruct (item_epoch item =? epoch m)|]; simpl;
    rewrite ?find_set_entry; by rewrite ?decide_True.
Qed.

(** An atomic pipeline answered entirely from the cache is not sent, and
    resolving it then fails: [resolve] expects the array of an EXEC around the
    replies. *)
Theorem cached_transaction_fails `{LruCache} `{KeyHash} `{Clock} (m : CacheManager) (c : ShardedLRU)
    (values : list Value) :
  resolve m c {| cp_commands := map (fun v => Item (Cached v)) values; cp_transaction_mode := true |} (Array []) =
  Some (Err (redis_error_of_parsing (parsing_error "Array response of wrong dimension")), c).
Proof. reflexivity. Qed.

(** MGET without keys is answered with an empty array instead of being sent. *)
Theorem empty_mget_cached `{LruCache} `{KeyHash} `{Clock} (m : CacheManager) (c : ShardedLRU) :
  mode (cache_config m) = CacheAll ->
  exists c', get_cached_cmd m c (cmd "MGET") = Some (Cached (Array []), c').
Proof. intros Hm. unfold get_cached_cmd. rewrite Hm. by eexists. Qed.

(** An invalidation message drops the first of its keys only, and the message of
    a flush, which has no keys, drops nothing. *)
Theorem invalidation_first_key_only `{C : LruCache} {CL : LruCacheLaws C} `{KeyHash} `{Clock}
    (c : ShardedLRU) (k k' : bytes) (rest : list Value) :
  cache_wf c -> k' <> k ->
  (exists c', handle_push_value c Invalidate [Array (BulkString k :: BulkString k' :: rest)] = Some c' /\
     stored c' k = None /\ stored c' k' = stored c k') /\
  handle_push_value c Invalidate [Nil] = Some c.
Proof.
  intros Hw Hk. split; [|done]. unfold handle_push_value. rewrite bool_decide_eq_true_2 by done.
  assert (key_of_value (BulkString k) = Some k) as ->.
  { unfold key_of_value. simpl. f_equal. rewrite map_map. rewrite <- (map_id k) at 2.
    apply map_ext. intros b. apply Z_byte_byte_Z. }
  destruct (invalidate_spec c k Hw) as (c' & -> & _ & Ho & Hs). exists c'. by auto.
Qed.

(** ** Witnesses

    A least-recently-used cache: an association list, most recent first. *)
Record list_lru (V : Type) := { capacity : nat; entries : list (bytes * V) }.
Arguments capacity {V}.
Arguments entries {V}.

Definition assoc {V} (k : bytes) (l : list (bytes * V)) : option V := snd <$> List.find (fun p => bytes_eqb p.1 k) l.
Definition without {V} (k : bytes) (l : list (bytes * V)) : list (bytes * V) :=
  List.filter (fun p => negb (bytes_eqb p.1 k)) l.
Definition replace_entries {V} (l : list_lru V) (e : list (bytes * V)) : list_lru V :=
  {| capacity := capacity l; entries := e |}.

Definition list_cache : LruCache := {|
  lru := list_lru;
  lru_new V n := {| capacity := Z.to_nat (Z.max 1 n); entries := [] |};
  lru_get V l k := match assoc k (entries l) with
                   | Some v => (Some v, replace_entries l ((k, v) :: without k (entries l)))
                   | None => (None, l)
                   end;
  lru_peek V l k := assoc k (entries l);
  lru_write V l k v := replace_entries l (map (fun p => if bytes_eqb p.1 k then (p.1, v) else p) (entries l));
  lru_pop V l k := (assoc k (entries l), replace_entries l (without k (entries l)));
  lru_push V l k v := replace_entries l (take (Nat.max 1 (capacity l)) ((k, v) :: without k (entries l)))
|}.

Lemma assoc_cons {V} k (v : V) l k' : assoc k' ((k, v) :: l) = if decide (k' = k) then Some v else assoc k' l.
Proof.
  unfold assoc. simpl. destruct (bytes_eqb k k') eqn:E.
  - apply bytes_eqb_true in E. by rewrite decide_True.
  - rewrite decide_False; [done|]. intros ->. by rewrite bytes_eqb_refl in E.
Qed.

Lemma assoc_without {V} k (l : list (bytes * V)) k' :
  assoc k' (without k l) = if decide (k' = k) then None else assoc k' l.
Proof.
  induction l as [|[a v] l IH]; [by case_decide|]. unfold without. simpl. destruct (bytes_eqb a k) eqn:E; simpl.
  - apply bytes_eqb_true in E as ->. fold (without k l). rewrite IH, assoc_cons. by case_decide.
  - fold (without k l). rewrite !assoc_cons, IH. destruct (decide (k' = a)) as [->|]; [|done].
    rewrite decide_False; [done|]. intros ->. by rewrite bytes_eqb_refl in E.
Qed.

Lemma assoc_take {V} n (l : list (bytes * V)) k : assoc k (take n l) = assoc k l \/ assoc k (take n l) = None.
Proof.
  revert n. induction l as [|[a v] l IH]; intros n; [rewrite take_nil; by left|]. destruct n as [|n]; [by right|].
  cbn [take]. rewrite !assoc_cons. case_decide; [by left|]. apply IH.
Qed.

Lemma assoc_write {V} k (v : V) l k' : is_Some (assoc k l) ->
  assoc k' (map (fun p => if bytes_eqb p.1 k then (p.1, v) else p) l) =
  if decide (k' = k) then Some v else assoc k' l.
Proof.
  induction l as [|[a w] l IH]; intros Hs; [by destruct Hs|]. cbn [map fst]. destruct (bytes_eqb a k) eqn:E.
  - apply bytes_eqb_true in E as ->. rewrite !assoc_cons. case_decide as Ek; [done|].
    destruct (assoc k l) eqn:Ea; [by rewrite IH by eauto|]. clear IH Hs.
    induction l as [|[b u] l IH]; [done|]. cbn [map fst]. rewrite assoc_cons in Ea. case_decide as Eb; [done|].
    destruct (bytes_eqb b k) eqn:E'; [apply bytes_eqb_true in E'; congruence|]. rewrite !assoc_cons.
    case_decide; [done|]. by apply IH.
  - assert (a <> k) by (intros ->; by rewrite bytes_eqb_refl in E). rewrite !assoc_cons in *.
    rewrite decide_False in Hs by done. rewrite IH by done.
    destruct (decide (k' = a)) as [->|]; [by rewrite decide_False|done].
Qed.

#[refine] Instance list_cache_laws : LruCacheLaws list_cache := {
  lru_map := fun V (l : @lru list_cache V) k => assoc k (entries l)
}.
Proof.
  - done.
  - intros V l k. simpl. destruct (assoc k (entries l)) as [v|] eqn:E; simpl; [|by split]. split; [done|].
    intros k'. rewrite assoc_cons, assoc_without. case_decide; [by subst|done].
  - done.
  - intros V l k v k' Hs. simpl. by apply assoc_write.
  - intros V l k. simpl. split; [done|]. intros k'. apply assoc_without.
  - intros V l k v. cbn [list_cache lru_push replace_entries entries]. split.
    + destruct (capacity l); cbn [Nat.max take]; by rewrite assoc_cons, decide_True.
    + intros k' Hk. destruct (assoc_take (Nat.max 1 (capacity l)) ((k, v) :: without k (entries l)) k') as [E|E]; [|by right].
      left. rewrite E, assoc_cons, decide_False by done. by rewrite assoc_without, decide_False.
Defined.

Definition no_hash : KeyHash := fun _ => 0.
Definition steady_clock : Clock := fun n => Z.of_nat n.

Lemma cached_value_current_witness :
  let ops := [DoInsert (bs "k") (bs "GETk") (Int 1) 100 0; DoGet (bs "k") (bs "GETk") 0] in
  exists c, @run_cache list_cache no_hash steady_clock (ShardedLRU_new 64) ops = Some c /\
  exists v c', @lru_cache_get list_cache no_hash steady_clock c (bs "k") (bs "GETk") 0 = Some (Some v, c') /\
  exists x, current (bs "k") (bs "GETk") 0 ops = Some (v, x).
Proof.
  intros ops. destruct (@cached_value_current list_cache list_cache_laws no_hash steady_clock 64 ops) as (c & E & Hg).
  exists c. split; [exact E|]. destruct (Hg (bs "k") (bs "GETk") 0) as (r & c' & E' & Hr).
  assert ((@run_cache list_cache no_hash steady_clock (ShardedLRU_new 64) ops ≫= fun c =>
      fst <$> @lru_cache_get list_cache no_hash steady_clock c (bs "k") (bs "GETk") 0) = Some (Some (Int 1)))
    as Hv by (vm_compute; reflexivity).
  rewrite E in Hv. cbn [mbind option_bind] in Hv. rewrite E' in Hv. injection Hv as ->.
  destruct (Hr _ eq_refl) as (x & Hx & _). exists (Int 1), c'. split; [exact E'|]. exists x. exact Hx.
Defined.

Lemma insert_then_get_witness :
  exists c1 c2, @lru_cache_insert list_cache no_hash (ShardedLRU_new 8) (bs "k") (bs "GETk") (Int 1) 100 0 = Some c1 /\
  @lru_cache_get list_cache no_hash steady_clock c1 (bs "k") (bs "GETk") 0 = Some (Some (Int 1), c2).
Proof.
  destruct (@insert_then_get list_cache list_cache_laws no_hash steady_clock (ShardedLRU_new 8) (bs "k") (bs "GETk")
    (Int 1) 100 0) as (c1 & c2 & _ & E1 & E2 & _).
  - discriminate.
  - vm_compute. discriminate.
  - exists c1, c2. split; [exact E1|exact E2].
Defined.

(** A server with one counter, [n]; every other key has its name as its value. *)
Definition value_at (n : Z) (k : bytes) : Value := if bytes_eqb k (bs "n") then Int n else BulkString k.
Definition key_reply (n : Z) (l : list (Arg bytes)) : Value :=
  match l with
  | Simple name :: Simple k :: rest =>
      match is_multi_key name with
      | Some (name', _) =>
          let ks := omap (fun a => match a with Simple b => Some b | Cursor => None end) (Simple k :: rest) in
          Array (map (value_at n) (if starts_with (bs "JSON") (bs name') then take (length ks - 1) ks else ks))
      | None => value_at n k
      end
  | _ => Nil
  end.
Definition counter_exec (n : Z) (l : list (Arg bytes)) : Value * Z :=
  match l with
  | Simple name :: _ => if bytes_eqb name (bs "INCR") then (Int (n + 1), n + 1) else (key_reply n l, n)
  | _ => (Nil, n)
  end.
Definition counter_truth (n : Z) (k _ : bytes) : Value := value_at n k.

Definition get_b : Cmd := build (map OpArg [bs "GET"; bs "b"]).
Definition incr_n : Cmd := build (map OpArg [bs "INCR"; bs "n"]).
Definition mget_ab : Cmd := build (map OpArg [bs "MGET"; bs "a"; bs "b"]).
Definition some_pipeline : Pipeline := fold_left add_command [incr_n; get_b; mget_ab; incr_n] (atomic Pipeline_new).

Lemma simple_list_args (l : list bytes) :
  omap (fun a : Arg bytes => match a with Simple b => Some b | Cursor => None end) (map Simple l) = l.
Proof. induction l as [|a l IH]; [reflexivity|]. cbn. f_equal. exact IH. Qed.

Lemma key_reply_multi n name single ks path : ks <> [] -> is_multi_key (bs name) = Some (name, single) ->
  path_fits name path ->
  key_reply n (map Simple (bs name :: ks ++ tail_of path)) = Array (map (part_value (counter_truth n) single path) ks).
Proof.
  intros Hne Hm Hp. unfold key_reply. destruct ks as [|k ks]; [done|]. cbn [map app]. rewrite Hm.
  change (Simple k :: map Simple (ks ++ tail_of path)) with (map (@Simple bytes) ((k :: ks) ++ tail_of path)).
  rewrite simple_list_args. f_equal. unfold path_fits in Hp.
  destruct (starts_with (bs "JSON") (bs name)) eqn:E.
  - destruct (proj2 Hp eq_refl) as [p ->]. cbn [tail_of]. rewrite length_app, Nat.add_sub.
    by rewrite take_app_length.
  - destruct path as [p|]; [assert (false = true) by (apply Hp; eauto); done|]. cbn [tail_of]. by rewrite app_nil_r.
Qed.

Lemma counter_well_behaved : well_behaved counter_exec counter_truth.
Proof.
  split.
  - intros n l Hl. destruct l as [|name l]; [done|]. simpl. destruct (bytes_eqb name (bs "INCR")) eqn:E; [|done].
    apply bytes_eqb_true in E as ->. exfalso. destruct Hl as [[Hl|[Hl|Hl]]|Hl].
    + by vm_compute in Hl.
    + vm_compute in Hl. by destruct Hl.
    + by vm_compute in Hl.
    + by vm_compute in Hl.
  - intros n name single ks path Hne Hm Hp. rewrite <- (key_reply_multi n name single ks path Hne Hm Hp).
    unfold answers, counter_exec. cbn [map app]. destruct (bytes_eqb (bs name) (bs "INCR")) eqn:E; [|done].
    apply bytes_eqb_true in E. rewrite E in Hm. by vm_compute in Hm.
Qed.

Lemma get_answered n : answered (answers counter_exec n) (counter_truth n) get_b.
Proof.
  split; [reflexivity|simpl; set_solver| |].
  - intros name k _ _ _ [= <-]. reflexivity.
  - intros name name' single [= <-] Em. vm_compute in Em. discriminate.
Qed.
Lemma incr_answered n : answered (answers counter_exec n) (counter_truth n) incr_n.
Proof.
  split; [reflexivity|simpl; set_solver| |].
  - intros name k [= <-] _ Ec. vm_compute in Ec. discriminate.
  - intros name name' single [= <-] Em. vm_compute in Em. discriminate.
Qed.
Lemma mget_answered n : answered (answers counter_exec n) (counter_truth n) mget_ab.
Proof.
  split; [reflexivity|simpl; set_solver| |].
  - intros name k [= <-] Em. vm_compute in Em. discriminate.
  - intros name name' single [= <-] [= <- <-]. reflexivity.
Qed.

Lemma some_answered :
  Forall (fun cmd => forall n, answered (answers counter_exec n) (counter_truth n) cmd) (commands some_pipeline).
Proof.
  repeat apply Forall_cons_2; [exact incr_answered|exact get_answered|exact mget_answered|exact incr_answered|].
  apply Forall_nil_2.
Qed.

Lemma some_looked_up k : looked_up (commands some_pipeline) k -> k = bs "a" \/ k = bs "b".
Proof.
  unfold looked_up. change (commands some_pipeline) with [incr_n; get_b; mget_ab; incr_n].
  rewrite !Exists_cons, Exists_nil. intros [Hk|[Hk|[Hk|[Hk|[]]]]]; destruct Hk as (name & [= <-] & Hk).
  - destruct Hk as [Hk _]. by vm_compute in Hk.
  - destruct Hk as [_ [= <-]]. by right.
  - change (k ∈ [bs "a"; bs "b"]) in Hk. set_solver.
  - destruct Hk as [Hk _]. by vm_compute in Hk.
Qed.

Lemma some_writes_elsewhere : writes_elsewhere counter_exec counter_truth (commands some_pipeline).
Proof.
  apply Forall_forall. intros cmd _ n k key Hk%some_looked_up. unfold counter_truth, value_at.
  by destruct Hk as [-> | ->].
Qed.

(** A cache that has the value of [b]. *)
Definition holding_b : ShardedLRU (H := list_cache) :=
  let c := (increase_epoch (H := list_cache) (ShardedLRU_new (H := list_cache) (size CacheConfig_new))).2 in
  default c (@lru_cache_insert list_cache no_hash c (bs "b") (data get_b) (BulkString (bs "b")) 1000 0).

Lemma new_coherent n : @coherent list_cache list_cache_laws no_hash (counter_truth n)
  (increase_epoch (H := list_cache) (ShardedLRU_new (H := list_cache) (size CacheConfig_new))).2.
Proof.
  split; [discriminate|]. intros k item Hs. exfalso.
  pose proof (@stored_new list_cache list_cache_laws no_hash (size CacheConfig_new) k) as Hn.
  assert (None = Some item) by (etrans; [symmetry; exact Hn|exact Hs]). discriminate.
Qed.
Lemma holding_coherent n : @coherent list_cache list_cache_laws no_hash (counter_truth n) holding_b.
Proof.
  destruct (@coherent_insert list_cache list_cache_laws no_hash (counter_truth n) _ (bs "b") (data get_b) 1000 0
    (new_coherent n)) as (c & E & Hc).
  unfold holding_b. change (BulkString (bs "b")) with (counter_truth n (bs "b") (data get_b)). by rewrite E.
Qed.

Lemma pipeline_transparent_witness :
  let m := {| cache_config := CacheConfig_new; epoch := 0 |} in
  exists cp packed counts c1 c2,
    @get_cached_pipeline list_cache no_hash steady_clock m holding_b some_pipeline = Some (cp, packed, counts, c1) /\
    counts = (5, 1)%nat /\
    @resolve list_cache no_hash steady_clock m c1 cp
      (packed_reply true (replies counter_exec 5 (commands packed))) =
    Some (Ok [Array [Int 6; BulkString (bs "b"); Array [BulkString (bs "a"); BulkString (bs "b")]; Int 7]], c2).
Proof.
  intros m. destruct (@pipeline_transparent list_cache list_cache_laws no_hash steady_clock Z counter_exec counter_truth
    m holding_b 5 some_pipeline) as (cp & packed & counts & c1 & c2 & E & _ & _ & _ & Er & _).
  - exact counter_well_behaved.
  - exact some_answered.
  - exact some_writes_elsewhere.
  - exact (holding_coherent 5).
  - exists cp, packed, counts, c1, c2. split; [exact E|].
    assert ((fun r => (r.1.2, commands r.1.1.2)) <$> @get_cached_pipeline list_cache no_hash steady_clock m holding_b
        some_pipeline = Some ((5, 1)%nat, [incr_n; build (map OpArg [bs "MGET"; bs "a"]); pttl_cmd (bs "a"); incr_n]))
      as Hv by (vm_compute; reflexivity).
    rewrite E in Hv. injection Hv as Hcounts Hcmds. split; [exact Hcounts|]. rewrite Hcmds in Er |- *. exact Er.
Defined.

(** Why the pipeline must not write what it looks up: a value written by a command
    of the same pipeline is not seen by a later one that finds the old value in
    the cache. *)
Lemma own_write_unseen :
  let m := {| cache_config := CacheConfig_new; epoch := 0 |} in
  let set_b := build (map OpArg [bs "SET"; bs "b"; bs "2"]) in
  match @get_cached_pipeline list_cache no_hash steady_clock m holding_b
          (fold_left add_command [set_b; get_b] Pipeline_new) with
  | Some (cp, packed, _, c1) =>
      commands packed = [set_b] /\
      fst <$> @resolve list_cache no_hash steady_clock m c1 cp (Array [Okay]) = Some (Ok [Okay; BulkString (bs "b")])
  | None => False
  end.
Proof. vm_compute. split; reflexivity. Qed.
