(* ===== verification/Effects.v ===== *)
(** * Operations on a connection

    An operation reads and changes the state of a connection, and returns a
    [RedisResult], waits forever for a server that does not answer, or panics.
    The state that an operation leaves behind when it returns an error is kept:
    whether a connection is still usable after an error depends on it.

    [ConnectionLike] is the trait of [connection.rs] over which commands,
    pipelines, scripts and transactions are executed. *)

From S2P Require Import Prelude Text Float64 Combine Errors Types Parser Codec Cmd Convert Pipeline.

Inductive exec (S A : Type) :=
| Return (r : result RedisError A) (s : S)
| Waiting
| Panicked.
Arguments Return {S A} r s.
Arguments Waiting {S A}.
Arguments Panicked {S A}.

Definition action (S A : Type) : Type := S -> exec S A.

#[export] Instance action_ret S : MRet (action S) := fun A a s => Return (Ok a) s.
(** The [?] operator: an error ends the operation, with the state it left. *)
#[export] Instance action_bind S : MBind (action S) := fun A B f m s =>
  match m s with
  | Return (Ok a) s => f a s
  | Return (Err e) s => Return (Err e) s
  | Waiting => Waiting
  | Panicked => Panicked
  end.

Section actions.
Context {S : Type}.

Definition fail {A} (e : RedisError) : action S A := fun s => Return (Err e) s.
Definition lift {A} (r : result RedisError A) : action S A := fun s => Return r s.
Definition panic {A} : action S A := fun _ => Panicked.
Definition wait {A} : action S A := fun _ => Waiting.
Definition gets {A} (f : S -> A) : action S A := fun s => Return (Ok (f s)) s.
Definition modify (f : S -> S) : action S unit := fun s => Return (Ok ()) (f s).
(** The result of an operation, without returning its error. *)
Definition attempt {A} (m : action S A) : action S (result RedisError A) := fun s =>
  match m s with
  | Return r s => Return (Ok r) s
  | Waiting => Waiting
  | Panicked => Panicked
  end.
(** A checked operation whose [None] is a panic. *)
Definition or_panic {A} (o : option A) : action S A :=
  match o with Some a => mret a | None => panic end.

Lemma bind_ok {A B} (m : action S A) (f : A -> action S B) s a s' :
  m s = Return (Ok a) s' -> (m ≫= f) s = f a s'.
Proof. intros H. unfold mbind, action_bind. by rewrite H. Qed.
Lemma bind_err {A B} (m : action S A) (f : A -> action S B) s e s' :
  m s = Return (Err e) s' -> (m ≫= f) s = Return (Err e) s'.
Proof. intros H. unfold mbind, action_bind. by rewrite H. Qed.
Lemma bind_inv {A B} (m : action S A) (f : A -> action S B) s r s'' :
  (m ≫= f) s = Return r s'' ->
  (exists a s', m s = Return (Ok a) s' /\ f a s' = Return r s'') \/
  (exists e, m s = Return (Err e) s'' /\ r = Err e).
Proof. unfold mbind, action_bind. intros H. cases; naive_solver. Qed.

Lemma bind_ret {A B} (a : A) (f : A -> action S B) s : (mret a ≫= f) s = f a s.
Proof. done. Qed.
Lemma bind_gets {A B} (g : S -> A) (f : A -> action S B) s : (gets g ≫= f) s = f (g s) s.
Proof. done. Qed.
Lemma bind_modify {B} (g : S -> S) (f : unit -> action S B) s : (modify g ≫= f) s = f () (g s).
Proof. done. Qed.
Lemma bind_lift_ok {A B} (a : A) (f : A -> action S B) s : (lift (Ok a) ≫= f) s = f a s.
Proof. done. Qed.
Lemma bind_attempt {A B} (m : action S A) (f : result RedisError A -> action S B) s r s' :
  m s = Return r s' -> (attempt m ≫= f) s = f r s'.
Proof. intros H. unfold mbind, action_bind, attempt. by rewrite H. Qed.
End actions.

(** Run the reads and writes of the state at the head of an operation. *)
Ltac run_state :=
  repeat first [rewrite bind_gets|rewrite bind_modify|rewrite bind_ret|rewrite bind_lift_ok]; cbv beta.

(** The part of [ConnectionLike] that is used to execute requests. *)
Class ConnectionLike (S : Type) := {
  req_packed_command : bytes -> action S Value;
  req_packed_commands : bytes -> nat -> nat -> action S (list Value);
  req_command : Cmd -> action S Value;
  supports_pipelining : S -> bool
}.

Section requests.
Context {St : Type} `{ConnectionLike St}.

(** [Cmd::query] and [Cmd::exec]. *)
Definition Cmd_query {T} (F : FromRedisValue T) (c : Cmd) : action St T :=
  val ← req_command c;
  val ← lift (extract_error val);
  lift (into_redis_error (from_redis_value F val)).
Definition Cmd_exec (c : Cmd) : action St unit := Cmd_query frv_unit c.

(** [Pipeline::query] on a connection. *)
Definition query_pipeline {T} (F : FromRedisValue T) (p : Pipeline) : action St T :=
  supported ← gets supports_pipelining;
  if negb supported then fail (redis_error_of Client "This connection does not support pipelining.")
  else
    response ← (if transaction_mode p
                then req_packed_commands (encode_pipeline (commands p) true)
                       (S (length (commands p))) 1%nat
                else req_packed_commands (encode_pipeline (commands p) false)
                       O (length (commands p)));
    lift (complete_request F p response).
End requests.
