(* ===== verification/Mock.v ===== *)
(** * The mock connection: [redis-test/src/lib.rs]

    A [MockRedisConnection] stands for a server in tests: it is given the
    commands a client should send and the responses to them, and complains about
    anything else.  The queue is shared between clones; what is kept here is the
    queue and the flag of one of them.  The servers and clusters that the other
    files of the crate start as processes are not modelled. *)

From S2P Require Import Prelude Text Float64 Combine Errors Types Parser Codec Cmd Convert Pipeline Effects.

(** ** Values *)

Class IntoRedisValue (T : Type) := into_redis_value : T -> Value.
(** The integer types, all of which fit into [i64]. *)
#[export] Instance into_int : IntoRedisValue Z := Int.
#[export] Instance into_float : IntoRedisValue f64 := Double.
#[export] Instance into_bool : IntoRedisValue bool := Boolean.
(** [String], [&str], [Vec<u8>] and [Bytes]. *)
#[export] Instance into_bytes : IntoRedisValue bytes := BulkString.
#[export] Instance into_values : IntoRedisValue (list Value) := Array.
#[export] Instance into_pairs : IntoRedisValue (list (Value * Value)) := Map.
#[export] Instance into_value : IntoRedisValue Value := fun v => v.
#[export] Instance into_server_error : IntoRedisValue ServerError := ServerErr.

(** A [HashMap] and a [HashSet] as the entries in the order of their iterators. *)
Definition map_into_redis_value {K V} `{IntoRedisValue K} `{IntoRedisValue V} (entries : list (K * V)) : Value :=
  Map (map (fun '(k, v) => (into_redis_value k, into_redis_value v)) entries).
Definition set_into_redis_value {V} `{IntoRedisValue V} (entries : list V) : Value :=
  Set_ (map into_redis_value entries).

(** ** Commands *)

Class IntoRedisCmdBytes (T : Type) := into_redis_cmd_bytes : T -> bytes.
#[export] Instance cmd_into_bytes : IntoRedisCmdBytes Cmd := get_packed_command.
#[export] Instance pipeline_into_bytes : IntoRedisCmdBytes Pipeline := get_packed_pipeline.

Record MockCmd := { cmd_bytes : bytes; responses : result RedisError (list Value) }.

Definition MockCmd_new {C V} `{IntoRedisCmdBytes C} `{IntoRedisValue V} (cmd : C) (response : result RedisError V)
    : MockCmd :=
  {| cmd_bytes := into_redis_cmd_bytes cmd; responses := (fun r => [into_redis_value r]) <$> response |}.
Definition MockCmd_with_values {C V} `{IntoRedisCmdBytes C} `{IntoRedisValue V} (cmd : C)
    (responses : result RedisError (list V)) : MockCmd :=
  {| cmd_bytes := into_redis_cmd_bytes cmd; responses := map into_redis_value <$> responses |}.

(** ** The connection *)

Record MockRedisConnection := { expected_commands : list MockCmd; assert_is_empty_on_drop : bool }.

Definition MockRedisConnection_new (commands : list MockCmd) : MockRedisConnection :=
  {| expected_commands := commands; assert_is_empty_on_drop := false |}.
Definition add_commands (m : MockRedisConnection) (commands : list MockCmd) : MockRedisConnection :=
  {| expected_commands := expected_commands m ++ commands; assert_is_empty_on_drop := assert_is_empty_on_drop m |}.
Definition assert_all_commands_consumed (m : MockRedisConnection) : MockRedisConnection :=
  {| expected_commands := expected_commands m; assert_is_empty_on_drop := true |}.
Definition mock_is_empty (m : MockRedisConnection) : bool :=
  match expected_commands m with [] => true | _ => false end.

(** Whether dropping the connection panics, [strong_count] clones being left. *)
Definition drop_panics (m : MockRedisConnection) (strong_count : nat) : bool :=
  assert_is_empty_on_drop m && (strong_count =? 1)%nat && negb (mock_is_empty m).

Definition unexpected_command : RedisError :=
  redis_error_of_detail Client "TEST" (bs "unexpected command").
(** [String::from_utf8(b).unwrap_or_else(|_| ..)]. *)
Definition shown (b : bytes) : bytes :=
  match from_utf8 b with Ok s => s | Err _ => bs "decode error" end.
Definition other_command (expected actual : bytes) : RedisError :=
  redis_error_of_detail Client "TEST"
    (bs "unexpected command: expected=" ++ shown expected ++ bs ", actual=" ++ shown actual).

(** The commands that are left, and the flag cleared. *)
Definition with_commands (m : MockRedisConnection) (l : list MockCmd) : MockRedisConnection :=
  {| expected_commands := l; assert_is_empty_on_drop := assert_is_empty_on_drop m |}.
Definition no_assertion (m : MockRedisConnection) : MockRedisConnection :=
  {| expected_commands := expected_commands m; assert_is_empty_on_drop := false |}.

Definition mock_req_packed_command (cmd : bytes) : action MockRedisConnection Value := fun m =>
  match expected_commands m with
  | [] => Return (Err unexpected_command) (no_assertion m)
  | next_cmd :: rest =>
      let m := with_commands m rest in
      if negb (bytes_eqb cmd (cmd_bytes next_cmd))
      then Return (Err (other_command (cmd_bytes next_cmd) cmd)) (no_assertion m)
      else
        match responses next_cmd with
        | Err e => Return (Err e) m
        | Ok [value] => Return (Ok value) m
        | Ok [] => Return (Err (redis_error_of Client "no value configured as response")) (no_assertion m)
        | Ok _ =>
            Return (Err (redis_error_of Client
              "multiple values configured as response for command expecting a single value")) (no_assertion m)
        end
  end.

Definition mock_req_packed_commands (cmd : bytes) (offset count : nat) : action MockRedisConnection (list Value) :=
  fun m =>
    match expected_commands m with
    | [] => Return (Err unexpected_command) m
    | next_cmd :: rest =>
        let m := with_commands m rest in
        if negb (bytes_eqb cmd (cmd_bytes next_cmd))
        then Return (Err (other_command (cmd_bytes next_cmd) cmd)) m
        else Return (responses next_cmd) m
    end.

(** The default of [req_command] packs the command. *)
#[export] Instance Mock_like : ConnectionLike MockRedisConnection := {|
  req_packed_command := mock_req_packed_command;
  req_packed_commands := mock_req_packed_commands;
  req_command c := mock_req_packed_command (get_packed_command c);
  supports_pipelining _ := true
|}.

(** ** Theorems *)

(** A client that sends commands one after the other. *)
Fixpoint run_commands (cs : list Cmd) : action MockRedisConnection (list Value) :=
  match cs with
  | [] => mret []
  | c :: cs => v ← req_command c; vs ← run_commands cs; mret (v :: vs)
  end.

Lemma mock_answers c v rest m :
  expected_commands m = {| cmd_bytes := get_packed_command c; responses := Ok [v] |} :: rest ->
  req_command c m = Return (Ok v) (with_commands m rest).
Proof. intros Hm. simpl. unfold mock_req_packed_command. by rewrite Hm, bytes_eqb_refl. Qed.

Lemma mock_answered c v m m' : req_command c m = Return (Ok v) m' ->
  expected_commands m = {| cmd_bytes := get_packed_command c; responses := Ok [v] |} :: expected_commands m' /\
  assert_is_empty_on_drop m' = assert_is_empty_on_drop m.
Proof.
  simpl. unfold mock_req_packed_command. destruct (expected_commands m) as [|[b r] rest] eqn:Hm; [done|]. simpl.
  destruct (bytes_eqb (get_packed_command c) b) eqn:Hb; simpl; [|done]. apply bytes_eqb_true in Hb as <-.
  destruct r as [[|w [|]]|]; simpl; intros [= <- <-]. done.
Qed.

(** A mock accepts exactly the conversation it was given: commands sent one
    after the other are all answered if and only if they are, byte for byte and
    in this order, the ones that were expected first, and the values returned
    are the ones configured for them. *)
Theorem mock_conversation (cs : list Cmd) (vs : list Value) (m m' : MockRedisConnection) :
  run_commands cs m = Return (Ok vs) m' <->
  expected_commands m =
    zip_with (fun c v => {| cmd_bytes := get_packed_command c; responses := Ok [v] |}) cs vs ++ expected_commands m' /\
  length cs = length vs /\ assert_is_empty_on_drop m' = assert_is_empty_on_drop m.
Proof.
  revert vs m. induction cs as [|c cs IH]; intros vs m; cbn [run_commands].
  - destruct vs as [|v vs]; simpl; split; try done.
    + by intros [= <-].
    + intros (Hm & _ & Hf). destruct m, m'. simpl in *. by subst.
    + intros (_ & [=] & _).
  - split.
    + intros [(v & m1 & Hc & Hrest)|(e & _ & [=])]%bind_inv.
      apply bind_inv in Hrest as [(ws & m2 & Hr & [= <- <-])|(e & _ & [=])].
      apply mock_answered in Hc as [Hm Hf]. apply IH in Hr as (Hm1 & Hl & Hf1).
      simpl. rewrite Hm, Hm1, Hl, Hf1, Hf. done.
    + intros (Hm & Hl & Hf). destruct vs as [|v vs]; [done|]. simpl in *. injection Hl as Hl.
      erewrite bind_ok by (by apply mock_answers).
      assert (run_commands cs (with_commands m (zip_with (fun c v => {| cmd_bytes := get_packed_command c;
        responses := Ok [v] |}) cs vs ++ expected_commands m')) = Return (Ok vs) m') as Hr by (by apply IH).
      by erewrite bind_ok by exact Hr.
Qed.

Definition get_k : Cmd := write_arg (cmd "GET") (bs "k").
Lemma mock_conversation_example :
  run_commands [get_k; cmd "PING"] (MockRedisConnection_new
    [MockCmd_new get_k (Ok 42%Z); MockCmd_new (cmd "PING") (Ok (SimpleString (bs "PONG")))]) =
  Return (Ok [Int 42; SimpleString (bs "PONG")]) (MockRedisConnection_new []).
Proof. reflexivity. Qed.

(** A wrong command withdraws the assertion, so that the error of the command is
    what the test sees; a wrong pipeline does not, and dropping the connection
    panics although the test has got its error. *)
Lemma assertion_kept_by_pipelines c p :
  let m := assert_all_commands_consumed (MockRedisConnection_new
             [MockCmd_new get_k (Ok 1%Z); MockCmd_new get_k (Ok 2%Z)]) in
  bytes_eqb c (get_packed_command get_k) = false -> bytes_eqb p (get_packed_command get_k) = false ->
  (exists e m1, mock_req_packed_command c m = Return (Err e) m1 /\ drop_panics m1 1 = false) /\
  (exists e m2, mock_req_packed_commands p 0 1 m = Return (Err e) m2 /\ drop_panics m2 1 = true).
Proof.
  intros m1 Hc Hp. split; eexists _, _.
  - unfold mock_req_packed_command. cbn -[bytes_eqb get_packed_command]. unfold cmd_into_bytes, into_redis_cmd_bytes.
    rewrite Hc. done.
  - unfold mock_req_packed_commands. cbn -[bytes_eqb get_packed_command]. unfold cmd_into_bytes, into_redis_cmd_bytes.
    rewrite Hp. done.
Qed.
