(* ===== verification/Bloom.v ===== *)
(** * Bloom filters: [bloom.rs] and its builders in [commands/mod.rs]

    Options, the two replies with types of their own, the builders, and the
    iterator over the chunks of a dumped filter.  The theorems: the builders are
    routed by their key, the iterator yields the chunks of a dump in order and
    then nothing more, and BF.LOADCHUNK sends a chunk as it was dumped. *)

From S2P Require Import Prelude Text Float64 Errors Types Cmd Convert Args Slots Routing Commands Streams Geo Effects.

Inductive BloomFilterInfoType :=
  Capacity | Size | Filters | Items | Expansion | InfoError | Tightening | MaximumScaledCapacity.
Definition BloomFilterInfoType_arg (t : BloomFilterInfoType) : bytes :=
  match t with
  | Capacity => lit "CAPACITY"
  | Expansion => lit "EXPANSION"
  | Filters => lit "FILTERS"
  | Items => lit "ITEMS"
  | Size => lit "SIZE"
  | InfoError => lit "ERROR"
  | Tightening => lit "TIGHTENING"
  | MaximumScaledCapacity => lit "MAXSCALEDCAPACITY"
  end.
#[export] Instance tra_info_type : ToRedisArgs BloomFilterInfoType :=
  tra_single BloomFilterInfoType_arg NonNumeric.

(** [BloomFilterInfoTypeResponse] wraps the number. *)
Definition info_type_of_value (v : Value) : result ParsingError f64 :=
  match v with
  | Array [] => Err (parsing_error "array has to hold exactly one element, but was empty")
  | Array [value] => from_redis_value frv_f64 value
  | Array _ => Err (parsing_error "array has to hold exactly one element, but contained more")
  | Map [] => Err (parsing_error "map has to hold exactly one element, but was empty")
  | Map [(_, value)] => from_redis_value frv_f64 value
  | Map _ => Err (parsing_error "map holds more than a single value")
  | Nil => Ok (f64_of_int 0)
  | _ => from_redis_value frv_f64 v
  end.
Definition frv_info_type : FromRedisValue f64 := frv_owned info_type_of_value.

Inductive BloomFilterScalingOptions := ExpansionRate (expansion : Z) | NonScaling.
Definition BloomFilterScalingOptions_args (o : BloomFilterScalingOptions) : list bytes :=
  match o with
  | ExpansionRate expansion => [lit "EXPANSION"; itoa expansion]
  | NonScaling => [lit "NONSCALING"]
  end.
#[export] Instance tra_scaling_options : ToRedisArgs BloomFilterScalingOptions :=
  tra_list BloomFilterScalingOptions_args.

Record BloomFilterInsertOptions := {
  bf_create : option bool;
  bf_capacity : option Z;
  bf_error_rate : option f64;
  bf_expansion : option BloomFilterScalingOptions
}.
Definition BloomFilterInsertOptions_default : BloomFilterInsertOptions :=
  {| bf_create := None; bf_capacity := None; bf_error_rate := None; bf_expansion := None |}.
Definition nocreate (o : BloomFilterInsertOptions) : BloomFilterInsertOptions :=
  {| bf_create := Some false; bf_capacity := bf_capacity o; bf_error_rate := bf_error_rate o;
     bf_expansion := bf_expansion o |}.
Definition expansion (o : BloomFilterInsertOptions) (s : BloomFilterScalingOptions) : BloomFilterInsertOptions :=
  {| bf_create := bf_create o; bf_capacity := bf_capacity o; bf_error_rate := bf_error_rate o;
     bf_expansion := Some s |}.
Definition error_rate (o : BloomFilterInsertOptions) (r : f64) : BloomFilterInsertOptions :=
  {| bf_create := bf_create o; bf_capacity := bf_capacity o; bf_error_rate := Some r;
     bf_expansion := bf_expansion o |}.
Definition capacity (o : BloomFilterInsertOptions) (n : Z) : BloomFilterInsertOptions :=
  {| bf_create := bf_create o; bf_capacity := Some n; bf_error_rate := bf_error_rate o;
     bf_expansion := bf_expansion o |}.
Definition BloomFilterInsertOptions_args `{Ryu} (o : BloomFilterInsertOptions) : list bytes :=
  if_set (match bf_create o with Some false => true | _ => false end) [lit "NOCREATE"] ++
  if_some (bf_error_rate o) (fun error => [lit "ERROR"; ryu_format error]) ++
  if_some (bf_capacity o) (fun capacity => [lit "CAPACITY"; itoa capacity]) ++
  if_some (bf_expansion o) BloomFilterScalingOptions_args.
#[export] Instance tra_insert_options `{Ryu} : ToRedisArgs BloomFilterInsertOptions :=
  tra_list BloomFilterInsertOptions_args.

(** ** Dumps *)

Record BloomFilterDumpChunk := { chunk_iterator : Z; chunk_data : bytes }.
Definition chunk_of_value (v : Value) : result ParsingError BloomFilterDumpChunk :=
  match v with
  | Array items =>
      match items with
      | Int iterator :: rest =>
          match rest with
          | [BulkString data] => Ok {| chunk_iterator := iterator; chunk_data := data |}
          | BulkString _ :: _ => Err (parsing_error "expected only two elements")
          | _ => Err (parsing_error "expected second element to be a Bulk string")
          end
      | _ => Err (parsing_error "expected first element to be integer")
      end
  | _ => Err (parsing_error "expected array response")
  end.
Definition frv_chunk : FromRedisValue BloomFilterDumpChunk := frv_owned chunk_of_value.

(** ** Builders *)

Section builders.
Context {K V E C : Type}.
Context `{AK : ToRedisArgs K} `{AV : ToRedisArgs V} `{AE : ToRedisArgs E} `{AC : ToRedisArgs C}.
Context `{Ryu}.

Definition bf_add (key : K) (value : V) : Command := taken (CMD "BF.ADD" ▷ key ▷ value).
Definition bf_card (key : K) : Command := taken (CMD "BF.CARD" ▷ key).
Definition bf_exists (key : K) (value : V) : Command := taken (CMD "BF.EXISTS" ▷ key ▷ value).
Definition bf_info (key : K) : Command := taken (CMD "BF.INFO" ▷ key).
Definition bf_info_type (key : K) (info_type : BloomFilterInfoType) : Command :=
  taken (CMD "BF.INFO" ▷ key ▷ info_type).
Definition bf_insert (key : K) (items : V) : Command :=
  taken (CMD "BF.INSERT" ▷ key ▷' "ITEMS" ▷ items).
Definition bf_insert_options (key : K) (items : V) (options : BloomFilterInsertOptions) : Command
    :=
  taken (CMD "BF.INSERT" ▷ key ▷ options ▷' "ITEMS" ▷ items).
Definition bf_loadchunk (key : K) (chunk : BloomFilterDumpChunk) : Command :=
  taken (CMD "BF.LOADCHUNK" ▷ key ▷ chunk_iterator chunk ▷ chunk_data chunk).
Definition bf_madd (key : K) (items : V) : Command := taken (CMD "BF.MADD" ▷ key ▷ items).
Definition bf_mexists (key : K) (items : list V) : Command :=
  taken (CMD "BF.MEXISTS" ▷ key ▷ items).
Definition bf_reserve (key : K) (err_rate : f64) (capacity : Z) : Command :=
  taken (CMD "BF.RESERVE" ▷ key ▷ err_rate ▷ capacity).
Definition bf_reserve_options (key : K) (err_rate : E) (capacity : C)
    (options : BloomFilterScalingOptions) : Command :=
  taken (CMD "BF.RESERVE" ▷ key ▷ err_rate ▷ capacity ▷ options).
Definition bf_scandump (key : K) (iterator : Z) : Command :=
  taken (CMD "BF.SCANDUMP" ▷ key ▷ iterator).
End builders.

(** The builders that take the key of a filter. *)
Inductive on_bloom `{Ryu} : string -> bytes -> Command -> Prop :=
| on_bf_add `{ToSingleRedisArg K} `{ToSingleRedisArg V} (key : K) (value : V) :
    on_bloom "BF.ADD" (single_arg key) (bf_add key value)
| on_bf_card `{ToSingleRedisArg K} (key : K) :
    on_bloom "BF.CARD" (single_arg key) (bf_card key)
| on_bf_exists `{ToSingleRedisArg K} `{ToSingleRedisArg V} (key : K) (value : V) :
    on_bloom "BF.EXISTS" (single_arg key) (bf_exists key value)
| on_bf_info `{ToSingleRedisArg K} (key : K) :
    on_bloom "BF.INFO" (single_arg key) (bf_info key)
| on_bf_info_type `{ToSingleRedisArg K} (key : K) (info_type : BloomFilterInfoType) :
    on_bloom "BF.INFO" (single_arg key) (bf_info_type key info_type)
| on_bf_insert `{ToSingleRedisArg K} `{Writes V} (key : K) (items : V) :
    on_bloom "BF.INSERT" (single_arg key) (bf_insert key items)
| on_bf_insert_options `{ToSingleRedisArg K} `{Writes V} (key : K) (items : V)
    (options : BloomFilterInsertOptions) :
    on_bloom "BF.INSERT" (single_arg key) (bf_insert_options key items options)
| on_bf_loadchunk `{ToSingleRedisArg K} (key : K) (chunk : BloomFilterDumpChunk) :
    on_bloom "BF.LOADCHUNK" (single_arg key) (bf_loadchunk key chunk)
| on_bf_madd `{ToSingleRedisArg K} `{Writes V} (key : K) (items : V) :
    on_bloom "BF.MADD" (single_arg key) (bf_madd key items)
| on_bf_mexists `{ToSingleRedisArg K} `{AV : ToRedisArgs V} `{!Writes _ (tra_vec AV)} (key : K)
    (items : list V) :
    on_bloom "BF.MEXISTS" (single_arg key) (bf_mexists key items)
| on_bf_reserve `{ToSingleRedisArg K} (key : K) (err_rate : f64) (capacity : Z) :
    on_bloom "BF.RESERVE" (single_arg key) (bf_reserve key err_rate capacity)
| on_bf_reserve_options `{ToSingleRedisArg K} `{ToSingleRedisArg E} `{ToSingleRedisArg C}
    (key : K) (err_rate : E) (capacity : C) (options : BloomFilterScalingOptions) :
    on_bloom "BF.RESERVE" (single_arg key) (bf_reserve_options key err_rate capacity options)
| on_bf_scandump `{ToSingleRedisArg K} (key : K) (iterator : Z) :
    on_bloom "BF.SCANDUMP" (single_arg key) (bf_scandump key iterator).

(** Every command on a Bloom filter goes to a node of the slot of its key. *)
Lemma bloom_commands_routed `{Ryu} `{Crc16} `{HashOrder} name key b :
  on_bloom name key b -> routed_by_key name key b.
Proof. destruct 1; solve_route. Qed.

(** ** The iterator over the chunks of a dump *)

(** [BloomFilterDumpIterator], without the connection it borrows. *)
Record BloomFilterDumpIterator := { dump_key : bytes; dump_iterator : Z; dump_dry : bool }.
Definition BloomFilterDumpIterator_new (key : bytes) : BloomFilterDumpIterator :=
  {| dump_key := key; dump_iterator := 0; dump_dry := false |}.

Section iterator.
Context {St : Type} `{ConnectionLike St}.

Definition dump_next (it : BloomFilterDumpIterator)
    : action St (option (result RedisError BloomFilterDumpChunk) * BloomFilterDumpIterator) :=
  if dump_dry it then mret (None, it)
  else
    dump_result ← attempt (c ← or_panic (bf_scandump (dump_key it) (dump_iterator it)); Cmd_query frv_chunk c);
    match dump_result with
    | Ok dump =>
        let it := {| dump_key := dump_key it; dump_iterator := chunk_iterator dump; dump_dry := dump_dry it |} in
        if (chunk_iterator dump =? 0)%Z
        then mret (None, {| dump_key := dump_key it; dump_iterator := dump_iterator it; dump_dry := true |})
        else mret (Some dump_result, it)
    | Err e => mret (Some (Err e), {| dump_key := dump_key it; dump_iterator := dump_iterator it; dump_dry := true |})
    end.

(** A loop over at most [n] items. *)
Fixpoint dump_collect (n : nat) (it : BloomFilterDumpIterator)
    : action St (list (result RedisError BloomFilterDumpChunk) * BloomFilterDumpIterator) :=
  match n with
  | O => mret ([], it)
  | S n =>
      p ← dump_next it;
      match p.1 with
      | None => mret ([], p.2)
      | Some item => q ← dump_collect n p.2; mret (item :: q.1, q.2)
      end
  end.

(** What the server does with BF.SCANDUMP of a key: the chunks from position
    [i] on, taking the state of the connection from [s] to [s']. *)
Inductive dumps (key : bytes) : Z -> list BloomFilterDumpChunk -> St -> St -> Prop :=
| dumps_end i s s' c data :
    bf_scandump key i = Some c ->
    req_command c s = Return (Ok (Array [Int 0; BulkString data])) s' ->
    dumps key i [] s s'
| dumps_chunk i ch rest s s1 s' c :
    bf_scandump key i = Some c -> chunk_iterator ch <> 0%Z ->
    req_command c s = Return (Ok (Array [Int (chunk_iterator ch); BulkString (chunk_data ch)])) s1 ->
    dumps key (chunk_iterator ch) rest s1 s' ->
    dumps key i (ch :: rest) s s'.

Lemma query_chunk (key : bytes) i c s n data s' : bf_scandump key i = Some c ->
  req_command c s = Return (Ok (Array [Int n; BulkString data])) s' ->
  (c ← or_panic (bf_scandump key i); Cmd_query frv_chunk c) s =
  Return (Ok {| chunk_iterator := n; chunk_data := data |}) s'.
Proof.
  intros Hc Hr. rewrite Hc. cbn [or_panic]. run_state. unfold Cmd_query. by erewrite bind_ok by exact Hr.
Qed.

Lemma dump_next_chunk key i ch c s s1 : bf_scandump key i = Some c -> chunk_iterator ch <> 0%Z ->
  req_command c s = Return (Ok (Array [Int (chunk_iterator ch); BulkString (chunk_data ch)])) s1 ->
  dump_next {| dump_key := key; dump_iterator := i; dump_dry := false |} s =
  Return (Ok (Some (Ok ch), {| dump_key := key; dump_iterator := chunk_iterator ch; dump_dry := false |})) s1.
Proof.
  intros Hc Hi Hr. unfold dump_next. cbn [dump_dry dump_key dump_iterator].
  rewrite (bind_attempt _ _ _ _ _ (query_chunk _ _ _ _ _ _ _ Hc Hr)). cbn [chunk_iterator].
  rewrite (proj2 (Z.eqb_neq _ _) Hi). by destruct ch.
Qed.

Lemma dump_next_end key i data c s s1 : bf_scandump key i = Some c ->
  req_command c s = Return (Ok (Array [Int 0; BulkString data])) s1 ->
  dump_next {| dump_key := key; dump_iterator := i; dump_dry := false |} s =
  Return (Ok (None, {| dump_key := key; dump_iterator := 0; dump_dry := true |})) s1.
Proof.
  intros Hc Hr. unfold dump_next. cbn [dump_dry dump_key dump_iterator].
  by rewrite (bind_attempt _ _ _ _ _ (query_chunk _ _ _ _ _ _ _ Hc Hr)).
Qed.

Lemma dump_collects key i chunks s s' n : dumps key i chunks s s' -> (length chunks < n)%nat ->
  dump_collect n {| dump_key := key; dump_iterator := i; dump_dry := false |} s =
  Return (Ok (map Ok chunks, {| dump_key := key; dump_iterator := 0; dump_dry := true |})) s'.
Proof.
  intros Hd. revert n.
  induction Hd as [i s s' c data Hc Hr|i ch rest s s1 s' c Hc Hi Hr _ IH]; intros [|n] Hn; simpl in Hn; try lia;
    cbn [dump_collect].
  - by rewrite (bind_ok _ _ _ _ _ (dump_next_end _ _ _ _ _ _ Hc Hr)).
  - rewrite (bind_ok _ _ _ _ _ (dump_next_chunk _ _ _ _ _ _ Hc Hi Hr)). cbn [fst snd].
    by rewrite (bind_ok _ _ _ _ _ (IH n ltac:(lia))).
Qed.

(** C40. A loop over the chunks of a dump ends after the last of them, with every
    chunk once and in order, whatever numbers the server gives them; from then
    on the iterator yields nothing and sends nothing. *)
Theorem dump_iterates_chunks (key : bytes) (chunks : list BloomFilterDumpChunk) (s s' : St) (n : nat)
    (Hd : dumps key 0 chunks s s') (Hn : (length chunks < n)%nat) :
  exists it, dump_collect n (BloomFilterDumpIterator_new key) s = Return (Ok (map Ok chunks, it)) s' /\
  forall s, dump_next it s = Return (Ok (None, it)) s.
Proof. eexists. split; [by apply dump_collects|]. done. Qed.

(** An error ends the iteration with that error. *)
Lemma dump_error_ends key i c e s s1 n : bf_scandump key i = Some c -> req_command c s = Return (Err e) s1 ->
  exists it, dump_collect (S (S n)) {| dump_key := key; dump_iterator := i; dump_dry := false |} s =
    Return (Ok ([Err e], it)) s1.
Proof.
  intros Hc Hr. eexists. cbn [dump_collect].
  assert ((c ← or_panic (bf_scandump key i); Cmd_query frv_chunk c) s = Return (Err e) s1) as Hq.
  { rewrite Hc. cbn [or_panic]. run_state. unfold Cmd_query. by erewrite bind_err by exact Hr. }
  erewrite bind_ok; [|unfold dump_next; cbn [dump_dry dump_key dump_iterator];
    rewrite (bind_attempt _ _ _ _ _ Hq); reflexivity].
  reflexivity.
Qed.
End iterator.

(** BF.LOADCHUNK gives the chunk back as BF.SCANDUMP gave it: its number and its
    bytes, whatever they are. *)
Lemma loadchunk_built `{ToSingleRedisArg K} (key : K) chunk :
  built (bf_loadchunk key chunk)
    [bs "BF.LOADCHUNK"; single_arg key; itoa (chunk_iterator chunk); chunk_data chunk].
Proof.
  change (built (bf_loadchunk key chunk)
    (([bs "BF.LOADCHUNK"] ++ [single_arg key]) ++ [itoa (chunk_iterator chunk)] ++ [chunk_data chunk])).
  rewrite app_assoc. unfold bf_loadchunk. solve_built.
Qed.

(** A server that holds a filter in two chunks. *)
Definition dump_for (request : bytes) : Value :=
  let scan i := match @bf_scandump bytes _ (bs "f") i with Some c => get_packed_command c | None => [] end in
  if bytes_eqb request (scan 0%Z) then Array [Int 1; BulkString (bs "header")]
  else if bytes_eqb request (scan 1%Z) then Array [Int 7; BulkString (bs "bits")]
  else Array [Int 0; BulkString []].
#[local] Instance dump_server : ConnectionLike unit := {|
  req_packed_command request := mret (dump_for request);
  req_packed_commands _ _ _ := mret [];
  req_command c := mret (dump_for (get_packed_command c));
  supports_pipelining _ := true
|}.

Lemma dump_iterates_chunks_witness : exists it,
  dump_collect 5 (BloomFilterDumpIterator_new (bs "f")) () =
    Return (Ok ([Ok {| chunk_iterator := 1; chunk_data := bs "header" |};
                 Ok {| chunk_iterator := 7; chunk_data := bs "bits" |}], it)) ().
Proof.
  destruct (dump_iterates_chunks (bs "f")
    [{| chunk_iterator := 1; chunk_data := bs "header" |}; {| chunk_iterator := 7; chunk_data := bs "bits" |}]
    () () 5) as (it & Hit & _); [|simpl; lia|by exists it].
  eapply dumps_chunk; [reflexivity|done|by vm_compute|].
  eapply dumps_chunk; [reflexivity|done|by vm_compute|].
  eapply dumps_end; [reflexivity|by vm_compute].
Defined.
