(* ===== verification/Hotkeys.v ===== *)
(** * HOTKEYS: [commands/hotkeys.rs] and the HOTKEYS traits of [commands/mod.rs]

    The options of HOTKEYS START, the reply to HOTKEYS GET and the four commands
    on a connection.  The theorems: the options a caller can build announce the
    right numbers and stay within the limits of the server, and a reply is read
    alike in both protocols. *)

From S2P Require Import Prelude Text Float64 Errors Types Cmd Convert Args Slots Routing Commands Streams Acl Effects.

(** ** Options *)

Definition HOTKEYS_COUNT_MIN : Z := 1.
Definition HOTKEYS_COUNT_MAX : Z := 64.

Record HotkeysOptions := {
  hk_cpu : bool;
  hk_net : bool;
  count_k : option Z;
  duration_secs : option Z;
  hk_sample_ratio : option Z;
  hk_slots : option (list Z)
}.
Definition new_with_cpu : HotkeysOptions :=
  {| hk_cpu := true; hk_net := false; count_k := None; duration_secs := None; hk_sample_ratio := None;
     hk_slots := None |}.
Definition new_with_net : HotkeysOptions :=
  {| hk_cpu := false; hk_net := true; count_k := None; duration_secs := None; hk_sample_ratio := None;
     hk_slots := None |}.
Definition and_cpu (o : HotkeysOptions) : HotkeysOptions :=
  {| hk_cpu := true; hk_net := hk_net o; count_k := count_k o; duration_secs := duration_secs o;
     hk_sample_ratio := hk_sample_ratio o; hk_slots := hk_slots o |}.
Definition and_net (o : HotkeysOptions) : HotkeysOptions :=
  {| hk_cpu := hk_cpu o; hk_net := true; count_k := count_k o; duration_secs := duration_secs o;
     hk_sample_ratio := hk_sample_ratio o; hk_slots := hk_slots o |}.
Definition metrics_count (o : HotkeysOptions) : Z := Z.b2z (hk_cpu o) + Z.b2z (hk_net o).
Definition hotkeys_with_count (o : HotkeysOptions) (k : Z) : result bytes HotkeysOptions :=
  if negb (in_range HOTKEYS_COUNT_MIN HOTKEYS_COUNT_MAX k) then
    Err (bs "COUNT must be between " ++ itoa HOTKEYS_COUNT_MIN ++ bs " and " ++ itoa HOTKEYS_COUNT_MAX ++
         bs ", got: " ++ itoa k)
  else Ok {| hk_cpu := hk_cpu o; hk_net := hk_net o; count_k := Some k; duration_secs := duration_secs o;
             hk_sample_ratio := hk_sample_ratio o; hk_slots := hk_slots o |}.
Definition with_duration_secs (o : HotkeysOptions) (seconds : Z) : HotkeysOptions :=
  {| hk_cpu := hk_cpu o; hk_net := hk_net o; count_k := count_k o; duration_secs := Some seconds;
     hk_sample_ratio := hk_sample_ratio o; hk_slots := hk_slots o |}.
Definition with_sample_ratio (o : HotkeysOptions) (ratio : Z) : HotkeysOptions :=
  {| hk_cpu := hk_cpu o; hk_net := hk_net o; count_k := count_k o; duration_secs := duration_secs o;
     hk_sample_ratio := Some ratio; hk_slots := hk_slots o |}.
Definition with_slots (o : HotkeysOptions) (slots : list Z) : HotkeysOptions :=
  {| hk_cpu := hk_cpu o; hk_net := hk_net o; count_k := count_k o; duration_secs := duration_secs o;
     hk_sample_ratio := hk_sample_ratio o; hk_slots := Some slots |}.

Definition HotkeysOptions_args (o : HotkeysOptions) : list bytes :=
  [lit "METRICS"; itoa (metrics_count o)] ++
  if_set (hk_cpu o) [lit "CPU"] ++
  if_set (hk_net o) [lit "NET"] ++
  if_some (count_k o) (fun k => [lit "COUNT"; itoa k]) ++
  if_some (duration_secs o) (fun secs => [lit "DURATION"; itoa secs]) ++
  if_some (hk_sample_ratio o) (fun ratio => [lit "SAMPLE"; itoa ratio]) ++
  if_some (hk_slots o) (fun slots => [lit "SLOTS"; itoa (Z.of_nat (length slots))] ++ map itoa slots).
Definition HotkeysOptions_num_of_args (o : HotkeysOptions) : nat :=
  let n := 2%nat in
  let n := (n + Nat.b2n (hk_cpu o))%nat in
  let n := (n + Nat.b2n (hk_net o))%nat in
  let n := if count_k o then n + 2 else n in
  let n := if duration_secs o then n + 2 else n in
  let n := if hk_sample_ratio o then n + 2 else n in
  let n := match hk_slots o with Some slots => n + (2 + length slots) | None => n end in
  n.
#[export] Instance tra_hotkeys_options : ToRedisArgs HotkeysOptions :=
  tra_default (fun o => Some (HotkeysOptions_args o)) (fun _ => NonNumeric) HotkeysOptions_num_of_args.

(** ** The reply to HOTKEYS GET *)

Record HotKeyEntry := { hot_key : bytes; hot_value : Z }.
Record HotSlotRange := { hot_start : Z; hot_end : Z }.
Record HotkeysResponse := {
  tracking_active : bool;
  sample_ratio : Z;
  selected_slots : list HotSlotRange;
  all_commands_all_slots_us : Z;
  net_bytes_all_commands_all_slots : Z;
  collection_start_time_unix_ms : Z;
  collection_duration_ms : Z;
  total_cpu_time_user_ms : option Z;
  total_cpu_time_sys_ms : option Z;
  total_net_bytes : option Z;
  by_cpu_time_us : option (list HotKeyEntry);
  by_net_bytes : option (list HotKeyEntry);
  sampled_commands_selected_slots_us : option Z;
  all_commands_selected_slots_us : option Z;
  net_bytes_sampled_commands_selected_slots : option Z;
  net_bytes_all_commands_selected_slots : option Z
}.

Section reply.
Context `{F64Display}.

Definition strip_quotes (s : bytes) : bytes := unquote s.

Fixpoint parse_hotkey_entries (arr : list Value) : result ParsingError (list HotKeyEntry) :=
  match arr with
  | [] => Ok []
  | key_val :: rest =>
      key ← from_redis_value_ref frv_string key_val;
      match rest with
      | [] => Err (parsing_error "Expected value after key in hotkey entry")
      | v :: rest =>
          value ← from_redis_value_ref (frv_int u64_ty) v;
          entries ← parse_hotkey_entries rest;
          Ok ({| hot_key := strip_quotes key; hot_value := value |} :: entries)
      end
  end.

Definition parse_slot_range (item : Value) : result ParsingError HotSlotRange :=
  match item with
  | Array [v] =>
      slot ← from_redis_value_ref (frv_int u16_ty) v; Ok {| hot_start := slot; hot_end := slot |}
  | Array (v :: w :: _) =>
      start ← from_redis_value_ref (frv_int u16_ty) v;
      stop ← from_redis_value_ref (frv_int u16_ty) w;
      Ok {| hot_start := start; hot_end := stop |}
  | Array [] => Err (parsing_error "Empty slot range entry")
  | _ => Err (parsing_error "Expected array for slot range")
  end.
Definition parse_slot_ranges (arr : list Value) : result ParsingError (list HotSlotRange) :=
  try_map parse_slot_range arr.

(** The fields of a flat array; a name without value at its end is dropped. *)
Fixpoint fields_of_flat (map : gmap bytes Value) (arr : list Value) : result ParsingError (gmap bytes Value) :=
  match arr with
  | [] => Ok map
  | key :: rest =>
      key_str ← from_redis_value frv_string key;
      match rest with
      | [] => Ok map
      | val :: rest => fields_of_flat (<[strip_quotes key_str := val]> map) rest
      end
  end.
Fixpoint fields_of_pairs (map : gmap bytes Value) (pairs : list (Value * Value))
    : result ParsingError (gmap bytes Value) :=
  match pairs with
  | [] => Ok map
  | (k, v) :: pairs =>
      key_str ← from_redis_value frv_string k;
      fields_of_pairs (<[strip_quotes key_str := v]> map) pairs
  end.

(** An optional field, and an optional field that counts only as an array. *)
Definition maybe {T} (f : Value -> result ParsingError T) (m : gmap bytes Value) (name : string)
    : result ParsingError (option T) :=
  match m !! bs name with Some v => Some <$> f v | None => Ok None end.
Definition maybe_array {T} (f : list Value -> result ParsingError T) (m : gmap bytes Value) (name : string)
    : result ParsingError (option T) :=
  match m !! bs name with Some (Array arr) => Some <$> f arr | _ => Ok None end.

Definition hotkeys_of_fields (fields : gmap bytes Value) : result ParsingError HotkeysResponse :=
  let num := from_redis_value (frv_int u64_ty) in
  tracking_active ← field (fun v => (fun i => negb (i =? 0)%Z) <$> from_redis_value (frv_int i64_ty) v) fields
    "tracking-active" false;
  sample_ratio ← field num fields "sample-ratio" 0%Z;
  selected_slots ← maybe_array parse_slot_ranges fields "selected-slots";
  all_slots_us ← field num fields "all-commands-all-slots-us" 0%Z;
  net_bytes_all_slots ← field num fields "net-bytes-all-commands-all-slots" 0%Z;
  start_time ← field num fields "collection-start-time-unix-ms" 0%Z;
  duration ← field num fields "collection-duration-ms" 0%Z;
  cpu_user ← maybe num fields "total-cpu-time-user-ms";
  cpu_sys ← maybe num fields "total-cpu-time-sys-ms";
  by_cpu ← maybe_array parse_hotkey_entries fields "by-cpu-time-us";
  net_bytes ← maybe num fields "total-net-bytes";
  by_net ← maybe_array parse_hotkey_entries fields "by-net-bytes";
  sampled_us ← maybe num fields "sampled-commands-selected-slots-us";
  selected_us ← maybe num fields "all-commands-selected-slots-us";
  sampled_net ← maybe num fields "net-bytes-sampled-commands-selected-slots";
  selected_net ← maybe num fields "net-bytes-all-commands-selected-slots";
  Ok {| tracking_active := tracking_active; sample_ratio := sample_ratio;
        selected_slots := default [] selected_slots; all_commands_all_slots_us := all_slots_us;
        net_bytes_all_commands_all_slots := net_bytes_all_slots;
        collection_start_time_unix_ms := start_time; collection_duration_ms := duration;
        total_cpu_time_user_ms := cpu_user; total_cpu_time_sys_ms := cpu_sys; total_net_bytes := net_bytes;
        by_cpu_time_us := by_cpu; by_net_bytes := by_net;
        sampled_commands_selected_slots_us := sampled_us; all_commands_selected_slots_us := selected_us;
        net_bytes_sampled_commands_selected_slots := sampled_net;
        net_bytes_all_commands_selected_slots := selected_net |}.

Definition hotkeys_of_value (v : Value) : result ParsingError HotkeysResponse :=
  let v := match v with Array [inner] => inner | other => other end in
  fields ← (match v with
            | Array arr => fields_of_flat ∅ arr
            | Map pairs => fields_of_pairs ∅ pairs
            | _ => Err (parsing_error "Expected array or map response for HOTKEYS GET")
            end : result ParsingError (gmap bytes Value));
  hotkeys_of_fields fields.
Definition frv_hotkeys : FromRedisValue HotkeysResponse := frv_owned hotkeys_of_value.

(** ** The commands *)

Section commands.
Context {St : Type} `{ConnectionLike St}.
Definition hotkeys_start (opts : HotkeysOptions) : action St unit :=
  c ← or_panic (CMD "HOTKEYS" ▷' "START" ▷ opts); Cmd_query frv_unit c.
Definition hotkeys_get : action St (option HotkeysResponse) :=
  c ← or_panic (CMD "HOTKEYS" ▷' "GET"); Cmd_query (frv_option frv_hotkeys) c.
Definition hotkeys_stop : action St bool :=
  c ← or_panic (CMD "HOTKEYS" ▷' "STOP"); Cmd_query frv_bool c.
Definition hotkeys_reset : action St unit :=
  c ← or_panic (CMD "HOTKEYS" ▷' "RESET"); Cmd_query frv_unit c.
End commands.
End reply.

(** ** Theorems *)

(** The options that the constructors and setters give. *)
Inductive hotkeys_configured : HotkeysOptions -> Prop :=
| configured_cpu : hotkeys_configured new_with_cpu
| configured_net : hotkeys_configured new_with_net
| configured_and_cpu o : hotkeys_configured o -> hotkeys_configured (and_cpu o)
| configured_and_net o : hotkeys_configured o -> hotkeys_configured (and_net o)
| configured_count o k o' : hotkeys_configured o -> hotkeys_with_count o k = Ok o' -> hotkeys_configured o'
| configured_duration o s : hotkeys_configured o -> hotkeys_configured (with_duration_secs o s)
| configured_sample o r : hotkeys_configured o -> hotkeys_configured (with_sample_ratio o r)
| configured_slots o l : hotkeys_configured o -> hotkeys_configured (with_slots o l).

Lemma hotkeys_args_counted o : num_of_args tra_hotkeys_options o = length (HotkeysOptions_args o).
Proof.
  destruct o as [c n k d s l]. simpl. unfold HotkeysOptions_num_of_args, HotkeysOptions_args.
  cbn [hk_cpu hk_net count_k duration_secs hk_sample_ratio hk_slots]. rewrite !length_app.
  destruct c, n, k, d, s, l; simpl; rewrite ?length_map; lia.
Qed.

(** A configured HOTKEYS START asks for one or two metrics, announces exactly
    the metrics it names, tracks between 1 and 64 keys, and counts its own
    arguments correctly. *)
Theorem hotkeys_start_well_formed (o : HotkeysOptions) (Ho : hotkeys_configured o) :
  (exists metrics rest, metrics <> [] /\
     HotkeysOptions_args o = [bs "METRICS"; itoa (Z.of_nat (length metrics))] ++ metrics ++ rest /\
     (forall m, m ∈ metrics <-> (m = bs "CPU" /\ hk_cpu o = true) \/ (m = bs "NET" /\ hk_net o = true))) /\
  (forall k, count_k o = Some k -> 1 <= k <= 64)%Z /\
  num_of_args tra_hotkeys_options o = length (HotkeysOptions_args o).
Proof.
  assert (hk_cpu o || hk_net o = true /\ forall k, count_k o = Some k -> (1 <= k <= 64)%Z) as [Hm Hk].
  { induction Ho as [| | | |o k o' Ho IH Hk| | |]; simpl; try done; try (by destruct IHHo);
      [destruct IHHo; split; [by rewrite orb_true_r|done]|].
    apply checked_Ok in Hk as [Hk ->]. simpl. split; [apply IH|]. by intros ? [= <-]. }
  split_and!; [|done|apply hotkeys_args_counted]. unfold HotkeysOptions_args, metrics_count.
  exists (if_set (hk_cpu o) [lit "CPU"] ++ if_set (hk_net o) [lit "NET"]). eexists. split_and!.
  - by destruct (hk_cpu o), (hk_net o).
  - rewrite <- !app_assoc. f_equal. f_equal. by destruct (hk_cpu o), (hk_net o).
  - intros m. destruct (hk_cpu o), (hk_net o); simpl; rewrite ?elem_of_cons, ?elem_of_nil; naive_solver.
Qed.

Section agreement.
Context `{F64Display}.

Lemma fields_of_flat_pairs m pairs : fields_of_flat m (flat pairs) = fields_of_pairs m pairs.
Proof.
  revert m. induction pairs as [|[k v] pairs IH]; intros m; [done|].
  change (flat ((k, v) :: pairs)) with (k :: v :: flat pairs). cbn [fields_of_flat fields_of_pairs].
  destruct (from_redis_value frv_string k); [|done]. cbn [mbind result_bind]. apply IH.
Qed.

(** The reply to HOTKEYS GET is read alike as the flat array of RESP2 and as the
    map of RESP3, with and without the outer array of one session. *)
Theorem hotkeys_protocols_agree (pairs : list (Value * Value)) :
  let read := from_redis_value frv_hotkeys in
  read (Array [Array (flat pairs)]) = read (Map pairs) /\ read (Array [Map pairs]) = read (Map pairs) /\
  read (Array (flat pairs)) = read (Map pairs).
Proof.
  intros read. subst read. cbn [frv_hotkeys frv_owned frv_default from_redis_value]. unfold hotkeys_of_value.
  split_and!; [by rewrite fields_of_flat_pairs|done|].
  destruct pairs as [|[k v] pairs]; [done|]. change (flat ((k, v) :: pairs)) with (k :: v :: flat pairs).
  cbv iota. change (k :: v :: flat pairs) with (flat ((k, v) :: pairs)). by rewrite fields_of_flat_pairs.
Qed.

Definition entry_values (e : HotKeyEntry) : Value * Value := (BulkString (hot_key e), Int (hot_value e)).

(** The hot keys are read back, if their names are text and not in quotes. *)
Lemma hot_entries_read l :
  Forall (fun e => utf8_valid (hot_key e) = true /\ quoted (hot_key e) = false /\
                   (0 <= hot_value e <= i64_max)%Z) l ->
  parse_hotkey_entries (flat (map entry_values l)) = Ok l.
Proof.
  induction 1 as [|[k n] l (Hu & Hq & Hn) _ IH]; [done|]. cbn [map entry_values hot_key hot_value] in *.
  change (flat (?e :: ?l)) with (e.1 :: e.2 :: flat l). unfold entry_values at 1 2.
  cbn [fst snd hot_key hot_value parse_hotkey_entries].
  cbn [from_redis_value_ref frv_string frv_default string_of_value_ref get_inner_value]. unfold from_utf8.
  rewrite Hu. cbn [map_err mbind result_bind]. unfold strip_quotes, unquote. rewrite Hq.
  cbn [from_redis_value_ref frv_int frv_default num_of_value mbind result_bind]. rewrite IH. simpl.
  rewrite as_ty_small; [done|]. unfold in_ty, i64_max in *. simpl. unfold u64_max. lia.
Qed.

(** A key whose name is in quotes is reported under another name: that of
    another key. *)
Lemma hot_key_quotes_lost n : let name := [QUOTE] ++ bs "a" ++ [QUOTE] in
  parse_hotkey_entries (flat [(BulkString name, Int n)]) =
  parse_hotkey_entries (flat [(BulkString (bs "a"), Int n)]).
Proof. reflexivity. Qed.
End agreement.

(** Both metrics, at most 50 keys, two slots. *)
Lemma hotkeys_start_well_formed_witness : exists o : HotkeysOptions,
  hotkeys_with_count (and_net new_with_cpu) 50%Z = Ok o /\
  (forall k, count_k (with_slots o [1; 2]%Z) = Some k -> 1 <= k <= 64)%Z.
Proof.
  eexists. split; [reflexivity|]. apply hotkeys_start_well_formed. apply configured_slots.
  eapply (configured_count (and_net new_with_cpu) 50%Z); [apply configured_and_net, configured_cpu | reflexivity].
Defined.
