(* ===== verification/Tls.v ===== *)
(** * Certificates and TLS configurations

    [tls.rs] and the rustls part of [connection.rs]: the certificates a user hands
    over in PEM, what is kept of them for a connection, the configuration of the
    TLS client, and the verifiers of server certificates it is given.

    Parsing PEM, extracting trust anchors, building rustls configurations and
    checking certificates is code of the rustls crates; the classes [Pem] and
    [Rustls] are what is used of it.  A store of root certificates is the list of the
    certificates added to it, the anchors being a function of them. *)

From S2P Require Import Prelude Text Float64 Combine Errors.

(** ** Certificates *)

Record ClientTlsConfig := { client_cert : bytes; client_key : bytes }.
Record TlsCertificates := { client_tls : option ClientTlsConfig; root_cert : option bytes }.

Abbreviation CertificateDer := bytes (only parsing).
Abbreviation RootCertStore := (list bytes) (only parsing).
Inductive PrivateKeyDer := Pkcs1 (der : bytes) | Pkcs8 (der : bytes) | Sec1 (der : bytes).
Record ClientTlsParams := { client_cert_chain : list CertificateDer; client_key_der : PrivateKeyDer }.
Record TlsConnParams := {
  client_tls_params : option ClientTlsParams;
  root_cert_store : option RootCertStore;
  danger_accept_invalid_hostnames : bool
}.

#[export] Instance PrivateKeyDer_eq_dec : EqDecision PrivateKeyDer.
Proof. solve_decision. Defined.
#[export] Instance ClientTlsParams_eq_dec : EqDecision ClientTlsParams.
Proof. solve_decision. Defined.
#[export] Instance TlsConnParams_eq_dec : EqDecision TlsConnParams.
Proof. solve_decision. Defined.

(** The features that decide which TLS code is compiled. *)
Class TlsFeatures := {
  tls_rustls : bool;
  tls_native_tls : bool;
  tls_rustls_insecure : bool;
  tls_rustls_webpki_roots : bool
}.

(** [CertificateDer::pem_slice_iter], [PrivateKeyDer::from_pem_slice], with the
    text of their errors, and whether [RootCertStore::add] finds an anchor, with the
    text of its error when it does not. *)
Class Pem := {
  pem_slice_iter : bytes -> list (result bytes CertificateDer);
  private_key_from_pem : bytes -> result bytes PrivateKeyDer;
  trust_anchor : CertificateDer -> bool;
  anchor_error : CertificateDer -> bytes
}.

Definition other_io_error : RedisError := redis_error_of_io Io_Other.
(** [map_err] to an [io::Error::other], whose text is not part of the model. *)
Definition or_io_error {E A} : result E A -> result RedisError A := map_err (fun _ => other_io_error).

Section certificates.
Context `{Pem}.

Definition retrieve_client_tls (c : ClientTlsConfig) : result RedisError ClientTlsParams :=
  chain ← or_io_error (collect_results (pem_slice_iter (client_cert c)));
  key ← or_io_error (private_key_from_pem (client_key c));
  Ok {| client_cert_chain := chain; client_key_der := key |}.

(** The loop that fills the store of root certificates. *)
Fixpoint add_root_certs (store : RootCertStore) (l : list (result bytes CertificateDer))
    : result RedisError RootCertStore :=
  match l with
  | [] => Ok store
  | r :: l =>
      cert ← or_io_error r;
      if trust_anchor cert then add_root_certs (store ++ [cert]) l else Err other_io_error
  end.

(** [transpose] of an optional computation. *)
Definition transpose {A B} (f : A -> result RedisError B) (o : option A) : result RedisError (option B) :=
  match o with None => Ok None | Some a => b ← f a; Ok (Some b) end.

Definition retrieve_tls_certificates (c : TlsCertificates) : result RedisError TlsConnParams :=
  client ← transpose retrieve_client_tls (client_tls c);
  store ← transpose (fun pem => add_root_certs [] (pem_slice_iter pem)) (root_cert c);
  Ok {| client_tls_params := client; root_cert_store := store;
        danger_accept_invalid_hostnames := false |}.

(** ** What is retrieved *)

(** Certificates that parse, and can be trusted when they are to be roots. *)
Definition client_parses (c : ClientTlsConfig) (p : ClientTlsParams) : Prop :=
  pem_slice_iter (client_cert c) = map Ok (client_cert_chain p) /\
  private_key_from_pem (client_key c) = Ok (client_key_der p).
Definition roots_parse (pem : bytes) (store : RootCertStore) : Prop :=
  pem_slice_iter pem = map Ok store /\ Forall (fun c => trust_anchor c = true) store.

Lemma retrieve_client_tls_Ok c p : retrieve_client_tls c = Ok p <-> client_parses c p.
Proof.
  unfold retrieve_client_tls, client_parses, or_io_error. rewrite <- collect_results_Ok. destruct p as [chain key]. simpl.
  destruct (collect_results _), (private_key_from_pem _); simpl; split; [intros [=]; by subst|by intros [[=] [=]]; subst|..]; naive_solver.
Qed.

Lemma add_root_certs_Ok l acc store : add_root_certs acc l = Ok store <->
  exists s, store = acc ++ s /\ l = map Ok s /\ Forall (fun c => trust_anchor c = true) s.
Proof.
  revert acc. induction l as [|[c|e] l IH]; intros acc; simpl.
  - split; [intros [= <-]; exists []; by rewrite app_nil_r|].
    intros (s & -> & E & _). destruct s; [by rewrite app_nil_r|done].
  - destruct (trust_anchor c) eqn:Hc.
    + rewrite IH. split.
      * intros (s & -> & -> & Hs). exists (c :: s). rewrite <- app_assoc. split_and!; [done|done|by constructor].
      * intros (s & -> & E & Hs). destruct s as [|c' s]; [done|]. simpl in E. simplify_eq.
        apply Forall_cons in Hs as [_ Hs]. exists s. by rewrite <- app_assoc.
    + split; [done|]. intros (s & _ & E & Hs). destruct s as [|c' s]; [done|]. simpl in E. simplify_eq.
      apply Forall_cons in Hs as [Hs _]. congruence.
  - split; [done|]. intros (s & _ & E & _). by destruct s.
Qed.

Lemma transpose_Ok {A B} (f : A -> result RedisError B) o o' :
  transpose f o = Ok o' <-> option_Forall2 (fun a b => f a = Ok b) o o'.
Proof.
  destruct o as [a|]; simpl.
  - destruct (f a) as [b|] eqn:E; simpl.
    + split; [intros [= <-]; by constructor|]. inversion 1; congruence.
    + split; [done|]. inversion 1; congruence.
  - split; [intros [= <-]; constructor|by inversion 1].
Qed.

(** Certificates are accepted exactly if every certificate and the key parse and
    every root is a trust anchor, and then all of them are kept, in order;
    otherwise an I/O error is returned. *)
Lemma retrieve_tls_certificates_spec c :
  match retrieve_tls_certificates c with
  | Ok p =>
      danger_accept_invalid_hostnames p = false /\
      option_Forall2 client_parses (client_tls c) (client_tls_params p) /\
      option_Forall2 roots_parse (root_cert c) (root_cert_store p)
  | Err e =>
      e = other_io_error /\
      ~ exists o o', option_Forall2 client_parses (client_tls c) o /\ option_Forall2 roots_parse (root_cert c) o'
  end.
Proof.
  assert (forall c p, roots_parse c p <-> add_root_certs [] (pem_slice_iter c) = Ok p) as Hr.
  { intros pem p. rewrite add_root_certs_Ok. unfold roots_parse. naive_solver. }
  assert (forall o o', transpose (fun pem => add_root_certs [] (pem_slice_iter pem)) o = Ok o' <->
    option_Forall2 roots_parse o o') as Hr'.
  { intros o o'. rewrite transpose_Ok. split; intros Ho; inversion Ho; constructor; by apply Hr. }
  assert (forall o o', transpose retrieve_client_tls o = Ok o' <-> option_Forall2 client_parses o o') as Hc.
  { intros o o'. rewrite transpose_Ok. split; intros Ho; inversion Ho; constructor; by apply retrieve_client_tls_Ok. }
  assert (forall e l acc, add_root_certs acc l = Err e -> e = other_io_error) as He.
  { intros e l. induction l as [|[d|?] l IH]; intros acc; simpl; [done| |by intros [= <-]].
    case_match; [apply IH|by intros [= <-]]. }
  unfold retrieve_tls_certificates.
  destruct (transpose retrieve_client_tls (client_tls c)) as [o|e] eqn:E1; simpl.
  - destruct (transpose _ (root_cert c)) as [o'|e] eqn:E2; simpl.
    + split; [done|]. split; [by apply Hc|by apply Hr'].
    + split; [|intros (? & ? & _ & H2%Hr'); congruence].
      destruct (root_cert c) as [pem|]; [|done]. simpl in E2.
      destruct (add_root_certs [] _) eqn:E3; simplify_eq/=. by eapply He.
  - split; [|intros (? & ? & H1%Hc & _); congruence].
    destruct (client_tls c) as [cfg|]; [|done]. simpl in E1.
    destruct (retrieve_client_tls cfg) eqn:E3; simplify_eq/=. unfold retrieve_client_tls, or_io_error in E3.
    destruct (collect_results _), (private_key_from_pem _); by simplify_eq/=.
Qed.
End certificates.

(** ** Verifying servers *)

(** [rustls::Error], as far as it is inspected. *)
Inductive CertificateError := NotValidForName | NotValidForNameContext | OtherCertificateError (msg : bytes).
Inductive RustlsError := InvalidCertificate (e : CertificateError) | OtherRustlsError (msg : bytes).

Definition is_hostname_error (err : RustlsError) : bool :=
  match err with
  | InvalidCertificate NotValidForName | InvalidCertificate NotValidForNameContext => true
  | _ => false
  end.

(** The implementations of [ServerCertVerifier] that a configuration can hold:
    that of rustls and the two of [connection.rs]. *)
Inductive ServerCertVerifier :=
| WebPkiServerVerifier (roots : RootCertStore)
| AcceptInvalidHostnamesCertVerifier (inner : RootCertStore)
| NoCertificateVerification.

(** What rustls is asked: [load_native_certs] with the errors and the certificates;
    whether a client certificate fits its key, a verifier can be built from roots
    and a crypto provider is installed; and the checks of the verifier of rustls,
    for the certificate shown ([Shown]) and for a signature ([Signed]). *)
Class Rustls := {
  TLS_SERVER_ROOTS : RootCertStore;
  load_native_certs : list bytes * list CertificateDer;
  with_client_auth_cert : list CertificateDer -> PrivateKeyDer -> result bytes unit;
  verifier_build : RootCertStore -> result bytes unit;
  default_provider : bool;
  Shown : Type;
  Signed : Type;
  webpki_verify_server_cert : RootCertStore -> Shown -> result RustlsError unit;
  webpki_verify_tls12_signature : RootCertStore -> Signed -> result RustlsError unit;
  webpki_verify_tls13_signature : RootCertStore -> Signed -> result RustlsError unit
}.

Section verifying.
Context `{Rustls}.

(** [or_else] of the verifier that tolerates other host names. *)
Definition accept_invalid_hostname (r : result RustlsError unit) : result RustlsError unit :=
  match r with
  | Ok u => Ok u
  | Err err => if is_hostname_error err then Ok () else Err err
  end.

Definition verify_server_cert (v : ServerCertVerifier) (s : Shown) : result RustlsError unit :=
  match v with
  | WebPkiServerVerifier roots => webpki_verify_server_cert roots s
  | AcceptInvalidHostnamesCertVerifier inner => accept_invalid_hostname (webpki_verify_server_cert inner s)
  | NoCertificateVerification => Ok ()
  end.
Definition verify_tls12_signature (v : ServerCertVerifier) (s : Signed) : result RustlsError unit :=
  match v with
  | WebPkiServerVerifier roots => webpki_verify_tls12_signature roots s
  | AcceptInvalidHostnamesCertVerifier inner => accept_invalid_hostname (webpki_verify_tls12_signature inner s)
  | NoCertificateVerification => Ok ()
  end.
Definition verify_tls13_signature (v : ServerCertVerifier) (s : Signed) : result RustlsError unit :=
  match v with
  | WebPkiServerVerifier roots => webpki_verify_tls13_signature roots s
  | AcceptInvalidHostnamesCertVerifier inner => accept_invalid_hostname (webpki_verify_tls13_signature inner s)
  | NoCertificateVerification => Ok ()
  end.
End verifying.

(** ** The configuration *)

(** [rustls::ClientConfig], as far as it is set. *)
Record ClientConfig := {
  verifier : ServerCertVerifier; client_auth : option ClientTlsParams; enable_sni : bool
}.

Section config.
Context `{TlsFeatures} `{Pem} `{Rustls}.

(** [From<rustls::Error> for RedisError] and [From<rustls_native_certs::Error>]. *)
Definition redis_error_of_rustls (msg : bytes) : RedisError := ErrorRepr_Internal Client (OtherDynError msg).
Definition redis_error_of_native_certs (msg : bytes) : RedisError := ErrorRepr_Internal Io (OtherDynError msg).

(** [root_store.add(cert)?] for every certificate of the system. *)
Fixpoint add_native_certs (store : RootCertStore) (certs : list CertificateDer)
    : result RedisError RootCertStore :=
  match certs with
  | [] => Ok store
  | cert :: certs =>
      if trust_anchor cert then add_native_certs (store ++ [cert]) certs
      else Err (redis_error_of_rustls (anchor_error cert))
  end.
(** The roots of [create_rustls_config] before the parameters are looked at. *)
Definition default_roots : result RedisError RootCertStore :=
  if tls_rustls_webpki_roots then Ok TLS_SERVER_ROOTS
  else if tls_native_tls then Ok []
  else
    let '(errors, certs) := load_native_certs in
    match last errors with
    | Some error => Err (redis_error_of_native_certs error)
    | None => add_native_certs [] certs
    end.

(** The field exists only with one of the features. *)
Definition danger_flag (p : TlsConnParams) : bool :=
  danger_accept_invalid_hostnames p && (tls_rustls_insecure || tls_native_tls).

(** The branch of [create_rustls_config] for given parameters. *)
Definition config_with_params (insecure : bool) (p : TlsConnParams) (root_store : RootCertStore)
    : result RedisError ClientConfig :=
  let roots := default root_store (root_cert_store p) in
  auth ← match client_tls_params p with
         | Some c =>
             match with_client_auth_cert (client_cert_chain c) (client_key_der c) with
             | Ok _ => Ok (Some c)
             | Err err => Err (redis_error_of_detail InvalidClientConfig
                                 "Unable to build client with TLS parameters provided." err)
             end
         | None => Ok None
         end;
  if negb insecure && danger_flag p then
    if negb tls_rustls_insecure then
      Err (redis_error_of InvalidClientConfig
             "Cannot create insecure client via danger_accept_invalid_hostnames without tls-rustls-insecure feature")
    else
      match verifier_build roots with
      | Ok _ => Ok {| verifier := AcceptInvalidHostnamesCertVerifier roots; client_auth := auth; enable_sni := true |}
      | Err err => Err (redis_error_of_rustls err)
      end
  else Ok {| verifier := WebPkiServerVerifier roots; client_auth := auth; enable_sni := true |}.

Definition create_rustls_config (insecure : bool) (tls_params : option TlsConnParams)
    : result RedisError ClientConfig :=
  root_store ← default_roots;
  config ← match tls_params with
           | Some p => config_with_params insecure p root_store
           | None => Ok {| verifier := WebPkiServerVerifier root_store; client_auth := None; enable_sni := true |}
           end;
  if insecure then
    if tls_rustls_insecure then
      if default_provider then
        Ok {| verifier := NoCertificateVerification; client_auth := client_auth config; enable_sni := false |}
      else Err (redis_error_of InvalidClientConfig "No crypto provider available for rustls")
    else Err (redis_error_of InvalidClientConfig
                "Cannot create insecure client without tls-rustls-insecure feature")
  else Ok config.

(** ** What a server has to prove *)

(** The roots in force: those handed over, or else the default ones. *)
Definition roots_of (p : option TlsConnParams) (store : RootCertStore) : RootCertStore :=
  default store (p ≫= root_cert_store).

Lemma config_with_params_Ok insecure p store c : config_with_params insecure p store = Ok c ->
  let roots := default store (root_cert_store p) in
  client_auth c = client_tls_params p /\ enable_sni c = true /\
  (if negb insecure && danger_flag p
   then verifier c = AcceptInvalidHostnamesCertVerifier roots /\ tls_rustls_insecure = true
   else verifier c = WebPkiServerVerifier roots).
Proof.
  unfold config_with_params.
  destruct (match client_tls_params p with Some _ => _ | None => _ end) as [auth|] eqn:Ha; [|done]. cbn [mbind result_bind].
  assert (auth = client_tls_params p) as -> by (repeat case_match; congruence).
  destruct (negb insecure && danger_flag p); [|by intros [= <-]].
  destruct tls_rustls_insecure; [|done]. by destruct (verifier_build _); intros [= <-].
Qed.

(** The configuration in closed form. *)
Lemma create_rustls_config_Ok insecure p c : create_rustls_config insecure p = Ok c ->
  exists store, default_roots = Ok store /\
  client_auth c = p ≫= client_tls_params /\ enable_sni c = negb insecure /\
  if insecure then verifier c = NoCertificateVerification /\ tls_rustls_insecure = true
  else if is_some_and p danger_flag
  then verifier c = AcceptInvalidHostnamesCertVerifier (roots_of p store) /\ tls_rustls_insecure = true
  else verifier c = WebPkiServerVerifier (roots_of p store).
Proof.
  unfold create_rustls_config. destruct default_roots as [store|]; [simpl|done]. intros Hc. exists store. split; [done|].
  destruct p as [q|]; simpl in *.
  - destruct (config_with_params insecure q store) as [c0|] eqn:E; [simpl in Hc|done].
    apply config_with_params_Ok in E as (Ha & Hs & Hv).
    destruct insecure; [|by simplify_eq]. by destruct tls_rustls_insecure, default_provider; simplify_eq/=.
  - destruct insecure; [|by simplify_eq]. by destruct tls_rustls_insecure, default_provider; simplify_eq/=.
Qed.

Lemma accept_invalid_hostname_Ok r : accept_invalid_hostname r = Ok () <->
  r = Ok () \/ exists e, r = Err (InvalidCertificate e) /\ (e = NotValidForName \/ e = NotValidForNameContext).
Proof.
  destruct r as [[]|[[]|]]; simpl; (split; [intros Hr; try done; eauto|]);
    intros [Hr|(e & Hr & [->| ->])]; done || by simplify_eq.
Qed.

(** C24. A configuration that is not insecure accepts a server exactly if rustls
    accepts its certificate under the roots in force or, when host names are not
    to be checked, complains about the host name only; the same holds for its
    signatures.  An insecure one accepts every server and exists only with the
    feature for it.  The certificate of the client is presented in all cases. *)
Theorem tls_servers_verified insecure p c : create_rustls_config insecure p = Ok c ->
  client_auth c = p ≫= client_tls_params /\ enable_sni c = negb insecure /\
  exists store, default_roots = Ok store /\
  let tolerant := is_some_and p danger_flag in
  let accepts (r : result RustlsError unit) :=
    r = Ok () \/ tolerant = true /\ exists e, r = Err (InvalidCertificate e) /\
      (e = NotValidForName \/ e = NotValidForNameContext) in
  if insecure then
    tls_rustls_insecure = true /\ forall s s', verify_server_cert (verifier c) s = Ok () /\
      verify_tls12_signature (verifier c) s' = Ok () /\ verify_tls13_signature (verifier c) s' = Ok ()
  else
    (tolerant = true -> tls_rustls_insecure = true) /\
    (forall s, verify_server_cert (verifier c) s = Ok () <->
      accepts (webpki_verify_server_cert (roots_of p store) s)) /\
    (forall s, verify_tls12_signature (verifier c) s = Ok () <->
      accepts (webpki_verify_tls12_signature (roots_of p store) s)) /\
    (forall s, verify_tls13_signature (verifier c) s = Ok () <->
      accepts (webpki_verify_tls13_signature (roots_of p store) s)).
Proof.
  intros (store & Hs & Ha & Hn & Hv)%create_rustls_config_Ok. split; [done|]. split; [done|]. exists store. split; [done|].
  destruct insecure; [by destruct Hv as [-> ->]|]. destruct (is_some_and p danger_flag).
  - destruct Hv as [-> ->]. split; [done|]. split_and!; intros s;
      cbn [verify_server_cert verify_tls12_signature verify_tls13_signature]; rewrite accept_invalid_hostname_Ok; by firstorder.
  - rewrite Hv. split; [done|]. split_and!; intros s; (split; [by left|]); by intros [?|[]].
Qed.
(** With both TLS backends compiled in and without the bundled roots, connections are
    made by rustls and no root certificate is loaded: unless the user hands over
    roots, no server can be verified. *)
Lemma no_roots_with_both_backends : tls_native_tls = true -> tls_rustls_webpki_roots = false ->
  create_rustls_config false None =
    Ok {| verifier := WebPkiServerVerifier []; client_auth := None; enable_sni := true |}.
Proof. intros Hn Hw. unfold create_rustls_config, default_roots. by rewrite Hn, Hw. Qed.
End config.

(** ** An example *)

(** A certificate is its text, and stands for the server that is named in it. *)
#[local] Instance plain_pem : Pem := {|
  pem_slice_iter pem := [Ok pem]; private_key_from_pem pem := Ok (Pkcs8 pem);
  trust_anchor c := negb (bool_decide (c = [])); anchor_error _ := bs "empty"
|}.
#[local] Instance plain_rustls : Rustls := {|
  TLS_SERVER_ROOTS := [bs "web"]; load_native_certs := ([], [bs "system"]);
  with_client_auth_cert _ _ := Ok (); verifier_build _ := Ok (); default_provider := true;
  Shown := bytes * bool; Signed := bool;
  webpki_verify_server_cert roots s :=
    if bool_decide (s.1 ∈ roots) then if s.2 then Ok () else Err (InvalidCertificate NotValidForName)
    else Err (OtherRustlsError (bs "unknown issuer"));
  webpki_verify_tls12_signature _ s := if s then Ok () else Err (OtherRustlsError (bs "bad signature"));
  webpki_verify_tls13_signature _ s := if s then Ok () else Err (OtherRustlsError (bs "bad signature"))
|}.
#[local] Instance rustls_features : TlsFeatures := {|
  tls_rustls := true; tls_native_tls := false; tls_rustls_insecure := true; tls_rustls_webpki_roots := false
|}.
Definition own_root : TlsConnParams :=
  {| client_tls_params := None; root_cert_store := Some [bs "own"]; danger_accept_invalid_hostnames := true |}.

(** Roots that are handed over replace those of the system; the flag excuses
    another host name, and nothing else. *)
Lemma tls_servers_verified_witness : exists c, create_rustls_config false (Some own_root) = Ok c /\
  verify_server_cert (verifier c) (bs "own", false) = Ok () /\
  verify_server_cert (verifier c) (bs "system", true) <> Ok ().
Proof.
  destruct (create_rustls_config false (Some own_root)) as [c|] eqn:Hc; [|by vm_compute in Hc].
  destruct (tls_servers_verified false (Some own_root) c Hc) as (_ & _ & store & _ & _ & Hv & _).
  exists c. split; [reflexivity|]. split.
  - apply Hv. right. split; [reflexivity|]. exists NotValidForName. split; [vm_compute; reflexivity|by left].
  - intros [Hs|(_ & e & Hs & He)]%Hv; vm_compute in Hs; simplify_eq.
Defined.
