(* ===== verification/ConnInfo.v ===== *)
(** * Connection settings and set-up: the first half of [redis/src/connection.rs]

    URLs and addresses, [RedisConnectionInfo], the pipeline that sets up a fresh
    connection and the checks of its replies.

    The url crate is a parameter: a [Url] is what its accessors return for a
    parsed URL ([url_parse] is [Url::parse]), and [percent_decode] is the
    function of the percent_encoding crate. *)

From S2P Require Import Prelude Text Float64 Combine Errors Types Parser Codec Cmd Convert Pipeline.
From S2P Require Import Slots Routing Caching Tls.
Local Open Scope Z_scope.

(** ** Addresses *)

Definition DEFAULT_PORT : Z := 6379.

Inductive TlsMode := Secure | Insecure.
#[export] Instance TlsMode_eq_dec : EqDecision TlsMode.
Proof. solve_decision. Defined.

Inductive ConnectionAddr :=
| Tcp (host : bytes) (port : Z)
| TcpTls (host : bytes) (port : Z) (insecure : bool) (tls_params : option TlsConnParams)
| Unix (path : bytes).

#[export] Instance ConnectionAddr_eq_dec : EqDecision ConnectionAddr.
Proof. solve_decision. Defined.

(** [PartialEq for ConnectionAddr], which does not look at certificates. *)
Definition ConnectionAddr_eqb (a b : ConnectionAddr) : bool :=
  match a, b with
  | Tcp host1 port1, Tcp host2 port2 => bytes_eqb host1 host2 && (port1 =? port2)
  | TcpTls host1 port1 insecure1 _, TcpTls host2 port2 insecure2 _ =>
      (port1 =? port2) && bytes_eqb host1 host2 && Bool.eqb insecure1 insecure2
  | Unix path1, Unix path2 => bytes_eqb path1 path2
  | _, _ => false
  end.

(** A field of the parameters that a TLS address may have. *)
Definition with_danger (insecure : bool) (p : TlsConnParams) : TlsConnParams :=
  {| client_tls_params := client_tls_params p; root_cert_store := root_cert_store p;
     danger_accept_invalid_hostnames := insecure |}.
Definition set_danger_accept_invalid_hostnames (a : ConnectionAddr) (insecure : bool) : ConnectionAddr :=
  match a with
  | TcpTls host port i (Some params) => TcpTls host port i (Some (with_danger insecure params))
  | TcpTls host port i None =>
      if insecure
      then TcpTls host port i
             (Some {| client_tls_params := None; root_cert_store := None;
                      danger_accept_invalid_hostnames := insecure |})
      else a
  | _ => a
  end.

(** Equal addresses differ at most in their certificates, so that an address stays equal
    to itself whatever is said about host names. *)
Definition without_params (a : ConnectionAddr) : ConnectionAddr :=
  match a with TcpTls host port insecure _ => TcpTls host port insecure None | _ => a end.
Lemma ConnectionAddr_eqb_spec a b : ConnectionAddr_eqb a b = true <-> without_params a = without_params b.
Proof.
  destruct a, b; simpl; rewrite ?andb_true_iff, ?bytes_eqb_true, ?Z.eqb_eq, ?Bool.eqb_true_iff;
    (split; [intros; destruct_and?; by subst|intros [=]; by subst] || done).
Qed.
Lemma set_danger_eqb a insecure : ConnectionAddr_eqb (set_danger_accept_invalid_hostnames a insecure) a = true.
Proof. apply ConnectionAddr_eqb_spec. by destruct a as [|? ? ? [|]|], insecure. Qed.

(** [cfg!(any(feature = "tls-native-tls", feature = "tls-rustls"))]. *)
Class TlsFeature := tls_enabled : bool.

Definition is_supported `{TlsFeature} `{TargetOs} (a : ConnectionAddr) : bool :=
  match a with
  | Tcp _ _ => true
  | TcpTls _ _ _ _ => tls_enabled
  | Unix _ => cfg_unix
  end.

Definition tls_mode (a : ConnectionAddr) : option TlsMode :=
  match a with
  | TcpTls _ _ insecure _ => Some (if insecure then Insecure else Secure)
  | _ => None
  end.

(** [Display for ConnectionAddr]. *)
Definition ConnectionAddr_display (a : ConnectionAddr) : bytes :=
  match a with
  | Tcp host port | TcpTls host port _ _ => host ++ COLON :: itoa port
  | Unix path => path
  end.

(** ** Settings *)

Record RedisConnectionInfo := {
  info_db : Z;
  info_username : option bytes;
  info_password : option bytes;
  info_protocol : ProtocolVersion;
  skip_set_lib_name : bool;
  lib_name : option bytes;
  lib_ver : option bytes
}.

Definition RedisConnectionInfo_default : RedisConnectionInfo :=
  {| info_db := 0; info_username := None; info_password := None; info_protocol := RESP2;
     skip_set_lib_name := false; lib_name := None; lib_ver := None |}.

Definition set_username (i : RedisConnectionInfo) (username : bytes) : RedisConnectionInfo :=
  {| info_db := info_db i; info_username := Some username; info_password := info_password i;
     info_protocol := info_protocol i; skip_set_lib_name := skip_set_lib_name i;
     lib_name := lib_name i; lib_ver := lib_ver i |}.
Definition set_password (i : RedisConnectionInfo) (password : bytes) : RedisConnectionInfo :=
  {| info_db := info_db i; info_username := info_username i; info_password := Some password;
     info_protocol := info_protocol i; skip_set_lib_name := skip_set_lib_name i;
     lib_name := lib_name i; lib_ver := lib_ver i |}.
Definition set_protocol (i : RedisConnectionInfo) (protocol : ProtocolVersion) : RedisConnectionInfo :=
  {| info_db := info_db i; info_username := info_username i; info_password := info_password i;
     info_protocol := protocol; skip_set_lib_name := skip_set_lib_name i;
     lib_name := lib_name i; lib_ver := lib_ver i |}.
Definition set_skip_set_lib_name (i : RedisConnectionInfo) : RedisConnectionInfo :=
  {| info_db := info_db i; info_username := info_username i; info_password := info_password i;
     info_protocol := info_protocol i; skip_set_lib_name := true;
     lib_name := lib_name i; lib_ver := lib_ver i |}.
Definition set_lib_name (i : RedisConnectionInfo) (name ver : bytes) : RedisConnectionInfo :=
  {| info_db := info_db i; info_username := info_username i; info_password := info_password i;
     info_protocol := info_protocol i; skip_set_lib_name := false;
     lib_name := Some name; lib_ver := Some ver |}.
Definition set_db (i : RedisConnectionInfo) (db : Z) : RedisConnectionInfo :=
  {| info_db := db; info_username := info_username i; info_password := info_password i;
     info_protocol := info_protocol i; skip_set_lib_name := skip_set_lib_name i;
     lib_name := lib_name i; lib_ver := lib_ver i |}.

(** [socket2::TcpKeepalive]. *)
Record TcpKeepalive := {
  keepalive_time : option Duration; keepalive_interval : option Duration; keepalive_retries : option Z
}.
Record TcpSettings := {
  nodelay : bool; keepalive : option TcpKeepalive; linger_time : option Duration;
  user_timeout : option Duration
}.
Definition TcpSettings_default : TcpSettings :=
  {| nodelay := false; keepalive := None; linger_time := None; user_timeout := None |}.

Record ConnectionInfo := {
  addr : ConnectionAddr; tcp_settings : TcpSettings; redis_settings : RedisConnectionInfo
}.
Definition set_addr (i : ConnectionInfo) (a : ConnectionAddr) : ConnectionInfo :=
  {| addr := a; tcp_settings := tcp_settings i; redis_settings := redis_settings i |}.
Definition set_tcp_settings (i : ConnectionInfo) (t : TcpSettings) : ConnectionInfo :=
  {| addr := addr i; tcp_settings := t; redis_settings := redis_settings i |}.
Definition set_redis_settings (i : ConnectionInfo) (r : RedisConnectionInfo) : ConnectionInfo :=
  {| addr := addr i; tcp_settings := tcp_settings i; redis_settings := r |}.

(** ** URLs *)

(** [url::Host], with the text of an address. *)
Inductive Host := Domain (s : bytes) | Ipv4 (s : bytes) | Ipv6 (s : bytes).

Record Url := {
  scheme : bytes;
  url_host : option Host;
  url_port : option Z;
  fragment : option bytes;
  path : bytes;
  url_username : bytes;
  url_password : option bytes;
  query_pairs : list (bytes * bytes);
  to_file_path : option bytes
}.

Class UrlCrate := {
  url_parse : bytes -> option Url;
  percent_decode : bytes -> bytes
}.

Definition invalid_config {A} (s : string) : result RedisError A :=
  Err (redis_error_of InvalidClientConfig s).

Definition SLASH : byte := x2f.

(** [str::trim_matches(c)]. *)
Definition trim_matches (c : byte) (s : bytes) : bytes := trim_end_matches c (trim_start_matches c s).

Section urls.
Context `{UrlCrate} `{TlsFeature} `{TargetOs}.

Definition parse_redis_url (input : bytes) : option Url :=
  match url_parse input with
  | Some result =>
      if one_of (scheme result)
           ["redis"; "rediss"; "valkey"; "valkeys"; "redis+unix"; "valkey+unix"; "unix"]%string
      then Some result else None
  | None => None
  end.

Definition parse_protocol (query : gmap bytes bytes) : result RedisError ProtocolVersion :=
  match query !! bs "protocol" with
  | Some protocol =>
      if one_of protocol ["2"; "resp2"]%string then Ok RESP2
      else if one_of protocol ["3"; "resp3"]%string then Ok RESP3
      else Err (redis_error_of_detail InvalidClientConfig "Invalid protocol version" protocol)
  | None => Ok RESP2
  end.

(** The database number of a path or a query. *)
Definition parse_db (s : bytes) : result RedisError Z :=
  ok_or (parse_int i64_ty s) (redis_error_of InvalidClientConfig "Invalid database number").

(** [percent_decode(..).decode_utf8()]. *)
Definition decode_part (what : string) (s : bytes) : result RedisError bytes :=
  map_err (fun _ => redis_error_of InvalidClientConfig what) (from_utf8 (percent_decode s)).

Definition tcp_host (url : Url) : result RedisError bytes :=
  match url_host url with
  | Some (Domain host_str) | Some (Ipv4 host_str) | Some (Ipv6 host_str) =>
      if is_wildcard_address host_str
      then invalid_config "Cannot connect to a wildcard address (0.0.0.0 or ::)"
      else Ok host_str
  | None => invalid_config "Missing hostname"
  end.

Definition tcp_addr (url : Url) (host : bytes) (port : Z) : result RedisError ConnectionAddr :=
  if one_of (scheme url) ["rediss"; "valkeys"]%string then
    if tls_enabled then
      match fragment url with
      | Some f => if bytes_eqb f (bs "insecure") then Ok (TcpTls host port true None)
                  else invalid_config "only #insecure is supported as URL fragment"
      | None => Ok (TcpTls host port false None)
      end
    else invalid_config "can't connect with TLS, the feature is not enabled"
  else Ok (Tcp host port).

Definition url_to_tcp_connection_info (url : Url) : result RedisError ConnectionInfo :=
  host ← tcp_host url;
  let port := default DEFAULT_PORT (url_port url) in
  addr ← tcp_addr url host port;
  let query := collect_map (query_pairs url) in
  db ← (match trim_matches SLASH (path url) with
        | [] => Ok 0
        | path => parse_db path
        end);
  username ← (match url_username url with
              | [] => Ok None
              | u => Some <$> decode_part "Username is not valid UTF-8 string" u
              end);
  password ← (match url_password url with
              | Some pw => Some <$> decode_part "Password is not valid UTF-8 string" pw
              | None => Ok None
              end);
  protocol ← parse_protocol query;
  Ok {| addr := addr;
        redis_settings := {| info_db := db; info_username := username; info_password := password;
                             info_protocol := protocol; skip_set_lib_name := false;
                             lib_name := None; lib_ver := None |};
        tcp_settings := TcpSettings_default |}.

Definition url_to_unix_connection_info (url : Url) : result RedisError ConnectionInfo :=
  if cfg_unix then
    let query := collect_map (query_pairs url) in
    file ← ok_or (to_file_path url) (redis_error_of InvalidClientConfig "Missing path");
    db ← (match query !! bs "db" with Some db => parse_db db | None => Ok 0 end);
    protocol ← parse_protocol query;
    Ok {| addr := Unix file;
          redis_settings := {| info_db := db; info_username := query !! bs "user";
                               info_password := query !! bs "pass"; info_protocol := protocol;
                               skip_set_lib_name := false; lib_name := None; lib_ver := None |};
          tcp_settings := TcpSettings_default |}
  else invalid_config "Unix sockets are not available on this platform.".

(** The implementations of [IntoConnectionInfo]. *)
Definition url_into_connection_info (url : Url) : result RedisError ConnectionInfo :=
  if one_of (scheme url) ["redis"; "rediss"; "valkey"; "valkeys"]%string
  then url_to_tcp_connection_info url
  else if one_of (scheme url) ["unix"; "redis+unix"; "valkey+unix"]%string
  then url_to_unix_connection_info url
  else invalid_config "URL provided is not a redis URL".
Definition str_into_connection_info (s : bytes) : result RedisError ConnectionInfo :=
  match parse_redis_url s with
  | Some u => url_into_connection_info u
  | None => invalid_config "Redis URL did not parse"
  end.
Definition addr_into_connection_info (a : ConnectionAddr) : result RedisError ConnectionInfo :=
  Ok {| addr := a; redis_settings := RedisConnectionInfo_default; tcp_settings := TcpSettings_default |}.
Definition pair_into_connection_info (p : bytes * Z) : result RedisError ConnectionInfo :=
  Ok {| addr := Tcp p.1 p.2; redis_settings := RedisConnectionInfo_default;
        tcp_settings := TcpSettings_default |}.
End urls.

(** ** Setting up a connection *)

(** [env!("CARGO_PKG_VERSION")]. *)
Class CargoPkgVersion := cargo_pkg_version : bytes.

Definition DEFAULT_CLIENT_SETINFO_LIB_NAME : bytes := bs "redis-rs".
Definition DEFAULT_CLIENT_SETINFO_LIB_VER `{CargoPkgVersion} : bytes := cargo_pkg_version.

Definition authenticate_cmd (username : option bytes) (password : bytes) : Cmd :=
  let command := cmd "AUTH" in
  let command := match username with Some u => write_arg command u | None => command end in
  write_arg command password.

(** [resp3_hello] of [commands/mod.rs]. *)
Definition resp3_hello (i : RedisConnectionInfo) : Cmd :=
  let hello_cmd := write_arg (cmd "HELLO") (bs "3") in
  match info_password i with
  | Some password =>
      let username := default (bs "default") (info_username i) in
      write_arg (write_arg (write_arg hello_cmd (bs "AUTH")) username) password
  | None => hello_cmd
  end.

Record ConnectionSetupComponents := {
  resp3_auth_cmd_idx : option nat;
  resp2_auth_cmd_idx : option nat;
  select_cmd_idx : option nat;
  cache_cmd_idx : option nat
}.

(** [cmd(name).arg(..)...] in one go. *)
Definition cmd_args (name : string) (args : list bytes) : Cmd := foldl write_arg (cmd name) args.

Section setup.
Context `{CargoPkgVersion}.

Definition connection_setup_pipeline (i : RedisConnectionInfo) (check_username : bool)
    (cache_config : option CacheConfig) : Pipeline * ConnectionSetupComponents :=
  let pipeline := Pipeline_new in
  let '(pipeline, resp3_idx, resp2_idx) :=
    if supports_resp3 (info_protocol i) then (add_command pipeline (resp3_hello i), Some O, None)
    else match info_password i with
         | Some password =>
             (add_command pipeline
                (authenticate_cmd (if check_username then info_username i else None) password),
              None, Some O)
         | None => (pipeline, None, None)
         end in
  let '(pipeline, select_idx) :=
    if negb (info_db i =? 0)
    then (add_command pipeline (cmd_args "SELECT" [itoa (info_db i)]), Some (Pipeline_len pipeline))
    else (pipeline, None) in
  let '(pipeline, cache_idx) :=
    match cache_config with
    | Some cc =>
        let pipeline := add_command pipeline
          (cmd_args "CLIENT" ([bs "TRACKING"; bs "ON"] ++
             match mode cc with CacheAll => [] | OptIn => [bs "OPTIN"] end)) in
        (pipeline, Some (Pipeline_len pipeline - 1)%nat)
    | None => (pipeline, None)
    end in
  let pipeline :=
    if negb (skip_set_lib_name i) then
      let pipeline := ignore (add_command pipeline (cmd_args "CLIENT"
        [bs "SETINFO"; bs "LIB-NAME"; default DEFAULT_CLIENT_SETINFO_LIB_NAME (lib_name i)])) in
      ignore (add_command pipeline (cmd_args "CLIENT"
        [bs "SETINFO"; bs "LIB-VER"; default DEFAULT_CLIENT_SETINFO_LIB_VER (lib_ver i)]))
    else pipeline in
  (pipeline, {| resp3_auth_cmd_idx := resp3_idx; resp2_auth_cmd_idx := resp2_idx;
                select_cmd_idx := select_idx; cache_cmd_idx := cache_idx |}).
End setup.

(** [get_resp3_hello_command_error]. *)
Definition get_resp3_hello_command_error (err : RedisError) : RedisError :=
  if is_some_and (detail err) (starts_with (bs "unknown command `HELLO`"))
  then redis_error_of RESP3NotSupported
         "Redis Server doesn't support HELLO command therefore resp3 cannot be used"
  else err.

Definition check_resp3_auth (result : Value) : Prelude.result RedisError unit :=
  match result with
  | ServerErr err => Err (get_resp3_hello_command_error (redis_error_of_server err))
  | _ => Ok ()
  end.

Inductive AuthResult := Succeeded | ShouldRetryWithoutUsername.
#[export] Instance AuthResult_eq_dec : EqDecision AuthResult.
Proof. solve_decision. Defined.

Definition auth_failed : RedisError :=
  redis_error_of AuthenticationFailed "Password authentication failed".

Definition check_resp2_auth (result : Value) : Prelude.result RedisError AuthResult :=
  match result with
  | Okay => Ok Succeeded
  | ServerErr err =>
      match ServerError_details err with
      | None => Err auth_failed
      | Some err_msg =>
          if contains (bs "wrong number of arguments for 'auth' command") err_msg
          then Ok ShouldRetryWithoutUsername
          else Err auth_failed
      end
  | _ => Err (redis_error_of (Server ResponseError)
                "Redis server refused to authenticate, returns Ok() != Value::Okay")
  end.

Definition check_db_select (value : Value) : result RedisError unit :=
  match value with
  | ServerErr err =>
      Err (ErrorRepr_General (Server ResponseError) "Redis server refused to switch database"
             (ServerError_details err))
  | _ => Ok ()
  end.

(** The rendering of the reply in the error's detail is left out. *)
Definition check_caching (result : Value) : Prelude.result RedisError unit :=
  match result with
  | Okay => Ok ()
  | _ => Err (redis_error_of (Server ResponseError) "Client-side caching returned unknown response")
  end.

(** A missing reply, or the check of the one at [index]. *)
Definition check_reply {A} (results : list Value) (index : nat) (missing : string)
    (check : Value -> result RedisError A) : result RedisError A :=
  match results !! index with
  | None => Err (redis_error_of Client missing)
  | Some value => check value
  end.

(** [None] is the failed assertion. *)
Definition check_connection_setup (results : list Value) (c : ConnectionSetupComponents)
    : option (result RedisError AuthResult) :=
  if bool_decide (is_Some (resp2_auth_cmd_idx c)) && bool_decide (is_Some (resp3_auth_cmd_idx c))
  then None
  else Some (
    auth ← (match resp3_auth_cmd_idx c, resp2_auth_cmd_idx c with
            | Some index, _ =>
                _ ← check_reply results index "Missing RESP3 auth response" check_resp3_auth;
                Ok Succeeded
            | None, Some index =>
                check_reply results index "Missing RESP2 auth response" check_resp2_auth
            | None, None => Ok Succeeded
            end);
    match auth with
    | ShouldRetryWithoutUsername => Ok ShouldRetryWithoutUsername
    | Succeeded =>
        _ ← (match select_cmd_idx c with
             | Some index => check_reply results index "Missing SELECT DB response" check_db_select
             | None => Ok ()
             end);
        _ ← (match cache_cmd_idx c with
             | Some index => check_reply results index "Missing Caching response" check_caching
             | None => Ok ()
             end);
        Ok Succeeded
    end).

(** ** What the set-up checks *)

(** The outcome of a set-up attempt, from the replies of a server to the
    commands it takes. *)
Definition setup_verdict (server : Cmd -> Value) (i : RedisConnectionInfo) (check_username : bool)
    (cache_config : option CacheConfig) : result RedisError AuthResult :=
  auth ← (if supports_resp3 (info_protocol i)
          then _ ← check_resp3_auth (server (resp3_hello i)); Ok Succeeded
          else match info_password i with
               | Some password =>
                   check_resp2_auth (server (authenticate_cmd
                     (if check_username then info_username i else None) password))
               | None => Ok Succeeded
               end);
  match auth with
  | ShouldRetryWithoutUsername => Ok ShouldRetryWithoutUsername
  | Succeeded =>
      _ ← (if info_db i =? 0 then Ok () else check_db_select (server (cmd_args "SELECT" [itoa (info_db i)])));
      _ ← (match cache_config with
           | Some cc => check_caching (server (cmd_args "CLIENT" ([bs "TRACKING"; bs "ON"] ++
                          match mode cc with CacheAll => [] | OptIn => [bs "OPTIN"] end)))
           | None => Ok ()
           end);
      Ok Succeeded
  end.

(** The set-up of a connection checks the right replies: whatever commands
    the settings call for, the recorded positions are those of the HELLO or
    AUTH, SELECT and CLIENT TRACKING commands, the check never panics and never
    misses a reply, and it succeeds exactly if the server accepted each of
    them. *)
Lemma setup_verdict_checked `{CargoPkgVersion} server i check_username cache_config :
  let '(p, components) := connection_setup_pipeline i check_username cache_config in
  check_connection_setup (map server (commands p)) components =
    Some (setup_verdict server i check_username cache_config).
Proof.
  unfold connection_setup_pipeline, setup_verdict.
  destruct (supports_resp3 (info_protocol i)); [|destruct (info_password i)];
    destruct (info_db i =? 0); simpl negb; cbv iota;
    destruct cache_config; destruct (skip_set_lib_name i); reflexivity.
Qed.

(** Nothing to send is nothing to check. *)
Lemma setup_verdict_empty `{CargoPkgVersion} server i check_username cache_config :
  Pipeline_is_empty (connection_setup_pipeline i check_username cache_config).1 = true ->
  setup_verdict server i check_username cache_config = Ok Succeeded.
Proof.
  unfold connection_setup_pipeline, setup_verdict.
  destruct (supports_resp3 (info_protocol i)); [|destruct (info_password i)];
    destruct (info_db i =? 0); simpl negb; cbv iota;
    destruct cache_config; destruct (skip_set_lib_name i); done.
Qed.

(** ** URLs *)

Lemma trim_start_matches_none c s : match s with b :: _ => b <> c | [] => True end ->
  trim_start_matches c s = s.
Proof. destruct s as [|b s]; [done|]. simpl. intros Hb. by rewrite bool_decide_eq_false_2. Qed.

Lemma trim_matches_none c s : c ∉ s -> trim_matches c s = s.
Proof.
  intros Hc. unfold trim_matches, trim_end_matches. rewrite (trim_start_matches_none c s).
  - rewrite (trim_start_matches_none c (reverse s)); [apply reverse_involutive|].
    destruct (reverse s) as [|b r] eqn:E; [done|]. intros ->. apply Hc.
    rewrite <- (reverse_involutive s), E, reverse_cons. set_solver.
  - destruct s; [done|]. intros ->. set_solver.
Qed.

Lemma slash_not_dec n : SLASH ∉ itoa n.
Proof.
  intros Hin. pose proof (itoa_chars n) as Hf.
  eapply Forall_forall in Hf; [|exact Hin]. destruct Hf as [Hf|Hf]; [done|].
  unfold is_digit in Hf. assert (byte_Z SLASH = 47) by reflexivity. lia.
Qed.

(** The path of a database number. *)
Lemma trim_matches_db n : trim_matches SLASH (SLASH :: itoa n) = itoa n.
Proof.
  rewrite <- (trim_matches_none SLASH (itoa n)) at 2 by apply slash_not_dec.
  unfold trim_matches. simpl. done.
Qed.

(** The protocol a query asks for: that of the last [protocol] in it, RESP2 if
    there is none. *)
Definition asks_for (pairs : list (bytes * bytes)) (proto : ProtocolVersion) : Prop :=
  match last (List.filter (fun p => bytes_eqb p.1 (bs "protocol")) pairs) with
  | None => proto = RESP2
  | Some (_, v) => v ∈ [bs "2"; bs "resp2"] /\ proto = RESP2 \/ v ∈ [bs "3"; bs "resp3"] /\ proto = RESP3
  end.

Lemma collect_map_last (pairs : list (bytes * bytes)) k :
  collect_map pairs !! k = snd <$> last (List.filter (fun p => bytes_eqb p.1 k) pairs).
Proof.
  induction pairs as [|[k' v] pairs IH] using rev_ind; [done|].
  unfold collect_map in *. rewrite foldl_app, List.filter_app. cbn [foldl List.filter].
  destruct (bytes_eqb (k', v).1 k) eqn:E; cbn [fst] in *.
  - apply bytes_eqb_true in E as ->. by rewrite lookup_insert_eq, last_snoc.
  - rewrite lookup_insert_ne, IH, app_nil_r; [done|]. intros ->. by rewrite bytes_eqb_refl in E.
Qed.

Lemma asks_for_parsed pairs proto : asks_for pairs proto -> parse_protocol (collect_map pairs) = Ok proto.
Proof.
  unfold asks_for, parse_protocol. rewrite collect_map_last.
  destruct (last _) as [[k v]|]; [|by intros ->]. cbn [fmap option_fmap option_map snd]. rewrite !elem_of_cons.
  intros [[[->|[->|[]%not_elem_of_nil]] ->]|[[->|[->|[]%not_elem_of_nil]] ->]]; done.
Qed.

(** What a URL may ask for besides: the database of its path, if any, and
    credentials that decode. *)
Definition names_db (p : bytes) (n : Z) : Prop :=
  p ∈ [[]; [SLASH]] /\ n = 0 \/ p = SLASH :: itoa n /\ in_i64 n.
Definition decodes `{UrlCrate} (s : bytes) : Prop := utf8_valid (percent_decode s) = true.

Lemma names_db_parsed p n : names_db p n ->
  match trim_matches SLASH p with [] => Ok 0 | path => parse_db path end = Ok n.
Proof.
  unfold names_db. rewrite !elem_of_cons. intros [[[->|[->|[]%not_elem_of_nil]] ->]|[-> Hn]]; [done..|].
  rewrite trim_matches_db. assert (parse_db (itoa n) = Ok n) as Hdb
    by (unfold parse_db; rewrite parse_int_itoa; [done|unfold i64_ty, i64_min; simpl; lia|done]).
  destruct (itoa n) eqn:E; [by destruct (itoa_nonempty n)|]. exact Hdb.
Qed.

Lemma decode_part_decodes `{UrlCrate} what s : decodes s -> decode_part what s = Ok (percent_decode s).
Proof. intros Hs. unfold decode_part, from_utf8. unfold decodes in Hs. by rewrite Hs. Qed.

Lemma tcp_addr_understood `{UrlCrate} `{TlsFeature} url h port (tls insecure : bool) :
  scheme url ∈ (if tls then [bs "rediss"; bs "valkeys"] else [bs "redis"; bs "valkey"]) ->
  (tls = true -> fragment url = if insecure then Some (bs "insecure") else None) ->
  tcp_addr url h port =
    if tls then if tls_enabled then Ok (TcpTls h port insecure None)
                else invalid_config "can't connect with TLS, the feature is not enabled"
    else Ok (Tcp h port).
Proof.
  unfold tcp_addr. destruct tls; rewrite !elem_of_cons; intros [Hs|[Hs|[]%not_elem_of_nil]] Hf; rewrite Hs; simpl;
    try done; rewrite Hf by done; destruct insecure; by destruct tls_enabled.
Qed.

(** C30. A TCP URL is understood as written, for each of the four schemes and with
    a domain, an IPv4 or an IPv6 address as its host (the wildcard addresses
    excepted, which are no hosts to connect to): the host, the port (6379
    by default), the database of the path (0 without one), the decoded user name
    and password, if any, and the protocol of the query (RESP2 without one)
    become the settings of the connection; it uses TLS exactly for [rediss] and
    [valkeys], where [#insecure] switches verification off, and such a URL is
    refused without the TLS feature. *)
Theorem url_understood `{UrlCrate} `{TlsFeature} `{TargetOs} (url : Url) h (tls insecure : bool) n proto :
  scheme url ∈ (if tls then [bs "rediss"; bs "valkeys"] else [bs "redis"; bs "valkey"]) ->
  url_host url ∈ [Some (Domain h); Some (Ipv4 h); Some (Ipv6 h)] -> h ∉ [bs "0.0.0.0"; bs "::"] ->
  (tls = true -> fragment url = if insecure then Some (bs "insecure") else None) ->
  names_db (path url) n -> decodes (url_username url) ->
  (forall pw, url_password url = Some pw -> decodes pw) -> asks_for (query_pairs url) proto ->
  let port := default 6379 (url_port url) in
  if tls && negb tls_enabled then exists e, url_into_connection_info url = Err e /\ kind e = InvalidClientConfig
  else url_into_connection_info url = Ok
    {| addr := if tls then TcpTls h port insecure None else Tcp h port;
       redis_settings :=
         {| info_db := n;
            info_username := if decide (url_username url = []) then None else Some (percent_decode (url_username url));
            info_password := percent_decode <$> url_password url; info_protocol := proto;
            skip_set_lib_name := false; lib_name := None; lib_ver := None |};
       tcp_settings := TcpSettings_default |}.
Proof.
  intros Hs Hh Hw Hf Hdb Hu Hpw Hq port. pose proof (tcp_addr_understood url h port tls insecure Hs Hf) as Haddr.
  assert (url_into_connection_info url = url_to_tcp_connection_info url) as ->.
  { unfold url_into_connection_info. destruct tls; rewrite !elem_of_cons in Hs;
      destruct Hs as [Hs|[Hs|[]%not_elem_of_nil]]; by rewrite Hs. }
  assert (tcp_host url = Ok h) as Hhost.
  { unfold tcp_host. assert (is_wildcard_address h = false) as Hwild.
    { apply not_true_iff_false. unfold is_wildcard_address, one_of. rewrite existsb_exists.
      intros (x & Hx & ->%bytes_eqb_true). apply Hw. destruct Hx as [<-|[<-|[]]]; set_solver. }
    rewrite !elem_of_cons in Hh. by destruct Hh as [Hh|[Hh|[Hh|[]%not_elem_of_nil]]]; rewrite Hh, Hwild. }
  unfold url_to_tcp_connection_info. rewrite Hhost. cbn [mbind result_bind]. change (default DEFAULT_PORT (url_port url)) with port. cbv zeta. rewrite Haddr.
  destruct tls; [destruct tls_enabled|]; cbn [andb negb mbind result_bind]; try by eexists.
  all: rewrite (names_db_parsed _ _ Hdb), (asks_for_parsed _ _ Hq); cbn [mbind result_bind].
  all: destruct (url_username url) as [|u us] eqn:Eu; [|rewrite decode_part_decodes by done]; cbn.
  all: destruct (url_password url) as [pw|]; [rewrite decode_part_decodes by auto|]; done.
Qed.

(** [valkeys://user:secret@[fe80::1]/3?protocol=resp3] *)
Lemma url_understood_witness :
  let _ : UrlCrate := {| url_parse _ := None; percent_decode s := s |} in
  let _ : TlsFeature := true in let _ : TargetOs := true in
  url_into_connection_info {| scheme := bs "valkeys"; url_host := Some (Ipv6 (bs "fe80::1"));
    url_port := None; fragment := None; path := bs "/3"; url_username := bs "user";
    url_password := Some (bs "secret"); query_pairs := [(bs "protocol", bs "resp3")];
    to_file_path := None |} = Ok
  {| addr := TcpTls (bs "fe80::1") 6379 false None;
     redis_settings := {| info_db := 3; info_username := Some (bs "user");
       info_password := Some (bs "secret"); info_protocol := RESP3; skip_set_lib_name := false;
       lib_name := None; lib_ver := None |};
     tcp_settings := TcpSettings_default |}.
Proof.
  intros U T O.
  set (url := {| scheme := bs "valkeys"; url_host := Some (Ipv6 (bs "fe80::1"));
    url_port := None; fragment := None; path := bs "/3"; url_username := bs "user";
    url_password := Some (bs "secret"); query_pairs := [(bs "protocol", bs "resp3")];
    to_file_path := None |}).
  assert (scheme url ∈ [bs "rediss"; bs "valkeys"]) as Hs by (right; left).
  assert (url_host url ∈ [Some (Domain (bs "fe80::1")); Some (Ipv4 (bs "fe80::1")); Some (Ipv6 (bs "fe80::1"))]) as Hh
    by (right; right; left).
  assert (bs "fe80::1" ∉ [bs "0.0.0.0"; bs "::"]) as Hw
    by (by rewrite !elem_of_cons; intros [?|[?|[]%not_elem_of_nil]]).
  assert (names_db (path url) 3) as Hdb by (right; split; [reflexivity|by vm_compute]).
  assert (asks_for (query_pairs url) RESP3) as Hq by (right; split; [right; left|done]).
  assert (decodes (url_username url)) as Hu by reflexivity.
  assert (forall pw, url_password url = Some pw -> decodes pw) as Hp by (by intros pw [= <-]).
  exact (url_understood url (bs "fe80::1") true false 3 RESP3 Hs Hh Hw (fun _ => eq_refl) Hdb Hu Hp Hq).
Defined.

(** An address that is refused is never connected to: every TCP URL that is
    accepted names a host that is not a wildcard and a database in range. *)
Lemma url_accepted_sound `{UrlCrate} `{TlsFeature} `{TargetOs} url i :
  url_to_tcp_connection_info url = Ok i ->
  match addr i with
  | Tcp h _ | TcpTls h _ _ _ => is_wildcard_address h = false
  | Unix _ => False
  end.
Proof.
  unfold url_to_tcp_connection_info, tcp_host, tcp_addr. intros Hi.
  destruct (url_host url) as [h|]; [|done].
  assert (exists s, (match h with Domain s | Ipv4 s | Ipv6 s => s end) = s) as [s Hs] by eauto.
  destruct h; simpl in Hs, Hi; subst; destruct (is_wildcard_address s) eqn:Ew; try done;
    unfold mbind, result_bind in Hi; cases.
Qed.
