(* ===== verification/Connection.v ===== *)
(** * The synchronous connection: the second half of [redis/src/connection.rs]

    [Connection] with its requests, the exit from the pub/sub state and
    [PubSub].  The socket is part of the state: [incoming] are the results of
    the coming calls of [parse_value] on the reader, a value or an error (a
    read timeout is an I/O error, the end of the stream is [UnexpectedEof]);
    when there is none left the call waits.  [writes] are the results of the
    coming calls of [write_all], which succeed when nothing is listed.  [sent]
    and [pushed] record what was written and what the push sender was given.

    The TLS and Unix variants of [ActualConnection] treat the flag [open] in
    the same way as the TCP one.  Every iteration of a loop reads a message, so
    the number of messages is enough fuel; a loop that runs out of it waits. *)

From S2P Require Import Prelude Text Float64 Combine Errors Types Parser Codec Cmd Convert Pipeline.
From S2P Require Import Slots Routing Multiplexed Caching Effects ConnInfo.

Record Connection := {
  open : bool;
  db : Z;
  pubsub : bool;
  protocol : ProtocolVersion;
  push_sender : bool;
  messages_to_skip : nat;
  incoming : list (result RedisError Value);
  writes : list (option io_ErrorKind);
  sent : list bytes;
  pushed : list PushInfo
}.

Definition with_open (c : Connection) (b : bool) : Connection :=
  {| open := b; db := db c; pubsub := pubsub c; protocol := protocol c; push_sender := push_sender c;
     messages_to_skip := messages_to_skip c; incoming := incoming c; writes := writes c;
     sent := sent c; pushed := pushed c |}.
Definition with_pubsub (c : Connection) (b : bool) : Connection :=
  {| open := open c; db := db c; pubsub := b; protocol := protocol c; push_sender := push_sender c;
     messages_to_skip := messages_to_skip c; incoming := incoming c; writes := writes c;
     sent := sent c; pushed := pushed c |}.
Definition with_skip (c : Connection) (n : nat) : Connection :=
  {| open := open c; db := db c; pubsub := pubsub c; protocol := protocol c; push_sender := push_sender c;
     messages_to_skip := n; incoming := incoming c; writes := writes c;
     sent := sent c; pushed := pushed c |}.
Definition with_incoming (c : Connection) (l : list (result RedisError Value)) : Connection :=
  {| open := open c; db := db c; pubsub := pubsub c; protocol := protocol c; push_sender := push_sender c;
     messages_to_skip := messages_to_skip c; incoming := l; writes := writes c;
     sent := sent c; pushed := pushed c |}.
Definition with_writes (c : Connection) (l : list (option io_ErrorKind)) (s : list bytes) : Connection :=
  {| open := open c; db := db c; pubsub := pubsub c; protocol := protocol c; push_sender := push_sender c;
     messages_to_skip := messages_to_skip c; incoming := incoming c; writes := l;
     sent := s; pushed := pushed c |}.

Definition set_push_sender (c : Connection) : Connection :=
  {| open := open c; db := db c; pubsub := pubsub c; protocol := protocol c; push_sender := true;
     messages_to_skip := messages_to_skip c; incoming := incoming c; writes := writes c;
     sent := sent c; pushed := pushed c |}.

(** ** Push messages *)

Definition send_push (c : Connection) (push : PushInfo) : Connection :=
  if push_sender c then
    {| open := open c; db := db c; pubsub := pubsub c; protocol := protocol c;
       push_sender := push_sender c; messages_to_skip := messages_to_skip c; incoming := incoming c;
       writes := writes c; sent := sent c; pushed := pushed c ++ [push] |}
  else c.

Definition try_send (c : Connection) (value : result RedisError Value) : Connection :=
  match value with
  | Ok (Push kind data) => send_push c {| push_kind := kind; push_data := data |}
  | _ => c
  end.

Definition send_disconnect (c : Connection) : Connection := send_push c PushInfo_disconnect.
Definition close_connection (c : Connection) : Connection := with_open (send_disconnect c) false.

(** ** Reading and writing *)

(** One result of the reader: the value or error to return, or [None] when it
    is skipped. *)
Definition read_step (is_response : bool) (result : Prelude.result RedisError Value) (c : Connection)
    : option (Prelude.result RedisError Value) * Connection :=
  let c := try_send c result in
  match (match result with Ok _ => None | Err err => as_io_error err end) with
  | None =>
      match messages_to_skip c with
      | S n => (None, with_skip c n)
      | O => (Some result, c)
      end
  | Some UnexpectedEof => (Some result, close_connection c)
  | Some _ =>
      (Some result, if is_response then with_skip c (S (messages_to_skip c)) else c)
  end.

Fixpoint read_loop (is_response : bool) (messages : list (result RedisError Value)) (c : Connection)
    : exec Connection Value :=
  match messages with
  | [] => Waiting
  | m :: messages =>
      match read_step is_response m (with_incoming c messages) with
      | (Some result, c) => Return result c
      | (None, c) => read_loop is_response messages c
      end
  end.
Definition read (is_response : bool) : action Connection Value :=
  fun c => read_loop is_response (incoming c) c.
Definition recv_response : action Connection Value := read true.

(** [ActualConnection::send_bytes]. *)
Definition actual_send_bytes (b : bytes) : action Connection Value := fun c =>
  match writes c with
  | Some k :: rest =>
      let e := redis_error_of_io k in
      let c := with_writes c rest (sent c) in
      Return (Err e) (if is_unrecoverable_error e then with_open c false else c)
  | _ => Return (Ok Okay) (with_writes c (tail (writes c)) (sent c ++ [b]))
  end.

Definition send_bytes (b : bytes) : action Connection Value := fun c =>
  match b with
  | [] => Return (Err make_empty_command) c
  | _ =>
      match actual_send_bytes b c with
      | Return (Err e) c =>
          Return (Err e) (if supports_resp3 (protocol c) && is_connection_dropped e
                          then send_disconnect c else c)
      | r => r
      end
  end.
Definition send_packed_command (b : bytes) : action Connection unit :=
  _ ← send_bytes b; mret ().

(** The messages that are left bound the iterations of a loop around [read]. *)
Definition with_fuel {A} (loop : nat -> action Connection A) : action Connection A :=
  fun c => loop (S (length (incoming c))) c.

(** ** Leaving the pub/sub state *)

(** The two flags [received_unsub] and [received_punsub] with the answer of the
    function. *)
Definition resp2_is_pub_sub_state_cleared (flags : bool * bool) (kind : bytes) (num : Z)
    : (bool * bool) * bool :=
  let '(unsub, punsub) := flags in
  let flags := match kind with
               | x75 :: _ => (true, punsub)
               | x70 :: _ => (unsub, true)
               | _ => (unsub, punsub)
               end in
  (flags, flags.1 && flags.2 && (num =? 0)%Z).

Definition resp3_is_pub_sub_state_cleared (flags : bool * bool) (kind : PushKind) (num : Z)
    : (bool * bool) * bool :=
  let '(unsub, punsub) := flags in
  let flags := match kind with
               | Unsubscribe => (true, punsub)
               | PUnsubscribe => (unsub, true)
               | _ => (unsub, punsub)
               end in
  (flags, flags.1 && flags.2 && (num =? 0)%Z).

Definition no_sub_err_is_pub_sub_state_cleared (flags : bool * bool) (err : ServerError)
    : (bool * bool) * bool :=
  let '(unsub, punsub) := flags in
  let says p := is_some_and (ServerError_details err) (starts_with (bs p)) in
  let flags := (unsub || says "'unsub", punsub || says "'punsub") in
  (flags, flags.1 && flags.2).

(** What one response does to the flags: whether the state is cleared. *)
Definition clear_step (flags : bool * bool) (resp : Value)
    : result RedisError ((bool * bool) * bool) :=
  match resp with
  | Push kind data =>
      match data with
      | _ :: Int num :: _ => Ok (resp3_is_pub_sub_state_cleared flags kind num)
      | _ => Ok (flags, false)
      end
  | ServerErr err =>
      if bool_decide (ServerError_kind err = Some NoSub)
      then Ok (no_sub_err_is_pub_sub_state_cleared flags err)
      else Err (redis_error_of_server err)
  | Array vec =>
      '(kind, _, num) ← into_redis_error
        (from_redis_value (frv_tuple3 (frv_vec frv_u8) frv_unit (frv_int i64_ty)) (Array vec));
      Ok (resp2_is_pub_sub_state_cleared flags (map Z_byte kind) num)
  | _ => Err (redis_error_of Client "Unexpected unsubscribe response")
  end.

Fixpoint clear_loop (fuel : nat) (flags : bool * bool) : action Connection unit :=
  match fuel with
  | O => wait
  | S fuel =>
      resp ← recv_response;
      '(flags, cleared) ← lift (clear_step flags resp);
      if cleared : bool then mret () else clear_loop fuel flags
  end.

Definition clear_active_subscriptions : action Connection unit :=
  _ ← send_bytes (get_packed_command (cmd "UNSUBSCRIBE"));
  _ ← send_bytes (get_packed_command (cmd "PUNSUBSCRIBE"));
  with_fuel (fun fuel => clear_loop fuel (false, false)).

Definition exit_pubsub : action Connection unit := fun c =>
  match clear_active_subscriptions c with
  | Return (Ok u) c => Return (Ok u) (with_pubsub c false)
  | Return (Err e) c => Return (Err e) (with_pubsub c true)
  | r => r
  end.

(** [if self.pubsub { self.exit_pubsub()?; }]. *)
Definition leave_pubsub : action Connection unit :=
  stuck ← gets pubsub; if stuck : bool then exit_pubsub else mret ().

(** ** Requests *)

Definition is_push (v : Value) : bool := match v with Push _ _ => true | _ => false end.

Fixpoint reply_loop (fuel : nat) : action Connection Value :=
  match fuel with
  | O => wait
  | S fuel => val ← read true; if is_push val then reply_loop fuel else mret val
  end.

Definition conn_req_command (c : Cmd) : action Connection Value :=
  _ ← leave_pubsub;
  _ ← send_bytes (get_packed_command c);
  if is_no_response c then mret Nil else with_fuel reply_loop.

Definition conn_req_packed_command (b : bytes) : action Connection Value :=
  _ ← leave_pubsub;
  _ ← send_bytes b;
  with_fuel reply_loop.

(** The variables of the loop of [req_packed_commands]. *)
Record replies := {
  rv : list Value;
  first_err : option RedisError;
  found_errors : list (Z * ServerError);
  count : nat;
  idx : nat
}.

Section pipelined.
Context `{BuildProfile}.

(** One response; [None] is the overflow of [idx - 1]. *)
Definition replies_step (offset : nat) (r : replies) (response : result RedisError Value)
    : option replies :=
  let next rv first_err found_errors count :=
    {| rv := rv; first_err := first_err; found_errors := found_errors; count := count; idx := S (idx r) |} in
  match response with
  | Ok (ServerErr err) =>
      if (idx r <? offset)%nat then
        i ← usize_sub (Z.of_nat (idx r)) 1;
        Some (next (rv r) (first_err r) (found_errors r ++ [(i, err)]) (count r))
      else Some (next (rv r ++ [ServerErr err]) (first_err r) (found_errors r) (count r))
  | Ok item =>
      if is_push item then Some (next (rv r) (first_err r) (found_errors r) (S (count r)))
      else if (offset <=? idx r)%nat
      then Some (next (rv r ++ [item]) (first_err r) (found_errors r) (count r))
      else Some (next (rv r) (first_err r) (found_errors r) (count r))
  | Err err =>
      Some (next (rv r) (match first_err r with None => Some err | e => e end) (found_errors r) (count r))
  end.

Fixpoint replies_loop (fuel : nat) (offset : nat) (r : replies) : action Connection replies :=
  if (idx r <? offset + count r)%nat then
    match fuel with
    | O => wait
    | S fuel =>
        response ← attempt (read true);
        r ← or_panic (replies_step offset r response);
        replies_loop fuel offset r
    end
  else mret r.

Definition conn_req_packed_commands (b : bytes) (offset count : nat) : action Connection (list Value) :=
  _ ← leave_pubsub;
  _ ← send_bytes b;
  r ← with_fuel (fun fuel => replies_loop fuel offset
        {| rv := []; first_err := None; found_errors := []; count := count; idx := 0 |});
  match found_errors r with
  | [] => match first_err r with None => mret (rv r) | Some e => fail e end
  | errors => fail (make_aborted_transaction errors)
  end.

#[export] Instance Connection_like : ConnectionLike Connection := {|
  req_packed_command := conn_req_packed_command;
  req_packed_commands := conn_req_packed_commands;
  req_command := conn_req_command;
  supports_pipelining _ := true
|}.

(** [check_connection]: whether a PING is answered with a string. *)
Definition check_connection `{F64Display} : action Connection bool :=
  r ← attempt (Cmd_query frv_string (cmd "PING")); mret (is_ok r).

(** [subscribe_resp3] and the three like it. *)
Definition subscription_resp3 (name : string) (channel : list bytes) : action Connection unit :=
  p ← gets protocol;
  if negb (supports_resp3 p)
  then fail (redis_error_of InvalidClientConfig "RESP3 is required for this command")
  else Cmd_exec (set_no_response (cmd_args name channel) true).
Definition subscribe_resp3 := subscription_resp3 "SUBSCRIBE".
Definition psubscribe_resp3 := subscription_resp3 "PSUBSCRIBE".
Definition unsubscribe_resp3 := subscription_resp3 "UNSUBSCRIBE".
Definition punsubscribe_resp3 := subscription_resp3 "PUNSUBSCRIBE".

(** ** Setting up *)

Definition execute_connection_pipeline (p : Pipeline * ConnectionSetupComponents)
    : action Connection AuthResult :=
  let '(pipeline, instructions) := p in
  if Pipeline_is_empty pipeline then mret Succeeded
  else
    results ← conn_req_packed_commands (get_packed_pipeline pipeline) 0 (Pipeline_len pipeline);
    r ← or_panic (check_connection_setup results instructions);
    lift r.

(** The connection around a fresh socket. *)
Definition fresh_connection (i : RedisConnectionInfo) (incoming : list (result RedisError Value))
    (writes : list (option io_ErrorKind)) : Connection :=
  {| open := true; db := info_db i; pubsub := false; protocol := info_protocol i; push_sender := false;
     messages_to_skip := 0; incoming := incoming; writes := writes; sent := []; pushed := [] |}.

Definition setup_connection `{CargoPkgVersion} (i : RedisConnectionInfo)
    (cache_config : option CacheConfig) : action Connection unit :=
  auth ← execute_connection_pipeline (connection_setup_pipeline i true cache_config);
  match auth with
  | ShouldRetryWithoutUsername =>
      _ ← execute_connection_pipeline (connection_setup_pipeline i false cache_config);
      mret ()
  | Succeeded => mret ()
  end.
End pipelined.

(** ** Messages *)

Record Msg := { payload : Value; channel : Value; pattern : option Value }.

Definition from_push_info (push_info : PushInfo) : option Msg :=
  match push_kind push_info with
  | Message | SMessage =>
      match push_data push_info with
      | channel :: payload :: _ => Some {| payload := payload; channel := channel; pattern := None |}
      | _ => None
      end
  | PMessage =>
      match push_data push_info with
      | pattern :: channel :: payload :: _ =>
          Some {| payload := payload; channel := channel; pattern := Some pattern |}
      | _ => None
      end
  | _ => None
  end.

Section messages.
Context `{F64Display}.

Definition from_owned_value (value : Value) : option Msg :=
  match value with
  | Push kind data => from_push_info {| push_kind := kind; push_data := data |}
  | _ =>
      raw_msg ← to_option (from_redis_value (frv_vec frv_value) value);
      match raw_msg with
      | [] => None
      | ty :: iter =>
          msg_type ← to_option (from_redis_value frv_string ty);
          if bytes_eqb msg_type (bs "message") then
            match iter with
            | channel :: payload :: _ => Some {| payload := payload; channel := channel; pattern := None |}
            | _ => None
            end
          else if bytes_eqb msg_type (bs "pmessage") then
            match iter with
            | pattern :: channel :: payload :: _ =>
                Some {| payload := payload; channel := channel; pattern := Some pattern |}
            | _ => None
            end
          else None
      end
  end.
Definition from_value (value : Value) : option Msg := from_owned_value value.
End messages.

Definition get_channel {T} (F : FromRedisValue T) (m : Msg) : result RedisError T :=
  into_redis_error (from_redis_value_ref F (channel m)).
Definition get_channel_name (m : Msg) : bytes :=
  match channel m with
  | BulkString b => match from_utf8 b with Ok s => s | Err _ => bs "?" end
  | _ => bs "?"
  end.
Definition get_payload {T} (F : FromRedisValue T) (m : Msg) : result RedisError T :=
  into_redis_error (from_redis_value_ref F (payload m)).
Definition get_payload_bytes (m : Msg) : bytes :=
  match payload m with BulkString b => b | _ => [] end.
Definition from_pattern (m : Msg) : bool := bool_decide (is_Some (pattern m)).
Definition get_pattern {T} (F : FromRedisValue T) (m : Msg) : result RedisError T :=
  into_redis_error (from_redis_value_ref F (default Nil (pattern m))).

(** ** PubSub *)

(** A [PubSub] holds the connection until it is dropped. *)
Record PubSub := { con : Connection; waiting_messages : list Msg }.

(** An operation of the connection, from inside a [PubSub]. *)
Definition on_con {A} (m : action Connection A) : action PubSub A := fun p =>
  match m (con p) with
  | Return r c => Return r {| con := c; waiting_messages := waiting_messages p |}
  | Waiting => Waiting
  | Panicked => Panicked
  end.
Definition push_back (m : Msg) : action PubSub unit :=
  modify (fun p => {| con := con p; waiting_messages := waiting_messages p ++ [m] |}).

Definition with_pubsub_fuel {A} (loop : nat -> action PubSub A) : action PubSub A :=
  fun p => loop (S (length (incoming (con p)))) p.

Definition as_pubsub (c : Connection) : PubSub := {| con := c; waiting_messages := [] |}.

(** [Drop for PubSub], which ignores the result. *)
Definition drop_pubsub (p : PubSub) : exec Connection unit :=
  match exit_pubsub (con p) with
  | Return _ c => Return (Ok ()) c
  | r => r
  end.

Section pubsub.
Context `{F64Display}.

Fixpoint response_loop (fuel : nat) : action PubSub Value :=
  match fuel with
  | O => wait
  | S fuel =>
      response ← on_con recv_response;
      match from_value response with
      | Some msg => _ ← push_back msg; response_loop fuel
      | None => mret response
      end
  end.

(** The flag that the command expects no response does not change the packed
    command. *)
Definition cache_messages_until_received_response (c : Cmd) (is_sub_unsub : bool) : action PubSub Value :=
  p ← gets (fun p => protocol (con p));
  let c := set_no_response c (supports_resp3 p && is_sub_unsub) in
  _ ← on_con (send_packed_command (get_packed_command c));
  with_pubsub_fuel response_loop.

Definition subscription (name : string) (channels : list bytes) : action PubSub unit :=
  _ ← cache_messages_until_received_response (cmd_args name channels) true; mret ().
Definition subscribe := subscription "SUBSCRIBE".
Definition psubscribe := subscription "PSUBSCRIBE".
Definition unsubscribe := subscription "UNSUBSCRIBE".
Definition punsubscribe := subscription "PUNSUBSCRIBE".

Definition ping_message {T} (F : FromRedisValue T) (message : list bytes) : action PubSub T :=
  v ← cache_messages_until_received_response (cmd_args "PING" message) false;
  lift (into_redis_error (from_redis_value F v)).
Definition ping {T} (F : FromRedisValue T) : action PubSub T :=
  v ← cache_messages_until_received_response (cmd "PING") false;
  lift (into_redis_error (from_redis_value F v)).

Fixpoint message_loop (fuel : nat) : action PubSub Msg :=
  match fuel with
  | O => wait
  | S fuel =>
      v ← on_con (read false);
      match from_owned_value v with
      | Some msg => mret msg
      | None => message_loop fuel
      end
  end.

Definition get_message : action PubSub Msg := fun p =>
  match waiting_messages p with
  | msg :: rest => Return (Ok msg) {| con := con p; waiting_messages := rest |}
  | [] => with_pubsub_fuel message_loop p
  end.
End pubsub.

(** ** Every reply reaches its request *)

(** A message that is an answer of the server: a value, or an error that is not
    one of the socket. *)
Definition is_answer (m : result RedisError Value) : bool :=
  match m with Ok _ => true | Err e => bool_decide (as_io_error e = None) end.
Definition answers (l : list (result RedisError Value)) : list (result RedisError Value) :=
  filter (fun m => is_answer m = true) l.

(** Neither a push message nor the end of the stream. *)
Definition ordinary (m : result RedisError Value) : Prop :=
  match m with Ok v => is_push v = false | Err e => as_io_error e <> Some UnexpectedEof end.

(** What requests do not change. *)
Definition same_mode (c c' : Connection) : Prop :=
  open c' = open c /\ db c' = db c /\ pubsub c' = pubsub c /\ protocol c' = protocol c /\
  push_sender c' = push_sender c /\ writes c' = writes c /\ pushed c' = pushed c.

#[export] Instance same_mode_preorder : PreOrder same_mode.
Proof. unfold same_mode. split; [done|]. intros c1 c2 c3. naive_solver congruence. Qed.

(** An ordinary message is skipped, returned as the answer that is due, or a
    failure of the socket after which one more answer is to be skipped. *)
Lemma read_step_ordinary m c r c' : ordinary m -> read_step true m c = (r, c') ->
  same_mode c c' /\ sent c' = sent c /\ incoming c' = incoming c /\
  match r with
  | None => is_answer m = true /\ messages_to_skip c = S (messages_to_skip c')
  | Some r => r = m /\ if is_answer m then messages_to_skip c = O /\ messages_to_skip c' = O
                       else messages_to_skip c' = S (messages_to_skip c)
  end.
Proof.
  unfold read_step, ordinary, is_answer. intros Hm Hr. destruct m as [v|e]; simpl in *.
  - destruct v; try done; simpl in *; cases.
  - destruct (as_io_error e) as [k|] eqn:E; [|cases].
    destruct k; try done; simpl in *; simplify_eq; done.
Qed.

(** [read] returns the answer behind those to skip, or an error of the socket
    that came before it. *)
Lemma read_loop_ordinary l c r c' : Forall ordinary l -> incoming c = l ->
  read_loop true l c = Return r c' ->
  same_mode c c' /\ sent c' = sent c /\ Forall ordinary (incoming c') /\
  (if is_answer r
   then answers l !! messages_to_skip c = Some r /\ messages_to_skip c' = O /\
        answers (incoming c') = drop (S (messages_to_skip c)) (answers l)
   else exists j, (j <= messages_to_skip c)%nat /\
        messages_to_skip c' = S (messages_to_skip c - j) /\
        answers (incoming c') = drop j (answers l)).
Proof.
  intros Hl Hc. revert c Hc. induction Hl as [|m l Hm Hl IH]; intros c Hc; simpl; [done|].
  destruct (read_step _ _ _) as [[r'|] c1] eqn:E; intros Hr;
    apply read_step_ordinary in E as (Hs & Hsent & Hi & Hm'); try done; simpl in *.
  - destruct Hm' as [-> Hk]. injection Hr as <- <-. rewrite Hi. split_and!; try done.
    unfold answers. rewrite filter_cons. destruct (is_answer m) eqn:Ea; simpl.
    + destruct Hk as [-> ->]. done.
    + exists O. rewrite Hk. split_and!; [lia|f_equal; lia|done].
  - destruct Hm' as [Ha Hk]. apply IH in Hr as (Hs' & Hsent' & Hf & Hr); [|done].
    split_and!; [etrans; [exact Hs|exact Hs']|congruence|done|].
    unfold answers. rewrite filter_cons, Ha. rewrite Hk. simpl.
    destruct (is_answer r); [done|]. destruct Hr as (j & Hj & Hk' & Hd).
    exists (S j). simpl. split_and!; [lia|lia|done].
Qed.

Lemma ordinary_not_push m v : ordinary m -> m = Ok v -> is_push v = false.
Proof. by intros Hm ->. Qed.

(** The loop around [read] ends with its first result. *)
Lemma reply_loop_ordinary fuel c : Forall ordinary (incoming c) ->
  reply_loop (S fuel) c = read true c.
Proof.
  intros Hf. simpl. unfold mbind, action_bind. destruct (read true c) as [[v|e] c'| |] eqn:E; try done.
  assert (ordinary (Ok v)) as Hv; [|by rewrite Hv].
  unfold read in E. apply read_loop_ordinary in E as (_ & _ & _ & Hr); [|done..]. simpl in Hr.
  destruct Hr as [Hr _]. apply list_elem_of_lookup_2, list_elem_of_filter in Hr as [_ Hr].
  by eapply Forall_forall in Hf.
Qed.

(** ** A session of requests *)

(** Requests one after the other; an error of one does not keep the next from
    being sent. *)
Fixpoint session (cmds : list Cmd) : action Connection (list (result RedisError Value)) :=
  match cmds with
  | [] => mret []
  | c :: cmds =>
      r ← attempt (conn_req_command c);
      rs ← session cmds;
      mret (r :: rs)
  end.

(** A request that is sent and waits for its reply. *)
Definition expects_reply (c : Cmd) : Prop := Cmd_is_empty c = false /\ is_no_response c = false.

Lemma get_packed_command_nonempty c : Cmd_is_empty c = false -> get_packed_command c <> [].
Proof.
  unfold get_packed_command, write_packed_command, write_command_to_vec. intros ->.
  by rewrite write_command_encode.
Qed.

Lemma send_bytes_ok b c : b <> [] -> writes c = [] ->
  send_bytes b c = Return (Ok Okay) (with_writes c [] (sent c ++ [b])).
Proof.
  intros Hb Hw. unfold send_bytes, actual_send_bytes. rewrite Hw. by destruct b.
Qed.

Lemma try_send_skip c m : messages_to_skip (try_send c m) = messages_to_skip c.
Proof. unfold try_send, send_push. by repeat case_match. Qed.

(** A message that is not returned is an answer that was skipped. *)
Lemma read_step_skipped is_response m c c' : read_step is_response m c = (None, c') ->
  is_answer m = true /\ messages_to_skip c = S (messages_to_skip c').
Proof.
  unfold read_step. pose proof (try_send_skip c m) as Hk. rewrite Hk. intros E.
  unfold is_answer. destruct m as [v|e].
  - destruct (messages_to_skip c); by simplify_eq/=.
  - destruct (as_io_error e) as [[]|]; [done..|]. destruct (messages_to_skip c); by simplify_eq/=.
Qed.

Lemma read_loop_returns is_response l c : (messages_to_skip c < length (answers l))%nat ->
  exists r c', read_loop is_response l c = Return r c'.
Proof.
  revert c. induction l as [|m l IH]; intros c; simpl; [lia|].
  unfold answers. rewrite filter_cons. intros Hlen.
  destruct (read_step _ _ _) as [[r|] c1] eqn:E; [eauto|]. apply IH.
  apply read_step_skipped in E as [Ha Hk]. rewrite Ha in Hlen. simpl in *. unfold answers. lia.
Qed.

(** A request on a connection that skips [k] answers is the [read] after them. *)
Lemma req_command_read cm c : expects_reply cm -> Forall ordinary (incoming c) ->
  writes c = [] -> pubsub c = false ->
  conn_req_command cm c = read true (with_writes c [] (sent c ++ [get_packed_command cm])).
Proof.
  intros [He Hn] Hf Hw Hp. unfold conn_req_command, leave_pubsub.
  erewrite bind_ok by (erewrite bind_ok by done; rewrite Hp; done).
  erewrite bind_ok by (apply send_bytes_ok; [by apply get_packed_command_nonempty|done]).
  rewrite Hn. unfold with_fuel. by apply reply_loop_ordinary.
Qed.

(** [answers] that arrive from the [n]-th on, with [skip] of them for requests
    that were given up: the requests to come are answered from the [n + skip]-th
    on. *)
Lemma session_from cmds c G n : Forall expects_reply cmds -> Forall ordinary (incoming c) ->
  writes c = [] -> pubsub c = false -> answers (incoming c) = drop n G ->
  (length cmds + (n + messages_to_skip c) <= length G)%nat ->
  exists rs c', session cmds c = Return (Ok rs) c' /\ length rs = length cmds /\
    sent c' = sent c ++ map get_packed_command cmds /\
    forall i r, rs !! i = Some r -> is_answer r = true -> G !! (n + messages_to_skip c + i)%nat = Some r.
Proof.
  intros Hc. revert c n. induction Hc as [|cm cmds Hcm Hc IH]; intros c n Hf Hw Hp Hd Hlen; simpl in *.
  { exists [], c. rewrite app_nil_r. done. }
  set (c0 := with_writes c [] (sent c ++ [get_packed_command cm])).
  destruct (read_loop_returns true (incoming c) c0) as (r & c1 & Hr).
  { rewrite Hd, length_drop. simpl. lia. }
  assert (conn_req_command cm c = Return r c1) as Hreq by (by rewrite req_command_read).
  apply read_loop_ordinary in Hr as ((_ & _ & Hp1 & _ & _ & Hw1 & _) & Hs1 & Hf1 & Hr); [|done..].
  simpl in *. rewrite Hd in Hr.
  assert (exists n1, answers (incoming c1) = drop n1 G /\
            (n1 + messages_to_skip c1 = S (n + messages_to_skip c))%nat) as (n1 & Hd1 & Hn1).
  { destruct (is_answer r).
    - destruct Hr as (_ & -> & ->). exists (n + S (messages_to_skip c))%nat.
      rewrite drop_drop. split; [done|lia].
    - destruct Hr as (j & Hj & -> & ->). exists (n + j)%nat. rewrite drop_drop. split; [done|lia]. }
  destruct (IH c1 n1) as (rs & c' & Hses & Hl & Hsent & Hall);
    [done|congruence|congruence|done|lia|].
  exists (r :: rs), c'. split_and!; [|simpl; lia| |].
  - erewrite bind_ok by (unfold attempt; by rewrite Hreq). by erewrite bind_ok by exact Hses.
  - rewrite Hsent, Hs1. by rewrite <- app_assoc.
  - intros [|i] r' Hi Ha; simpl in *.
    + simplify_eq. rewrite Ha, lookup_drop in Hr. rewrite Nat.add_0_r. by destruct Hr as [-> _].
    + rewrite <- (Hall i r' Hi Ha). f_equal. lia.
Qed.

(** C26. On a synchronous connection that receives no push messages, requests
    sent one after the other are answered with their own replies: whatever reads
    time out in between, request [i] gets the server's [i]-th answer or an error
    of the socket, never the answer to another request; and when the server
    answers every request none waits forever. *)
Theorem sync_replies_matched cmds c : Forall expects_reply cmds -> Forall ordinary (incoming c) ->
  writes c = [] -> pubsub c = false -> messages_to_skip c = O ->
  (length cmds <= length (answers (incoming c)))%nat ->
  exists rs c', session cmds c = Return (Ok rs) c' /\ length rs = length cmds /\
    sent c' = sent c ++ map get_packed_command cmds /\
    forall i r, rs !! i = Some r -> is_answer r = true -> answers (incoming c) !! i = Some r.
Proof.
  intros Hc Hf Hw Hp Hk Hlen.
  destruct (session_from cmds c (answers (incoming c)) 0) as (rs & c' & Hs & Hl & Hsent & Hall);
    try done; [rewrite Hk; lia|].
  exists rs, c'. rewrite Hk in Hall. done.
Qed.

Definition timeout : result RedisError Value := Err (redis_error_of_io TimedOut).

(** The first request times out; its late answer is skipped for the second. *)
Lemma sync_replies_matched_witness : exists rs c',
  session [cmd_args "GET" [bs "a"]; cmd_args "GET" [bs "b"]]
    (fresh_connection RedisConnectionInfo_default [timeout; Ok (Int 1); timeout; Ok (Int 2)] [])
    = Return (Ok rs) c' /\ rs = [timeout; timeout].
Proof.
  destruct (sync_replies_matched [cmd_args "GET" [bs "a"]; cmd_args "GET" [bs "b"]]
    (fresh_connection RedisConnectionInfo_default [timeout; Ok (Int 1); timeout; Ok (Int 2)] []))
    as (rs & c' & H & _ & _ & _).
  1-6: (repeat constructor; done).
  exists rs, c'. split; [done|]. revert H. vm_compute. congruence.
Defined.

(** A push message that arrives while a late answer is due is counted as that
    answer: the next request gets the late answer of the one before. *)
Theorem push_counted_as_reply k d v w : is_push v = false ->
  exists c', session [cmd_args "GET" [bs "a"]; cmd_args "GET" [bs "b"]]
    (fresh_connection RedisConnectionInfo_default [timeout; Ok (Push k d); Ok v; Ok w] [])
    = Return (Ok [timeout; Ok v]) c'.
Proof.
  intros Hv. destruct v; try done; eexists; vm_compute; reflexivity.
Qed.

(** ** Pipelines *)

Definition non_push (vs : list Value) : list Value := filter (fun v => is_push v = false) vs.

(** The push messages among values. *)
Definition push_infos (vs : list Value) : list PushInfo :=
  omap (fun v => match v with Push k d => Some {| push_kind := k; push_data := d |} | _ => None end) vs.

(** [c] after it has read [vs]. *)
Definition after_reading (c : Connection) (vs : list Value) (rest : list (result RedisError Value))
    : Connection :=
  {| open := open c; db := db c; pubsub := pubsub c; protocol := protocol c; push_sender := push_sender c;
     messages_to_skip := messages_to_skip c; incoming := rest; writes := writes c; sent := sent c;
     pushed := pushed c ++ if push_sender c then push_infos vs else [] |}.

Lemma read_value is_response c v rest : incoming c = Ok v :: rest -> messages_to_skip c = O ->
  read is_response c = Return (Ok v) (after_reading c [v] rest).
Proof.
  intros Hi Hk. unfold read. rewrite Hi. cbn [read_loop]. unfold read_step. cbv zeta.
  rewrite try_send_skip. cbn [with_incoming messages_to_skip]. rewrite Hk. f_equal. unfold after_reading, try_send, send_push, with_incoming, push_infos.
  destruct v; simpl; destruct c as [? ? ? ? [] ? ? ? ? ?]; simpl; by rewrite ?app_nil_r.
Qed.

Lemma after_reading_app c vs ws l l' :
  after_reading (after_reading c vs l) ws l' = after_reading c (vs ++ ws) l'.
Proof.
  unfold after_reading, push_infos. simpl. f_equal. rewrite <- app_assoc, omap_app. by case_match.
Qed.

(** What the loop has collected after the values [vs]. *)
Definition collected (offset n : nat) (vs : list Value) : replies :=
  {| rv := drop offset (non_push vs); first_err := None;
     found_errors := queue_errors (take offset (non_push vs));
     count := n + (length vs - length (non_push vs)); idx := length vs |}.

(** No push message among the first [offset] values, and no error for the very
    first one. *)
Definition quiet_start (offset : nat) (vs : list Value) : Prop :=
  Forall (fun v => is_push v = false) (take offset vs) /\
  match take offset vs with ServerErr _ :: _ => False | _ => True end.

Lemma non_push_length vs : (length (non_push vs) <= length vs)%nat.
Proof. apply length_filter. Qed.
Lemma non_push_app vs ws : non_push (vs ++ ws) = non_push vs ++ non_push ws.
Proof. apply filter_app. Qed.
Lemma non_push_all vs : Forall (fun v => is_push v = false) vs -> non_push vs = vs.
Proof. induction 1; [done|]. unfold non_push in *. rewrite filter_cons_True by done. by f_equal. Qed.

Lemma replies_step_collected `{BuildProfile} offset n vs v : quiet_start offset (vs ++ [v]) ->
  replies_step offset (collected offset n vs) (Ok v) = Some (collected offset n (vs ++ [v])).
Proof.
  intros [Hq Herr]. pose proof (non_push_length vs) as Hle.
  assert (non_push (vs ++ [v]) = non_push vs ++ if is_push v then [] else [v]) as Hn.
  { rewrite non_push_app. unfold non_push at 2. rewrite filter_cons. by destruct (is_push v). }
  unfold collected. rewrite Hn, length_app, Nat.add_1_r.
  destruct (decide (length vs < offset)%nat) as [Hlt|Hge].
  - assert (Forall (fun v => is_push v = false) (vs ++ [v])) as Hall.
    { rewrite take_ge in Hq; [done|]. rewrite length_app. simpl. lia. }
    apply Forall_app in Hall as [Hvs Hall2]. assert (is_push v = false) as Hv by (by inversion Hall2).
    rewrite Hv, (non_push_all vs Hvs).
    rewrite take_ge in Herr by (rewrite length_app; simpl; lia).
    rewrite !take_ge, !drop_ge by (rewrite ?length_app; simpl; lia).
    rewrite queue_errors_snoc, Nat.sub_diag, Nat.add_0_r.
    rewrite length_app, Nat.add_1_r, Nat.sub_diag, Nat.add_0_r.
    unfold replies_step. simpl. rewrite Hv.
    destruct v; simpl; rewrite ?app_nil_r; try done.
    all: try (rewrite (proj2 (Nat.leb_gt offset (length vs))) by lia; done).
    rewrite (proj2 (Nat.ltb_lt _ _) Hlt). unfold usize_sub.
    destruct vs as [|w vs]; [done|]. rewrite (proj2 (Z.leb_le _ _)) by (simpl; lia). done.
  - assert (offset <= length (non_push vs))%nat as Ho.
    { rewrite <- (take_drop offset vs), non_push_app, length_app.
      rewrite take_app_le in Hq by lia. rewrite non_push_all by done.
      rewrite length_take. lia. }
    unfold replies_step. simpl. rewrite (proj2 (Nat.ltb_ge _ _)), (proj2 (Nat.leb_le _ _)) by lia.
    rewrite take_app_le, drop_app_le by lia.
    destruct (is_push v) eqn:Hp.
    + destruct v; try done. rewrite !app_nil_r.
      replace (n + (S (length vs) - length (non_push vs)))%nat
        with (S (n + (length vs - length (non_push vs)))) by lia. done.
    + rewrite length_app, Nat.add_1_r. by destruct v.
Qed.

Lemma collected_goes_on offset n vs :
  (idx (collected offset n vs) <? offset + count (collected offset n vs))%nat =
  (length (non_push vs) <? offset + n)%nat.
Proof.
  pose proof (non_push_length vs). simpl. apply eq_true_iff_eq. rewrite !Nat.ltb_lt. lia.
Qed.

(** The loop reads [todo] after [seen]; the last of them is the last reply. *)
Lemma replies_loop_collected `{BuildProfile} fuel offset n seen todo v rest c :
  quiet_start offset (seen ++ todo ++ [v]) -> is_push v = false ->
  length (non_push (seen ++ todo ++ [v])) = (offset + n)%nat ->
  incoming c = map Ok (todo ++ [v]) ++ rest -> messages_to_skip c = O ->
  (length todo < fuel)%nat ->
  replies_loop fuel offset (collected offset n seen) c =
    Return (Ok (collected offset n (seen ++ todo ++ [v]))) (after_reading c (todo ++ [v]) rest).
Proof.
  revert seen todo c. induction fuel as [|fuel IH]; intros seen todo c Hq Hv Hlen Hi Hk Hf; [lia|].
  cbn [replies_loop]. rewrite collected_goes_on.
  assert (length (non_push seen) < offset + n)%nat as Hlt.
  { rewrite <- Hlen, !non_push_app, !length_app. rewrite (non_push_all [v]) by auto. simpl. lia. }
  rewrite (proj2 (Nat.ltb_lt _ _) Hlt).
  assert (forall w l, quiet_start offset (seen ++ w :: l) -> quiet_start offset (seen ++ [w])) as Hpre.
  { intros w l [H1 H2]. split.
    - rewrite (app_assoc seen [w] l : seen ++ w :: l = (seen ++ [w]) ++ l) in H1.
      rewrite take_app in H1. by apply Forall_app in H1 as [? _].
    - destruct seen; [|by destruct offset]. by destruct offset. }
  destruct todo as [|w todo]; simpl in Hi.
  - rewrite (bind_ok _ _ _ (Ok v) (after_reading c [v] rest))
      by (unfold attempt; by rewrite (read_value true c v rest)).
    rewrite (bind_ok _ _ _ (collected offset n (seen ++ [v])) (after_reading c [v] rest))
      by (by rewrite replies_step_collected by eauto).
    simpl app in *. destruct fuel; cbn [replies_loop]; rewrite collected_goes_on, Hlen, Nat.ltb_irrefl; done.
  - rewrite (bind_ok _ _ _ (Ok w) (after_reading c [w] (map Ok (todo ++ [v]) ++ rest)))
      by (unfold attempt; by rewrite (read_value true c w (map Ok (todo ++ [v]) ++ rest))).
    rewrite (bind_ok _ _ _ (collected offset n (seen ++ [w]))
               (after_reading c [w] (map Ok (todo ++ [v]) ++ rest)))
      by (by rewrite replies_step_collected by eauto).
    assert ((seen ++ [w]) ++ todo ++ [v] = seen ++ w :: todo ++ [v]) as Happ by (by rewrite <- app_assoc).
    rewrite (IH (seen ++ [w]) todo); rewrite ?Happ; try done; [|simpl in *; lia].
    by rewrite after_reading_app.
Qed.

Lemma collected_nil offset n : collected offset n [] =
  {| rv := []; first_err := None; found_errors := []; count := n; idx := 0 |}.
Proof.
  unfold collected. change (non_push []) with (@nil Value). by rewrite drop_nil, take_nil, Nat.add_0_r.
Qed.

(** A pipeline on the synchronous connection: the replies behind the first
    [offset], unless one of those is an error. *)
Lemma req_packed_commands_replies `{BuildProfile} b offset n vs rest c :
  b <> [] -> writes c = [] -> pubsub c = false -> messages_to_skip c = O ->
  incoming c = map Ok vs ++ rest -> is_push <$> last vs = Some false ->
  length (non_push vs) = (offset + n)%nat -> quiet_start offset vs ->
  conn_req_packed_commands b offset n c =
    Return (match queue_errors (take offset (non_push vs)) with
            | [] => Ok (drop offset (non_push vs))
            | errs => Err (make_aborted_transaction errs)
            end) (after_reading (with_writes c [] (sent c ++ [b])) vs rest).
Proof.
  intros Hb Hw Hp Hk Hi Hlast Hlen Hq.
  destruct (last vs) as [v|] eqn:Ev; [|done]. injection Hlast as Hv.
  apply last_Some in Ev as [todo ->].
  unfold conn_req_packed_commands, leave_pubsub.
  erewrite bind_ok by (erewrite bind_ok by done; rewrite Hp; done).
  erewrite bind_ok by (by apply send_bytes_ok).
  rewrite <- (collected_nil offset n).
  erewrite bind_ok by (unfold with_fuel; apply (replies_loop_collected _ offset n [] todo v rest);
    [done..|simpl; rewrite Hi, length_app, length_map, length_app; simpl; lia]).
  cbn [found_errors first_err rv collected app]. by case_match.
Qed.

Lemma get_packed_pipeline_nonempty p : Pipeline_is_empty p = false -> get_packed_pipeline p <> [].
Proof.
  intros He. rewrite get_packed_pipeline_encode. unfold sent_commands, Pipeline_is_empty in *.
  destruct (transaction_mode p); [done|]. by destruct (commands p).
Qed.

Lemma take_non_push offset vs : Forall (fun v => is_push v = false) (take offset vs) ->
  (offset <= length (non_push vs))%nat -> take offset (non_push vs) = take offset vs.
Proof.
  intros Hq Hle. rewrite <- (take_drop offset vs) at 1.
  rewrite non_push_app, (non_push_all (take _ _)) by done.
  destruct (decide (offset <= length vs)%nat).
  - apply take_length_app. rewrite length_take. lia.
  - pose proof (non_push_length vs). lia.
Qed.

(** C27. A pipeline gives the same result on the synchronous and on the
    multiplexed connection, provided that no push message arrives before the
    skipped replies are through (one that does shifts the replies of the
    synchronous connection: [push_shifts_replies]; push messages among the
    replies behind them do no harm): for replies that fit its expectation, both
    return the replies behind the skipped ones, or the errors among the skipped
    ones with the positions of their commands. *)
Theorem sync_multiplexed_agree `{BuildProfile} p offset n id vs rest c :
  Pipeline_is_empty p = false -> (0 < n)%nat -> (is_transaction p = false -> offset = O) ->
  fits (pipeline_message p offset n id) (non_push vs) = true ->
  Forall (fun v => is_push v = false) (take offset vs) -> is_push <$> last vs = Some false ->
  writes c = [] -> pubsub c = false -> messages_to_skip c = O -> incoming c = map Ok vs ++ rest ->
  exists c', conn_req_packed_commands (get_packed_pipeline p) offset n c =
    Return (send_packed_commands p true
              (Received (reply_of (pipeline_message p offset n id) (non_push vs)))) c' /\
    incoming c' = rest.
Proof.
  intros He Hn Hoff Hfits Hq Hlast Hw Hp Hk Hi.
  apply andb_prop in Hfits as [Hlen Hhead]. apply Nat.eqb_eq in Hlen.
  unfold need in Hlen. simpl in Hlen, Hhead. rewrite Nat.max_r in Hlen by lia.
  pose proof (get_packed_pipeline_nonempty p He) as Hne.
  assert (take offset (non_push vs) = take offset vs) as Htake.
  { apply take_non_push; [done|lia]. }
  assert (quiet_start offset vs) as Hquiet.
  { split; [done|]. rewrite <- Htake. destruct (is_transaction p); [|by rewrite Hoff].
    destruct offset; [done|]. destruct (non_push vs) as [|[] ?]; done. }
  exists (after_reading (with_writes c [] (sent c ++ [get_packed_pipeline p])) vs rest).
  split; [|done]. rewrite (req_packed_commands_replies _ offset n vs rest) by done. f_equal. unfold send_packed_commands, send_recv. destruct (get_packed_pipeline p); [done|].
  unfold reply_of. simpl. destruct (is_transaction p) eqn:Et.
  - by destruct (queue_errors _).
  - rewrite Hoff by done. done.
Qed.

(** A transaction of one command, whose reply is preceded by a push message. *)
Lemma sync_multiplexed_agree_witness : let _ : BuildProfile := true in
  exists c', conn_req_packed_commands (get_packed_pipeline (atomic (pipeline_cmd Pipeline_new "PING"))) 2 1
    (fresh_connection RedisConnectionInfo_default
       [Ok Okay; Ok (SimpleString (bs "QUEUED")); Ok (Push Invalidate []); Ok (Array [Int 1])] [])
    = Return (Ok [Array [Int 1]]) c'.
Proof.
  intros B.
  destruct (sync_multiplexed_agree (atomic (pipeline_cmd Pipeline_new "PING")) 2 1 0
    [Okay; SimpleString (bs "QUEUED"); Push Invalidate []; Array [Int 1]] []
    (fresh_connection RedisConnectionInfo_default
       [Ok Okay; Ok (SimpleString (bs "QUEUED")); Ok (Push Invalidate []); Ok (Array [Int 1])] []))
    as (c' & Hc' & _).
  1-10: try done; try lia.
  - by repeat constructor.
  - exists c'. exact Hc'.
Defined.

(** A push message among the replies to be skipped shifts them: the reply of the
    last queued command is returned as if it were the transaction's. *)
Lemma push_shifts_replies `{BuildProfile} k d : exists c',
  conn_req_packed_commands (get_packed_pipeline (atomic (pipeline_cmd Pipeline_new "PING"))) 2 1
    (fresh_connection RedisConnectionInfo_default
       [Ok (Push k d); Ok Okay; Ok (SimpleString (bs "QUEUED")); Ok (Array [Int 1])] [])
    = Return (Ok [SimpleString (bs "QUEUED"); Array [Int 1]]) c'.
Proof. eexists. vm_compute. reflexivity. Qed.

(** ** Messages arrive in order *)

Section pubsub_order.
Context `{F64Display}.

Definition messages (vs : list Value) : list Msg := omap from_value vs.

(** A subscriber that receives [vs] and nothing else. *)
Definition receives (p : PubSub) (vs : list Value) : Prop :=
  incoming (con p) = map Ok vs /\ messages_to_skip (con p) = O /\ writes (con p) = [].

(** The messages a subscriber has still to be given, in order. *)
Definition undelivered (p : PubSub) (vs : list Value) : list Msg := waiting_messages p ++ messages vs.

Lemma on_con_read is_response p v vs : receives p (v :: vs) ->
  exists c', on_con (read is_response) p =
    Return (Ok v) {| con := c'; waiting_messages := waiting_messages p |} /\
    receives {| con := c'; waiting_messages := waiting_messages p |} vs.
Proof.
  intros (Hi & Hk & Hw). unfold on_con. rewrite (read_value is_response (con p) v (map Ok vs)) by done.
  eexists. split; [done|]. done.
Qed.

Lemma receives_nil is_response p : receives p [] -> read is_response (con p) = Waiting.
Proof. intros (Hi & _ & _). unfold read. by rewrite Hi. Qed.

(** Waiting for a response keeps the messages that come first. *)
Lemma response_loop_order fuel p vs r p' : receives p vs ->
  response_loop fuel p = Return r p' ->
  exists vs', receives p' vs' /\ vs' `suffix_of` vs /\ undelivered p' vs' = undelivered p vs.
Proof.
  revert p vs. induction fuel as [|fuel IH]; intros p vs Hr; [done|]. cbn [response_loop].
  destruct vs as [|v vs].
  { unfold mbind, action_bind, on_con, recv_response. by rewrite receives_nil. }
  destruct (on_con_read true p v vs Hr) as (c' & Hread & Hr').
  rewrite (bind_ok _ _ _ _ _ Hread). destruct (from_value v) as [m|] eqn:Em; intros Hrun.
  - eapply IH in Hrun as (vs' & Hr'' & Hsuf & Hu); [|exact Hr'].
    exists vs'. split; [done|]. split; [by apply suffix_cons_r|]. rewrite Hu. unfold undelivered, messages. simpl.
    by rewrite Em, <- app_assoc.
  - injection Hrun as <- <-. exists vs. split; [done|]. split; [by apply suffix_cons_r|].
    unfold undelivered, messages. simpl. by rewrite Em.
Qed.

Lemma message_loop_order fuel p vs : receives p vs -> waiting_messages p = [] ->
  (length vs < fuel)%nat ->
  match messages vs with
  | [] => message_loop fuel p = Waiting
  | m :: ms => exists p' vs', message_loop fuel p = Return (Ok m) p' /\
      receives p' vs' /\ vs' `suffix_of` vs /\ waiting_messages p' = [] /\ messages vs' = ms
  end.
Proof.
  revert p vs. induction fuel as [|fuel IH]; intros p vs Hr Hw Hf; [lia|]. cbn [message_loop].
  destruct vs as [|v vs].
  { simpl. unfold mbind, action_bind, on_con. by rewrite receives_nil. }
  destruct (on_con_read false p v vs Hr) as (c' & Hread & Hr').
  rewrite (bind_ok _ _ _ _ _ Hread). unfold messages. simpl. unfold from_value at 1.
  destruct (from_owned_value v) as [m|] eqn:Em.
  - simpl. eexists _, vs. split; [done|]. split; [exact Hr'|]. split; [by apply suffix_cons_r|done].
  - pose proof (IH _ vs Hr' Hw ltac:(simpl in Hf; lia)) as Hl.
    change (list_omap Value Msg from_value vs) with (messages vs). destruct (messages vs) as [|m ms]; [exact Hl|].
    destruct Hl as (p' & vs' & ? & ? & ? & ? & ?). exists p', vs'. split_and!; try done. by apply suffix_cons_r.
Qed.

(** The next message is the first that was not delivered yet. *)
Lemma get_message_order p vs : receives p vs ->
  match undelivered p vs with
  | [] => get_message p = Waiting
  | m :: ms => exists p' vs', get_message p = Return (Ok m) p' /\
      receives p' vs' /\ vs' `suffix_of` vs /\ undelivered p' vs' = ms
  end.
Proof.
  intros Hr. unfold get_message, undelivered. destruct (waiting_messages p) as [|m ws] eqn:Ew; simpl.
  - unfold with_pubsub_fuel.
    pose proof (message_loop_order (S (length (incoming (con p)))) p vs Hr Ew) as Hl.
    destruct Hr as (Hi & Hr). rewrite Hi, length_map in *. specialize (Hl ltac:(lia)).
    destruct (messages vs) as [|m ms]; [done|].
    destruct Hl as (p' & vs' & Hm & Hr' & Hs & Hw' & Hms). exists p', vs'. rewrite Hw'. done.
  - by exists {| con := con p; waiting_messages := ws |}, vs.
Qed.

Inductive pubsub_op :=
| OpSubscription (name : string) (channels : list bytes)
| OpPing (message : list bytes)
| OpGetMessage.

Definition pubsub_step (o : pubsub_op) : action PubSub (list Msg) :=
  match o with
  | OpSubscription name channels => _ ← subscription name channels; mret []
  | OpPing message => _ ← ping_message frv_value message; mret []
  | OpGetMessage => m ← get_message; mret [m]
  end.

(** The messages delivered by a sequence of operations. *)
Fixpoint pubsub_run (ops : list pubsub_op) : action PubSub (list Msg) :=
  match ops with
  | [] => mret []
  | o :: ops => ms ← pubsub_step o; rest ← pubsub_run ops; mret (ms ++ rest)
  end.

Lemma cmd_args_nonempty name l : Cmd_is_empty (cmd_args name l) = false.
Proof.
  unfold cmd_args, cmd. generalize (bs name), Cmd_new. intros n c.
  assert (Cmd_is_empty (write_arg c n) = false) as He
    by (unfold Cmd_is_empty, write_arg, push_end; simpl; by destruct (args c)).
  revert He. generalize (write_arg c n). induction l as [|a l IH]; intros c' He; simpl; [done|].
  apply IH. unfold Cmd_is_empty, write_arg, push_end. simpl. by destruct (args c').
Qed.

Lemma cached_messages_order c b p vs r p' : Cmd_is_empty c = false -> receives p vs ->
  cache_messages_until_received_response c b p = Return r p' ->
  exists vs', receives p' vs' /\ vs' `suffix_of` vs /\ undelivered p' vs' = undelivered p vs.
Proof.
  intros Hc Hr. unfold cache_messages_until_received_response.
  erewrite bind_ok by done. cbv zeta.
  set (c' := set_no_response c _).
  assert (get_packed_command c' <> []) as Hne by (by apply get_packed_command_nonempty).
  destruct Hr as (Hi & Hk & Hw). erewrite bind_ok.
  2: { unfold on_con, send_packed_command. erewrite bind_ok by (by apply send_bytes_ok). done. }
  intros Hrun. by eapply response_loop_order in Hrun.
Qed.

Lemma pubsub_step_order o p vs r p' : receives p vs -> pubsub_step o p = Return (Ok r) p' ->
  exists vs', receives p' vs' /\ vs' `suffix_of` vs /\ r ++ undelivered p' vs' = undelivered p vs.
Proof.
  intros Hr. destruct o as [name channels|message|]; simpl; intros Hs.
  - apply bind_inv in Hs as [(? & p1 & Hs & [= <- <-])|(? & _ & ?)]; [|done].
    apply bind_inv in Hs as [(? & p2 & Hs & [= _ <-])|(? & _ & ?)]; [|done].
    eapply cached_messages_order in Hs; [done|apply cmd_args_nonempty|done].
  - apply bind_inv in Hs as [(? & p1 & Hs & [= <- <-])|(? & _ & ?)]; [|done].
    apply bind_inv in Hs as [(? & p2 & Hs & [= _ <-])|(? & _ & ?)]; [|done].
    eapply cached_messages_order in Hs; [done|apply cmd_args_nonempty|done].
  - apply bind_inv in Hs as [(m & p1 & Hs & [= <- <-])|(? & _ & ?)]; [|done].
    pose proof (get_message_order p vs Hr) as Hm. destruct (undelivered p vs) as [|m' ms]; [congruence|].
    destruct Hm as (p2 & vs' & Hm & Hr' & Hsuf & <-). rewrite Hs in Hm. injection Hm as <- <-. eauto.
Qed.

Lemma pubsub_run_order ops p vs delivered p' : receives p vs -> pubsub_run ops p = Return (Ok delivered) p' ->
  exists vs', receives p' vs' /\ vs' `suffix_of` vs /\ delivered ++ undelivered p' vs' = undelivered p vs.
Proof.
  revert p vs delivered. induction ops as [|o ops IH]; intros p vs delivered Hr Hrun; simpl in *.
  - injection Hrun as <- <-. by exists vs.
  - apply bind_inv in Hrun as [(ms & p1 & Hs & Hrun)|(? & _ & ?)]; [|done].
    apply bind_inv in Hrun as [(rest & p2 & Hrun & [= <- <-])|(? & _ & ?)]; [|done].
    eapply pubsub_step_order in Hs as (vs1 & Hr1 & Hs1 & Hu1); [|done].
    eapply IH in Hrun as (vs' & Hr' & Hs' & Hu'); [|done]. exists vs'. split; [done|].
    split; [by etrans|]. by rewrite <- app_assoc, Hu', Hu1.
Qed.

(** What a server sends to a subscriber: messages to a channel, to a pattern, or
    to a sharded channel; confirmations; answers to PING; and, in RESP3, other
    push messages. *)
Inductive delivery :=
| ToChannel (ch payload : bytes)
| ToPattern (pat ch payload : bytes)
| ToShard (ch payload : bytes)
| Confirms (k : PushKind) (ch : option bytes) (subscribed : Z)
| Pong (message : option bytes)
| OtherPush (k : PushKind) (data : list Value).

Definition nullable (b : option bytes) : Value := match b with Some b => BulkString b | None => Nil end.

Definition confirmation_name (k : PushKind) : string :=
  match k with
  | Subscribe => "subscribe" | Unsubscribe => "unsubscribe"
  | PSubscribe => "psubscribe" | PUnsubscribe => "punsubscribe"
  | SSubscribe => "ssubscribe" | SUnsubscribe => "sunsubscribe"
  | _ => ""
  end.

(** Its forms on the wire. *)
Definition resp2_form (d : delivery) : Value :=
  match d with
  | ToChannel ch payload => Array [BulkString (bs "message"); BulkString ch; BulkString payload]
  | ToPattern pat ch payload =>
      Array [BulkString (bs "pmessage"); BulkString pat; BulkString ch; BulkString payload]
  | ToShard ch payload => Array [BulkString (bs "smessage"); BulkString ch; BulkString payload]
  | Confirms k ch n => Array [BulkString (bs (confirmation_name k)); nullable ch; Int n]
  | Pong message => Array [BulkString (bs "pong"); BulkString (default [] message)]
  | OtherPush k data => Push k data
  end.
Definition resp3_form (d : delivery) : Value :=
  match d with
  | ToChannel ch payload => Push Message [BulkString ch; BulkString payload]
  | ToPattern pat ch payload => Push PMessage [BulkString pat; BulkString ch; BulkString payload]
  | ToShard ch payload => Push SMessage [BulkString ch; BulkString payload]
  | Confirms k ch n => Push k [nullable ch; Int n]
  | Pong (Some message) => BulkString message
  | Pong None => SimpleString (bs "PONG")
  | OtherPush k data => Push k data
  end.
Definition form (resp3 : bool) (d : delivery) : Value := if resp3 then resp3_form d else resp2_form d.

(** Confirmations are of the six kinds; sharded channels and other push messages
    belong to RESP3, where a PING is not answered with a push message. *)
Definition possible (resp3 : bool) (d : delivery) : Prop :=
  match d with
  | ToChannel _ _ | ToPattern _ _ _ | Pong _ => True
  | ToShard _ _ => resp3 = true
  | Confirms k _ _ => k ∈ [Subscribe; Unsubscribe; PSubscribe; PUnsubscribe; SSubscribe; SUnsubscribe]
  | OtherPush k _ => resp3 = true /\ k ∉ [Message; PMessage; SMessage]
  end.

(** The message a subscriber is to be given for it. *)
Definition message_in (d : delivery) : option Msg :=
  match d with
  | ToChannel ch payload | ToShard ch payload =>
      Some {| payload := BulkString payload; channel := BulkString ch; pattern := None |}
  | ToPattern pat ch payload =>
      Some {| payload := BulkString payload; channel := BulkString ch; pattern := Some (BulkString pat) |}
  | Confirms _ _ _ | Pong _ | OtherPush _ _ => None
  end.

Lemma form_message resp3 d : possible resp3 d -> from_value (form resp3 d) = message_in d.
Proof.
  destruct d as [ch m|pat ch m|ch m|k ch n|m|k data]; cbn [possible]; intros Hp.
  - by destruct resp3.
  - by destruct resp3.
  - by rewrite Hp.
  - rewrite !elem_of_cons in Hp.
    by destruct Hp as [->|[->|[->|[->|[->|[->|[]%not_elem_of_nil]]]]]], resp3.
  - destruct resp3; [|done]. destruct m as [m|]; [|done]. unfold form, resp3_form, message_in, from_value, from_owned_value.
    destruct (to_option (from_redis_value (frv_vec frv_value) (BulkString m))) as [[|ty [|? ?]]|] eqn:E; try done.
    cbn [mbind option_bind]. destruct (to_option (from_redis_value frv_string ty)); [|done]. simpl.
    by repeat case_match.
  - destruct Hp as [-> Hk]. destruct k; try done; destruct Hk; set_solver.
Qed.

Lemma form_messages resp3 ds : Forall (possible resp3) ds ->
  messages (map (form resp3) ds) = omap message_in ds.
Proof.
  induction 1 as [|d ds Hd _ IH]; [done|]. unfold messages in *. cbn [map omap list_omap].
  rewrite form_message by done. cbn [omap] in IH. by rewrite IH.
Qed.

End pubsub_order.

#[local] Instance no_float_display : F64Display := fun _ => [].


(** SUBSCRIBE to two channels is answered twice; the second answer is taken for
    that of the next request. *)
Lemma second_subscribe_reply_misread : exists p',
  (_ ← subscribe [bs "a"; bs "b"]; ping frv_value)
    (as_pubsub (fresh_connection RedisConnectionInfo_default
       [Ok (Array [BulkString (bs "subscribe"); BulkString (bs "a"); Int 1]);
        Ok (Array [BulkString (bs "subscribe"); BulkString (bs "b"); Int 2]);
        Ok (Array [BulkString (bs "pong"); BulkString []])] [])) =
  Return (Ok (Array [BulkString (bs "subscribe"); BulkString (bs "b"); Int 2])) p'.
Proof. eexists. vm_compute. reflexivity. Qed.

(** ** Leaving the pub/sub state *)

(** How a server reports that a subscription has ended: as an array (RESP2) or
    as a push message (RESP3); [nosub] servers answer with an error when there
    was none. *)
Record unsub_style := { as_push : bool; nosub : bool }.

Definition unsub_reply (s : unsub_style) (pat : bool) (name : Value) (left : nat) : Value :=
  if as_push s
  then Push (if pat then PUnsubscribe else Unsubscribe) [name; Int (Z.of_nat left)]
  else Array [BulkString (bs (if pat then "punsubscribe" else "unsubscribe")); name; Int (Z.of_nat left)].

(** One reply per subscription that ends, with the number of those left. *)
Fixpoint unsub_replies (s : unsub_style) (pat : bool) (names : list bytes) (others : nat) : list Value :=
  match names with
  | [] => []
  | name :: names =>
      unsub_reply s pat (BulkString name) (length names + others) :: unsub_replies s pat names others
  end.

Definition unsub_answer (s : unsub_style) (pat : bool) (names : list bytes) (others : nat) : list Value :=
  match names with
  | [] => [if nosub s
           then ServerErr (Repr_Known NoSub (Some (bs (if pat then "'punsubscribe' command executed not in subscribed mode"
                                                       else "'unsubscribe' command executed not in subscribed mode"))))
           else unsub_reply s pat Nil others]
  | _ => unsub_replies s pat names others
  end.

(** The answers to UNSUBSCRIBE and PUNSUBSCRIBE of a client subscribed to
    [channels] and [patterns]. *)
Definition unsubscribed (s : unsub_style) (channels patterns : list bytes) : list Value :=
  unsub_answer s false channels (length patterns) ++ unsub_answer s true patterns 0.

(** [vs] are the responses from [flags] on, and the state is cleared with the
    last of them. *)
Fixpoint clears (flags : bool * bool) (vs : list Value) : Prop :=
  match vs with
  | [] => False
  | v :: vs =>
      match clear_step flags v with
      | Ok (_, true) => vs = []
      | Ok (flags, false) => clears flags vs
      | Err _ => False
      end
  end.

Lemma clear_loop_clears fuel flags vs rest c : clears flags vs -> (length vs <= fuel)%nat ->
  incoming c = map Ok vs ++ rest -> messages_to_skip c = O ->
  clear_loop fuel flags c = Return (Ok ()) (after_reading c vs rest).
Proof.
  revert fuel flags c. induction vs as [|v vs IH]; intros fuel flags c Hc Hf Hi Hk; [done|].
  destruct fuel as [|fuel]; simpl in Hf; [lia|]. cbn [clear_loop].
  unfold recv_response. rewrite (bind_ok _ _ _ _ _ (read_value true c v (map Ok vs ++ rest) Hi Hk)).
  simpl in Hc. destruct (clear_step flags v) as [[flags' []]|]; [| |done].
  - by subst vs.
  - unfold lift. erewrite bind_ok by done. cbn beta iota. rewrite IH; [|done|lia|done|done].
    by rewrite after_reading_app.
Qed.

Lemma clear_step_reply s pat name left flags : (Z.of_nat left <= i64_max)%Z ->
  match name with Nil | BulkString _ => True | _ => False end ->
  clear_step flags (unsub_reply s pat name left) =
  Ok ((if pat then (flags.1, true) else (true, flags.2)),
      (if pat then flags.1 else flags.2) && Nat.eqb left 0).
Proof.
  intros Hl Hname. assert ((Z.of_nat left =? 0)%Z = Nat.eqb left 0) as H0
    by (destruct left; [done|]; apply Z.eqb_neq; lia).
  destruct flags as [u p]. unfold unsub_reply. destruct (as_push s).
  - simpl. rewrite H0. destruct pat; simpl; by rewrite ?andb_true_r.
  - assert (as_ty i64_ty (Z.of_nat left) = Z.of_nat left) as Hn
      by (unfold as_ty, i64_ty, i64_max, i64_min in *; simpl; rewrite Z.mod_small; lia).
    destruct pat; destruct name; try done;
      cbn -[as_ty i64_ty Z.of_nat Z.eqb]; rewrite Hn, H0; by rewrite ?andb_true_r.
Qed.

Lemma clears_unsub s names others vs flags : (Z.of_nat (length names + others) <= i64_max)%Z ->
  flags.2 = false -> clears (true, false) vs -> flags.1 = true \/ names <> [] ->
  clears flags (unsub_replies s false names others ++ vs).
Proof.
  revert flags. induction names as [|name names IH]; intros [u p] Hl Hp Hvs Hne; simpl in *; subst p.
  - destruct Hne as [->|]; done.
  - rewrite clear_step_reply by (lia || done). simpl. apply IH; [lia|done..|by left].
Qed.

Lemma clears_punsub s names flags : (Z.of_nat (length names) <= i64_max)%Z ->
  flags.1 = true -> names <> [] -> clears flags (unsub_replies s true names 0).
Proof.
  revert flags. induction names as [|name names IH]; intros [u p] Hl Hu Hne; simpl in *; subst u; [done|].
  rewrite Nat.add_0_r, clear_step_reply by (lia || done). simpl.
  destruct names as [|name' names]; [done|]. simpl. apply (IH (true, true)); [simpl in *; lia|done..].
Qed.

Lemma unsubscribed_clears s channels patterns :
  (Z.of_nat (length channels + length patterns) <= i64_max)%Z ->
  clears (false, false) (unsubscribed s channels patterns).
Proof.
  intros Hl. unfold unsubscribed.
  assert (forall f, f.1 = true -> clears f (unsub_answer s true patterns 0)) as Hp.
  { intros [u p] Hu. simpl in Hu. subst u. unfold unsub_answer. destruct patterns as [|pt patterns].
    - destruct (nosub s); simpl; [destruct p; done|]. rewrite clear_step_reply by done. done.
    - apply clears_punsub; [lia|done..]. }
  destruct channels as [|ch channels].
  - unfold unsub_answer at 1. destruct (nosub s); simpl.
    + apply (Hp (true, false)). done.
    + rewrite clear_step_reply by (simpl in *; lia || done). simpl. by apply Hp.
  - unfold unsub_answer at 1. apply clears_unsub; [done|done| |by right]. by apply Hp.
Qed.

(** The connection after the two commands were sent and [vs] was read. *)
Definition after_exit (c : Connection) (vs : list Value) (rest : list (result RedisError Value))
    (stuck : bool) : Connection :=
  with_pubsub (after_reading (with_writes c [] (sent c ++
    [get_packed_command (cmd "UNSUBSCRIBE"); get_packed_command (cmd "PUNSUBSCRIBE")])) vs rest) stuck.

Lemma exit_pubsub_loop c r vs rest : writes c = [] ->
  (forall c, incoming c = map Ok vs ++ rest -> messages_to_skip c = O ->
     clear_loop (S (length (incoming c))) (false, false) c = Return r (after_reading c vs rest)) ->
  incoming c = map Ok vs ++ rest -> messages_to_skip c = O ->
  exit_pubsub c = Return r (after_exit c vs rest (negb (is_ok r))).
Proof.
  intros Hw Hloop Hi Hk. unfold exit_pubsub, clear_active_subscriptions.
  rewrite (bind_ok _ _ _ _ _ (send_bytes_ok _ c (get_packed_command_nonempty (cmd "UNSUBSCRIBE") eq_refl) Hw)).
  set (c1 := with_writes _ _ _).
  rewrite (bind_ok _ _ _ _ _ (send_bytes_ok _ c1 (get_packed_command_nonempty (cmd "PUNSUBSCRIBE") eq_refl) eq_refl)).
  unfold with_fuel. rewrite Hloop by done. unfold after_exit. simpl. rewrite <- app_assoc. by destruct r.
Qed.

Lemma exit_pubsub_ok s channels patterns rest c :
  (Z.of_nat (length channels + length patterns) <= i64_max)%Z ->
  incoming c = map Ok (unsubscribed s channels patterns) ++ rest ->
  messages_to_skip c = O -> writes c = [] ->
  exit_pubsub c = Return (Ok ()) (after_exit c (unsubscribed s channels patterns) rest false).
Proof.
  intros Hl Hi Hk Hw. apply exit_pubsub_loop; [done| |done..].
  intros c' Hi' Hk'. apply clear_loop_clears; [by apply unsubscribed_clears| |done..].
  rewrite Hi', length_app, length_map. lia.
Qed.

(** Leaving the pub/sub state reads exactly the answers of the server to the
    two unsubscribe commands, whichever channels and patterns were subscribed
    to and however the server reports the end of a subscription; afterwards the
    connection is out of that state with the rest of the stream unread. *)
Theorem exit_pubsub_clears s channels patterns rest c :
  (Z.of_nat (length channels + length patterns) <= i64_max)%Z ->
  incoming c = map Ok (unsubscribed s channels patterns) ++ rest ->
  messages_to_skip c = O -> writes c = [] ->
  exists c', exit_pubsub c = Return (Ok ()) c' /\ incoming c' = rest /\ pubsub c' = false /\
    messages_to_skip c' = O /\
    sent c' = sent c ++ [get_packed_command (cmd "UNSUBSCRIBE"); get_packed_command (cmd "PUNSUBSCRIBE")].
Proof.
  intros Hl Hi Hk Hw. rewrite (exit_pubsub_ok s channels patterns rest c) by done.
  eexists. split; [reflexivity|]. done.
Qed.

Lemma exit_pubsub_clears_witness : exists c',
  exit_pubsub (fresh_connection RedisConnectionInfo_default
    (map Ok (unsubscribed {| as_push := false; nosub := false |} [bs "a"; bs "b"] [bs "p*"]) ++ [Ok (Int 7)]) [])
  = Return (Ok ()) c' /\ incoming c' = [Ok (Int 7)].
Proof.
  destruct (exit_pubsub_clears {| as_push := false; nosub := false |} [bs "a"; bs "b"] [bs "p*"] [Ok (Int 7)]
    (fresh_connection RedisConnectionInfo_default
      (map Ok (unsubscribed {| as_push := false; nosub := false |} [bs "a"; bs "b"] [bs "p*"]) ++ [Ok (Int 7)]) []))
    as (c' & H1 & H2 & _); [done..|]. eauto.
Defined.

(** A message published while the subscriptions are being ended makes the exit
    fail.  The next request then ends the subscriptions once more, takes the
    answers to the first attempt for those to the second, and returns one of the
    latter as its own reply. *)
Theorem interrupted_exit_desynchronizes payload reply :
  parse_int i64_ty payload = None ->
  let quiet := {| as_push := false; nosub := false |} in
  let c := fresh_connection RedisConnectionInfo_default
    (Ok (Array [BulkString (bs "message"); BulkString (bs "a"); BulkString payload])
     :: map Ok (unsubscribed quiet [bs "a"] []) ++ map Ok (unsubscribed quiet [] []) ++ [Ok reply]) [] in
  exists c' c'', drop_pubsub (as_pubsub c) = Return (Ok ()) c' /\
    conn_req_command (cmd "PING") c' =
      Return (Ok (Array [BulkString (bs "unsubscribe"); Nil; Int 0])) c'' /\
    incoming c'' = [Ok (Array [BulkString (bs "punsubscribe"); Nil; Int 0]); Ok reply].
Proof.
  intros Hp quiet c.
  assert (exists e, clear_step (false, false)
    (Array [BulkString (bs "message"); BulkString (bs "a"); BulkString payload]) = Err e) as [e Hc].
  { unfold clear_step, into_redis_error. cbn -[parse_int from_utf8 i64_ty]. unfold num_of_value.
    destruct (from_utf8 payload) as [s|] eqn:E; [apply from_utf8_Ok in E as [_ ->]|]; simpl;
      rewrite ?Hp; eauto. }
  set (v := Array [BulkString (bs "message"); _; _]) in *.
  set (rest := map Ok (unsubscribed quiet [] []) ++ [Ok reply]) in *.
  set (late := map Ok (unsubscribed quiet [bs "a"] []) ++ rest) in *.
  assert (exit_pubsub c = Return (Err e) (after_exit c [v] late true)) as Hexit.
  { apply (exit_pubsub_loop c (Err e)); [done| |done..]. intros c1 Hi Hk. cbn [clear_loop].
    unfold recv_response. rewrite (bind_ok _ _ _ _ _ (read_value true c1 v late Hi Hk)).
    rewrite Hc. done. }
  exists (after_exit c [v] late true).
  set (c1 := after_exit c [v] late true).
  set (c2 := after_exit c1 (unsubscribed quiet [bs "a"] []) rest false).
  exists (after_reading (with_writes c2 [] (sent c2 ++ [get_packed_command (cmd "PING")]))
            [Array [BulkString (bs "unsubscribe"); Nil; Int 0]]
            [Ok (Array [BulkString (bs "punsubscribe"); Nil; Int 0]); Ok reply]).
  split_and!; [unfold drop_pubsub; simpl; by rewrite Hexit| |done].
  unfold conn_req_command, leave_pubsub. erewrite bind_ok.
  2: { erewrite bind_ok by done. simpl. by apply (exit_pubsub_ok quiet [bs "a"] [] rest c1). }
  rewrite (bind_ok _ _ _ _ _ (send_bytes_ok _ c2 (get_packed_command_nonempty (cmd "PING") eq_refl) eq_refl)).
  change (is_no_response (cmd "PING")) with false. unfold with_fuel. cbn [reply_loop].
  erewrite bind_ok by (by apply read_value). done.
Qed.

Lemma interrupted_exit_desynchronizes_witness : exists c' c'',
  drop_pubsub (as_pubsub (fresh_connection RedisConnectionInfo_default
    (Ok (Array [BulkString (bs "message"); BulkString (bs "a"); BulkString (bs "hello")])
     :: map Ok (unsubscribed {| as_push := false; nosub := false |} [bs "a"] []) ++
        map Ok (unsubscribed {| as_push := false; nosub := false |} [] []) ++
        [Ok (SimpleString (bs "PONG"))]) [])) = Return (Ok ()) c' /\
  conn_req_command (cmd "PING") c' = Return (Ok (Array [BulkString (bs "unsubscribe"); Nil; Int 0])) c''.
Proof.
  destruct (interrupted_exit_desynchronizes (bs "hello") (SimpleString (bs "PONG"))) as (c' & c'' & H1 & H2 & _);
    [reflexivity|]. exists c', c''. split; [exact H1|exact H2].
Defined.

(** ** Setting up *)

Section setup_outcome.
Context `{BuildProfile} `{CargoPkgVersion}.
Variable server : Cmd -> Value.
Hypothesis server_answers : forall c, is_push (server c) = false.

(** The replies of the server to the commands of a pipeline. *)
Definition server_replies (p : Pipeline) : list Value := map server (commands p).

(** A connection on which a pipeline can be executed. *)
Definition ready (c : Connection) : Prop :=
  writes c = [] /\ pubsub c = false /\ messages_to_skip c = O.

Lemma server_replies_non_push p : non_push (server_replies p) = server_replies p.
Proof. apply non_push_all. unfold server_replies. induction (commands p); simpl; constructor; auto. Qed.

(** A pipeline without skipped replies returns the reply to each command. *)
Lemma req_packed_commands_server p rest c : Pipeline_is_empty p = false -> ready c ->
  incoming c = map Ok (server_replies p) ++ rest ->
  exists c', conn_req_packed_commands (get_packed_pipeline p) 0 (Pipeline_len p) c =
      Return (Ok (server_replies p)) c' /\ incoming c' = rest /\ ready c' /\
      db c' = db c /\ protocol c' = protocol c /\ sent c' = sent c ++ [get_packed_pipeline p].
Proof.
  intros He (Hw & Hp & Hk) Hi.
  exists (after_reading (with_writes c [] (sent c ++ [get_packed_pipeline p])) (server_replies p) rest).
  split; [|done].
  rewrite (req_packed_commands_replies _ 0 (Pipeline_len p) (server_replies p) rest); try done.
  - by rewrite server_replies_non_push.
  - by apply get_packed_pipeline_nonempty.
  - unfold server_replies, Pipeline_is_empty in *. destruct (commands p) as [|cm l _] using rev_ind; [done|].
    rewrite map_app. cbn [map]. rewrite last_snoc. simpl. by rewrite server_answers.
  - rewrite server_replies_non_push. unfold server_replies, Pipeline_len. by rewrite length_map.
Qed.

Lemma setup_not_transaction i check_username cache_config :
  transaction_mode (connection_setup_pipeline i check_username cache_config).1 = false.
Proof.
  unfold connection_setup_pipeline. by repeat case_match; simplify_eq.
Qed.

Lemma execute_connection_pipeline_verdict i check_username cache_config rest c :
  let p := connection_setup_pipeline i check_username cache_config in
  incoming c = map Ok (server_replies p.1) ++ rest -> ready c ->
  exists c', execute_connection_pipeline p c =
      Return (setup_verdict server i check_username cache_config) c' /\
    incoming c' = rest /\ ready c' /\ db c' = db c /\ protocol c' = protocol c /\
    concat (sent c') = concat (sent c) ++ get_packed_pipeline p.1.
Proof.
  intros p Hi Hr. assert (transaction_mode p.1 = false) as Htx by (apply setup_not_transaction).
  assert (check_connection_setup (server_replies p.1) p.2 =
          Some (setup_verdict server i check_username cache_config)) as Hcheck
    by (unfold p, server_replies; pose proof (setup_verdict_checked server i check_username cache_config) as Hs;
        by destruct (connection_setup_pipeline i check_username cache_config)).
  pose proof (setup_verdict_empty server i check_username cache_config) as Hempty. fold p in Hempty.
  clearbody p. destruct p as [p components]. unfold execute_connection_pipeline. simpl in *.
  destruct (Pipeline_is_empty p) eqn:He.
  - exists c. rewrite Hempty by done.
    unfold Pipeline_is_empty in He. apply Nat.eqb_eq, nil_length_inv in He.
    unfold server_replies in Hi. rewrite He in Hi. split_and!; try done.
    rewrite get_packed_pipeline_encode. unfold sent_commands. by rewrite Htx, He, app_nil_r.
  - destruct (req_packed_commands_server p rest c He Hr Hi) as (c' & Hreq & Hi' & Hr' & Hdb & Hpr & Hsent).
    exists c'. rewrite (bind_ok _ _ _ _ _ Hreq), Hcheck, Hsent, concat_app. simpl. by rewrite app_nil_r.
Qed.

(** The outcome of the set-up: a second attempt without user name is made when
    the server does not know the form of AUTH with one. *)
Definition setup_outcome (i : RedisConnectionInfo) (cache_config : option CacheConfig)
    : result RedisError unit :=
  auth ← setup_verdict server i true cache_config;
  match auth with
  | Succeeded => Ok ()
  | ShouldRetryWithoutUsername => _ ← setup_verdict server i false cache_config; Ok ()
  end.

(** The replies to the one or two attempts. *)
Definition setup_replies (i : RedisConnectionInfo) (cache_config : option CacheConfig) : list Value :=
  server_replies (connection_setup_pipeline i true cache_config).1 ++
  match setup_verdict server i true cache_config with
  | Ok ShouldRetryWithoutUsername => server_replies (connection_setup_pipeline i false cache_config).1
  | _ => []
  end.

(** The set-up of a fresh connection, for the replies of the server; what arrives
    after them is left. *)
Lemma setup_replies_then i cache_config rest :
  exists c', setup_connection i cache_config
      (fresh_connection i (map Ok (setup_replies i cache_config) ++ rest) []) =
    Return (setup_outcome i cache_config) c' /\
    incoming c' = rest /\ ready c' /\ db c' = info_db i /\ protocol c' = info_protocol i /\
    (setup_verdict server i true cache_config <> Ok ShouldRetryWithoutUsername ->
     concat (sent c') = get_packed_pipeline (connection_setup_pipeline i true cache_config).1).
Proof.
  unfold setup_connection, setup_outcome, setup_replies. rewrite map_app, <- app_assoc.
  set (later := match setup_verdict server i true cache_config with Ok _ => _ | Err _ => _ end).
  set (c := fresh_connection _ _ _).
  destruct (execute_connection_pipeline_verdict i true cache_config (map Ok later ++ rest) c)
    as (c1 & H1 & Hi1 & Hr1 & Hdb1 & Hp1 & Hs1); [done..|].
  unfold later in Hi1. unfold mbind at 1, action_bind at 1. rewrite H1.
  destruct (setup_verdict server i true cache_config) as [[]|e] eqn:Ev; simpl.
  - exists c1. done.
  - destruct (execute_connection_pipeline_verdict i false cache_config rest c1)
      as (c2 & H2 & Hi2 & Hr2 & Hdb2 & Hp2 & _); [done..|].
    unfold mbind at 1, action_bind at 1. rewrite H2.
    exists c2. destruct (setup_verdict server i false cache_config); simpl; split_and!; first [done|etrans; eassumption].
  - exists c1. done.
Qed.
Lemma setup_replies_checked i cache_config :
  exists c', setup_connection i cache_config
      (fresh_connection i (map Ok (setup_replies i cache_config)) []) =
    Return (setup_outcome i cache_config) c' /\
    incoming c' = [] /\ db c' = info_db i /\ protocol c' = info_protocol i.
Proof.
  destruct (setup_replies_then i cache_config []) as (c' & Hc & Hi & _ & Hd & Hp & _).
  rewrite app_nil_r in Hc. by exists c'.
Qed.

(** A request on a connection that is ready gets the next reply. *)
Lemma req_packed_command_next b v rest c : ready c -> incoming c = Ok v :: rest -> is_push v = false -> b <> [] ->
  exists c', conn_req_packed_command b c = Return (Ok v) c' /\ incoming c' = rest /\ ready c' /\
    sent c' = sent c ++ [b].
Proof.
  intros (Hw & Hp & Hk) Hi Hv Hb. unfold conn_req_packed_command.
  erewrite bind_ok by (unfold leave_pubsub; erewrite bind_ok by reflexivity; by rewrite Hp).
  erewrite bind_ok by (by apply send_bytes_ok). unfold with_fuel. cbn [with_writes incoming]. rewrite Hi.
  cbn [length reply_loop]. erewrite bind_ok by (by apply (read_value true _ v rest)). rewrite Hv.
  eexists. split; [reflexivity|done].
Qed.

(** Setting up a connection checks the right replies: whatever commands the
    settings call for, the connection is established exactly if the server
    accepted HELLO or AUTH, SELECT and CLIENT TRACKING, an old server's
    complaint about AUTH with a user name leads to a second attempt without it,
    and no reply is left unread. *)
Theorem setup_connection_outcome i cache_config :
  exists c', setup_connection i cache_config
      (fresh_connection i (map Ok (setup_replies i cache_config)) []) =
    Return (setup_outcome i cache_config) c' /\
    incoming c' = [] /\ db c' = info_db i /\ protocol c' = info_protocol i.
Proof. apply setup_replies_checked. Qed.
End setup_outcome.

(** A server that refuses AUTH with the same complaint a second time is taken to
    have accepted it: the connection is established without authentication. *)
Lemma repeated_refusal_accepted `{BuildProfile} `{CargoPkgVersion} : exists c',
  let refusal := ServerErr (Repr_Known ResponseError
    (Some (bs "wrong number of arguments for 'auth' command"))) in
  let i := set_skip_set_lib_name (set_password RedisConnectionInfo_default (bs "secret")) in
  setup_connection i None (fresh_connection i [Ok refusal; Ok refusal] []) = Return (Ok ()) c'.
Proof. eexists. vm_compute. reflexivity. Qed.

Lemma setup_connection_outcome_witness :
  let _ : BuildProfile := true in let _ : CargoPkgVersion := bs "1.7.0" in
  let i := set_db (set_password RedisConnectionInfo_default (bs "secret")) 3 in
  exists c', setup_connection i None (fresh_connection i (map Ok (setup_replies (fun _ => Okay) i None)) [])
    = Return (Ok ()) c' /\ db c' = 3%Z.
Proof.
  intros B V i.
  destruct (setup_connection_outcome (fun _ => Okay) (fun _ => eq_refl) i None) as (c' & Hc & _ & Hdb & _).
  exists c'. split; [exact Hc|exact Hdb].
Defined.
