(* ===== verification/Dialing.v ===== *)
(** * Establishing a synchronous connection

    [io/tcp.rs] and, of [connection.rs], [ActualConnection::new], its time-outs,
    and [connect]: resolving and trying addresses, the options of the socket, the
    TLS client around it, and the set-up of the connection under a time-out.

    What the operating system and the TLS crates answer is the class [Network]: the
    addresses of a name, which of them accept, which socket options are refused,
    whether a TLS handshake succeeds.  A socket is the peer it is connected to with
    the options set on it.  The values and errors read from it later are a function
    [traffic] of the connection. *)

From S2P Require Import Prelude Text Float64 Combine Errors Types Parser Codec Cmd Convert Pipeline.
From S2P Require Import Slots Routing Multiplexed Caching Effects Tls ConnInfo Connection.
Local Open Scope Z_scope.

(** ** TCP settings *)

Definition set_nodelay (t : TcpSettings) (b : bool) : TcpSettings :=
  {| nodelay := b; keepalive := keepalive t; linger_time := linger_time t; user_timeout := user_timeout t |}.
Definition set_keepalive (t : TcpSettings) (k : TcpKeepalive) : TcpSettings :=
  {| nodelay := nodelay t; keepalive := Some k; linger_time := linger_time t; user_timeout := user_timeout t |}.
Definition set_linger_time (t : TcpSettings) (d : Duration) : TcpSettings :=
  {| nodelay := nodelay t; keepalive := keepalive t; linger_time := Some d; user_timeout := user_timeout t |}.
Definition set_user_timeout (t : TcpSettings) (d : Duration) : TcpSettings :=
  {| nodelay := nodelay t; keepalive := keepalive t; linger_time := linger_time t; user_timeout := Some d |}.

(** ** Sockets *)

Inductive SocketOption :=
| Nodelay (b : bool)
| Keepalive (k : TcpKeepalive)
| Linger (d : option Duration)
| UserTimeout (d : option Duration)
| ReadTimeout (d : option Duration)
| WriteTimeout (d : option Duration).

(** What was set on a socket. *)
Record Options := {
  opt_nodelay : bool; opt_keepalive : option TcpKeepalive; opt_linger : option Duration;
  opt_user_timeout : option Duration; read_timeout : option Duration; write_timeout : option Duration
}.
Definition Options_default : Options :=
  {| opt_nodelay := false; opt_keepalive := None; opt_linger := None; opt_user_timeout := None;
     read_timeout := None; write_timeout := None |}.
Definition set_option (o : SocketOption) (s : Options) : Options :=
  match o with
  | Nodelay b =>
      {| opt_nodelay := b; opt_keepalive := opt_keepalive s; opt_linger := opt_linger s;
         opt_user_timeout := opt_user_timeout s; read_timeout := read_timeout s; write_timeout := write_timeout s |}
  | Keepalive k =>
      {| opt_nodelay := opt_nodelay s; opt_keepalive := Some k; opt_linger := opt_linger s;
         opt_user_timeout := opt_user_timeout s; read_timeout := read_timeout s; write_timeout := write_timeout s |}
  | Linger d =>
      {| opt_nodelay := opt_nodelay s; opt_keepalive := opt_keepalive s; opt_linger := d;
         opt_user_timeout := opt_user_timeout s; read_timeout := read_timeout s; write_timeout := write_timeout s |}
  | UserTimeout d =>
      {| opt_nodelay := opt_nodelay s; opt_keepalive := opt_keepalive s; opt_linger := opt_linger s;
         opt_user_timeout := d; read_timeout := read_timeout s; write_timeout := write_timeout s |}
  | ReadTimeout d =>
      {| opt_nodelay := opt_nodelay s; opt_keepalive := opt_keepalive s; opt_linger := opt_linger s;
         opt_user_timeout := opt_user_timeout s; read_timeout := d; write_timeout := write_timeout s |}
  | WriteTimeout d =>
      {| opt_nodelay := opt_nodelay s; opt_keepalive := opt_keepalive s; opt_linger := opt_linger s;
         opt_user_timeout := opt_user_timeout s; read_timeout := read_timeout s; write_timeout := d |}
  end.

(** A native_tls connector, as far as it is configured. *)
Record Connector := { accept_invalid_certs : bool; accept_invalid_hostnames : bool; use_sni : bool }.

(** [SocketAddr] with [to_socket_addrs]; [TcpStream::connect], which tries the
    addresses of a name itself; [connect_timeout]; the options that the system
    refuses; Unix sockets; and the TLS crates, with the text of their errors. *)
Class Network := {
  SocketAddr : Type;
  to_socket_addrs : bytes -> Z -> result io_ErrorKind (list SocketAddr);
  tcp_connect : bytes -> Z -> result io_ErrorKind SocketAddr;
  tcp_connect_timeout : SocketAddr -> Duration -> result io_ErrorKind unit;
  refuses : SocketOption -> option io_ErrorKind;
  unix_connect : bytes -> result io_ErrorKind unit;
  connector_build : Connector -> result bytes unit;
  tls_handshake : Connector -> bytes -> SocketAddr -> result bytes unit;
  server_name : bytes -> result bytes unit;
  client_connection : ClientConfig -> bytes -> result bytes unit
}.

Section sockets.
Context `{Network}.

Record Socket := { peer : SocketAddr; options : Options }.
Definition with_option (o : SocketOption) (s : Socket) : Socket :=
  {| peer := peer s; options := set_option o (options s) |}.

Definition io_result {A} (r : result io_ErrorKind A) : result RedisError A := map_err redis_error_of_io r.

(** Setting an option; a time-out of zero is an invalid argument. *)
Definition setsockopt (o : SocketOption) : result io_ErrorKind unit :=
  match o with
  | ReadTimeout (Some 0) | WriteTimeout (Some 0) => Err Io_Other
  | _ => match refuses o with Some k => Err k | None => Ok () end
  end.
Definition set_on (o : SocketOption) (s : Socket) : result io_ErrorKind Socket :=
  _ ← setsockopt o; Ok (with_option o s).

(** [stream_with_settings], on Linux. *)
Definition stream_with_settings (s : Socket) (t : TcpSettings) : result io_ErrorKind Socket :=
  s ← set_on (Nodelay (nodelay t)) s;
  s ← match keepalive t with Some k => set_on (Keepalive k) s | None => Ok s end;
  s ← match linger_time t with Some d => set_on (Linger (Some d)) s | None => Ok s end;
  set_on (UserTimeout (user_timeout t)) s.

Definition connect_tcp (host : bytes) (port : Z) (t : TcpSettings) : result io_ErrorKind Socket :=
  a ← tcp_connect host port;
  stream_with_settings {| peer := a; options := Options_default |} t.
Definition connect_tcp_timeout (a : SocketAddr) (timeout : Duration) (t : TcpSettings)
    : result io_ErrorKind Socket :=
  _ ← tcp_connect_timeout a timeout;
  stream_with_settings {| peer := a; options := Options_default |} t.

(** The loop over the addresses, with [last_error]. *)
Fixpoint connect_first (timeout : Duration) (t : TcpSettings) (addrs : list SocketAddr)
    (last_error : option io_ErrorKind) : result RedisError Socket :=
  match addrs with
  | [] =>
      match last_error with
      | Some e => Err (redis_error_of_io e)
      | None => Err (redis_error_of InvalidClientConfig "could not resolve to any addresses")
      end
  | a :: addrs =>
      match connect_tcp_timeout a timeout t with
      | Ok s => Ok s
      | Err e => connect_first timeout t addrs (Some e)
      end
  end.
(** [match timeout { None => connect_tcp(..)?, Some(timeout) => .. }]. *)
Definition open_tcp (host : bytes) (port : Z) (timeout : option Duration) (t : TcpSettings)
    : result RedisError Socket :=
  match timeout with
  | None => io_result (connect_tcp host port t)
  | Some timeout =>
      addrs ← io_result (to_socket_addrs host port);
      connect_first timeout t addrs None
  end.

(** ** [ActualConnection] *)

Inductive ActualConnection :=
| ActualTcp (s : Socket)
| TcpNativeTls (c : Connector) (s : Socket)
| TcpRustls (c : ClientConfig) (s : Socket)
| ActualUnix (path : bytes) (o : Options).

(** [From<native_tls::Error> for RedisError], [From<InvalidDnsNameError>]. *)
Definition redis_error_of_native_tls (msg : bytes) : RedisError := ErrorRepr_Internal Client (OtherDynError msg).
Definition redis_error_of_dns_name (msg : bytes) : RedisError := ErrorRepr_Internal Io (OtherDynError msg).

Definition native_connector (insecure : bool) (tls_params : option TlsConnParams) : Connector :=
  if insecure then {| accept_invalid_certs := true; accept_invalid_hostnames := true; use_sni := false |}
  else match tls_params with
       | Some p => {| accept_invalid_certs := false;
                      accept_invalid_hostnames := danger_accept_invalid_hostnames p; use_sni := true |}
       | None => {| accept_invalid_certs := false; accept_invalid_hostnames := false; use_sni := true |}
       end.

(** The branch for native_tls; [None] is the panic of [unwrap] on the handshake. *)
Definition open_native_tls (host : bytes) (port : Z) (insecure : bool) (tls_params : option TlsConnParams)
    (timeout : option Duration) (t : TcpSettings) : option (result RedisError ActualConnection) :=
  let c := native_connector insecure tls_params in
  match connector_build c with
  | Err e => Some (Err (redis_error_of_native_tls e))
  | Ok _ =>
      match open_tcp host port timeout t with
      | Err e => Some (Err e)
      | Ok s =>
          match tls_handshake c host (peer s), timeout with
          | Ok _, _ => Some (Ok (TcpNativeTls c s))
          | Err e, None => Some (Err (redis_error_of_detail Io "SSL Handshake error" e))
          | Err _, Some _ => None
          end
      end
  end.

(** The branch for rustls, which leaves the handshake to the first write. *)
Definition open_rustls `{TlsFeatures} `{Pem} `{Rustls} (host : bytes) (port : Z) (insecure : bool)
    (tls_params : option TlsConnParams) (timeout : option Duration) (t : TcpSettings)
    : result RedisError ActualConnection :=
  config ← create_rustls_config insecure tls_params;
  _ ← map_err redis_error_of_dns_name (server_name host);
  _ ← map_err redis_error_of_rustls (client_connection config host);
  s ← open_tcp host port timeout t;
  Ok (TcpRustls config s).

Definition ActualConnection_new `{TlsFeatures} `{Pem} `{Rustls} `{TargetOs} (a : ConnectionAddr)
    (timeout : option Duration) (t : TcpSettings) : option (result RedisError ActualConnection) :=
  match a with
  | Tcp host port =>
      if is_wildcard_address host
      then Some (invalid_config "Cannot connect to a wildcard address (0.0.0.0 or ::)")
      else Some (s ← open_tcp host port timeout t; Ok (ActualTcp s))
  | TcpTls host port insecure tls_params =>
      if tls_rustls then Some (open_rustls host port insecure tls_params timeout t)
      else if tls_native_tls then open_native_tls host port insecure tls_params timeout t
      else Some (invalid_config "Cannot connect to TCP with TLS without the tls feature")
  | Unix path =>
      if cfg_unix then Some (_ ← io_result (unix_connect path); Ok (ActualUnix path Options_default))
      else Some (invalid_config "Cannot connect to unix sockets on this platform")
  end.

Definition options_of (a : ActualConnection) : Options :=
  match a with
  | ActualTcp s | TcpNativeTls _ s | TcpRustls _ s => options s
  | ActualUnix _ o => o
  end.
Definition actual_set (o : SocketOption) (a : ActualConnection) : result RedisError ActualConnection :=
  match a with
  | ActualTcp s => s ← io_result (set_on o s); Ok (ActualTcp s)
  | TcpNativeTls c s => s ← io_result (set_on o s); Ok (TcpNativeTls c s)
  | TcpRustls c s => s ← io_result (set_on o s); Ok (TcpRustls c s)
  | ActualUnix path opts => _ ← io_result (setsockopt o); Ok (ActualUnix path (set_option o opts))
  end.
Definition actual_set_read_timeout (d : option Duration) := actual_set (ReadTimeout d).
Definition actual_set_write_timeout (d : option Duration) := actual_set (WriteTimeout d).
End sockets.

(** ** [connect] *)

Definition checked_sub (a b : Duration) : option Duration := if b <=? a then Some (a - b) else None.

Section connecting.
Context `{Network} `{TlsFeatures} `{Pem} `{Rustls} `{TargetOs} `{BuildProfile} `{CargoPkgVersion}.
(** The results of reading from and writing to a connection. *)
Variable traffic : ActualConnection -> list (result RedisError Value) * list (option io_ErrorKind).

(** A connection with its socket. *)
Record Established := { actual : ActualConnection; conn : Connection }.

Definition set_timeouts (d : option Duration) (a : ActualConnection) : result RedisError ActualConnection :=
  a ← actual_set_read_timeout d a; actual_set_write_timeout d a.

(** [connect]; [elapsed] is the time that connecting took. *)
Definition connect (info : ConnectionInfo) (timeout : option Duration) (elapsed : Duration)
    : exec unit Established :=
  match ActualConnection_new (addr info) timeout (tcp_settings info) with
  | None => Panicked
  | Some (Err e) => Return (Err e) ()
  | Some (Ok con) =>
      let remaining_timeout := timeout ≫= fun t => checked_sub t elapsed in
      if bool_decide (is_Some timeout) && bool_decide (remaining_timeout = None)
      then Return (Err (redis_error_of_io TimedOut)) ()
      else
        match set_timeouts remaining_timeout con with
        | Err e => Return (Err e) ()
        | Ok con =>
            let '(incoming, writes) := traffic con in
            match setup_connection (redis_settings info) None
                    (fresh_connection (redis_settings info) incoming writes) with
            | Return (Ok _) c =>
                match set_timeouts None con with
                | Ok con => Return (Ok {| actual := con; conn := c |}) ()
                | Err e => Return (Err e) ()
                end
            | Return (Err e) _ => Return (Err e) ()
            | Waiting => Waiting
            | Panicked => Panicked
            end
        end
  end.

(** ** Trying addresses *)

(** The first address that can be connected to is used, and the error is that of
    the last one. *)
Lemma connect_first_spec timeout t addrs last_error :
  match connect_first timeout t addrs last_error with
  | Ok s => exists before a after, addrs = before ++ a :: after /\
      Forall (fun a => is_ok (connect_tcp_timeout a timeout t) = false) before /\
      connect_tcp_timeout a timeout t = Ok s
  | Err e =>
      Forall (fun a => is_ok (connect_tcp_timeout a timeout t) = false) addrs /\
      match last addrs with
      | Some a => exists k, connect_tcp_timeout a timeout t = Err k /\ e = redis_error_of_io k
      | None => e = match last_error with
                    | Some k => redis_error_of_io k
                    | None => redis_error_of InvalidClientConfig "could not resolve to any addresses"
                    end
      end
  end.
Proof.
  revert last_error. induction addrs as [|a addrs IH]; intros last_error; simpl; [by destruct last_error|].
  destruct (connect_tcp_timeout a timeout t) as [s|k] eqn:E.
  - by exists [], a, addrs.
  - specialize (IH (Some k)). destruct (connect_first timeout t addrs (Some k)) as [s|e].
    + destruct IH as (before & b & after & -> & Hb & Hs). exists (a :: before), b, after.
      split_and!; [done| |done]. constructor; [by rewrite E|done].
    + destruct IH as [Hf He]. split; [constructor; [by rewrite E|done]|].
      destruct addrs as [|b addrs]; [by exists k|]. change (last (a :: b :: addrs)) with (last (b :: addrs)).
      destruct (last (b :: addrs)) eqn:El; [done|by apply last_None in El].
Qed.

(** ** Options *)

(** The options that the settings ask for, and no time-out. *)
Definition settings_applied (t : TcpSettings) (o : Options) : Prop :=
  opt_nodelay o = nodelay t /\ opt_keepalive o = keepalive t /\ opt_linger o = linger_time t /\
  opt_user_timeout o = user_timeout t.

#[local] Arguments setsockopt : simpl never.
Lemma stream_with_settings_Ok a t s :
  stream_with_settings {| peer := a; options := Options_default |} t = Ok s ->
  peer s = a /\ settings_applied t (options s).
Proof.
  unfold stream_with_settings, set_on, settings_applied. destruct (setsockopt (Nodelay _)); cbn [mbind result_bind]; [|done].
  destruct (keepalive t) as [k|]; [destruct (setsockopt (Keepalive k)); cbn [mbind result_bind]; [|done]|cbn [mbind result_bind]].
  all: destruct (linger_time t) as [d|]; [destruct (setsockopt (Linger _)); cbn [mbind result_bind]; [|done]|cbn [mbind result_bind]].
  all: destruct (setsockopt (UserTimeout _)); cbn [mbind result_bind]; [|done]; by intros [= <-].
Qed.

(** The socket is connected to an address of the host. *)
Lemma open_tcp_Ok host port timeout t s : open_tcp host port timeout t = Ok s ->
  settings_applied t (options s) /\
  match timeout with
  | None => tcp_connect host port = Ok (peer s)
  | Some _ => exists addrs, to_socket_addrs host port = Ok addrs /\ peer s ∈ addrs
  end.
Proof.
  unfold open_tcp. destruct timeout as [d|].
  - destruct (to_socket_addrs host port) as [addrs|]; [simpl|done]. intros Hs.
    pose proof (connect_first_spec d t addrs None) as Hc. rewrite Hs in Hc.
    destruct Hc as (before & a & after & -> & _ & Ha). unfold connect_tcp_timeout in Ha.
    destruct (tcp_connect_timeout a d); [simpl in Ha|done].
    apply stream_with_settings_Ok in Ha as [-> Ha]. split; [done|]. eexists. split; [done|]. set_solver.
  - unfold connect_tcp. destruct (tcp_connect host port) as [a|]; [simpl|done]. unfold io_result.
    destruct (stream_with_settings _ t) as [s'|] eqn:E; [|done]. intros [= <-].
    by apply stream_with_settings_Ok in E as [-> Ha].
Qed.

Definition same_but_timeouts (o o' : Options) : Prop :=
  opt_nodelay o = opt_nodelay o' /\ opt_keepalive o = opt_keepalive o' /\ opt_linger o = opt_linger o' /\
  opt_user_timeout o = opt_user_timeout o'.
(** The same connection with other time-outs. *)
Definition same_actual (a a' : ActualConnection) : Prop :=
  same_but_timeouts (options_of a) (options_of a') /\
  match a, a' with
  | ActualTcp s, ActualTcp s' => peer s = peer s'
  | TcpNativeTls c s, TcpNativeTls c' s' | TcpRustls c s, TcpRustls c' s' => c = c' /\ peer s = peer s'
  | ActualUnix p _, ActualUnix p' _ => p = p'
  | _, _ => False
  end.

Lemma set_timeouts_Ok d a a' : set_timeouts d a = Ok a' ->
  same_actual a a' /\ read_timeout (options_of a') = d /\ write_timeout (options_of a') = d /\ d <> Some 0.
Proof.
  unfold set_timeouts, actual_set_read_timeout, actual_set_write_timeout, actual_set, set_on.
  destruct (setsockopt (ReadTimeout d)) as [[]|] eqn:Er; [|by destruct a].
  destruct (setsockopt (WriteTimeout d)) as [[]|] eqn:Ew; [|by destruct a].
  assert (d <> Some 0) by (intros ->; done).
  destruct a; intros [= <-]; by split_and!.
Qed.

Lemma ActualConnection_new_Ok a timeout t con : ActualConnection_new a timeout t = Some (Ok con) ->
  match a, con with
  | Tcp host port, ActualTcp s => is_wildcard_address host = false /\ open_tcp host port timeout t = Ok s
  | TcpTls host port insecure tls_params, TcpRustls config s =>
      tls_rustls = true /\ create_rustls_config insecure tls_params = Ok config /\ open_tcp host port timeout t = Ok s
  | TcpTls host port insecure tls_params, TcpNativeTls connector s =>
      tls_native_tls = true /\ connector = native_connector insecure tls_params /\
      open_tcp host port timeout t = Ok s /\ tls_handshake connector host (peer s) = Ok ()
  | Unix path, ActualUnix path' o => path' = path /\ o = Options_default
  | _, _ => False
  end.
Proof.
  unfold ActualConnection_new. destruct a as [host port|host port insecure p|path].
  - destruct (is_wildcard_address host); [done|]. destruct (open_tcp _ _ _ _); [|done]. by intros [= <-].
  - destruct tls_rustls.
    + unfold open_rustls. destruct (create_rustls_config insecure p) as [config|]; [simpl|done].
      destruct (server_name host); [simpl|done]. destruct (client_connection config host); [simpl|done].
      destruct (open_tcp _ _ _ _); [|done]. by intros [= <-].
    + destruct tls_native_tls; [|done]. unfold open_native_tls. destruct (connector_build _); [|done].
      destruct (open_tcp _ _ _ _) as [s|]; [|done].
      destruct (tls_handshake _ _ _) as [[]|] eqn:Hh, timeout; intros [= <-]; by rewrite Hh.
  - destruct cfg_unix; [|done]. destruct (unix_connect path); [|done]. by intros [= <-].
Qed.

(** Opening a socket panics in one case: a handshake of native_tls that fails while
    there is a time-out; without one the same failure is an error. *)
Lemma ActualConnection_new_panics a timeout t : ActualConnection_new a timeout t = None ->
  exists host port insecure p d s e, a = TcpTls host port insecure p /\ timeout = Some d /\ tls_rustls = false /\
    open_tcp host port timeout t = Ok s /\ tls_handshake (native_connector insecure p) host (peer s) = Err e.
Proof.
  unfold ActualConnection_new. destruct a as [host port|host port insecure p|path]; [by case_match| |by case_match].
  destruct tls_rustls eqn:Hr; [done|]. destruct tls_native_tls; [|done]. unfold open_native_tls.
  destruct (connector_build _); [|done]. destruct (open_tcp host port timeout t) as [s|] eqn:Hs; [|done].
  destruct (tls_handshake _ _ _) as [|e] eqn:Hh, timeout as [d|]; try done. intros _.
  by exists host, port, insecure, p, d, s, e.
Qed.
(** ** Connections that are returned *)

(** How the transport of a connection fits the address. *)
Definition transport_fits (a : ConnectionAddr) (con : ActualConnection) : Prop :=
  match a, con with
  | Tcp host port, ActualTcp _ => is_wildcard_address host = false
  | TcpTls host port insecure tls_params, TcpRustls config _ =>
      create_rustls_config insecure tls_params = Ok config
  | TcpTls host port insecure tls_params, TcpNativeTls connector s =>
      connector = native_connector insecure tls_params /\ tls_handshake connector host (peer s) = Ok ()
  | Unix path, ActualUnix path' _ => path' = path
  | _, _ => False
  end.
(** The options of the socket, and the address it is connected to. *)
Definition socket_fits (a : ConnectionAddr) (timeout : option Duration) (t : TcpSettings) (con : ActualConnection)
    : Prop :=
  match a, con with
  | Tcp host port, ActualTcp s | TcpTls host port _ _, TcpRustls _ s | TcpTls host port _ _, TcpNativeTls _ s =>
      settings_applied t (options s) /\
      match timeout with
      | None => tcp_connect host port = Ok (peer s)
      | Some _ => exists addrs, to_socket_addrs host port = Ok addrs /\ peer s ∈ addrs
      end
  | _, _ => True
  end.

Lemma new_fits a timeout t con : ActualConnection_new a timeout t = Some (Ok con) ->
  transport_fits a con /\ socket_fits a timeout t con.
Proof.
  intros Hn%ActualConnection_new_Ok. destruct a, con; try done; simpl in *.
  - destruct Hn as [Hw Ho%open_tcp_Ok]. done.
  - destruct Hn as (_ & -> & Ho%open_tcp_Ok & Hh). done.
  - destruct Hn as (_ & Hc & Ho%open_tcp_Ok). done.
  - by destruct Hn.
Qed.

Lemma same_actual_fits a timeout t con con' : same_actual con con' ->
  transport_fits a con /\ socket_fits a timeout t con -> transport_fits a con' /\ socket_fits a timeout t con'.
Proof.
  intros [(E1 & E2 & E3 & E4) Hs]. unfold transport_fits, socket_fits, settings_applied.
  destruct con, con'; try done; simpl in *; rewrite ?E1, ?E2, ?E3, ?E4.
  - rewrite Hs. by destruct a.
  - destruct Hs as [-> ->]. by destruct a.
  - destruct Hs as [-> ->]. by destruct a.
  - by destruct a; subst.
Qed.

(** A connection that [connect] returns is ready to be used: the settings ask for what
    was set on its socket, no time-out of the set-up is left on it, it leads to an
    address of the host over the transport that the address asks for, TLS with the
    verification of the settings included, and the server accepted its set-up,
    which ran under what was left of the time-out. *)
Theorem connect_ready info timeout elapsed e : connect info timeout elapsed = Return (Ok e) () ->
  transport_fits (addr info) (actual e) /\ socket_fits (addr info) timeout (tcp_settings info) (actual e) /\
  read_timeout (options_of (actual e)) = None /\ write_timeout (options_of (actual e)) = None /\
  (forall t, timeout = Some t -> elapsed < t) /\
  exists con, same_actual con (actual e) /\
    read_timeout (options_of con) = (fun t => t - elapsed) <$> timeout /\
    write_timeout (options_of con) = (fun t => t - elapsed) <$> timeout /\
    setup_connection (redis_settings info) None
      (fresh_connection (redis_settings info) (traffic con).1 (traffic con).2) = Return (Ok ()) (conn e).
Proof.
  unfold connect. destruct (ActualConnection_new _ _ _) as [[con0|]|] eqn:Hn; [|done..].
  apply new_fits in Hn.
  destruct (_ && _) eqn:Ht; [done|]. destruct (set_timeouts _ con0) as [con1|] eqn:T1; [|done].
  apply set_timeouts_Ok in T1 as (S1 & R1 & W1 & N1). pose proof (same_actual_fits _ _ _ _ _ S1 Hn) as F1.
  destruct (traffic con1) as [incoming writes] eqn:Htr.
  destruct (setup_connection _ _ _) as [[[]|] c| |] eqn:Hs; try done.
  destruct (set_timeouts None con1) as [con2|] eqn:T2; [|done]. intros [= <-]. simpl.
  apply set_timeouts_Ok in T2 as (S2 & R2 & W2 & _). destruct (same_actual_fits _ _ _ _ _ S2 F1) as [F2 F3].
  assert (match timeout with Some t => checked_sub t elapsed = Some (t - elapsed) /\ elapsed < t | None => True end) as Hr.
  { destruct timeout as [t|]; [|done]. simpl in *. unfold checked_sub in *.
    destruct (Z.leb_spec elapsed t) as [Hle|]; simpl in *.
    - split; [done|]. destruct (decide (t - elapsed = 0)) as [E|]; [congruence|lia].
    - done. }
  split_and!; [done..| |].
  - intros t ->. by destruct Hr.
  - exists con1. rewrite Htr. split; [done|]. rewrite R1, W1.
    destruct timeout as [t|]; [|done]. simpl. by destruct Hr as [-> _].
Qed.

(** A set-up that takes the whole time-out to the nanosecond ends in the error of the
    socket for a time-out of zero, instead of saying that it timed out. *)
Lemma exact_timeout_invalid info t con : ActualConnection_new (addr info) (Some t) (tcp_settings info) = Some (Ok con) ->
  connect info (Some t) t = Return (Err (redis_error_of_io Io_Other)) ().
Proof.
  intros Hn. unfold connect. rewrite Hn. simpl. unfold checked_sub. rewrite Z.leb_refl, Z.sub_diag. simpl.
  unfold set_timeouts, actual_set_read_timeout, actual_set. by destruct con.
Qed.
(** Later than that it is a time-out. *)
Lemma late_connect_times_out info t elapsed con :
  ActualConnection_new (addr info) (Some t) (tcp_settings info) = Some (Ok con) -> t < elapsed ->
  connect info (Some t) elapsed = Return (Err (redis_error_of_io TimedOut)) ().
Proof.
  intros Hn Hl. unfold connect. rewrite Hn. simpl. unfold checked_sub. destruct (Z.leb_spec elapsed t); [lia|done].
Qed.
End connecting.

(** ** An example *)

(** A name with two addresses, of which the first refuses connections. *)
#[local] Instance two_addresses : Network := {|
  SocketAddr := nat;
  to_socket_addrs _ _ := Ok [1%nat; 2%nat];
  tcp_connect _ _ := Ok 2%nat;
  tcp_connect_timeout a _ := if (a =? 1)%nat then Err ConnectionRefused else Ok ();
  refuses _ := None;
  unix_connect _ := Err NotFound;
  connector_build _ := Ok ();
  tls_handshake _ _ _ := Err (bs "bad certificate");
  server_name _ := Ok ();
  client_connection _ _ := Ok ()
|}.
#[local] Existing Instance plain_pem.
#[local] Existing Instance plain_rustls.
Definition greeting (_ : ActualConnection) : list (result RedisError Value) * list (option io_ErrorKind) :=
  ([Ok Okay], []).
Definition host_info : ConnectionInfo :=
  {| addr := Tcp (bs "host") 6379; tcp_settings := set_nodelay TcpSettings_default true;
     redis_settings := set_skip_set_lib_name (set_password RedisConnectionInfo_default (bs "secret")) |}.

Lemma connect_ready_witness :
  let _ : BuildProfile := true in let _ : CargoPkgVersion := bs "1.7.0" in let _ : TargetOs := true in
  let _ : TlsFeatures := rustls_features in
  exists e, connect greeting host_info (Some 1000) 400 = Return (Ok e) () /\
    read_timeout (options_of (actual e)) = None /\
    setup_connection (redis_settings host_info) None
      (fresh_connection (redis_settings host_info) [Ok Okay] []) = Return (Ok ()) (conn e).
Proof.
  intros B V T F.
  destruct (connect greeting host_info (Some 1000) 400) as [[e|]| |] eqn:He; [|by vm_compute in He..].
  destruct s. destruct (connect_ready greeting host_info (Some 1000) 400 e He) as (_ & _ & Hr & _ & _ & con & _ & _ & _ & Hc).
  exists e. split; [reflexivity|]. split; [exact Hr|exact Hc].
Defined.

(** The same handshake failure is an error without a time-out and a panic with one. *)
Lemma handshake_failure_panics :
  let _ : BuildProfile := true in let _ : CargoPkgVersion := bs "1.7.0" in let _ : TargetOs := true in
  let _ : TlsFeatures := {| tls_rustls := false; tls_native_tls := true; tls_rustls_insecure := false;
                            tls_rustls_webpki_roots := false |} in
  let info := set_addr host_info (TcpTls (bs "host") 6379 false None) in
  connect greeting info None 0 =
    Return (Err (redis_error_of_detail Io "SSL Handshake error" (bs "bad certificate"))) () /\
  connect greeting info (Some 1000) 0 = Panicked.
Proof. by vm_compute. Qed.

(** A wildcard address is refused over TCP and tried over TLS. *)
Lemma tls_wildcard_tried :
  let _ : BuildProfile := true in let _ : CargoPkgVersion := bs "1.7.0" in let _ : TargetOs := true in
  let _ : TlsFeatures := rustls_features in
  is_ok (match ActualConnection_new (Tcp (bs "0.0.0.0") 6379) None TcpSettings_default with Some r => r | None => Err make_empty_command end) = false /\
  is_ok (match ActualConnection_new (TcpTls (bs "0.0.0.0") 6379 false None) None TcpSettings_default with Some r => r | None => Err make_empty_command end) = true.
Proof. by vm_compute. Qed.
