(* ===== verification/Manager.v ===== *)
(** * The reconnecting manager: [aio/connection_manager.rs]

    A [ConnectionManager] gives its requests one shared connection and replaces
    it when it breaks.  The connection is a shared future behind an [ArcSwap]; it
    is replaced by compare-and-swap, so that many requests that see it broken
    start one new connection.  The manager is a state machine whose steps are the
    points at which tasks can be interleaved: what a task does between two awaits
    is one step, and what the network does is part of the step.

    The theorems: a connection that failed is replaced exactly once and never
    used again; subscriptions that were confirmed are made again on the new
    connection; no two connections share an epoch of the cache; connecting is
    tried a bounded number of times.  Where a subscription can get lost, and
    where a healthy connection is thrown away, is shown by schedules. *)

From S2P Require Import Prelude Text Float64 Errors Types Cmd Convert Args Pipeline Slots Subscription Caching ConnInfo.

(** ** [AsyncConnectionConfig] of [client.rs] *)

(** What receives push messages; resolvers and credential providers, which are
    handed through, are only present or absent. *)
Inductive PushReceiver := InternalReceiver | UserReceiver.
Inductive Cache := Cache_Config (c : CacheConfig) | Cache_Manager (m : CacheManager).

(** Times in milliseconds. *)
Definition DEFAULT_RESPONSE_TIMEOUT : option Z := Some 500%Z.
Definition DEFAULT_CONNECTION_TIMEOUT : option Z := Some 1000%Z.

Record AsyncConnectionConfig := {
  acc_response_timeout : option Z;
  acc_connection_timeout : option Z;
  acc_push_sender : option PushReceiver;
  acc_cache : option Cache;
  acc_dns_resolver : bool;
  acc_pipeline_buffer_size : option Z;
  acc_concurrency_limit : option Z;
  acc_write_backpressure_boundary : option Z;
  acc_credentials_provider : bool
}.
Definition AsyncConnectionConfig_default : AsyncConnectionConfig :=
  {| acc_response_timeout := DEFAULT_RESPONSE_TIMEOUT;
     acc_connection_timeout := DEFAULT_CONNECTION_TIMEOUT; acc_push_sender := None;
     acc_cache := None; acc_dns_resolver := false; acc_pipeline_buffer_size := None;
     acc_concurrency_limit := None; acc_write_backpressure_boundary := None;
     acc_credentials_provider := false |}.
Definition acc_set_connection_timeout (o : AsyncConnectionConfig) (t : option Z) : AsyncConnectionConfig :=
  {| acc_response_timeout := acc_response_timeout o; acc_connection_timeout := t;
     acc_push_sender := acc_push_sender o; acc_cache := acc_cache o;
     acc_dns_resolver := acc_dns_resolver o;
     acc_pipeline_buffer_size := acc_pipeline_buffer_size o;
     acc_concurrency_limit := acc_concurrency_limit o;
     acc_write_backpressure_boundary := acc_write_backpressure_boundary o;
     acc_credentials_provider := acc_credentials_provider o |}.
Definition acc_set_response_timeout (o : AsyncConnectionConfig) (t : option Z) : AsyncConnectionConfig :=
  {| acc_response_timeout := t; acc_connection_timeout := acc_connection_timeout o;
     acc_push_sender := acc_push_sender o; acc_cache := acc_cache o;
     acc_dns_resolver := acc_dns_resolver o;
     acc_pipeline_buffer_size := acc_pipeline_buffer_size o;
     acc_concurrency_limit := acc_concurrency_limit o;
     acc_write_backpressure_boundary := acc_write_backpressure_boundary o;
     acc_credentials_provider := acc_credentials_provider o |}.
Definition set_push_sender_internal (o : AsyncConnectionConfig) (s : PushReceiver) : AsyncConnectionConfig :=
  {| acc_response_timeout := acc_response_timeout o;
     acc_connection_timeout := acc_connection_timeout o; acc_push_sender := Some s;
     acc_cache := acc_cache o; acc_dns_resolver := acc_dns_resolver o;
     acc_pipeline_buffer_size := acc_pipeline_buffer_size o;
     acc_concurrency_limit := acc_concurrency_limit o;
     acc_write_backpressure_boundary := acc_write_backpressure_boundary o;
     acc_credentials_provider := acc_credentials_provider o |}.
Definition acc_set_cache_config (o : AsyncConnectionConfig) (c : CacheConfig) : AsyncConnectionConfig :=
  {| acc_response_timeout := acc_response_timeout o;
     acc_connection_timeout := acc_connection_timeout o; acc_push_sender := acc_push_sender o;
     acc_cache := Some (Cache_Config c); acc_dns_resolver := acc_dns_resolver o;
     acc_pipeline_buffer_size := acc_pipeline_buffer_size o;
     acc_concurrency_limit := acc_concurrency_limit o;
     acc_write_backpressure_boundary := acc_write_backpressure_boundary o;
     acc_credentials_provider := acc_credentials_provider o |}.
Definition set_cache_manager (o : AsyncConnectionConfig) (m : CacheManager) : AsyncConnectionConfig :=
  {| acc_response_timeout := acc_response_timeout o;
     acc_connection_timeout := acc_connection_timeout o; acc_push_sender := acc_push_sender o;
     acc_cache := Some (Cache_Manager m); acc_dns_resolver := acc_dns_resolver o;
     acc_pipeline_buffer_size := acc_pipeline_buffer_size o;
     acc_concurrency_limit := acc_concurrency_limit o;
     acc_write_backpressure_boundary := acc_write_backpressure_boundary o;
     acc_credentials_provider := acc_credentials_provider o |}.
Definition set_dns_resolver_internal (o : AsyncConnectionConfig) : AsyncConnectionConfig :=
  {| acc_response_timeout := acc_response_timeout o;
     acc_connection_timeout := acc_connection_timeout o; acc_push_sender := acc_push_sender o;
     acc_cache := acc_cache o; acc_dns_resolver := true;
     acc_pipeline_buffer_size := acc_pipeline_buffer_size o;
     acc_concurrency_limit := acc_concurrency_limit o;
     acc_write_backpressure_boundary := acc_write_backpressure_boundary o;
     acc_credentials_provider := acc_credentials_provider o |}.
Definition acc_set_pipeline_buffer_size (o : AsyncConnectionConfig) (size : Z) : AsyncConnectionConfig :=
  {| acc_response_timeout := acc_response_timeout o;
     acc_connection_timeout := acc_connection_timeout o; acc_push_sender := acc_push_sender o;
     acc_cache := acc_cache o; acc_dns_resolver := acc_dns_resolver o;
     acc_pipeline_buffer_size := Some size; acc_concurrency_limit := acc_concurrency_limit o;
     acc_write_backpressure_boundary := acc_write_backpressure_boundary o;
     acc_credentials_provider := acc_credentials_provider o |}.
Definition acc_set_concurrency_limit (o : AsyncConnectionConfig) (limit : Z) : AsyncConnectionConfig :=
  {| acc_response_timeout := acc_response_timeout o;
     acc_connection_timeout := acc_connection_timeout o; acc_push_sender := acc_push_sender o;
     acc_cache := acc_cache o; acc_dns_resolver := acc_dns_resolver o;
     acc_pipeline_buffer_size := acc_pipeline_buffer_size o;
     acc_concurrency_limit := Some limit;
     acc_write_backpressure_boundary := acc_write_backpressure_boundary o;
     acc_credentials_provider := acc_credentials_provider o |}.
Definition acc_set_write_backpressure_boundary (o : AsyncConnectionConfig) (boundary : Z) : AsyncConnectionConfig :=
  {| acc_response_timeout := acc_response_timeout o;
     acc_connection_timeout := acc_connection_timeout o; acc_push_sender := acc_push_sender o;
     acc_cache := acc_cache o; acc_dns_resolver := acc_dns_resolver o;
     acc_pipeline_buffer_size := acc_pipeline_buffer_size o;
     acc_concurrency_limit := acc_concurrency_limit o;
     acc_write_backpressure_boundary := Some boundary;
     acc_credentials_provider := acc_credentials_provider o |}.
Definition acc_set_credentials_provider (o : AsyncConnectionConfig) : AsyncConnectionConfig :=
  {| acc_response_timeout := acc_response_timeout o;
     acc_connection_timeout := acc_connection_timeout o; acc_push_sender := acc_push_sender o;
     acc_cache := acc_cache o; acc_dns_resolver := acc_dns_resolver o;
     acc_pipeline_buffer_size := acc_pipeline_buffer_size o;
     acc_concurrency_limit := acc_concurrency_limit o;
     acc_write_backpressure_boundary := acc_write_backpressure_boundary o;
     acc_credentials_provider := true |}.
Definition acc_set_push_sender (o : AsyncConnectionConfig) : AsyncConnectionConfig :=
  set_push_sender_internal o UserReceiver.

(** ** Configuration of the manager *)

(** An [f32] as its bits: 2.0. *)
Definition DEFAULT_CONNECTION_RETRY_EXPONENT_BASE : Z := 0x40000000.
Definition DEFAULT_CONNECTION_RETRY_MIN_DELAY : Z := 100.
Definition DEFAULT_NUMBER_OF_CONNECTION_RETRIES : Z := 6.

Record ConnectionManagerConfig := {
  cm_exponent_base : Z;
  cm_min_delay : Z;
  cm_max_delay : option Z;
  cm_number_of_retries : Z;
  cm_response_timeout : option Z;
  cm_connection_timeout : option Z;
  cm_push_sender : bool;
  cm_resubscribe_automatically : bool;
  cm_cache_config : option CacheConfig;
  cm_pipeline_buffer_size : option Z;
  cm_concurrency_limit : option Z;
  cm_write_backpressure_boundary : option Z;
  cm_credentials_provider : bool
}.
Definition ConnectionManagerConfig_default : ConnectionManagerConfig :=
  {| cm_exponent_base := DEFAULT_CONNECTION_RETRY_EXPONENT_BASE;
     cm_min_delay := DEFAULT_CONNECTION_RETRY_MIN_DELAY; cm_max_delay := None;
     cm_number_of_retries := DEFAULT_NUMBER_OF_CONNECTION_RETRIES;
     cm_response_timeout := DEFAULT_RESPONSE_TIMEOUT;
     cm_connection_timeout := DEFAULT_CONNECTION_TIMEOUT; cm_push_sender := false;
     cm_resubscribe_automatically := false; cm_cache_config := None;
     cm_pipeline_buffer_size := None; cm_concurrency_limit := None;
     cm_write_backpressure_boundary := None; cm_credentials_provider := false |}.
Definition cm_set_min_delay (o : ConnectionManagerConfig) (d : Z) : ConnectionManagerConfig :=
  {| cm_exponent_base := cm_exponent_base o; cm_min_delay := d;
     cm_max_delay := cm_max_delay o; cm_number_of_retries := cm_number_of_retries o;
     cm_response_timeout := cm_response_timeout o;
     cm_connection_timeout := cm_connection_timeout o; cm_push_sender := cm_push_sender o;
     cm_resubscribe_automatically := cm_resubscribe_automatically o;
     cm_cache_config := cm_cache_config o;
     cm_pipeline_buffer_size := cm_pipeline_buffer_size o;
     cm_concurrency_limit := cm_concurrency_limit o;
     cm_write_backpressure_boundary := cm_write_backpressure_boundary o;
     cm_credentials_provider := cm_credentials_provider o |}.
Definition cm_set_max_delay (o : ConnectionManagerConfig) (d : Z) : ConnectionManagerConfig :=
  {| cm_exponent_base := cm_exponent_base o; cm_min_delay := cm_min_delay o;
     cm_max_delay := Some d; cm_number_of_retries := cm_number_of_retries o;
     cm_response_timeout := cm_response_timeout o;
     cm_connection_timeout := cm_connection_timeout o; cm_push_sender := cm_push_sender o;
     cm_resubscribe_automatically := cm_resubscribe_automatically o;
     cm_cache_config := cm_cache_config o;
     cm_pipeline_buffer_size := cm_pipeline_buffer_size o;
     cm_concurrency_limit := cm_concurrency_limit o;
     cm_write_backpressure_boundary := cm_write_backpressure_boundary o;
     cm_credentials_provider := cm_credentials_provider o |}.
Definition cm_set_exponent_base (o : ConnectionManagerConfig) (b : Z) : ConnectionManagerConfig :=
  {| cm_exponent_base := b; cm_min_delay := cm_min_delay o; cm_max_delay := cm_max_delay o;
     cm_number_of_retries := cm_number_of_retries o;
     cm_response_timeout := cm_response_timeout o;
     cm_connection_timeout := cm_connection_timeout o; cm_push_sender := cm_push_sender o;
     cm_resubscribe_automatically := cm_resubscribe_automatically o;
     cm_cache_config := cm_cache_config o;
     cm_pipeline_buffer_size := cm_pipeline_buffer_size o;
     cm_concurrency_limit := cm_concurrency_limit o;
     cm_write_backpressure_boundary := cm_write_backpressure_boundary o;
     cm_credentials_provider := cm_credentials_provider o |}.
Definition cm_set_number_of_retries (o : ConnectionManagerConfig) (n : Z) : ConnectionManagerConfig :=
  {| cm_exponent_base := cm_exponent_base o; cm_min_delay := cm_min_delay o;
     cm_max_delay := cm_max_delay o; cm_number_of_retries := n;
     cm_response_timeout := cm_response_timeout o;
     cm_connection_timeout := cm_connection_timeout o; cm_push_sender := cm_push_sender o;
     cm_resubscribe_automatically := cm_resubscribe_automatically o;
     cm_cache_config := cm_cache_config o;
     cm_pipeline_buffer_size := cm_pipeline_buffer_size o;
     cm_concurrency_limit := cm_concurrency_limit o;
     cm_write_backpressure_boundary := cm_write_backpressure_boundary o;
     cm_credentials_provider := cm_credentials_provider o |}.
Definition cm_set_response_timeout (o : ConnectionManagerConfig) (d : option Z) : ConnectionManagerConfig :=
  {| cm_exponent_base := cm_exponent_base o; cm_min_delay := cm_min_delay o;
     cm_max_delay := cm_max_delay o; cm_number_of_retries := cm_number_of_retries o;
     cm_response_timeout := d; cm_connection_timeout := cm_connection_timeout o;
     cm_push_sender := cm_push_sender o;
     cm_resubscribe_automatically := cm_resubscribe_automatically o;
     cm_cache_config := cm_cache_config o;
     cm_pipeline_buffer_size := cm_pipeline_buffer_size o;
     cm_concurrency_limit := cm_concurrency_limit o;
     cm_write_backpressure_boundary := cm_write_backpressure_boundary o;
     cm_credentials_provider := cm_credentials_provider o |}.
Definition cm_set_connection_timeout (o : ConnectionManagerConfig) (d : option Z) : ConnectionManagerConfig :=
  {| cm_exponent_base := cm_exponent_base o; cm_min_delay := cm_min_delay o;
     cm_max_delay := cm_max_delay o; cm_number_of_retries := cm_number_of_retries o;
     cm_response_timeout := cm_response_timeout o; cm_connection_timeout := d;
     cm_push_sender := cm_push_sender o;
     cm_resubscribe_automatically := cm_resubscribe_automatically o;
     cm_cache_config := cm_cache_config o;
     cm_pipeline_buffer_size := cm_pipeline_buffer_size o;
     cm_concurrency_limit := cm_concurrency_limit o;
     cm_write_backpressure_boundary := cm_write_backpressure_boundary o;
     cm_credentials_provider := cm_credentials_provider o |}.
Definition cm_set_push_sender (o : ConnectionManagerConfig) : ConnectionManagerConfig :=
  {| cm_exponent_base := cm_exponent_base o; cm_min_delay := cm_min_delay o;
     cm_max_delay := cm_max_delay o; cm_number_of_retries := cm_number_of_retries o;
     cm_response_timeout := cm_response_timeout o;
     cm_connection_timeout := cm_connection_timeout o; cm_push_sender := true;
     cm_resubscribe_automatically := cm_resubscribe_automatically o;
     cm_cache_config := cm_cache_config o;
     cm_pipeline_buffer_size := cm_pipeline_buffer_size o;
     cm_concurrency_limit := cm_concurrency_limit o;
     cm_write_backpressure_boundary := cm_write_backpressure_boundary o;
     cm_credentials_provider := cm_credentials_provider o |}.
Definition cm_set_automatic_resubscription (o : ConnectionManagerConfig) : ConnectionManagerConfig :=
  {| cm_exponent_base := cm_exponent_base o; cm_min_delay := cm_min_delay o;
     cm_max_delay := cm_max_delay o; cm_number_of_retries := cm_number_of_retries o;
     cm_response_timeout := cm_response_timeout o;
     cm_connection_timeout := cm_connection_timeout o; cm_push_sender := cm_push_sender o;
     cm_resubscribe_automatically := true; cm_cache_config := cm_cache_config o;
     cm_pipeline_buffer_size := cm_pipeline_buffer_size o;
     cm_concurrency_limit := cm_concurrency_limit o;
     cm_write_backpressure_boundary := cm_write_backpressure_boundary o;
     cm_credentials_provider := cm_credentials_provider o |}.
Definition cm_set_cache_config (o : ConnectionManagerConfig) (c : CacheConfig) : ConnectionManagerConfig :=
  {| cm_exponent_base := cm_exponent_base o; cm_min_delay := cm_min_delay o;
     cm_max_delay := cm_max_delay o; cm_number_of_retries := cm_number_of_retries o;
     cm_response_timeout := cm_response_timeout o;
     cm_connection_timeout := cm_connection_timeout o; cm_push_sender := cm_push_sender o;
     cm_resubscribe_automatically := cm_resubscribe_automatically o;
     cm_cache_config := Some c; cm_pipeline_buffer_size := cm_pipeline_buffer_size o;
     cm_concurrency_limit := cm_concurrency_limit o;
     cm_write_backpressure_boundary := cm_write_backpressure_boundary o;
     cm_credentials_provider := cm_credentials_provider o |}.
Definition cm_set_pipeline_buffer_size (o : ConnectionManagerConfig) (n : Z) : ConnectionManagerConfig :=
  {| cm_exponent_base := cm_exponent_base o; cm_min_delay := cm_min_delay o;
     cm_max_delay := cm_max_delay o; cm_number_of_retries := cm_number_of_retries o;
     cm_response_timeout := cm_response_timeout o;
     cm_connection_timeout := cm_connection_timeout o; cm_push_sender := cm_push_sender o;
     cm_resubscribe_automatically := cm_resubscribe_automatically o;
     cm_cache_config := cm_cache_config o; cm_pipeline_buffer_size := Some n;
     cm_concurrency_limit := cm_concurrency_limit o;
     cm_write_backpressure_boundary := cm_write_backpressure_boundary o;
     cm_credentials_provider := cm_credentials_provider o |}.
Definition cm_set_concurrency_limit (o : ConnectionManagerConfig) (n : Z) : ConnectionManagerConfig :=
  {| cm_exponent_base := cm_exponent_base o; cm_min_delay := cm_min_delay o;
     cm_max_delay := cm_max_delay o; cm_number_of_retries := cm_number_of_retries o;
     cm_response_timeout := cm_response_timeout o;
     cm_connection_timeout := cm_connection_timeout o; cm_push_sender := cm_push_sender o;
     cm_resubscribe_automatically := cm_resubscribe_automatically o;
     cm_cache_config := cm_cache_config o;
     cm_pipeline_buffer_size := cm_pipeline_buffer_size o; cm_concurrency_limit := Some n;
     cm_write_backpressure_boundary := cm_write_backpressure_boundary o;
     cm_credentials_provider := cm_credentials_provider o |}.
Definition cm_set_write_backpressure_boundary (o : ConnectionManagerConfig) (n : Z) : ConnectionManagerConfig :=
  {| cm_exponent_base := cm_exponent_base o; cm_min_delay := cm_min_delay o;
     cm_max_delay := cm_max_delay o; cm_number_of_retries := cm_number_of_retries o;
     cm_response_timeout := cm_response_timeout o;
     cm_connection_timeout := cm_connection_timeout o; cm_push_sender := cm_push_sender o;
     cm_resubscribe_automatically := cm_resubscribe_automatically o;
     cm_cache_config := cm_cache_config o;
     cm_pipeline_buffer_size := cm_pipeline_buffer_size o;
     cm_concurrency_limit := cm_concurrency_limit o; cm_write_backpressure_boundary := Some n;
     cm_credentials_provider := cm_credentials_provider o |}.
Definition cm_set_credentials_provider (o : ConnectionManagerConfig) : ConnectionManagerConfig :=
  {| cm_exponent_base := cm_exponent_base o; cm_min_delay := cm_min_delay o;
     cm_max_delay := cm_max_delay o; cm_number_of_retries := cm_number_of_retries o;
     cm_response_timeout := cm_response_timeout o;
     cm_connection_timeout := cm_connection_timeout o; cm_push_sender := cm_push_sender o;
     cm_resubscribe_automatically := cm_resubscribe_automatically o;
     cm_cache_config := cm_cache_config o;
     cm_pipeline_buffer_size := cm_pipeline_buffer_size o;
     cm_concurrency_limit := cm_concurrency_limit o;
     cm_write_backpressure_boundary := cm_write_backpressure_boundary o;
     cm_credentials_provider := true |}.

(** [ExponentialBuilder] of the backon crate as it is configured; [None] leaves
    the crate's default. *)
Record ExponentialBuilder := {
  eb_factor : Z; eb_min_delay : Z; eb_max_times : Z; eb_jitter : bool; eb_max_delay : option Z
}.
Definition retry_strategy_of (config : ConnectionManagerConfig) : ExponentialBuilder :=
  {| eb_factor := cm_exponent_base config; eb_min_delay := cm_min_delay config;
     eb_max_times := cm_number_of_retries config; eb_jitter := true; eb_max_delay := cm_max_delay config |}.

(** The pauses it prescribes: as many as [with_max_times] says.  The lengths,
    which are random, are those of the crate. *)
Class Backon := {
  backoff_delays : ExponentialBuilder -> list Z;
  backoff_length b : length (backoff_delays b) = Z.to_nat (eb_max_times b)
}.

Definition connection_config_of (config : ConnectionManagerConfig) (cache : option CacheManager)
    (listens : bool) : AsyncConnectionConfig :=
  let c := acc_set_connection_timeout AsyncConnectionConfig_default (cm_connection_timeout config) in
  let c := acc_set_response_timeout c (cm_response_timeout config) in
  {| acc_response_timeout := acc_response_timeout c; acc_connection_timeout := acc_connection_timeout c;
     acc_push_sender := if listens then Some InternalReceiver else acc_push_sender c;
     acc_cache := match cache with Some m => Some (Cache_Manager m) | None => acc_cache c end;
     acc_dns_resolver := acc_dns_resolver c; acc_pipeline_buffer_size := cm_pipeline_buffer_size config;
     acc_concurrency_limit := cm_concurrency_limit config;
     acc_write_backpressure_boundary := cm_write_backpressure_boundary config;
     acc_credentials_provider := cm_credentials_provider config |}.

(** ** The shared connection *)

Section manager.
Context {C : Type} `{HashOrder} `{LruCache} `{KeyHash} `{Clock} `{Backon}.

(** The progress of a connection future: not polled yet, connecting, and done;
    with the commands that are sent on the new connection first. *)
Inductive FutureState :=
| Idle
| Connecting (additional_commands : option Pipeline)
| Resolved (additional_commands : option Pipeline) (r : result RedisError C).

(** A [SharedRedisFuture<MultiplexedConnection>]: one made by [reconnect] asks
    the subscription tracker when it is first polled, the lazy one does not. *)
Record ConnFuture := { cf_config : AsyncConnectionConfig; cf_reconnecting : bool; cf_state : FutureState }.

(** Requests through the manager. *)
Inductive Request :=
| RCommand (c : Cmd)
| RPipeline (p : Pipeline) (offset count : nat)
| RSubscription (action : SubscriptionAction) (channels : list bytes).
Inductive Response := RValue (v : Value) | RValues (l : list Value) | RUnit.

(** [ConnectionLike] and the subscription functions of the manager. *)
Definition manager_req_packed_command (c : Cmd) : Request := RCommand c.
Definition manager_req_packed_commands (p : Pipeline) (offset count : nat) : Request := RPipeline p offset count.
Definition manager_subscribe (channels : list bytes) : Request := RSubscription Do_Subscribe channels.
Definition manager_unsubscribe (channels : list bytes) : Request := RSubscription Do_Unsubscribe channels.
Definition manager_psubscribe (patterns : list bytes) : Request := RSubscription Do_PSubscribe patterns.
Definition manager_punsubscribe (patterns : list bytes) : Request := RSubscription Do_PUnsubscribe patterns.

(** What a request sends. *)
Definition subscription_name (a : SubscriptionAction) : string :=
  match a with
  | Do_Subscribe => "SUBSCRIBE" | Do_Unsubscribe => "UNSUBSCRIBE"
  | Do_PSubscribe => "PSUBSCRIBE" | Do_PUnsubscribe => "PUNSUBSCRIBE"
  | Do_SSubscribe => "SSUBSCRIBE" | Do_Sunsubscribe => "SUNSUBSCRIBE"
  end.
Definition request_cmds (r : Request) : list Cmd :=
  match r with
  | RCommand c => [c]
  | RPipeline p _ _ => commands p
  | RSubscription a channels => [cmd_args (subscription_name a) channels]
  end.

(** Where a request waits: for the connection it has loaded, for the reply on
    it, for the lock of the tracker. *)
Inductive Phase := Loaded (guard : nat) | Sent (guard : nat) (conn : C) | Acked (guard : nat).

(** [Internals], with the requests in progress and those answered, and the push
    messages handed to the user.  Connection futures are named by their
    positions: [Arc::ptr_eq] compares them, and none is reused while it is
    held. *)
Record Internals := {
  in_client : ConnectionInfo;
  retry_strategy : ExponentialBuilder;
  connection_config : AsyncConnectionConfig;
  in_listens : bool;
  in_forwards : bool;
  futures : list ConnFuture;
  current : nat;
  subscription_tracker : option SubscriptionTracker;
  cache_manager : option (CacheManager * ShardedLRU);
  in_progress : gmap nat (Request * Phase);
  next_request : nat;
  answers : list (nat * Request * result RedisError Response);
  forwarded : list PushInfo
}.

Definition update (m : Internals) (futures' : list ConnFuture) (current' : nat)
    (cache' : option (CacheManager * ShardedLRU)) : Internals :=
  {| in_client := in_client m; retry_strategy := retry_strategy m; connection_config := connection_config m;
     in_listens := in_listens m; in_forwards := in_forwards m; futures := futures'; current := current';
     subscription_tracker := subscription_tracker m; cache_manager := cache'; in_progress := in_progress m;
     next_request := next_request m; answers := answers m; forwarded := forwarded m |}.
Definition set_tracker (m : Internals) (t : option SubscriptionTracker) : Internals :=
  {| in_client := in_client m; retry_strategy := retry_strategy m; connection_config := connection_config m;
     in_listens := in_listens m; in_forwards := in_forwards m; futures := futures m; current := current m;
     subscription_tracker := t; cache_manager := cache_manager m; in_progress := in_progress m;
     next_request := next_request m; answers := answers m; forwarded := forwarded m |}.
Definition set_progress (m : Internals) (id : nat) (r : Request) (p : Phase) : Internals :=
  {| in_client := in_client m; retry_strategy := retry_strategy m; connection_config := connection_config m;
     in_listens := in_listens m; in_forwards := in_forwards m; futures := futures m; current := current m;
     subscription_tracker := subscription_tracker m; cache_manager := cache_manager m;
     in_progress := <[id := (r, p)]> (in_progress m); next_request := next_request m; answers := answers m;
     forwarded := forwarded m |}.
Definition begin_request (m : Internals) (r : Request) (p : Phase) : Internals :=
  {| in_client := in_client m; retry_strategy := retry_strategy m; connection_config := connection_config m;
     in_listens := in_listens m; in_forwards := in_forwards m; futures := futures m; current := current m;
     subscription_tracker := subscription_tracker m; cache_manager := cache_manager m;
     in_progress := <[next_request m := (r, p)]> (in_progress m); next_request := S (next_request m);
     answers := answers m; forwarded := forwarded m |}.
Definition answer (m : Internals) (id : nat) (r : Request) (res : result RedisError Response) : Internals :=
  {| in_client := in_client m; retry_strategy := retry_strategy m; connection_config := connection_config m;
     in_listens := in_listens m; in_forwards := in_forwards m; futures := futures m; current := current m;
     subscription_tracker := subscription_tracker m; cache_manager := cache_manager m;
     in_progress := delete id (in_progress m); next_request := next_request m;
     answers := answers m ++ [(id, r, res)]; forwarded := forwarded m |}.
Definition refuse (m : Internals) (r : Request) (e : RedisError) : Internals :=
  {| in_client := in_client m; retry_strategy := retry_strategy m; connection_config := connection_config m;
     in_listens := in_listens m; in_forwards := in_forwards m; futures := futures m; current := current m;
     subscription_tracker := subscription_tracker m; cache_manager := cache_manager m;
     in_progress := in_progress m; next_request := S (next_request m);
     answers := answers m ++ [(next_request m, r, Err e)]; forwarded := forwarded m |}.
Definition forward (m : Internals) (p : PushInfo) : Internals :=
  {| in_client := in_client m; retry_strategy := retry_strategy m; connection_config := connection_config m;
     in_listens := in_listens m; in_forwards := in_forwards m; futures := futures m; current := current m;
     subscription_tracker := subscription_tracker m; cache_manager := cache_manager m;
     in_progress := in_progress m; next_request := next_request m; answers := answers m;
     forwarded := forwarded m ++ (if in_forwards m then [p] else []) |}.

Definition protocol_of (i : ConnectionInfo) : ProtocolVersion := info_protocol (redis_settings i).

(** [new_lazy_with_config]. *)
Definition new_lazy_with_config (client : ConnectionInfo) (config : ConnectionManagerConfig)
    : result RedisError Internals :=
  if cm_resubscribe_automatically config && negb (cm_push_sender config) then
    Err (redis_error_of Client "Cannot set resubscribe_automatically without setting a push sender to receive messages.")
  else if cm_push_sender config && negb (supports_resp3 (protocol_of client)) then
    Err (redis_error_of InvalidClientConfig "Can only pass push sender to a connection using RESP3")
  else
    let cache := CacheManager_new <$> cm_cache_config config in
    let listens := cm_push_sender config || supports_resp3 (protocol_of client) in
    let connection_config := connection_config_of config (fst <$> cache) listens in
    Ok {| in_client := client; retry_strategy := retry_strategy_of config;
          connection_config := connection_config; in_listens := listens;
          in_forwards := cm_push_sender config;
          futures := [{| cf_config := connection_config; cf_reconnecting := false; cf_state := Idle |}];
          current := 0;
          subscription_tracker :=
            if cm_resubscribe_automatically config then Some SubscriptionTracker_default else None;
          cache_manager := cache; in_progress := ∅; next_request := 0; answers := []; forwarded := [] |}.

(** [reconnect]: the epoch is increased in any case, the future is kept only if
    the swap happened. *)
Definition reconnect (m : Internals) (guard : nat) : Internals :=
  let '(connection_config, cache) :=
    match cache_manager m with
    | Some (manager, lru) =>
        let '(new_cache_manager, lru) := clone_and_increase_epoch manager lru in
        (set_cache_manager (connection_config m) new_cache_manager, Some (manager, lru))
    | None => (connection_config m, None)
    end in
  let new_connection := {| cf_config := connection_config; cf_reconnecting := true; cf_state := Idle |} in
  if (current m =? guard)%nat then update m (futures m ++ [new_connection]) (length (futures m)) cache
  else update m (futures m) (current m) cache.

(** [get_conn.retry(exponential_backoff)]: the attempts, with their outcomes, and
    the pauses made between them; [None] while it goes on. *)
Fixpoint retry (delays : list Z) (attempts : list (result RedisError C))
    : option (result RedisError C * list Z) :=
  match attempts with
  | [] => None
  | Ok conn :: _ => Some (Ok conn, [])
  | Err e :: attempts =>
      match delays with
      | [] => Some (Err e, [])
      | d :: delays => '(r, slept) ← retry delays attempts; Some (r, d :: slept)
      end
  end.
Definition new_connection (exponential_backoff : ExponentialBuilder) (attempts : list (result RedisError C))
    : option (result RedisError C) :=
  fst <$> retry (backoff_delays exponential_backoff) attempts.

Definition set_future (m : Internals) (g : nat) (f : ConnFuture) (s : FutureState) : Internals :=
  update m (<[g := {| cf_config := cf_config f; cf_reconnecting := cf_reconnecting f; cf_state := s |}]>
              (futures m)) (current m) (cache_manager m).

(** A connection future is polled for the first time. *)
Definition poll_future (m : Internals) (g : nat) : option Internals :=
  f ← futures m !! g;
  match cf_state f with
  | Idle =>
      match cf_reconnecting f, subscription_tracker m with
      | true, Some tracker => p ← get_subscription_pipeline tracker; Some (set_future m g f (Connecting (Some p)))
      | _, _ => Some (set_future m g f (Connecting None))
      end
  | _ => None
  end.
(** Connecting ends; what the additional commands return is ignored. *)
Definition resolve_future (m : Internals) (g : nat) (attempts : list (result RedisError C)) : option Internals :=
  f ← futures m !! g;
  match cf_state f with
  | Connecting additional =>
      r ← new_connection (retry_strategy m) attempts; Some (set_future m g f (Resolved additional r))
  | _ => None
  end.

(** [check_resp3!] of the subscription functions, and [connection.load()]. *)
Definition start (m : Internals) (r : Request) : Internals :=
  match r with
  | RSubscription _ _ =>
      if negb (supports_resp3 (protocol_of (in_client m)))
      then refuse m r (redis_error_of InvalidClientConfig "RESP3 is required for this command")
      else begin_request m r (Loaded (current m))
  | _ => begin_request m r (Loaded (current m))
  end.

(** [reconnect_if_io_error!]. *)
Definition await_connection (m : Internals) (id : nat) : option Internals :=
  match in_progress m !! id with
  | Some (r, Loaded guard) =>
      f ← futures m !! guard;
      match cf_state f with
      | Resolved _ (Ok conn) => Some (set_progress m id r (Sent guard conn))
      | Resolved _ (Err e) =>
          Some (answer (if is_io_error e then reconnect m guard else m) id r (Err e))
      | _ => None
      end
  | _ => None
  end.

(** What [exec_async] makes of the reply to a subscription. *)
Definition subscription_result (res : result RedisError Response) : result RedisError unit :=
  res ← res;
  match res with
  | RValue v => v ← extract_error v; into_redis_error (from_redis_value frv_unit v)
  | _ => Ok ()
  end.

(** [reconnect_if_dropped!]. *)
Definition on_reply (m : Internals) (id : nat) (res : result RedisError Response) : option Internals :=
  match in_progress m !! id with
  | Some (r, Sent guard _) =>
      let m := match res with
               | Err e => if is_unrecoverable_error e then reconnect m guard else m
               | Ok _ => m
               end in
      match r with
      | RSubscription _ _ =>
          match subscription_result res with
          | Ok _ => Some (set_progress m id r (Acked guard))
          | Err e => Some (answer m id r (Err e))
          end
      | _ => Some (answer m id r res)
      end
  | _ => None
  end.

(** [update_subscription_tracker]. *)
Definition update_subscription_tracker (m : Internals) (id : nat) : option Internals :=
  match in_progress m !! id with
  | Some (RSubscription action channels, Acked _) =>
      Some (answer (set_tracker m ((fun t => update_with_request t action channels) <$> subscription_tracker m))
              id (RSubscription action channels) (Ok RUnit))
  | _ => None
  end.

(** [check_for_disconnect_pushes]: one message. *)
Definition on_push (m : Internals) (p : PushInfo) : option Internals :=
  if in_listens m then
    Some (forward (if bool_decide (push_kind p = Disconnection) then reconnect m (current m) else m) p)
  else None.

Inductive event :=
| Start (r : Request)
| Poll (g : nat)
| Connect (g : nat) (attempts : list (result RedisError C))
| Await (id : nat)
| Reply (id : nat) (res : result RedisError Response)
| Track (id : nat)
| PushArrives (p : PushInfo).

Definition step (m : Internals) (e : event) : option Internals :=
  match e with
  | Start r => Some (start m r)
  | Poll g => poll_future m g
  | Connect g attempts => resolve_future m g attempts
  | Await id => await_connection m id
  | Reply id res => on_reply m id res
  | Track id => update_subscription_tracker m id
  | PushArrives p => on_push m p
  end.
Fixpoint run (m : Internals) (es : list event) : option Internals :=
  match es with [] => Some m | e :: es => m ← step m e; run m es end.
End manager.

(** ** A connection that failed is replaced once *)

Section replacement.
Context {C : Type} `{HashOrder} `{LruCache} `{KeyHash} `{Clock} `{Backon}.
Implicit Types (m : Internals (C := C)) (es : list (event (C := C))).

Definition guard_of (p : Phase (C := C)) : nat :=
  match p with Loaded g | Sent g _ | Acked g => g end.

(** The connection that a step finds broken. *)
Definition fails m (e : event (C := C)) : option nat :=
  match e with
  | Await id =>
      match in_progress m !! id with
      | Some (_, Loaded g) =>
          f ← futures m !! g;
          match cf_state f with Resolved _ (Err e) => if is_io_error e then Some g else None | _ => None end
      | _ => None
      end
  | Reply id (Err e) =>
      match in_progress m !! id with
      | Some (_, Sent g _) => if is_unrecoverable_error e then Some g else None
      | _ => None
      end
  | _ => None
  end.
Definition is_disconnect (e : event (C := C)) : bool :=
  match e with PushArrives p => bool_decide (push_kind p = Disconnection) | _ => false end.

(** The connections that broke, and how often the end of one was announced. *)
Fixpoint failed m es : gset nat :=
  match es with
  | [] => ∅
  | e :: es => match fails m e with Some g => {[g]} | None => ∅ end ∪
               match step m e with Some m => failed m es | None => ∅ end
  end.
Definition disconnects es : nat := length (filter (fun e => is_disconnect e = true) es).

(** The connection in use is the newest, broken connections are not in use, and
    every replacement has its cause. *)
Definition replaced m (F : gset nat) (d : nat) : Prop :=
  length (futures m) = S (current m) /\
  (forall id r p, in_progress m !! id = Some (r, p) -> (guard_of p <= current m)%nat) /\
  (forall g, g ∈ F -> (g < current m)%nat) /\ (current m <= base.size F + d)%nat.

Lemma reconnect_other m g :
  in_progress (reconnect m g) = in_progress m /\ subscription_tracker (reconnect m g) = subscription_tracker m /\
  answers (reconnect m g) = answers m /\ next_request (reconnect m g) = next_request m /\
  in_client (reconnect m g) = in_client m /\ retry_strategy (reconnect m g) = retry_strategy m.
Proof. unfold reconnect. destruct (cache_manager m) as [[]|]; simpl; by destruct (_ =? _)%nat. Qed.

Lemma reconnect_current m g :
  current (reconnect m g) = (if current m =? g then length (futures m) else current m)%nat /\
  length (futures (reconnect m g)) = (if current m =? g then S (length (futures m)) else length (futures m))%nat.
Proof.
  unfold reconnect.
  destruct (cache_manager m) as [[]|]; simpl; destruct (_ =? _)%nat; simpl; rewrite ?length_app; simpl; lia.
Qed.

(** A request that finds connection [g] broken. *)
Lemma replaced_failure m F d g : replaced m F d -> (g <= current m)%nat ->
  replaced (reconnect m g) ({[g]} ∪ F) d.
Proof.
  intros (Hl & Hp & HF & Hc) Hg. destruct (reconnect_other m g) as (Ep & _). destruct (reconnect_current m g) as (Ec & El).
  unfold replaced. rewrite Ep, Ec, El. destruct (Nat.eqb_spec (current m) g) as [<-|Hne].
  - split_and!; [lia| | |].
    + intros id r p Hid. apply Hp in Hid. lia.
    + intros g. rewrite elem_of_union, elem_of_singleton. intros [->|Hg']; [lia|]. apply HF in Hg'. lia.
    + rewrite size_union by (rewrite disjoint_singleton_l; intros Hin; apply HF in Hin; lia).
      rewrite size_singleton. lia.
  - split_and!; [lia|done| |].
    + intros g'. rewrite elem_of_union, elem_of_singleton. intros [->|Hg']; [lia|]. by apply HF.
    + assert (base.size F <= base.size ({[g]} ∪ F))%nat by (apply subseteq_size; set_solver). lia.
Qed.

(** An announced end. *)
Lemma replaced_disconnect m F d : replaced m F d -> replaced (reconnect m (current m)) F (S d).
Proof.
  intros (Hl & Hp & HF & Hc). destruct (reconnect_other m (current m)) as (Ep & _).
  destruct (reconnect_current m (current m)) as (Ec & El). unfold replaced. rewrite Ep, Ec, El, Nat.eqb_refl.
  split_and!; [lia| | |lia].
  - intros id r p Hid. apply Hp in Hid. lia.
  - intros g Hg. apply HF in Hg. lia.
Qed.

Lemma replaced_same m m' F d : futures m' = futures m -> current m' = current m ->
  (forall id r p, in_progress m' !! id = Some (r, p) -> (guard_of p <= current m)%nat) ->
  replaced m F d -> replaced m' F d.
Proof. intros Ef Ec Hp (Hl & _ & HF & Hc). unfold replaced. rewrite Ef, Ec. done. Qed.

Lemma replaced_set_future m F d g f s : replaced m F d -> replaced (set_future m g f s) F d.
Proof.
  intros (Hl & Hp & HF & Hc). unfold replaced, set_future, update. cbn [futures current in_progress].
  rewrite length_insert. done.
Qed.

Lemma replaced_answer m F d id r res : replaced m F d -> replaced (answer m id r res) F d.
Proof.
  intros Hr. eapply replaced_same; [..|exact Hr]; [done|done|]. intros id' r' p. simpl.
  rewrite lookup_delete_Some. intros [_ Hid]. destruct Hr as (_ & Hp & _). by apply Hp in Hid.
Qed.

Lemma replaced_insert m F d id r p m' : futures m' = futures m -> current m' = current m ->
  in_progress m' = <[id := (r, p)]> (in_progress m) -> (guard_of p <= current m)%nat ->
  replaced m F d -> replaced m' F d.
Proof.
  intros Ef Ec Ep Hg Hr. eapply replaced_same; [done|done| |exact Hr]. intros id' r' p'. rewrite Ep.
  destruct Hr as (_ & Hp & _). rewrite lookup_insert_Some. intros [[_ [= -> ->]]|[_ Hid]]; [done|].
  by apply Hp in Hid.
Qed.

Lemma replaced_id m F d : replaced m F d -> replaced m (∅ ∪ F) d.
Proof. by rewrite (left_id_L ∅ (∪)). Qed.

Lemma step_replaced m e m' F d : replaced m F d -> step m e = Some m' ->
  replaced m' (match fails m e with Some g => {[g]} | None => ∅ end ∪ F)
    (if is_disconnect e then S d else d).
Proof.
  intros Hr Hs. pose proof Hr as (_ & Hp & _). destruct e as [r|g|g attempts|id|id res|id|p]; simpl in Hs.
  - apply replaced_id. injection Hs as <-. unfold start.
    assert (replaced (begin_request m r (Loaded (current m))) F d) as Hb
      by (eapply replaced_insert; [..|exact Hr]; done).
    destruct r; [done..|]. case_match; [|done]. eapply replaced_same; [..|exact Hr]; done.
  - apply replaced_id. unfold poll_future in Hs. repeat (case_match || simplify_option_eq); by apply replaced_set_future.
  - apply replaced_id. unfold resolve_future in Hs.
    repeat (case_match || simplify_option_eq); by apply replaced_set_future.
  - unfold await_connection in Hs. cbn [fails is_disconnect]. destruct (in_progress m !! id) as [[r [g|?|?]]|] eqn:Hid; try done.
    apply bind_Some in Hs as (f & Hf & Hs). rewrite Hf. cbn [mbind option_bind].
    specialize (Hp _ _ _ Hid). simpl in Hp.
    destruct (cf_state f) as [|?|? [conn|e]]; simplify_eq.
    + apply replaced_id. eapply replaced_insert; [..|exact Hr]; done.
    + apply replaced_answer. destruct (is_io_error e); [by apply replaced_failure | by apply replaced_id].
  - unfold on_reply in Hs. cbn [fails is_disconnect].
    destruct (in_progress m !! id) as [[r [?|g conn|?]]|] eqn:Hid; try done. specialize (Hp _ _ _ Hid). simpl in Hp.
    set (m1 := match res with Ok _ => m | Err e => _ end) in Hs.
    assert (replaced m1 (match match res with Ok _ => None | Err e => if is_unrecoverable_error e then Some g else None end
      with Some g => {[g]} | None => ∅ end ∪ F) d /\ current m <= current m1)%nat as [H1' Hc].
    { subst m1. destruct res as [res|e]; [split; [by apply replaced_id|done]|].
      destruct (is_unrecoverable_error e); [|split; [by apply replaced_id|done]].
      split; [by apply replaced_failure|]. destruct (reconnect_current m g) as [-> _]. destruct Hr as [Hl _].
      destruct (current m =? g)%nat; lia. }
    assert (forall r', r' = r -> replaced (set_progress m1 id r' (Acked g)) (match match res with Ok _ => None | Err e => if is_unrecoverable_error e then Some g else None end
      with Some g => {[g]} | None => ∅ end ∪ F) d) as Ha.
    { intros r' ->. eapply replaced_insert; [..|exact H1']; try done. simpl. lia. }
    destruct res; repeat (case_match || simplify_eq); first [by apply replaced_answer | by apply Ha].
  - apply replaced_id. unfold update_subscription_tracker in Hs. repeat (case_match || simplify_option_eq).
    apply replaced_answer. eapply replaced_same; [..|exact Hr]; done.
  - apply replaced_id. unfold on_push in Hs. destruct (in_listens m); [|done]. injection Hs as <-.
    cbn [is_disconnect]. destruct (bool_decide (push_kind p = Disconnection)).
    + eapply replaced_same; [..|by apply replaced_disconnect]; try done.
      intros id r ph Hid. destruct (replaced_disconnect m F d Hr) as (_ & Hp' & _). by apply Hp' in Hid.
    + eapply replaced_same; [..|exact Hr]; done.
Qed.

Lemma run_replaced m es m' F d : replaced m F d -> run m es = Some m' ->
  replaced m' (failed m es ∪ F) (disconnects es + d).
Proof.
  revert m F d. induction es as [|e es IH]; intros m F d Hr Hs; simpl in Hs.
  - injection Hs as <-. by apply replaced_id.
  - apply bind_Some in Hs as (m1 & He & Hs). cbn [failed]. rewrite He.
    pose proof (step_replaced _ _ _ _ _ Hr He) as Hr1. eapply IH in Hr1; [|exact Hs].
    replace (match fails m e with Some g => {[g]} | None => ∅ end ∪ failed m1 es ∪ F)
      with (failed m1 es ∪ (match fails m e with Some g => {[g]} | None => ∅ end ∪ F)) by set_solver.
    unfold disconnects in *. rewrite filter_cons. destruct (is_disconnect e); simpl in *; [|done].
    by rewrite Nat.add_succ_r in Hr1.
Qed.

Lemma new_replaced client config m : new_lazy_with_config client config = Ok m -> replaced m ∅ 0.
Proof.
  unfold new_lazy_with_config. repeat case_match; intros; simplify_eq; unfold replaced; simpl; (split_and!; [done|done|set_solver|lia]).
Qed.

(** ** Requests that begin later *)

(** Connection future [g] has given the connection [conn]. *)
Definition gives m (g : nat) (conn : C) : Prop :=
  exists f additional, futures m !! g = Some f /\ cf_state f = Resolved additional (Ok conn).

(** A request in progress: if it began at or after request [n], it holds
    connection [g0] or a later one; and it is sent on the connection it holds. *)
Definition entry_later (n g0 : nat) m (id : nat) (p : Phase (C := C)) : Prop :=
  (id < next_request m)%nat /\ ((n <= id)%nat -> (g0 <= guard_of p)%nat) /\
  match p with Sent g conn => gives m g conn | _ => True end.
Definition later (n g0 : nat) m : Prop :=
  (n <= next_request m)%nat /\ (g0 <= current m)%nat /\ length (futures m) = S (current m) /\
  forall id r p, in_progress m !! id = Some (r, p) -> entry_later n g0 m id p.

Definition extends m m' : Prop :=
  (current m <= current m')%nat /\ (next_request m <= next_request m')%nat /\
  length (futures m') = S (current m') /\ forall g conn, gives m g conn -> gives m' g conn.

Lemma later_extends n g0 m m' : later n g0 m -> extends m m' ->
  (forall id r p, in_progress m' !! id = Some (r, p) ->
     in_progress m !! id = Some (r, p) \/ entry_later n g0 m' id p) ->
  later n g0 m'.
Proof.
  intros (Hn & Hg & _ & Hp) (Hc & Hr & Hl & Hgives) Hnew. split_and!; [lia|lia|done|].
  intros id r p Hid. apply Hnew in Hid as [Hid|?]; [|done]. apply Hp in Hid as (Hlt & Hle & Hs).
  split_and!; [lia|done|]. destruct p; naive_solver.
Qed.

Lemma extends_refl m m' : futures m' = futures m -> current m' = current m ->
  (next_request m <= next_request m')%nat -> length (futures m) = S (current m) -> extends m m'.
Proof. intros Ef Ec Hn Hl. unfold extends, gives. by rewrite Ef, Ec. Qed.

Lemma extends_reconnect m g : length (futures m) = S (current m) -> extends m (reconnect m g).
Proof.
  intros Hl. destruct (reconnect_current m g) as [Hc Hf]. destruct (reconnect_other m g) as (_ & _ & _ & Hn & _).
  unfold extends. rewrite Hc, Hf, Hn. split_and!; [destruct (_ =? _)%nat; lia | done | destruct (_ =? _)%nat; lia |].
  intros g' conn (f & a & Hg & Hs). exists f, a. split; [|done].
  unfold reconnect. destruct (cache_manager m) as [[]|]; simpl; destruct (_ =? _)%nat; simpl; try done;
    by apply lookup_app_l_Some.
Qed.

(** A future that has given a connection is not set again. *)
Lemma extends_set_future m g f s : futures m !! g = Some f -> (forall a r, cf_state f <> Resolved a r) ->
  length (futures m) = S (current m) -> extends m (set_future m g f s).
Proof.
  intros Hf Hu Hl. unfold extends, set_future, update. cbn [current next_request futures].
  rewrite length_insert. split_and!; [lia..|done|]. intros g' conn (f' & a & Hg & Hs). exists f', a.
  split; [|done]. cbn [futures]. rewrite list_lookup_insert_ne; [done|]. intros <-. rewrite Hf in Hg.
  injection Hg as ->. by apply Hu in Hs.
Qed.

Lemma later_answer n g0 m id r res : later n g0 m -> later n g0 (answer m id r res).
Proof.
  intros Hl. eapply later_extends; [exact Hl|by apply extends_refl; try apply Hl|].
  intros id' r' p. simpl. rewrite lookup_delete_Some. intros [_ ?]. by left.
Qed.
Lemma later_reconnect n g0 m g : later n g0 m -> later n g0 (reconnect m g).
Proof.
  intros Hl. eapply later_extends; [exact Hl|apply extends_reconnect, Hl|].
  destruct (reconnect_other m g) as (-> & _). by left.
Qed.
Lemma later_set_future n g0 m g f s : futures m !! g = Some f -> (forall a r, cf_state f <> Resolved a r) ->
  later n g0 m -> later n g0 (set_future m g f s).
Proof.
  intros Hf Hu Hl. eapply later_extends; [exact Hl|apply extends_set_future; [done..|apply Hl]|]. by left.
Qed.
(** A request goes on with the connection it holds. *)
Lemma later_set_progress n g0 m id r p p' : in_progress m !! id = Some (r, p) -> guard_of p' = guard_of p ->
  match p' with Sent g conn => gives m g conn | _ => True end ->
  later n g0 m -> later n g0 (set_progress m id r p').
Proof.
  intros Hid Hg Hs Hl. eapply later_extends; [exact Hl|by apply extends_refl; try apply Hl|].
  intros id' r' p''. simpl. rewrite lookup_insert_Some. intros [[<- [= <- <-]]|[_ ?]]; [right|by left].
  destruct Hl as (_ & _ & _ & Hp). apply Hp in Hid as (Hlt & Hle & _). split_and!; [done|by rewrite Hg|].
  by destruct p'.
Qed.

Lemma step_later n g0 m e m' : later n g0 m -> step m e = Some m' -> later n g0 m'.
Proof.
  intros Hl Hs. destruct e as [r|g|g attempts|id|id res|id|p]; simpl in Hs.
  - injection Hs as <-. assert (later n g0 (begin_request m r (Loaded (current m)))) as Hb.
    { eapply later_extends; [exact Hl|apply extends_refl; [done..|simpl; lia|apply Hl]|].
      intros id r' p. simpl. rewrite lookup_insert_Some. intros [[<- [= <- <-]]|[_ ?]]; [right|by left].
      destruct Hl as (Hn & Hg & _). split_and!; simpl; [lia|intros _; exact Hg|done]. }
    unfold start. destruct r; [done..|]. case_match; [|done].
    eapply later_extends; [exact Hl|apply extends_refl; [done..|simpl; lia|apply Hl]|]. by left.
  - unfold poll_future in Hs. repeat (case_match || simplify_option_eq); by apply later_set_future; [|congruence|].
  - unfold resolve_future in Hs. repeat (case_match || simplify_option_eq); by apply later_set_future; [|congruence|].
  - unfold await_connection in Hs. destruct (in_progress m !! id) as [[r [g|?|?]]|] eqn:Hid; try done.
    apply bind_Some in Hs as (f & Hf & Hs).
    destruct (cf_state f) as [|?|a [conn|e]] eqn:Hst; simplify_eq.
    + eapply later_set_progress; [exact Hid|done| |done]. by exists f, a.
    + apply later_answer. case_match; [by apply later_reconnect|done].
  - unfold on_reply in Hs. destruct (in_progress m !! id) as [[r [?|g conn|?]]|] eqn:Hid; try done.
    set (m1 := match res with Ok _ => m | Err e => _ end) in Hs.
    assert (later n g0 m1 /\ in_progress m1 = in_progress m) as [H1' Hp1].
    { subst m1. destruct res as [|e]; [done|]. destruct (is_unrecoverable_error e); [|done].
      split; [by apply later_reconnect|apply reconnect_other]. }
    clearbody m1. rewrite <- Hp1 in Hid.
    destruct r; [| |case_match]; injection Hs as <-; try by apply later_answer.
    by eapply later_set_progress; [exact Hid|..].
  - unfold update_subscription_tracker in Hs. repeat (case_match || simplify_option_eq).
    apply later_answer. eapply later_extends; [exact Hl|by apply extends_refl; try apply Hl|]. by left.
  - unfold on_push in Hs. destruct (in_listens m); [|done]. injection Hs as <-.
    eapply (later_extends _ _ (if bool_decide (push_kind p = Disconnection) then reconnect m (current m) else m)).
    + case_match; [by apply later_reconnect|done].
    + apply extends_refl; [done..|]. case_match; [|apply Hl].
      destruct (later_reconnect _ _ _ (current m) Hl) as (_ & _ & Hl' & _). exact Hl'.
    + by left.
Qed.

Lemma run_later n g0 m es m' : later n g0 m -> run m es = Some m' -> later n g0 m'.
Proof.
  revert m. induction es as [|e es IH]; intros m Hl Hs; simpl in Hs; [by simplify_eq|].
  apply bind_Some in Hs as (m1 & He & Hs). eapply IH; [|exact Hs]. by eapply step_later.
Qed.

Lemma new_later client config m : new_lazy_with_config client config = Ok m -> later 0 0 m.
Proof.
  unfold new_lazy_with_config. repeat case_match; intros; simplify_eq; unfold later; simpl;
    (split_and!; [lia|lia|done|]); intros id r p; by rewrite lookup_empty.
Qed.

(** From any state on, the requests that begin hold the connection in use then,
    or a later one. *)
Lemma later_from n g0 m : later n g0 m -> later (next_request m) (current m) m.
Proof.
  intros (_ & _ & Hl & Hp). split_and!; [done|done|done|]. intros id r p Hid.
  apply Hp in Hid as (Hlt & _ & Hs). split_and!; [done|lia|done].
Qed.

(** C5. However requests, failures and announcements of the end of a connection are
    interleaved (up to [m1], and on to [m2]): the connection in use is the
    newest; every connection that a request found broken was replaced by one
    new connection, however many requests found it broken, and there are no
    other replacements but at most one for every announcement; and a request
    that begins after a connection was found broken is never sent on it: it
    holds, and is sent on, a connection that is newer than all that broke
    before it began.  (A request that began earlier may still use the broken
    connection that it holds.) *)
Theorem replaced_once (client : ConnectionInfo) (config : ConnectionManagerConfig) (m m1 m2 : Internals)
    (es es' : list event) (Hnew : new_lazy_with_config client config = Ok m)
    (Hrun : run m es = Some m1) (Hrun' : run m1 es' = Some m2) :
  length (futures m1) = S (current m1) /\
  (forall g, g ∈ failed m es -> (g < current m1)%nat) /\
  (base.size (failed m es) <= current m1 <= base.size (failed m es) + disconnects es)%nat /\
  (forall id r p, (next_request m1 <= id)%nat -> in_progress m2 !! id = Some (r, p) ->
     (forall g, g ∈ failed m es -> (g < guard_of p)%nat) /\
     forall g conn, p = Sent g conn -> gives m2 g conn).
Proof.
  pose proof (run_replaced _ _ _ _ _ (new_replaced _ _ _ Hnew) Hrun) as (Hl & _ & HF & Hc).
  rewrite (right_id_L ∅ (∪)), Nat.add_0_r in *. split_and!; try done.
  - rewrite <- (size_set_seq (C := gset nat) 0 (current m1)). apply subseteq_size. intros g Hg. apply elem_of_set_seq.
    apply HF in Hg. lia.
  - pose proof (run_later _ _ _ _ _ (later_from _ _ _ (run_later _ _ _ _ _ (new_later _ _ _ Hnew) Hrun)) Hrun')
      as (_ & _ & _ & Hp).
    intros id r p Hid Hin. apply Hp in Hin as (_ & Hg & Hs). split.
    + intros g Hin. apply HF in Hin. specialize (Hg Hid). lia.
    + by intros g conn ->.
Qed.

(** ** Subscriptions are made again *)

(** What an answered request tells of the subscriptions of its user: a
    subscription or cancellation that was confirmed. *)
Definition confirmation (a : nat * Request * result RedisError Response) : list Cmd :=
  match a with
  | (_, RSubscription action channels, Ok _) => request_cmds (RSubscription action channels)
  | _ => []
  end.
(** The commands that were confirmed to the user, in order. *)
Definition confirmed m : list Cmd := concat (map confirmation (answers m)).

Definition tracks m : Prop :=
  subscription_tracker m = Some (foldl update_with_cmd SubscriptionTracker_default (confirmed m)).

Lemma confirmed_app m l : concat (map confirmation (answers m ++ l)) = confirmed m ++ concat (map confirmation l).
Proof. unfold confirmed. by rewrite map_app, concat_app. Qed.

(** What is entered for a subscription is what its command asks the server
    for. *)
Lemma subscription_asked_for a l : exists c, request_cmds (RSubscription a l) = [c] /\ to_request c = Some (a, l).
Proof.
  eexists. split; [done|]. unfold to_request, cmd_args.
  destruct (built_cmd (subscription_name a)) as (c & [= <-] & Hok & Hcur & Hi).
  destruct (write_args_built _ _ l Hok Hcur Hi) as (c & [= <-] & _ & _ & Hl). rewrite Hl.
  cbn [map app]. rewrite simple_args_map. by destruct a.
Qed.

Lemma tracks_same m m' : subscription_tracker m' = subscription_tracker m -> answers m' = answers m ->
  tracks m -> tracks m'.
Proof. unfold tracks, confirmed. by intros -> ->. Qed.
Lemma tracks_reconnect m g : tracks m -> tracks (reconnect m g).
Proof. apply tracks_same; apply reconnect_other. Qed.
Lemma tracks_error m id r e : tracks m -> tracks (answer m id r (Err e)).
Proof.
  unfold tracks, confirmed at 2. cbn [answer subscription_tracker answers]. rewrite confirmed_app.
  by destruct r; simpl; rewrite app_nil_r.
Qed.

Lemma step_tracks m e m' : tracks m -> step m e = Some m' -> tracks m'.
Proof.
  intros Ht Hs. destruct e as [r|g|g attempts|id|id res|id|p]; simpl in Hs.
  - injection Hs as <-. unfold start. destruct r; try (by eapply tracks_same). case_match; [|by eapply tracks_same].
    unfold tracks, confirmed at 1. cbn [refuse subscription_tracker answers]. rewrite confirmed_app. simpl. by rewrite app_nil_r.
  - unfold poll_future in Hs. repeat (case_match || simplify_option_eq); by eapply tracks_same.
  - unfold resolve_future in Hs. repeat (case_match || simplify_option_eq); by eapply tracks_same.
  - unfold await_connection in Hs. repeat (case_match || simplify_option_eq); first
      [by eapply tracks_same | by apply tracks_error, tracks_reconnect | by apply tracks_error].
  - unfold on_reply in Hs. destruct (in_progress m !! id) as [[r [?|g conn|?]]|]; try done.
    set (m1 := match res with Ok _ => m | Err e => _ end) in Hs.
    assert (tracks m1) as H1'.
    { subst m1. destruct res as [|e]; [done|]. destruct (is_unrecoverable_error e); [by apply tracks_reconnect|done]. }
    clearbody m1. destruct r; [| |by repeat (case_match || simplify_eq); [eapply tracks_same|apply tracks_error]];
      injection Hs as <-; (destruct res; [|by apply tracks_error]);
      unfold tracks, confirmed at 1; cbn [answer subscription_tracker answers]; rewrite confirmed_app; simpl;
      by rewrite app_nil_r.
  - unfold update_subscription_tracker in Hs.
    destruct (in_progress m !! id) as [[[| |a l] [|?|?]]|]; try done. injection Hs as <-.
    unfold tracks, confirmed at 1. cbn [answer set_tracker subscription_tracker answers].
    rewrite Ht, confirmed_app, foldl_app. destruct (subscription_asked_for a l) as (c & Hc & Hr).
    cbn [map confirmation concat]. rewrite Hc. cbn [app foldl fmap option_fmap option_map]. unfold update_with_cmd at 2.
    by rewrite Hr.
  - unfold on_push in Hs. case_match; [|done]. injection Hs as <-. eapply tracks_same; [done|done|].
    case_match; [by apply tracks_reconnect|done].
Qed.

Lemma run_tracks m es m' : tracks m -> run m es = Some m' -> tracks m'.
Proof.
  revert m. induction es as [|e es IH]; intros m Ht Hs; simpl in Hs; [by simplify_eq|].
  apply bind_Some in Hs as (m1 & He & Hs). eapply IH; [|exact Hs]. by eapply step_tracks.
Qed.

Lemma new_tracks client config m : new_lazy_with_config client config = Ok m ->
  cm_resubscribe_automatically config = true -> tracks m.
Proof.
  intros Hn Hr. unfold new_lazy_with_config in Hn. rewrite Hr in Hn. repeat (case_match || simplify_eq). done.
Qed.


(** ** Epochs of the cache *)

Definition future_epoch (f : ConnFuture (C := C)) : option Z :=
  match acc_cache (cf_config f) with Some (Cache_Manager c) => Some (epoch c) | _ => None end.

(** The epochs given out are different and below the next, which is at most
    [n]. *)
Definition fresh_epochs m (n : Z) : Prop :=
  exists cm lru, cache_manager m = Some (cm, lru) /\ (0 <= last_epoch lru <= n)%Z /\
  NoDup (map future_epoch (futures m)) /\
  Forall (fun f => exists e, future_epoch f = Some e /\ (0 <= e < last_epoch lru)%Z) (futures m).

Lemma fresh_same m m' n : futures m' = futures m -> cache_manager m' = cache_manager m ->
  fresh_epochs m n -> fresh_epochs m' n.
Proof. unfold fresh_epochs. by intros -> ->. Qed.

Lemma fresh_set_future m n g f s : futures m !! g = Some f -> fresh_epochs m n ->
  fresh_epochs (set_future m g f s) n.
Proof.
  intros Hg (cm & lru & Hc & Hl & Hd & Hf). exists cm, lru. cbn [set_future update futures cache_manager].
  split_and!; [done|lia|lia| |].
  - rewrite list_fmap_insert. unfold future_epoch at 1. cbn [cf_config]. fold (future_epoch f).
    rewrite list_insert_id; [done|]. by rewrite list_lookup_fmap, Hg.
  - apply Forall_insert; [done|]. unfold future_epoch. cbn [cf_config]. fold (future_epoch f).
    by apply (Forall_lookup_1 _ _ _ _ Hf Hg).
Qed.

Lemma fresh_more m n : fresh_epochs m n -> fresh_epochs m (n + 1).
Proof. intros (cm & lru & Hc & Hl & Hd & Hf). exists cm, lru. split_and!; try done; lia. Qed.

Lemma fresh_reconnect m n g : fresh_epochs m n -> (n < usize_max)%Z -> fresh_epochs (reconnect m g) (n + 1).
Proof.
  intros (cm & lru & Hc & Hl & Hd & Hf) Hn. unfold reconnect. rewrite Hc.
  unfold clone_and_increase_epoch, increase_epoch. rewrite as_usize_small by (unfold usize_max in *; lia).
  assert (Forall (fun f => exists e, future_epoch f = Some e /\ (0 <= e < last_epoch lru + 1)%Z) (futures m)) as Hf'.
  { eapply Forall_impl; [exact Hf|]. intros f (e & He & Hr). exists e. split; [done|lia]. }
  destruct (_ =? _)%nat; (eexists _, _; cbn [update futures cache_manager]; split_and!; [done|simpl; lia|simpl; lia| |]);
    try done.
  - rewrite map_app. apply NoDup_app. split_and!; [done| |apply NoDup_singleton].
    intros o Ho Hin%list_elem_of_singleton. apply list_elem_of_fmap in Ho as (f & -> & Hif).
    apply (proj1 (Forall_forall _ _) Hf) in Hif as (e & He & Hr). rewrite Hin in He. cbn in He. simplify_eq. lia.
  - apply Forall_app. split; [done|]. apply Forall_singleton. cbn. eexists. split; [done|lia].
Qed.

(** A step that keeps the futures and the cache. *)
Ltac keep_fresh :=
  match goal with Hfr : _ |- fresh_epochs _ _ => solve [eapply fresh_same; [..|apply Hfr]; done] end.
Lemma step_fresh m e m' n : fresh_epochs m n -> (n < usize_max)%Z -> step m e = Some m' -> fresh_epochs m' (n + 1).
Proof.
  intros Hf Hn Hs.
  assert (forall g, fresh_epochs (reconnect m g) (n + 1)) as Hr by (intros; by apply fresh_reconnect).
  apply fresh_more in Hf. destruct e as [r|g|g attempts|id|id res|id|p]; simpl in Hs.
  - injection Hs as <-. unfold start. destruct r; [keep_fresh..|]. case_match; keep_fresh.
  - unfold poll_future in Hs. repeat (case_match || simplify_option_eq); by apply fresh_set_future.
  - unfold resolve_future in Hs. repeat (case_match || simplify_option_eq); by apply fresh_set_future.
  - unfold await_connection in Hs. repeat (case_match || simplify_option_eq); keep_fresh.
  - unfold on_reply in Hs. destruct (in_progress m !! id) as [[r [?|g conn|?]]|]; try done.
    set (m1 := match res with Ok _ => m | Err e => _ end) in Hs.
    assert (fresh_epochs m1 (n + 1)) as H1'.
    { subst m1. destruct res as [|e]; [done|]. by destruct (is_unrecoverable_error e). }
    clearbody m1. repeat (case_match || simplify_eq); keep_fresh.
  - unfold update_subscription_tracker in Hs. repeat (case_match || simplify_option_eq). keep_fresh.
  - unfold on_push in Hs. case_match; [|done]. injection Hs as <-.
    destruct (bool_decide _); keep_fresh.
Qed.

Lemma run_fresh m es m' n : fresh_epochs m n -> (n + Z.of_nat (length es) <= usize_max)%Z -> run m es = Some m' ->
  fresh_epochs m' (n + Z.of_nat (length es)).
Proof.
  revert m n. induction es as [|e es IH]; intros m n Hf Hn Hs; simpl in Hs.
  - simplify_eq. by rewrite Z.add_0_r.
  - apply bind_Some in Hs as (m1 & He & Hs). cbn [length] in *. rewrite Nat2Z.inj_succ in *.
    replace (n + Z.succ (Z.of_nat (length es)))%Z with (n + 1 + Z.of_nat (length es))%Z by lia.
    apply (IH m1); [|lia|done]. eapply step_fresh; [done|lia|done].
Qed.

Lemma first_epoch cc : epoch (CacheManager_new cc).1 = 0%Z /\ last_epoch (CacheManager_new cc).2 = 1%Z.
Proof. unfold CacheManager_new, increase_epoch, ShardedLRU_new. by destruct (_ <=? _)%Z. Qed.

(** With client-side caching no two connections of a manager share an epoch: what
    was cached over one connection, whose invalidations end with it, is never
    returned over another. *)
Theorem epochs_distinct (client : ConnectionInfo) (config : ConnectionManagerConfig) (cc : CacheConfig)
    (m m' : Internals) (es : list event) (Hcache : cm_cache_config config = Some cc)
    (Hnew : new_lazy_with_config client config = Ok m) (Hrun : run m es = Some m')
    (Hlen : (Z.of_nat (length es) < usize_max)%Z) :
  NoDup (map future_epoch (futures m')) /\ Forall (fun f => is_Some (future_epoch f)) (futures m').
Proof.
  assert (fresh_epochs m 1) as Hf.
  { unfold new_lazy_with_config in Hnew. rewrite Hcache in Hnew. do 2 (case_match; [done|]).
    change (CacheManager_new <$> Some cc) with (Some (CacheManager_new cc)) in Hnew. injection Hnew as <-.
    destruct (first_epoch cc) as [He Hl]. destruct (CacheManager_new cc) as [cm lru] eqn:E. exists cm, lru.
    cbn [fst snd] in *. cbn [futures cache_manager].
    split_and!; [done|lia|lia|apply NoDup_singleton|]. apply Forall_singleton. exists 0%Z. split; [|lia].
    unfold future_epoch, ShardedLRU_new. simpl. by destruct (_ <=? _)%Z. }
  destruct (run_fresh m es m' 1 Hf ltac:(lia) Hrun) as (cm & lru & _ & _ & Hd & Ha). split; [done|].
  eapply Forall_impl; [exact Ha|]. intros f (e & He & _). by exists e.
Qed.

(** ** Connecting ends *)

Lemma retry_spec delays (attempts : list (result RedisError C)) : (length delays < length attempts)%nat ->
  exists r slept, retry delays attempts = Some (r, slept) /\ slept `prefix_of` delays /\
  attempts !! length slept = Some r /\
  (forall i, (i < length slept)%nat -> exists e, attempts !! i = Some (Err e)) /\
  (forall e, r = Err e -> slept = delays).
Proof.
  revert attempts. induction delays as [|d delays IH]; intros [|[conn|e] attempts] Hl; simpl in Hl; try lia;
    cbn [retry].
  - exists (Ok conn), []. split_and!; try done. simpl. intros; lia.
  - exists (Err e), []. split_and!; try done. simpl. intros; lia.
  - exists (Ok conn), []. split_and!; try done; [by apply prefix_nil|]. simpl. intros; lia.
  - destruct (IH attempts ltac:(lia)) as (r & slept & Hr & Hp & Ha & He & Hs). rewrite Hr.
    exists r, (d :: slept). split_and!; [done|by apply prefix_cons|done| |].
    + intros [|i] Hi; [by exists e|]. apply He. simpl in Hi. lia.
    + intros e' He'. by rewrite (Hs e' He').
Qed.

(** Connecting ends after at most as many pauses as retries are configured: with
    the first connection that is made, or with the error of the last attempt
    after all retries. *)
Theorem new_connection_ends (config : ConnectionManagerConfig) (attempts : list (result RedisError C))
    (Hn : (Z.to_nat (cm_number_of_retries config) < length attempts)%nat) :
  let delays := backoff_delays (retry_strategy_of config) in
  exists r slept, retry delays attempts = Some (r, slept) /\
  new_connection (retry_strategy_of config) attempts = Some r /\
  (length slept <= Z.to_nat (cm_number_of_retries config))%nat /\ slept `prefix_of` delays /\
  attempts !! length slept = Some r /\
  (forall i, (i < length slept)%nat -> exists e, attempts !! i = Some (Err e)) /\
  (forall e, r = Err e -> length slept = Z.to_nat (cm_number_of_retries config)).
Proof.
  intros delays. pose proof (backoff_length (retry_strategy_of config)) as Hd. simpl in Hd. fold delays in Hd.
  destruct (retry_spec delays attempts ltac:(lia)) as (r & slept & Hr & Hp & Ha & He & Hs). exists r, slept.
  split_and!; try done.
  - unfold new_connection. fold delays. by rewrite Hr.
  - apply prefix_length in Hp. lia.
  - intros e Her. by rewrite (Hs e Her).
Qed.

(** ** An error that is not about I/O stays *)

(** Once connecting ended with such an error, every request is answered with
    it, and nothing reconnects. *)
Lemma connect_error_kept m f a e c : futures m !! current m = Some f -> cf_state f = Resolved a (Err e) ->
  is_io_error e = false ->
  exists m', run m [Start (RCommand c); Await (next_request m)] = Some m' /\
  answers m' = answers m ++ [(next_request m, RCommand c, Err e)] /\
  futures m' = futures m /\ current m' = current m.
Proof.
  intros Hf Hs He. simpl. unfold await_connection. cbn [begin_request in_progress]. rewrite lookup_insert_eq.
  cbn [futures begin_request]. rewrite Hf. cbn [mbind option_bind]. rewrite Hs, He. eexists. split_and!; done.
Qed.
End replacement.

(** ** Schedules *)

#[local] Existing Instance insertion_order.
#[local] Existing Instance list_cache.
#[local] Existing Instance no_hash.
#[local] Existing Instance steady_clock.
#[local] Instance constant_pauses : Backon :=
  {| backoff_delays b := replicate (Z.to_nat (eb_max_times b)) (eb_min_delay b);
     backoff_length b := length_replicate _ _ |}.

(** A manager of RESP3 connections, numbered, that resubscribes and caches. *)
Definition resp3_client : ConnectionInfo :=
  {| addr := Tcp (bs "localhost") 6379; tcp_settings := TcpSettings_default;
     redis_settings := {| info_db := 0; info_username := None; info_password := None; info_protocol := RESP3;
                          skip_set_lib_name := false; lib_name := None; lib_ver := None |} |}.
Definition resubscribing : ConnectionManagerConfig :=
  cm_set_cache_config (cm_set_automatic_resubscription (cm_set_push_sender ConnectionManagerConfig_default))
    CacheConfig_new.
Definition lazy_manager : Internals (C := nat) :=
  let cache := CacheManager_new CacheConfig_new in
  let config := connection_config_of resubscribing (Some cache.1) true in
  {| in_client := resp3_client; retry_strategy := retry_strategy_of resubscribing; connection_config := config;
     in_listens := true; in_forwards := true;
     futures := [{| cf_config := config; cf_reconnecting := false; cf_state := Idle |}]; current := 0;
     subscription_tracker := Some SubscriptionTracker_default; cache_manager := Some cache; in_progress := ∅;
     next_request := 0; answers := []; forwarded := [] |}.
Lemma lazy_manager_new : new_lazy_with_config resp3_client resubscribing = Ok lazy_manager.
Proof. reflexivity. Qed.

Definition dropped : RedisError := redis_error_of_io BrokenPipe.
Definition get_a : Request := RCommand (cmd_args "GET" [bs "a"]).

(** What is left of a schedule, if all its steps are possible. *)
Definition after {A} (es : list (event (C := nat))) (f : Internals (C := nat) -> A) : option A :=
  f <$> run lazy_manager es.
Lemma after_Some {A} es (f : Internals -> A) a : after es f = Some a -> exists m, run lazy_manager es = Some m /\ f m = a.
Proof. unfold after. destruct (run lazy_manager es) as [m|]; [|done]. intros [= <-]. by exists m. Qed.

(** Two requests find the first connection broken; one new connection, on which
    the next request is made. *)
Definition two_failures : list (event (C := nat)) :=
  [Start get_a; Start get_a; Poll 0; Connect 0 [Err dropped; Ok 100%nat]; Await 0; Await 1;
   Reply 0 (Err dropped); Reply 1 (Err dropped)].
Definition third_request : list (event (C := nat)) := [Start get_a; Poll 1; Connect 1 [Ok 101%nat]; Await 2].
Lemma replaced_once_witness : exists m1 m2, run lazy_manager two_failures = Some m1 /\ current m1 = 1%nat /\
  run m1 third_request = Some m2 /\ gives m2 1 101%nat.
Proof.
  destruct (after_Some two_failures (fun m => (next_request m, run m third_request ≫= fun m => in_progress m !! 2%nat))
    (2%nat, Some (get_a, Sent 1 101%nat))) as (m & Hm & Hn); [by vm_compute|].
  injection Hn as Hn Hi. apply bind_Some in Hi as (m2 & Hm2 & Hi). exists m, m2. split; [exact Hm|].
  destruct (replaced_once resp3_client resubscribing lazy_manager m m2 two_failures third_request
    lazy_manager_new Hm Hm2) as (_ & _ & Hc & Hl).
  assert (base.size (failed lazy_manager two_failures) = 1%nat) as Hs by (by vm_compute). rewrite Hs in Hc.
  assert (disconnects two_failures = 0%nat) as Hd by (by vm_compute). split; [lia|]. split; [exact Hm2|].
  assert (next_request m <= 2)%nat as Hle by (rewrite Hn; lia).
  by destruct (Hl 2%nat get_a (Sent 1 101%nat) Hle Hi) as [_ Hg]; apply Hg.
Defined.

(** A subscription is confirmed, then the connection ends. *)
Definition subscribed_then_ended : list (event (C := nat)) :=
  [Start (RSubscription Do_Subscribe [bs "news"]); Poll 0; Connect 0 [Ok 100%nat]; Await 0;
   Reply 0 (Ok (RValue Okay)); Track 0; PushArrives PushInfo_disconnect].

Lemma epochs_distinct_witness : exists m, run lazy_manager two_failures = Some m /\
  NoDup (map future_epoch (futures m)).
Proof.
  destruct (after_Some two_failures (fun _ => tt) tt) as (m & Hm & _); [by vm_compute|].
  exists m. split; [exact Hm|].
  apply (epochs_distinct resp3_client resubscribing CacheConfig_new lazy_manager m two_failures eq_refl
    lazy_manager_new Hm). by vm_compute.
Defined.

(** One failed attempt of two. *)
Lemma new_connection_ends_witness :
  let config := cm_set_number_of_retries ConnectionManagerConfig_default 1 in
  new_connection (retry_strategy_of config) [Err dropped; Ok 100%nat] = Some (Ok 100%nat).
Proof.
  intros config. destruct (new_connection_ends config [Err dropped; Ok 100%nat]) as (r & slept & Hr & Hn & _).
  - by vm_compute.
  - rewrite Hn. vm_compute in Hr. by injection Hr as <- _.
Defined.

(** A subscription can get lost: it is confirmed by the server, the connection
    ends, and the new connection asks the tracker before the subscription is
    entered.  The user is told that it was made, but the connection in use never
    hears of it. *)
Lemma subscription_lost_in_race :
  let es := [Start (RSubscription Do_Subscribe [bs "news"]); Poll 0; Connect 0 [Ok 100%nat]; Await 0;
             Reply 0 (Ok (RValue Okay)); PushArrives PushInfo_disconnect; Poll 1; Connect 1 [Ok 101%nat]; Track 0] in
  after es (fun m => (map args_iter (confirmed m), current m,
    (fun f => match cf_state f with Resolved (Some p) (Ok c) => Some (commands p, c) | _ => None end) <$>
      futures m !! current m)) =
  Some ([[Simple (bs "SUBSCRIBE"); Simple (bs "news")]], 1%nat, Some (Some ([], 101%nat))).
Proof. by vm_compute. Qed.

(** The end of a connection that a request has noticed already replaces the new
    connection as well, although nothing is wrong with it. *)
Lemma late_announcement_replaces_again :
  let es := [Start get_a; Poll 0; Connect 0 [Ok 100%nat]; Await 0; Reply 0 (Err dropped);
             Poll 1; Connect 1 [Ok 101%nat]; PushArrives PushInfo_disconnect] in
  after es (fun m => (current m, (fun f => match cf_state f with Resolved _ (Ok c) => Some c | _ => None end) <$>
      futures m !! 1%nat)) = Some (2%nat, Some (Some 101%nat)).
Proof. by vm_compute. Qed.
