(* ===== verification/Clients.v ===== *)
(** * What runs on top of a connection

    The scan iterators of [cmd.rs], the scripts of [script.rs] and the
    transactions of [connection.rs].  All of them are written against
    [ConnectionLike], and so are their theorems; what they need of the server
    behind the connection is stated as a hypothesis on its replies. *)

From S2P Require Import Prelude Text Float64 Combine Errors Types Parser Codec Cmd Convert Pipeline.
From S2P Require Import Slots Routing Caching Effects ConnInfo.
Local Open Scope Z_scope.

(** ** Iterators *)

Record CheckedIter (T : Type) := { batch : list (result ParsingError T); iter_cmd : Cmd }.
Arguments batch {T} _.
Arguments iter_cmd {T} _.

(** The reply of a scan: the next cursor and the values. *)
Definition frv_page : FromRedisValue (Z * list Value) := frv_tuple2 (frv_int u64_ty) (frv_vec frv_value).

Definition set_cursor_and_get_batch {T} (F : FromRedisValue T) (c : Cmd) (value : Value)
    : result RedisError (CheckedIter T) :=
  '(cursor, values) ←
    (if looks_like_cursor value then into_redis_error (from_redis_value frv_page value)
     else values ← into_redis_error (from_redis_value (frv_vec frv_value) value); Ok (0, values));
  Ok {| batch := from_each_redis_values F values; iter_cmd := with_cursor c (Some cursor) |}.

Section iter.
Context {St : Type} `{ConnectionLike St} {T : Type} (F : FromRedisValue T).

(** [Cmd::iter] *)
Definition Cmd_iter (c : Cmd) : action St (CheckedIter T) :=
  rv ← req_command c;
  lift (set_cursor_and_get_batch F c rv).

(** [CheckedIter::next] on the iterator and the connection it borrows; a round
    of the loop is a request, [fuel] of them are made.  [AsyncIterInner] has the
    same loop. *)
Fixpoint iter_next (fuel : nat) (it : CheckedIter T)
    : action St (option (result RedisError T) * CheckedIter T) :=
  match batch it with
  | value :: rest =>
      mret (Some (into_redis_error value), {| batch := rest; iter_cmd := iter_cmd it |})
  | [] =>
      match cursor (iter_cmd it) with
      | None => mret (None, it)
      | Some cur =>
          if cur =? 0 then mret (None, it)
          else
            match fuel with
            | O => wait
            | S fuel =>
                r ← attempt (val ← req_packed_command (get_packed_command (iter_cmd it));
                             lift (into_redis_error (from_redis_value frv_page val)));
                match r with
                | Ok (cursor, values) =>
                    iter_next fuel {| batch := from_each_redis_values F values;
                                      iter_cmd := with_cursor (iter_cmd it) (Some cursor) |}
                | Err e => mret (Some (Err e), it)
                end
            end
      end
  end.

(** [for item in iter]: all items; at most [n] of them with at most [fuel]
    requests each. *)
Fixpoint iter_collect (n fuel : nat) (it : CheckedIter T) : action St (list (result RedisError T)) :=
  match n with
  | O => wait
  | S n =>
      '(item, it) ← iter_next fuel it;
      match item with
      | None => mret []
      | Some item => rest ← iter_collect n fuel it; mret (item :: rest)
      end
  end.
End iter.

(** ** Scripts *)

(** [sha1_smol]: the hexadecimal digest. *)
Class Sha1 := sha1_hex : bytes -> bytes.

(** [cfg!(debug_assertions)]. *)
Class DebugAssertions := debug_assertions : bool.

Record Script := { code : bytes; hash : bytes }.
Record ScriptInvocation := { script : Script; inv_args : list bytes; inv_keys : list bytes }.

Definition Script_new `{Sha1} (code : bytes) : Script := {| code := code; hash := sha1_hex code |}.
Definition load_cmd (s : Script) : Cmd := cmd_args "SCRIPT" [bs "LOAD"; code s].
Definition prepare_invoke (s : Script) : ScriptInvocation :=
  {| script := s; inv_args := []; inv_keys := [] |}.
Definition inv_arg (i : ScriptInvocation) (arg : list bytes) : ScriptInvocation :=
  {| script := script i; inv_args := inv_args i ++ arg; inv_keys := inv_keys i |}.
Definition inv_key (i : ScriptInvocation) (key : list bytes) : ScriptInvocation :=
  {| script := script i; inv_args := inv_args i; inv_keys := inv_keys i ++ key |}.
Definition script_key (s : Script) (key : list bytes) : ScriptInvocation :=
  {| script := s; inv_args := []; inv_keys := key |}.
Definition script_arg (s : Script) (arg : list bytes) : ScriptInvocation :=
  {| script := s; inv_args := arg; inv_keys := [] |}.

Definition estimate_buflen (i : ScriptInvocation) : nat :=
  foldl (fun acc e => acc + length e)%nat O (inv_keys i ++ inv_args i) + 7 + length (hash (script i)) + 4.

Definition eval_cmd (i : ScriptInvocation) : Cmd :=
  cmd_args "EVALSHA" ([hash (script i); itoa (Z.of_nat (length (inv_keys i)))] ++ inv_keys i ++ inv_args i).

Section script.
Context {St : Type} `{ConnectionLike St} `{F64Display} `{DebugAssertions}.

(** The debug assertion panics when the server's hash is another one. *)
Definition load (s : Script) : action St bytes :=
  h ← Cmd_query frv_string (load_cmd s);
  if debug_assertions && negb (bytes_eqb h (hash s)) then panic else mret h.

Definition invoke {T} (F : FromRedisValue T) (i : ScriptInvocation) : action St T :=
  let eval_cmd := eval_cmd i in
  r ← attempt (Cmd_query F eval_cmd);
  match r with
  | Ok val => mret val
  | Err err =>
      if bool_decide (kind err = Server NoScript)
      then _ ← load (script i); Cmd_query F eval_cmd
      else fail err
  end.
End script.

(** ** Transactions *)

Section transaction.
Context {St : Type} `{ConnectionLike St}.

Definition watch_cmd (keys : list bytes) : Cmd := cmd_args "WATCH" keys.

(** [transaction]; [func] is given the connection and an atomic pipeline.  [fuel]
    bounds the attempts. *)
Fixpoint transaction {T} (fuel : nat) (keys : list bytes) (func : Pipeline -> action St (option T))
    : action St T :=
  match fuel with
  | O => wait
  | S fuel =>
      _ ← Cmd_exec (watch_cmd keys);
      response ← func (atomic Pipeline_new);
      match response with
      | None => transaction fuel keys func
      | Some response => _ ← Cmd_exec (cmd "UNWATCH"); mret response
      end
  end.
End transaction.

(** ** A scan visits every page *)

Section scan.
Context {St : Type} `{ConnectionLike St} {T : Type} (F : FromRedisValue T) (c : Cmd).

(** The pages of the server from cursor [cur] on: each is answered to the
    command with its cursor, and names the next. *)
Inductive pages : Z -> list (list Value) -> St -> St -> Prop :=
| pages_end s : pages 0 [] s s
| pages_next cur next values rest s s' s'' :
    cur <> 0 -> 0 <= next <= u64_max ->
    req_packed_command (get_packed_command (with_cursor c (Some cur))) s =
      Return (Ok (Array [BulkString (itoa next); Array values])) s' ->
    pages next rest s' s'' ->
    pages cur (values :: rest) s s''.

Lemma page_of_reply next values : 0 <= next <= u64_max ->
  from_redis_value frv_page (Array [BulkString (itoa next); Array values]) = Ok (next, values).
Proof.
  intros Hn. unfold frv_page. cbn -[itoa parse_int from_utf8].
  rewrite from_utf8_itoa.
  cbn -[itoa parse_int]. rewrite parse_int_itoa; [|done|done]. simpl.
  assert (try_map Ok values = Ok values :> result ParsingError _) as ->; [|done].
  clear. by induction values as [|v values IH]; simpl; [|rewrite IH].
Qed.

(** The items of pages. *)
Definition items (ps : list (list Value)) : list (result ParsingError T) :=
  concat (map (from_each_redis_values F) ps).

(** An iterator in the middle of a scan: [b] of the current page is left, then
    come the pages [ps]. *)
Definition scanning (it : CheckedIter T) (b : list (result ParsingError T)) (ps : list (list Value))
    (s s' : St) : Prop :=
  batch it = b /\ exists cur, iter_cmd it = with_cursor c (Some cur) /\ pages cur ps s s'.

Lemma iter_next_scanning fuel it b ps s s' : scanning it b ps s s' -> (length ps <= fuel)%nat ->
  match b ++ items ps with
  | [] => exists it', iter_next F fuel it s = Return (Ok (None, it')) s'
  | v :: l => exists it' b' ps' s1,
      iter_next F fuel it s = Return (Ok (Some (into_redis_error v), it')) s1 /\
      scanning it' b' ps' s1 s' /\ (length ps' <= length ps)%nat /\ l = b' ++ items ps'
  end.
Proof.
  intros (Hb & cur & Hcmd & Hp) Hf. revert it b fuel Hb Hcmd Hf.
  induction Hp as [s|cur next values rest s s1 s' Hcur Hnext Hreq Hp IH]; intros it b fuel Hb Hcmd Hf;
    (destruct b as [|v b]; [|destruct fuel; cbn [iter_next]; rewrite Hb; eexists _, b, _, _;
      (split_and!; [reflexivity|split; [done|]; eexists; split; [exact Hcmd|]|done|done]);
      first [constructor; fail|by constructor|by econstructor]]).
  - destruct fuel; cbn [iter_next]; rewrite Hb, Hcmd; simpl; eauto.
  - destruct fuel as [|fuel]; simpl in Hf; [lia|]. cbn [iter_next]. rewrite Hb, Hcmd.
    cbn [with_cursor cursor]. rewrite (proj2 (Z.eqb_neq _ _) Hcur).
    erewrite bind_ok.
    2: { unfold attempt. erewrite bind_ok by exact Hreq.
         rewrite page_of_reply by done. reflexivity. }
    cbn beta iota. simpl app.
    specialize (IH {| batch := from_each_redis_values F values; iter_cmd := with_cursor c (Some next) |}
                  (from_each_redis_values F values) fuel eq_refl eq_refl ltac:(lia)).
    change (items (values :: rest)) with (from_each_redis_values F values ++ items rest).
    change (with_cursor (with_cursor c (Some cur)) (Some next)) with (with_cursor c (Some next)).
    destruct (_ ++ items rest) as [|v l]; [done|].
    destruct IH as (it' & b' & ps' & s2 & H1 & H2 & H3 & H4). exists it', b', ps', s2.
    split_and!; try done. simpl. lia.
Qed.

Lemma iter_collect_scanning n fuel it b ps s s' : scanning it b ps s s' ->
  (length (b ++ items ps) < n)%nat -> (length ps <= fuel)%nat ->
  iter_collect F n fuel it s = Return (Ok (map into_redis_error (b ++ items ps))) s'.
Proof.
  revert it b ps s. induction n as [|n IH]; intros it b ps s Hs Hn Hf; [lia|]. cbn [iter_collect].
  pose proof (iter_next_scanning fuel it b ps s s' Hs Hf) as Hnext.
  destruct (b ++ items ps) as [|v l].
  - destruct Hnext as [it' Hnext]. by rewrite (bind_ok _ _ _ _ _ Hnext).
  - destruct Hnext as (it' & b' & ps' & s1 & Hnext & Hs' & Hlen & ->).
    rewrite (bind_ok _ _ _ _ _ Hnext). cbn beta iota.
    rewrite (bind_ok _ _ _ _ _ (IH it' b' ps' s1 Hs' ltac:(simpl in Hn; lia) ltac:(lia))). done.
Qed.

(** C31. Iterating over a scan ends, and yields exactly the items of all pages of
    the server, in order and each once, pages without items included: one
    request per page until the server returns the cursor 0. *)
Theorem scan_visits_all_pages n fuel s next values ps s1 s' : 0 <= next <= u64_max ->
  req_command c s = Return (Ok (Array [BulkString (itoa next); Array values])) s1 ->
  pages next ps s1 s' ->
  (length (items (values :: ps)) < n)%nat -> (length ps <= fuel)%nat ->
  (it ← Cmd_iter F c; iter_collect F n fuel it) s =
    Return (Ok (map into_redis_error (items (values :: ps)))) s'.
Proof.
  intros Hnext Hreq Hp Hn Hf. unfold Cmd_iter.
  erewrite bind_ok; [|erewrite bind_ok by exact Hreq; unfold lift, set_cursor_and_get_batch;
    assert (looks_like_cursor (Array [BulkString (itoa next); Array values]) = true) as -> by done;
    rewrite page_of_reply by done; reflexivity].
  apply (iter_collect_scanning _ _ _ (from_each_redis_values F values)); [|done..].
  split; [done|]. exists next. done.
Qed.
End scan.

(** A server that holds ten members of a set in three pages, the second of them
    empty, and answers the cursor of the request. *)
Definition sscan (cur : option Z) : Cmd :=
  with_cursor (cursor_arg (cmd_args "SSCAN" [bs "set"]) 0) cur.
Definition page_for (request : bytes) : Value :=
  let page next l := Array [BulkString (itoa next); Array (map Int l)] in
  if bytes_eqb request (get_packed_command (sscan (Some 0))) then page 17 [1; 2]
  else if bytes_eqb request (get_packed_command (sscan (Some 17))) then page 5 []
  else page 0 [3].
#[local] Instance paging_server : ConnectionLike unit := {|
  req_packed_command request := mret (page_for request);
  req_packed_commands _ _ _ := mret [];
  req_command c := mret (page_for (get_packed_command c));
  supports_pipelining _ := true
|}.

Lemma scan_visits_all_pages_witness :
  (it ← Cmd_iter (frv_int i64_ty) (sscan (Some 0)); iter_collect (frv_int i64_ty) 4 2 it) () =
    Return (Ok [Ok 1; Ok 2; Ok 3]) ().
Proof.
  apply (scan_visits_all_pages (frv_int i64_ty) (sscan (Some 0)) 4 2 () 17 [Int 1; Int 2]
           [[]; [Int 3]] () ()); [done|vm_compute; reflexivity| |vm_compute; lia|simpl; lia].
  eapply (pages_next _ 17 5); [done|done|vm_compute; reflexivity|].
  eapply (pages_next _ 5 0); [done|done|vm_compute; reflexivity|constructor].
Defined.

(** An error reply to the first request of a scan is reported as a reply of the
    wrong type, not as the server's error. *)
Lemma scan_hides_server_error `{ConnectionLike St} {T} (F : FromRedisValue T) c s s' e :
  req_command c s = Return (Ok (ServerErr e)) s' ->
  exists err, Cmd_iter F c s = Return (Err err) s' /\ kind err = Parse.
Proof. intros Hr. unfold Cmd_iter. erewrite bind_ok by exact Hr. eexists. done. Qed.

(** ** Scripts are loaded when needed *)

Lemma string_of_bulk `{F64Display} b : utf8_valid b = true ->
  from_redis_value frv_string (BulkString b) = Ok b.
Proof. intros Hb. cbn -[from_utf8]. unfold from_utf8. by rewrite Hb. Qed.

Section script_server.
Context {St : Type} `{ConnectionLike St} `{F64Display} `{DebugAssertions}.
Context {T : Type} (F : FromRedisValue T) (i : ScriptInvocation).
Variables (loaded : St -> bool) (run : St -> Value * St) (store : St -> St).

(** The server evaluates a script it has, refuses one it does not have, and has
    it after SCRIPT LOAD. *)
Hypothesis eval_spec : forall s, req_command (eval_cmd i) s =
  if loaded s then Return (Ok (run s).1) (run s).2
  else Return (Ok (ServerErr (Repr_Known NoScript None))) s.
Hypothesis load_spec : forall s, req_command (load_cmd (script i)) s =
  Return (Ok (BulkString (hash (script i)))) (store s).
Hypothesis store_loads : forall s, loaded (store s) = true.
Hypothesis hash_utf8 : utf8_valid (hash (script i)) = true.
(** The script itself does not fail with NOSCRIPT. *)
Hypothesis run_spec : forall s, loaded s = true ->
  match extract_error (run s).1 with Err e => kind e <> Server NoScript | Ok _ => True end.

(** Invoking a script gives the result of running it on the server, whether
    or not the server had it before: it is loaded when it is missing, and run
    exactly once. *)
Theorem invoke_runs_script s :
  let s0 := if loaded s then s else store s in
  invoke F i s =
    Return (v ← extract_error (run s0).1; into_redis_error (from_redis_value F v)) (run s0).2.
Proof.
  assert (forall s0, loaded s0 = true -> Cmd_query F (eval_cmd i) s0 =
    Return (v ← extract_error (run s0).1; into_redis_error (from_redis_value F v)) (run s0).2) as Hrun.
  { intros s0 Hs0. unfold Cmd_query. rewrite (bind_ok _ _ _ (run s0).1 (run s0).2) by (by rewrite eval_spec, Hs0).
    unfold lift, mbind, action_bind, result_bind. by destruct (extract_error (run s0).1). }
  intros s0. unfold s0, invoke, attempt. cbv zeta. destruct (loaded s) eqn:El.
  - unfold mbind at 1, action_bind at 1. rewrite Hrun by done.
    specialize (run_spec s El). destruct (extract_error (run s).1) as [v|e]; simpl.
    + destruct (from_redis_value F v); done.
    + by rewrite bool_decide_eq_false_2.
  - unfold mbind at 1, action_bind at 1. unfold Cmd_query at 1, mbind at 1, action_bind at 1.
    rewrite eval_spec, El. simpl.
    erewrite bind_ok; [apply Hrun, store_loads|].
    unfold load, Cmd_query. erewrite bind_ok.
    2: { erewrite bind_ok by apply load_spec. rewrite (bind_ok _ _ _ (BulkString (hash (script i))) (store s)) by done.
         unfold lift. rewrite string_of_bulk by done. reflexivity. }
    by rewrite bytes_eqb_refl, andb_false_r.
Qed.
End script_server.

(** ** Transactions *)

Section watch.
Context {St : Type} `{ConnectionLike St} {T : Type} (keys : list bytes) (func : Pipeline -> action St (option T)).

(** An attempt that found a watched key changed. *)
Definition aborted (s s' : St) : Prop := exists s1,
  Cmd_exec (watch_cmd keys) s = Return (Ok ()) s1 /\ func (atomic Pipeline_new) s1 = Return (Ok None) s'.
(** An attempt that went through, and the UNWATCH behind it. *)
Definition committed (s : St) (t : T) (s' : St) : Prop := exists s1 s2,
  Cmd_exec (watch_cmd keys) s = Return (Ok ()) s1 /\
  func (atomic Pipeline_new) s1 = Return (Ok (Some t)) s2 /\
  Cmd_exec (cmd "UNWATCH") s2 = Return (Ok ()) s'.

(** A transaction watches the keys anew for every attempt and ends with the
    first that goes through: after any number of aborted attempts it returns the
    result of the one that is not. *)
Theorem transaction_retries n fuel s s1 t s' : relations.nsteps aborted n s s1 -> committed s1 t s' ->
  (n < fuel)%nat -> transaction fuel keys func s = Return (Ok t) s'.
Proof.
  intros Hn. revert fuel. induction Hn as [s|n s s0 s1 (w & Hw & Hf) Hn IH]; intros fuel Hc Hlt;
    (destruct fuel as [|fuel]; [lia|]); cbn [transaction].
  - destruct Hc as (w1 & w2 & H1 & H2 & H3). rewrite (bind_ok _ _ _ _ _ H1), (bind_ok _ _ _ _ _ H2).
    by rewrite (bind_ok _ _ _ _ _ H3).
  - rewrite (bind_ok _ _ _ _ _ Hw), (bind_ok _ _ _ _ _ Hf). apply IH; [done|lia].
Qed.
End watch.

(** A server without the script, and one round of aborted transaction. *)
Definition add_script : Script := {| code := bs "return 1 + 2"; hash := bs "d0b1a9" |}.
#[local] Instance script_store : ConnectionLike bool := {|
  req_packed_command _ := mret Nil;
  req_packed_commands _ _ _ := mret [];
  req_command c := fun has_script =>
    if bytes_eqb (get_packed_command c) (get_packed_command (load_cmd add_script))
    then Return (Ok (BulkString (hash add_script))) true
    else if has_script then Return (Ok (Int 3)) has_script
    else Return (Ok (ServerErr (Repr_Known NoScript None))) has_script;
  supports_pipelining _ := true
|}.

Lemma invoke_runs_script_witness :
  let _ : F64Display := fun _ => [] in let _ : DebugAssertions := true in
  invoke (frv_int i64_ty) (prepare_invoke add_script) false = Return (Ok 3) true.
Proof.
  intros D A.
  apply (invoke_runs_script (frv_int i64_ty) (prepare_invoke add_script)
           (fun s => s) (fun s => (Int 3, s)) (fun _ => true)); intros; try reflexivity.
Defined.

#[local] Instance obliging_server : ConnectionLike nat := {|
  req_packed_command _ := mret Okay;
  req_packed_commands _ _ _ := mret [];
  req_command _ := mret Okay;
  supports_pipelining _ := true
|}.

Lemma transaction_retries_witness :
  transaction 2 [bs "k"] (fun _ n => Return (Ok (if (n =? 0)%nat then None else Some n)) (S n)) O =
    Return (Ok 1%nat) 2%nat.
Proof.
  apply (transaction_retries [bs "k"] _ 1 2 O 1%nat 1%nat 2%nat); [|exists 1%nat, 2%nat; done|lia].
  apply relations.nsteps_once. exists O. done.
Defined.
