(* ===== verification/AsyncIter.v ===== *)
(** * Asynchronous iterators

    [AsyncIter] of [cmd.rs]: the stream around the loop of [Clients.iter_next], which
    keeps the iterator while it is idle and a future that owns the iterator while a
    request is under way.  A poll finds the future ready or not; the request of a
    future that is ready has been made. *)

From S2P Require Import Prelude Text Float64 Combine Errors Types Parser Codec Cmd Convert Pipeline.
From S2P Require Import Slots Routing Caching Effects ConnInfo Clients.

Inductive Poll (A : Type) := Ready (a : A) | Pending.
Arguments Ready {A} a.
Arguments Pending {A}.

(** The future is represented by the iterator that it owns. *)
Inductive IterOrFuture (T : Type) := Iter (it : CheckedIter T) | Future (it : CheckedIter T) | Empty.
Arguments Iter {T} it.
Arguments Future {T} it.
Arguments Empty {T}.

Section polling.
Context {St : Type} `{ConnectionLike St} {T : Type} (F : FromRedisValue T) (fuel : nat).

(** [Cmd::iter_async]. *)
Definition iter_async (c : Cmd) : action St (IterOrFuture T) :=
  rv ← req_command c;
  it ← lift (set_cursor_and_get_batch F c rv);
  mret (Iter it).

(** Polling the future: [AsyncIterInner::next_item] when it is ready. *)
Definition poll_future (ready : bool) (it : CheckedIter T)
    : action St (Poll (option (result RedisError T)) * IterOrFuture T) :=
  if ready then '(value, it) ← iter_next F fuel it; mret (Ready value, Iter it)
  else mret (Pending, Future it).

(** [poll_next]: an idle iterator becomes a future, which is polled at once;
    [Empty] is only there while this runs. *)
Definition poll_next (ready : bool) (inner : IterOrFuture T)
    : action St (Poll (option (result RedisError T)) * IterOrFuture T) :=
  match inner with
  | Iter it => poll_future ready it
  | Future it => poll_future ready it
  | Empty => panic
  end.

(** Polls in sequence, each with whether the future is ready, and the values that
    became ready. *)
Fixpoint polls (schedule : list bool) (inner : IterOrFuture T)
    : action St (list (option (result RedisError T)) * IterOrFuture T) :=
  match schedule with
  | [] => mret ([], inner)
  | ready :: schedule =>
      '(p, inner) ← poll_next ready inner;
      '(rest, inner) ← polls schedule inner;
      mret (match p with Ready v => v :: rest | Pending => rest end, inner)
  end.

(** As many calls of [next] as polls that found the future ready. *)
Fixpoint nexts (n : nat) (it : CheckedIter T)
    : action St (list (option (result RedisError T)) * CheckedIter T) :=
  match n with
  | O => mret ([], it)
  | S n =>
      '(v, it) ← iter_next F fuel it;
      '(rest, it) ← nexts n it;
      mret (v :: rest, it)
  end.

Definition iterator_of (inner : IterOrFuture T) : option (CheckedIter T) :=
  match inner with Iter it | Future it => Some it | Empty => None end.
Definition ready_count (schedule : list bool) : nat := length (filter (fun b => b = true) schedule).

(** Whenever the stream is polled and however often its futures are not ready, it gives
    the values of the synchronous iterator in the same order, on the same requests, and
    the place-holder that would panic is never met. *)
Theorem polling_is_iteration schedule inner it s : iterator_of inner = Some it ->
  (x ← polls schedule inner; mret (x.1, iterator_of x.2)) s =
  (x ← nexts (ready_count schedule) it; mret (x.1, Some x.2)) s.
Proof.
  revert inner it s. induction schedule as [|ready schedule IH]; intros inner it s Hi;
    [unfold mbind, action_bind, mret, action_ret; simpl; by rewrite Hi|].
  assert (poll_next ready inner s = poll_future ready it s) as Hp by (destruct inner; by simplify_eq/=).
  unfold ready_count in *. cbn [polls]. rewrite filter_cons. unfold poll_future in Hp.
  destruct ready; case_decide; try done; cbn [length nexts].
  - unfold mbind, action_bind, mret, action_ret in *. rewrite Hp. destruct (iter_next F fuel it s) as [[[v it']|e] s'| |]; try done.
    simpl. specialize (IH (Iter it') it' s' eq_refl).
    destruct (polls schedule (Iter it') s') as [[[rest inner']|e] s''| |],
      (nexts _ it' s') as [[[rest' it'']|e'] s3| |]; simpl in *; congruence.
  - unfold mbind, action_bind, mret, action_ret in *. rewrite Hp. simpl. specialize (IH (Future it) it s eq_refl).
    rewrite <- IH. by destruct (polls schedule (Future it) s) as [[[rest inner']|e] s''| |].
Qed.
End polling.

#[local] Existing Instance paging_server.
(** The second page is empty; three polls find the stream not ready. *)
Lemma polling_is_iteration_witness :
  (x ← polls (frv_int i64_ty) 2 [false; true; false; false; true] (Iter {| batch := [Ok 1%Z]; iter_cmd := sscan (Some 17%Z) |});
   mret (x.1, iterator_of x.2)) () =
  (x ← nexts (frv_int i64_ty) 2 2 {| batch := [Ok 1%Z]; iter_cmd := sscan (Some 17%Z) |}; mret (x.1, Some x.2)) ().
Proof.
  exact (polling_is_iteration (frv_int i64_ty) 2 [false; true; false; false; true]
    (Iter {| batch := [Ok 1%Z]; iter_cmd := sscan (Some 17%Z) |}) _ () eq_refl).
Defined.
