(* ===== verification/Aio.v ===== *)
(** * Asynchronous connections

    [redis/src/aio/mod.rs], [connection.rs], [monitor.rs], [pubsub.rs] and
    [runtime.rs]: setting up a connection over a framed codec, choosing an
    address, transactions, the MONITOR stream, and the dedicated pub/sub
    connection, whose [PipelineSink] is driven by a task of its own.

    [Framed] is the codec around the socket: [frames] are the items its stream
    yields ([None] is its end) and [send_errors] the errors of the coming calls
    of [send], which succeed when nothing is listed.  The functions of the
    [futures] crate and of the runtimes are arguments: what [poll_next],
    [start_send] and [poll_flush] answer, what [select_ok] chooses. *)

From S2P Require Import Prelude Text Float64 Combine Errors Types Parser Codec Cmd Convert Pipeline.
From S2P Require Import Slots Routing Multiplexed Caching Effects Tls ConnInfo Connection Clients.

(** ** Setting up *)

Record Framed := {
  frames : list (option (result RedisError Value));
  send_errors : list (option RedisError);
  packets : list bytes
}.

(** [codec.next().await]; an ended stream stays ended. *)
Definition codec_next : action Framed (option (result RedisError Value)) := fun c =>
  match frames c with
  | [] => Waiting
  | None :: _ => Return (Ok None) c
  | item :: rest =>
      Return (Ok item) {| frames := rest; send_errors := send_errors c; packets := packets c |}
  end.

(** [codec.send(bytes).await]. *)
Definition codec_send (b : bytes) : action Framed unit := fun c =>
  match send_errors c with
  | Some e :: rest => Return (Err e) {| frames := frames c; send_errors := rest; packets := packets c |}
  | _ => Return (Ok ()) {| frames := frames c; send_errors := tail (send_errors c); packets := packets c ++ [b] |}
  end.

(** [codec.next().await.ok_or_else(closed_connection_error)??]. *)
Definition next_value : action Framed Value :=
  item ← codec_next;
  lift (default (Err closed_connection_error) item).

(** The loop [for _ in 0..count]. *)
Fixpoint receive (count : nat) : action Framed (list Value) :=
  match count with
  | O => mret []
  | S count => value ← next_value; results ← receive count; mret (value :: results)
  end.

Definition execute_connection_pipeline (p : Pipeline * ConnectionSetupComponents)
    : action Framed AuthResult :=
  let '(pipeline, instructions) := p in
  let count := Pipeline_len pipeline in
  if (count =? 0)%nat then mret Succeeded
  else
    _ ← codec_send (get_packed_pipeline pipeline);
    results ← receive count;
    r ← or_panic (check_connection_setup results instructions);
    lift r.

Definition setup_connection `{CargoPkgVersion} (i : RedisConnectionInfo)
    (cache_config : option CacheConfig) : action Framed unit :=
  auth ← execute_connection_pipeline (connection_setup_pipeline i true cache_config);
  match auth with
  | ShouldRetryWithoutUsername =>
      _ ← execute_connection_pipeline (connection_setup_pipeline i false cache_config);
      mret ()
  | Succeeded => mret ()
  end.

(** ** Choosing an address *)

Section connecting.
Context {SocketAddr Stream : Type} `{TlsFeature} `{TargetOs}.
(** What connecting to each address ends with. *)
Variable connect_tcp : SocketAddr -> result RedisError Stream.
Variable connect_tcp_tls : bytes -> bool -> option TlsConnParams -> SocketAddr -> result RedisError Stream.
Variable connect_unix : bytes -> result RedisError Stream.
(** [select_ok] of the futures crate; [None] is its panic. *)
Variable select_ok : list (result RedisError Stream) -> option (result RedisError Stream).

(** [get_socket_addrs], for what the lookup of the runtime answers. *)
Definition get_socket_addrs (lookup : result RedisError (list SocketAddr))
    : result RedisError (list SocketAddr) :=
  socket_addrs ← lookup;
  match socket_addrs with
  | [] => Err (redis_error_of InvalidClientConfig "No address found for host")
  | _ => Ok socket_addrs
  end.

(** [connect_simple]; [resolve] is the resolver of names. *)
Definition connect_simple (resolve : bytes -> Z -> result RedisError (list SocketAddr))
    (a : ConnectionAddr) : option (result RedisError Stream) :=
  match a with
  | Tcp host port =>
      match resolve host port with
      | Err e => Some (Err e)
      | Ok socket_addrs => select_ok (map connect_tcp socket_addrs)
      end
  | TcpTls host port insecure tls_params =>
      if tls_enabled then
        match resolve host port with
        | Err e => Some (Err e)
        | Ok socket_addrs => select_ok (map (connect_tcp_tls host insecure tls_params) socket_addrs)
        end
      else Some (Err (redis_error_of InvalidClientConfig
                        "Cannot connect to TCP with TLS without the tls feature"))
  | Unix path =>
      if cfg_unix then Some (connect_unix path)
      else Some (Err (redis_error_of InvalidClientConfig
                        "Cannot connect to unix sockets on this platform"))
  end.
End connecting.

(** ** Transactions *)

Section transaction_async.
Context {St : Type} `{ConnectionLike St}.

(** The loop; [fuel] bounds the attempts. *)
Fixpoint transaction_loop {T} (fuel : nat) (keys : list bytes) (func : Pipeline -> action St (option T))
    : action St T :=
  match fuel with
  | O => wait
  | S fuel =>
      _ ← Cmd_exec (watch_cmd keys);
      response ← attempt (func (atomic Pipeline_new));
      _ ← attempt (Cmd_exec (cmd "UNWATCH"));
      response ← lift response;
      match response with
      | Some result => mret result
      | None => transaction_loop fuel keys func
      end
  end.

Definition transaction_async {T} (fuel : nat) (keys : list bytes)
    (func : Pipeline -> action St (option T)) : action St T :=
  match keys with
  | [] => fail (redis_error_of InvalidClientConfig
                  "At least one key must be provided to watch for transactions")
  | _ => transaction_loop fuel keys func
  end.
End transaction_async.

(** ** Monitor *)

(** [Monitor::new]: the codec it streams from. *)
Definition Monitor_new `{CargoPkgVersion} (i : RedisConnectionInfo) : action Framed unit :=
  _ ← setup_connection i None;
  _ ← codec_send (get_packed_command (cmd "MONITOR"));
  _ ← next_value;
  mret ().

Definition convert_value {T} (F : FromRedisValue T) (value : result RedisError Value) : option T :=
  match value with
  | Ok value => to_option (from_redis_value F value)
  | Err _ => None
  end.

(** [poll_next] of the streams of a monitor, for an item of the codec. *)
Definition monitor_poll_next {T} (F : FromRedisValue T) (item : option (result RedisError Value))
    : option T :=
  item ≫= convert_value F.

(** What a consumer sees that takes items until the stream says it has ended,
    and whether it has. *)
Fixpoint monitored {T} (F : FromRedisValue T) (items : list (option (result RedisError Value)))
    : list T * bool :=
  match items with
  | [] => ([], false)
  | item :: items =>
      match monitor_poll_next F item with
      | None => ([], true)
      | Some t => let '(ts, ended) := monitored F items in (t :: ts, ended)
      end
  end.

(** ** The runtime *)

Inductive Runtime := Tokio | Smol.

(** The content of [CHOSEN_RUNTIME], with both runtimes compiled in. *)
Definition set_runtime (runtime : Runtime) (chosen : option Runtime)
    : result RedisError unit * option Runtime :=
  match chosen with
  | Some _ =>
      (Err (redis_error_of Client "Another runtime preference was already set. Please call this function before any other runtime preference is set."), chosen)
  | None => (Ok (), Some runtime)
  end.
Definition prefer_smol := set_runtime Smol.
Definition prefer_tokio := set_runtime Tokio.

(** [Runtime::locate]; [in_tokio] tells whether the caller runs inside tokio. *)
Definition locate (chosen : option Runtime) (in_tokio : bool) : Runtime :=
  match chosen with
  | Some runtime => runtime
  | None => if in_tokio then Tokio else Smol
  end.

(** ** The sink of a pub/sub connection *)

Module PubSub.

(** A [oneshot::Sender] is the number of the request. *)
Record PipelineMessage := { input : bytes; output : nat }.

(** The state of [PipelineSink], with what it has written to the stream, sent
    through the oneshot channels and handed to the channel of messages. *)
Record PipelineSink := {
  in_flight : list nat;
  written : list bytes;
  answers : list (nat * result RedisError Value);
  messages : list Msg
}.

Definition PipelineSink_new : PipelineSink :=
  {| in_flight := []; written := []; answers := []; messages := [] |}.

Definition answer (s : PipelineSink) (id : nat) (r : result RedisError Value) : PipelineSink :=
  {| in_flight := in_flight s; written := written s; answers := answers s ++ [(id, r)];
     messages := messages s |}.

(** [if let Some(entry) = in_flight.pop_front() { entry.send(result) }], and
    whether there was an entry. *)
Definition answer_front (s : PipelineSink) (r : result RedisError Value) : PipelineSink * bool :=
  match in_flight s with
  | [] => (s, false)
  | id :: rest =>
      (answer {| in_flight := rest; written := written s; answers := answers s; messages := messages s |} id r,
       true)
  end.

(** [sender.send(msg)]. *)
Definition send_msg (s : PipelineSink) (m : Msg) : PipelineSink :=
  {| in_flight := in_flight s; written := written s; answers := answers s; messages := messages s ++ [m] |}.

(** The kinds of an array that answer a request. *)
Definition answers_request (kind : bytes) : bool :=
  existsb (bytes_eqb kind)
    (map bs ["subscribe"; "psubscribe"; "unsubscribe"; "punsubscribe"; "pong"]).

Section sink.
Context `{F64Display}.

(** [Ok(())] is to go on, [Err(())] to stop the task. *)
Definition handle_message (s : PipelineSink) (result : result RedisError Value)
    : PipelineSink * Prelude.result unit unit :=
  match result with
  | Ok (Array value) =>
      if (match value with BulkString kind :: _ => answers_request kind | _ => false end)
      then ((answer_front s result).1, Ok ())
      else
        match from_owned_value (Array value) with
        | Some msg => (send_msg s msg, Ok ())
        | None => (s, Err ())
        end
  | Ok (Push kind data) =>
      if has_reply kind then ((answer_front s result).1, Ok ())
      else
        match from_push_info {| push_kind := kind; push_data := data |} with
        | Some msg => (send_msg s msg, Ok ())
        | None => (s, Err ())
        end
  | _ =>
      if (match result with Err err => is_unrecoverable_error err | Ok _ => false end) then (s, Err ())
      else
        let '(s, found) := answer_front s result in
        (s, if found : bool then Ok () else Err ())
  end.

(** [poll_read].  Every iteration asks whether the listener is gone and takes an
    item of the stream, whose end is [None]; the stream is pending behind
    [items]. *)
Fixpoint poll_read (s : PipelineSink) (items : list (bool * option (result RedisError Value)))
    : PipelineSink * Poll (result unit unit) :=
  match items with
  | [] => (s, Pending)
  | (is_closed, item) :: items =>
      if is_closed : bool then (s, Ready (Err ()))
      else
        match item with
        | None => (s, Ready (Err ()))
        | Some item =>
            match handle_message s item with
            | (s, Ok _) => poll_read s items
            | (s, Err _) => (s, Ready (Err ()))
            end
        end
  end.

(** [ready], [sent] and [flushed] are what the stream below answers. *)
Definition poll_ready (s : PipelineSink) (ready : Poll (result RedisError unit))
    : PipelineSink * Poll (result unit unit) :=
  (s, match ready with
      | Pending => Pending
      | Ready (Ok _) => Ready (Ok ())
      | Ready (Err _) => Ready (Err ())
      end).

Definition start_send (s : PipelineSink) (m : PipelineMessage) (sent : result RedisError unit)
    : PipelineSink * result unit unit :=
  match sent with
  | Ok _ =>
      ({| in_flight := in_flight s ++ [output m]; written := written s ++ [input m];
          answers := answers s; messages := messages s |}, Ok ())
  | Err err => (answer s (output m) (Err err), Err ())
  end.

Definition poll_flush (s : PipelineSink) (flushed : Poll (result RedisError unit))
    (items : list (bool * option (result RedisError Value))) : PipelineSink * Poll (result unit unit) :=
  match flushed with
  | Pending => (s, Pending)
  | Ready (Err err) => ((handle_message s (Err err)).1, Ready (Err ()))
  | Ready (Ok _) => poll_read s items
  end.

(** [poll_close]; [is_closed] and [next] are what the last two calls answer. *)
Definition poll_close (s : PipelineSink) (flushed : Poll (result RedisError unit))
    (items : list (bool * option (result RedisError Value))) (is_closed : bool)
    (next : Poll (option (result RedisError Value))) : PipelineSink * Poll (result unit unit) :=
  let '(s, r) := match in_flight s with
                 | [] => (s, Ready (Ok ()))
                 | _ => poll_flush s flushed items
                 end in
  match r with
  | Ready (Ok _) =>
      if is_closed then (s, Ready (Ok ()))
      else
        match next with
        | Pending => (s, Pending)
        | Ready (Some result) => ((handle_message s result).1, Pending)
        | Ready None => (s, Ready (Ok ()))
        end
  | _ => (s, r)
  end.
End sink.

(** ** The side of the caller *)

(** [send_recv]: [accepted] tells whether the task still takes requests, and
    [received] what came through the oneshot channel, or that its sender was
    dropped. *)
Definition send_recv (accepted : bool) (received : option (result RedisError Value))
    : result RedisError Value :=
  if negb accepted then Err closed_connection_error
  else default (Err closed_connection_error) received.

(** The packets of the requests. *)
Definition subscribe_packet (channel_name : list bytes) : bytes :=
  get_packed_command (cmd_args "SUBSCRIBE" channel_name).
Definition unsubscribe_packet (channel_name : list bytes) : bytes :=
  get_packed_command (cmd_args "UNSUBSCRIBE" channel_name).
Definition psubscribe_packet (channel_pattern : list bytes) : bytes :=
  get_packed_command (cmd_args "PSUBSCRIBE" channel_pattern).
Definition punsubscribe_packet (channel_pattern : list bytes) : bytes :=
  get_packed_command (cmd_args "PUNSUBSCRIBE" channel_pattern).
Definition ping_message_packet (message : list bytes) : bytes :=
  get_packed_command (cmd_args "PING" message).
Definition ping_packet : bytes := get_packed_command (cmd "PING").

(** [send_recv(..).await.map(|_| ())], the end of [subscribe] and the three like
    it. *)
Definition subscription_result (r : result RedisError Value) : result RedisError unit :=
  match r with Ok _ => Ok () | Err e => Err e end.
(** The end of [ping] and [ping_message]. *)
Definition ping_result {T} (F : FromRedisValue T) (r : result RedisError Value) : result RedisError T :=
  response ← r; into_redis_error (from_redis_value F response).

(** ** The task *)

(** The future that forwards the channel of requests into the sink, with the
    requests it has not taken yet.  When it ends, the senders of everything
    unanswered are dropped: their requests end with the error of a closed
    connection. *)
Record Task := {
  sink : PipelineSink;
  queue : list PipelineMessage;
  running : bool;
  ended_answers : list (nat * result RedisError Value)
}.

Definition Task_new : Task :=
  {| sink := PipelineSink_new; queue := []; running := true; ended_answers := [] |}.

(** A request dropped without an answer. *)
Definition dropped (id : nat) : nat * result RedisError Value := (id, send_recv true None).

(** The task after an operation of the sink, or its end if that failed. *)
Definition after_op (t : Task) (s : PipelineSink) (queue : list PipelineMessage) (failed : bool) : Task :=
  if failed then
    {| sink := {| in_flight := []; written := written s; answers := answers s; messages := messages s |};
       queue := []; running := false;
       ended_answers := ended_answers t ++ map dropped (in_flight s ++ map output queue) |}
  else {| sink := s; queue := queue; running := true; ended_answers := ended_answers t |}.

Definition poll_failed (p : Poll (result unit unit)) : bool :=
  match p with Ready (Err _) => true | _ => false end.

(** Closing ends the task either way. *)
Definition poll_finished (p : Poll (result unit unit)) : bool :=
  match p with Ready _ => true | Pending => false end.

(** The driver calls the operations of the sink in some order, with any answers
    of the stream; callers add requests at any time, and the task may be dropped
    with the [PubSubStream] that holds its handle.  The list names the request
    that a step adds. *)
Inductive task_step `{F64Display} (t : Task) : list nat -> Task -> Prop :=
| step_request m : running t = true ->
    task_step t [output m]
      {| sink := sink t; queue := queue t ++ [m]; running := true; ended_answers := ended_answers t |}
| step_refused m : running t = false ->
    task_step t [output m]
      {| sink := sink t; queue := queue t; running := false;
         ended_answers := ended_answers t ++ [(output m, send_recv false None)] |}
| step_ready ready s p : running t = true -> poll_ready (sink t) ready = (s, p) ->
    task_step t [] (after_op t s (queue t) (poll_failed p))
| step_send m rest sent s r : running t = true -> queue t = m :: rest ->
    start_send (sink t) m sent = (s, r) -> task_step t [] (after_op t s rest (negb (is_ok r)))
| step_flush flushed items s p : running t = true -> poll_flush (sink t) flushed items = (s, p) ->
    task_step t [] (after_op t s (queue t) (poll_failed p))
| step_close flushed items is_closed next s p : running t = true ->
    poll_close (sink t) flushed items is_closed next = (s, p) ->
    task_step t [] (after_op t s (queue t) (poll_finished p))
| step_drop : running t = true -> task_step t [] (after_op t (sink t) (queue t) true).

(** A task, and the requests made of it. *)
Inductive task_run `{F64Display} : list nat -> Task -> Prop :=
| run_new : task_run [] Task_new
| run_step ids t new t' : task_run ids t -> task_step t new t' -> task_run (ids ++ new) t'.

(** Every answer a request has got. *)
Definition all_answers (t : Task) : list (nat * result RedisError Value) :=
  answers (sink t) ++ ended_answers t.

(** ** Requests are answered once *)

(** The requests a sink has answered or holds. *)
Definition sink_ids (s : PipelineSink) : list nat := map fst (answers s) ++ in_flight s.

Lemma answer_front_ids s r : sink_ids (answer_front s r).1 ≡ₚ sink_ids s.
Proof.
  unfold answer_front, sink_ids. destruct (in_flight s) as [|id rest] eqn:E; simpl; rewrite ?E; [done|].
  rewrite map_app, <- app_assoc. done.
Qed.

Lemma handle_message_ids `{F64Display} s r : sink_ids (handle_message s r).1 ≡ₚ sink_ids s.
Proof.
  unfold handle_message. pose proof (answer_front_ids s r) as Ha.
  destruct (answer_front s r) as [s' found]. cases; try done.
Qed.

Lemma poll_read_ids `{F64Display} items s : sink_ids (poll_read s items).1 ≡ₚ sink_ids s.
Proof.
  revert s. induction items as [|[[] [item|]] items IH]; intros s; simpl; try done.
  pose proof (handle_message_ids s item) as Hm. destruct (handle_message s item) as [s' []]; simpl in *; [|done].
  by rewrite IH.
Qed.

Lemma poll_flush_ids `{F64Display} s flushed items : sink_ids (poll_flush s flushed items).1 ≡ₚ sink_ids s.
Proof. destruct flushed as [|[|]]; [done|apply poll_read_ids|apply handle_message_ids]. Qed.

Lemma poll_close_ids `{F64Display} s flushed items is_closed next :
  sink_ids (poll_close s flushed items is_closed next).1 ≡ₚ sink_ids s.
Proof.
  unfold poll_close. pose proof (poll_flush_ids s flushed items) as Hf.
  destruct (match in_flight s with [] => _ | _ => _ end) as [s' r] eqn:E.
  assert (sink_ids s' ≡ₚ sink_ids s) as Hs by (destruct (in_flight s); [by simplify_eq|by rewrite E in Hf]).
  destruct r as [|[|]]; simpl; try done.
  cases; simpl; rewrite ?handle_message_ids; done.
Qed.

(** The requests a task has answered, holds in flight or has in its queue. *)
Definition task_ids (t : Task) : list nat :=
  map fst (all_answers t) ++ in_flight (sink t) ++ map output (queue t).

Lemma dropped_ids l : map fst (map dropped l) = l.
Proof. rewrite map_map. apply map_id. Qed.

Lemma after_op_ids t s queue failed : task_ids (after_op t s queue failed) ≡ₚ
  sink_ids s ++ map fst (ended_answers t) ++ map output queue.
Proof.
  unfold task_ids, all_answers, sink_ids, after_op. destruct failed; simpl.
  - rewrite map_app, map_app, dropped_ids, !app_nil_r. solve_Permutation.
  - rewrite map_app. solve_Permutation.
Qed.

Lemma task_step_ids `{F64Display} t new t' : task_step t new t' -> task_ids t' ≡ₚ task_ids t ++ new.
Proof.
  assert (forall s, sink_ids s ≡ₚ sink_ids (sink t) ->
            sink_ids s ++ map fst (ended_answers t) ++ map output (queue t) ≡ₚ task_ids t ++ []) as Hsame.
  { intros s ->. unfold sink_ids, task_ids, all_answers. rewrite map_app. solve_Permutation. }
  intros Hstep. destruct Hstep as [m Hr|m Hr|rd s p Hr E|m rest sent s r Hr Hq E|fl items s p Hr E|fl items cl nx s p Hr E|Hr];
    rewrite ?after_op_ids.
  - unfold task_ids, all_answers. simpl. rewrite !map_app. simpl. solve_Permutation.
  - unfold task_ids, all_answers. simpl. rewrite !map_app. simpl. solve_Permutation.
  - apply Hsame. unfold poll_ready in E. by simplify_eq.
  - rewrite app_nil_r. unfold start_send in E. unfold task_ids, all_answers, sink_ids. rewrite Hq, map_app.
    destruct sent; simplify_eq; simpl; rewrite ?map_app; simpl; solve_Permutation.
  - apply Hsame. pose proof (poll_flush_ids (sink t) fl items) as Hf. by rewrite E in Hf.
  - apply Hsame. pose proof (poll_close_ids (sink t) fl items cl nx) as Hf. by rewrite E in Hf.
  - by apply Hsame.
Qed.

(** A task that has ended holds nothing back. *)
Definition task_settled (t : Task) : Prop :=
  running t = false -> in_flight (sink t) = [] /\ queue t = [].

Lemma after_op_settled t s queue failed : task_settled (after_op t s queue failed).
Proof. unfold task_settled, after_op. by destruct failed. Qed.

Lemma task_step_settled `{F64Display} t new t' : task_step t new t' -> task_settled t -> task_settled t'.
Proof. destruct 1; intros Hs; first [apply after_op_settled|intros Hr; simpl in *; auto; congruence]. Qed.

(** C35. Every request on a pub/sub connection ends exactly once: whatever the order
    of the driver's calls and the behaviour of the stream, each request made is
    answered once, waits in flight or waits in the queue; when the task has
    ended, by an error, the end of the stream or the drop of the listener, each
    of them has its one answer. *)
Theorem requests_answered_once `{F64Display} (ids : list nat) (t : Task) (Hrun : task_run ids t) :
  task_ids t ≡ₚ ids /\ (running t = false -> map fst (all_answers t) ≡ₚ ids).
Proof.
  assert (task_ids t ≡ₚ ids /\ task_settled t) as [Hids Hset].
  { induction Hrun as [|ids t new t' Hrun [IHi IHs] Hstep]; [done|].
    split; [by rewrite (task_step_ids _ _ _ Hstep), IHi|by eapply task_step_settled]. }
  split; [done|]. intros Hend. destruct (Hset Hend) as [Hf Hq].
  rewrite <- Hids. unfold task_ids. by rewrite Hf, Hq, app_nil_r.
Qed.

(** ** Replies and messages in order *)

Section order.
Context `{F64Display}.

(** What the server of a pub/sub connection sends: messages, and confirmations of
    the kinds a client can ask for, those of sharded channels in RESP3 only. *)
Definition sendable (resp3 : bool) (d : delivery) : Prop :=
  match d with
  | ToChannel _ _ | ToPattern _ _ _ | Pong _ => True
  | ToShard _ _ => resp3 = true
  | Confirms k _ _ =>
      k ∈ [Types.Subscribe; Types.Unsubscribe; Types.PSubscribe; Types.PUnsubscribe] \/
      resp3 = true /\ k ∈ [Types.SSubscribe; Types.SUnsubscribe]
  | OtherPush _ _ => False
  end.
(** Which of it answers requests. *)
Definition is_confirmation (d : delivery) : bool :=
  match d with Confirms _ _ _ | Pong _ => true | _ => false end.

Lemma handle_sendable resp3 s d : sendable resp3 d -> (is_confirmation d = true -> in_flight s <> []) ->
  handle_message s (Ok (form resp3 d)) =
    ((if is_confirmation d then (answer_front s (Ok (form resp3 d))).1
      else match message_in d with Some m => send_msg s m | None => s end), Ok ()).
Proof.
  intros Hd Hf. destruct d as [ch m|pat ch m|ch m|k ch n|m|k data]; cbn [sendable] in Hd.
  - by destruct resp3.
  - by destruct resp3.
  - by rewrite Hd.
  - rewrite !elem_of_cons in Hd.
    by destruct Hd as [[->|[->|[->|[->|[]%not_elem_of_nil]]]]|[-> [->|[->|[]%not_elem_of_nil]]]];
      try destruct resp3.
  - destruct resp3; [|done]. destruct m; simpl; unfold answer_front; by destruct (in_flight s); [destruct Hf|].
  - done.
Qed.

(** What happens on the connection: requests are written, values arrive. *)
Inductive event := Sent (m : PipelineMessage) | Arrived (d : delivery).

Definition sink_event (resp3 : bool) (s : PipelineSink) (e : event) : PipelineSink :=
  match e with
  | Sent m => (start_send s m (Ok ())).1
  | Arrived d => (poll_flush s (Ready (Ok ())) [(false, Some (Ok (form resp3 d)))]).1
  end.
Definition run_events (resp3 : bool) (s : PipelineSink) (es : list event) : PipelineSink :=
  foldl (sink_event resp3) s es.

Definition requests (es : list event) : list nat :=
  omap (fun e => match e with Sent m => Some (output m) | Arrived _ => None end) es.
Definition arrivals (es : list event) : list delivery :=
  omap (fun e => match e with Sent _ => None | Arrived d => Some d end) es.
Definition confirmations (ds : list delivery) : list delivery := List.filter is_confirmation ds.

(** No confirmation arrives before its request was written: [waiting] requests
    are unanswered. *)
Fixpoint causal (waiting : nat) (es : list event) : bool :=
  match es with
  | [] => true
  | Sent _ :: es => causal (S waiting) es
  | Arrived d :: es =>
      if is_confirmation d then match waiting with O => false | S n => causal n es end else causal waiting es
  end.

Lemma arrived_sendable resp3 s d : sendable resp3 d -> (is_confirmation d = true -> in_flight s <> []) ->
  sink_event resp3 s (Arrived d) =
    (if is_confirmation d then (answer_front s (Ok (form resp3 d))).1
     else match message_in d with Some m => send_msg s m | None => s end).
Proof. intros Hd Hf. unfold sink_event, poll_flush. cbn [poll_read]. by rewrite handle_sendable. Qed.

Lemma run_events_order resp3 es s :
  Forall (sendable resp3) (arrivals es) -> causal (length (in_flight s)) es = true ->
  let cs := confirmations (arrivals es) in
  answers (run_events resp3 s es) =
    answers s ++ zip (in_flight s ++ requests es) (map (fun d => Ok (form resp3 d)) cs) /\
  in_flight (run_events resp3 s es) = drop (length cs) (in_flight s ++ requests es) /\
  messages (run_events resp3 s es) = messages s ++ omap message_in (arrivals es).
Proof.
  revert s. induction es as [|[m|d] es IH]; intros s He Hc.
  - simpl. rewrite !app_nil_r. destruct (in_flight s); simpl; by rewrite ?app_nil_r.
  - destruct (IH (sink_event resp3 s (Sent m))) as (Ha & Hf & Hm); [done|simpl in *; rewrite length_app; simpl; by rewrite Nat.add_1_r|].
    simpl in *. rewrite Ha, Hf, Hm. by rewrite <- !app_assoc.
  - apply Forall_cons in He as [Hv He]. fold (arrivals es) in He. cbn [causal] in Hc. cbv zeta.
    change (run_events resp3 s (Arrived d :: es)) with (run_events resp3 (sink_event resp3 s (Arrived d)) es).
    rewrite arrived_sendable by (done || intros Ec E; by rewrite Ec, E in Hc).
    change (arrivals (Arrived d :: es)) with (d :: arrivals es). change (requests (Arrived d :: es)) with (requests es).
    unfold confirmations in *. cbn [List.filter]. destruct (is_confirmation d) eqn:Er.
    + unfold answer_front. destruct (in_flight s) as [|id rest] eqn:Ef; [done|]. simpl in Hc.
      destruct (IH (answer {| in_flight := rest; written := written s; answers := answers s; messages := messages s |}
        id (Ok (form resp3 d)))) as (Ha & Hf & Hm); [done..|]. cbn [fst]. rewrite Ha, Hf, Hm.
      cbn [answer answers in_flight messages]. rewrite <- app_assoc. split; [done|]. split; [done|]. by destruct d.
    + destruct (message_in d) as [m|] eqn:Em.
      * destruct (IH (send_msg s m)) as (Ha & Hf & Hm); [done..|]. rewrite Ha, Hf, Hm. simpl. rewrite Em.
        by rewrite <- app_assoc.
      * destruct (IH s) as (Ha & Hf & Hm); [done..|]. simpl. by rewrite Em.
Qed.
End order.

(** C36. On a pub/sub connection, in RESP2 or RESP3, replies and messages come
    through in their order, however they are interleaved with each other and
    with new requests: the confirmations of all kinds and the answers to PING
    answer the requests, the first of them the first request, and so on (by
    position: [confirmation_misattributed] shows what that makes of a request
    that is confirmed twice); the listener is given every message, to a
    channel, a pattern or a sharded channel, in the order it was published; and
    the requests without a confirmation stay in flight. *)
Theorem pubsub_interleaving `{F64Display} (resp3 : bool) (es : list event)
    (Hsent : Forall (sendable resp3) (arrivals es)) (Hcausal : causal 0 es = true) :
  let s := run_events resp3 PipelineSink_new es in
  let cs := confirmations (arrivals es) in
  answers s = zip (requests es) (map (fun d => Ok (form resp3 d)) cs) /\
  in_flight s = drop (length cs) (requests es) /\
  messages s = omap message_in (arrivals es).
Proof. exact (run_events_order resp3 es PipelineSink_new Hsent Hcausal). Qed.

Definition request (id : nat) (b : bytes) : PipelineMessage := {| input := b; output := id |}.

Definition interleaved : list event :=
  [Sent (request 0 (subscribe_packet [bs "a"])); Arrived (Confirms Types.Subscribe (Some (bs "a")) 1);
   Arrived (ToChannel (bs "a") (bs "one")); Sent (request 1 (psubscribe_packet [bs "b*"]));
   Sent (request 2 (unsubscribe_packet [bs "a"])); Arrived (ToChannel (bs "a") (bs "two"));
   Arrived (Confirms Types.PSubscribe (Some (bs "b*")) 2); Arrived (ToPattern (bs "b*") (bs "b1") (bs "three"))].

Lemma pubsub_interleaving_witness : let _ : F64Display := fun _ => [] in
  let s := run_events false PipelineSink_new interleaved in
  answers s = [(0, Ok (form false (Confirms Types.Subscribe (Some (bs "a")) 1)));
               (1, Ok (form false (Confirms Types.PSubscribe (Some (bs "b*")) 2)))] /\
  map payload (messages s) = map BulkString (map bs ["one"; "two"; "three"]).
Proof.
  intros D s. destruct (pubsub_interleaving false interleaved) as (Ha & _ & Hm); [|reflexivity|].
  { repeat constructor; simpl; left; set_solver. }
  split; [unfold s; rewrite Ha|unfold s; rewrite Hm]; reflexivity.
Defined.

Lemma requests_answered_once_witness : let _ : F64Display := fun _ => [] in
  exists t, task_run [7] t /\ running t = false /\ map fst (all_answers t) ≡ₚ [7].
Proof.
  intros D. set (m := request 7 ping_packet).
  set (t1 := {| sink := PipelineSink_new; queue := [m]; running := true; ended_answers := [] |}).
  assert (task_run [7] t1) as H1 by exact (run_step [] Task_new _ _ run_new (step_request Task_new m eq_refl)).
  pose proof (run_step _ _ _ _ H1 (step_drop t1 eq_refl)) as H2.
  exists (after_op t1 (sink t1) (queue t1) true). split; [exact H2|]. split; [reflexivity|].
  exact (proj2 (requests_answered_once _ _ H2) eq_refl).
Defined.

(** SUBSCRIBE to several channels is confirmed once for each, but each
    confirmation answers a request: the second one answers the PING behind it,
    whose own reply is thrown away. *)
Lemma confirmation_misattributed : let _ : F64Display := fun _ => [] in
  let first := Confirms Types.Subscribe (Some (bs "a")) 1 in
  let second := Confirms Types.Subscribe (Some (bs "b")) 2 in
  let s := run_events false PipelineSink_new
    [Sent (request 0 (subscribe_packet [bs "a"; bs "b"])); Sent (request 1 ping_packet);
     Arrived first; Arrived second; Arrived (Pong None)] in
  answers s = [(0, Ok (form false first)); (1, Ok (form false second))] /\
  in_flight s = [] /\
  is_ok (ping_result (frv_vec frv_string) (Ok (form false (Pong None)))) = true /\
  ping_result (frv_vec frv_value) (Ok (form false second)) =
    Ok [BulkString (bs "subscribe"); BulkString (bs "b"); Int 2].
Proof. split_and!; reflexivity. Qed.

(** A server that refuses a subscription, for want of permission, say, answers
    with an error; the caller of [subscribe] is told that it succeeded. *)
Lemma refused_subscription_succeeds `{F64Display} (id : nat) (b : bytes) (e : ServerError) :
  let s := (start_send PipelineSink_new (request id b) (Ok ())).1 in
  answers (poll_flush s (Ready (Ok ())) [(false, Some (Ok (ServerErr e)))]).1 = [(id, Ok (ServerErr e))] /\
  subscription_result (send_recv true (Some (Ok (ServerErr e)))) = Ok ().
Proof. done. Qed.

(** Closing the sink takes at most one more item and then waits, although the
    stream has not been asked again; the channel of requests never ends, so that
    the driver does not close it. *)
Lemma close_waits `{F64Display} s flushed items r : in_flight s = [] ->
  (poll_close s flushed items false (Ready (Some r))).2 = Pending.
Proof. intros Hf. unfold poll_close. by rewrite Hf. Qed.

End PubSub.

(** ** Setting up, on both kinds of connection *)

Lemma codec_send_ok b c : send_errors c = [] ->
  codec_send b c = Return (Ok ()) {| frames := frames c; send_errors := []; packets := packets c ++ [b] |}.
Proof. unfold codec_send. by intros ->. Qed.

Lemma receive_values vs rest c : frames c = map (Some ∘ Ok) vs ++ rest ->
  receive (length vs) c =
    Return (Ok vs) {| frames := rest; send_errors := send_errors c; packets := packets c |}.
Proof.
  revert c. induction vs as [|v vs IH]; intros c Hf.
  - destruct c. simpl in *. by subst.
  - cbn [length receive]. erewrite bind_ok.
    2: { unfold next_value. erewrite bind_ok by (unfold codec_next; rewrite Hf; reflexivity). reflexivity. }
    erewrite bind_ok by (apply IH; reflexivity). done.
Qed.

Section setup_agrees.
Context `{BuildProfile} `{CargoPkgVersion}.
Variable server : Cmd -> Value.

Lemma execute_pipeline_verdict_async i check_username cache_config rest c :
  let p := connection_setup_pipeline i check_username cache_config in
  frames c = map (Some ∘ Ok) (server_replies server p.1) ++ rest -> send_errors c = [] ->
  exists c', execute_connection_pipeline p c =
      Return (setup_verdict server i check_username cache_config) c' /\
    frames c' = rest /\ send_errors c' = [].
Proof.
  intros p Hf Hs.
  assert (check_connection_setup (server_replies server p.1) p.2 =
          Some (setup_verdict server i check_username cache_config)) as Hcheck
    by (unfold p, server_replies; pose proof (setup_verdict_checked server i check_username cache_config) as Hv;
        by destruct (connection_setup_pipeline i check_username cache_config)).
  pose proof (setup_verdict_empty server i check_username cache_config) as Hempty. fold p in Hempty.
  clearbody p. destruct p as [p components]. unfold execute_connection_pipeline. simpl in *.
  unfold Pipeline_is_empty in Hempty. destruct (Pipeline_len p =? 0)%nat eqn:He; unfold Pipeline_len in *.
  - exists c. rewrite Hempty by done. split_and!; try done.
    apply Nat.eqb_eq, nil_length_inv in He. unfold server_replies in Hf. by rewrite He in Hf.
  - erewrite bind_ok by (by apply codec_send_ok).
    assert (length (commands p) = length (server_replies server p)) as ->
      by (unfold server_replies; by rewrite length_map).
    erewrite bind_ok by (by apply (receive_values _ rest)). rewrite Hcheck. eauto.
Qed.

Lemma setup_replies_checked_async i cache_config c :
  frames c = map (Some ∘ Ok) (setup_replies server i cache_config) -> send_errors c = [] ->
  exists c', setup_connection i cache_config c = Return (setup_outcome server i cache_config) c' /\ frames c' = [].
Proof.
  unfold setup_connection, setup_outcome, setup_replies. rewrite map_app. intros Hf Hs.
  set (later := match setup_verdict server i true cache_config with Ok _ => _ | Err _ => _ end) in Hf.
  destruct (execute_pipeline_verdict_async i true cache_config (map (Some ∘ Ok) later) c)
    as (c1 & H1 & Hf1 & Hs1); [done..|].
  unfold later in Hf1. unfold mbind at 1, action_bind at 1. rewrite H1.
  destruct (setup_verdict server i true cache_config) as [[]|e] eqn:Ev; simpl; try by exists c1.
  destruct (execute_pipeline_verdict_async i false cache_config [] c1)
    as (c2 & H2 & Hf2 & Hs2); [by rewrite Hf1, app_nil_r|done|].
  unfold mbind at 1, action_bind at 1. rewrite H2.
  exists c2. by destruct (setup_verdict server i false cache_config).
Qed.

(** An asynchronous connection is set up like a synchronous one: for any
    settings and any server that answers each command, the set-up over the codec
    and the one over the socket return the same result, and both leave nothing
    unread. *)
Theorem setup_agrees i cache_config : (forall c, is_push (server c) = false) ->
  let vs := setup_replies server i cache_config in
  exists r c c',
    setup_connection i cache_config {| frames := map (Some ∘ Ok) vs; send_errors := []; packets := [] |} =
      Return r c /\
    Connection.setup_connection i cache_config (fresh_connection i (map Ok vs) []) = Return r c' /\
    frames c = [] /\ incoming c' = [].
Proof.
  intros Hp vs.
  destruct (setup_replies_checked_async i cache_config
              {| frames := map (Some ∘ Ok) vs; send_errors := []; packets := [] |}) as (c & Hc & Hf); [done..|].
  destruct (setup_replies_checked server Hp i cache_config) as (c' & Hc' & Hi & _).
  by exists (setup_outcome server i cache_config), c, c'.
Qed.
End setup_agrees.

Lemma setup_agrees_witness :
  let _ : BuildProfile := true in let _ : CargoPkgVersion := bs "1.7.0" in
  let i := set_db (set_password RedisConnectionInfo_default (bs "secret")) 3 in
  exists r c c',
    setup_connection i None {| frames := map (Some ∘ Ok) (setup_replies (fun _ => Okay) i None); send_errors := []; packets := [] |} = Return r c /\
    Connection.setup_connection i None (fresh_connection i (map Ok (setup_replies (fun _ => Okay) i None)) []) = Return r c' /\
    frames c = [] /\ incoming c' = [].
Proof. intros B V i. exact (setup_agrees (fun _ => Okay) i None (fun _ => eq_refl)). Defined.

(** ** Transactions *)

Section watch_async.
Context {St : Type} `{ConnectionLike St} {T : Type} (keys : list bytes) (func : Pipeline -> action St (option T)).

(** An attempt, behind which the keys are no longer watched; the result of
    UNWATCH does not matter. *)
Definition attempted (s : St) (r : result RedisError (option T)) (s' : St) : Prop := exists s1 s2 u,
  Cmd_exec (watch_cmd keys) s = Return (Ok ()) s1 /\ func (atomic Pipeline_new) s1 = Return r s2 /\
  Cmd_exec (cmd "UNWATCH") s2 = Return u s'.

Lemma transaction_loop_attempt fuel s r s' : attempted s r s' ->
  transaction_loop (S fuel) keys func s =
    match r with
    | Ok (Some t) => Return (Ok t) s'
    | Ok None => transaction_loop fuel keys func s'
    | Err e => Return (Err e) s'
    end.
Proof.
  intros (s1 & s2 & u & Hw & Hf & Hu). cbn [transaction_loop].
  rewrite (bind_ok _ _ _ _ _ Hw), (bind_attempt _ _ _ _ _ Hf), (bind_attempt _ _ _ _ _ Hu).
  by destruct r as [[]|].
Qed.

(** A transaction on an asynchronous connection ends with the first attempt
    that is not aborted: its result or its error is returned, and in both cases
    an UNWATCH has been sent behind it, so that the connection watches nothing
    on account of this transaction. *)
Theorem transaction_async_ends n fuel s s1 r s' :
  relations.nsteps (fun s s' => attempted s (Ok None) s') n s s1 -> attempted s1 (Some <$> r) s' ->
  keys <> [] -> (n < fuel)%nat -> transaction_async fuel keys func s = Return r s'.
Proof.
  intros Hn Hr Hk Hlt.
  assert (transaction_async fuel keys func s = transaction_loop fuel keys func s) as -> by (by destruct keys).
  revert fuel Hlt. induction Hn as [s|n s s0 s1 Ha Hn IH]; intros [|fuel] Hlt; [lia| |lia|].
  - rewrite (transaction_loop_attempt _ _ _ _ Hr). by destruct r.
  - rewrite (transaction_loop_attempt _ _ _ _ Ha). apply IH; [done|lia].
Qed.

(** The synchronous [transaction] returns an error of the closure at once: the
    keys stay watched. *)
Lemma sync_transaction_error fuel s s1 e s' : Cmd_exec (watch_cmd keys) s = Return (Ok ()) s1 ->
  func (atomic Pipeline_new) s1 = Return (Err e) s' -> transaction (S fuel) keys func s = Return (Err e) s'.
Proof.
  intros Hw Hf. cbn [transaction]. rewrite (bind_ok _ _ _ _ _ Hw). by rewrite (bind_err _ _ _ _ _ Hf).
Qed.

Lemma transaction_without_keys fuel s : transaction_async fuel [] func s =
  Return (Err (redis_error_of InvalidClientConfig
    "At least one key must be provided to watch for transactions")) s.
Proof. done. Qed.
End watch_async.

(** A server that counts the requests and accepts them all. *)
#[local] Instance counting_server : ConnectionLike nat := {|
  req_packed_command _ := mret Okay;
  req_packed_commands _ _ _ := mret [];
  req_command _ := fun n => Return (Ok Okay) (S n);
  supports_pipelining _ := true
|}.

Lemma transaction_async_ends_witness :
  transaction_async 2 [bs "k"] (fun _ n => Return (if (n =? 1)%nat then Ok None else Err make_empty_command) n) O =
    Return (@Err _ nat make_empty_command) 4%nat.
Proof.
  apply (transaction_async_ends [bs "k"] _ 1 2 O 2%nat (Err make_empty_command)); [| |done|lia].
  - apply relations.nsteps_once. exists 1%nat, 1%nat, (Ok ()). done.
  - exists 3%nat, 3%nat, (Ok ()). done.
Defined.

(** ** Connecting *)

(** [select_ok] as its documentation has it: it panics when it is given nothing,
    and otherwise returns one that succeeded, or one of the errors if none did. *)
Record select_ok_spec {Stream} (select_ok : list (result RedisError Stream) -> option (result RedisError Stream)) : Prop := {
  select_nothing : select_ok [] = None;
  select_one l r : select_ok l = Some r -> r ∈ l;
  select_some l : l <> [] -> is_Some (select_ok l);
  select_success l r : select_ok l = Some r -> (exists x, Ok x ∈ l) -> is_ok r = true
}.

Section connecting_theorems.
Context {SocketAddr Stream : Type} `{TlsFeature} `{TargetOs}.
Variable connect_tcp : SocketAddr -> result RedisError Stream.
Variable connect_tcp_tls : bytes -> bool -> option TlsConnParams -> SocketAddr -> result RedisError Stream.
Variable connect_unix : bytes -> result RedisError Stream.
Variable select_ok : list (result RedisError Stream) -> option (result RedisError Stream).
Hypothesis select_ok_ok : select_ok_spec select_ok.

(** With the resolver of the crate, connecting to a host never panics, fails
    when the lookup does or finds nothing, and succeeds exactly if one of the
    addresses it found accepts. *)
Theorem connect_any_address lookup host port :
  let resolve (h : bytes) (p : Z) := get_socket_addrs (lookup h p) in
  exists r, connect_simple connect_tcp connect_tcp_tls connect_unix select_ok resolve (Tcp host port) = Some r /\
    (is_ok r = true <-> exists l a s, lookup host port = Ok l /\ a ∈ l /\ connect_tcp a = Ok s).
Proof.
  intros resolve. unfold connect_simple, resolve, get_socket_addrs.
  destruct (lookup host port) as [[|a l]|e]; simpl.
  - eexists. split; [done|]. split; [done|]. intros (l & a & s & [= <-] & Ha & _). by apply elem_of_nil in Ha.
  - destruct (select_some _ select_ok_ok (connect_tcp a :: map connect_tcp l)) as [r Hr]; [done|].
    exists r. split; [done|]. split.
    + intros Hok. destruct r as [s|]; [|done].
      apply (select_one _ select_ok_ok) in Hr. change (Ok s ∈ map connect_tcp (a :: l)) in Hr.
      apply list_elem_of_fmap in Hr as (b & Hb & Hin). eauto 10.
    + intros (l' & b & s & [= <-] & Hb & Hs). apply (select_success _ select_ok_ok _ _ Hr).
      exists s. change (Ok s ∈ map connect_tcp (a :: l)). rewrite <- Hs. by apply list_elem_of_fmap_2.
  - eexists. split; [done|]. split; [done|]. intros (l & a & s & [=] & _).
Qed.

(** A resolver of the caller's own that finds no address makes connecting
    panic. *)
Lemma empty_resolution_panics resolve host port : resolve host port = Ok [] ->
  connect_simple connect_tcp connect_tcp_tls connect_unix select_ok resolve (Tcp host port) = None.
Proof. intros Hr. unfold connect_simple. rewrite Hr. apply (select_nothing _ select_ok_ok). Qed.
End connecting_theorems.

(** [select_ok] for futures that complete in order. *)
Fixpoint select_first {Stream} (l : list (result RedisError Stream)) : option (result RedisError Stream) :=
  match l with
  | [] => None
  | Ok s :: _ => Some (Ok s)
  | [Err e] => Some (Err e)
  | Err _ :: l => select_first l
  end.

Lemma select_first_spec Stream : select_ok_spec (@select_first Stream).
Proof.
  split; [done| | |].
  - induction l as [|[s|e] [|y l] IH]; intros r Hr; simplify_eq/=; try constructor; auto.
  - induction l as [|[s|e] [|y l] IH]; intros Hl; simpl; eauto; try done.
  - induction l as [|[s|e] [|y l] IH]; intros r Hr [x Hx]; simplify_eq/=; try done.
    + by apply list_elem_of_singleton in Hx.
    + apply (IH _ Hr). exists x. by apply elem_of_cons in Hx as [?|?].
Qed.

Lemma connect_any_address_witness :
  let _ : TlsFeature := true in let _ : TargetOs := true in
  exists r, connect_simple (fun a : nat => if (a =? 2)%nat then Ok a else Err closed_connection_error)
      (fun _ _ _ a => Ok a) (fun _ => Ok O) select_first
      (fun _ _ => get_socket_addrs (Ok [1%nat; 2%nat])) (Tcp (bs "host") 6379) = Some r /\
    (is_ok r = true <-> exists l a s, @Ok RedisError _ [1%nat; 2%nat] = Ok l /\ a ∈ l /\
       (if (a =? 2)%nat then Ok a else Err closed_connection_error) = Ok s).
Proof.
  intros T O'.
  exact (connect_any_address _ (fun _ _ _ a => Ok a) (fun _ => Ok O) select_first (select_first_spec nat)
           (fun _ _ => Ok [1%nat; 2%nat]) (bs "host") 6379).
Defined.

(** ** Monitor *)

(** A server that refuses MONITOR still gives a monitor. *)
Lemma refused_monitor_accepted `{CargoPkgVersion} e :
  let i := set_skip_set_lib_name RedisConnectionInfo_default in
  exists c, Monitor_new i {| frames := [Some (Ok (ServerErr e))]; send_errors := []; packets := [] |} =
    Return (Ok ()) c.
Proof. eexists. reflexivity. Qed.

(** The stream of a monitor yields the values in order, and ends for its
    consumer with the first that is an error or does not convert, though the
    connection goes on. *)
Lemma monitor_stops_at_first_failure {T} (F : FromRedisValue T) items item rest ts :
  Forall2 (fun i t => monitor_poll_next F i = Some t) items ts ->
  monitor_poll_next F item = None -> monitored F (items ++ item :: rest) = (ts, true).
Proof.
  intros Hi Hn. induction Hi as [|i t items ts Ht Hi IH]; simpl; [by rewrite Hn|]. by rewrite Ht, IH.
Qed.

(** ** The runtime *)

(** The first preference stays, and a later one is refused. *)
Lemma first_preference_stays r1 r2 in_tokio :
  let '(o1, chosen) := set_runtime r1 None in
  let '(o2, chosen') := set_runtime r2 chosen in
  o1 = Ok () /\ is_ok o2 = false /\ locate chosen' in_tokio = r1.
Proof. done. Qed.
