(* ===== verification/Runtimes.v ===== *)
(** * Connecting in the asynchronous runtimes

    [connect_tcp], [connect_tcp_tls] and [connect_unix] of [aio/tokio.rs] and
    [aio/smol.rs], which [Aio.connect_simple] is given: the options of [io/tcp.rs] set on
    a socket of the runtime, and the TLS client around it.  Polling a stream is
    handed on to the runtime's own types and is not represented. *)

From S2P Require Import Prelude Text Float64 Combine Errors Types Parser Codec Cmd Convert Pipeline.
From S2P Require Import Slots Routing Multiplexed Caching Effects Tls ConnInfo Connection Dialing Clients Aio.
Local Open Scope Z_scope.

(** What a runtime answers: connecting, moving a socket out of the runtime and back,
    and the handshakes of the two TLS crates. *)
Class AsyncNetwork `{Network} := {
  async_tcp_connect : SocketAddr -> result io_ErrorKind unit;
  into_std : SocketAddr -> result io_ErrorKind unit;
  from_std : SocketAddr -> result io_ErrorKind unit;
  async_unix_connect : bytes -> result io_ErrorKind unit;
  native_handshake : Connector -> bytes -> SocketAddr -> result bytes unit;
  async_native_connect : Connector -> bytes -> SocketAddr -> result bytes unit;
  rustls_handshake : ClientConfig -> bytes -> SocketAddr -> result io_ErrorKind unit
}.

Section runtimes.
Context `{AsyncNetwork} `{TlsFeatures} `{Pem} `{Rustls}.

(** The streams of a runtime. *)
Inductive RuntimeStream :=
| RuntimeTcp (s : Socket)
| RuntimeNativeTls (c : Connector) (s : Socket)
| RuntimeRustls (c : ClientConfig) (s : Socket)
| RuntimeUnix (path : bytes).

(** ** Tokio *)

(** [connect_tcp] of [tokio.rs]. *)
Definition tokio_stream (a : SocketAddr) (t : TcpSettings) : result io_ErrorKind Socket :=
  _ ← async_tcp_connect a;
  _ ← into_std a;
  s ← stream_with_settings {| peer := a; options := Options_default |} t;
  _ ← from_std a;
  Ok s.
Definition tokio_connect_tcp (t : TcpSettings) (a : SocketAddr) : result RedisError RuntimeStream :=
  s ← io_result (tokio_stream a t); Ok (RuntimeTcp s).
Definition tokio_connect_tcp_native_tls (t : TcpSettings) (hostname : bytes) (insecure : bool)
    (params : option TlsConnParams) (a : SocketAddr) : result RedisError RuntimeStream :=
  let c := native_connector insecure params in
  _ ← map_err redis_error_of_native_tls (connector_build c);
  s ← io_result (tokio_stream a t);
  _ ← map_err redis_error_of_native_tls (native_handshake c hostname a);
  Ok (RuntimeNativeTls c s).
Definition tokio_connect_tcp_rustls (t : TcpSettings) (hostname : bytes) (insecure : bool)
    (params : option TlsConnParams) (a : SocketAddr) : result RedisError RuntimeStream :=
  config ← create_rustls_config insecure params;
  _ ← map_err redis_error_of_dns_name (server_name hostname);
  s ← io_result (tokio_stream a t);
  _ ← io_result (rustls_handshake config hostname a);
  Ok (RuntimeRustls config s).
Definition tokio_connect_unix (path : bytes) : result RedisError RuntimeStream :=
  _ ← io_result (async_unix_connect path); Ok (RuntimeUnix path).

(** ** Smol *)

(** [connect_tcp] of [smol.rs]; the socket that was just connected has one owner, so
    that it can be taken out of its [Arc]. *)
Definition smol_stream (a : SocketAddr) (t : TcpSettings) : result io_ErrorKind Socket :=
  _ ← async_tcp_connect a;
  _ ← into_std a;
  s ← stream_with_settings {| peer := a; options := Options_default |} t;
  _ ← from_std a;
  Ok s.
Definition smol_connect_tcp (t : TcpSettings) (a : SocketAddr) : result RedisError RuntimeStream :=
  s ← io_result (smol_stream a t); Ok (RuntimeTcp s).
Definition smol_connect_tcp_rustls (t : TcpSettings) (hostname : bytes) (insecure : bool)
    (params : option TlsConnParams) (a : SocketAddr) : result RedisError RuntimeStream :=
  s ← io_result (smol_stream a t);
  config ← create_rustls_config insecure params;
  _ ← map_err redis_error_of_dns_name (server_name hostname);
  _ ← io_result (rustls_handshake config hostname a);
  Ok (RuntimeRustls config s).
(** The connector of async_native_tls is built in its [connect]. *)
Definition smol_connect_tcp_native_tls (t : TcpSettings) (hostname : bytes) (insecure : bool)
    (params : option TlsConnParams) (a : SocketAddr) : result RedisError RuntimeStream :=
  s ← io_result (smol_stream a t);
  let c := native_connector insecure params in
  _ ← map_err redis_error_of_native_tls (async_native_connect c hostname a);
  Ok (RuntimeNativeTls c s).
Definition smol_connect_unix (path : bytes) : result RedisError RuntimeStream :=
  _ ← io_result (async_unix_connect path); Ok (RuntimeUnix path).

(** [connect_tcp_tls] for the crate that was compiled in. *)
Definition tokio_connect_tcp_tls (t : TcpSettings) : bytes -> bool -> option TlsConnParams -> SocketAddr ->
    result RedisError RuntimeStream :=
  if tls_rustls then tokio_connect_tcp_rustls t else tokio_connect_tcp_native_tls t.
Definition smol_connect_tcp_tls (t : TcpSettings) : bytes -> bool -> option TlsConnParams -> SocketAddr ->
    result RedisError RuntimeStream :=
  if tls_rustls then smol_connect_tcp_rustls t else smol_connect_tcp_native_tls t.

(** ** The runtimes agree *)

(** What a stream over TLS is, where [handshake] is how native_tls shook hands. *)
Definition tls_stream (handshake : Connector -> Prop) (t : TcpSettings) (hostname : bytes) (insecure : bool)
    (params : option TlsConnParams) (a : SocketAddr) (stream : RuntimeStream) : Prop :=
  exists s, tokio_stream a t = Ok s /\ peer s = a /\ settings_applied t (options s) /\
  if tls_rustls then
    exists config, stream = RuntimeRustls config s /\ create_rustls_config insecure params = Ok config /\
      is_ok (server_name hostname) = true /\ rustls_handshake config hostname a = Ok ()
  else stream = RuntimeNativeTls (native_connector insecure params) s /\ handshake (native_connector insecure params).

Lemma tokio_stream_Ok a t s : tokio_stream a t = Ok s -> peer s = a /\ settings_applied t (options s).
Proof.
  unfold tokio_stream. destruct (async_tcp_connect a); [|done]. destruct (into_std a); [|done]. cbn [mbind result_bind].
  destruct (stream_with_settings _ t) as [s'|] eqn:E; [|done]. destruct (from_std a); [|done]. intros [= <-].
  by apply stream_with_settings_Ok.
Qed.

(** Both runtimes make the same connections over TLS: to the address asked for, with the
    options and the verification that the settings ask for, and after a handshake
    that succeeded.  They differ only in which error is reported when there are
    several. *)
Theorem runtimes_agree t hostname insecure params a stream :
  (tokio_connect_tcp_tls t hostname insecure params a = Ok stream <->
   tls_stream (fun c => is_ok (connector_build c) = true /\ native_handshake c hostname a = Ok ())
     t hostname insecure params a stream) /\
  (smol_connect_tcp_tls t hostname insecure params a = Ok stream <->
   tls_stream (fun c => async_native_connect c hostname a = Ok ()) t hostname insecure params a stream).
Proof.
  unfold tokio_connect_tcp_tls, smol_connect_tcp_tls, tls_stream. pose proof (tokio_stream_Ok a t) as Ht.
  destruct tls_rustls;
    [unfold tokio_connect_tcp_rustls, smol_connect_tcp_rustls
    |unfold tokio_connect_tcp_native_tls, smol_connect_tcp_native_tls];
    unfold io_result; change (smol_stream a t) with (tokio_stream a t);
    (destruct (tokio_stream a t) as [s|]; [destruct (Ht s eq_refl) as [Hp Hset]|]).
  1, 2: destruct (create_rustls_config insecure params) as [config|]; [destruct (server_name hostname) as [[]|];
    [destruct (rustls_handshake config hostname a) as [[]|] eqn:Hh|]|].
  9, 10: destruct (connector_build _) as [[]|]; [destruct (native_handshake _ hostname a) as [[]|]|];
    destruct (async_native_connect _ hostname a) as [[]|].
  all: simpl; rewrite ?Hh; simpl; split; (split; [intros Hx; try discriminate Hx; injection Hx as <-; by eauto 12|]).
  all: intros (s' & Hs' & _ & _ & Hrest); try discriminate Hs'; injection Hs' as <-;
    first [destruct Hrest as (config' & -> & Hc & Hn & Hh'); simplify_eq; congruence
          |destruct Hrest as (-> & Hb & Hh'); congruence
          |destruct Hrest as (-> & Hh'); congruence].
Qed.
End runtimes.
