(* ===== verification/Auth.v ===== *)
(** * Token-based authentication

    [redis/src/auth.rs], [auth_management.rs] and [entra_id.rs], with the part of
    [aio/multiplexed_connection.rs] that takes credentials from a provider.

    A provider has a task that fetches tokens and hands them to its subscribers;
    every connection subscribes, authenticates with the first credentials and
    authenticates again with every later ones.  The provider is a state machine:
    a step is what runs between two awaits or under one lock.  The azure crates,
    base64 and the runtime are arguments.  A duration is in milliseconds, a
    signed one in seconds where the source counts in seconds. *)

From S2P Require Import Prelude Text Float64 Combine Errors Types Parser Codec Cmd Convert Pipeline.
From S2P Require Import Slots Routing Multiplexed Caching Effects ConnInfo Connection Manager Clients Aio.

(** ** Credentials and configuration *)

Record BasicAuth := { ba_username : bytes; ba_password : bytes }.
Definition BasicAuth_default : BasicAuth := {| ba_username := []; ba_password := [] |}.
Definition BasicAuth_set_username (b : BasicAuth) (username : bytes) : BasicAuth :=
  {| ba_username := username; ba_password := ba_password b |}.
Definition BasicAuth_set_password (b : BasicAuth) (password : bytes) : BasicAuth :=
  {| ba_username := ba_username b; ba_password := password |}.

(** [exponent_base] is an [f32] as its bits. *)
Record RetryConfig := {
  rc_exponent_base : Z; rc_min_delay : Z; rc_max_delay : option Z; rc_number_of_retries : nat
}.
Definition RetryConfig_default : RetryConfig :=
  {| rc_exponent_base := 0x40000000; rc_min_delay := 100; rc_max_delay := Some 30000%Z;
     rc_number_of_retries := 3 |}.
Definition rc_set_number_of_retries (c : RetryConfig) (n : nat) : RetryConfig :=
  {| rc_exponent_base := rc_exponent_base c; rc_min_delay := rc_min_delay c;
     rc_max_delay := rc_max_delay c; rc_number_of_retries := n |}.
Definition rc_set_min_delay (c : RetryConfig) (d : Z) : RetryConfig :=
  {| rc_exponent_base := rc_exponent_base c; rc_min_delay := d;
     rc_max_delay := rc_max_delay c; rc_number_of_retries := rc_number_of_retries c |}.
Definition rc_set_max_delay (c : RetryConfig) (d : Z) : RetryConfig :=
  {| rc_exponent_base := rc_exponent_base c; rc_min_delay := rc_min_delay c;
     rc_max_delay := Some d; rc_number_of_retries := rc_number_of_retries c |}.
Definition rc_set_exponent_base (c : RetryConfig) (b : Z) : RetryConfig :=
  {| rc_exponent_base := b; rc_min_delay := rc_min_delay c;
     rc_max_delay := rc_max_delay c; rc_number_of_retries := rc_number_of_retries c |}.

(** The [ExponentialBuilder] of the refresh. *)
Definition refresh_strategy (c : RetryConfig) : ExponentialBuilder :=
  {| eb_factor := rc_exponent_base c; eb_min_delay := rc_min_delay c;
     eb_max_times := Z.of_nat (rc_number_of_retries c); eb_jitter := true; eb_max_delay := rc_max_delay c |}.

(** ** The object id of a token *)

(** The messages of [extract_oid_from_jwt]. *)
Inductive OidError :=
| MustHaveThreeParts
| FailedToDecode (e : bytes)
| NotValidUtf8 (e : Utf8Error)
| OidClaimNotFound.

(** [s.split(c)] for an ASCII character. *)
Fixpoint split_on (c : byte) (s : bytes) : list bytes :=
  match s with
  | [] => [[]]
  | b :: s =>
      if bool_decide (b = c) then [] :: split_on c s
      else match split_on c s with
           | piece :: pieces => (b :: piece) :: pieces
           | [] => [[b]]
           end
  end.

Definition QUOTE : byte := x22.
Definition OID_CLAIM : bytes := QUOTE :: bs "oid" ++ [QUOTE].

(** The search in the decoded payload. *)
Definition oid_of_payload (payload : bytes) : result OidError bytes :=
  match (start ← find_bytes OID_CLAIM payload;
         colon_idx ← position x3a (drop start payload);
         match trim_start (drop (start + colon_idx + 1) payload) with
         | q :: stripped =>
             if bool_decide (q = QUOTE) then
               end_quote ← position QUOTE stripped; Some (take end_quote stripped)
             else None
         | [] => None
         end) with
  | Some oid => Ok oid
  | None => Err OidClaimNotFound
  end.

(** [base64_decode] is the decoder of the base64 crate. *)
Definition extract_oid_from_jwt (base64_decode : bytes -> result bytes bytes) (jwt : bytes)
    : result OidError bytes :=
  match split_on x2e jwt with
  | [_; part; _] =>
      match base64_decode part with
      | Err e => Err (FailedToDecode e)
      | Ok payload_bytes =>
          match from_utf8 payload_bytes with
          | Err e => Err (NotValidUtf8 e)
          | Ok payload => oid_of_payload payload
          end
      end
  | _ => Err MustHaveThreeParts
  end.

(** ** Creating a provider *)

Definition REDIS_SCOPE_DEFAULT : bytes := bs "https://redis.azure.com/.default".
Definition TOKEN_REFRESH_BUFFER_SECS : Z := 240.

Definition validate_scopes (scopes : list bytes) : result RedisError unit :=
  match scopes with
  | [] => Err (redis_error_of InvalidClientConfig "Scopes cannot be empty for Entra ID authentication")
  | _ =>
      if existsb (fun scope => match trim scope with [] => true | _ => false end) scopes
      then Err (redis_error_of InvalidClientConfig "Scope cannot be empty or whitespace-only")
      else Ok ()
  end.

(** [AccessToken] of the azure crate: the secret and when it expires. *)
Record AccessToken := { secret : bytes; expires_on : Z }.

Definition convert_credentials (username : bytes) (access_token : AccessToken) : BasicAuth :=
  {| ba_username := username; ba_password := secret access_token |}.

(** [convert_error] and [convert_error_ref], for how the error is displayed. *)
Definition convert_error (err : bytes) : RedisError :=
  redis_error_of_detail AuthenticationFailed "Entra ID authentication failed" err.

(** What [Arc::try_unwrap] answers: the credential is not shared. *)
Definition unwrap_credential {T} (credential : T) (shared : bool) : result RedisError T :=
  if shared
  then Err (redis_error_of AuthenticationFailed
              "[azure_identity]: Unexpected shared ownership of credentials provider.")
  else Ok credential.

(** The constructors of the credentials in [azure_identity]; the flag tells
    whether the returned [Arc] is shared. *)
Record AzureIdentity (Credential : Type) := {
  DeveloperToolsCredential_new : bool -> result bytes (Credential * bool);
  ClientSecretCredential_new : bytes -> bytes -> bytes -> bool -> result bytes (Credential * bool);
  ClientCertificateCredential_new : bytes -> bytes -> bytes -> option (option bytes) ->
    result bytes (Credential * bool);
  ManagedIdentityCredential_new : option bytes -> result bytes (Credential * bool)
}.
Arguments DeveloperToolsCredential_new {Credential}.
Arguments ClientSecretCredential_new {Credential}.
Arguments ClientCertificateCredential_new {Credential}.
Arguments ManagedIdentityCredential_new {Credential}.

Record ClientCertificate := { base64_pkcs12 : bytes; cert_password : option bytes }.

Section creating.
Context {Credential : Type} (azure : AzureIdentity Credential).

(** The fields of a provider that are not empty at first: the credential and the
    scopes.  What all the constructors have in common: *)
Definition new_with (scopes : list bytes) (credential : result bytes (Credential * bool))
    : result RedisError (Credential * list bytes) :=
  _ ← validate_scopes scopes;
  match credential with
  | Err e => Err (convert_error e)
  | Ok (c, shared) => c ← unwrap_credential c shared; Ok (c, scopes)
  end.

(** The options of the developer tools and of a client secret are only given or
    not; those of a certificate are its password, those of a managed identity
    name the identity. *)
Definition new_developer_tools_with_scopes (scopes : list bytes) (options : bool) :=
  new_with scopes (DeveloperToolsCredential_new azure options).
Definition new_developer_tools := new_developer_tools_with_scopes [REDIS_SCOPE_DEFAULT] false.

Definition new_client_secret_with_scopes (tenant_id client_id client_secret : bytes) (scopes : list bytes)
    (options : bool) :=
  new_with scopes (ClientSecretCredential_new azure tenant_id client_id client_secret options).
Definition new_client_secret (tenant_id client_id client_secret : bytes) :=
  new_client_secret_with_scopes tenant_id client_id client_secret [REDIS_SCOPE_DEFAULT] false.

Definition new_client_certificate_with_scopes (tenant_id client_id : bytes) (certificate : ClientCertificate)
    (scopes : list bytes) (options : option (option bytes)) :=
  let options := match cert_password certificate with
                 | Some password => Some (Some password)
                 | None => options
                 end in
  new_with scopes (ClientCertificateCredential_new azure tenant_id client_id (base64_pkcs12 certificate) options).
Definition new_client_certificate (tenant_id client_id : bytes) (certificate : ClientCertificate) :=
  new_client_certificate_with_scopes tenant_id client_id certificate [REDIS_SCOPE_DEFAULT] None.

Definition new_system_assigned_managed_identity_with_scopes (scopes : list bytes) (options : option bytes) :=
  new_with scopes (ManagedIdentityCredential_new azure options).
Definition new_system_assigned_managed_identity :=
  new_system_assigned_managed_identity_with_scopes [REDIS_SCOPE_DEFAULT] None.

Definition new_user_assigned_managed_identity_with_scopes (scopes : list bytes) (options : option bytes) :=
  new_with scopes (ManagedIdentityCredential_new azure options).
Definition new_user_assigned_managed_identity :=
  new_user_assigned_managed_identity_with_scopes [REDIS_SCOPE_DEFAULT] None.

Definition new_with_credential (credential : Credential) (scopes : list bytes)
    : result RedisError (Credential * list bytes) :=
  _ ← validate_scopes scopes; Ok (credential, scopes).
End creating.

(** ** When to refresh *)

(** The closure of [start]: how long to wait, in milliseconds, for a token that
    still has [remaining] milliseconds. *)
Definition sleep_duration (remaining : Z) : Z :=
  let remaining_duration := if (remaining <? 0)%Z then 0%Z else remaining in
  let buffer := (TOKEN_REFRESH_BUFFER_SECS * 1000)%Z in
  if (remaining_duration <? buffer)%Z then 0%Z else (remaining_duration - buffer)%Z.

(** [get_auth.retry(strategy)] for the answers of the successive attempts: as many
    pauses as the strategy has, the first success or the last error. *)
Fixpoint retry_token {E A} (retries : nat) (answers : list (result E A)) {struct answers} : option (result E A) :=
  match answers with
  | [] => None
  | Ok a :: _ => Some (Ok a)
  | Err e :: answers =>
      match retries with
      | O => Some (Err e)
      | S retries => retry_token retries answers
      end
  end.

(** ** The provider *)

Definition item : Type := result RedisError BasicAuth.

(** A subscription: the stream that [subscribe] returned and the channel behind
    it, which holds one item. *)
Record Subscriber := {
  read_current : bool;
  head : option BasicAuth;
  chan : option item;
  received : list item;
  closed : bool
}.

(** What the background task is about to do. *)
Inductive Phase :=
| NotStarted
| Refreshing
| Publishing (response : item)
| Sending (response : item) (pending : list nat)
| Sleeping
| Stopped.

(** [subs] are all the subscriptions there have been, [subscribers] the senders
    the provider holds. *)
Record Provider := {
  background_handle : bool;
  subs : list Subscriber;
  subscribers : list nat;
  current_credentials : option BasicAuth;
  refresh_username : bytes;
  phase : Phase
}.

Definition Provider_new : Provider :=
  {| background_handle := false; subs := []; subscribers := []; current_credentials := None;
     refresh_username := bs "default"; phase := NotStarted |}.

Definition with_phase (p : Provider) (f : Phase) : Provider :=
  {| background_handle := background_handle p; subs := subs p; subscribers := subscribers p;
     current_credentials := current_credentials p; refresh_username := refresh_username p; phase := f |}.
Definition with_subs (p : Provider) (l : list Subscriber) : Provider :=
  {| background_handle := background_handle p; subs := l; subscribers := subscribers p;
     current_credentials := current_credentials p; refresh_username := refresh_username p; phase := phase p |}.

(** [start_refresh_service]. *)
Definition start (p : Provider) : Provider :=
  if background_handle p then p
  else
    {| background_handle := true; subs := subs p; subscribers := subscribers p;
       current_credentials := current_credentials p; refresh_username := bs "default"; phase := Refreshing |}.

(** The loop of the task, up to the first await behind the token: the current
    credentials are replaced before anybody is told. *)
Definition refreshed (base64_decode : bytes -> result bytes bytes)
    (token_response : result bytes AccessToken) (p : Provider) : Provider :=
  match token_response with
  | Ok access_token =>
      let username := match extract_oid_from_jwt base64_decode (secret access_token) with
                      | Ok object_id => object_id
                      | Err _ => bs "default"
                      end in
      let credentials := convert_credentials username access_token in
      {| background_handle := background_handle p; subs := subs p; subscribers := subscribers p;
         current_credentials := Some credentials; refresh_username := username;
         phase := Publishing (Ok credentials) |}
  | Err error => with_phase p (Publishing (Err (convert_error error)))
  end.

Definition is_closed (p : Provider) (i : nat) : bool :=
  match subs p !! i with Some s => closed s | None => true end.

(** [notify_subscribers]: the senders whose receivers are gone are forgotten,
    and the others are sent the response. *)
Definition notify_subscribers (p : Provider) (response : item) : Provider :=
  let live := List.filter (fun i => negb (is_closed p i)) (subscribers p) in
  {| background_handle := background_handle p; subs := subs p; subscribers := live;
     current_credentials := current_credentials p; refresh_username := refresh_username p;
     phase := Sending response live |}.

(** One of the [sender.send(response)] that [join_all] waits for: it ends when
    there is room in the channel or nobody to receive. *)
Definition send_one (p : Provider) (response : item) (pending : list nat) (i : nat) : option Provider :=
  if negb (bool_decide (i ∈ pending)) then None
  else
    let rest := List.filter (fun j => negb (bool_decide (j = i))) pending in
    s ← subs p !! i;
    if closed s then Some (with_phase p (Sending response rest))
    else
      match chan s with
      | Some _ => None
      | None =>
          Some (with_phase (with_subs p (<[i := {| read_current := read_current s; head := head s;
            chan := Some response; received := received s; closed := closed s |}]> (subs p)))
            (Sending response rest))
      end.

(** [subscribe]: the sender is registered first, and the current credentials are
    read after that. *)
Definition subscribe_register (p : Provider) : Provider :=
  {| background_handle := background_handle p;
     subs := subs p ++ [{| read_current := false; head := None; chan := None; received := []; closed := false |}];
     subscribers := subscribers p ++ [length (subs p)];
     current_credentials := current_credentials p; refresh_username := refresh_username p; phase := phase p |}.
Definition subscribe_read (p : Provider) (i : nat) : option Provider :=
  s ← subs p !! i;
  if read_current s then None
  else Some (with_subs p (<[i := {| read_current := true; head := current_credentials p; chan := chan s;
                                    received := received s; closed := closed s |}]> (subs p))).

(** [next] on the stream: the current credentials, if there were any, and then
    the channel. *)
Definition receive_next (p : Provider) (i : nat) : option Provider :=
  s ← subs p !! i;
  if negb (read_current s) || closed s then None
  else
    match head s, chan s with
    | Some c, _ => Some (with_subs p (<[i := {| read_current := true; head := None; chan := chan s;
                           received := received s ++ [Ok c]; closed := false |}]> (subs p)))
    | None, Some x => Some (with_subs p (<[i := {| read_current := true; head := None; chan := None;
                           received := received s ++ [x]; closed := false |}]> (subs p)))
    | None, None => None
    end.

(** The stream is dropped. *)
Definition close (p : Provider) (i : nat) : option Provider :=
  s ← subs p !! i;
  Some (with_subs p (<[i := {| read_current := read_current s; head := head s; chan := chan s;
                               received := received s; closed := true |}]> (subs p))).

Inductive event :=
| Start
| TokenResponse (answers : list (result bytes AccessToken))
| Notify
| SendOne (i : nat)
| AllSent
| Wake
| Subscribe
| ReadCurrent (i : nat)
| Receive (i : nat)
| Close (i : nat).

Section provider.
Context (base64_decode : bytes -> result bytes bytes) (retry_config : RetryConfig).

(** [None]: not possible in this state. *)
Definition provider_step (e : event) (p : Provider) : option Provider :=
  match e with
  | Start => Some (start p)
  | TokenResponse answers =>
      match phase p with
      | Refreshing =>
          r ← retry_token (rc_number_of_retries retry_config) answers; Some (refreshed base64_decode r p)
      | _ => None
      end
  | Notify => match phase p with Publishing response => Some (notify_subscribers p response) | _ => None end
  | SendOne i => match phase p with Sending response pending => send_one p response pending i | _ => None end
  | AllSent =>
      match phase p with
      | Sending response [] => Some (with_phase p (if is_ok response then Sleeping else Stopped))
      | _ => None
      end
  | Wake => match phase p with Sleeping => Some (with_phase p Refreshing) | _ => None end
  | Subscribe => Some (subscribe_register p)
  | ReadCurrent i => subscribe_read p i
  | Receive i => receive_next p i
  | Close i => close p i
  end.

Definition provider_run (es : list event) (p : Provider) : option Provider :=
  foldl (fun o e => o ≫= provider_step e) (Some p) es.

(** ** Nobody misses a refresh *)

Definition option_list {A} (o : option A) : list A := match o with Some a => [a] | None => [] end.
(** Everything that has come or will come out of the stream so far. *)
Definition stream (s : Subscriber) : list item :=
  received s ++ option_list (Ok <$> head s) ++ option_list (chan s).
(** What the task is still going to send to a subscription. *)
Definition owed (p : Provider) (i : nat) : list item :=
  match phase p with
  | Publishing response => if bool_decide (i ∈ subscribers p) then [response] else []
  | Sending response pending => if bool_decide (i ∈ pending) then [response] else []
  | _ => []
  end.
(** The last credentials of a stream. *)
Definition last_credentials (l : list item) : option BasicAuth := last (omap to_option l).

Lemma last_credentials_app l k : last_credentials (l ++ k) =
  match last_credentials k with Some c => Some c | None => last_credentials l end.
Proof. unfold last_credentials. by rewrite omap_app, last_app. Qed.

(** What is true of a live subscription [s] with what it is owed [o], when the
    current credentials are [c]. *)
Definition up_to_date (c : option BasicAuth) (s : Subscriber) (o : list item) : Prop :=
  if read_current s then last_credentials (stream s ++ o) = c
  else received s = [] /\ head s = None /\
       (last_credentials (stream s ++ o) = None \/ last_credentials (stream s ++ o) = c).

Record provider_inv (p : Provider) : Prop := {
  inv_live i s : subs p !! i = Some s -> closed s = false ->
    i ∈ subscribers p /\ up_to_date (current_credentials p) s (owed p i);
  inv_known : Forall (fun i => (i < length (subs p))%nat) (subscribers p);
  inv_pending r pending : phase p = Sending r pending -> Forall (fun i => (i < length (subs p))%nat) pending;
  inv_publishing c : phase p = Publishing (Ok c) -> current_credentials p = Some c;
  inv_background : background_handle p = false -> phase p = NotStarted
}.

(** Changing one subscription. *)
Lemma with_subs_inv p i s s' : provider_inv p -> subs p !! i = Some s ->
  (closed s' = false -> closed s = false) ->
  (forall o, up_to_date (current_credentials p) s o -> up_to_date (current_credentials p) s' o) ->
  provider_inv (with_subs p (<[i := s']> (subs p))).
Proof.
  intros [Hlive Hknown Hpend Hpub Hbg] Hs Hc Hup. split; simpl; rewrite ?length_insert; try done.
  intros j sj Hj Hcj. change (owed (with_subs _ _) j) with (owed p j).
  destruct (decide (j = i)) as [->|Hne].
  - rewrite list_lookup_insert_eq in Hj by (eapply lookup_lt_Some; eassumption).
    injection Hj as <-. destruct (Hlive i s) as [Hin Hs']; [auto..|]. auto.
  - rewrite list_lookup_insert_ne in Hj by done. eauto.
Qed.

(** Changing the phase, when nobody is owed more or less. *)
Lemma with_phase_inv p f : provider_inv p -> background_handle p = true ->
  (forall i s, subs p !! i = Some s -> closed s = false ->
     last_credentials (owed (with_phase p f) i) = last_credentials (owed p i)) ->
  (forall r pending, f = Sending r pending -> Forall (fun i => (i < length (subs p))%nat) pending) ->
  (forall c, f = Publishing (Ok c) -> current_credentials p = Some c) ->
  provider_inv (with_phase p f).
Proof.
  intros [Hlive Hknown Hpend Hpub Hbg] Hb Howed Hf Hc. split; simpl; [|done..|congruence].
  intros i s Hs Hcl. destruct (Hlive i s Hs Hcl) as [Hin Hup]. split; [done|].
  specialize (Howed i s Hs Hcl). unfold up_to_date in *. by rewrite !last_credentials_app, Howed, <- !last_credentials_app.
Qed.

Lemma running_handle p f : provider_inv p -> phase p = f -> f <> NotStarted -> background_handle p = true.
Proof.
  intros Hinv Hf Hn. destruct (background_handle p) eqn:E; [done|].
  destruct Hn. rewrite <- Hf. by apply (inv_background _ Hinv).
Qed.

Lemma start_inv p : provider_inv p -> provider_inv (start p).
Proof.
  intros Hinv. unfold start. destruct (background_handle p) eqn:Hb; [done|].
  pose proof (inv_background _ Hinv Hb) as Hph. destruct Hinv as [Hlive Hknown Hpend Hpub Hbg].
  split; simpl; try done. intros i s Hs Hc. destruct (Hlive i s Hs Hc) as [Hin Hup].
  unfold owed in Hup |- *. by rewrite Hph in Hup.
Qed.

Lemma refreshed_inv r p : provider_inv p -> phase p = Refreshing -> provider_inv (refreshed base64_decode r p).
Proof.
  intros Hinv Hph. assert (background_handle p = true) as Hb by (by eapply running_handle).
  assert (forall i, owed p i = []) as Howed by (intros i; unfold owed; by rewrite Hph).
  destruct r as [token|e]; unfold refreshed.
  - destruct Hinv as [Hlive Hknown Hpend Hpub Hbg]. split; simpl; try done; [|by intros c [= <-]|congruence].
    intros i s Hs Hc. destruct (Hlive i s Hs Hc) as [Hin Hup]. split; [done|].
    unfold owed. simpl. rewrite bool_decide_true by done. unfold up_to_date in *.
    rewrite !last_credentials_app. destruct (read_current s); [done|]. naive_solver.
  - apply with_phase_inv; try done. intros i s Hs Hc. rewrite Howed. unfold owed. simpl. by case_bool_decide.
Qed.

Lemma notify_inv p r : provider_inv p -> phase p = Publishing r -> provider_inv (notify_subscribers p r).
Proof.
  intros Hinv Hph. assert (background_handle p = true) as Hb by (by eapply running_handle).
  destruct Hinv as [Hlive Hknown Hpend Hpub Hbg].
  assert (Forall (fun i => (i < length (subs p))%nat)
            (List.filter (fun i => negb (is_closed p i)) (subscribers p))) as Hknown'.
  { apply Forall_forall. intros i Hi%list_elem_of_In%filter_In. destruct Hi as [Hi _].
    apply list_elem_of_In in Hi. by eapply Forall_forall in Hknown. }
  split; simpl; try done; [|by intros ? ? [= _ <-]|congruence].
  intros i s Hs Hc. destruct (Hlive i s Hs Hc) as [Hin Hup].
  assert (i ∈ List.filter (fun i => negb (is_closed p i)) (subscribers p)) as Hin'.
  { apply list_elem_of_In, filter_In. split; [by apply list_elem_of_In|]. unfold is_closed. by rewrite Hs, Hc. }
  split; [done|]. unfold owed in *. rewrite Hph, bool_decide_true in Hup by done. simpl.
  by rewrite bool_decide_true by done.
Qed.

Lemma elem_of_without i j (l : list nat) :
  i ∈ List.filter (fun k => negb (bool_decide (k = j))) l <-> i ∈ l /\ i <> j.
Proof.
  rewrite !list_elem_of_In, filter_In. destruct (decide (i = j)); [rewrite bool_decide_true by done|rewrite bool_decide_false by done]; naive_solver.
Qed.

Lemma send_one_inv p r pending i p' : provider_inv p -> phase p = Sending r pending ->
  send_one p r pending i = Some p' -> provider_inv p'.
Proof.
  intros Hinv Hph. assert (background_handle p = true) as Hb by (by eapply running_handle).
  unfold send_one. case_bool_decide as Hi; simpl; [|done]. destruct (subs p !! i) as [s|] eqn:Hs; [|done]. simpl.
  set (rest := List.filter _ pending).
  assert (Forall (fun j => (j < length (subs p))%nat) rest) as Hrest.
  { apply Forall_forall. intros j [Hj _]%elem_of_without. pose proof (inv_pending _ Hinv _ _ Hph) as H.
    by eapply Forall_forall in H. }
  destruct (closed s) eqn:Hc.
  - intros [= <-]. apply with_phase_inv; try done; [|by intros ? ? [= _ <-]].
    intros j sj Hj Hcj. unfold owed. simpl. rewrite Hph. assert (j <> i) by congruence.
    by rewrite (bool_decide_ext (j ∈ rest) (j ∈ pending)) by (unfold rest; rewrite elem_of_without; naive_solver).
  - destruct (chan s) eqn:Hch; [done|]. intros [= <-].
    destruct Hinv as [Hlive Hknown Hpend Hpub Hbg]. split; simpl; rewrite ?length_insert; try done;
      [|by intros ? ? [= _ <-]|congruence].
    intros j sj Hj Hcj. unfold owed. simpl. destruct (decide (j = i)) as [->|Hne].
    + rewrite list_lookup_insert_eq in Hj by (eapply lookup_lt_Some; eassumption). injection Hj as <-.
      destruct (Hlive i s Hs Hc) as [Hin Hup]. split; [done|].
      rewrite bool_decide_false by (unfold rest; rewrite elem_of_without; naive_solver).
      unfold owed in Hup. rewrite Hph, bool_decide_true in Hup by done.
      unfold up_to_date, stream in *. simpl. rewrite Hch in Hup. simpl in Hup.
      by rewrite !app_nil_r, <- ?app_assoc in *.
    + rewrite list_lookup_insert_ne in Hj by done. destruct (Hlive j sj Hj Hcj) as [Hin Hup]. split; [done|].
      unfold owed in Hup. rewrite Hph in Hup.
      by rewrite (bool_decide_ext (j ∈ rest) (j ∈ pending)) by (unfold rest; rewrite elem_of_without; naive_solver).
Qed.

Lemma all_sent_inv p r : provider_inv p -> phase p = Sending r [] ->
  provider_inv (with_phase p (if is_ok r then Sleeping else Stopped)).
Proof.
  intros Hinv Hph. apply with_phase_inv; try done; [by eapply running_handle| |by destruct r..].
  intros i s Hs Hc. unfold owed. simpl. rewrite Hph. by destruct r.
Qed.

Lemma wake_inv p : provider_inv p -> phase p = Sleeping -> provider_inv (with_phase p Refreshing).
Proof.
  intros Hinv Hph. apply with_phase_inv; try done; [by eapply running_handle|].
  intros i s Hs Hc. unfold owed. simpl. by rewrite Hph.
Qed.

Lemma register_inv p : provider_inv p -> provider_inv (subscribe_register p).
Proof.
  intros [Hlive Hknown Hpend Hpub Hbg]. split; simpl; rewrite ?length_app; simpl.
  - intros i s Hs Hc. apply lookup_app_Some in Hs as [Hs|[Hge Hs]].
    + destruct (Hlive i s Hs Hc) as [Hin Hup]. split; [apply elem_of_app; by left|].
      unfold owed in *. simpl. destruct (phase p); try done.
      rewrite bool_decide_true in Hup by done. rewrite bool_decide_true; [done|]. apply elem_of_app. by left.
    + apply list_lookup_singleton_Some in Hs as [Hz <-]. assert (i = length (subs p)) as -> by lia.
      split; [apply elem_of_app; right; by apply list_elem_of_singleton|].
      split_and!; [done..|]. unfold owed, stream. simpl.
      destruct (phase p) as [| |r|r pending| |] eqn:Hph; try (by left).
      * rewrite bool_decide_true by (apply elem_of_app; right; by apply list_elem_of_singleton).
        destruct r as [c|e]; [right; by rewrite (Hpub c)|by left].
      * rewrite bool_decide_false; [by left|]. intros Hin. specialize (Hpend _ _ eq_refl).
        eapply Forall_forall in Hpend; [|done]. lia.
  - apply Forall_app. split; [|by repeat constructor; lia].
    eapply Forall_impl; [done|]. simpl. lia.
  - intros r pending Hph. eapply Forall_impl; [by eapply Hpend|]. simpl. lia.
  - done.
  - done.
Qed.

Lemma subscribe_read_inv p i p' : provider_inv p -> subscribe_read p i = Some p' -> provider_inv p'.
Proof.
  intros Hinv. unfold subscribe_read. destruct (subs p !! i) as [s|] eqn:Hs; [|done]. simpl.
  destruct (read_current s) eqn:Hr; [done|]. intros [= <-]. eapply with_subs_inv; [done..|].
  intros o Hup. unfold up_to_date in *. rewrite Hr in Hup. destruct Hup as (Hrec & Hhead & Hlast).
  simpl. unfold stream in *. simpl. rewrite Hrec, Hhead in *. simpl in *.
  rewrite <- app_assoc, last_credentials_app. destruct Hlast as [->| ->].
  - by destruct (current_credentials p).
  - by destruct (current_credentials p).
Qed.

Lemma receive_next_inv p i p' : provider_inv p -> receive_next p i = Some p' -> provider_inv p'.
Proof.
  intros Hinv. unfold receive_next. destruct (subs p !! i) as [s|] eqn:Hs; [|done]. simpl.
  destruct (read_current s) eqn:Hr; [|done]. destruct (closed s) eqn:Hc; [done|]. simpl.
  destruct (head s) as [c|] eqn:Hh; [|destruct (chan s) as [x|] eqn:Hx; [|done]]; intros [= <-];
    (eapply with_subs_inv; [done..|]); intros o; unfold up_to_date, stream; simpl; rewrite Hr, Hh;
    rewrite ?Hx; simpl; by rewrite <- ?app_assoc, ?app_nil_r.
Qed.

Lemma close_inv p i p' : provider_inv p -> close p i = Some p' -> provider_inv p'.
Proof.
  intros Hinv. unfold close. destruct (subs p !! i) as [s|] eqn:Hs; [|done]. intros [= <-].
  by eapply with_subs_inv.
Qed.

Lemma provider_step_inv e p p' : provider_inv p -> provider_step e p = Some p' -> provider_inv p'.
Proof.
  intros Hinv. destruct e as [|answers| |i| | | |i|i|i]; simpl;
    eauto using subscribe_read_inv, receive_next_inv, close_inv.
  - intros [= <-]. by apply start_inv.
  - destruct (phase p) eqn:Hph; try done. destruct (retry_token _ answers); intros [= <-]. by apply refreshed_inv.
  - destruct (phase p) eqn:Hph; try done. intros [= <-]. by apply notify_inv.
  - destruct (phase p) eqn:Hph; try done. by apply send_one_inv.
  - destruct (phase p) as [| | |r []| |] eqn:Hph; try done. intros [= <-]. by apply all_sent_inv.
  - destruct (phase p) eqn:Hph; try done. intros [= <-]. by apply wake_inv.
  - intros [= <-]. by apply register_inv.
Qed.

Lemma provider_run_invariant (P : Provider -> Prop) (allowed : event -> Prop) es p p' :
  (forall e p p', allowed e -> P p -> provider_step e p = Some p' -> P p') ->
  Forall allowed es -> P p -> provider_run es p = Some p' -> P p'.
Proof.
  intros Hstep Ha. revert p. induction Ha as [|e es He Ha IH]; intros p Hp; simpl; [by intros [= <-]|].
  unfold provider_run. simpl. destruct (provider_step e p) as [p1|] eqn:E; simpl.
  - apply IH. by eapply Hstep.
  - intros Hn. exfalso. clear -Hn. induction es; simpl in *; auto. done.
Qed.

Lemma provider_run_inv es p : provider_run es Provider_new = Some p -> provider_inv p.
Proof.
  apply (provider_run_invariant provider_inv (fun _ => True));
    [by intros; eapply provider_step_inv|by apply Forall_true|]. by split.
Qed.

(** What a live subscription has seen and is owed. *)
Lemma stream_up_to_date (es : list event) (p : Provider) (i : nat) (s : Subscriber)
    (Hrun : provider_run es Provider_new = Some p) (Hsub : subs p !! i = Some s)
    (Hopen : closed s = false) (Hread : read_current s = true) :
  last_credentials (stream s ++ owed p i) = current_credentials p /\
  (match phase p with Publishing _ | Sending _ _ => False | _ => True end ->
   last_credentials (stream s) = current_credentials p).
Proof.
  apply provider_run_inv in Hrun. destruct (inv_live _ Hrun i s Hsub Hopen) as [_ Hup].
  unfold up_to_date in Hup. rewrite Hread in Hup. split; [done|].
  intros Hph. rewrite <- Hup. unfold owed. destruct (phase p); try done; by rewrite app_nil_r.
Qed.

(** Nobody who subscribes to a credentials provider misses a refresh: however
    the steps of subscribing, of the refreshing task and of the readers are
    interleaved, what comes out of a live subscription, with what the task is
    about to send to it, ends with the current credentials, and so do the items
    of the stream alone whenever the task is not in the middle of a
    notification. *)
Theorem no_refresh_missed (es : list event) (p : Provider) (i : nat) (s : Subscriber)
    (Hrun : provider_run es Provider_new = Some p) (Hsub : subs p !! i = Some s)
    (Hopen : closed s = false) (Hread : read_current s = true) :
  last_credentials (stream s ++ owed p i) = current_credentials p /\
  (match phase p with Publishing _ | Sending _ _ => False | _ => True end ->
   last_credentials (stream s) = current_credentials p).
Proof. by eapply stream_up_to_date. Qed.

(** A subscription whose channel is full, in the middle of a notification. *)
Definition stalled (i : nat) (c : option BasicAuth) (p : Provider) : Prop :=
  exists r pending s x, phase p = Sending r pending /\ i ∈ pending /\ subs p !! i = Some s /\
    closed s = false /\ chan s = Some x /\ current_credentials p = c /\ background_handle p = true.

Lemma other_sub_kept (p : Provider) i j s s' : subs p !! i = Some s -> i <> j ->
  <[j := s']> (subs p) !! i = Some s.
Proof. intros Hs Hne. by rewrite list_lookup_insert_ne. Qed.

Lemma stalled_step i c e p p' : e <> Receive i -> e <> Close i -> stalled i c p ->
  provider_step e p = Some p' -> stalled i c p'.
Proof.
  intros Hr Hc (r & pending & s & x & Hph & Hin & Hs & Hcl & Hx & Hcur & Hb) Hstep.
  destruct e as [|answers| |j| | | |j|j|j]; simpl in Hstep; rewrite ?Hph in Hstep; try done.
  - unfold start in Hstep. rewrite Hb in Hstep. injection Hstep as <-. by exists r, pending, s, x.
  - unfold send_one in Hstep. case_bool_decide as Hj; simpl in Hstep; [|done].
    destruct (subs p !! j) as [sj|] eqn:Hsj; [|done]. simpl in Hstep.
    destruct (decide (i = j)) as [<-|Hne].
    { simplify_eq. rewrite Hcl, Hx in Hstep. done. }
    assert (i ∈ List.filter (fun k => negb (bool_decide (k = j))) pending) as Hrest by (by apply elem_of_without).
    destruct (closed sj); [|destruct (chan sj); [done|]]; injection Hstep as <-; exists r; eexists; exists s, x;
      split_and!; try done. by apply other_sub_kept.
  - destruct pending; [by apply elem_of_nil in Hin|done].
  - injection Hstep as <-. exists r, pending, s, x. split_and!; try done. simpl. by apply lookup_app_l_Some.
  - unfold subscribe_read in Hstep. destruct (subs p !! j) as [sj|] eqn:Hsj; [|done]. simpl in Hstep.
    destruct (read_current sj) eqn:Hrj; [done|]. injection Hstep as <-.
    destruct (decide (i = j)) as [<-|Hne].
    + simplify_eq. eexists r, pending, _, x. split_and!; [done|done|simpl; apply list_lookup_insert_eq; by eapply lookup_lt_Some|done..].
    + exists r, pending, s, x. split_and!; try done. by apply other_sub_kept.
  - unfold receive_next in Hstep. destruct (subs p !! j) as [sj|] eqn:Hsj; [|done]. simpl in Hstep.
    assert (i <> j) by congruence. cases; simplify_eq; exists r, pending, s, x; split_and!; try done; by apply other_sub_kept.
  - unfold close in Hstep. destruct (subs p !! j) as [sj|] eqn:Hsj; [|done]. simpl in Hstep. injection Hstep as <-.
    assert (i <> j) by congruence. exists r, pending, s, x; split_and!; try done; by apply other_sub_kept.
Qed.

(** A subscription that is not read any more, but not dropped either, stops the
    refresh for everybody: once its channel is full, the task waits for it, and
    the credentials are never replaced again. *)
Lemma slow_subscriber_blocks_refresh i c es p p' :
  Forall (fun e => e <> Receive i /\ e <> Close i) es -> stalled i c p ->
  provider_run es p = Some p' -> stalled i c p'.
Proof. intros Hes. eapply provider_run_invariant; [|done]. intros e q q' [Hr Hc]. by apply stalled_step. Qed.

(** Once the retries are exhausted the task ends for good: starting again does
    nothing, and the credentials stay the old ones. *)
Definition stopped_with (c : option BasicAuth) (p : Provider) : Prop :=
  phase p = Stopped /\ background_handle p = true /\ current_credentials p = c.
Lemma refresh_ends_for_good c es p p' : stopped_with c p -> provider_run es p = Some p' -> stopped_with c p'.
Proof.
  apply (provider_run_invariant (stopped_with c) (fun _ => True)); [|by apply Forall_true].
  intros e q q' _ (Hph & Hb & Hc) Hstep.
  destruct e; simpl in Hstep; rewrite ?Hph in Hstep; try done;
    unfold start, subscribe_read, receive_next, close in Hstep; rewrite ?Hb in Hstep; simplify_option_eq; try done;
    cases; simplify_eq; done.
Qed.
End provider.

Definition no_decoder (_ : bytes) : result bytes bytes := Err [].
Definition token (name : string) : AccessToken := {| secret := bs name; expires_on := 0 |}.

(** Subscribing between the two halves of a refresh. *)
Definition racing : list event :=
  [Start; Subscribe; TokenResponse [Err (bs "busy"); Ok (token "one")]; ReadCurrent 0; Notify; Subscribe;
   ReadCurrent 1; SendOne 0; AllSent; Receive 0; Receive 0].

Lemma no_refresh_missed_witness : exists p s0 s1,
  provider_run no_decoder RetryConfig_default racing Provider_new = Some p /\
  subs p !! 0 = Some s0 /\ subs p !! 1 = Some s1 /\
  last_credentials (stream s0) = Some {| ba_username := bs "default"; ba_password := bs "one" |} /\
  last_credentials (stream s1) = Some {| ba_username := bs "default"; ba_password := bs "one" |}.
Proof.
  destruct (provider_run no_decoder RetryConfig_default racing Provider_new) as [p|] eqn:Hp;
    [|vm_compute in Hp; discriminate].
  pose proof Hp as Hp'. vm_compute in Hp'. injection Hp' as Hp'.
  destruct (subs p !! 0) as [s0|] eqn:H0; [|rewrite <- Hp' in H0; discriminate H0].
  destruct (subs p !! 1) as [s1|] eqn:H1; [|rewrite <- Hp' in H1; discriminate H1].
  exists p, s0, s1. split; [reflexivity|]. split; [exact H0|]. split; [exact H1|].
  assert (closed s0 = false /\ read_current s0 = true /\ closed s1 = false /\ read_current s1 = true) as (? & ? & ? & ?)
    by (rewrite <- Hp' in H0, H1; injection H0 as <-; injection H1 as <-; done).
  destruct (no_refresh_missed _ _ racing p 0 s0 Hp H0) as [_ E0]; [done..|].
  destruct (no_refresh_missed _ _ racing p 1 s1 Hp H1) as [_ E1]; [done..|].
  rewrite E0, E1; [|rewrite <- Hp'; exact I..]. rewrite <- Hp'. split; reflexivity.
Defined.

(** ** The object id is found *)

Lemma trim_start_blank l s : Forall (fun b => ws1 b = true) l -> trim_start (l ++ s) = trim_start s.
Proof. induction 1 as [|b l Hb Hl IH]; [done|]. cbn [app trim_start]. by rewrite Hb. Qed.
Lemma trim_start_quote s : trim_start (QUOTE :: s) = QUOTE :: s.
Proof. by destruct s as [|? [|? ?]]. Qed.

Lemma split_on_plain c s : c ∉ s -> split_on c s = [s].
Proof.
  induction s as [|b s IH]; [done|]. intros Hc%not_elem_of_cons. destruct Hc as [Hb Hs]. simpl.
  by rewrite bool_decide_false, IH.
Qed.
Lemma split_on_app c s r : c ∉ s -> split_on c (s ++ c :: r) = s :: split_on c r.
Proof.
  induction s as [|b s IH]; intros Hc; simpl; [by rewrite bool_decide_true|].
  apply not_elem_of_cons in Hc as [Hb Hs]. by rewrite bool_decide_false, IH.
Qed.

Lemma oid_of_payload_found pre gap sp oid post :
  find_bytes OID_CLAIM (pre ++ OID_CLAIM) = Some (length pre) -> x3a ∉ gap ->
  Forall (fun b => ws1 b = true) sp -> QUOTE ∉ oid ->
  oid_of_payload (pre ++ OID_CLAIM ++ gap ++ x3a :: sp ++ QUOTE :: oid ++ QUOTE :: post) = Ok oid.
Proof.
  intros Hfind Hgap Hsp Hoid. unfold oid_of_payload.
  rewrite (assoc_L app pre), (find_bytes_mono _ _ _ _ Hfind). cbn [mbind option_bind].
  rewrite <- (assoc_L app pre), drop_app_length.
  assert (x3a ∉ OID_CLAIM ++ gap) as Hcolon.
  { rewrite not_elem_of_app. split; [|done]. apply (bool_decide_unpack _). by vm_compute. }
  rewrite (assoc_L app OID_CLAIM), (position_app x3a (OID_CLAIM ++ gap)) by done. cbn [mbind option_bind].
  assert (forall rest, drop (length pre + length (OID_CLAIM ++ gap) + 1)
            (pre ++ (OID_CLAIM ++ gap) ++ x3a :: rest) = rest) as Hdrop.
  { intros rest. rewrite <- Nat.add_assoc, <- drop_drop, drop_app_length, <- drop_drop, drop_app_length. done. }
  rewrite Hdrop, trim_start_blank, trim_start_quote by done. rewrite bool_decide_true by done.
  rewrite position_app by done. cbn [mbind option_bind]. by rewrite take_app_length.
Qed.

(** The user name is the object id of the token: a token of three parts whose
    payload names the claim, with any white space around the colon, before
    anything else that looks like it, yields the value of the claim. *)
Theorem oid_extracted base64_decode header body signature pre gap sp oid post :
  x2e ∉ header -> x2e ∉ body -> x2e ∉ signature ->
  let payload := pre ++ OID_CLAIM ++ gap ++ x3a :: sp ++ QUOTE :: oid ++ QUOTE :: post in
  base64_decode body = Ok payload -> from_utf8 payload = Ok payload ->
  find_bytes OID_CLAIM (pre ++ OID_CLAIM) = Some (length pre) -> x3a ∉ gap ->
  Forall (fun b => ws1 b = true) sp -> QUOTE ∉ oid ->
  extract_oid_from_jwt base64_decode (header ++ x2e :: body ++ x2e :: signature) = Ok oid.
Proof.
  intros Hh Hb Hs payload Hdec Hutf Hfind Hgap Hsp Hoid. unfold extract_oid_from_jwt.
  rewrite split_on_app, split_on_app, split_on_plain by done. rewrite Hdec, Hutf.
  by apply oid_of_payload_found.
Qed.

(** A string literal of the payload. *)
Definition quoted (s : string) : bytes := QUOTE :: bs s ++ [QUOTE].

Lemma oid_extracted_witness :
  let payload := bs "{" ++ quoted "aud" ++ bs ":" ++ quoted "redis" ++ bs "," ++ OID_CLAIM ++ bs " : " ++ quoted "1234" ++ bs "}" in
  extract_oid_from_jwt (fun _ => Ok payload) (bs "header.body.signature") = Ok (bs "1234").
Proof.
  intros payload.
  apply (oid_extracted (fun _ => Ok payload) (bs "header") (bs "body") (bs "signature")
           (bs "{" ++ quoted "aud" ++ bs ":" ++ quoted "redis" ++ bs ",") (bs " ") (bs " ") (bs "1234") (bs "}"));
    try reflexivity; try (apply (bool_decide_unpack _); vm_compute; exact I).
Defined.

(** The search is not a JSON parser: when a claim in front of it has the value
    oid, the value of the claim behind that one is taken. *)
Lemma oid_misread :
  oid_of_payload (bs "{" ++ quoted "kind" ++ bs ":" ++ quoted "oid" ++ bs "," ++ quoted "name" ++ bs ":" ++
    quoted "someone" ++ bs "," ++ OID_CLAIM ++ bs ":" ++ quoted "1234" ++ bs "}") = Ok (bs "someone").
Proof. vm_compute. reflexivity. Qed.

(** ** Refreshing in time *)

(** A token that lasts longer than the buffer is refreshed before it expires; one
    that does not is refreshed again without a pause. *)
Lemma sleep_duration_spec remaining :
  (0 <= sleep_duration remaining)%Z /\
  (240000 <= remaining -> sleep_duration remaining = remaining - 240000)%Z /\
  (remaining <= 240000 -> sleep_duration remaining = 0)%Z.
Proof. unfold sleep_duration, TOKEN_REFRESH_BUFFER_SECS. repeat case_match; lia. Qed.

(** The retries are bounded, and the outcome is the first token. *)
Lemma retry_token_spec {E A} n (answers : list (result E A)) r : retry_token n answers = Some r ->
  match r with
  | Ok a => exists es, (length es <= n)%nat /\ (map Err es ++ [Ok a]) `prefix_of` answers
  | Err e => exists es, length es = n /\ (map Err es ++ [Err e]) `prefix_of` answers
  end.
Proof.
  revert n. induction answers as [|[a|e] answers IH]; intros n Hr; [discriminate Hr| |]; simpl in Hr.
  - injection Hr as <-. exists []. split; [simpl; lia|]. by exists answers.
  - destruct n as [|n].
    + injection Hr as <-. exists []. split; [done|]. by exists answers.
    + specialize (IH _ Hr). destruct r as [a|e']; destruct IH as (es & Hl & Hp);
        exists (e :: es); (split; [simpl; lia|]); by apply (prefix_cons (Err e)).
Qed.

(** Without options, the two kinds of managed identity are the same. *)
Lemma user_assigned_is_system_assigned {Credential} (azure : AzureIdentity Credential) :
  new_user_assigned_managed_identity azure = new_system_assigned_managed_identity azure.
Proof. done. Qed.

(** ** Connections with a provider *)

(** The credentials of the provider replace those of the settings; [next] is what
    the stream yields first. *)
Definition initial_credentials (i : RedisConnectionInfo) (next : option item)
    : result RedisError RedisConnectionInfo :=
  match next with
  | Some (Ok credentials) => Ok (set_password (set_username i (ba_username credentials)) (ba_password credentials))
  | Some (Err err) => Err err
  | None => Err (redis_error_of AuthenticationFailed
                   "Credentials stream closed unexpectedly before yielding credentials!")
  end.

Definition reauth_cmd (credentials : BasicAuth) : Cmd :=
  set_skip_concurrency_limit
    (authenticate_cmd (Some (ba_username credentials)) (ba_password credentials)) true.

(** [sent] is what [send_packed_command] answers. *)
Definition re_authenticate_with_credentials (sent : result RedisError Value) : result RedisError unit :=
  value ← sent; _ ← extract_error value; Ok ().

(** The task of a connection: the commands it sends for the items of its stream,
    with the answers of the server, and whether it has ended. *)
Fixpoint subscription_task (items : list item) (answers : list (result RedisError Value)) : list Cmd * bool :=
  match items with
  | [] => ([], false)
  | Err _ :: items => subscription_task items answers
  | Ok credentials :: items =>
      match answers with
      | [] => ([reauth_cmd credentials], false)
      | answer :: answers =>
          match re_authenticate_with_credentials answer with
          | Err _ => ([reauth_cmd credentials], true)
          | Ok _ => let '(cmds, ended) := subscription_task items answers in (reauth_cmd credentials :: cmds, ended)
          end
      end
  end.

(** [check_resp3!]. *)
Definition check_resp3 (p : ProtocolVersion) (message : string) : result RedisError unit :=
  if supports_resp3 p then Ok () else Err (redis_error_of InvalidClientConfig message).

Definition resolve_buffer_size (size : option Z) : Z := default 50%Z size.

(** The fields of a [MultiplexedConnection]; its pipeline is the sink of
    [Multiplexed]. *)
Record MultiplexedConnection := {
  mc_sink : PipelineSink;
  mc_buffer_size : Z;
  mc_db : Z;
  mc_response_timeout : option Z;
  mc_protocol : ProtocolVersion;
  mc_concurrency_limit : option nat;
  mc_cache_config : option CacheConfig;
  mc_reauthenticates : bool
}.

Definition mc_set_response_timeout (c : MultiplexedConnection) (timeout : Z) : MultiplexedConnection :=
  {| mc_sink := mc_sink c; mc_buffer_size := mc_buffer_size c; mc_db := mc_db c;
     mc_response_timeout := Some timeout; mc_protocol := mc_protocol c;
     mc_concurrency_limit := mc_concurrency_limit c; mc_cache_config := mc_cache_config c;
     mc_reauthenticates := mc_reauthenticates c |}.

Section multiplexed_new.
Context `{CargoPkgVersion}.

Definition PUSH_SENDER_RESP3 : string := "Can only pass push sender to a connection using RESP3".

(** [MultiplexedConnection::new_with_config]; [next] is what the provider yields
    first, if there is one, and the stream may never yield ([Waiting]).  The
    back-pressure boundary, which only sizes the buffer of the codec, is left out. *)
Definition new_with_config (i : RedisConnectionInfo) (config : AsyncConnectionConfig)
    (next : action Framed (option item)) : action Framed MultiplexedConnection :=
  _ ← lift (if bool_decide (is_Some (acc_push_sender config))
            then check_resp3 (info_protocol i) PUSH_SENDER_RESP3 else Ok ());
  let cache_config := (fun c => match c with
                                | Cache_Config c => c
                                | Cache_Manager m => cache_config m
                                end) <$> acc_cache config in
  _ ← lift (if bool_decide (is_Some (acc_cache config))
            then check_resp3 (info_protocol i) "Can only enable client side caching in a connection using RESP3"
            else Ok ());
  i ← (if acc_credentials_provider config then (first ← next; lift (initial_credentials i first)) else mret i);
  _ ← setup_connection i cache_config;
  _ ← lift (if bool_decide (is_Some (acc_push_sender config))
            then check_resp3 (info_protocol i) PUSH_SENDER_RESP3 else Ok ());
  limit ← lift (build_concurrency_limiter (Z.to_nat <$> acc_concurrency_limit config));
  mret {| mc_sink := PipelineSink_new (bool_decide (is_Some (acc_push_sender config)))
                       (bool_decide (is_Some (acc_cache config)));
          mc_buffer_size := resolve_buffer_size (acc_pipeline_buffer_size config);
          mc_db := info_db i; mc_response_timeout := acc_response_timeout config;
          mc_protocol := info_protocol i; mc_concurrency_limit := limit;
          mc_cache_config := cache_config; mc_reauthenticates := acc_credentials_provider config |}.

(** [MultiplexedConnection::new]. *)
Definition MultiplexedConnection_new (i : RedisConnectionInfo) : action Framed MultiplexedConnection :=
  new_with_config i AsyncConnectionConfig_default wait.
End multiplexed_new.

(** ** Connections follow their provider *)

Lemma subscription_task_accepted items answers :
  Forall (fun a => is_ok (re_authenticate_with_credentials a) = true) answers ->
  length answers = length (omap to_option items) ->
  subscription_task items answers = (map reauth_cmd (omap to_option items), false).
Proof.
  revert answers. induction items as [|[c|e] items IH]; intros answers Ha Hl; [done| |by apply IH].
  destruct Ha as [|a answers Ha Has]; [done|]. simpl in *.
  destruct (re_authenticate_with_credentials a); [|done]. injection Hl as Hl. by rewrite IH.
Qed.

(** C7. An established connection keeps up with its provider: once the task of a
    connection has read everything its subscription has for it, and the server
    accepted it all, the last AUTH of the connection was with the provider's
    current credentials, in whatever order subscribing, refreshing and reading
    took place. *)
Theorem connection_follows_provider base64_decode retry_config (es : list event) (p : Provider) (i : nat)
    (s : Subscriber) (answers : list (result RedisError Value))
    (Hrun : provider_run base64_decode retry_config es Provider_new = Some p) (Hsub : subs p !! i = Some s)
    (Hopen : closed s = false) (Hread : read_current s = true)
    (Hidle : head s = None /\ chan s = None /\ match phase p with Publishing _ | Sending _ _ => False | _ => True end)
    (Hlen : length answers = length (omap to_option (received s)))
    (Haccepted : Forall (fun a => is_ok (re_authenticate_with_credentials a) = true) answers) :
  last (subscription_task (received s) answers).1 = reauth_cmd <$> current_credentials p.
Proof.
  destruct Hidle as (Hh & Hc & Hph).
  destruct (stream_up_to_date _ _ es p i s Hrun Hsub Hopen Hread) as [_ Hlast]. specialize (Hlast Hph).
  rewrite subscription_task_accepted by done. cbn [fst]. rewrite <- Hlast.
  unfold stream, last_credentials. rewrite Hh, Hc. cbn [fmap option_fmap option_map option_list app].
  rewrite app_nil_r. apply fmap_last.
Qed.

Definition one : BasicAuth := {| ba_username := bs "default"; ba_password := bs "one" |}.

Lemma connection_follows_provider_witness : exists p s,
  provider_run no_decoder RetryConfig_default racing Provider_new = Some p /\ subs p !! 0 = Some s /\
  last (subscription_task (received s) [Ok Okay; Ok Okay]).1 = Some (reauth_cmd one).
Proof.
  destruct (provider_run no_decoder RetryConfig_default racing Provider_new) as [p|] eqn:Hp;
    [|vm_compute in Hp; discriminate].
  pose proof Hp as Hp'. vm_compute in Hp'. injection Hp' as Hp'.
  destruct (subs p !! 0) as [s|] eqn:H0; [|rewrite <- Hp' in H0; discriminate H0].
  exists p, s. split; [reflexivity|]. split; [exact H0|].
  rewrite (connection_follows_provider _ _ racing p 0 s [Ok Okay; Ok Okay] Hp H0);
    try (rewrite <- Hp' in H0; injection H0 as <-; rewrite <- ?Hp'; repeat constructor).
Defined.

(** A refused AUTH ends the task: later credentials are not sent. *)
Lemma refused_reauthentication_is_final credentials e items answers :
  subscription_task (Ok credentials :: items) (Ok (ServerErr e) :: answers) = ([reauth_cmd credentials], true).
Proof. done. Qed.

(** A connection that waits for credentials does not use those of its settings. *)
Lemma provider_credentials_used `{CargoPkgVersion} i config credentials c :
  acc_credentials_provider config = true ->
  let config' := {| acc_response_timeout := acc_response_timeout config;
                    acc_connection_timeout := acc_connection_timeout config;
                    acc_push_sender := acc_push_sender config; acc_cache := acc_cache config;
                    acc_dns_resolver := acc_dns_resolver config;
                    acc_pipeline_buffer_size := acc_pipeline_buffer_size config;
                    acc_concurrency_limit := acc_concurrency_limit config;
                    acc_write_backpressure_boundary := acc_write_backpressure_boundary config;
                    acc_credentials_provider := false |} in
  let i' := set_password (set_username i (ba_username credentials)) (ba_password credentials) in
  match new_with_config i config (mret (Some (Ok credentials))) c, new_with_config i' config' wait c with
  | Return (Ok m) s, Return (Ok m') s' =>
      s = s' /\ mc_sink m = mc_sink m' /\ mc_protocol m = mc_protocol m' /\ mc_db m = mc_db m' /\
      mc_concurrency_limit m = mc_concurrency_limit m' /\ mc_reauthenticates m = true
  | Return (Err e) s, Return (Err e') s' => e = e' /\ s = s'
  | Waiting, Waiting | Panicked, Panicked => True
  | _, _ => False
  end.
Proof.
  intros Hp config' i'. unfold new_with_config, i'. simpl. rewrite Hp.
  unfold mbind, action_bind, lift, mret, action_ret. simpl. repeat (case_match; simplify_eq/=; try done).
Qed.

(** Push messages need RESP3: without it nothing is sent at all. *)
Lemma push_sender_needs_resp3 `{CargoPkgVersion} i config next c :
  is_Some (acc_push_sender config) -> supports_resp3 (info_protocol i) = false ->
  new_with_config i config next c = Return (Err (redis_error_of InvalidClientConfig PUSH_SENDER_RESP3)) c.
Proof.
  intros Hs Hr. unfold new_with_config. rewrite bool_decide_true by done. unfold check_resp3. by rewrite Hr.
Qed.
