(* ===== verification/AsyncClient.v ===== *)
(** * Asynchronous connections of a client

    The asynchronous half of [client.rs]: [connect_simple] finds a stream,
    [new_with_config], [PubSub::new] or [Monitor::new] sets it up, and a time-out
    covers both where there is one.  A stream is the [Framed] codec of [Aio];
    both runtimes do the same.  The result keeps the codec, if there is one. *)

From S2P Require Import Prelude Text Float64 Combine Errors Types Parser Codec Cmd Convert Pipeline.
From S2P Require Import Slots Routing Multiplexed Caching Effects Tls ConnInfo Connection Manager Clients Aio Auth.

Section async_client.
Context {SocketAddr : Type} `{TlsFeature} `{TargetOs} `{CargoPkgVersion}.
(** The sockets of the runtime, and [select_ok] of the futures crate. *)
Variable connect_tcp : SocketAddr -> result RedisError Framed.
Variable connect_tcp_tls : bytes -> bool -> option TlsConnParams -> SocketAddr -> result RedisError Framed.
Variable connect_unix : bytes -> result RedisError Framed.
Variable select_ok : list (result RedisError Framed) -> option (result RedisError Framed).
(** The lookup of the runtime behind the default resolver, and the resolver of
    the configuration, if it has one. *)
Variable lookup : bytes -> Z -> result RedisError (list SocketAddr).
Variable dns_resolver : bytes -> Z -> result RedisError (list SocketAddr).
(** What the credentials provider of the configuration yields first. *)
Variable credentials : action Framed (option item).

Definition default_resolver (host : bytes) (port : Z) : result RedisError (list SocketAddr) :=
  get_socket_addrs (lookup host port).

(** What is run on the stream that [connect_simple] finds. *)
Definition on_stream {A} (resolve : bytes -> Z -> result RedisError (list SocketAddr)) (a : ConnectionAddr)
    (run : action Framed A) : exec (option Framed) A :=
  match connect_simple connect_tcp connect_tcp_tls connect_unix select_ok resolve a with
  | None => Panicked
  | Some (Err e) => Return (Err e) None
  | Some (Ok stream) =>
      match run stream with
      | Return r c => Return r (Some c)
      | Waiting => Waiting
      | Panicked => Panicked
      end
  end.

Definition create_multiplexed_async_connection_inner (i : ConnectionInfo) (config : AsyncConnectionConfig)
    : exec (option Framed) MultiplexedConnection :=
  let resolver := if acc_dns_resolver config then dns_resolver else default_resolver in
  on_stream resolver (addr i) (new_with_config (redis_settings i) config credentials).

(** [rt.timeout(..)]: [elapsed] tells that the time ran out first; what would wait
    for ever is ended by it in any case. *)
Definition timeout {S A} (elapsed : bool) (s : S) (r : exec S A) : exec S A :=
  match r with
  | Waiting => Return (Err elapsed_error) s
  | Panicked => Panicked
  | Return r s' => if elapsed then Return (Err elapsed_error) s else Return r s'
  end.

Definition get_multiplexed_async_connection_with_config (i : ConnectionInfo) (config : AsyncConnectionConfig)
    (elapsed : bool) : exec (option Framed) MultiplexedConnection :=
  match acc_connection_timeout config with
  | Some _ => timeout elapsed None (create_multiplexed_async_connection_inner i config)
  | None => create_multiplexed_async_connection_inner i config
  end.
Definition get_multiplexed_async_connection (i : ConnectionInfo) (elapsed : bool) :=
  get_multiplexed_async_connection_with_config i AsyncConnectionConfig_default elapsed.

(** [PubSub::new]: the sink of a fresh task over the codec. *)
Definition PubSub_new (i : RedisConnectionInfo) : action Framed PubSub.Task :=
  _ ← setup_connection i None; mret PubSub.Task_new.

Definition get_async_pubsub (i : ConnectionInfo) : exec (option Framed) PubSub.Task :=
  on_stream default_resolver (addr i) (PubSub_new (redis_settings i)).
Definition get_async_monitor (i : ConnectionInfo) : exec (option Framed) unit :=
  on_stream default_resolver (addr i) (Monitor_new (redis_settings i)).

(** ** Nothing panics *)

Definition no_panic {S A} (m : action S A) : Prop := forall s, m s <> Panicked.

Lemma no_panic_bind {S A B} (m : action S A) (f : A -> action S B) :
  no_panic m -> (forall a, no_panic (f a)) -> no_panic (m ≫= f).
Proof using.
  intros Hm Hf s. unfold mbind, action_bind. specialize (Hm s). destruct (m s) as [[a|e] s'| |]; try done. apply Hf.
Qed.
Lemma no_panic_ret {S A} (a : A) : no_panic (mret a : action S A).
Proof using. done. Qed.
Lemma no_panic_lift {S A} (r : result RedisError A) : no_panic (lift r : action S A).
Proof using. done. Qed.
Lemma no_panic_send b : no_panic (codec_send b).
Proof using. intros s. unfold codec_send. by destruct (send_errors s) as [|[e|] ?]. Qed.
Lemma no_panic_next : no_panic next_value.
Proof using.
  apply no_panic_bind; [|intros; apply no_panic_lift]. intros s. unfold codec_next. by destruct (frames s) as [|[?|] ?].
Qed.
Lemma no_panic_receive n : no_panic (receive n).
Proof using.
  induction n as [|n IH]; [apply no_panic_ret|]. apply no_panic_bind; [apply no_panic_next|]. intros v.
  apply no_panic_bind; [done|]. intros vs. apply no_panic_ret.
Qed.

(** The assertion on the indices of the set-up always holds. *)
Lemma setup_indices_disjoint results i check_username cache_config :
  is_Some (check_connection_setup results (connection_setup_pipeline i check_username cache_config).2).
Proof using.
  pose proof (setup_verdict_checked (fun _ => Nil) i check_username cache_config) as Hv.
  destruct (connection_setup_pipeline i check_username cache_config) as [p components]. simpl.
  unfold check_connection_setup in *. destruct (bool_decide _ && bool_decide _); [done|]. eauto.
Qed.

Lemma no_panic_execute i check_username cache_config :
  no_panic (execute_connection_pipeline (connection_setup_pipeline i check_username cache_config)).
Proof using.
  pose proof (fun results => setup_indices_disjoint results i check_username cache_config) as Hc.
  destruct (connection_setup_pipeline i check_username cache_config) as [p components]. simpl in Hc.
  unfold execute_connection_pipeline. destruct (_ =? 0)%nat; [apply no_panic_ret|].
  apply no_panic_bind; [apply no_panic_send|]. intros _. apply no_panic_bind; [apply no_panic_receive|].
  intros results. destruct (Hc results) as [r ->]. apply no_panic_bind; [apply no_panic_ret|]. intros r'. apply no_panic_lift.
Qed.

Lemma no_panic_setup i cache_config : no_panic (setup_connection i cache_config).
Proof using.
  apply no_panic_bind; [apply no_panic_execute|]. intros []; [apply no_panic_ret|].
  apply no_panic_bind; [apply no_panic_execute|]. intros _. apply no_panic_ret.
Qed.

Lemma no_panic_new i config : no_panic credentials -> no_panic (new_with_config i config credentials).
Proof using.
  intros Hc. unfold new_with_config.
  repeat (first [apply no_panic_lift|apply no_panic_ret|apply no_panic_setup|apply no_panic_bind; [|intros ?]]).
  destruct (acc_credentials_provider config); [|apply no_panic_ret].
  apply no_panic_bind; [done|]. intros first. apply no_panic_lift.
Qed.

(** ** Theorems *)

Hypothesis select_ok_ok : select_ok_spec select_ok.

(** Connecting through the default resolver finds a stream of one of the
    addresses, or fails. *)
Lemma default_resolver_streams {A} host port (run : action Framed A) :
  (exists l a s, lookup host port = Ok l /\ a ∈ l /\ connect_tcp a = Ok s /\
     on_stream default_resolver (Tcp host port) run =
       match run s with
       | Return r c => Return r (Some c)
       | Waiting => Waiting
       | Panicked => Panicked
       end) \/
  (exists e, on_stream default_resolver (Tcp host port) run = Return (Err e) None) /\
  forall l a, lookup host port = Ok l -> a ∈ l -> is_ok (connect_tcp a) = false.
Proof.
  unfold on_stream, connect_simple, default_resolver, get_socket_addrs.
  destruct (lookup host port) as [[|a l]|e] eqn:Hl; simpl.
  - right. split; [eauto|]. intros ? ? [= <-] Ha. by apply elem_of_nil in Ha.
  - destruct (select_some _ select_ok_ok (connect_tcp a :: map connect_tcp l)) as [r Hr]; [done|].
    rewrite Hr. pose proof (select_one _ select_ok_ok _ _ Hr) as Hin.
    change (r ∈ map connect_tcp (a :: l)) in Hin. apply list_elem_of_fmap in Hin as (b & Hb & Hin).
    destruct r as [s|e]; [left; eauto 10|]. right. split; [eauto|].
    intros ? b' [= <-] Hb'. destruct (connect_tcp b') as [s|] eqn:Es; [|done].
    assert (is_ok (Err e : result RedisError Framed) = true); [|done].
    apply (select_success _ select_ok_ok _ _ Hr). exists s. change (Ok s ∈ map connect_tcp (a :: l)).
    rewrite <- Es. by apply list_elem_of_fmap_2.
  - right. split; [eauto|]. by intros ? ? [=].
Qed.

(** A client with a connection time-out always gets an answer when it connects,
    a connection or an error, whatever the addresses and the server do and
    without a panic; and it gets a connection if one of the addresses accepts and
    the servers complete the set-up in time. *)
Theorem connecting_ends i config elapsed host port :
  addr i = Tcp host port -> acc_dns_resolver config = false -> is_Some (acc_connection_timeout config) ->
  no_panic credentials ->
  exists r c, get_multiplexed_async_connection_with_config i config elapsed = Return r c /\
    ((forall l a s, lookup host port = Ok l -> a ∈ l -> connect_tcp a = Ok s ->
        exists m c', new_with_config (redis_settings i) config credentials s = Return (Ok m) c') ->
     elapsed = false -> (exists l a s, lookup host port = Ok l /\ a ∈ l /\ connect_tcp a = Ok s) -> is_ok r = true).
Proof.
  intros Ha Hd [t Ht] Hpanic%(no_panic_new (redis_settings i) config). unfold get_multiplexed_async_connection_with_config, create_multiplexed_async_connection_inner.
  rewrite Ht, Hd, Ha.
  destruct (default_resolver_streams host port (new_with_config (redis_settings i) config credentials))
    as [(l & a & s & Hl & Hin & Hs & ->)|[[e ->] Hno]].
  - specialize (Hpanic s). destruct (new_with_config _ _ _ s) as [r c| |] eqn:Hn; [|eexists _, _; split; [done|]|done].
    + destruct elapsed; eexists _, _; (split; [done|]); [done|]. intros Hall _ _.
      destruct (Hall l a s) as (m & c' & Hm); [done..|]. rewrite Hn in Hm. by injection Hm as -> _.
    + intros Hall _ _. destruct (Hall l a s) as (m & c' & Hm); [done..|]. congruence.
  - destruct elapsed; eexists _, _; (split; [done|]); [done|].
    intros _ _ (l & a & s & Hl & Hin & Hs). specialize (Hno l a Hl Hin). by rewrite Hs in Hno.
Qed.
End async_client.

(** A server that accepts the connection but never answers the set-up: the
    multiplexed connection times out, the pub/sub connection waits for ever. *)
Definition silent : Framed := {| frames := []; send_errors := []; packets := [] |}.
Definition to_server : ConnectionInfo :=
  {| addr := Tcp (bs "host") 6379; tcp_settings := TcpSettings_default; redis_settings := RedisConnectionInfo_default |}.

Lemma silent_server_blocks_pubsub : let _ : TlsFeature := true in let _ : TargetOs := true in
  let _ : CargoPkgVersion := bs "1.7.0" in
  let tcp (a : nat) := @Ok RedisError _ silent in
  let tls (_ : bytes) (_ : bool) (_ : option TlsConnParams) (a : nat) := @Ok RedisError _ silent in
  let unix (_ : bytes) := @Ok RedisError _ silent in
  let lookup (_ : bytes) (_ : Z) := @Ok RedisError _ [O] in
  get_multiplexed_async_connection tcp tls unix select_first lookup lookup wait to_server false =
    Return (Err elapsed_error) None /\
  get_async_pubsub tcp tls unix select_first lookup to_server = Waiting /\
  get_async_monitor tcp tls unix select_first lookup to_server = Waiting.
Proof. split_and!; vm_compute; reflexivity. Qed.

(** One that answers the set-up. *)
Definition polite : Framed := {| frames := [Some (Ok Okay); Some (Ok Okay)]; send_errors := []; packets := [] |}.

Lemma connecting_ends_witness : let _ : TlsFeature := true in let _ : TargetOs := true in
  let _ : CargoPkgVersion := bs "1.7.0" in
  let tcp (a : nat) := if (a =? 0)%nat then Err closed_connection_error else Ok polite in
  let tls (_ : bytes) (_ : bool) (_ : option TlsConnParams) (a : nat) := @Ok RedisError _ polite in
  let unix (_ : bytes) := @Ok RedisError _ polite in
  let lookup (_ : bytes) (_ : Z) := @Ok RedisError _ [0; 1]%nat in
  exists r c, get_multiplexed_async_connection_with_config tcp tls unix select_first lookup lookup wait to_server
    AsyncConnectionConfig_default false = Return r c /\ is_ok r = true.
Proof.
  intros T O' V tcp tls unix lookup.
  destruct (connecting_ends tcp tls unix select_first lookup lookup wait (select_first_spec Framed) to_server
    AsyncConnectionConfig_default false (bs "host") 6379) as (r & c & E & Hok).
  - reflexivity.
  - reflexivity.
  - eexists. reflexivity.
  - intros s. discriminate.
  - exists r, c. split; [exact E|]. apply Hok; [|reflexivity|].
    + intros l a s _ _ Hs. assert (s = polite) as -> by (unfold tcp in Hs; destruct (a =? 0)%nat; congruence).
      eexists _, _. vm_compute. reflexivity.
    + exists [0; 1]%nat, 1%nat, polite. split; [reflexivity|]. split; [|reflexivity].
      apply list_elem_of_further, list_elem_of_here.
Defined.
