(* ===== verification/Requests.v ===== *)
(** * Requests

    What a user of a connection calls: requests of a [MultiplexedConnection]
    (the second half of [aio/multiplexed_connection.rs]) with their concurrency
    limit and the client-side cache, and the [PubSubCommands] of
    [commands/mod.rs], which run a closure for every message.

    What [Pipeline::send_recv] answers to a packed command or pipeline is an
    argument; [Multiplexed] says what it answers.  [async_lock::Semaphore] is the
    number of its permits. *)

From S2P Require Import Prelude Text Float64 Combine Errors Types Parser Codec Cmd Convert Pipeline.
From S2P Require Import Slots Routing Multiplexed Caching Effects ConnInfo Connection Manager Clients Aio Auth.

(** ** The concurrency limit *)

(** The limit, the free permits, and the requests that run with the permits they
    hold. *)
Record ConcurrencyLimiter := {
  limit : nat;
  available : nat;
  running : list (nat * nat)
}.

Definition ConcurrencyLimiter_new (n : nat) : ConcurrencyLimiter :=
  {| limit := n; available := n; running := [] |}.

(** [semaphore.acquire().await]: [None] is to wait. *)
Definition acquire (available : nat) : option nat :=
  match available with O => None | S n => Some n end.

(** The loop [for _ in 1..capacity] of [try_acquire]: the permits that are left
    and the number of those taken. *)
Fixpoint try_acquire_loop (rounds available : nat) : nat * nat :=
  match rounds, acquire available with
  | S rounds, Some available =>
      let '(available, taken) := try_acquire_loop rounds available in (available, S taken)
  | _, _ => (available, O)
  end.

(** A command starts, unless it has to wait; [AUTH] of the re-authentication
    skips the limit. *)
Definition start_command (l : ConcurrencyLimiter) (id : nat) (c : Cmd) : option ConcurrencyLimiter :=
  if skip_concurrency_limit c then Some l
  else
    available ← acquire (available l);
    Some {| limit := limit l; available := available; running := running l ++ [(id, 1)] |}.

(** A pipeline waits for one permit and takes those of the others that are free. *)
Definition start_pipeline (l : ConcurrencyLimiter) (id count : nat) : option ConcurrencyLimiter :=
  let capacity := permit_vec_capacity count (limit l) in
  available ← acquire (available l);
  let '(available, taken) := try_acquire_loop (capacity - 1) available in
  Some {| limit := limit l; available := available; running := running l ++ [(id, S taken)] |}.

(** A request ends or its future is dropped: its permits are released. *)
Definition finish (l : ConcurrencyLimiter) (id : nat) : ConcurrencyLimiter :=
  {| limit := limit l;
     available := available l + sum_list (map snd (List.filter (fun r => (r.1 =? id)%nat) (running l)));
     running := List.filter (fun r => negb (r.1 =? id)%nat) (running l) |}.

Inductive limiter_step : ConcurrencyLimiter -> ConcurrencyLimiter -> Prop :=
| step_command l id c l' : start_command l id c = Some l' -> limiter_step l l'
| step_pipeline l id count l' : start_pipeline l id count = Some l' -> limiter_step l l'
| step_finish l id : limiter_step l (finish l id).

Record limiter_inv (n : nat) (l : ConcurrencyLimiter) : Prop := {
  inv_limit : limit l = n;
  inv_permits : (available l + sum_list (map snd (running l)) = n)%nat;
  inv_held : Forall (fun r => (1 <= r.2)%nat) (running l)
}.

Lemma try_acquire_loop_spec rounds free :
  try_acquire_loop rounds free = (free - Nat.min rounds free, Nat.min rounds free)%nat.
Proof.
  revert free. induction rounds as [|rounds IH]; intros [|free]; cbn [try_acquire_loop acquire]; try done.
  rewrite IH. f_equal; simpl; lia.
Qed.

Lemma sum_held_snoc l (r : nat * nat) :
  sum_list (map snd (l ++ [r])) = (sum_list (map snd l) + r.2)%nat.
Proof. induction l as [|x l IH]; simpl in *; lia. Qed.

Lemma sum_held_split id (l : list (nat * nat)) :
  (sum_list (map snd (List.filter (fun r => (r.1 =? id)%nat) l)) +
   sum_list (map snd (List.filter (fun r => negb (r.1 =? id)%nat) l)) = sum_list (map snd l))%nat.
Proof. induction l as [|x l IH]; [done|]. simpl. destruct (x.1 =? id)%nat; simpl; lia. Qed.

Lemma held_count (l : list (nat * nat)) : Forall (fun r => (1 <= r.2)%nat) l ->
  (length l <= sum_list (map snd l))%nat.
Proof. induction 1; simpl; lia. Qed.

Lemma limiter_step_inv n l l' : limiter_step l l' -> limiter_inv n l -> limiter_inv n l'.
Proof.
  intros Hstep [Hl Hp Hh]. destruct Hstep as [l id c l' Hs|l id count l' Hs|l id].
  - unfold start_command in Hs. destruct (skip_concurrency_limit c); [by simplify_eq; split|].
    destruct (available l) as [|k] eqn:Ha; simpl in Hs; [done|]. injection Hs as <-.
    split; simpl; [done|rewrite sum_held_snoc; simpl; lia|]. apply Forall_app. split; [done|]. by repeat constructor.
  - unfold start_pipeline in Hs. destruct (available l) as [|k] eqn:Ha; simpl in Hs; [done|].
    rewrite try_acquire_loop_spec in Hs. injection Hs as <-.
    split; simpl; [done|rewrite sum_held_snoc; simpl; lia|]. apply Forall_app. split; [done|]. constructor; [simpl; lia|done].
  - split; simpl; [done|pose proof (sum_held_split id (running l)); lia|].
    apply Forall_forall. intros r Hr%list_elem_of_In%filter_In. destruct Hr as [Hr _].
    apply list_elem_of_In in Hr. by eapply Forall_forall in Hh.
Qed.

(** The limit is kept and nothing waits forever: however requests start and end,
    at most [n] of them run under a limit of [n], each with at least one permit
    and none with more than the limit; and a request only has to wait while some
    other one runs, so that it can start as soon as permits are given back. *)
Theorem limiter_safe (n : nat) (l : ConcurrencyLimiter) (id count : nat) (c : Cmd)
    (Hn : (0 < n)%nat) (Hrun : rtc limiter_step (ConcurrencyLimiter_new n) l) :
  (length (running l) <= n)%nat /\ Forall (fun r => (1 <= r.2 <= n)%nat) (running l) /\
  (start_command l id c = None -> running l <> []) /\ (start_pipeline l id count = None -> running l <> []).
Proof.
  assert (limiter_inv n l) as [Hl Hp Hh].
  { assert (limiter_inv n (ConcurrencyLimiter_new n)) as Hinv by (split; simpl; [done|lia|constructor]).
    clear Hn. induction Hrun; eauto using limiter_step_inv. }
  pose proof (held_count _ Hh).
  assert (available l = O -> running l <> []) as Hwait by (intros Ha Hr; rewrite Ha, Hr in Hp; simpl in Hp; lia).
  split_and!; [lia| | |].
  - apply Forall_forall. intros r Hr. split; [by eapply Forall_forall in Hh|].
    apply list_elem_of_split in Hr as (l1 & l2 & Hr). rewrite Hr, map_app in Hp. simpl in Hp.
    assert (forall a b, sum_list (a ++ b) = sum_list a + sum_list b)%nat as Hsum by (intros a b; induction a; simpl; lia).
    rewrite Hsum in Hp. simpl in Hp. lia.
  - unfold start_command. destruct (skip_concurrency_limit c); [done|]. destruct (available l); [auto|done].
  - unfold start_pipeline. destruct (available l); [auto|]. simpl. by destruct (try_acquire_loop _ _).
Qed.

Lemma limiter_safe_witness : exists l,
  rtc limiter_step (ConcurrencyLimiter_new 3) l /\ running l = [(0, 1); (1, 2)]%nat /\
  start_command l 2 (cmd "PING") = None /\ (length (running l) <= 3)%nat.
Proof.
  set (l1 := {| limit := 3; available := 2; running := [(0, 1)] |}).
  set (l2 := {| limit := 3; available := 0; running := [(0, 1); (1, 2)] |}).
  assert (rtc limiter_step (ConcurrencyLimiter_new 3) l2) as Hrun.
  { apply (rtc_l _ _ l1); [apply (step_command _ 0 (cmd "PING")); reflexivity|].
    apply rtc_once. apply (step_pipeline _ 1 5). reflexivity. }
  exists l2. split; [exact Hrun|]. split; [reflexivity|]. split; [reflexivity|].
  exact (proj1 (limiter_safe 3 l2 2 1 (cmd "PING") ltac:(lia) Hrun)).
Defined.

(** ** Requests through the cache *)

Section cached_requests.
Context `{C : LruCache} `{KeyHash} `{Clock}.

(** What [self.pipeline.send_recv] answers to a packed command, and to a packed
    pipeline with its expectation. *)
Variable exchange_command : Cmd -> result RedisError Value.
Variable exchange_pipeline : Pipeline -> PipelineResponseExpectation -> result RedisError Value.

(** [send_packed_command]; the outer [None] is a panic.  With [no_response] the
    value of [send_recv] is [Nil]. *)
Definition mc_send_packed_command (cache_manager : option CacheManager) (c : ShardedLRU) (cm : Cmd)
    : option (result RedisError Value * ShardedLRU) :=
  match cache_manager with
  | None => Some (exchange_command cm, c)
  | Some m =>
      match get_cached_cmd m c cm with
      | None => None
      | Some (Cached value, c) => Some (Ok value, c)
      | Some (NotCached cacheable_command, c) =>
          let pipeline := with_commands Pipeline_new (pack_cacheable m cacheable_command) in
          let expectation := {| skipped_response_count := 0;
                                expected_response_count := length (commands pipeline);
                                exp_is_transaction := false; seen_responses := 0 |} in
          let replies : result RedisError (list Value) :=
            result ← (if is_no_response cm then Ok Nil else exchange_pipeline pipeline expectation);
            into_redis_error (from_redis_value (frv_vec frv_value) result) in
          match replies with
          | Err e => Some (Err e, c)
          | Ok replies =>
              match resolve_command m c cacheable_command replies with
              | None => None
              | Some (r, c) => Some (fst <$> r, c)
              end
          end
      | Some (NotCacheable, c) => Some (exchange_command cm, c)
      end
  end.

(** [send_packed_commands]. *)
Definition mc_send_packed_commands (cache_manager : option CacheManager) (c : ShardedLRU) (p : Pipeline)
    (offset count : nat) : option (result RedisError (list Value) * ShardedLRU) :=
  match cache_manager with
  | Some m =>
      match get_cached_pipeline m c p with
      | None => None
      | Some (cacheable_pipeline, pipeline, (skipped, expected), c) =>
      if Pipeline_is_empty pipeline then resolve m c cacheable_pipeline (Array [])
      else
        match exchange_pipeline pipeline {| skipped_response_count := skipped; expected_response_count := expected;
                exp_is_transaction := cp_transaction_mode cacheable_pipeline; seen_responses := 0 |} with
        | Err e => Some (Err e, c)
        | Ok result => resolve m c cacheable_pipeline result
        end
      end
  | None =>
      let value := exchange_pipeline p {| skipped_response_count := offset; expected_response_count := count;
                     exp_is_transaction := is_transaction p; seen_responses := 0 |} in
      Some ((fun value => match value with Array values => values | _ => [value] end) <$> value, c)
  end.
End cached_requests.

Section cached_transparent.
Context `{C : LruCache} {CL : LruCacheLaws C} `{KeyHash} `{Clock}.
Variable reply : list (Arg bytes) -> Value.
Variable truth : bytes -> bytes -> Value.
Hypothesis server_multi : forall name single ks path, ks <> [] ->
  is_multi_key (bs name) = Some (name, single) -> path_fits name path ->
  reply (map Simple (bs name :: ks ++ tail_of path)) = Array (map (part_value truth single path) ks).

(** A server that answers everything. *)
Definition served_command (cm : Cmd) : result RedisError Value := Ok (server reply cm).
Definition served_pipeline (p : Pipeline) (_ : PipelineResponseExpectation) : result RedisError Value :=
  Ok (Array (map (server reply) (commands p))).

Lemma vec_of_values vs : from_redis_value (frv_vec frv_value) (Array vs) = Ok vs.
Proof using. simpl. induction vs as [|v vs IH]; [done|]. simpl. by rewrite IH. Qed.

(** A command on a multiplexed connection gets the same reply with a cache as
    without: a hit returns what the server would have answered, a miss is sent
    with its PTTL and read back, a multi-key command is completed from both; and
    the cache still holds only what the server would answer. *)
Theorem cached_command_transparent m c cm : coherent truth c -> answered reply truth cm ->
  is_no_response cm = false ->
  exists c', mc_send_packed_command served_command served_pipeline (Some m) c cm = Some (Ok (server reply cm), c') /\
    coherent truth c' /\
    mc_send_packed_command served_command served_pipeline None c cm = Some (Ok (server reply cm), c).
Proof using CL server_multi.
  intros Hc Ha Hn. unfold mc_send_packed_command.
  destruct (prepare_command_ok reply truth m (fun _ => True) c cm Hc Ha) as (prep & c1 & -> & Hc1 & Hp); [done|].
  destruct prep as [v|cc|].
  - exists c1. simpl in Hp. subst v. done.
  - rewrite Hn. unfold served_pipeline at 1. cbn [mbind result_bind]. rewrite vec_of_values. cbn [into_redis_error].
    destruct (resolve_command_ok reply truth m (fun _ => True)
      (fun name single ks path Hne _ => server_multi name single ks path Hne) c1 cm cc [] Hc1 Hp) as (c2 & E & Hc2).
    rewrite app_nil_r in E.
    change (commands (with_commands Pipeline_new (pack_cacheable m cc))) with (pack_cacheable m cc).
    change (into_redis_error (Ok ?l)) with (@Ok RedisError _ l). cbv iota. rewrite E. exists c2. done.
  - exists c1. done.
Qed.
End cached_transparent.

(** A command that can be cached and wants no response cannot be sent through
    the cache: its PTTL and its value are not received, and the caller gets an
    error after it was executed. *)
Lemma no_response_not_cached `{LruCache} `{KeyHash} `{Clock} exchange_command exchange_pipeline m c cm scc c1 :
  is_no_response cm = true -> mode (cache_config m) = CacheAll ->
  get_cached_cmd m c cm = Some (NotCached (Single scc), c1) ->
  mc_send_packed_command exchange_command exchange_pipeline (Some m) c cm =
    Some (Err (redis_error_of UnexpectedReturnType "Expected two Value from server"), c1).
Proof.
  intros Hn Hm Hg. unfold mc_send_packed_command. rewrite Hg, Hn. simpl.
  unfold resolve_command. by rewrite Hm.
Qed.

Lemma coherent_new `{C : LruCache} {CL : LruCacheLaws C} `{KeyHash} truth n : coherent truth (ShardedLRU_new n).
Proof. split; [apply cache_wf_new|]. intros k item Hs. by rewrite stored_new in Hs. Qed.

Lemma cached_command_transparent_witness :
  let m := {| cache_config := CacheConfig_new; epoch := 0 |} in
  let reply := Caching.answers counter_exec 5%Z in
  exists c', @mc_send_packed_command list_cache no_hash steady_clock (served_command reply)
    (served_pipeline reply) (Some m) (ShardedLRU_new 10) get_b = Some (Ok (BulkString (bs "b")), c').
Proof.
  intros m reply.
  destruct (@cached_command_transparent list_cache list_cache_laws no_hash steady_clock reply (counter_truth 5%Z)
    (answers_by_key _ _ counter_well_behaved 5%Z) m (ShardedLRU_new 10) get_b) as (c' & E & _).
  - exact (@coherent_new list_cache list_cache_laws no_hash (counter_truth 5%Z) 10).
  - exact (get_answered 5%Z).
  - reflexivity.
  - exists c'. exact E.
Defined.

(** ** Subscriptions of a multiplexed connection *)

(** [subscribe], [unsubscribe], [psubscribe] and [punsubscribe]. *)
Section mc_subscriptions.
Context {St : Type} `{ConnectionLike St}.

Definition mc_subscription (p : ProtocolVersion) (name : string) (channels : list bytes) : action St unit :=
  _ ← lift (check_resp3 p "RESP3 is required for this command");
  Cmd_exec (cmd_args name channels).
Definition mc_subscribe p := mc_subscription p "SUBSCRIBE".
Definition mc_unsubscribe p := mc_subscription p "UNSUBSCRIBE".
Definition mc_psubscribe p := mc_subscription p "PSUBSCRIBE".
Definition mc_punsubscribe p := mc_subscription p "PUNSUBSCRIBE".
End mc_subscriptions.

(** ** PubSubCommands *)

Inductive ControlFlow (U : Type) := Continue | Break (value : U).
#[global] Arguments Continue {U}.
#[global] Arguments Break {U} value.

Section pubsub_commands.
Context `{F64Display} {U F : Type}.
(** The closure, with the variables it changes. *)
Variable func : F -> Msg -> ControlFlow U * F.

(** The loop; [fuel] bounds the messages. *)
Fixpoint dispatch_loop (fuel : nat) (f : F) : action PubSub (U * F) :=
  match fuel with
  | O => wait
  | S fuel =>
      msg ← get_message;
      match func f msg with
      | (Continue, f) => dispatch_loop fuel f
      | (Break value, f) => mret (value, f)
      end
  end.

(** [subscribe] and [psubscribe] of [PubSubCommands]: the [PubSub] is dropped at
    the end, whatever the result. *)
Definition dispatch (name : string) (fuel : nat) (channels : list bytes) (f : F) : action Connection (U * F) :=
  fun c =>
    match (_ ← subscription name channels; dispatch_loop fuel f) (as_pubsub c) with
    | Return r p =>
        match drop_pubsub p with
        | Return _ c => Return r c
        | Waiting => Waiting
        | Panicked => Panicked
        end
    | Waiting => Waiting
    | Panicked => Panicked
    end.
Definition subscribe_with := dispatch "SUBSCRIBE".
Definition psubscribe_with := dispatch "PSUBSCRIBE".

(** The closure run over messages: what it returned and the messages left. *)
Fixpoint handled (f : F) (ms : list Msg) : option (U * F * list Msg) :=
  match ms with
  | [] => None
  | m :: ms =>
      match func f m with
      | (Continue, f) => handled f ms
      | (Break value, f) => Some (value, f, ms)
      end
  end.

(** The closure is called for every message, in order and once, until it breaks;
    the messages behind that one are still to come. *)
Lemma dispatch_loop_order fuel f p vs value f' rest : receives p vs ->
  handled f (undelivered p vs) = Some (value, f', rest) -> (length (undelivered p vs) <= fuel)%nat ->
  exists p' vs', dispatch_loop fuel f p = Return (Ok (value, f')) p' /\ receives p' vs' /\ undelivered p' vs' = rest.
Proof.
  revert f p vs. induction fuel as [|fuel IH]; intros f p vs Hr Hh Hl.
  { destruct (undelivered p vs); [done|]. simpl in Hl. lia. }
  pose proof (get_message_order p vs Hr) as Hm. cbn [dispatch_loop].
  destruct (undelivered p vs) as [|m ms]; [done|]. destruct Hm as (p1 & vs1 & Hg & Hr1 & _ & Hu1).
  rewrite (bind_ok _ _ _ _ _ Hg). simpl in Hh, Hl. destruct (func f m) as [[|v] f1].
  - apply (IH f1 p1 vs1 Hr1); [by rewrite Hu1|rewrite Hu1; lia].
  - injection Hh as -> -> ->. by exists p1, vs1.
Qed.

(** A closure that never breaks on what has come waits for more. *)
Lemma dispatch_loop_waits fuel f p vs : receives p vs -> handled f (undelivered p vs) = None ->
  dispatch_loop fuel f p = Waiting.
Proof.
  revert f p vs. induction fuel as [|fuel IH]; intros f p vs Hr Hh; [done|].
  pose proof (get_message_order p vs Hr) as Hm. cbn [dispatch_loop].
  destruct (undelivered p vs) as [|m ms].
  - unfold mbind, action_bind. by rewrite Hm.
  - destruct Hm as (p1 & vs1 & Hg & Hr1 & _ & Hu1). rewrite (bind_ok _ _ _ _ _ Hg). simpl in Hh.
    destruct (func f m) as [[|v] f1]; [|done]. apply (IH f1 p1 vs1 Hr1). by rewrite Hu1.
Qed.
End pubsub_commands.

(** Counting two messages, and leaving the pub/sub state behind. *)
Lemma dispatch_example : let _ : F64Display := fun _ => [] in
  let msg s := Array [BulkString (bs "message"); BulkString (bs "a"); BulkString (bs s)] in
  let unsub k := Array [BulkString (bs k); BulkString (bs "a"); Int 0] in
  exists c, subscribe_with (fun n (m : Msg) => (if (n =? 1)%nat then Break m else Continue, S n)) 5 [bs "a"] O
    (fresh_connection RedisConnectionInfo_default
       [Ok (form false (Confirms Types.Subscribe (Some (bs "a")) 1)); Ok (msg "one"%string); Ok (msg "two"%string);
        Ok (unsub "unsubscribe"%string); Ok (unsub "punsubscribe"%string)] []) =
  Return (Ok ({| payload := BulkString (bs "two"); channel := BulkString (bs "a"); pattern := None |}, 2%nat)) c /\
  pubsub c = false /\ incoming c = [].
Proof. eexists. split; [vm_compute; reflexivity|]. done. Qed.

(** ** Scripts as commands *)

(** [load_script] and [invoke_script] of the builders. *)
Definition load_script (script : Script) : Cmd := load_cmd script.
Definition invoke_script (invocation : ScriptInvocation) : Cmd := eval_cmd invocation.
