(* ===== verification/ClusterClient.v ===== *)
(** * Cluster clients

    [cluster_handling/client.rs] and the address helpers of
    [cluster_handling/mod.rs]: the parameters of a cluster client, the builder
    with the checks of [build], the waiting time between retries, and the
    settings of a connection to a node.

    Push senders, DNS resolvers and credential providers are trait objects that are
    handed through to connections, told apart by their address.  A factory of read
    strategies is the function that creates a strategy, and a cache manager is
    represented by its configuration; the cache is that of Caching. *)

From S2P Require Import Prelude Text Float64 Combine Errors Types Parser Codec Cmd Convert Pipeline Slots Caching Effects Tls ConnInfo.
Local Open Scope Z_scope.

#[export] Program Instance NodeAddress_countable : Countable NodeAddress :=
  inj_countable' (fun a => (host a, port a)) (fun p => NodeAddress_new p.1 p.2) _.
Next Obligation. by intros []. Qed.

(** ** Retries *)

Record RetryParams := {
  number_of_retries : Z; max_wait_time : Z; min_wait_time : Z; exponent_base : Z; factor : Z
}.
Definition RetryParams_default : RetryParams :=
  {| number_of_retries := 16; max_wait_time := 655360; min_wait_time := 1280;
     exponent_base := 2; factor := 10 |}.

(** Unsigned 64-bit arithmetic, checked or wrapping by [BuildProfile]. *)
Definition u64_op `{BuildProfile} (exact : Z) : option Z :=
  if bool_decide (0 <= exact <= u64_max) then Some exact
  else if overflow_checks then None else Some (exact mod 2 ^ 64).
Definition u64_saturating_add (a b : Z) : Z := Z.min (a + b) u64_max.

(** [random_range(lo..hi)] of the generator, which panics on an empty range. *)
Class RandRange `{Rand} := {
  random_range : Z -> Z -> rng -> option (Z * rng);
  random_range_bounds lo hi g x g' : random_range lo hi g = Some (x, g') -> lo <= x < hi;
  random_range_nonempty lo hi g : lo < hi -> exists x g', random_range lo hi g = Some (x, g');
  random_range_empty lo hi g : hi <= lo -> random_range lo hi g = None
}.

Definition cluster_retry_wait_upper_ms `{BuildProfile} (base_wait min_wait max_wait : Z) : option Z :=
  next ← u64_op (min_wait + 1);
  let capped := Z.min (Z.max base_wait next) max_wait in
  Some (if capped <=? min_wait then u64_saturating_add min_wait 1 else capped).

(** [u64::pow] overflows when the exact power does not fit. *)
Definition wait_time_for_retry `{BuildProfile} `{RandRange} (r : RetryParams) (retry : Z) (g : rng)
    : option (Z * rng) :=
  power ← u64_op (exponent_base r ^ retry);
  base_wait ← u64_op (power * factor r);
  clamped_wait ← cluster_retry_wait_upper_ms base_wait (min_wait_time r) (max_wait_time r);
  random_range (min_wait_time r) clamped_wait g.

(** ** Parameters *)

(** [Arc<dyn Trait>]: the address of a trait object. *)
Definition Arc : Type := N.

Section params.
(** The strategies that a factory creates. *)
Context {S : Type}.

Record ClusterParams := {
  cp_password : option bytes; cp_username : option bytes;
  read_routing_factory : option (unit -> S);
  cp_tls : option TlsMode; retry_params : RetryParams; tls_params : option TlsConnParams;
  connection_timeout : Duration; response_timeout : option Duration;
  cp_protocol : option ProtocolVersion; database_id : option Z;
  async_push_sender : option Arc; cp_tcp_settings : TcpSettings; async_dns_resolver : option Arc;
  cp_cache_manager : option CacheConfig; credentials_provider : option Arc;
  overall_response_timeout : option Duration; connection_concurrency_limit : option Z;
  write_backpressure_boundary : option Z; node_address_map : option (gmap NodeAddress NodeAddress);
  max_connection_attempts : option Z
}.

Inductive OverallResponseTimeout := MatchResponseTimeout | Explicit (d : option Duration).

Record BuilderParams := {
  bp_password : option bytes; bp_username : option bytes; bp_read_routing_factory : option (unit -> S);
  bp_tls : option TlsMode; bp_certs : option TlsCertificates;
  bp_danger_accept_invalid_hostnames : bool; retries_configuration : RetryParams;
  bp_connection_timeout : option Duration; bp_response_timeout : option Duration;
  bp_protocol : option ProtocolVersion; bp_database_id : option Z; bp_async_push_sender : option Arc;
  bp_tcp_settings : TcpSettings; bp_async_dns_resolver : option Arc;
  bp_cache_config : option CacheConfig; bp_credentials_provider : option Arc;
  bp_overall_response_timeout : OverallResponseTimeout; bp_connection_concurrency_limit : option Z;
  bp_write_backpressure_boundary : option Z;
  bp_node_address_map : option (gmap NodeAddress NodeAddress); bp_max_connection_attempts : option Z
}.
Definition BuilderParams_default : BuilderParams :=
  {| bp_password := None; bp_username := None; bp_read_routing_factory := None; bp_tls := None;
     bp_certs := None; bp_danger_accept_invalid_hostnames := false;
     retries_configuration := RetryParams_default; bp_connection_timeout := None;
     bp_response_timeout := None; bp_protocol := None; bp_database_id := None;
     bp_async_push_sender := None; bp_tcp_settings := TcpSettings_default;
     bp_async_dns_resolver := None; bp_cache_config := None; bp_credentials_provider := None;
     bp_overall_response_timeout := MatchResponseTimeout; bp_connection_concurrency_limit := None;
     bp_write_backpressure_boundary := None; bp_node_address_map := None;
     bp_max_connection_attempts := None |}.
End params.
Arguments ClusterParams : clear implicits.
Arguments BuilderParams : clear implicits.

Section client.
Context {S : Type}.

Definition DEFAULT_CONNECTION_TIMEOUT : option Duration := Some 1000000000.

(** [ClusterParams::from]: the parameters with the certificates that were retrieved. *)
Definition params_with_tls (value : BuilderParams S) (tls_params : option TlsConnParams) : ClusterParams S :=
  {| cp_password := bp_password value; cp_username := bp_username value;
     read_routing_factory := bp_read_routing_factory value; cp_tls := bp_tls value;
     retry_params := retries_configuration value; tls_params := tls_params;
     connection_timeout := default (default 0 DEFAULT_CONNECTION_TIMEOUT) (bp_connection_timeout value);
     response_timeout := bp_response_timeout value; cp_protocol := bp_protocol value;
     database_id := bp_database_id value; async_push_sender := bp_async_push_sender value;
     cp_tcp_settings := bp_tcp_settings value; async_dns_resolver := bp_async_dns_resolver value;
     cp_cache_manager := bp_cache_config value; credentials_provider := bp_credentials_provider value;
     overall_response_timeout :=
       match bp_overall_response_timeout value with
       | MatchResponseTimeout => bp_response_timeout value
       | Explicit d => d
       end;
     connection_concurrency_limit := bp_connection_concurrency_limit value;
     write_backpressure_boundary := bp_write_backpressure_boundary value;
     node_address_map := bp_node_address_map value;
     max_connection_attempts := bp_max_connection_attempts value |}.

(** The certificates of the builder, if any, and the flag about host names. *)
Definition builder_tls_params `{Pem} (value : BuilderParams S) : result RedisError (option TlsConnParams) :=
  retrieved ← transpose retrieve_tls_certificates (bp_certs value);
  Ok (if bp_danger_accept_invalid_hostnames value
      then Some (with_danger true
             (default {| client_tls_params := None; root_cert_store := None;
                         danger_accept_invalid_hostnames := false |} retrieved))
      else retrieved).
Definition ClusterParams_from `{Pem} (value : BuilderParams S) : result RedisError (ClusterParams S) :=
  tls_params ← builder_tls_params value;
  Ok (params_with_tls value tls_params).

(** [ClusterConfig], the options of a single connection. *)
Record ClusterConfig := {
  cfg_connection_timeout : option Duration; cfg_response_timeout : option Duration;
  cfg_async_push_sender : option Arc; cfg_async_dns_resolver : option Arc
}.
Definition ClusterConfig_new : ClusterConfig :=
  {| cfg_connection_timeout := None; cfg_response_timeout := None; cfg_async_push_sender := None;
     cfg_async_dns_resolver := None |}.
Definition cfg_set_connection_timeout (c : ClusterConfig) (v : Duration) : ClusterConfig :=
  {| cfg_connection_timeout := Some v; cfg_response_timeout := cfg_response_timeout c;
     cfg_async_push_sender := cfg_async_push_sender c;
     cfg_async_dns_resolver := cfg_async_dns_resolver c |}.
Definition cfg_set_response_timeout (c : ClusterConfig) (v : Duration) : ClusterConfig :=
  {| cfg_connection_timeout := cfg_connection_timeout c; cfg_response_timeout := Some v;
     cfg_async_push_sender := cfg_async_push_sender c;
     cfg_async_dns_resolver := cfg_async_dns_resolver c |}.
Definition cfg_set_push_sender (c : ClusterConfig) (v : Arc) : ClusterConfig :=
  {| cfg_connection_timeout := cfg_connection_timeout c;
     cfg_response_timeout := cfg_response_timeout c; cfg_async_push_sender := Some v;
     cfg_async_dns_resolver := cfg_async_dns_resolver c |}.
Definition cfg_set_dns_resolver (c : ClusterConfig) (v : Arc) : ClusterConfig :=
  {| cfg_connection_timeout := cfg_connection_timeout c;
     cfg_response_timeout := cfg_response_timeout c; cfg_async_push_sender := cfg_async_push_sender c;
     cfg_async_dns_resolver := Some v |}.

Definition with_config (p : ClusterParams S) (c : ClusterConfig) : ClusterParams S :=
  {| cp_password := cp_password p; cp_username := cp_username p;
     read_routing_factory := read_routing_factory p; cp_tls := cp_tls p;
     retry_params := retry_params p; tls_params := tls_params p;
     connection_timeout := default (connection_timeout p) (cfg_connection_timeout c);
     response_timeout := cfg_response_timeout c; cp_protocol := cp_protocol p;
     database_id := database_id p; async_push_sender := cfg_async_push_sender c ∪ async_push_sender p;
     cp_tcp_settings := cp_tcp_settings p;
     async_dns_resolver := cfg_async_dns_resolver c ∪ async_dns_resolver p;
     cp_cache_manager := cp_cache_manager p; credentials_provider := credentials_provider p;
     overall_response_timeout := overall_response_timeout p;
     connection_concurrency_limit := connection_concurrency_limit p;
     write_backpressure_boundary := write_backpressure_boundary p;
     node_address_map := node_address_map p; max_connection_attempts := max_connection_attempts p |}.

Record ClusterClientBuilder := {
  builder_nodes : result RedisError (list ConnectionInfo); builder_params : BuilderParams S
}.
Record ClusterClient := { client_nodes : list ConnectionInfo; client_params : ClusterParams S }.

Definition ClusterClientBuilder_new (nodes : list (result RedisError ConnectionInfo))
    : ClusterClientBuilder :=
  {| builder_nodes := collect_results nodes; builder_params := BuilderParams_default |}.

Definition with_inherited (p : ClusterParams S) (password username : option bytes)
    (tls : option TlsMode) (protocol : option ProtocolVersion) (db : option Z) : ClusterParams S :=
  {| cp_password := password; cp_username := username; read_routing_factory := read_routing_factory p;
     cp_tls := tls; retry_params := retry_params p; tls_params := tls_params p;
     connection_timeout := connection_timeout p; response_timeout := response_timeout p;
     cp_protocol := protocol; database_id := db; async_push_sender := async_push_sender p;
     cp_tcp_settings := cp_tcp_settings p; async_dns_resolver := async_dns_resolver p;
     cp_cache_manager := cp_cache_manager p; credentials_provider := credentials_provider p;
     overall_response_timeout := overall_response_timeout p;
     connection_concurrency_limit := connection_concurrency_limit p;
     write_backpressure_boundary := write_backpressure_boundary p;
     node_address_map := node_address_map p; max_connection_attempts := max_connection_attempts p |}.

(** The setting that was not given, taken from the first node, and what the nodes
    are then compared with. *)
Definition inherit {A} (given first : option A) : option A * option A :=
  match given with None => (first, first) | Some _ => (given, None) end.

Definition is_unix (a : ConnectionAddr) : bool := match a with Unix _ => true | _ => false end.
(** The body of the loop over the initial nodes. *)
Definition check_node (password username : option bytes) (protocol : option ProtocolVersion)
    (db : Z) (tls : option TlsMode) (node : ConnectionInfo) : result RedisError unit :=
  let r := redis_settings node in
  if is_unix (addr node) then
    invalid_config "This library cannot use unix socket because Redis's cluster command returns only cluster's IP and port."
  else if bool_decide (is_Some password) && bool_decide (info_password r <> password) then
    invalid_config "Cannot use different password among initial nodes."
  else if bool_decide (is_Some username) && bool_decide (info_username r <> username) then
    invalid_config "Cannot use different username among initial nodes."
  else if bool_decide (is_Some protocol) && bool_decide (Some (info_protocol r) <> protocol) then
    invalid_config "Cannot use different protocol among initial nodes."
  else if bool_decide (info_db r <> 0) && bool_decide (info_db r <> db) then
    invalid_config "Cannot use different database among initial nodes."
  else if bool_decide (is_Some tls) && bool_decide (tls_mode (addr node) <> tls) then
    invalid_config "Cannot use different TLS modes among initial nodes."
  else Ok ().

Fixpoint check_nodes (check : ConnectionInfo -> result RedisError unit) (nodes : list ConnectionInfo)
    : result RedisError unit :=
  match nodes with [] => Ok () | n :: nodes => _ ← check n; check_nodes check nodes end.

Definition build `{Pem} (b : ClusterClientBuilder) : result RedisError ClusterClient :=
  initial_nodes ← builder_nodes b;
  match initial_nodes with
  | [] => invalid_config "Initial nodes can't be empty."
  | first_node :: _ =>
      p ← ClusterParams_from (builder_params b);
      let first := redis_settings first_node in
      let '(cp_pw, password) := inherit (cp_password p) (info_password first) in
      let '(cp_user, username) := inherit (cp_username p) (info_username first) in
      let '(cp_mode, tls) := inherit (cp_tls p) (tls_mode (addr first_node)) in
      let '(cp_proto, protocol) := inherit (cp_protocol p) (Some (info_protocol first)) in
      let db := default (info_db first) (database_id p) in
      _ ← check_nodes (check_node password username protocol db tls) initial_nodes;
      Ok {| client_nodes := initial_nodes;
            client_params := with_inherited p cp_pw cp_user cp_mode cp_proto (Some db) |}
  end.

(** ** Connections to nodes *)

Definition get_connection_addr (h : bytes) (p : Z) (tls : option TlsMode) (tls_params : option TlsConnParams)
    : ConnectionAddr :=
  match tls with
  | Some Secure => TcpTls h p false tls_params
  | Some Insecure => TcpTls h p true tls_params
  | None => Tcp h p
  end.

Definition get_connection_info (node : NodeAddress) (p : ClusterParams S) : ConnectionInfo :=
  let a := default node (m ← node_address_map p; m !! node) in
  {| addr := get_connection_addr (host a) (port a) (cp_tls p) (tls_params p);
     redis_settings :=
       {| info_db := default 0 (database_id p); info_username := cp_username p;
          info_password := cp_password p; info_protocol := default RESP2 (cp_protocol p);
          skip_set_lib_name := false; lib_name := None; lib_ver := None |};
     tcp_settings := cp_tcp_settings p |}.
End client.
Arguments ClusterClient : clear implicits.
Arguments ClusterClientBuilder : clear implicits.

(** [TryFrom<&ConnectionAddr> for NodeAddress]. *)
Definition NodeAddress_of_addr (a : ConnectionAddr) : result RedisError NodeAddress :=
  match a with
  | Tcp h p => Ok (NodeAddress_new h p)
  | TcpTls h p _ _ => Ok (NodeAddress_new h p)
  | Unix _ => Err (redis_error_of InvalidClientConfig "Unix sockets are not supported in cluster mode")
  end.

Definition slot_cmd : Cmd := write_arg (write_arg Cmd_new (bs "CLUSTER")) (bs "SLOTS").

(** ** The waiting time *)

Lemma u64_op_total `{BuildProfile} x : (overflow_checks = true -> 0 <= x <= u64_max) ->
  exists y, u64_op x = Some y /\ 0 <= y <= u64_max /\ (0 <= x <= u64_max -> y = x).
Proof.
  intros Hx. unfold u64_op. case_bool_decide as Hr; [by exists x|].
  destruct overflow_checks; [by destruct Hr; auto|]. eexists. split_and!; [done|..|done].
  all: pose proof (Z.mod_pos_bound x (2 ^ 64) ltac:(lia)); unfold u64_max in *; lia.
Qed.

Lemma wait_upper_bounds `{BuildProfile} base_wait min_wait max_wait : 0 <= min_wait < u64_max ->
  exists upper, cluster_retry_wait_upper_ms base_wait min_wait max_wait = Some upper /\
    min_wait < upper <= Z.max (min_wait + 1) max_wait /\ upper <= Z.max (min_wait + 1) base_wait.
Proof.
  intros Hm. unfold cluster_retry_wait_upper_ms, u64_op.
  rewrite bool_decide_eq_true_2 by lia. simpl. eexists. split; [done|].
  unfold u64_saturating_add. case_match; lia.
Qed.

(** The time waited before a retry is at least the minimal wait and below the
    maximal one (equal to the minimum when the maximum is not above it), and the
    computation does not panic: with overflow checks as long as the exponential
    fits in 64 bits, without them always. *)
Theorem wait_time_in_bounds `{BuildProfile} `{RandRange} (r : RetryParams) (retry : Z) (g : rng) :
  0 <= min_wait_time r < u64_max -> 0 <= exponent_base r -> 0 <= factor r ->
  (overflow_checks = true ->
    exponent_base r ^ retry <= u64_max /\ exponent_base r ^ retry * factor r <= u64_max) ->
  exists t g', wait_time_for_retry r retry g = Some (t, g') /\
    min_wait_time r <= t <= Z.max (min_wait_time r) (max_wait_time r - 1).
Proof.
  intros Hmin Hb Hf Hfit. unfold wait_time_for_retry.
  pose proof (Z.pow_nonneg (exponent_base r) retry Hb) as Hp.
  destruct (u64_op_total (exponent_base r ^ retry)) as (power & -> & Hpow & Hexact);
    [intros Hc; destruct (Hfit Hc); lia|]. simpl.
  destruct (u64_op_total (power * factor r)) as (base & -> & _).
  { intros Hc. destruct (Hfit Hc). rewrite Hexact by lia. nia. } simpl.
  destruct (wait_upper_bounds base _ (max_wait_time r) Hmin) as (upper & -> & Hu & _). simpl.
  destruct (random_range_nonempty (min_wait_time r) upper g) as (t & g' & Ht); [lia|].
  exists t, g'. split; [done|]. apply random_range_bounds in Ht. lia.
Qed.

(** A generator that always draws the lower bound. *)
#[local] Program Instance lowest : Rand := {|
  rng := unit; choose := fun A l g => (head l, g)
|}.
Next Obligation. intros A [|x l] g a g'; simpl; intros [= <-]. left. Qed.
Next Obligation. intros A [|x l] g Hl; [done|]. by exists x, g. Qed.
#[local] Program Instance lowest_range : RandRange := {|
  random_range := fun lo hi g => if lo <? hi then Some (lo, g) else None
|}.
Next Obligation. intros lo hi g x g'. simpl. case_match; intros [= <-]; lia. Qed.
Next Obligation. intros lo hi g Hl. simpl. apply Z.ltb_lt in Hl as ->. eauto. Qed.
Next Obligation. intros lo hi g Hl. simpl. apply Z.ltb_ge in Hl as ->. done. Qed.

Lemma wait_time_in_bounds_witness : exists t g',
  @wait_time_for_retry true _ lowest_range RetryParams_default 16 () = Some (t, g') /\
  1280 <= t <= 655359.
Proof.
  destruct (@wait_time_in_bounds true _ lowest_range RetryParams_default 16 ()) as (t & g' & H1 & H2);
    [done..|]. exists t, g'. split; [exact H1|exact H2].
Defined.

(** Whenever a time is drawn, it is within the bounds. *)
Lemma wait_time_drawn `{BuildProfile} `{RandRange} (r : RetryParams) (retry : Z) (g g' : rng) t :
  0 <= min_wait_time r <= u64_max -> max_wait_time r <= u64_max ->
  wait_time_for_retry r retry g = Some (t, g') ->
  min_wait_time r <= t <= Z.max (min_wait_time r) (max_wait_time r - 1).
Proof.
  intros Hmin Hmax. unfold wait_time_for_retry.
  destruct (u64_op (exponent_base r ^ retry)) as [power|]; [simpl|done].
  destruct (u64_op (power * factor r)) as [base|]; [simpl|done].
  destruct (decide (min_wait_time r < u64_max)) as [Hlt|Hge].
  - destruct (wait_upper_bounds base (min_wait_time r) (max_wait_time r)) as (upper & -> & Hu & _); [lia|].
    intros Ht%random_range_bounds. lia.
  - unfold cluster_retry_wait_upper_ms, u64_saturating_add. destruct (u64_op _) as [next|]; [simpl|done].
    intros Ht%random_range_bounds. case_match; lia.
Qed.

(** With the largest minimal wait the range is empty and the call panics, with
    overflow checks already in [min_wait + 1]. *)
Lemma wait_time_empty_range `{BuildProfile} `{RandRange} (r : RetryParams) (retry : Z) (g : rng) :
  min_wait_time r = u64_max -> max_wait_time r <= u64_max -> wait_time_for_retry r retry g = None.
Proof.
  intros Hm Hx. unfold wait_time_for_retry.
  destruct (u64_op (exponent_base r ^ retry)) as [power|]; [simpl|done].
  destruct (u64_op (power * factor r)) as [base|]; [simpl|done].
  unfold cluster_retry_wait_upper_ms, u64_op at 1. rewrite bool_decide_eq_false_2 by lia.
  destruct overflow_checks; [done|]. simpl. rewrite Hm.
  destruct (Z.leb_spec (Z.min (Z.max base ((u64_max + 1) `mod` 2 ^ 64)) (max_wait_time r)) u64_max); [|lia].
  apply random_range_empty. unfold u64_saturating_add. lia.
Qed.

(** ** The checks of [build] *)

Section build.
Context {S : Type} `{Pem}.
Implicit Types (b : ClusterClientBuilder S) (p : BuilderParams S).

(** A setting of a node that has to agree with that of the first node, because
    the builder was not given it and the first node has one. *)
Definition matches {A} (given first here : option A) : Prop :=
  given = None -> is_Some first -> here = first.

Definition consistent p (first node : ConnectionInfo) : Prop :=
  let f := redis_settings first in
  let r := redis_settings node in
  is_unix (addr node) = false /\
  matches (bp_password p) (info_password f) (info_password r) /\
  matches (bp_username p) (info_username f) (info_username r) /\
  matches (bp_protocol p) (Some (info_protocol f)) (Some (info_protocol r)) /\
  (info_db r = 0 \/ info_db r = default (info_db f) (bp_database_id p)) /\
  matches (bp_tls p) (tls_mode (addr first)) (tls_mode (addr node)).

Lemma inherit_check {A} `{EqDecision A} (given first here : option A) :
  bool_decide (is_Some (inherit given first).2) && bool_decide (here <> (inherit given first).2) = false <->
  matches given first here.
Proof.
  unfold matches, inherit. rewrite andb_false_iff, !bool_decide_eq_false.
  destruct given; simpl; [rewrite is_Some_alt; naive_solver|].
  destruct (decide (here = first)); [naive_solver|].
  destruct first; rewrite ?is_Some_alt; naive_solver.
Qed.
Lemma inherit_fst {A} (given first : option A) : (inherit given first).1 = given ∪ first.
Proof. by destruct given, first. Qed.

Lemma check_nodes_spec (P : ConnectionInfo -> Prop) check nodes :
  (forall n, match check n with Ok _ => P n | Err e => kind e = InvalidClientConfig /\ ~ P n end) ->
  match check_nodes check nodes with
  | Ok _ => Forall P nodes
  | Err e => kind e = InvalidClientConfig /\ ~ Forall P nodes
  end.
Proof.
  intros Hc. induction nodes as [|n nodes IH]; simpl; [constructor|]. specialize (Hc n).
  destruct (check n) as [[]|e]; simpl.
  - destruct (check_nodes check nodes); [by constructor|]. destruct IH as [? HF]. split; [done|].
    intros HF'. apply HF. by inversion HF'.
  - destruct Hc as [? HP]. split; [done|]. intros HF. apply HP. by inversion HF.
Qed.

Lemma check_node_spec p first node :
  match check_node (inherit (bp_password p) (info_password (redis_settings first))).2
          (inherit (bp_username p) (info_username (redis_settings first))).2
          (inherit (bp_protocol p) (Some (info_protocol (redis_settings first)))).2
          (default (info_db (redis_settings first)) (bp_database_id p))
          (inherit (bp_tls p) (tls_mode (addr first))).2 node with
  | Ok _ => consistent p first node
  | Err e => kind e = InvalidClientConfig /\ ~ consistent p first node
  end.
Proof.
  unfold check_node, consistent. destruct (is_unix (addr node)); [split; naive_solver|].
  repeat (match goal with |- context [if ?c then _ else _] => destruct c eqn:? end;
    [split; [done|]; intros (_ & H1 & H2 & H3 & H4 & H5);
     first [apply inherit_check in H1; congruence|apply inherit_check in H2; congruence
           |apply inherit_check in H3; congruence|apply inherit_check in H5; congruence
           |rewrite andb_true_iff, !bool_decide_eq_true in *; naive_solver]|]).
  split_and!; [done|by apply inherit_check..| |by apply inherit_check].
  match goal with H : bool_decide (_ <> 0) && _ = false |- _ =>
    rewrite andb_false_iff, !bool_decide_eq_false in H; destruct H as [H|H]; apply dec_stable in H; auto
  end.
Qed.

(** [build] accepts the initial nodes exactly if none is a unix socket, every
    setting the builder was not given and the first node has is the same for all
    of them, and no node names another database; otherwise it reports a
    configuration error, or the error of the certificates.  Every connection of the
    client then uses the given settings, or else those of the first node, and the
    certificates of the builder. *)
Theorem build_checks_nodes b first rest :
  builder_nodes b = Ok (first :: rest) ->
  let p := builder_params b in
  match build b with
  | Err e =>
      builder_tls_params p = Err e \/
      kind e = InvalidClientConfig /\ ~ Forall (consistent p first) (first :: rest)
  | Ok c =>
      Forall (consistent p first) (first :: rest) /\ client_nodes c = first :: rest /\
      builder_tls_params p = Ok (tls_params (client_params c)) /\
      forall node,
        let i := redis_settings (get_connection_info node (client_params c)) in
        info_password i = bp_password p ∪ info_password (redis_settings first) /\
        info_username i = bp_username p ∪ info_username (redis_settings first) /\
        info_protocol i = default (info_protocol (redis_settings first)) (bp_protocol p) /\
        info_db i = default (info_db (redis_settings first)) (bp_database_id p) /\
        tls_mode (addr (get_connection_info node (client_params c))) =
          bp_tls p ∪ tls_mode (addr first)
  end.
Proof.
  intros Hn p. unfold build, ClusterParams_from. rewrite Hn. fold p. cbn [mbind result_bind].
  destruct (builder_tls_params p) as [t|e]; [|by left].
  cbn [mbind result_bind params_with_tls cp_password cp_username cp_tls cp_protocol database_id].
  pose proof (check_nodes_spec _ _ (first :: rest) (check_node_spec p first)) as Hc.
  pose proof (inherit_fst (bp_password p) (info_password (redis_settings first))) as F1.
  pose proof (inherit_fst (bp_username p) (info_username (redis_settings first))) as F2.
  pose proof (inherit_fst (bp_tls p) (tls_mode (addr first))) as F3.
  pose proof (inherit_fst (bp_protocol p) (Some (info_protocol (redis_settings first)))) as F4.
  destruct (inherit (bp_password p) _), (inherit (bp_username p) _), (inherit (bp_tls p) _),
    (inherit (bp_protocol p) _). cbn [fst snd] in *. subst.
  destruct (check_nodes _ _) as [[]|e]; cbn [mbind result_bind]; [|cbv beta iota; by right].
  split; [done|]. split; [done|]. split; [done|]. intros node. unfold get_connection_info. simpl.
  split_and!; [done|done|by destruct (bp_protocol p)|done|].
  by destruct (bp_tls p ∪ tls_mode (addr first)) as [[]|].
Qed.
End build.

Definition plain_node (h : string) (password : option bytes) : ConnectionInfo :=
  {| addr := Tcp (bs h) 6379; tcp_settings := TcpSettings_default;
     redis_settings := {| info_db := 0; info_username := None; info_password := password;
       info_protocol := RESP2; skip_set_lib_name := false; lib_name := None; lib_ver := None |} |}.

(** Without certificates nothing is parsed. *)
#[local] Instance no_pem : Pem := {|
  pem_slice_iter _ := []; private_key_from_pem _ := Err []; trust_anchor _ := false; anchor_error _ := []
|}.

(** The first node has a password and the second another one. *)
Lemma build_checks_nodes_witness :
  ~ Forall (consistent (S := unit) BuilderParams_default (plain_node "a" (Some (bs "x"))))
      [plain_node "a" (Some (bs "x")); plain_node "b" (Some (bs "y"))].
Proof.
  pose proof (build_checks_nodes (S := unit)
    (ClusterClientBuilder_new [Ok (plain_node "a" (Some (bs "x"))); Ok (plain_node "b" (Some (bs "y")))])
    (plain_node "a" (Some (bs "x"))) [plain_node "b" (Some (bs "y"))] eq_refl) as Hb.
  hnf in Hb. destruct Hb as [He|[_ He]]; [discriminate He|exact He].
Defined.

(** Only nodes behind one with a password are compared: when the first node has
    none, the password of another is accepted and never used. *)
Lemma later_password_ignored : exists c : ClusterClient unit,
  build (ClusterClientBuilder_new [Ok (plain_node "a" None); Ok (plain_node "b" (Some (bs "y")))]) = Ok c /\
  forall node, info_password (redis_settings (get_connection_info node (client_params c))) = None.
Proof. by eexists. Qed.
