(* ===== verification/ClusterBuilder.v ===== *)
(** * The builder of cluster clients

    The setters of [ClusterClientBuilder] in [cluster_handling/client.rs], one
    definition each.  Whatever calls are made and in whatever order, the parameters
    are described by the last value given for each of them; the one interaction is
    that certificates ask for TLS when no mode is chosen. *)

From S2P Require Import Prelude Text Float64 Combine Errors Types Parser Codec Cmd Convert Pipeline.
From S2P Require Import Slots Caching Effects Tls ConnInfo ClusterClient.
Local Open Scope Z_scope.

(** ** The setters of the builder *)

Section setters.
Context {S : Type}.
Implicit Types b : ClusterClientBuilder S.

Definition on_params b (f : BuilderParams S -> BuilderParams S) : ClusterClientBuilder S :=
  {| builder_nodes := builder_nodes b; builder_params := f (builder_params b) |}.

Definition builder_password b (v : bytes) : ClusterClientBuilder S :=
  on_params b (fun '(Build_BuilderParams pw us rf tl ce da rt ct rs pr db ps tc dn ca cr ov cl wb na ma) =>
    Build_BuilderParams (Some v) us rf tl ce da rt ct rs pr db ps tc dn ca cr ov cl wb na ma).
Definition builder_username b (v : bytes) : ClusterClientBuilder S :=
  on_params b (fun '(Build_BuilderParams pw us rf tl ce da rt ct rs pr db ps tc dn ca cr ov cl wb na ma) =>
    Build_BuilderParams pw (Some v) rf tl ce da rt ct rs pr db ps tc dn ca cr ov cl wb na ma).
Definition builder_tls b (v : TlsMode) : ClusterClientBuilder S :=
  on_params b (fun '(Build_BuilderParams pw us rf tl ce da rt ct rs pr db ps tc dn ca cr ov cl wb na ma) =>
    Build_BuilderParams pw us rf (Some v) ce da rt ct rs pr db ps tc dn ca cr ov cl wb na ma).
Definition builder_danger_accept_invalid_hostnames b (v : bool) : ClusterClientBuilder S :=
  on_params b (fun '(Build_BuilderParams pw us rf tl ce da rt ct rs pr db ps tc dn ca cr ov cl wb na ma) =>
    Build_BuilderParams pw us rf tl ce v rt ct rs pr db ps tc dn ca cr ov cl wb na ma).
Definition builder_read_routing_strategy b (v : unit -> S) : ClusterClientBuilder S :=
  on_params b (fun '(Build_BuilderParams pw us rf tl ce da rt ct rs pr db ps tc dn ca cr ov cl wb na ma) =>
    Build_BuilderParams pw us (Some v) tl ce da rt ct rs pr db ps tc dn ca cr ov cl wb na ma).
Definition builder_connection_timeout b (v : Duration) : ClusterClientBuilder S :=
  on_params b (fun '(Build_BuilderParams pw us rf tl ce da rt ct rs pr db ps tc dn ca cr ov cl wb na ma) =>
    Build_BuilderParams pw us rf tl ce da rt (Some v) rs pr db ps tc dn ca cr ov cl wb na ma).
Definition builder_response_timeout b (v : Duration) : ClusterClientBuilder S :=
  on_params b (fun '(Build_BuilderParams pw us rf tl ce da rt ct rs pr db ps tc dn ca cr ov cl wb na ma) =>
    Build_BuilderParams pw us rf tl ce da rt ct (Some v) pr db ps tc dn ca cr ov cl wb na ma).
Definition builder_overall_response_timeout b (v : option Duration) : ClusterClientBuilder S :=
  on_params b (fun '(Build_BuilderParams pw us rf tl ce da rt ct rs pr db ps tc dn ca cr ov cl wb na ma) =>
    Build_BuilderParams pw us rf tl ce da rt ct rs pr db ps tc dn ca cr (Explicit v) cl wb na ma).
Definition builder_use_protocol b (v : ProtocolVersion) : ClusterClientBuilder S :=
  on_params b (fun '(Build_BuilderParams pw us rf tl ce da rt ct rs pr db ps tc dn ca cr ov cl wb na ma) =>
    Build_BuilderParams pw us rf tl ce da rt ct rs (Some v) db ps tc dn ca cr ov cl wb na ma).
Definition builder_database_id b (v : Z) : ClusterClientBuilder S :=
  on_params b (fun '(Build_BuilderParams pw us rf tl ce da rt ct rs pr db ps tc dn ca cr ov cl wb na ma) =>
    Build_BuilderParams pw us rf tl ce da rt ct rs pr (Some v) ps tc dn ca cr ov cl wb na ma).
Definition builder_push_sender b (v : Arc) : ClusterClientBuilder S :=
  on_params b (fun '(Build_BuilderParams pw us rf tl ce da rt ct rs pr db ps tc dn ca cr ov cl wb na ma) =>
    Build_BuilderParams pw us rf tl ce da rt ct rs pr db (Some v) tc dn ca cr ov cl wb na ma).
Definition builder_tcp_settings b (v : TcpSettings) : ClusterClientBuilder S :=
  on_params b (fun '(Build_BuilderParams pw us rf tl ce da rt ct rs pr db ps tc dn ca cr ov cl wb na ma) =>
    Build_BuilderParams pw us rf tl ce da rt ct rs pr db ps v dn ca cr ov cl wb na ma).
Definition builder_node_address_map b (v : gmap NodeAddress NodeAddress) : ClusterClientBuilder S :=
  on_params b (fun '(Build_BuilderParams pw us rf tl ce da rt ct rs pr db ps tc dn ca cr ov cl wb na ma) =>
    Build_BuilderParams pw us rf tl ce da rt ct rs pr db ps tc dn ca cr ov cl wb (Some v) ma).
Definition builder_async_dns_resolver b (v : Arc) : ClusterClientBuilder S :=
  on_params b (fun '(Build_BuilderParams pw us rf tl ce da rt ct rs pr db ps tc dn ca cr ov cl wb na ma) =>
    Build_BuilderParams pw us rf tl ce da rt ct rs pr db ps tc (Some v) ca cr ov cl wb na ma).
Definition builder_cache_config b (v : CacheConfig) : ClusterClientBuilder S :=
  on_params b (fun '(Build_BuilderParams pw us rf tl ce da rt ct rs pr db ps tc dn ca cr ov cl wb na ma) =>
    Build_BuilderParams pw us rf tl ce da rt ct rs pr db ps tc dn (Some v) cr ov cl wb na ma).
Definition builder_connection_concurrency_limit b (v : Z) : ClusterClientBuilder S :=
  on_params b (fun '(Build_BuilderParams pw us rf tl ce da rt ct rs pr db ps tc dn ca cr ov cl wb na ma) =>
    Build_BuilderParams pw us rf tl ce da rt ct rs pr db ps tc dn ca cr ov (Some v) wb na ma).
Definition builder_write_backpressure_boundary b (v : Z) : ClusterClientBuilder S :=
  on_params b (fun '(Build_BuilderParams pw us rf tl ce da rt ct rs pr db ps tc dn ca cr ov cl wb na ma) =>
    Build_BuilderParams pw us rf tl ce da rt ct rs pr db ps tc dn ca cr ov cl (Some v) na ma).
Definition builder_set_credentials_provider b (v : Arc) : ClusterClientBuilder S :=
  on_params b (fun '(Build_BuilderParams pw us rf tl ce da rt ct rs pr db ps tc dn ca cr ov cl wb na ma) =>
    Build_BuilderParams pw us rf tl ce da rt ct rs pr db ps tc dn ca (Some v) ov cl wb na ma).
Definition builder_max_connection_attempts b (v : Z) : ClusterClientBuilder S :=
  on_params b (fun '(Build_BuilderParams pw us rf tl ce da rt ct rs pr db ps tc dn ca cr ov cl wb na ma) =>
    Build_BuilderParams pw us rf tl ce da rt ct rs pr db ps tc dn ca cr ov cl wb na (Some v)).
Definition with_retries (rt : RetryParams) (v : Z) : RetryParams :=
  {| number_of_retries := v; max_wait_time := max_wait_time rt; min_wait_time := min_wait_time rt; exponent_base := exponent_base rt; factor := factor rt |}.
Definition builder_retries b (v : Z) : ClusterClientBuilder S :=
  on_params b (fun '(Build_BuilderParams pw us rf tl ce da rt ct rs pr db ps tc dn ca cr ov cl wb na ma) =>
    Build_BuilderParams pw us rf tl ce da (with_retries rt v) ct rs pr db ps tc dn ca cr ov cl wb na ma).
Definition with_max_retry_wait (rt : RetryParams) (v : Z) : RetryParams :=
  {| number_of_retries := number_of_retries rt; max_wait_time := v; min_wait_time := min_wait_time rt; exponent_base := exponent_base rt; factor := factor rt |}.
Definition builder_max_retry_wait b (v : Z) : ClusterClientBuilder S :=
  on_params b (fun '(Build_BuilderParams pw us rf tl ce da rt ct rs pr db ps tc dn ca cr ov cl wb na ma) =>
    Build_BuilderParams pw us rf tl ce da (with_max_retry_wait rt v) ct rs pr db ps tc dn ca cr ov cl wb na ma).
Definition with_min_retry_wait (rt : RetryParams) (v : Z) : RetryParams :=
  {| number_of_retries := number_of_retries rt; max_wait_time := max_wait_time rt; min_wait_time := v; exponent_base := exponent_base rt; factor := factor rt |}.
Definition builder_min_retry_wait b (v : Z) : ClusterClientBuilder S :=
  on_params b (fun '(Build_BuilderParams pw us rf tl ce da rt ct rs pr db ps tc dn ca cr ov cl wb na ma) =>
    Build_BuilderParams pw us rf tl ce da (with_min_retry_wait rt v) ct rs pr db ps tc dn ca cr ov cl wb na ma).
Definition with_retry_wait_formula (rt : RetryParams) (factor_ base : Z) : RetryParams :=
  {| number_of_retries := number_of_retries rt; max_wait_time := max_wait_time rt; min_wait_time := min_wait_time rt; exponent_base := base; factor := factor_ |}.
Definition builder_retry_wait_formula b (factor_ base : Z) : ClusterClientBuilder S :=
  on_params b (fun '(Build_BuilderParams pw us rf tl ce da rt ct rs pr db ps tc dn ca cr ov cl wb na ma) =>
    Build_BuilderParams pw us rf tl ce da (with_retry_wait_formula rt factor_ base) ct rs pr db ps tc dn ca cr ov cl wb na ma).
(** [certs] asks for TLS when no mode was chosen before. *)
Definition builder_certs b (v : TlsCertificates) : ClusterClientBuilder S :=
  on_params b (fun '(Build_BuilderParams pw us rf tl ce da rt ct rs pr db ps tc dn ca cr ov cl wb na ma) =>
    Build_BuilderParams pw us rf (Some (default Secure tl)) (Some v) da rt ct rs pr db ps tc dn ca cr ov cl wb na ma).
(** [read_from_replicas], for the strategy that chooses a random replica. *)
Definition builder_read_from_replicas (random : unit -> S) b : ClusterClientBuilder S :=
  builder_read_routing_strategy b random.
End setters.

(** ** Calls in sequence *)

Section settings.
Context {S : Type} (random : unit -> S).

(** A call of a setter. *)
Inductive Setting :=
| SetPassword (v : bytes)
| SetUsername (v : bytes)
| SetTls (v : TlsMode)
| SetDangerAcceptInvalidHostnames (v : bool)
| SetReadRoutingStrategy (v : unit -> S)
| SetConnectionTimeout (v : Duration)
| SetResponseTimeout (v : Duration)
| SetOverallTimeout (v : option Duration)
| SetUseProtocol (v : ProtocolVersion)
| SetDatabaseId (v : Z)
| SetPushSender (v : Arc)
| SetTcpSettings (v : TcpSettings)
| SetNodeAddressMap (v : gmap NodeAddress NodeAddress)
| SetDnsResolver (v : Arc)
| SetCacheConfig (v : CacheConfig)
| SetConcurrencyLimit (v : Z)
| SetWriteBackpressureBoundary (v : Z)
| SetCredentialsProvider (v : Arc)
| SetMaxConnectionAttempts (v : Z)
| SetRetries (v : Z)
| SetMaxRetryWait (v : Z)
| SetMinRetryWait (v : Z)
| SetCerts (v : TlsCertificates)
| SetRetryWaitFormula (factor base : Z)
| SetReadFromReplicas.

Definition apply_setting (b : ClusterClientBuilder S) (s : Setting) : ClusterClientBuilder S :=
  match s with
  | SetPassword v => builder_password b v
  | SetUsername v => builder_username b v
  | SetTls v => builder_tls b v
  | SetDangerAcceptInvalidHostnames v => builder_danger_accept_invalid_hostnames b v
  | SetReadRoutingStrategy v => builder_read_routing_strategy b v
  | SetConnectionTimeout v => builder_connection_timeout b v
  | SetResponseTimeout v => builder_response_timeout b v
  | SetOverallTimeout v => builder_overall_response_timeout b v
  | SetUseProtocol v => builder_use_protocol b v
  | SetDatabaseId v => builder_database_id b v
  | SetPushSender v => builder_push_sender b v
  | SetTcpSettings v => builder_tcp_settings b v
  | SetNodeAddressMap v => builder_node_address_map b v
  | SetDnsResolver v => builder_async_dns_resolver b v
  | SetCacheConfig v => builder_cache_config b v
  | SetConcurrencyLimit v => builder_connection_concurrency_limit b v
  | SetWriteBackpressureBoundary v => builder_write_backpressure_boundary b v
  | SetCredentialsProvider v => builder_set_credentials_provider b v
  | SetMaxConnectionAttempts v => builder_max_connection_attempts b v
  | SetRetries v => builder_retries b v
  | SetMaxRetryWait v => builder_max_retry_wait b v
  | SetMinRetryWait v => builder_min_retry_wait b v
  | SetCerts v => builder_certs b v
  | SetRetryWaitFormula factor base => builder_retry_wait_formula b factor base
  | SetReadFromReplicas => builder_read_from_replicas random b
  end.

(** ** The last value of a setting *)

Definition last_of {A} (f : Setting -> option A) (l : list Setting) : option A := last (omap f l).

Lemma last_of_snoc {A} (f : Setting -> option A) l s :
  last_of f (l ++ [s]) = match f s with Some a => Some a | None => last_of f l end.
Proof.
  unfold last_of. rewrite omap_app. simpl. destruct (f s); [by rewrite last_snoc|by rewrite app_nil_r].
Qed.

Definition chosen_mode (s : Setting) : option TlsMode := match s with SetTls v => Some v | _ => None end.
Definition given_certs (s : Setting) : option TlsCertificates := match s with SetCerts v => Some v | _ => None end.
(** What the parameters are to be. *)
Definition settings_spec (l : list Setting) : BuilderParams S :=
  {| bp_password := last_of (fun s => match s with SetPassword v => Some v | _ => None end) l;
     bp_username := last_of (fun s => match s with SetUsername v => Some v | _ => None end) l;
     bp_read_routing_factory :=
       last_of (fun s => match s with SetReadRoutingStrategy v => Some v | SetReadFromReplicas => Some random | _ => None end) l;
     bp_tls := last_of chosen_mode l ∪ ((fun _ => Secure) <$> last_of given_certs l);
     bp_certs := last_of given_certs l;
     bp_danger_accept_invalid_hostnames :=
       default false (last_of (fun s => match s with SetDangerAcceptInvalidHostnames v => Some v | _ => None end) l);
     retries_configuration := {|
       number_of_retries := default 16 (last_of (fun s => match s with SetRetries v => Some v | _ => None end) l);
       max_wait_time := default 655360 (last_of (fun s => match s with SetMaxRetryWait v => Some v | _ => None end) l);
       min_wait_time := default 1280 (last_of (fun s => match s with SetMinRetryWait v => Some v | _ => None end) l);
       exponent_base := default 2 (last_of (fun s => match s with SetRetryWaitFormula _ b => Some b | _ => None end) l);
       factor := default 10 (last_of (fun s => match s with SetRetryWaitFormula f _ => Some f | _ => None end) l) |};
     bp_connection_timeout :=
       last_of (fun s => match s with SetConnectionTimeout v => Some v | _ => None end) l;
     bp_response_timeout :=
       last_of (fun s => match s with SetResponseTimeout v => Some v | _ => None end) l;
     bp_protocol := last_of (fun s => match s with SetUseProtocol v => Some v | _ => None end) l;
     bp_database_id := last_of (fun s => match s with SetDatabaseId v => Some v | _ => None end) l;
     bp_async_push_sender := last_of (fun s => match s with SetPushSender v => Some v | _ => None end) l;
     bp_tcp_settings :=
       default TcpSettings_default (last_of (fun s => match s with SetTcpSettings v => Some v | _ => None end) l);
     bp_async_dns_resolver := last_of (fun s => match s with SetDnsResolver v => Some v | _ => None end) l;
     bp_cache_config := last_of (fun s => match s with SetCacheConfig v => Some v | _ => None end) l;
     bp_credentials_provider :=
       last_of (fun s => match s with SetCredentialsProvider v => Some v | _ => None end) l;
     bp_overall_response_timeout := default MatchResponseTimeout
       (last_of (fun s => match s with SetOverallTimeout v => Some (Explicit v) | _ => None end) l);
     bp_connection_concurrency_limit :=
       last_of (fun s => match s with SetConcurrencyLimit v => Some v | _ => None end) l;
     bp_write_backpressure_boundary :=
       last_of (fun s => match s with SetWriteBackpressureBoundary v => Some v | _ => None end) l;
     bp_node_address_map :=
       last_of (fun s => match s with SetNodeAddressMap v => Some v | _ => None end) l;
     bp_max_connection_attempts :=
       last_of (fun s => match s with SetMaxConnectionAttempts v => Some v | _ => None end) l |}.

(** After any sequence of calls of the setters the builder holds, for every
    parameter, the value given last, or its default; the mode of TLS is the last one
    chosen or, when certificates were given and none was chosen, the secure one,
    whichever call came first. *)
Theorem builder_last_setting_wins nodes l :
  foldl apply_setting (ClusterClientBuilder_new nodes) l =
  {| builder_nodes := collect_results nodes; builder_params := settings_spec l |}.
Proof.
  induction l as [|s l IH] using rev_ind; [done|]. rewrite foldl_app, IH. simpl.
  unfold settings_spec. rewrite !last_of_snoc.
  destruct s; try reflexivity; by destruct (last_of chosen_mode l), (last_of given_certs l).
Qed.
End settings.
