(* ===== verification/ClusterSync.v ===== *)
(** * The synchronous cluster connection

    [cluster_handling/sync_connection/mod.rs]: one connection per node, the slot
    map that says which node answers a request, the loop of [request] that
    follows redirections, waits, reconnects and refreshes the slot map, requests
    to several nodes, and pipelines split by node.

    The node connections implement [Connect]; the [n]-th attempt to connect gives
    what [connect_to n] says, so a node may come and go;
    [Connection_connect] is the instance of the crate.  The maps and sets of the
    standard library are iterated in the order of [hash_order].  The two
    [RefCell]s matter in one place: [slots_borrowed] says that [slots] is mutably
    borrowed, and borrowing it again panics.  [thread::sleep] records the time
    slept.  The text of an error in the message of another is [ErrorDisplay]. *)

From S2P Require Import Prelude Text Float64 Combine Errors Types Parser Codec Cmd Convert Pipeline Slots Routing Effects ConnInfo Connection ClusterClient ClusterBuilder.
Local Open Scope Z_scope.

Class ErrorDisplay := error_display : RedisError -> bytes.

(** ** Requests and their outcome *)

Inductive Input :=
| Slice (cmd : bytes) (routable : Value)
| InputCmd (c : Cmd)
| Commands (cmd : bytes) (offset count : nat).

Inductive Output := Single (v : Value) | Multi (vs : list Value).

Definition value_of_output (o : Output) : Value :=
  match o with Single v => v | Multi vs => Array vs end.
Definition values_of_output (o : Output) : list Value :=
  match o with Single v => [v] | Multi vs => vs end.

#[export] Instance Routable_Input : Routable Input := {|
  r_arg_idx i idx :=
    match i with
    | Slice _ routable => r_arg_idx routable idx
    | InputCmd c => r_arg_idx c idx
    | Commands _ _ _ => Some None
    end;
  r_position i candidate :=
    match i with
    | Slice _ routable => r_position routable candidate
    | InputCmd c => r_position c candidate
    | Commands _ _ _ => None
    end;
  r_len i := match i with Slice _ routable => r_len routable | InputCmd c => r_len c | Commands _ _ _ => O end
|}.

(** [Input::send]. *)
Definition send_input {C} `{ConnectionLike C} (i : Input) : action C Output :=
  match i with
  | Slice cmd _ => v ← req_packed_command cmd; v ← lift (extract_error v); mret (Single v)
  | InputCmd c => v ← req_command c; v ← lift (extract_error v); mret (Single v)
  | Commands cmd offset count =>
      vs ← req_packed_commands cmd offset count;
      vs ← lift (extract_error_vec vs); mret (Multi vs)
  end.

(** The trait [Connect], with the rest of [ConnectionLike]. *)
Class Connect (C : Type) `{!ConnectionLike C} := {
  connect_to : nat -> ConnectionInfo -> Duration -> exec unit C;
  node_send_packed_command : bytes -> action C unit;
  node_recv_response : action C Value;
  node_set_read_timeout : option Duration -> action C unit;
  node_set_write_timeout : option Duration -> action C unit;
  node_check_connection : action C bool;
  node_is_open : C -> bool
}.

(** [impl Connect for Connection].  What the [n]-th socket will receive, and
    which of its writes fail, is given; the timeouts only decide which reads
    fail, which is part of that. *)
Class Sockets := open_socket : nat -> ConnectionInfo -> Duration ->
  result RedisError (list (result RedisError Value) * list (option io_ErrorKind)).
Definition set_socket_timeout (dur : option Duration) : action Connection unit :=
  if bool_decide (dur = Some 0) then fail (redis_error_of_io Io_Other) else mret ().
#[export] Instance Connection_connect `{BuildProfile} `{Sockets} `{CargoPkgVersion} `{F64Display} : Connect Connection := {|
  connect_to n i timeout :=
    match open_socket n i timeout with
    | Err e => Return (Err e) ()
    | Ok (incoming, writes) =>
        let c := fresh_connection (redis_settings i) incoming writes in
        match setup_connection (redis_settings i) None c with
        | Return (Ok _) c => Return (Ok c) ()
        | Return (Err e) _ => Return (Err e) ()
        | Waiting => Waiting
        | Panicked => Panicked
        end
    end;
  node_send_packed_command := send_packed_command;
  node_recv_response := recv_response;
  node_set_read_timeout := set_socket_timeout;
  node_set_write_timeout := set_socket_timeout;
  node_check_connection := check_connection;
  node_is_open := open
|}.

Section cluster.
Context `{BuildProfile} `{HashOrder} `{Crc16} `{RR : RandRange} `{ErrorDisplay} `{CO : Combine}.
Context {S : Type} `{!ReadRoutingStrategy S}.
Context {C : Type} `{CL : ConnectionLike C} `{CN : !Connect C}.

Record ClusterConnection := {
  initial_nodes : list ConnectionInfo;
  connections : gmap NodeAddress C;
  cluster_slots : SlotMap;
  slots_borrowed : bool;
  auto_reconnect : bool;
  read_timeout : option Duration;
  write_timeout : option Duration;
  routing_strategy : option S;
  cluster_params : ClusterParams S;
  attempts : nat;
  generator : rng;
  slept : list Z
}.

Definition with_connections (f : gmap NodeAddress C -> gmap NodeAddress C) (s : ClusterConnection) :=
  {| initial_nodes := initial_nodes s; connections := f (connections s);
     cluster_slots := cluster_slots s; slots_borrowed := slots_borrowed s;
     auto_reconnect := auto_reconnect s; read_timeout := read_timeout s;
     write_timeout := write_timeout s; routing_strategy := routing_strategy s;
     cluster_params := cluster_params s; attempts := attempts s; generator := generator s;
     slept := slept s |}.
Definition with_slots (m : SlotMap) (s : ClusterConnection) :=
  {| initial_nodes := initial_nodes s; connections := connections s;
     cluster_slots := m; slots_borrowed := slots_borrowed s;
     auto_reconnect := auto_reconnect s; read_timeout := read_timeout s;
     write_timeout := write_timeout s; routing_strategy := routing_strategy s;
     cluster_params := cluster_params s; attempts := attempts s; generator := generator s;
     slept := slept s |}.
Definition with_borrowed (b : bool) (s : ClusterConnection) :=
  {| initial_nodes := initial_nodes s; connections := connections s;
     cluster_slots := cluster_slots s; slots_borrowed := b;
     auto_reconnect := auto_reconnect s; read_timeout := read_timeout s;
     write_timeout := write_timeout s; routing_strategy := routing_strategy s;
     cluster_params := cluster_params s; attempts := attempts s; generator := generator s;
     slept := slept s |}.
Definition with_strategy (st : option S) (g : rng) (s : ClusterConnection) :=
  {| initial_nodes := initial_nodes s; connections := connections s;
     cluster_slots := cluster_slots s; slots_borrowed := slots_borrowed s;
     auto_reconnect := auto_reconnect s; read_timeout := read_timeout s;
     write_timeout := write_timeout s; routing_strategy := st;
     cluster_params := cluster_params s; attempts := attempts s; generator := g;
     slept := slept s |}.
Definition with_attempt (s : ClusterConnection) :=
  {| initial_nodes := initial_nodes s; connections := connections s;
     cluster_slots := cluster_slots s; slots_borrowed := slots_borrowed s;
     auto_reconnect := auto_reconnect s; read_timeout := read_timeout s;
     write_timeout := write_timeout s; routing_strategy := routing_strategy s;
     cluster_params := cluster_params s; attempts := Datatypes.S (attempts s);
     generator := generator s; slept := slept s |}.
Definition with_sleep (t : Z) (g : rng) (s : ClusterConnection) :=
  {| initial_nodes := initial_nodes s; connections := connections s;
     cluster_slots := cluster_slots s; slots_borrowed := slots_borrowed s;
     auto_reconnect := auto_reconnect s; read_timeout := read_timeout s;
     write_timeout := write_timeout s; routing_strategy := routing_strategy s;
     cluster_params := cluster_params s; attempts := attempts s; generator := g;
     slept := slept s ++ [t] |}.
Definition with_timeouts (r w : option Duration) (s : ClusterConnection) :=
  {| initial_nodes := initial_nodes s; connections := connections s;
     cluster_slots := cluster_slots s; slots_borrowed := slots_borrowed s;
     auto_reconnect := auto_reconnect s; read_timeout := r; write_timeout := w;
     routing_strategy := routing_strategy s; cluster_params := cluster_params s;
     attempts := attempts s; generator := generator s; slept := slept s |}.
Definition set_auto_reconnect (b : bool) (s : ClusterConnection) :=
  {| initial_nodes := initial_nodes s; connections := connections s;
     cluster_slots := cluster_slots s; slots_borrowed := slots_borrowed s;
     auto_reconnect := b; read_timeout := read_timeout s; write_timeout := write_timeout s;
     routing_strategy := routing_strategy s; cluster_params := cluster_params s;
     attempts := attempts s; generator := generator s; slept := slept s |}.

Notation cluster := (action ClusterConnection).

(** ** Node connections *)

(** An operation on a connection that is not in the map yet. *)
Definition on_new {A} (c : C) (m : action C A) : cluster (A * C) := fun s =>
  match m c with
  | Return (Ok a) c => Return (Ok (a, c)) s
  | Return (Err e) _ => Return (Err e) s
  | Waiting => Waiting
  | Panicked => Panicked
  end.

(** An operation on the connection to a node of the map. *)
Definition on_node {A} (a : NodeAddress) (m : action C A) : cluster A := fun s =>
  match connections s !! a with
  | None => Panicked
  | Some c =>
      match m c with
      | Return r c => Return r (with_connections (insert a c) s)
      | Waiting => Waiting
      | Panicked => Panicked
      end
  end.

(** What is sent on a new connection, and its timeouts. *)
Definition prepare_connection (params : ClusterParams S) (read write : option Duration) : action C unit :=
  _ ← Cmd_exec (cmd (if read_routing_factory params then "READONLY" else "PING"));
  _ ← node_set_read_timeout read;
  node_set_write_timeout write.

Definition connect (node : NodeAddress) : cluster C :=
  s ← gets id;
  let params := cluster_params s in
  _ ← modify with_attempt;
  conn ← match connect_to (attempts s) (get_connection_info node params) (connection_timeout params) with
         | Return r _ => lift r
         | Waiting => wait
         | Panicked => panic
         end;
  '(_, conn) ← on_new conn (prepare_connection params (read_timeout s) (write_timeout s));
  mret conn.

(** [if let Ok(mut conn) = self.connect(addr) && conn.check_connection()]. *)
Definition connect_and_check (node : NodeAddress) : cluster (option C) :=
  r ← attempt (connect node);
  match r with
  | Err _ => mret None
  | Ok conn => '(ok, conn) ← on_new conn node_check_connection;
               mret (if ok : bool then Some conn else None)
  end.
(** ... followed by the insertion into the map. *)
Definition reconnect (node : NodeAddress) : cluster unit :=
  c ← connect_and_check node;
  match c with Some conn => modify (with_connections (insert node conn)) | None => mret () end.

Definition get_connection_by_addr (node : NodeAddress) : cluster unit :=
  conns ← gets connections;
  match conns !! node with
  | Some _ => mret ()
  | None => conn ← connect node; modify (with_connections (insert node conn))
  end.

(** [SlotMap::slot_addr_for_route] with the strategy of the connection. *)
Definition node_for_route (route : Route) : cluster (option NodeAddress) :=
  s ← gets id;
  if slots_borrowed s then panic
  else match slot_addr_for_route (cluster_slots s) route (routing_strategy s) (generator s) with
       | None => mret None
       | Some (a, st, g) => _ ← modify (with_strategy st g); a ← or_panic a; mret (Some a)
       end.

Definition get_random_connection : cluster (option NodeAddress) :=
  s ← gets id;
  let '(a, g) := choose (hash_order (map_to_list (connections s)).*1) (generator s) in
  _ ← modify (with_strategy (routing_strategy s) g);
  mret a.

Definition no_connections : RedisError := redis_error_of ClusterConnectionNotFound "No connections found".
Definition get_random_connection_or_error : cluster (NodeAddress * result RedisError unit) :=
  a ← get_random_connection;
  mret match a with
       | Some a => (a, Ok ())
       | None => (NodeAddress_new [] 0, Err no_connections)
       end.

(** The address and whether there is a connection to it. *)
Definition get_connection (route : Route) : cluster (NodeAddress * result RedisError unit) :=
  a ← node_for_route route;
  match a with
  | Some a => r ← attempt (get_connection_by_addr a); mret (a, r)
  | None => get_random_connection_or_error
  end.

(** [Slot::new_random]. *)
Definition Slot_new_random : cluster Slot :=
  g ← gets generator;
  '(n, g) ← or_panic (random_range 0 SLOT_SIZE g);
  st ← gets routing_strategy;
  _ ← modify (with_strategy st g);
  mret {| slot_number := n |}.
Definition Route_new_random_primary : cluster Route :=
  slot ← Slot_new_random; mret (Route_with_slot slot Master).

(** ** Topology *)

(** The derived order of [NodeAddress]: hosts byte by byte, then ports. *)
Fixpoint bytes_le (a b : bytes) : bool :=
  match a, b with
  | [], _ => true
  | _ :: _, [] => false
  | x :: a, y :: b =>
      (byte_Z x <? byte_Z y) || ((byte_Z x =? byte_Z y) && bytes_le a b)
  end.
Definition node_le (a b : NodeAddress) : bool :=
  if bool_decide (host a = host b) then port a <=? port b else bytes_le (host a) (host b).
Fixpoint insert_sorted (a : NodeAddress) (l : list NodeAddress) : list NodeAddress :=
  match l with
  | [] => [a]
  | b :: r => if node_le a b then a :: l else b :: insert_sorted a r
  end.
(** [sort_unstable]. *)
Definition sort_nodes (l : list NodeAddress) : list NodeAddress := foldr insert_sorted [] l.
(** [Vec::dedup]. *)
Fixpoint dedup (l : list NodeAddress) : list NodeAddress :=
  match l with
  | a :: r => match r with
              | b :: _ => if bool_decide (a = b) then dedup r else a :: dedup r
              | [] => [a]
              end
  | [] => []
  end.

(** The loop of [create_new_slots]. *)
Fixpoint query_slots (nodes : list NodeAddress) : cluster (option SlotMap) :=
  match nodes with
  | [] => mret None
  | a :: nodes =>
      value ← on_node a (req_command slot_cmd);
      match parse_slots value (host a) with
      | Ok slots_data => mret (Some (from_slots slots_data))
      | Err _ => query_slots nodes
      end
  end.
Definition create_new_slots : cluster SlotMap :=
  conns ← gets connections;
  new_slots ← query_slots (hash_order (map_to_list conns).*1);
  match new_slots with
  | Some m => mret m
  | None => fail (redis_error_of Client "Slot refresh error. didn't get any slots from server")
  end.

(** The closure of the [filter_map] over the nodes of the new slot map. *)
Fixpoint renew_connections (nodes : list NodeAddress) (old new : gmap NodeAddress C)
    : cluster (gmap NodeAddress C) :=
  match nodes with
  | [] => mret new
  | a :: nodes =>
      kept ← match old !! a with
             | Some conn => '(ok, conn) ← on_new conn node_check_connection;
                            mret (if ok : bool then Some conn else None)
             | None => mret None
             end;
      let old := delete a old in
      conn ← match kept with Some conn => mret (Some conn) | None => connect_and_check a end;
      renew_connections nodes old (match conn with Some conn => <[a:=conn]> new | None => new end)
  end.

Definition refresh_slots : cluster unit :=
  borrowed ← gets slots_borrowed;
  if borrowed : bool then panic
  else
    slots ← create_new_slots;
    _ ← modify (with_slots slots);
    s ← gets id;
    _ ← modify (with_strategy (strategy_topology_changed (topology slots) <$> routing_strategy s)
                  (generator s));
    let nodes := dedup (sort_nodes (concat (map SlotAddrs_into_iter (SlotMap_values slots)))) in
    conns ← gets connections;
    new ← renew_connections nodes conns ∅;
    modify (with_connections (fun _ => new)).

(** The loop over the initial nodes: the first that answers, or what failed. *)
Fixpoint first_connection (nodes : list ConnectionInfo) (failed : list (NodeAddress * RedisError))
    : cluster (option (NodeAddress * C) * list (NodeAddress * RedisError)) :=
  match nodes with
  | [] => mret (None, failed)
  | info :: nodes =>
      a ← lift (NodeAddress_of_addr (addr info));
      r ← attempt (connect a);
      match r with
      | Ok conn =>
          '(ok, conn) ← on_new conn node_check_connection;
          if ok : bool then mret (Some (a, conn), failed)
          else first_connection nodes
                 (failed ++ [(a, redis_error_of Io "Node failed to respond to connection check,")])
      | Err e => first_connection nodes (failed ++ [(a, e)])
      end
  end.

Definition failed_detail (failed : list (NodeAddress * RedisError)) : bytes :=
  match failed with
  | [] => bs "List of initial nodes is empty"
  | _ => bs "Failed to connect to each cluster node (" ++
         concat (imap (fun i '(a, e) =>
           (if (i =? 0)%nat then [] else bs "; ") ++ NodeAddress_display a ++ bs ": " ++ error_display e)
           failed) ++ bs ")"
  end.

Definition create_initial_connections : cluster unit :=
  nodes ← gets initial_nodes;
  '(found, failed) ← first_connection nodes [];
  match found with
  | None => fail (redis_error_of_detail Io "It failed to check startup nodes." (failed_detail failed))
  | Some (a, conn) => _ ← modify (with_connections (fun _ => {[a := conn]})); refresh_slots
  end.

(** The connection before [create_initial_connections]. *)
Definition empty_cluster (params : ClusterParams S) (nodes : list ConnectionInfo) (g : rng)
    : ClusterConnection :=
  {| initial_nodes := nodes; connections := ∅; cluster_slots := SlotMap_new; slots_borrowed := false;
     auto_reconnect := true; read_timeout := response_timeout params; write_timeout := None;
     routing_strategy := (fun f => f ()) <$> read_routing_factory params;
     cluster_params := params; attempts := 0; generator := g; slept := [] |}.
Definition ClusterConnection_new (params : ClusterParams S) (nodes : list ConnectionInfo) (g : rng)
    : exec ClusterConnection unit :=
  create_initial_connections (empty_cluster params nodes g).

(** ** Requests to one node *)

Definition ASKING : bytes := bs "*1" ++ CRLF ++ bs "$6" ++ CRLF ++ bs "ASKING" ++ CRLF.

(** The target of a request: its address, and whether there is a connection. *)
Definition redirect_target (r : Redirect) : cluster (NodeAddress * result RedisError unit) :=
  let '(a, is_asking) := match r with Routing.Moved a => (a, false) | Routing.Ask a => (a, true) end in
  conn ← attempt (get_connection_by_addr a);
  match conn with
  | Ok _ =>
      if is_asking : bool
      then r ← attempt (v ← on_node a (req_packed_command ASKING); _ ← lift (extract_error v); mret ());
           mret (a, r)
      else mret (a, Ok ())
  | Err e => mret (a, Err e)
  end.

Definition route_target (routing : SingleNodeRoutingInfo) : cluster (NodeAddress * result RedisError unit) :=
  match routing with
  | Random => get_random_connection_or_error
  | SpecificNode route => get_connection route
  | ByAddress h p =>
      let a := NodeAddress_new h p in r ← attempt (get_connection_by_addr a); mret (a, r)
  | RandomPrimary => route ← Route_new_random_primary; get_connection route
  end.

(** The first block of the loop: send the request to its target. *)
Definition try_request (input : Input) (routing : SingleNodeRoutingInfo) (redirected : option Redirect)
    : cluster (NodeAddress * result RedisError Output) :=
  '(a, conn) ← match redirected with
               | Some r => redirect_target r
               | None => route_target routing
               end;
  match conn with
  | Ok _ => rv ← attempt (on_node a (send_input input)); mret (a, rv)
  | Err e => mret (a, Err e)
  end.

Fixpoint reconnect_initial (nodes : list ConnectionInfo) : cluster unit :=
  match nodes with
  | [] => mret ()
  | node :: nodes =>
      a ← lift (NodeAddress_of_addr (addr node)); _ ← reconnect a; reconnect_initial nodes
  end.

(** Without any connection left, those to the initial nodes are made again. *)
Definition recover (err : RedisError) : cluster unit :=
  auto ← gets auto_reconnect;
  if bool_decide (kind err = ClusterConnectionNotFound) && (auto : bool)
  then nodes ← gets initial_nodes; _ ← reconnect_initial nodes; refresh_slots
  else mret ().

Definition sleep_before_retry (retries : Z) : cluster unit :=
  s ← gets id;
  '(t, g) ← or_panic (wait_time_for_retry (retry_params (cluster_params s)) retries (generator s));
  modify (with_sleep t g).

Definition redirected_to (f : NodeAddress -> Redirect) (err : RedisError) : option Redirect :=
  '(node, _) ← redirect_node err; f <$> to_option (NodeAddress_try_from node).

(** What is done before the next attempt: [None] gives up, [Some r] goes on,
    redirected as [r] says. *)
Definition prepare_retry (a : NodeAddress) (err : RedisError) (retries : Z)
    : cluster (option (option Redirect)) :=
  match retry_method err with
  | AskRedirect => mret (Some (redirected_to Routing.Ask err))
  | MovedRedirect => _ ← refresh_slots; mret (Some (redirected_to Routing.Moved err))
  | WaitAndRetry => _ ← sleep_before_retry retries; mret (Some None)
  | RefreshSlotsAndRetry => _ ← sleep_before_retry retries; _ ← refresh_slots; mret (Some None)
  | Reconnect =>
      auto ← gets auto_reconnect;
      _ ← (if auto : bool then _ ← modify (with_connections (delete a)); reconnect a else mret ());
      mret (Some None)
  | NoRetry => mret None
  | RetryImmediately => mret (Some None)
  | ReconnectFromInitialConnections =>
      auto ← gets auto_reconnect;
      _ ← (if auto : bool then reconnect a else mret ());
      mret (Some None)
  end.

(** The loop of [request]: [remaining] is [number_of_retries - retries]. *)
Fixpoint request_loop (remaining : nat) (input : Input) (routing : SingleNodeRoutingInfo)
    (redirected : option Redirect) : cluster Output :=
  '(a, rv) ← try_request input routing redirected;
  match rv with
  | Ok rv => mret rv
  | Err err =>
      _ ← recover err;
      match remaining with
      | O => fail err
      | Datatypes.S remaining =>
          params ← gets cluster_params;
          next ← prepare_retry a err (number_of_retries (retry_params params) - Z.of_nat remaining);
          match next with
          | None => fail err
          | Some redirected => request_loop remaining input routing redirected
          end
      end
  end.
Definition request_single (input : Input) (routing : SingleNodeRoutingInfo) : cluster Output :=
  params ← gets cluster_params;
  request_loop (Z.to_nat (number_of_retries (retry_params params))) input routing None.

(** ** Requests to several nodes *)

Fixpoint execute_each (input : Input) (addresses : list NodeAddress)
    : cluster (list (result RedisError (NodeAddress * Value))) :=
  match addresses with
  | [] => mret []
  | a :: addresses =>
      r ← attempt (request_single input (ByAddress (host a) (port a)));
      rest ← execute_each input addresses;
      mret (((fun res => (a, value_of_output res)) <$> r) :: rest)
  end.
(** [execute_on_all]; the addresses are a [HashSet]. *)
Definition execute_on_all (input : Input) (addresses : list NodeAddress)
    : cluster (list (result RedisError (NodeAddress * Value))) :=
  execute_each input (hash_order addresses).

(** [execute_multi_slot]: the addresses are drawn one by one, each before the
    request to it is made; [slots] is borrowed by the caller. *)
Definition multi_slot_request (input : Input) (route : Route) (indices : list nat)
    : cluster (NodeAddress * Value) :=
  s ← gets id;
  match slot_addr_for_route (cluster_slots s) route (routing_strategy s) (generator s) with
  | None => fail (redis_error_of Io "Couldn't find connection")
  | Some (a, st, g) =>
      _ ← modify (with_strategy st g);
      a ← or_panic a;
      _ ← get_connection_by_addr a;
      c ← or_panic (command_for_multi_slot_indices input indices);
      res ← on_node a (req_command c);
      mret (a, res)
  end.
Fixpoint execute_multi_slot (input : Input) (routes : list (Route * list nat))
    : cluster (list (result RedisError (NodeAddress * Value))) :=
  match routes with
  | [] => mret []
  | (route, indices) :: routes =>
      r ← attempt (multi_slot_request input route indices);
      rest ← execute_multi_slot input routes;
      mret (r :: rest)
  end.

Definition no_connection_found : RedisError := redis_error_of Io "Couldn't find a connection".
Fixpoint one_succeeded (results : list (result RedisError (NodeAddress * Value)))
    (last_failure : option RedisError) : result RedisError Value :=
  match results with
  | [] => Err (default no_connection_found last_failure)
  | Ok (_, v) :: _ => Ok v
  | Err e :: results => one_succeeded results (Some e)
  end.
(** [nils] is [nil_counter == num_of_results] so far. *)
Fixpoint first_non_empty (results : list (result RedisError (NodeAddress * Value)))
    (nils : bool) (last_failure : option RedisError) : result RedisError Value :=
  match results with
  | [] => if nils then Ok Nil else Err (default no_connection_found last_failure)
  | Ok (_, Nil) :: results => first_non_empty results nils last_failure
  | Ok (_, v) :: _ => Ok v
  | Err e :: results => first_non_empty results false (Some e)
  end.

(** The second half of [execute_on_multiple_nodes]. *)
Definition aggregate_results (routing : MultipleNodeRoutingInfo) (policy : option ResponsePolicy)
    (results : list (result RedisError (NodeAddress * Value))) : option (result RedisError Value) :=
  let values := collect_results (map (fun r => snd <$> r) results) in
  match policy with
  | Some AllSucceeded =>
      Some (rs ← collect_results results;
            ok_or (snd <$> last rs)
              (redis_error_of ClusterConnectionNotFound "No results received for multi-node operation"))
  | Some OneSucceeded => Some (one_succeeded results None)
  | Some CombineMaps => match values with Err e => Some (Err e) | Ok vs => combine_map_results vs end
  | Some FirstSucceededNonEmptyOrAllEmpty => Some (first_non_empty results true None)
  | Some (Aggregate op) => match values with Err e => Some (Err e) | Ok vs => aggregate vs op end
  | Some (AggregateLogical op) =>
      match values with Err e => Some (Err e) | Ok vs => logical_aggregate vs op end
  | Some CombineArrays =>
      match values with
      | Err e => Some (Err e)
      | Ok vs =>
          match routing with
          | MultiSlot routes pattern => combine_and_sort_array_results vs routes pattern
          | _ => Some (combine_array_results vs)
          end
      end
  | Some Special | None =>
      Some (rs ← collect_results results;
            Ok (Map (map (fun '(a, v) => (BulkString (NodeAddress_display a), v)) rs)))
  end.

Definition execute_on_multiple_nodes (input : Input) (routing : MultipleNodeRoutingInfo)
    (policy : option ResponsePolicy) : cluster Value :=
  s ← gets id;
  if slots_borrowed s then panic
  else
    _ ← modify (with_borrowed true);
    results ← match routing with
              | MultiSlot routes _ => execute_multi_slot input routes
              | AllMasters => execute_on_all input (addresses_for_all_primaries (cluster_slots s))
              | AllNodes => execute_on_all input (addresses_for_all_nodes (cluster_slots s))
              end;
    _ ← modify (with_borrowed false);
    r ← or_panic (aggregate_results routing policy results);
    lift r.

Definition request (input : Input) (route_option : option RoutingInfo) : cluster Output :=
  match route_option with
  | Some (SingleNode routing) => request_single input routing
  | Some (MultiNode routing policy) =>
      v ← execute_on_multiple_nodes input routing policy; mret (Single v)
  | None => fail (redis_error_of UNROUTABLE_ERROR.1 UNROUTABLE_ERROR.2)
  end.

Definition route_command (c : Cmd) (routing : RoutingInfo) : cluster Value :=
  o ← request (InputCmd c) (Some routing); mret (value_of_output o).

(** ** Pipelines *)

Record NodeCmd := { indexes : list nat; pipe : bytes; nc_addr : NodeAddress }.
Definition NodeCmd_new (a : NodeAddress) : NodeCmd := {| indexes := []; pipe := []; nc_addr := a |}.

Definition addr_for_slot (route : Route) : cluster NodeAddress :=
  a ← node_for_route route;
  match a with Some a => mret a | None => fail (redis_error_of Client "Missing slot coverage") end.

Definition get_addr_for_cmd (c : Cmd) : cluster NodeAddress :=
  info ← or_panic (for_routable c);
  match info with
  | Some (SingleNode Random) => slot ← Slot_new_random; addr_for_slot (Route_with_slot slot Master)
  | Some (SingleNode (SpecificNode route)) => addr_for_slot route
  | _ => fail (redis_error_of UNROUTABLE_ERROR.1 UNROUTABLE_ERROR.2)
  end.

Definition push_cmd (idx : nat) (c : Cmd) (nc : NodeCmd) : NodeCmd :=
  {| indexes := indexes nc ++ [idx]; pipe := write_packed_command c (pipe nc); nc_addr := nc_addr nc |}.
(** [cmd_map.entry(addr).or_insert_with(..)], then the command is added. *)
Fixpoint add_cmd (a : NodeAddress) (idx : nat) (c : Cmd) (m : list NodeCmd) : list NodeCmd :=
  match m with
  | [] => [push_cmd idx c (NodeCmd_new a)]
  | nc :: m => if bool_decide (nc_addr nc = a) then push_cmd idx c nc :: m else nc :: add_cmd a idx c m
  end.
Fixpoint map_cmds (idx : nat) (cmds : list Cmd) (cmd_map : list NodeCmd) : cluster (list NodeCmd) :=
  match cmds with
  | [] => mret cmd_map
  | c :: cmds => a ← get_addr_for_cmd c; map_cmds (Datatypes.S idx) cmds (add_cmd a idx c cmd_map)
  end.
Definition map_cmds_to_nodes (cmds : list Cmd) : cluster (list NodeCmd) :=
  m ← map_cmds 0 cmds []; mret (hash_order m).

Fixpoint send_each (ncs : list NodeCmd) : cluster unit :=
  match ncs with
  | [] => mret ()
  | nc :: ncs =>
      _ ← get_connection_by_addr (nc_addr nc);
      _ ← on_node (nc_addr nc) (node_send_packed_command (pipe nc));
      send_each ncs
  end.
Definition send_all_commands (cmds : list Cmd) : cluster (list NodeCmd) :=
  node_cmds ← map_cmds_to_nodes cmds; _ ← send_each node_cmds; mret node_cmds.

(** The replies so far, what is to be retried, and the first error. *)
Record received := { results : list Value; to_retry : list nat; recv_err : option RedisError }.
Definition store_reply (idx : nat) (r : result RedisError Value) (x : received) : received :=
  match r with
  | Ok item => {| results := <[idx:=item]> (results x); to_retry := to_retry x; recv_err := recv_err x |}
  | Err err =>
      if is_cluster_error err
      then {| results := results x; to_retry := to_retry x ++ [idx]; recv_err := recv_err x |}
      else {| results := results x; to_retry := to_retry x;
              recv_err := match recv_err x with Some e => Some e | None => Some err end |}
  end.
Fixpoint recv_each (todo : list (NodeAddress * nat)) (x : received) : cluster received :=
  match todo with
  | [] => mret x
  | (a, idx) :: todo =>
      _ ← get_connection_by_addr a;
      r ← attempt (on_node a node_recv_response);
      recv_each todo (store_reply idx r x)
  end.
(** [recv_all_commands]: the results and what is to be retried. *)
Definition recv_all_commands (rs : list Value) (node_cmds : list NodeCmd)
    : cluster (list Value * list nat) :=
  x ← recv_each (concat (map (fun nc => map (pair (nc_addr nc)) (indexes nc)) node_cmds))
        {| results := rs; to_retry := []; recv_err := None |};
  match recv_err x with Some e => fail e | None => mret (results x, to_retry x) end.

Fixpoint retry_each (cmds : list Cmd) (todo : list nat) (rs : list Value) : cluster (list Value) :=
  match todo with
  | [] => mret rs
  | idx :: todo =>
      c ← or_panic (cmds !! idx);
      routing ← or_panic (for_routable c);
      o ← request (InputCmd c) routing;
      retry_each cmds todo (<[idx:=value_of_output o]> rs)
  end.
Definition send_recv_and_retry_cmds (cmds : list Cmd) : cluster (list Value) :=
  node_cmds ← send_all_commands cmds;
  '(rs, todo) ← recv_all_commands (replicate (length cmds) Nil) node_cmds;
  match todo with
  | [] => mret rs
  | _ => _ ← refresh_slots; retry_each cmds todo rs
  end.
Definition execute_pipeline (p : Pipeline) : cluster (list Value) := send_recv_and_retry_cmds (commands p).

(** ** [ConnectionLike] *)

Definition MULTI : bytes := bs "*1" ++ CRLF ++ bs "$5" ++ CRLF ++ bs "MULTI" ++ CRLF.
Definition without_multi (cmd : bytes) : bytes :=
  if starts_with MULTI cmd then drop (length MULTI) cmd else cmd.

Definition cluster_req_command (c : Cmd) : cluster Value :=
  if Cmd_is_empty c then fail make_empty_command
  else routing ← or_panic (for_routable c);
       o ← request (InputCmd c) routing; mret (value_of_output o).

Definition cluster_req_packed_command (cmd : bytes) : cluster Value :=
  match cmd with
  | [] => fail make_empty_command
  | _ =>
      value ← lift (parse_redis_value (without_multi cmd));
      routing ← or_panic (for_routable value);
      o ← request (Slice cmd value) routing; mret (value_of_output o)
  end.

Definition cluster_req_packed_commands (cmd : bytes) (offset count : nat) : cluster (list Value) :=
  match cmd with
  | [] => fail make_empty_command
  | _ =>
      value ← lift (parse_redis_value (without_multi cmd));
      routing ← or_panic (for_routable value);
      let route := match routing with Some (SingleNode r) => r | _ => Random end in
      o ← request (Commands cmd offset count) (Some (SingleNode route));
      mret (values_of_output o)
  end.

#[export] Instance Cluster_like : ConnectionLike ClusterConnection := {|
  req_packed_command := cluster_req_packed_command;
  req_packed_commands := cluster_req_packed_commands;
  req_command := cluster_req_command;
  supports_pipelining _ := false
|}.

Definition cluster_is_open (s : ClusterConnection) : bool :=
  forallb (fun p => node_is_open p.2) (map_to_list (connections s)).
Fixpoint check_each (nodes : list NodeAddress) : cluster bool :=
  match nodes with
  | [] => mret true
  | a :: nodes => ok ← on_node a node_check_connection; if ok : bool then check_each nodes else mret false
  end.
Definition cluster_check_connection : cluster bool :=
  conns ← gets connections; check_each (hash_order (map_to_list conns).*1).

Fixpoint set_each (m : action C unit) (nodes : list NodeAddress) : cluster unit :=
  match nodes with [] => mret () | a :: nodes => _ ← on_node a m; set_each m nodes end.
Definition set_timeout (update : ClusterConnection -> ClusterConnection) (m : action C unit)
    (dur : option Duration) : cluster unit :=
  if bool_decide (dur = Some 0)
  then fail (redis_error_of InvalidClientConfig "Duration should be None or non-zero.")
  else _ ← modify update;
       conns ← gets connections; set_each m (hash_order (map_to_list conns).*1).
Definition cluster_set_write_timeout (dur : option Duration) : cluster unit :=
  set_timeout (fun s => with_timeouts (read_timeout s) dur s) (node_set_write_timeout dur) dur.
Definition cluster_set_read_timeout (dur : option Duration) : cluster unit :=
  set_timeout (fun s => with_timeouts dur (write_timeout s) s) (node_set_read_timeout dur) dur.
End cluster.
Arguments ClusterConnection {H2} S C : rename.

(** ** A cluster in good order *)

(** The nodes of a cluster are up and agree on the assignment of slots.  What a
    connection to a node is, is left open ([serves]). *)
Section healthy.
Context `{BuildProfile} `{HO : HashOrder} `{Crc16} `{RR : RandRange}.
Context {S : Type} `{RS : !ReadRoutingStrategy S} `{RL : !ReadRoutingStrategyLaws S}.
Context {C : Type} `{CL : ConnectionLike C} `{CN : !Connect C}.
Implicit Types (s : ClusterConnection S C).
Context (params : ClusterParams S) (node : NodeAddress -> Prop) (serves : NodeAddress -> C -> Prop)
  (ranges : list SlotRange).

(** The operation succeeds on a connection to [a] and leaves it in service. *)
Definition serving {A} (m : action C A) (P : A -> Prop) : Prop :=
  forall a c, node a -> serves a c -> exists r c', m c = Return (Ok r) c' /\ P r /\ serves a c'.

Record healthy_nodes : Prop := {
  connects n a : node a -> exists c,
    connect_to n (get_connection_info a params) (connection_timeout params) = Return (Ok c) () /\ serves a c;
  greets read write : serving (prepare_connection params read write) (fun _ => True);
  checks : serving node_check_connection (fun ok => ok = true);
  answers_slots a c : node a -> serves a c -> exists v c',
    req_command slot_cmd c = Return (Ok v) c' /\ serves a c' /\ parse_slots v (host a) = Ok ranges;
  ranges_apart : no_overlap (map range_of ranges);
  ranges_nodes : Forall (fun r => Forall node (master r :: range_replicas r)) ranges
}.
Hypothesis healthy : healthy_nodes.

(** A cluster connection whose node connections are in service, and whether its
    slot map is borrowed. *)
Record in_service_as (borrowed : bool) (s : ClusterConnection S C) : Prop := {
  same_params : cluster_params s = params;
  borrowed_as : slots_borrowed s = borrowed;
  all_serve : map_Forall (fun a c => node a /\ serves a c) (connections s)
}.
Notation in_service := (in_service_as false).

Lemma connect_opens a s : node a -> cluster_params s = params -> exists c,
  connect a s = Return (Ok c) (with_attempt s) /\ serves a c.
Proof.
  intros Ha Hp. unfold connect. run_state. unfold id. rewrite Hp.
  destruct (connects healthy (attempts s) a Ha) as (c & -> & Hc). run_state.
  destruct (greets healthy (read_timeout s) (write_timeout s) a c Ha Hc) as ([] & c' & Hg & _ & Hc').
  exists c'. unfold mbind, action_bind, on_new. by rewrite Hg.
Qed.
Lemma connect_serves b a s : node a -> in_service_as b s -> exists c s',
  connect a s = Return (Ok c) s' /\ serves a c /\ in_service_as b s' /\
  connections s' = connections s /\ cluster_slots s' = cluster_slots s.
Proof.
  intros Ha Hs. destruct (connect_opens a s Ha (same_params _ s Hs)) as (c & E & Hc).
  exists c, (with_attempt s). split_and!; [done..|split; apply Hs|done|done].
Qed.

Lemma connect_and_check_serves a s : node a -> in_service s -> exists c s',
  connect_and_check a s = Return (Ok (Some c)) s' /\ serves a c /\ in_service s' /\
  connections s' = connections s /\ cluster_slots s' = cluster_slots s.
Proof.
  intros Ha Hs. destruct (connect_serves _ a s Ha Hs) as (c & s1 & Hc & Hc1 & Hs1 & Hk & Hm).
  destruct (checks healthy a c Ha Hc1) as (ok & c2 & Hk2 & -> & Hc2).
  exists c2, s1. unfold connect_and_check. rewrite (bind_attempt _ _ _ _ _ Hc).
  unfold mbind, action_bind, on_new. rewrite Hk2. done.
Qed.

Lemma in_service_insert b a c s : node a -> serves a c -> in_service_as b s ->
  in_service_as b (with_connections (insert a c) s).
Proof. intros Ha Hc [Hp Hb Hs]. split; [done..|]. simpl. by apply map_Forall_insert_2. Qed.

Lemma get_connection_serves b a s : node a -> in_service_as b s -> exists s' c,
  get_connection_by_addr a s = Return (Ok ()) s' /\ in_service_as b s' /\
  connections s' !! a = Some c /\ serves a c /\ cluster_slots s' = cluster_slots s.
Proof.
  intros Ha Hs. unfold get_connection_by_addr. run_state. destruct (connections s !! a) as [c|] eqn:E.
  - exists s, c. split_and!; try done. by apply (all_serve _ s Hs a c E).
  - destruct (connect_serves _ a s Ha Hs) as (c & s1 & Hc & Hc1 & Hs1 & Hk & Hm).
    rewrite (bind_ok _ _ _ _ _ Hc). exists (with_connections (insert a c) s1), c.
    split_and!; [done|by apply in_service_insert| |done|done]. simpl. by rewrite lookup_insert_eq.
Qed.

(** An operation that a node in service answers. *)
Lemma on_node_serves {A} b (m : action C A) a c r c' s : node a -> in_service_as b s ->
  connections s !! a = Some c -> m c = Return r c' -> serves a c' ->
  exists s', on_node a m s = Return r s' /\ in_service_as b s' /\ connections s' = <[a:=c']> (connections s) /\
    cluster_slots s' = cluster_slots s.
Proof.
  intros Ha Hs Hl Hm Hc'. unfold on_node. rewrite Hl, Hm. eexists. split; [done|].
  by split; [apply in_service_insert|].
Qed.

Lemma create_new_slots_serves s : in_service s -> connections s <> ∅ -> exists s',
  create_new_slots s = Return (Ok (from_slots ranges)) s' /\ in_service s' /\
  dom (connections s') = dom (connections s).
Proof.
  intros Hs Hne. unfold create_new_slots. run_state.
  assert (exists a rest, hash_order (map_to_list (connections s)).*1 = a :: rest /\
    a ∈ dom (connections s)) as (a & rest & -> & Hin).
  { pose proof (hash_order_perm (map_to_list (connections s)).*1) as Hp.
    destruct (hash_order _) as [|a rest].
    - apply Permutation_nil_l in Hp. symmetry in Hp. apply fmap_nil_inv, map_to_list_empty_iff in Hp. done.
    - exists a, rest. split; [done|]. rewrite elem_of_dom.
      assert (a ∈ (map_to_list (connections s)).*1) as Ha by (rewrite <- Hp; left).
      apply list_elem_of_fmap in Ha as ([a' c] & -> & Hac). apply elem_of_map_to_list in Hac. eauto. }
  apply elem_of_dom in Hin as [c Hc]. destruct (all_serve _ s Hs a c Hc) as [Ha Hserve].
  destruct (answers_slots healthy a c Ha Hserve) as (v & c' & Hv & Hc' & Hparse).
  destruct (on_node_serves false (req_command slot_cmd) a c (Ok v) c' s) as (s' & Hon & Hs' & Hk & _); [done..|].
  exists s'. cbn [query_slots]. split_and!; [|done|].
  - erewrite bind_ok; [|erewrite bind_ok by exact Hon; by rewrite Hparse]. done.
  - rewrite Hk, dom_insert_L. assert (a ∈ dom (connections s)) by (apply elem_of_dom; eauto). set_solver.
Qed.

Definition all_in_service (m : gmap NodeAddress C) : Prop := map_Forall (fun a c => node a /\ serves a c) m.

Lemma renew_serves nodes old new s : Forall node nodes -> all_in_service old -> all_in_service new ->
  in_service s -> exists new' s',
  renew_connections nodes old new s = Return (Ok new') s' /\ all_in_service new' /\ in_service s' /\
  cluster_slots s' = cluster_slots s /\ (forall a, a ∈ nodes \/ is_Some (new !! a) -> is_Some (new' !! a)).
Proof.
  revert old new s. induction nodes as [|a nodes IH]; intros old new s Hn Ho Hw Hs.
  { exists new, s. split_and!; try done. intros a [Ha|?]; [by apply not_elem_of_nil in Ha|done]. }
  apply Forall_cons in Hn as [Ha Hn]. cbn [renew_connections].
  assert (exists c s1, (kept ← match old !! a with
      | Some conn => '(ok, conn) ← on_new conn node_check_connection;
                     mret (if ok : bool then Some conn else None)
      | None => mret None end;
    match kept with Some conn => mret (Some conn) | None => connect_and_check a end) s =
      Return (Ok (Some c)) s1 /\ serves a c /\ in_service s1 /\ cluster_slots s1 = cluster_slots s)
    as (c & s1 & Hc & Hc1 & Hs1 & Hk1).
  { destruct (old !! a) as [c|] eqn:E.
    - destruct (checks healthy a c Ha (proj2 (Ho a c E))) as (ok & c2 & Hk2 & -> & Hc2).
      exists c2, s. unfold mbind, action_bind, on_new. rewrite Hk2. done.
    - destruct (connect_and_check_serves a s Ha Hs) as (c & s1 & Hc & ? & ? & _ & ?). exists c, s1. done. }
  destruct (IH (delete a old) (<[a:=c]> new) s1) as (new' & s' & Hr & Hw' & Hs' & Hk' & Hin); [done|..|done|].
  { by apply map_Forall_delete. }
  { by apply map_Forall_insert_2. }
  exists new', s'. split_and!; [|done|done|congruence|].
  - unfold mbind, action_bind in Hc |- *. repeat case_match; simplify_eq; done.
  - intros a' [[->|Ha']%elem_of_cons|[c' Hc']]; apply Hin; rewrite ?lookup_insert_eq; eauto.
    destruct (decide (a' = a)) as [->|]; rewrite ?lookup_insert_eq, ?lookup_insert_ne by done; eauto.
Qed.

Lemma insert_sorted_perm a l : insert_sorted a l ≡ₚ a :: l.
Proof.
  induction l as [|b l IH]; simpl; [done|]. destruct (node_le a b); [done|]. rewrite IH. apply perm_swap.
Qed.
Lemma sort_nodes_perm l : sort_nodes l ≡ₚ l.
Proof. induction l as [|a l IH]; simpl; [done|]. by rewrite insert_sorted_perm, IH. Qed.
Lemma dedup_elem l a : a ∈ dedup l <-> a ∈ l.
Proof.
  induction l as [|x [|y l] IH]; [done|done|]. cbn [dedup]. case_bool_decide as E; [subst|].
  - rewrite IH, !elem_of_cons. naive_solver.
  - by rewrite elem_of_cons, IH, (elem_of_cons (y :: l)).
Qed.

(** The nodes that get a connection after a refresh. *)
Definition slot_nodes (m : SlotMap) : list NodeAddress :=
  dedup (sort_nodes (concat (map SlotAddrs_into_iter (SlotMap_values m)))).

Lemma slot_nodes_elem m a : a ∈ slot_nodes m <->
  exists x, x ∈ SlotMap_values m /\ a ∈ SlotAddrs_into_iter x.
Proof.
  unfold slot_nodes. rewrite dedup_elem, sort_nodes_perm, elem_of_concat. split.
  - intros (l & Ha & (x & -> & Hx)%list_elem_of_fmap). eauto.
  - intros (x & Hx & Ha). exists (SlotAddrs_into_iter x). split; [done|]. by apply list_elem_of_fmap_2.
Qed.

(** All nodes of the slot map are nodes of the cluster. *)
Definition map_alive (m : SlotMap) : Prop :=
  forall x a, x ∈ SlotMap_values m -> a ∈ SlotAddrs_into_iter x -> node a.

Lemma from_slots_values x : x ∈ SlotMap_values (from_slots ranges) ->
  exists r, r ∈ ranges /\ x = SlotAddrs_from_slot r.
Proof.
  unfold SlotMap_values, srm_values. intros ((e & st & y) & -> & Hy)%list_elem_of_fmap.
  apply (from_slots_ok ranges (ranges_apart healthy)) in Hy as (r & Hr & _ & _ & ->). eauto.
Qed.
Lemma from_slots_alive : map_alive (from_slots ranges).
Proof.
  intros x a (r & Hr & ->)%from_slots_values Ha. pose proof (ranges_nodes healthy) as Hn.
  rewrite Forall_forall in Hn. specialize (Hn r Hr). rewrite Forall_forall in Hn. by apply Hn.
Qed.

Lemma refresh_serves s : in_service s -> connections s <> ∅ -> exists s',
  refresh_slots s = Return (Ok ()) s' /\ in_service s' /\ cluster_slots s' = from_slots ranges /\
  (forall a, a ∈ slot_nodes (from_slots ranges) -> is_Some (connections s' !! a)).
Proof.
  intros Hs Hne. unfold refresh_slots. run_state. rewrite (borrowed_as _ s Hs).
  destruct (create_new_slots_serves s Hs Hne) as (s1 & E1 & Hs1 & _).
  rewrite (bind_ok _ _ _ _ _ E1). run_state. fold (slot_nodes (from_slots ranges)).
  set (s2 := with_strategy _ _ _).
  assert (in_service s2) as Hs2 by (split; apply Hs1).
  destruct (renew_serves (slot_nodes (from_slots ranges)) (connections s2) ∅ s2)
    as (new & s3 & E3 & Hnew & Hs3 & Hk3 & Hin); [|apply Hs2|apply map_Forall_empty|done|].
  { apply Forall_forall. intros a (x & Hx & Ha)%slot_nodes_elem. by eapply from_slots_alive. }
  rewrite (bind_ok _ _ _ _ _ E3). eexists. split; [reflexivity|]. split_and!; [|simpl; by rewrite Hk3|].
  - split; [apply Hs3..|exact Hnew].
  - intros a Ha. apply Hin. by left.
Qed.


Lemma node_for_route_alive route s : in_service s -> map_alive (cluster_slots s) -> exists oa s',
  node_for_route route s = Return (Ok oa) s' /\ in_service s' /\ connections s' = connections s /\
  cluster_slots s' = cluster_slots s /\
  match oa with Some a => node a | None => srm_get (slots (cluster_slots s)) (route_slot route) = None end.
Proof.
  intros Hs Ha. unfold node_for_route, slot_addr_for_route. run_state. unfold id.
  rewrite (borrowed_as _ s Hs). destruct (srm_get _ _) as [x|] eqn:E; simpl.
  - destruct (slot_addr_chooses x (route_slot route) (route_slot_addr route) (routing_strategy s) (generator s))
      as (a & st & g & -> & Hin & _). run_state.
    eexists (Some a), (with_strategy st g s). split_and!; try done; [split; apply Hs|].
    eapply Ha; [|done]. by eapply srm_get_value.
  - by exists None, s.
Qed.

Lemma random_connection_serves s : in_service s -> connections s <> ∅ -> exists a c s',
  get_random_connection_or_error s = Return (Ok (a, Ok ())) s' /\ node a /\
  connections s' !! a = Some c /\ serves a c /\ in_service s' /\ cluster_slots s' = cluster_slots s.
Proof.
  intros Hs Hne. unfold get_random_connection_or_error, get_random_connection.
  set (l := hash_order (map_to_list (connections s)).*1).
  assert (l <> []) as Hl.
  { intros E. pose proof (hash_order_perm (map_to_list (connections s)).*1) as Hp. fold l in Hp. rewrite E in Hp.
    apply Permutation_nil_l in Hp. symmetry in Hp. by apply fmap_nil_inv, map_to_list_empty_iff in Hp. }
  destruct (choose_some l (generator s) Hl) as (a & g & E).
  assert (a ∈ l) as Ha by (by eapply choose_elem).
  unfold l in Ha. rewrite hash_order_perm in Ha.
  apply list_elem_of_fmap in Ha as ([a' c] & -> & Hac). apply elem_of_map_to_list in Hac.
  exists a', c, (with_strategy (routing_strategy s) g s).
  destruct (all_serve _ s Hs a' c Hac). split_and!; try done; [|split; apply Hs].
  unfold mbind, action_bind, gets, id. fold l. by rewrite E.
Qed.

Lemma get_connection_alive route s : in_service s -> map_alive (cluster_slots s) ->
  connections s <> ∅ -> exists a c s', get_connection route s = Return (Ok (a, Ok ())) s' /\ node a /\
  connections s' !! a = Some c /\ serves a c /\ in_service s' /\ cluster_slots s' = cluster_slots s.
Proof.
  intros Hs Ha Hne. unfold get_connection.
  destruct (node_for_route_alive route s Hs Ha) as (oa & s1 & E1 & Hs1 & Hk1 & Hm1 & Hoa).
  rewrite (bind_ok _ _ _ _ _ E1). destruct oa as [a|].
  - destruct (get_connection_serves _ a s1 Hoa Hs1) as (s2 & c & E2 & Hs2 & Hc2 & Hv2 & Hm2).
    exists a, c, s2. rewrite (bind_attempt _ _ _ _ _ E2). split_and!; try done. congruence.
  - destruct (random_connection_serves s1 Hs1) as (a & c & s2 & E2 & Hn & Hc2 & Hv2 & Hs2 & Hm2);
      [congruence|]. exists a, c, s2. split_and!; try done. congruence.
Qed.

(** Where a request may be sent: to a node of the cluster. *)
Definition target_alive (routing : SingleNodeRoutingInfo) : Prop :=
  match routing with ByAddress h p => node (NodeAddress_new h p) | _ => True end.

Lemma route_target_alive routing s : in_service s -> map_alive (cluster_slots s) ->
  connections s <> ∅ -> target_alive routing -> exists a c s',
  route_target routing s = Return (Ok (a, Ok ())) s' /\ node a /\
  connections s' !! a = Some c /\ serves a c /\ in_service s' /\ cluster_slots s' = cluster_slots s.
Proof.
  intros Hs Ha Hne Ht. destruct routing as [| |route|h p]; simpl.
  - by apply random_connection_serves.
  - destruct (random_range_nonempty 0 SLOT_SIZE (generator s)) as (n & g & En); [done|].
    set (s1 := with_strategy (routing_strategy s) g s).
    assert (in_service s1) as Hs1 by (split; apply Hs).
    destruct (get_connection_alive (Route_with_slot {| slot_number := n |} Master) s1) as (a & c & s2 & E2 & Hr);
      [done..|]. exists a, c, s2. split; [|done].
    unfold Route_new_random_primary, Slot_new_random, mbind, action_bind, gets, or_panic. rewrite En. exact E2.
  - by apply get_connection_alive.
  - destruct (get_connection_serves _ _ s Ht Hs) as (s2 & c & E2 & Hs2 & Hc2 & Hv2 & Hm2).
    eexists _, c, s2. by rewrite (bind_attempt _ _ _ _ _ E2).
Qed.

(** The answer of the nodes to a request: the owner answers it, and any other
    node does too or redirects to the owner. *)
Definition owner_answers (input : Input) (owner : NodeAddress) (good : Output -> Prop) : Prop :=
  forall a c, node a -> serves a c -> exists r c', send_input input c = Return r c' /\ serves a c' /\
    match r with
    | Ok o => good o
    | Err e => a <> owner /\ kind e = Server Errors.Moved /\
               exists slot text, redirect_node e = Some (text, slot) /\ NodeAddress_try_from text = Ok owner
    end.

Lemma try_request_sent input routing redirected a c s s1 r c' : in_service s1 -> node a ->
  match redirected with Some d => redirect_target d | None => route_target routing end s =
    Return (Ok (a, Ok ())) s1 ->
  connections s1 !! a = Some c -> send_input input c = Return r c' -> serves a c' ->
  exists s2, try_request input routing redirected s = Return (Ok (a, r)) s2 /\ in_service s2 /\
    connections s2 <> ∅ /\ cluster_slots s2 = cluster_slots s1.
Proof.
  intros Hs1 Ha Et Hc Hsend Hc'.
  destruct (on_node_serves false (send_input input) a c r c' s1) as (s2 & E2 & Hs2 & Hk2 & Hm2); [done..|].
  exists s2. unfold try_request. rewrite (bind_ok _ _ _ _ _ Et). cbn beta iota.
  rewrite (bind_attempt _ _ _ _ _ E2). split_and!; try done. rewrite Hk2. apply insert_non_empty.
Qed.

End healthy.

(** ** How long a request may sleep *)

Section sleeping.
Context `{BuildProfile} `{HO : HashOrder} `{Crc16} `{RR : RandRange}.
Context {S : Type} `{RS : !ReadRoutingStrategy S}.
Context {C : Type} `{CL : ConnectionLike C} `{CN : !Connect C}.

(** Operations that do not sleep, and keep the parameters. *)
Definition awake {A} (m : action (ClusterConnection S C) A) : Prop := forall s r s',
  m s = Return r s' -> slept s' = slept s /\ cluster_params s' = cluster_params s.

Lemma awake_bind {A B} (m : action (ClusterConnection S C) A) (f : A -> action (ClusterConnection S C) B) :
  awake m -> (forall a, awake (f a)) -> awake (m ≫= f).
Proof.
  intros Hm Hf s r s' [(a & s1 & E1 & E2)|(e & E1 & _)]%bind_inv; [|by eapply Hm].
  destruct (Hm _ _ _ E1), (Hf _ _ _ _ E2). split; congruence.
Qed.
Lemma awake_ret {A} (a : A) : awake (mret a).
Proof. by intros s r s' [= <- <-]. Qed.
Lemma awake_fail {A} e : awake (fail e : action _ A).
Proof. by intros s r s' [= <- <-]. Qed.
Lemma awake_lift {A} (x : result RedisError A) : awake (lift x).
Proof. by intros s r s' [= <- <-]. Qed.
Lemma awake_gets {A} (f : ClusterConnection S C -> A) : awake (gets f).
Proof. by intros s r s' [= <- <-]. Qed.
Lemma awake_panic {A} : awake (panic : action _ A).
Proof. by intros s r s'. Qed.
Lemma awake_wait {A} : awake (wait : action _ A).
Proof. by intros s r s'. Qed.
Lemma awake_or_panic {A} (o : option A) : awake (or_panic o).
Proof. destruct o; [apply awake_ret|apply awake_panic]. Qed.
Lemma awake_attempt {A} (m : action _ A) : awake m -> awake (attempt m).
Proof. intros Hm s r s'. unfold attempt. destruct (m s) eqn:E; intros [= <- <-]. by eapply Hm. Qed.
Lemma awake_modify (f : ClusterConnection S C -> ClusterConnection S C) :
  (forall s, slept (f s) = slept s /\ cluster_params (f s) = cluster_params s) -> awake (modify f).
Proof. by intros Hf s r s' [= <- <-]. Qed.
Lemma awake_on_new {A} (c : C) (m : action C A) : awake (on_new c m).
Proof. intros s r s'. unfold on_new. destruct (m c) as [[]|? |]; by intros [= <- <-]. Qed.
Lemma awake_on_node {A} a (m : action C A) : awake (on_node a m).
Proof. intros s r s'. unfold on_node. repeat case_match; by intros [= <- <-]. Qed.
End sleeping.

Create HintDb awake discriminated.
#[local] Hint Resolve awake_ret awake_fail awake_lift awake_gets awake_panic awake_wait awake_or_panic
  awake_on_new awake_on_node : awake.

(** An operation is taken apart; the calls in it are in the database. *)
Ltac awake :=
  repeat (intros; lazymatch goal with
    | |- awake (_ ≫= _) => apply awake_bind
    | |- awake (attempt _) => apply awake_attempt
    | |- awake (modify _) => apply awake_modify
    | |- awake (match ?x with _ => _ end) => destruct x
    | |- awake (let '(_, _) := ?x in _) => destruct x
    | |- awake _ => solve [eauto with awake]
    | |- _ /\ _ => split; reflexivity
    end).

Section sleeping_cluster.
Context `{BuildProfile} `{HO : HashOrder} `{Crc16} `{RR : RandRange}.
Context {S : Type} `{RS : !ReadRoutingStrategy S}.
Context {C : Type} `{CL : ConnectionLike C} `{CN : !Connect C}.

Lemma awake_connect a : awake (connect (S := S) (C := C) a).
Proof. unfold connect. awake. Qed.
#[local] Hint Resolve awake_connect : awake.
Lemma awake_get_connection_by_addr a : awake (get_connection_by_addr (S := S) (C := C) a).
Proof. unfold get_connection_by_addr. awake. Qed.
#[local] Hint Resolve awake_get_connection_by_addr : awake.
Lemma awake_connect_and_check a : awake (connect_and_check (S := S) (C := C) a).
Proof. unfold connect_and_check. awake. Qed.
#[local] Hint Resolve awake_connect_and_check : awake.
Lemma awake_reconnect a : awake (reconnect (S := S) (C := C) a).
Proof. unfold reconnect. awake. Qed.
#[local] Hint Resolve awake_reconnect : awake.
Lemma awake_random : awake (get_random_connection_or_error (S := S) (C := C)).
Proof. unfold get_random_connection_or_error, get_random_connection. awake. Qed.
#[local] Hint Resolve awake_random : awake.
Lemma awake_get_connection route : awake (get_connection (S := S) (C := C) route).
Proof. unfold get_connection, node_for_route. awake. Qed.
#[local] Hint Resolve awake_get_connection : awake.

Lemma awake_query_slots nodes : awake (query_slots (S := S) (C := C) nodes).
Proof. induction nodes; simpl; awake. Qed.
#[local] Hint Resolve awake_query_slots : awake.
Lemma awake_renew nodes old new : awake (renew_connections (S := S) (C := C) nodes old new).
Proof. revert old new. induction nodes; intros; cbn [renew_connections]; awake. Qed.
#[local] Hint Resolve awake_renew : awake.
Lemma awake_refresh_slots : awake (refresh_slots (S := S) (C := C)).
Proof. unfold refresh_slots, create_new_slots. awake. Qed.
#[local] Hint Resolve awake_refresh_slots : awake.
Lemma awake_reconnect_initial nodes : awake (reconnect_initial (S := S) (C := C) nodes).
Proof. induction nodes; simpl; awake. Qed.
#[local] Hint Resolve awake_reconnect_initial : awake.
Lemma awake_recover e : awake (recover (S := S) (C := C) e).
Proof. unfold recover. awake. Qed.
Lemma awake_try_request input routing d : awake (try_request (S := S) (C := C) input routing d).
Proof.
  unfold try_request, redirect_target, route_target, Route_new_random_primary, Slot_new_random. awake.
Qed.

Definition waits_within (p : ClusterParams S) (n : nat) (ts : list Z) : Prop :=
  let r := retry_params p in
  (length ts <= n)%nat /\
  Forall (fun t => min_wait_time r <= t <= Z.max (min_wait_time r) (max_wait_time r - 1)) ts.

Lemma waits_app p n m ts us : waits_within p n ts -> waits_within p m us -> waits_within p (n + m) (ts ++ us).
Proof. intros [? ?] [? ?]. split; [rewrite length_app; lia|by apply Forall_app]. Qed.

(** [m] keeps the parameters and adds at most [n] waits. *)
Definition sleeps {A} (n : nat) (m : action (ClusterConnection S C) A) : Prop := forall s r s',
  let p := retry_params (cluster_params s) in
  0 <= min_wait_time p <= u64_max -> max_wait_time p <= u64_max -> m s = Return r s' ->
  cluster_params s' = cluster_params s /\
  exists ts, slept s' = slept s ++ ts /\ waits_within (cluster_params s) n ts.

Lemma awake_sleeps {A} n (m : action (ClusterConnection S C) A) : awake m -> sleeps n m.
Proof.
  intros Hm s r s' p _ _ E. destruct (Hm _ _ _ E) as [-> ->]. split; [done|]. exists [].
  rewrite app_nil_r. split; [done|]. split; [simpl; lia|done].
Qed.
Lemma sleeps_bind {A B} n k (m : action (ClusterConnection S C) A) (f : A -> action (ClusterConnection S C) B) :
  sleeps n m -> (forall a, sleeps k (f a)) -> sleeps (n + k) (m ≫= f).
Proof.
  intros Hm Hf s r s' p Hmin Hmax [(a & s1 & E1 & E2)|(e & E1 & _)]%bind_inv.
  - destruct (Hm _ _ _ Hmin Hmax E1) as [Hp1 (ts & Ht1 & Hw1)].
    destruct (Hf a s1 r s') as [Hp2 (us & Ht2 & Hw2)]; rewrite ?Hp1; [done..|].
    split; [congruence|]. exists (ts ++ us). rewrite Ht2, Ht1, app_assoc. split; [done|].
    apply waits_app; [done|by rewrite <- Hp1].
  - destruct (Hm _ _ _ Hmin Hmax E1) as [Hp1 (ts & Ht1 & Hl & Hw1)]. split; [done|]. exists ts.
    split; [done|]. split; [lia|done].
Qed.
Lemma sleep_sleeps k : sleeps 1 (sleep_before_retry (S := S) (C := C) k).
Proof.
  intros s r s' p Hmin Hmax. unfold sleep_before_retry. run_state. unfold id.
  destruct (wait_time_for_retry _ _ _) as [[t g]|] eqn:E; [|done].
  intros [= <- <-]. split; [done|]. exists [t]. split; [done|]. split; [done|]. repeat constructor.
  all: by eapply wait_time_drawn in E; [apply E|..].
Qed.

Lemma prepare_retry_sleeps a e k : sleeps 1 (prepare_retry (S := S) (C := C) a e k).
Proof.
  unfold prepare_retry. destruct (retry_method e);
    try (apply awake_sleeps; awake; fail);
    change 1%nat with (1 + 0)%nat; (apply sleeps_bind; [apply sleep_sleeps|intros; apply awake_sleeps; awake]).
Qed.

Lemma request_loop_sleeps n input routing d : sleeps n (request_loop (S := S) (C := C) n input routing d).
Proof.
  revert d. induction n as [|n IH]; intros d; cbn [request_loop].
  - apply awake_sleeps, awake_bind; [apply awake_try_request|]. intros [a [o|e]]; [awake|].
    apply awake_bind; [apply awake_recover|]. awake.
  - change (Datatypes.S n) with (0 + (0 + (0 + (1 + n))))%nat.
    apply sleeps_bind; [apply awake_sleeps, awake_try_request|]. intros [a [o|e]]; [by apply awake_sleeps; awake|].
    apply sleeps_bind; [apply awake_sleeps, awake_recover|]. intros _.
    apply sleeps_bind; [by apply awake_sleeps; awake|]. intros p.
    apply sleeps_bind; [apply prepare_retry_sleeps|]. intros [d'|]; [apply IH|by apply awake_sleeps; awake].
Qed.

(** A request sleeps at most once per retry, each time between the minimal
    and the maximal waiting time, whatever the nodes answer and however the
    request ends. *)
Theorem request_waits_bounded input routing s r s' :
  let p := retry_params (cluster_params s) in
  0 <= min_wait_time p <= u64_max -> max_wait_time p <= u64_max ->
  request_single input routing s = Return r s' ->
  exists ts, slept s' = slept (C := C) s ++ ts /\
    Z.of_nat (length ts) <= Z.max 0 (number_of_retries p) /\
    Forall (fun t => min_wait_time p <= t <= Z.max (min_wait_time p) (max_wait_time p - 1)) ts.
Proof.
  intros p Hmin Hmax E. unfold request_single in E. rewrite bind_gets in E.
  destruct (request_loop_sleeps _ _ _ _ s r s' Hmin Hmax E) as (_ & ts & Ht & Hl & Hf).
  exists ts. split; [done|]. split; [unfold p; lia|done].
Qed.
End sleeping_cluster.

(** ** Pipelines *)

Lemma add_cmd_addrs a idx c m x : x ∈ map nc_addr (add_cmd a idx c m) <-> x = a \/ x ∈ map nc_addr m.
Proof.
  induction m as [|nc m IH]; simpl; [by rewrite list_elem_of_singleton; set_solver|].
  case_bool_decide as E; simpl; rewrite !elem_of_cons; [rewrite E; naive_solver|rewrite IH; naive_solver].
Qed.
Lemma add_cmd_indexes a idx c m : concat (map indexes (add_cmd a idx c m)) ≡ₚ concat (map indexes m) ++ [idx].
Proof.
  induction m as [|nc m IH]; simpl; [done|]. case_bool_decide; simpl.
  - rewrite <- !app_assoc. apply Permutation_app_head. simpl. by rewrite Permutation_app_comm.
  - by rewrite IH, app_assoc.
Qed.

Section pipelines.
Context `{BuildProfile} `{HO : HashOrder} `{CR : Crc16} `{RR : RandRange}.
Context {S : Type} `{RS : !ReadRoutingStrategy S} `{RL : !ReadRoutingStrategyLaws S}.
Context {C : Type} `{CL : ConnectionLike C} `{CN : !Connect C}.
Implicit Types (s : ClusterConnection S C).
Context (params : ClusterParams S) (node : NodeAddress -> Prop) (ranges : list SlotRange).
(** The replies a connection has not read yet, and the reply to a command. *)
Context (pending : C -> list Value) (reply : Cmd -> Value).
Hypothesis healthy : healthy_nodes params node (fun _ c => pending c = []) ranges.

Definition packed (cs : list Cmd) : bytes := foldl (fun b c => write_packed_command c b) [] cs.
Lemma packed_snoc cs c : packed (cs ++ [c]) = write_packed_command c (packed cs).
Proof. unfold packed. by rewrite foldl_app. Qed.

(** Nodes answer the commands sent in one go in their order. *)
Record answers_in_order : Prop := {
  sends cs c : Forall packable cs -> exists c', node_send_packed_command (packed cs) c = Return (Ok ()) c' /\
    pending c' = pending c ++ map reply cs;
  receives_next c v vs : pending c = v :: vs ->
    exists c', node_recv_response c = Return (Ok v) c' /\ pending c' = vs
}.
Hypothesis in_order : answers_in_order.

Context (cmds : list Cmd).
Hypothesis all_packable : Forall packable cmds.
Definition nth_cmd (i : nat) : Cmd := nth i cmds Cmd_new.
Lemma nth_cmd_packable i : packable (nth_cmd i).
Proof.
  unfold nth_cmd. destruct (nth_in_or_default i cmds Cmd_new) as [Hi| ->]; [|by split].
  rewrite Forall_forall in all_packable. by apply all_packable, list_elem_of_In.
Qed.
Definition replies_to (nc : NodeCmd) : list Value := map (fun i => reply (nth_cmd i)) (indexes nc).

(** The first [k] commands, grouped by node. *)
Record grouped_cmds (k : nat) (m : list NodeCmd) : Prop := {
  distinct_nodes : NoDup (map nc_addr m);
  live_nodes : Forall (fun nc => node (nc_addr nc)) m;
  packed_pipes : Forall (fun nc => pipe nc = packed (map nth_cmd (indexes nc))) m;
  all_indexes : concat (map indexes m) ≡ₚ seq 0 k
}.

Lemma add_cmd_grouped k a m : grouped_cmds k m -> node a -> (k < length cmds)%nat ->
  grouped_cmds (Datatypes.S k) (add_cmd a k (nth_cmd k) m).
Proof.
  intros [Hd Hn Hp Hx] Ha Hk. split.
  - clear -Hd. induction m as [|nc m IH]; simpl in *; [apply NoDup_singleton|].
    apply NoDup_cons in Hd as [Hni Hd]. case_bool_decide as E; simpl; apply NoDup_cons; [done|].
    split; [|by apply IH]. rewrite add_cmd_addrs. naive_solver.
  - clear -Hn Ha. induction Hn as [|nc m Hnc Hn IH]; simpl; [by constructor|].
    case_bool_decide; by constructor.
  - clear -Hp. induction Hp as [|nc m Hnc Hp IH]; simpl; [by constructor|].
    case_bool_decide; constructor; try done. simpl. rewrite map_app. cbn [map]. by rewrite packed_snoc, Hnc.
  - by rewrite add_cmd_indexes, Hx, seq_S.
Qed.

(** Every slot has a node, and every command goes to one node. *)
Definition covers (m : SlotMap) : Prop :=
  forall slot, 0 <= slot < SLOT_SIZE -> is_Some (srm_get (slots m) slot).
Definition single_node (c : Cmd) : Prop :=
  match for_routable c with
  | Some (Some (SingleNode Random)) => True
  | Some (Some (SingleNode (SpecificNode r))) => 0 <= route_slot r < SLOT_SIZE
  | _ => False
  end.

Notation idle := (in_service_as params node (fun _ c => pending c = []) false).

Lemma addr_for_slot_alive route s : idle s -> map_alive node (cluster_slots s) -> covers (cluster_slots s) ->
  0 <= route_slot route < SLOT_SIZE -> exists a s', addr_for_slot route s = Return (Ok a) s' /\ node a /\
  idle s' /\ connections s' = connections s /\ cluster_slots s' = cluster_slots s.
Proof.
  intros Hs Ha Hc Hr.
  destruct (node_for_route_alive params node (fun _ c => pending c = []) route s Hs Ha)
    as (oa & s' & E & Hs' & Hk & Hm & Hoa). unfold addr_for_slot. rewrite (bind_ok _ _ _ _ _ E).
  destruct oa as [a|]; [by exists a, s'|]. destruct (Hc _ Hr) as [x Hx]. congruence.
Qed.

Lemma get_addr_alive c s : idle s -> map_alive node (cluster_slots s) -> covers (cluster_slots s) ->
  single_node c -> exists a s', get_addr_for_cmd c s = Return (Ok a) s' /\ node a /\
  idle s' /\ connections s' = connections s /\ cluster_slots s' = cluster_slots s.
Proof.
  intros Hs Ha Hc Hr. unfold get_addr_for_cmd, single_node in *.
  destruct (for_routable c) as [[[[| |r|]|]|]|]; try done; simpl or_panic; run_state.
  - destruct (random_range_nonempty 0 SLOT_SIZE (generator s)) as (n & g & En); [done|].
    pose proof (random_range_bounds _ _ _ _ _ En) as Hb.
    set (s1 := with_strategy (routing_strategy s) g s).
    destruct (addr_for_slot_alive (Route_with_slot {| slot_number := n |} Master) s1) as (a & s2 & E2 & ?);
      [split; apply Hs|done..|]. exists a, s2. split; [|done].
    unfold Slot_new_random, mbind, action_bind, gets, or_panic. rewrite En. exact E2.
  - by apply addr_for_slot_alive.
Qed.

Lemma map_cmds_grouped rest k m s : drop k cmds = rest -> (k <= length cmds)%nat -> grouped_cmds k m ->
  Forall single_node cmds -> idle s -> map_alive node (cluster_slots s) -> covers (cluster_slots s) ->
  exists m' s', map_cmds k rest m s = Return (Ok m') s' /\ grouped_cmds (length cmds) m' /\
    idle s' /\ connections s' = connections s.
Proof.
  revert k m s. induction rest as [|c rest IH]; intros k m s Hd Hk Hg Hc Hs Ha Hcov; cbn [map_cmds].
  - exists m, s. split_and!; try done. assert (length (drop k cmds) = O) as Hl by (by rewrite Hd).
    rewrite length_drop in Hl. by replace (length cmds) with k by lia.
  - assert (cmds !! k = Some c) as Hkc by (by rewrite <- (Nat.add_0_r k), <- lookup_drop, Hd).
    pose proof (lookup_lt_Some _ _ _ Hkc) as Hlt.
    assert (nth_cmd k = c) as <- by (unfold nth_cmd; by apply nth_lookup_Some).
    destruct (get_addr_alive (nth_cmd k) s) as (a & s1 & E & Hna & Hs1 & Hk1 & Hm1); [done..| |].
    { rewrite Forall_forall in Hc. apply Hc. by eapply list_elem_of_lookup_2. }
    rewrite (bind_ok _ _ _ _ _ E).
    destruct (IH (Datatypes.S k) (add_cmd a k (nth_cmd k) m) s1) as (m' & s' & E' & Hg' & Hs' & Hk');
      [|lia|by apply add_cmd_grouped|done|done|by rewrite Hm1..|].
    { by rewrite <- Nat.add_1_r, <- drop_drop, Hd. }
    exists m', s'. split_and!; try done. congruence.
Qed.

(** ** Sending and receiving *)

(** Connections hold exactly the replies to what was sent to their node. *)
Definition queued (l : list NodeCmd) s : Prop :=
  cluster_params s = params /\
  map_Forall (fun a c => pending c = concat (map replies_to (filter (fun nc => nc_addr nc = a) l)))
    (connections s) /\
  Forall (fun nc => is_Some (connections s !! nc_addr nc)) l.

Lemma filter_absent a l : a ∉ map nc_addr l -> filter (fun nc => nc_addr nc = a) l = [].
Proof.
  induction l as [|nc l IH]; simpl; [done|]. rewrite not_elem_of_cons. intros [Hne Hni].
  by rewrite filter_cons_False, IH by (done || congruence).
Qed.

Lemma get_queued a l s : queued l s -> node a -> exists c s',
  get_connection_by_addr a s = Return (Ok ()) s' /\ connections s' !! a = Some c /\
  (a ∉ map nc_addr l -> pending c = []) /\
  (is_Some (connections s !! a) -> s' = s) /\
  (connections s !! a = None -> a ∉ map nc_addr l) /\
  cluster_params s' = params /\ (forall b, b <> a -> connections s' !! b = connections s !! b).
Proof.
  intros (Hp & Hq & Hl) Ha. unfold get_connection_by_addr. run_state.
  destruct (connections s !! a) as [c|] eqn:E.
  - exists c, s. split_and!; try done. intros Hni. by rewrite (Hq a c E), filter_absent.
  - destruct (connect_opens params node _ ranges healthy a s Ha Hp) as (c & Ec & Hc).
    rewrite (bind_ok _ _ _ _ _ Ec). eexists c, _. split; [reflexivity|]. simpl.
    rewrite lookup_insert_eq. split_and!; try done.
    + intros _ (nc & -> & Hnc)%list_elem_of_fmap. rewrite Forall_forall in Hl.
      destruct (Hl nc Hnc). congruence.
    + intros b Hb. by rewrite lookup_insert_ne.
Qed.

Lemma send_each_queued todo l s : NoDup (map nc_addr (l ++ todo)) ->
  Forall (fun nc => node (nc_addr nc)) todo ->
  Forall (fun nc => pipe nc = packed (map nth_cmd (indexes nc))) todo -> queued l s ->
  exists s', send_each todo s = Return (Ok ()) s' /\ queued (l ++ todo) s'.
Proof.
  revert l s. induction todo as [|nc todo IH]; intros l s Hd Hn Hp Hq; cbn [send_each].
  { exists s. by rewrite app_nil_r. }
  apply Forall_cons in Hn as [Hnc Hn]. apply Forall_cons in Hp as [Hpipe Hp].
  assert (nc_addr nc ∉ map nc_addr l) as Hni.
  { rewrite map_app in Hd. apply NoDup_app in Hd as (_ & Hd & _). intros Hin. apply (Hd _ Hin). left. }
  destruct (get_queued (nc_addr nc) l s Hq Hnc) as (c & s1 & E1 & Hc & Hnew & _ & _ & Hp1 & Hother).
  destruct (sends in_order (map nth_cmd (indexes nc)) c) as (c' & Ec & Hpend).
  { apply Forall_map, Forall_forall. intros i _. apply nth_cmd_packable. }
  rewrite Hnew, app_nil_l, map_map in Hpend by done.
  set (s2 := with_connections (insert (nc_addr nc) c') s1).
  assert (on_node (nc_addr nc) (node_send_packed_command (pipe nc)) s1 = Return (Ok ()) s2) as E2.
  { unfold on_node. by rewrite Hc, Hpipe, Ec. }
  rewrite (bind_ok _ _ _ _ _ E1), (bind_ok _ _ _ _ _ E2).
  destruct (IH (l ++ [nc]) s2) as (s' & E' & Hq'); [by rewrite <- app_assoc|done|done|..].
  - destruct Hq as (_ & Hq & Hl). split_and!; [done|..].
    + intros b cb. simpl. rewrite filter_app, map_app, concat_app. destruct (decide (b = nc_addr nc)) as [->|Hb].
      * rewrite lookup_insert_eq, filter_absent, filter_cons_True by done. intros [= <-]. simpl.
        by rewrite Hpend, app_nil_r.
      * rewrite lookup_insert_ne, Hother, filter_cons_False by congruence. simpl. rewrite app_nil_r.
        apply Hq.
    + apply Forall_app. split; [|by repeat constructor; simpl; rewrite lookup_insert_eq].
      eapply Forall_impl; [exact Hl|]. intros x [cx Hx]. simpl.
      destruct (decide (nc_addr x = nc_addr nc)) as [->|Hne]; [rewrite lookup_insert_eq; eauto|].
      rewrite lookup_insert_ne, Hother by done. eauto.
  - exists s'. by rewrite <- app_assoc in Hq'.
Qed.

(** Reading the replies of one node. *)
Lemma recv_node a ixs todo x c vs s : connections s !! a = Some c ->
  pending c = map (fun i => reply (nth_cmd i)) ixs ++ vs ->
  exists c' s', recv_each (map (pair a) ixs ++ todo) x s = recv_each todo
      {| results := fill (fun i => reply (nth_cmd i)) (results x) ixs;
         to_retry := to_retry x; recv_err := recv_err x |} s' /\
    connections s' = <[a:=c']> (connections s) /\ pending c' = vs /\ cluster_params s' = cluster_params s.
Proof.
  revert x c s. induction ixs as [|i ixs IH]; intros x c s Hc Hp; cbn [map app recv_each].
  - exists c, s. rewrite insert_id by done. by destruct x.
  - destruct (receives_next in_order c (reply (nth_cmd i)) (map (fun i => reply (nth_cmd i)) ixs ++ vs))
      as (c1 & Ec & Hp1); [done|].
    assert (get_connection_by_addr a s = Return (Ok ()) s) as E1.
    { unfold get_connection_by_addr. run_state. by rewrite Hc. }
    rewrite (bind_ok _ _ _ _ _ E1).
    assert (on_node a node_recv_response s = Return (Ok (reply (nth_cmd i))) (with_connections (insert a c1) s)) as E2.
    { unfold on_node. by rewrite Hc, Ec. }
    rewrite (bind_attempt _ _ _ _ _ E2).
    destruct (IH (store_reply i (Ok (reply (nth_cmd i))) x) c1 (with_connections (insert a c1) s)) as (c' & s' & E' & Hk & Hp' & Hpar);
      [simpl; apply lookup_insert_eq|done|].
    exists c', s'. rewrite E'. split_and!; try done. rewrite Hk. simpl. by rewrite insert_insert_eq.
Qed.

Lemma recv_all l x s : NoDup (map nc_addr l) -> queued l s -> exists s',
  recv_each (concat (map (fun nc => map (pair (nc_addr nc)) (indexes nc)) l)) x s =
    Return (Ok {| results := fill (fun i => reply (nth_cmd i)) (results x) (concat (map indexes l));
                  to_retry := to_retry x; recv_err := recv_err x |}) s' /\ queued [] s'.
Proof.
  revert x s. induction l as [|nc l IH]; intros x s Hd (Hpar & Hq & Hl); cbn [map concat].
  { exists s. split; [by destruct x|done]. }
  apply NoDup_cons in Hd as [Hni Hd]. apply Forall_cons in Hl as [[c Hc] Hl].
  pose proof (Hq _ _ Hc) as Hp. cbn beta in Hp. rewrite filter_cons_True, filter_absent in Hp by done.
  simpl in Hp. destruct (recv_node (nc_addr nc) (indexes nc)
    (concat (map (fun nc => map (pair (nc_addr nc)) (indexes nc)) l)) x c [] s Hc Hp)
    as (c' & s1 & E1 & Hk1 & Hp1 & Hpar1). rewrite E1.
  destruct (IH {| results := fill (fun i => reply (nth_cmd i)) (results x) (indexes nc);
                  to_retry := to_retry x; recv_err := recv_err x |} s1 Hd) as (s' & E' & Hq').
  2:{ exists s'. rewrite E'. split; [|exact Hq']. cbn [results to_retry recv_err]. unfold fill.
      by rewrite <- foldl_app. }
  split_and!; [congruence|..].
  - rewrite Hk1. intros b cb. destruct (decide (b = nc_addr nc)) as [->|Hb].
    + rewrite lookup_insert_eq, filter_absent by done. by intros [= <-].
    + rewrite lookup_insert_ne by done. intros Hcb. specialize (Hq b cb Hcb). cbn beta in Hq.
      by rewrite filter_cons_False in Hq by congruence.
  - eapply Forall_impl; [exact Hl|]. intros y [cy Hy]. rewrite Hk1.
    destruct (decide (nc_addr y = nc_addr nc)) as [->|]; [rewrite lookup_insert_eq; eauto|].
    rewrite lookup_insert_ne by done. eauto.
Qed.

(** C17. The replies to a pipeline come back in the order of its commands: when
    every command goes to one node and every node answers what it is sent in
    order, the result is the list of the replies, however the commands are
    spread over the nodes and in whatever order the nodes are served; no
    connection is left with an unread reply. *)
Theorem cluster_pipeline_in_order s : Forall single_node cmds -> idle s ->
  map_alive node (cluster_slots s) -> covers (cluster_slots s) ->
  exists s', send_recv_and_retry_cmds cmds s = Return (Ok (map reply cmds)) s' /\
    map_Forall (fun _ c => pending c = []) (connections s').
Proof.
  intros Hc Hs Ha Hcov. unfold send_recv_and_retry_cmds, send_all_commands, map_cmds_to_nodes.
  destruct (map_cmds_grouped cmds 0 [] s) as (m & s1 & E1 & [Hd Hn Hp Hx] & Hs1 & Hk1);
    [done|lia|split; [apply NoDup_nil_2|done..]|done..|].
  pose proof (hash_order_perm m) as Hperm. set (l := hash_order m) in *.
  destruct (send_each_queued l [] s1) as (s2 & E2 & Hq2).
  { by rewrite app_nil_l, Hperm. }
  { by rewrite Hperm. }
  { by rewrite Hperm. }
  { split_and!; [apply Hs1| |done]. intros a c E. by apply (all_serve _ _ _ _ _ Hs1 a c E). }
  destruct (recv_all l {| results := replicate (length cmds) Nil; to_retry := []; recv_err := None |} s2)
    as (s3 & E3 & Hq3); [by rewrite Hperm|done|].
  exists s3. split; [|intros a c E; exact (proj1 (proj2 Hq3) a c E)].
  erewrite bind_ok; [|erewrite bind_ok; [|by erewrite bind_ok by exact E1]; by erewrite bind_ok by exact E2].
  unfold recv_all_commands. erewrite bind_ok; [|by erewrite bind_ok by exact E3]. cbn beta iota. cbn [results to_retry].
  unfold mret, action_ret. do 2 f_equal. rewrite fill_all.
  - rewrite length_replicate. apply list_eq. intros i. rewrite !list_lookup_fmap.
    destruct (cmds !! i) as [c|] eqn:E.
    + rewrite lookup_seq_lt by (by eapply lookup_lt_Some). simpl. unfold nth_cmd. by erewrite nth_lookup_Some.
    + rewrite lookup_ge_None_2; [done|]. rewrite length_seq. by apply lookup_ge_None_1.
  - rewrite length_replicate. intros i Hi. rewrite Hperm, Hx, elem_of_seq. lia.
Qed.
End pipelines.

(** ** Requests to several nodes *)

Section several.
Context `{BuildProfile} `{HO : HashOrder} `{CR : Crc16} `{RR : RandRange}.
Context {S : Type} `{RS : !ReadRoutingStrategy S} `{RL : !ReadRoutingStrategyLaws S}.
Context {C : Type} `{CL : ConnectionLike C} `{CN : !Connect C}.
Implicit Types (s : ClusterConnection S C).
Context (params : ClusterParams S) (node : NodeAddress -> Prop) (serves : NodeAddress -> C -> Prop)
  (ranges : list SlotRange).
Hypothesis healthy : healthy_nodes params node serves ranges.
(** What a node answers to a sub-command. *)
Context (answer : Cmd -> Value).

Notation up := (in_service_as params node serves).

(** The nodes that the slot map may choose for a route, and that all of them
    answer a sub-command sent along the route. *)
Definition eligible (m : SlotMap) (route : Route) (a : NodeAddress) : Prop :=
  exists x, srm_get (slots m) (route_slot route) = Some x /\ a ∈ SlotAddrs_into_iter x /\
    (route_slot_addr route = Master -> a = primary x).
Definition answered_on (m : SlotMap) (route : Route) (sub : Cmd) : Prop :=
  forall a c, eligible m route a -> serves a c ->
    exists c', req_command sub c = Return (Ok (answer sub)) c' /\ serves a c'.

Lemma eligible_alive m route a : map_alive node m -> eligible m route a -> node a.
Proof using. intros Ha (x & Hx & Hin & _). eapply Ha; [by eapply srm_get_value|done]. Qed.

Lemma multi_slot_request_answered b input route ix sub s : up b s -> map_alive node (cluster_slots s) ->
  covers (cluster_slots s) -> 0 <= route_slot route < SLOT_SIZE -> answered_on (cluster_slots s) route sub ->
  command_for_multi_slot_indices input ix = Some sub -> exists a s',
  multi_slot_request input route ix s = Return (Ok (a, answer sub)) s' /\ up b s' /\
  cluster_slots s' = cluster_slots s.
Proof.
  intros Hs Ha Hc Hr Hsub Hcmd. unfold multi_slot_request, slot_addr_for_route. run_state. unfold id.
  destruct (Hc _ Hr) as [x Hx]. rewrite Hx. simpl.
  destruct (slot_addr_chooses x (route_slot route) (route_slot_addr route) (routing_strategy s) (generator s))
    as (a & st & g & -> & Hin & Hma & _). run_state. simpl or_panic. run_state.
  assert (eligible (cluster_slots s) route a) as Hel by (by exists x).
  pose proof (eligible_alive _ _ _ Ha Hel) as Hna.
  destruct (get_connection_serves params node serves ranges healthy b a (with_strategy st g s))
    as (s1 & c & E1 & Hs1 & Hk1 & Hv1 & Hm1); [done|split; apply Hs|].
  rewrite (bind_ok _ _ _ _ _ E1), Hcmd. simpl or_panic. run_state.
  destruct (Hsub a c Hel Hv1) as (c' & Ec & Hv').
  destruct (on_node_serves params node serves b (req_command sub) a c (Ok (answer sub)) c' s1)
    as (s2 & E2 & Hs2 & _ & Hm2); [done..|].
  rewrite (bind_ok _ _ _ _ _ E2). exists a, s2. split_and!; try done. by rewrite Hm2, Hm1.
Qed.

Lemma execute_multi_slot_answered b input (routes : list (Route * list nat)) qs s :
  up b s -> map_alive node (cluster_slots s) ->
  covers (cluster_slots s) -> Forall (fun '(route, _) => 0 <= route_slot route < SLOT_SIZE) routes ->
  Forall2 (fun r => answered_on (cluster_slots s) r.1) routes qs ->
  mapM (fun '(_, ix) => command_for_multi_slot_indices input ix) routes = Some qs -> exists nodes s',
  execute_multi_slot input routes s = Return (Ok (map Ok (zip nodes (map answer qs)))) s' /\
  length nodes = length qs /\ up b s'.
Proof.
  revert qs s. induction routes as [|[route ix] routes IH]; intros qs s Hs Ha Hc Hr Hq Hm.
  { simpl in Hm. injection Hm as <-. by exists [], s. }
  apply Forall_cons in Hr as [Hr1 Hr]. cbn [mapM] in Hm.
  destruct (command_for_multi_slot_indices input ix) as [sub|] eqn:Ec; [|done].
  simpl in Hm. destruct (mapM _ routes) as [qs'|] eqn:Em; [|done]. injection Hm as <-.
  apply Forall2_cons in Hq as [Hq1 Hq].
  destruct (multi_slot_request_answered b input route ix sub s) as (a & s1 & E1 & Hs1 & Hm1); [done..|].
  destruct (IH qs' s1) as (nodes & s2 & E2 & Hl & Hs2); [by rewrite ?Hm1..|done|].
  exists (a :: nodes), s2. cbn [execute_multi_slot]. rewrite (bind_attempt _ _ _ _ _ E1), (bind_ok _ _ _ _ _ E2).
  split_and!; [done|simpl; by f_equal|done].
Qed.

(** The results of all parts are handed to the response policy. *)
Lemma multi_slot_policy input (routes : list (Route * list nat)) p policy subs s :
  up false s -> map_alive node (cluster_slots s) ->
  covers (cluster_slots s) -> Forall (fun '(route, _) => 0 <= route_slot route < SLOT_SIZE) routes ->
  Forall2 (fun r => answered_on (cluster_slots s) r.1) routes subs ->
  mapM (fun '(_, ix) => command_for_multi_slot_indices input ix) routes = Some subs -> exists nodes s',
  length nodes = length subs /\ up false s' /\
  execute_on_multiple_nodes input (MultiSlot routes p) policy s =
    (r ← or_panic (aggregate_results (MultiSlot routes p) policy (map Ok (zip nodes (map answer subs))));
     lift r) s'.
Proof.
  intros Hs Ha Hc Hr Hq Hm. unfold execute_on_multiple_nodes. run_state. unfold id.
  rewrite (borrowed_as _ _ _ _ _ Hs). run_state.
  destruct (execute_multi_slot_answered true input routes subs (with_borrowed true s))
    as (nodes & s1 & E1 & Hl & Hs1); try done; [by split; first [reflexivity|apply Hs]|].
  exists nodes, (with_borrowed false s1). split_and!; [done|by split; first [reflexivity|apply Hs1]|].
  by rewrite (bind_ok _ _ _ _ _ E1).
Qed.

Lemma snd_oks {A B} (l : list A) (k : list B) : length l = length k ->
  map (fun r => snd <$> r) (map (@Ok RedisError _) (zip l k)) = map Ok k.
Proof. revert k. induction l as [|a l IH]; intros [|b k]; simpl; try done. intros [= Hl]. by rewrite IH. Qed.
End several.

Lemma extract_error_array vs : Forall (fun v => extract_error v = Ok v) vs -> extract_error (Array vs) = Ok (Array vs).
Proof.
  intros Hv. simpl. match goal with |- match ?x with _ => _ end = _ => assert (x = Ok vs) as ->; [|done] end.
  induction Hv as [|v vs E _ IH]; simpl; [done|]. by rewrite E, IH.
Qed.

(** The sub-commands of a split carry the name of the command. *)
Lemma sub_commands_named {R} `{Routable R} (r : R) name l (routes : list (Route * list nat)) subs : presents r (name :: l) ->
  mapM (fun '(_, ix) => command_for_multi_slot_indices r ix) routes = Some subs ->
  Forall (fun sub => head (args_of sub) = Some name) subs.
Proof.
  intros Hr. revert subs. induction routes as [|[route ix] routes IH]; intros subs Hm; simpl in Hm.
  { by injection Hm as <-. }
  destruct (sub_command r name l ix Hr) as (c & Ec & _ & Hi). rewrite Ec in Hm. simpl in Hm.
  destruct (mapM _ routes) as [qs|]; [|done]. injection Hm as <-. constructor; [|by apply IH].
  by rewrite (args_of_simple _ _ Hi).
Qed.

Section multi_slot.
Context `{BuildProfile} `{HO : HashOrder} `{CR : Crc16} `{RR : RandRange}.
Context {S : Type} `{RS : !ReadRoutingStrategy S} `{RL : !ReadRoutingStrategyLaws S}.
Context {C : Type} `{CL : ConnectionLike C} `{CN : !Connect C}.
Implicit Types (s : ClusterConnection S C).
Context (params : ClusterParams S) (node : NodeAddress -> Prop) (serves : NodeAddress -> C -> Prop)
  (ranges : list SlotRange).
Hypothesis healthy : healthy_nodes params node serves ranges.

Lemma request_first_attempt input routing s a o s' :
  try_request input routing None s = Return (Ok (a, Ok o)) s' ->
  request_single input routing s = Return (Ok o) s'.
Proof.
  intros E. unfold request_single. run_state. generalize (Z.to_nat (number_of_retries (retry_params (cluster_params s)))).
  by intros []; cbn [request_loop]; rewrite (bind_ok _ _ _ _ _ E).
Qed.

(** Node [a] holds the slot: as the primary of the range it lies in, or, for a
    command that only reads, as a replica. *)
Definition holds (ro : bool) (a : NodeAddress) (slot : Z) : Prop :=
  exists r, r ∈ ranges /\ start r <= slot <= end_ r /\ (a = master r \/ ro = true /\ a ∈ range_replicas r).

(** The command has keys, and [a] holds the slots of all of them. *)
Definition holds_keys (ro : bool) (p : MultiSlotArgPattern) (a : NodeAddress) (sub : Cmd) : Prop :=
  groups p (tail (args_of sub)) <> [] /\
  Forall (fun g => exists key rest, g = key :: rest /\ holds ro a (slot_number (Slot_for_key key)))
    (groups p (tail (args_of sub))).

(** The nodes that may be chosen for the route of a key hold its slot. *)
Lemma eligible_holds ro key a : eligible (from_slots ranges) (get_route ro key) a ->
  holds ro a (slot_number (Slot_for_key key)).
Proof using healthy.
  intros (x & Hx & Hin & Hm). assert (route_slot (get_route ro key) = slot_number (Slot_for_key key)) as Hs
    by (by destruct ro).
  rewrite Hs in Hx. apply (from_slots_get _ _ _ (ranges_apart _ _ _ _ healthy)) in Hx as (r & Hr & Hb & ->).
  exists r. split; [done|]. split; [done|]. unfold SlotAddrs_into_iter in Hin. simpl in Hin.
  apply elem_of_cons in Hin as [->|Hin]; [by left|]. destruct ro; [by right|]. left. by apply Hm.
Qed.

Lemma eligible_holds_keys ro p l x sub a : complete p l = true ->
  (exists j, (j < ngroups p l)%nat /\ route_of ro p l j = x) ->
  groups p (tail (args_of sub)) = map (group p l) (groups_of ro p l (ngroups p l) x) ->
  eligible (from_slots ranges) x a -> holds_keys ro p a sub.
Proof using healthy.
  intros Hc (j & Hj & Hx) Hg Hel. unfold holds_keys. rewrite Hg. split.
  - pose proof (groups_of_elem l ro p j Hj) as Hin. rewrite Hx in Hin. intros E%map_eq_nil. rewrite E in Hin.
    by apply not_elem_of_nil in Hin.
  - apply Forall_map, Forall_forall. intros i Hi.
    pose proof (groups_of_bound l ro p x) as Hb. rewrite Forall_forall in Hb. specialize (Hb i Hi).
    destruct (group_head l p Hc i Hb) as [g Eg]. eexists _, g. split; [exact Eg|].
    apply list_elem_of_filter in Hi as [Hi _]. apply eligible_holds. unfold route_of in Hi. by rewrite Hi.
Qed.

Lemma groups_of_only ro p l n x : (forall i, (i < n)%nat -> route_of ro p l i = x) ->
  groups_of ro p l n x = seq 0 n.
Proof using.
  induction n as [|n IH]; intros Hx; [done|]. rewrite groups_of_S, IH, seq_S by (intros; apply Hx; lia).
  by rewrite decide_True by (symmetry; apply Hx; lia).
Qed.

Lemma multi_slot_combined input cmd name l p f rts s : presents input (name :: l) -> complete p l = true ->
  NoDup rts -> (forall x, x ∈ rts <-> exists j, (j < ngroups p l)%nat /\ route_of (is_readonly_cmd cmd) p l j = x) ->
  (forall sub a conn, head (args_of sub) = Some name -> holds_keys (is_readonly_cmd cmd) p a sub -> serves a conn ->
    exists conn', req_command sub conn = Return (Ok (node_reply p f sub)) conn' /\ serves a conn') ->
  in_service_as params node serves false s -> cluster_slots s = from_slots ranges ->
  covers (cluster_slots s) -> exists s',
  execute_on_multiple_nodes input (MultiSlot (map (share (is_readonly_cmd cmd) p l) rts) p)
    (Some CombineArrays) s = Return (Ok (Array (map f (groups p l)))) s'.
Proof.
  intros Hp Hc Hnd Hx Hans Hs Hmap Hcov.
  destruct (sub_commands input name l (is_readonly_cmd cmd) p Hp Hc rts) as (subs & Es & Hsubs); [by intros ? ?%Hx|].
  pose proof (sub_commands_named _ _ _ _ _ Hp Es) as Hnamed. rewrite Forall_forall in Hnamed.
  destruct (multi_slot_policy params node serves ranges healthy (node_reply p f)) with
    (input := input) (routes := map (share (is_readonly_cmd cmd) p l) rts) (p := p) (subs := subs)
    (policy := Some CombineArrays) (s := s) as (nodes & s' & Hl & _ & E); try done.
  { rewrite Hmap. eapply from_slots_alive; exact healthy. }
  { apply Forall_map, Forall_forall. intros x (j & _ & <-)%Hx. simpl. unfold route_of, get_route.
    case_match; apply Slot_for_key_bound. }
  { apply Forall2_fmap_l, Forall2_same_length_lookup. split; [by eapply Forall2_length|].
    intros i x sub Hi Hsub a c Hel. rewrite Hmap in Hel. apply Hans; [apply Hnamed; by eapply list_elem_of_lookup_2|].
    eapply eligible_holds_keys; [done| |by eapply Forall2_lookup_lr in Hsubs|exact Hel].
    apply Hx. by eapply list_elem_of_lookup_2. }
  exists s'. rewrite E. unfold aggregate_results. rewrite snd_oks by (by rewrite length_map).
  rewrite collect_ok. by rewrite (sub_replies_combine l (is_readonly_cmd cmd) p Hc f rts subs Hnd Hx Hsubs).
Qed.

(** The connection for a route whose slot is covered. *)
Lemma get_connection_eligible route s : in_service_as params node serves false s -> map_alive node (cluster_slots s) ->
  covers (cluster_slots s) -> 0 <= route_slot route < SLOT_SIZE -> exists a c s',
  get_connection route s = Return (Ok (a, Ok ())) s' /\ eligible (cluster_slots s) route a /\
  connections s' !! a = Some c /\ serves a c /\ in_service_as params node serves false s'.
Proof.
  intros Hs Ha Hc Hr. destruct (Hc _ Hr) as [x Hx].
  destruct (slot_addr_chooses x (route_slot route) (route_slot_addr route) (routing_strategy s) (generator s))
    as (a & st & g & E & Hin & Hma & _).
  assert (node_for_route route s = Return (Ok (Some a)) (with_strategy st g s)) as En.
  { unfold node_for_route, slot_addr_for_route. run_state. unfold id. rewrite (borrowed_as _ _ _ _ _ Hs), Hx.
    simpl. by rewrite E. }
  assert (eligible (cluster_slots s) route a) as Hel by (by exists x).
  destruct (get_connection_serves params node serves ranges healthy false a (with_strategy st g s))
    as (s1 & c & E1 & Hs1 & Hk1 & Hv1 & Hm1); [by eapply eligible_alive|split; apply Hs|].
  unfold get_connection. rewrite (bind_ok _ _ _ _ _ En).
  exists a, c, s1. by rewrite (bind_attempt _ _ _ _ _ E1).
Qed.

(** C16. A command on keys of several nodes whose replies are put together as
    an array (MGET and the like) is answered as one node holding all the keys
    would have answered it, when the slot map is that of the cluster: it is
    split by slot, every part goes to a node that holds the slots of all its
    keys (nothing is assumed of what any other node answers), and the replies
    are put together in the order of the keys. *)
Theorem multi_slot_answered c cmd name l p f s : Cmd_is_empty c = false -> presents c (name :: l) ->
  args_of c = name :: l -> complete p l = true -> command c = Some (Some cmd) ->
  base_routing cmd = By_MultiShard p -> for_command cmd = Some CombineArrays ->
  (forall g, extract_error (f g) = Ok (f g)) ->
  (forall sub a conn, head (args_of sub) = Some name -> holds_keys (is_readonly_cmd cmd) p a sub -> serves a conn ->
    exists conn', req_command sub conn = Return (Ok (node_reply p f sub)) conn' /\ serves a conn') ->
  in_service_as params node serves false s -> cluster_slots s = from_slots ranges ->
  covers (cluster_slots s) ->
  exists s', cluster_req_command c s = Return (Ok (Array (map f (groups p l)))) s'.
Proof.
  intros He Hp Hargs Hc Hcmd Hbase Hpol Hf Hans Hs Hmap Hcov. unfold cluster_req_command. rewrite He.
  assert (map_alive node (cluster_slots s)) as Ha by (rewrite Hmap; eapply from_slots_alive; exact healthy).
  assert (for_routable c = multi_shard c cmd 1 p) as ->.
  { unfold for_routable. rewrite Hcmd. cbn [try_bind]. by rewrite Hbase. }
  destruct (multi_shard_split c cmd name l p Hp Hc) as (rts & Hnd & Hnil & Hx & ->).
  destruct rts as [|x [|y rts]]; [done|..]; cbn [map share or_panic]; run_state; unfold request.
  - assert (exists j, (j < ngroups p l)%nat /\ route_of (is_readonly_cmd cmd) p l j = x) as Hj by (apply Hx; left).
    assert (0 <= route_slot x < SLOT_SIZE) as Hb.
    { destruct Hj as (j & _ & <-). unfold route_of, get_route. case_match; apply Slot_for_key_bound. }
    destruct (get_connection_eligible x s) as (a & conn & s1 & E1 & Hel & Hk & Hv & Hs1); [done..|].
    destruct (Hans c a conn) as (conn' & Er & Hv'); [by rewrite Hargs| |done|].
    { rewrite Hmap in Hel. eapply eligible_holds_keys; [done|exact Hj| |done]. rewrite Hargs. cbn [tail].
      unfold groups. by rewrite (groups_of_only _ _ _ _ _ (fun i Hi =>
        proj1 (list_elem_of_singleton _ _) (proj2 (Hx _) (ex_intro _ i (conj Hi eq_refl))))). }
    assert (send_input (InputCmd c) conn = Return (Ok (Single (Array (map f (groups p l))))) conn') as Esend.
    { simpl. rewrite (bind_ok _ _ _ _ _ Er). unfold node_reply. rewrite Hargs. cbn [tail].
      rewrite extract_error_array by (by apply Forall_map, Forall_forall). done. }
    destruct (try_request_sent params node serves (InputCmd c) (SpecificNode x) None a conn s s1 _ conn' Hs1
      (eligible_alive node _ _ _ Ha Hel) E1 Hk Esend Hv') as (s2 & E2 & _). exists s2.
    by rewrite (bind_ok _ _ _ _ _ (request_first_attempt _ _ _ _ _ _ E2)).
  - rewrite Hpol. destruct (multi_slot_combined (InputCmd c) cmd name l p f (x :: y :: rts) s) as (s' & E); try done.
    { destruct Hp. by split. }
    exists s'. erewrite bind_ok; [|erewrite bind_ok; [|exact E]; reflexivity]. done.
Qed.
End multi_slot.

Section defects.
Context `{BuildProfile} `{HO : HashOrder} `{CR : Crc16} `{RR : RandRange}.
Context {S : Type} `{RS : !ReadRoutingStrategy S} `{RL : !ReadRoutingStrategyLaws S}.
Context {C : Type} `{CL : ConnectionLike C} `{CN : !Connect C}.
Implicit Types (s : ClusterConnection S C).

(** C18. The parts of a split command are not checked for server errors: a command
    that asks for all parts to succeed, such as MSET, returns the reply of the
    last part even when another part was refused. *)
Theorem multi_slot_failure_hidden (params : ClusterParams S) (node : NodeAddress -> Prop)
    (serves : NodeAddress -> C -> Prop) (ranges : list SlotRange) (answer : Cmd -> Value)
    input routes p refused qs q e s :
  healthy_nodes params node serves ranges ->
  (forall sub a c, sub ∈ refused :: qs ++ [q] -> node a -> serves a c ->
    exists c', req_command sub c = Return (Ok (answer sub)) c' /\ serves a c') ->
  in_service_as params node serves false s -> map_alive node (cluster_slots s) ->
  covers (cluster_slots s) -> Forall (fun '(route, _) => 0 <= route_slot route < SLOT_SIZE) routes ->
  mapM (fun '(_, ix) => command_for_multi_slot_indices input ix) routes = Some (refused :: qs ++ [q]) ->
  answer refused = ServerErr e -> answer q = Okay -> exists s',
  execute_on_multiple_nodes input (MultiSlot routes p) (Some AllSucceeded) s = Return (Ok Okay) s'.
Proof.
  intros Hh Hans Hs Ha Hc Hr Hm He Hq.
  destruct (multi_slot_policy params node serves ranges Hh answer input routes p (Some AllSucceeded)
    (refused :: qs ++ [q]) s) as (nodes & s' & Hl & _ & E); [done..| |done|].
  { apply Forall2_same_length_lookup. split; [by eapply Forall2_length, mapM_Some_1|].
    intros i r sub _ Hsub a c Hel. apply Hans; [by eapply list_elem_of_lookup_2|].
    by eapply eligible_alive. }
  exists s'. rewrite E. unfold aggregate_results. rewrite collect_ok.
  assert (snd <$> last (zip nodes (map answer (refused :: qs ++ [q]))) = Some Okay) as Hlast.
  { rewrite <- fmap_last, snd_zip by (rewrite length_map; lia). rewrite fmap_last.
    change (refused :: qs ++ [q]) with ((refused :: qs) ++ [q]). rewrite last_snoc. simpl. by rewrite Hq. }
  simpl in Hlast |- *. by rewrite Hlast.
Qed.

(** A node that asks for a fresh slot map while a request to all nodes holds it:
    the second mutable borrow panics. *)
Lemma fanout_refresh_panics input a rest c e c' policy s :
  hash_order (addresses_for_all_primaries (cluster_slots s)) = a :: rest ->
  slots_borrowed s = false -> connections s !! a = Some c ->
  send_input input c = Return (Err e) c' ->
  retry_method e = MovedRedirect \/ retry_method e = RefreshSlotsAndRetry ->
  0 < number_of_retries (retry_params (cluster_params s)) ->
  execute_on_multiple_nodes input AllMasters policy s = Panicked.
Proof.
  intros Ho Hb Hc Hsend Hmeth Hn. unfold execute_on_multiple_nodes. run_state. unfold id. rewrite Hb. run_state.
  unfold execute_on_all. rewrite Ho. cbn [execute_each].
  set (s1 := with_borrowed true s). set (s2 := with_connections (insert a c') s1).
  assert (try_request input (ByAddress (host a) (port a)) None s1 = Return (Ok (a, Err e)) s2) as E1.
  { unfold try_request, route_target, get_connection_by_addr, NodeAddress_new. destruct a as [h p]. simpl.
    unfold mbind, action_bind, attempt, gets. simpl. rewrite Hc. unfold on_node. simpl. by rewrite Hc, Hsend. }
  assert (recover e s2 = Return (Ok ()) s2) as E2.
  { unfold recover. run_state. unfold retry_method in Hmeth. destruct (kind e); try done; destruct Hmeth; done. }
  assert (forall k, prepare_retry a e k s2 = Panicked) as E3.
  { intros k. unfold prepare_retry. destruct Hmeth as [->| ->]; [done|].
    unfold sleep_before_retry, mbind, action_bind, gets, or_panic. simpl.
    destruct (wait_time_for_retry _ _ _) as [[]|]; done. }
  assert (request_single input (ByAddress (host a) (port a)) s1 = Panicked) as E4.
  { unfold request_single. run_state. change (cluster_params s1) with (cluster_params s).
    destruct (Z.to_nat _) eqn:En; [lia|]. cbn [request_loop]. rewrite (bind_ok _ _ _ _ _ E1). cbn beta iota.
    rewrite (bind_ok _ _ _ _ _ E2). run_state. unfold mbind, action_bind. by rewrite E3. }
  unfold mbind, action_bind, attempt. by rewrite E4.
Qed.

(** A refresh asks the connections in turn, but a broken one ends it, whatever
    the others would answer. *)
Lemma broken_connection_fails_refresh a rest c e c' s :
  hash_order (map_to_list (connections s)).*1 = a :: rest -> slots_borrowed s = false ->
  connections s !! a = Some c -> req_command slot_cmd c = Return (Err e) c' ->
  refresh_slots s = Return (Err e) (with_connections (insert a c') s).
Proof.
  intros Ho Hb Hc Hreq. unfold refresh_slots. run_state. rewrite Hb.
  erewrite bind_err; [done|]. unfold create_new_slots. run_state. rewrite Ho. cbn [query_slots].
  erewrite bind_err; [done|]. erewrite bind_err; [done|]. unfold on_node. by rewrite Hc, Hreq.
Qed.
End defects.

(** ** A cluster of two nodes *)

Module TwoNodes.
Definition n1 : NodeAddress := NodeAddress_new (bs "10.0.0.1") 6379.
Definition n2 : NodeAddress := NodeAddress_new (bs "10.0.0.2") 6379.
Definition two_ranges : list SlotRange :=
  [{| start := 0; end_ := 8191; master := n1; range_replicas := [] |};
   {| start := 8192; end_ := 16383; master := n2; range_replicas := [] |}].
Lemma two_ranges_cover : covers (from_slots two_ranges).
Proof.
  intros slot Hs. assert (no_overlap (map range_of two_ranges)) as Hno by (by apply (bool_decide_unpack _)).
  unfold SLOT_SIZE in Hs. destruct (decide (slot <= 8191)).
  - eexists. apply (from_slots_get _ _ _ Hno). eexists. split; [left|]. simpl. split; [lia|done].
  - eexists. apply (from_slots_get _ _ _ Hno). eexists. split; [right; left|]. simpl. split; [lia|done].
Qed.
Definition get_cmd (k : string) : Cmd := write_arg (cmd "GET") (bs k).

(** A connection is the address of its node; the second node holds the key. *)
Definition node_answer (c : Cmd) (a : NodeAddress) : Value :=
  if bytes_eqb (get_packed_command c) (get_packed_command slot_cmd) then Array (map range_value two_ranges)
  else if bytes_eqb (get_packed_command c) (get_packed_command (cmd "PING")) then SimpleString (bs "PONG")
  else if bool_decide (a = n2) then BulkString (bs "value")
  else ServerErr (err_parser (bs "MOVED 9000 10.0.0.2:6379")).
#[local] Instance node_like : ConnectionLike NodeAddress := {|
  req_packed_command _ := mret Nil;
  req_packed_commands _ _ _ := mret [];
  req_command c := fun a => Return (Ok (node_answer c a)) a;
  supports_pipelining _ := true
|}.
#[local] Instance node_connect : Connect NodeAddress := {|
  connect_to _ i _ := Return (NodeAddress_of_addr (addr i)) ();
  node_send_packed_command _ := mret ();
  node_recv_response := mret Nil;
  node_set_read_timeout _ := mret ();
  node_set_write_timeout _ := mret ();
  node_check_connection := mret true;
  node_is_open _ := true
|}.
#[local] Instance checked : BuildProfile := true.
#[local] Existing Instance insertion_order.
#[local] Existing Instance lowest.
#[local] Existing Instance lowest_range.

Definition params : ClusterParams RandomReplicaStrategy := params_with_tls BuilderParams_default None.
Definition member (a : NodeAddress) : Prop := a ∈ [n1; n2].
(** The slot map of before the slots were shared with the second node. *)
Definition stale : ClusterConnection RandomReplicaStrategy NodeAddress :=
  with_connections (fun _ => {[n1 := n1]})
    (with_slots (from_slots [{| start := 0; end_ := 16383; master := n1; range_replicas := [] |}])
       (empty_cluster params [] ())).

Lemma two_nodes_healthy : healthy_nodes params member (fun a c => c = a) two_ranges.
Proof.
  split.
  - intros n a Ha. exists a. split; [|done]. by destruct a.
  - intros read write a c Ha ->. by exists (), a.
  - intros a c Ha ->. by exists true, a.
  - intros a c Ha ->. eexists _, a. split; [reflexivity|]. split; [done|].
    unfold member in Ha. rewrite !elem_of_cons in Ha. destruct Ha as [->|[->|Ha]]; [done|done|by apply not_elem_of_nil in Ha].
  - by apply (bool_decide_unpack _).
  - repeat constructor; set_solver.
Qed.

Lemma key_answered : owner_answers member (fun a c => c = a) (InputCmd (get_cmd "k")) n2
  (fun o => o = Single (BulkString (bs "value"))).
Proof.
  intros a c Ha ->. unfold member in Ha. rewrite !elem_of_cons in Ha.
  destruct Ha as [->|[->|Ha]]; [| |by apply not_elem_of_nil in Ha]; (eexists _, _; split; [reflexivity|]); [|done].
  split; [done|]. split; [done|]. split; [done|]. by exists 9000, (bs "10.0.0.2:6379").
Qed.

End TwoNodes.

(** Nodes that answer every command with the command itself. *)
Module EchoNodes.
#[local] Existing Instance combine_ref.
#[local] Existing Instance combine_ref_laws.
#[local] Existing Instance insertion_order.
#[local] Existing Instance xmodem.
#[local] Existing Instance lowest.
#[local] Existing Instance lowest_range.
#[local] Instance unchecked : BuildProfile := false.
#[local] Instance echo_like : ConnectionLike (list Value) := {|
  req_packed_command _ := mret Nil;
  req_packed_commands _ _ _ := mret [];
  req_command c := fun q =>
    Return (Ok (if bytes_eqb (get_packed_command c) (get_packed_command slot_cmd)
                then Array (map range_value TwoNodes.two_ranges) else SimpleString (bs "PONG"))) q;
  supports_pipelining _ := true
|}.
#[local] Instance echo_connect : Connect (list Value) := {|
  connect_to _ _ _ := Return (Ok []) ();
  node_send_packed_command b := fun q => Return (Ok ()) (q ++ (parse_stream b).1);
  node_recv_response := fun q => match q with [] => Waiting | v :: q => Return (Ok v) q end;
  node_set_read_timeout _ := mret ();
  node_set_write_timeout _ := mret ();
  node_check_connection := mret true;
  node_is_open _ := true
|}.

Lemma echo_in_order : answers_in_order (fun q : list Value => q) wire_value.
Proof.
  split; [|by intros c v vs ->; exists vs].
  intros cs c Hp. eexists. split; [reflexivity|]. f_equal.
  assert (packed cs = concat (map encode (map wire_value cs))) as ->.
  { rewrite <- (app_nil_l (concat _)), <- write_packed_fold. done. }
  rewrite parse_stream_encode; [done|]. apply Forall_map. eapply Forall_impl; [exact Hp|]. intros c' [Hs Hc].
  destruct (command_value_encodable _ _ Hs Hc) as [He Hd]. split; [done|]. unfold wire_value, MAX_RECURSE_DEPTH. lia.
Qed.

Definition params : ClusterParams RandomReplicaStrategy := params_with_tls BuilderParams_default None.
Lemma echo_healthy : healthy_nodes params TwoNodes.member (fun _ q => q = []) TwoNodes.two_ranges.
Proof.
  split.
  - intros n a Ha. by exists [].
  - intros read write a c Ha ->. by exists (), [].
  - intros a c Ha ->. by exists true, [].
  - intros a c Ha ->. eexists _, []. split; [reflexivity|]. split; [done|].
    unfold TwoNodes.member in Ha. rewrite !elem_of_cons in Ha.
    destruct Ha as [->|[->|Ha]]; [done|done|by apply not_elem_of_nil in Ha].
  - by apply (bool_decide_unpack _).
  - repeat constructor; set_solver.
Qed.

Definition three_cmds : list Cmd :=
  [cmd_args "SET" [bs "a"; bs "1"]; cmd_args "GET" [bs "b"]; cmd_args "GET" [bs "a"]].
Definition start_state : ClusterConnection RandomReplicaStrategy (list Value) :=
  with_slots (from_slots TwoNodes.two_ranges) (empty_cluster params [] ()).

(** Commands to two nodes, the first and the third to the same one. *)
Lemma cluster_pipeline_in_order_witness : exists s',
  send_recv_and_retry_cmds three_cmds start_state = Return (Ok (map wire_value three_cmds)) s'.
Proof.
  destruct (cluster_pipeline_in_order params TwoNodes.member TwoNodes.two_ranges (fun q => q) wire_value
    echo_healthy echo_in_order three_cmds) with (s := start_state) as (s' & E & _); [..|eauto].
  - by repeat constructor; vm_compute; try congruence.
  - by repeat constructor; vm_compute; try congruence.
  - split; [done..|]. apply map_Forall_empty.
  - intros x a [->|[->|[]%not_elem_of_nil]%elem_of_cons]%elem_of_cons [->|[]%not_elem_of_nil]%elem_of_cons;
      vm_compute; set_solver.
  - apply TwoNodes.two_ranges_cover.
Defined.
End EchoNodes.

(** Nodes that answer MGET only for the keys whose slots they hold. *)
Module KeyNodes.
Import TwoNodes.
#[local] Existing Instance combine_ref.
#[local] Existing Instance insertion_order.
#[local] Existing Instance xmodem.
#[local] Existing Instance lowest.
#[local] Existing Instance lowest_range.
#[local] Instance unchecked : BuildProfile := false.

Definition first_key (g : list bytes) : Value := BulkString (concat (take 1 g)).
Definition owner_of (slot : Z) : NodeAddress := if slot <=? 8191 then n1 else n2.
Definition key_held (a : NodeAddress) (g : list bytes) : bool :=
  match g with key :: _ => bool_decide (owner_of (slot_number (Slot_for_key key)) = a) | [] => false end.
(** A connection is the address of its node. *)
Definition node_answer (c : Cmd) (a : NodeAddress) : Value :=
  let name := default [] (head (args_of c)) in
  if bytes_eqb name (bs "CLUSTER") then Array (map range_value two_ranges)
  else if bytes_eqb name (bs "MGET")
  then if forallb (key_held a) (groups KeysOnly (tail (args_of c))) then node_reply KeysOnly first_key c
       else ServerErr (err_parser (bs "CROSSSLOT Keys in request don't hash to the same slot"))
  else SimpleString (bs "PONG").
#[local] Instance key_like : ConnectionLike NodeAddress := {|
  req_packed_command _ := mret Nil;
  req_packed_commands _ _ _ := mret [];
  req_command c := fun a => Return (Ok (node_answer c a)) a;
  supports_pipelining _ := true
|}.
#[local] Instance key_connect : Connect NodeAddress := {|
  connect_to _ i _ := Return (NodeAddress_of_addr (addr i)) ();
  node_send_packed_command _ := mret ();
  node_recv_response := mret Nil;
  node_set_read_timeout _ := mret ();
  node_set_write_timeout _ := mret ();
  node_check_connection := mret true;
  node_is_open _ := true
|}.
Definition connected : ClusterConnection RandomReplicaStrategy NodeAddress :=
  with_connections (fun _ => {[n1 := n1]}) (with_slots (from_slots two_ranges) (empty_cluster params [] ())).

Lemma key_nodes_healthy : healthy_nodes params member (fun a c => c = a) two_ranges.
Proof.
  split.
  - intros n a Ha. exists a. split; [|done]. by destruct a.
  - intros read write a c Ha ->. by exists (), a.
  - intros a c Ha ->. by exists true, a.
  - intros a c Ha ->. eexists _, a. split; [reflexivity|]. split; [done|].
    unfold member in Ha. rewrite !elem_of_cons in Ha. destruct Ha as [->|[->|Ha]]; [done|done|by apply not_elem_of_nil in Ha].
  - by apply (bool_decide_unpack _).
  - repeat constructor; set_solver.
Qed.

Lemma holds_held ro a sub : holds_keys two_ranges ro KeysOnly a sub ->
  forallb (key_held a) (groups KeysOnly (tail (args_of sub))) = true.
Proof.
  intros [_ Hg]. apply forallb_forall. intros g Hin%list_elem_of_In. rewrite Forall_forall in Hg.
  destruct (Hg g Hin) as (key & rest & -> & r & Hr & Hs & Ha). unfold key_held. apply bool_decide_eq_true_2.
  unfold two_ranges in Hr. rewrite !elem_of_cons in Hr. unfold owner_of.
  destruct Hr as [->|[->|[]%not_elem_of_nil]], Ha as [->|[_ []%not_elem_of_nil]]; simpl master in *; simpl start in Hs;
    simpl end_ in Hs; destruct (Z.leb_spec (slot_number (Slot_for_key key)) 8191); done || lia.
Qed.

Definition mget_cmd : Cmd := cmd_args "MGET" [bs "a"; bs "b"; bs "{a}x"].
(** Three keys, the first and the last of the same slot; the second is held by
    the other node. *)
Lemma multi_slot_answered_witness : exists s',
  cluster_req_command mget_cmd connected =
    Return (Ok (Array [BulkString (bs "a"); BulkString (bs "b"); BulkString (bs "{a}x")])) s'.
Proof.
  apply (multi_slot_answered params member (fun a c => c = a) two_ranges key_nodes_healthy
    mget_cmd (bs "MGET") (bs "MGET") [bs "a"; bs "b"; bs "{a}x"] KeysOnly first_key connected); try done.
  - apply presents_args; [reflexivity| |reflexivity|discriminate]. intros Hin.
    by repeat (apply elem_of_cons in Hin as [Hin|Hin]; [done|]); apply not_elem_of_nil in Hin.
  - intros sub a conn Hh Hk ->. exists a. split; [|done]. simpl. unfold node_answer. rewrite Hh. simpl.
    by rewrite (holds_held _ _ _ Hk).
  - split; [done..|]. intros a c. simpl. rewrite lookup_singleton_Some. intros [<- <-]. split; [left|done].
  - apply two_ranges_cover.
Defined.
End KeyNodes.

(** Nodes that are busy, that refuse to write, or that echo the keys of MGET. *)
Module OtherNodes.
#[local] Existing Instance combine_ref.
#[local] Existing Instance insertion_order.
#[local] Existing Instance xmodem.
#[local] Existing Instance lowest.
#[local] Existing Instance lowest_range.
#[local] Instance unchecked : BuildProfile := false.

Definition server_answer (c : Cmd) : Value :=
  let name := default [] (head (args_of c)) in
  if bytes_eqb name (bs "CLUSTER") then Array (map range_value TwoNodes.two_ranges)
  else if bytes_eqb name (bs "MSET")
  then if bytes_eqb (default [] (args_of c !! 1%nat)) (bs "a")
       then ServerErr (err_parser (bs "OOM command not allowed")) else Okay
  else if bytes_eqb name (bs "GET") then ServerErr (err_parser (bs "TRYAGAIN later"))
  else SimpleString (bs "PONG").
#[local] Instance server_like : ConnectionLike unit := {|
  req_packed_command _ := mret Nil;
  req_packed_commands _ _ _ := mret [];
  req_command c := mret (server_answer c);
  supports_pipelining _ := true
|}.
#[local] Instance server_connect : Connect unit := {|
  connect_to _ _ _ := Return (Ok ()) ();
  node_send_packed_command b := mret ();
  node_recv_response := mret Nil;
  node_set_read_timeout _ := mret ();
  node_set_write_timeout _ := mret ();
  node_check_connection := mret true;
  node_is_open _ := true
|}.
Definition params : ClusterParams RandomReplicaStrategy := params_with_tls BuilderParams_default None.
Definition connected : ClusterConnection RandomReplicaStrategy unit :=
  with_connections (fun _ => {[TwoNodes.n1 := ()]})
    (with_slots (from_slots TwoNodes.two_ranges) (empty_cluster params [] ())).

Lemma server_healthy : healthy_nodes params TwoNodes.member (fun _ _ => True) TwoNodes.two_ranges.
Proof.
  split.
  - intros n a Ha. by exists ().
  - intros read write a [] Ha _. exists (), (). split; [vm_compute; reflexivity|done].
  - intros a [] Ha _. by exists true, ().
  - intros a [] Ha _. eexists _, (). split; [reflexivity|]. split; [done|].
    unfold TwoNodes.member in Ha. rewrite !elem_of_cons in Ha.
    destruct Ha as [->|[->|Ha]]; [done|done|by apply not_elem_of_nil in Ha].
  - by apply (bool_decide_unpack _).
  - repeat constructor; set_solver.
Qed.
Lemma connected_up : in_service_as params TwoNodes.member (fun _ _ => True) false connected.
Proof. split; [done..|]. intros a c. simpl. rewrite lookup_singleton_Some. intros [<- <-]. split; [left|done]. Qed.
Lemma connected_alive : map_alive TwoNodes.member (cluster_slots connected).
Proof.
  intros x a [->|[->|[]%not_elem_of_nil]%elem_of_cons]%elem_of_cons [->|[]%not_elem_of_nil]%elem_of_cons;
    vm_compute; set_solver.
Qed.

Definition mset_cmd : Cmd := cmd_args "MSET" [bs "a"; bs "1"; bs "b"; bs "2"].
Definition mset_routes : list (Route * list nat) :=
  match for_routable mset_cmd with Some (Some (MultiNode (MultiSlot routes _) _)) => routes | _ => [] end.
(** The node of the first key is out of memory. *)
Lemma multi_slot_failure_hidden_witness : exists s',
  execute_on_multiple_nodes (InputCmd mset_cmd) (MultiSlot mset_routes KeyValuePairs) (Some AllSucceeded)
    connected = Return (Ok Okay) s'.
Proof.
  apply (multi_slot_failure_hidden params TwoNodes.member (fun _ _ => True) TwoNodes.two_ranges server_answer
    (InputCmd mset_cmd) mset_routes KeyValuePairs (cmd_args "MSET" [bs "a"; bs "1"]) []
    (cmd_args "MSET" [bs "b"; bs "2"]) (err_parser (bs "OOM command not allowed")) connected).
  - apply server_healthy.
  - intros sub a c _ _ _. by exists c.
  - apply connected_up.
  - apply connected_alive.
  - apply TwoNodes.two_ranges_cover.
  - by repeat constructor; vm_compute.
  - vm_compute. reflexivity.
  - reflexivity.
  - reflexivity.
Defined.

(** Two retries, two waits. *)
Definition impatient : ClusterConnection RandomReplicaStrategy unit :=
  empty_cluster (params_with_tls (builder_params (builder_min_retry_wait (builder_max_retry_wait
    (builder_retries (ClusterClientBuilder_new []) 2) 100) 5)) None) [] ().
Definition impatient_run : exec (ClusterConnection RandomReplicaStrategy unit) Output :=
  request_single (InputCmd (TwoNodes.get_cmd "k")) (ByAddress (bs "10.0.0.1") 6379) impatient.
Lemma impatient_waits : match impatient_run with Return _ s' => slept s' = [5; 5] | _ => False end.
Proof. vm_compute. reflexivity. Qed.
Lemma request_waits_bounded_witness : exists r s',
  impatient_run = Return r s' /\ slept s' = [5; 5] /\ Forall (fun t => 5 <= t <= 99) [5; 5].
Proof.
  pose proof impatient_waits as Hw. destruct impatient_run as [r s'| |] eqn:E; [|done..].
  destruct (request_waits_bounded (InputCmd (TwoNodes.get_cmd "k")) (ByAddress (bs "10.0.0.1") 6379)
    impatient r s') as (ts & Ht & Hl & Hf); [done|done|exact E|].
  exists r, s'. split; [done|]. split; [done|]. rewrite Hw in Ht. rewrite Ht. exact Hf.
Defined.
End OtherNodes.
