(* ===== verification/Sentinel.v ===== *)
(** * Sentinels

    [sentinel.rs]: asking a list of sentinels for the master or the replicas of a
    service, checking the role of the node found, and caching one connection per
    sentinel.

    The state is generic in the type of connections, so that it stands for the
    synchronous methods and, with the asynchronous connection, for their
    asynchronous copies; the asynchronous functions that differ, those that look for
    replicas, are defined beside the synchronous ones.
    [dial n] is the result of the [n]-th connection made. *)

From S2P Require Import Prelude Text Float64 Combine Errors Types Parser Codec Cmd Convert Pipeline.
From S2P Require Import Slots Routing Effects Tls ConnInfo ClusterClient.
Local Open Scope Z_scope.

(** ** Clients *)

Record Client := { client_info : ConnectionInfo }.
(** [Client::open] of something that already is a [ConnectionInfo]. *)
Definition Client_open (i : ConnectionInfo) : result RedisError Client := Ok {| client_info := i |}.

(** [Client::get_connection]. *)
Class Dial (C : Type) := dial : nat -> ConnectionInfo -> exec unit C.

Definition not_a_sentinel_error : RedisError :=
  redis_error_of InvalidClientConfig "Address does not point to a sentinel node".

(** ** Node settings *)

Record SentinelNodeConnectionInfo := {
  node_tls_mode : option TlsMode;
  redis_connection_info : option RedisConnectionInfo;
  node_tcp_settings : option TcpSettings
}.
Definition SentinelNodeConnectionInfo_default : SentinelNodeConnectionInfo :=
  {| node_tls_mode := None; redis_connection_info := None; node_tcp_settings := None |}.

Definition set_tls_mode (i : SentinelNodeConnectionInfo) (mode : TlsMode) : SentinelNodeConnectionInfo :=
  {| node_tls_mode := Some mode; redis_connection_info := redis_connection_info i;
     node_tcp_settings := node_tcp_settings i |}.
Definition set_redis_connection_info (i : SentinelNodeConnectionInfo) (r : RedisConnectionInfo)
    : SentinelNodeConnectionInfo :=
  {| node_tls_mode := node_tls_mode i; redis_connection_info := Some r;
     node_tcp_settings := node_tcp_settings i |}.
Definition node_set_tcp_settings (i : SentinelNodeConnectionInfo) (t : TcpSettings) : SentinelNodeConnectionInfo :=
  {| node_tls_mode := node_tls_mode i; redis_connection_info := redis_connection_info i;
     node_tcp_settings := Some t |}.

Definition create_connection_info `{Pem} (i : SentinelNodeConnectionInfo) (ip : bytes) (p : Z)
    (certs : option TlsCertificates) : result RedisError ConnectionInfo :=
  addr ← match node_tls_mode i with
         | None => Ok (Tcp ip p)
         | Some Secure =>
             tls_params ← transpose retrieve_tls_certificates certs;
             Ok (TcpTls ip p false tls_params)
         | Some Insecure => Ok (TcpTls ip p true None)
         end;
  Ok {| addr := addr;
        redis_settings := default RedisConnectionInfo_default (redis_connection_info i);
        tcp_settings := default TcpSettings_default (node_tcp_settings i) |}.

(** ** What a sentinel reports *)

Definition sentinel_masters_cmd : Cmd := write_arg (cmd "SENTINEL") (bs "MASTERS").
Definition sentinel_replicas_cmd (master_name : bytes) : Cmd :=
  write_arg (write_arg (cmd "SENTINEL") (bs "SLAVES")) master_name.

Abbreviation server_info := (gmap bytes bytes) (only parsing).

Definition flags_up (flags : bytes) : bool :=
  negb (contains (bs "s_down") flags) && negb (contains (bs "o_down") flags).
Definition has_key (k : string) (i : server_info) : bool := bool_decide (is_Some (i !! bs k)).
Definition port_parses (i : server_info) : bool :=
  is_some_and (i !! bs "port") (fun p => bool_decide (is_Some (parse_int u16_ty p))).

Definition is_master_valid (i : server_info) (service_name : bytes) : bool :=
  bool_decide (i !! bs "name" = Some service_name) && has_key "ip" i && has_key "port" i &&
  is_some_and (i !! bs "flags") (fun flags => contains (bs "master") flags && flags_up flags) &&
  port_parses i.
Definition is_replica_valid (i : server_info) : bool :=
  has_key "ip" i && has_key "port" i && is_some_and (i !! bs "flags") flags_up && port_parses i.

(** The closure of [valid_addrs]; [None] is one of its panics. *)
Definition server_addr (i : server_info) : option (bytes * Z) :=
  ip ← i !! bs "ip";
  p ← i !! bs "port";
  p ← parse_int u16_ty p;
  Some (ip, p).

(** ** Roles *)

Definition quote : string := String (Ascii.ascii_of_nat 34) EmptyString.

(** [str::split] at CRLF. *)
Fixpoint split_crlf (s : bytes) : list bytes :=
  match s with
  | [] => [[]]
  | b :: r =>
      match r with
      | b' :: r' =>
          if bool_decide (b = x0d) && bool_decide (b' = x0a) then [] :: split_crlf r'
          else match split_crlf r with l :: ls => (b :: l) :: ls | [] => [[b]] end
      | [] => [[b]]
      end
  end.

Definition parse_replication_info (value : bytes) : gmap bytes bytes :=
  foldl (fun m '(k, v) => <[k:=v]> m) ∅
    (omap (split_once COLON)
       (filter (fun line => starts_with (bs "#") (trim_start line) = false) (split_crlf value))).

Definition evaluate_role_check_errors (role_err fallback_role_err : RedisError) : result RedisError bool :=
  if bool_decide (kind role_err <> Server ResponseError) then Err role_err else Err fallback_role_err.

Definition is_primary (r : Role) : bool := match r with Role_Primary _ _ => true | _ => false end.
Definition is_replica (r : Role) : bool := match r with Role_Replica _ _ _ _ => true | _ => false end.
Definition is_sentinel (r : Role) : bool := match r with Role_Sentinel _ => true | _ => false end.

Section sentinel.
Context `{F64Display} `{RR : RandRange} `{PE : Pem}.
Context {C : Type} `{CL : ConnectionLike C} `{DI : !Dial C}.

Definition frv_role : FromRedisValue Role := frv_default role_of_value role_of_value.

Definition check_role : action C Role := Cmd_query frv_role (cmd "ROLE").
Definition check_info_replication : action C bytes :=
  info ← Cmd_query frv_string (write_arg (cmd "INFO") (bs "REPLICATION"));
  match parse_replication_info info !! bs "role" with
  | Some x => mret x
  | None => fail (redis_error_of UnexpectedReturnType
                ("Missing " ++ quote ++ "role" ++ quote ++ " field")%string)
  end.

(** The part of [determine_master_from_role_or_info_replication], and of its
    asynchronous counterpart for replicas, behind the connection. *)
Definition determine_role (is_role : Role -> bool) (name : string) : action C bool :=
  role_result ← attempt check_role;
  match role_result with
  | Ok role => mret (is_role role)
  | Err role_err =>
      fallback_role_result ← attempt check_info_replication;
      match fallback_role_result with
      | Ok role => mret (bytes_eqb role (bs name))
      | Err fallback_err => lift (evaluate_role_check_errors role_err fallback_err)
      end
  end.

Record Sentinel := {
  sentinels_connection_info : list ConnectionInfo;
  connections_cache : list (option C);
  replica_start_index : Z;
  sentinel_certs : option TlsCertificates;
  dials : nat;
  sentinel_rng : rng
}.

Definition with_cache (f : list (option C) -> list (option C)) (s : Sentinel) : Sentinel :=
  {| sentinels_connection_info := sentinels_connection_info s; connections_cache := f (connections_cache s);
     replica_start_index := replica_start_index s;
     sentinel_certs := sentinel_certs s; dials := dials s; sentinel_rng := sentinel_rng s |}.
Definition with_dial (s : Sentinel) : Sentinel :=
  {| sentinels_connection_info := sentinels_connection_info s; connections_cache := connections_cache s;
     replica_start_index := replica_start_index s;
     sentinel_certs := sentinel_certs s; dials := S (dials s); sentinel_rng := sentinel_rng s |}.
Definition with_start (n : Z) (g : rng) (s : Sentinel) : Sentinel :=
  {| sentinels_connection_info := sentinels_connection_info s; connections_cache := connections_cache s;
     replica_start_index := n; sentinel_certs := sentinel_certs s; dials := dials s; sentinel_rng := g |}.

(** ** Connections *)

Definition client_get_connection (c : Client) : action Sentinel C :=
  n ← gets dials;
  _ ← modify with_dial;
  match dial n (client_info c) with
  | Return r _ => lift r
  | Waiting => wait
  | Panicked => panic
  end.

(** Run an operation on a new connection, which is dropped afterwards. *)
Definition on_fresh {A} (m : action C A) (i : ConnectionInfo) : action Sentinel A :=
  client ← lift (Client_open i);
  c ← client_get_connection client;
  fun s => match m c with
           | Return r _ => Return r s
           | Waiting => Waiting
           | Panicked => Panicked
           end.
Definition determine_master_from_role_or_info_replication (i : ConnectionInfo) : action Sentinel bool :=
  on_fresh (determine_role is_primary "master") i.
Definition async_determine_slave_from_role_or_info_replication (i : ConnectionInfo)
    : action Sentinel bool :=
  on_fresh (determine_role is_replica "slave") i.
Definition get_node_role (i : ConnectionInfo) : action Sentinel Role := on_fresh check_role i.

(** The cached connection at a position; [unwrap] of a missing one panics. *)
Definition on_cached {A} (k : nat) (m : action C A) : action Sentinel A := fun s =>
  match connections_cache s !! k with
  | Some (Some c) =>
      match m c with
      | Return r c => Return r (with_cache (insert k (Some c)) s)
      | Waiting => Waiting
      | Panicked => Panicked
      end
  | _ => Panicked
  end.
Definition set_cached (k : nat) (c : option C) : action Sentinel unit := modify (with_cache (insert k c)).

Definition reconnect (k : nat) (i : ConnectionInfo) : action Sentinel unit :=
  sentinel_client ← lift (Client_open i);
  new_connection ← client_get_connection sentinel_client;
  _ ← set_cached k (Some new_connection);
  role ← on_cached k check_role;
  if is_sentinel role then mret ()
  else _ ← set_cached k None; fail not_a_sentinel_error.

Definition try_single_sentinel {T} (F : FromRedisValue T) (c : Cmd) (k : nat) (i : ConnectionInfo)
    : action Sentinel T :=
  cache ← gets connections_cache;
  _ ← match cache !! k with
      | Some (Some _) => mret ()
      | _ => reconnect k i
      end;
  r ← attempt (on_cached k (Cmd_query F c));
  match r with
  | Ok v => mret v
  | Err err =>
      if is_unrecoverable_error err || is_io_error err
      then _ ← reconnect k i; on_cached k (Cmd_query F c)
      else fail err
  end.

(** The loop of [try_all_sentinels]; the final [expect] panics without sentinels. *)
Fixpoint try_sentinels {T} (F : FromRedisValue T) (c : Cmd) (l : list (nat * ConnectionInfo))
    (last_err : option RedisError) : action Sentinel T :=
  match l with
  | [] => match last_err with Some e => fail e | None => panic end
  | (k, i) :: l =>
      r ← attempt (try_single_sentinel F c k i);
      match r with
      | Ok v => mret v
      | Err e => try_sentinels F c l (Some e)
      end
  end.
Definition try_all_sentinels {T} (F : FromRedisValue T) (c : Cmd) : action Sentinel T :=
  s ← gets id;
  try_sentinels F c (imap pair (take (length (connections_cache s)) (sentinels_connection_info s))) None.

Definition frv_servers : FromRedisValue (list server_info) := frv_vec (frv_map frv_string frv_string).
Definition get_sentinel_masters : action Sentinel (list server_info) :=
  try_all_sentinels frv_servers sentinel_masters_cmd.
Definition get_sentinel_replicas (service_name : bytes) : action Sentinel (list server_info) :=
  try_all_sentinels frv_servers (sentinel_replicas_cmd service_name).

(** ** Masters *)

Fixpoint check_masters (ni : SentinelNodeConnectionInfo) (certs : option TlsCertificates)
    (masters : list server_info) : action Sentinel ConnectionInfo :=
  match masters with
  | [] => fail (redis_error_of MasterNameNotFoundBySentinel "Master with given name not found in sentinel")
  | m :: masters =>
      '(ip, p) ← or_panic (server_addr m);
      i ← lift (create_connection_info ni ip p certs);
      ok ← determine_master_from_role_or_info_replication i;
      if ok : bool then mret i else check_masters ni certs masters
  end.
Definition find_valid_master (masters : list server_info) (service_name : bytes)
    (ni : SentinelNodeConnectionInfo) (certs : option TlsCertificates) : action Sentinel ConnectionInfo :=
  check_masters ni certs (filter (fun m => is_master_valid m service_name = true) masters).

Definition find_master_address (service_name : bytes) (ni : SentinelNodeConnectionInfo)
    : action Sentinel ConnectionInfo :=
  masters ← get_sentinel_masters;
  certs ← gets sentinel_certs;
  find_valid_master masters service_name ni certs.
Definition master_for (service_name : bytes) (ni : option SentinelNodeConnectionInfo)
    : action Sentinel Client :=
  i ← find_master_address service_name (default SentinelNodeConnectionInfo_default ni);
  lift (Client_open i).

(** ** Replicas *)

Fixpoint replica_addresses (ni : SentinelNodeConnectionInfo) (certs : option TlsCertificates)
    (replicas : list server_info) : action Sentinel (list ConnectionInfo) :=
  match replicas with
  | [] => mret []
  | r :: replicas =>
      '(ip, p) ← or_panic (server_addr r);
      i ← lift (create_connection_info ni ip p certs);
      rest ← replica_addresses ni certs replicas;
      mret (i :: rest)
  end.
Fixpoint filter_addresses (check : ConnectionInfo -> action Sentinel bool) (l : list ConnectionInfo)
    : action Sentinel (list ConnectionInfo) :=
  match l with
  | [] => mret []
  | i :: l =>
      r ← attempt (check i);
      rest ← filter_addresses check l;
      mret (match r with Ok true => i :: rest | _ => rest end)
  end.
Definition get_valid_replicas_addresses (replicas : list server_info) (ni : SentinelNodeConnectionInfo)
    (certs : option TlsCertificates) : action Sentinel (list ConnectionInfo) :=
  addresses ← replica_addresses ni certs (filter (fun r => is_replica_valid r = true) replicas);
  filter_addresses (fun i => role ← get_node_role i; mret (is_replica role)) addresses.
Definition async_get_valid_replicas_addresses (replicas : list server_info)
    (ni : SentinelNodeConnectionInfo) (certs : option TlsCertificates)
    : action Sentinel (list ConnectionInfo) :=
  addresses ← replica_addresses ni certs (filter (fun r => is_replica_valid r = true) replicas);
  filter_addresses async_determine_slave_from_role_or_info_replication addresses.

Definition find_valid_replica_addresses (service_name : bytes) (ni : SentinelNodeConnectionInfo)
    : action Sentinel (list ConnectionInfo) :=
  replicas ← get_sentinel_replicas service_name;
  certs ← gets sentinel_certs;
  get_valid_replicas_addresses replicas ni certs.

Definition async_find_valid_replica_addresses (service_name : bytes) (ni : SentinelNodeConnectionInfo)
    : action Sentinel (list ConnectionInfo) :=
  replicas ← get_sentinel_replicas service_name;
  certs ← gets sentinel_certs;
  async_get_valid_replicas_addresses replicas ni certs.

Definition no_valid_replica : RedisError :=
  redis_error_of NoValidReplicasFoundBySentinel "No valid replica found in sentinel for given name".

Definition build_replica_clients (addresses : list ConnectionInfo) : result RedisError (list Client) :=
  match addresses with
  | [] => Err no_valid_replica
  | _ => collect_results (map Client_open addresses)
  end.

(** The loop of [try_connect_to_first_replica]; the final [expect] panics. *)
Fixpoint first_replica (addresses : list ConnectionInfo) (indices : list nat)
    (last_err : option RedisError) : option (result RedisError Client) :=
  match indices with
  | [] => Err <$> last_err
  | i :: indices =>
      a ← addresses !! i;
      match Client_open a with
      | Ok client => Some (Ok client)
      | Err err => first_replica addresses indices (Some err)
      end
  end.
Definition try_connect_to_first_replica (addresses : list ConnectionInfo) (start_index : option Z)
    : option (result RedisError Client) :=
  match addresses with
  | [] => Some (Err no_valid_replica)
  | _ =>
      let start_index := default 0 start_index in
      let n := length addresses in
      first_replica addresses
        (map (fun i => Z.to_nat ((Z.of_nat i + start_index) mod Z.of_nat n)) (seq 0 n)) None
  end.

(** [random_replica_index]. *)
Definition random_replica_index (max : Z) : action Sentinel Z :=
  s ← gets id;
  '(n, g) ← or_panic (random_range 0 max (sentinel_rng s));
  _ ← modify (with_start (replica_start_index s) g);
  mret n.

Definition get_replica_clients (service_name : bytes) (ni : option SentinelNodeConnectionInfo)
    : action Sentinel (list Client) :=
  addresses ← find_valid_replica_addresses service_name (default SentinelNodeConnectionInfo_default ni);
  lift (build_replica_clients addresses).

Definition replica_for (service_name : bytes) (ni : option SentinelNodeConnectionInfo)
    : action Sentinel Client :=
  addresses ← find_valid_replica_addresses service_name (default SentinelNodeConnectionInfo_default ni);
  start_index ← match addresses with
                | [] => mret None
                | _ => n ← random_replica_index (Z.of_nat (length addresses)); mret (Some n)
                end;
  r ← or_panic (try_connect_to_first_replica addresses start_index);
  lift r.

Definition replica_rotate_for (service_name : bytes) (ni : option SentinelNodeConnectionInfo)
    : action Sentinel Client :=
  addresses ← find_valid_replica_addresses service_name (default SentinelNodeConnectionInfo_default ni);
  s ← gets id;
  _ ← match addresses with
      | [] => mret ()
      | _ => modify (with_start ((replica_start_index s + 1) mod Z.of_nat (length addresses)) (sentinel_rng s))
      end;
  start_index ← gets replica_start_index;
  r ← or_panic (try_connect_to_first_replica addresses (Some start_index));
  lift r.

Definition async_get_replica_clients (service_name : bytes) (ni : option SentinelNodeConnectionInfo)
    : action Sentinel (list Client) :=
  addresses ← async_find_valid_replica_addresses service_name (default SentinelNodeConnectionInfo_default ni);
  lift (build_replica_clients addresses).

Definition async_replica_for (service_name : bytes) (ni : option SentinelNodeConnectionInfo)
    : action Sentinel Client :=
  addresses ← async_find_valid_replica_addresses service_name (default SentinelNodeConnectionInfo_default ni);
  start_index ← match addresses with
                | [] => mret None
                | _ => n ← random_replica_index (Z.of_nat (length addresses)); mret (Some n)
                end;
  r ← or_panic (try_connect_to_first_replica addresses start_index);
  lift r.

Definition async_replica_rotate_for (service_name : bytes) (ni : option SentinelNodeConnectionInfo)
    : action Sentinel Client :=
  addresses ← async_find_valid_replica_addresses service_name (default SentinelNodeConnectionInfo_default ni);
  s ← gets id;
  _ ← match addresses with
      | [] => mret ()
      | _ => modify (with_start ((replica_start_index s + 1) mod Z.of_nat (length addresses)) (sentinel_rng s))
      end;
  start_index ← gets replica_start_index;
  r ← or_panic (try_connect_to_first_replica addresses (Some start_index));
  lift r.

(** [Sentinel::build_inner]; the warning about databases is left out. *)
Definition Sentinel_build (params : list (result RedisError ConnectionInfo)) (certs : option TlsCertificates) (g : rng)
    : option (result RedisError Sentinel) :=
  match params with
  | [] => Some (Err (redis_error_of EmptySentinelList "At least one sentinel is required"))
  | _ =>
      match collect_results params with
      | Err e => Some (Err e)
      | Ok infos =>
          '(n, g) ← random_range 0 1000000 g;
          Some (Ok {| sentinels_connection_info := infos;
                      connections_cache := replicate (length infos) None;
                      replica_start_index := n; sentinel_certs := certs; dials := 0; sentinel_rng := g |})
      end
  end.

(** ** SentinelClient *)

Inductive SentinelServerType := ServerMaster | ServerReplica.
Record SentinelClient := {
  service_name : bytes; node_connection_info : SentinelNodeConnectionInfo;
  server_type : SentinelServerType
}.

(** [SentinelClient::build_inner]. *)
Definition SentinelClient_build (params : list (result RedisError ConnectionInfo)) (name : bytes)
    (ni : option SentinelNodeConnectionInfo) (server_type : SentinelServerType)
    (certs : option TlsCertificates) (g : rng)
    : option (result RedisError (SentinelClient * Sentinel)) :=
  r ← Sentinel_build params certs g;
  Some (s ← r;
        Ok ({| service_name := name;
               node_connection_info := default SentinelNodeConnectionInfo_default ni;
               server_type := server_type |}, s)).

Definition get_client (c : SentinelClient) : action Sentinel Client :=
  match server_type c with
  | ServerMaster => master_for (service_name c) (Some (node_connection_info c))
  | ServerReplica => replica_for (service_name c) (Some (node_connection_info c))
  end.

Definition async_get_client (c : SentinelClient) : action Sentinel Client :=
  match server_type c with
  | ServerMaster => master_for (service_name c) (Some (node_connection_info c))
  | ServerReplica => async_replica_for (service_name c) (Some (node_connection_info c))
  end.

(** The loop of [get_sentinel_client]: the cache entry is always the first. *)
Fixpoint find_sentinel (l : list ConnectionInfo) (err : RedisError) : action Sentinel Client :=
  match l with
  | [] => fail err
  | i :: l =>
      match Client_open i with
      | Err _ => find_sentinel l err
      | Ok client =>
          r ← attempt (try_single_sentinel frv_role (cmd "ROLE") 0 i);
          match r with
          | Ok role => if is_sentinel role then mret client else find_sentinel l err
          | Err e => find_sentinel l e
          end
      end
  end.
Definition get_sentinel_client : action Sentinel Client :=
  infos ← gets sentinels_connection_info;
  find_sentinel infos (redis_error_of InvalidClientConfig "Couldn't open connection to a sentinel node.").

Definition sentinel_get_connection (c : SentinelClient) : action Sentinel C :=
  client ← get_client c; client_get_connection client.
Definition get_async_connection (c : SentinelClient) : action Sentinel C :=
  client ← async_get_client c; client_get_connection client.

(** [LockedSentinelClient] and [AsyncLockedSentinelClient], for the pools: one caller at a
    time; the mutex of the standard library is [poisoned] once a caller has panicked
    while holding it, that of tokio is not. *)
Definition locked_get_connection (poisoned : bool) (c : SentinelClient) : action Sentinel C :=
  if poisoned then panic else sentinel_get_connection c.
Definition locked_get_async_connection (c : SentinelClient) : action Sentinel C := get_async_connection c.

(** ** SentinelClientBuilder *)

Record BuilderConnectionParams := {
  b_tls_mode : option TlsMode; b_db : option Z; b_username : option bytes; b_password : option bytes;
  b_protocol : option ProtocolVersion; b_tcp_settings : TcpSettings;
  b_certificates : option TlsCertificates
}.
Record SentinelClientBuilder := {
  sentinels : list ConnectionAddr; builder_service_name : bytes; builder_server_type : SentinelServerType;
  client_to_redis_params : BuilderConnectionParams; client_to_sentinel_params : BuilderConnectionParams
}.

Definition BuilderConnectionParams_new : BuilderConnectionParams :=
  {| b_tls_mode := None; b_db := None; b_username := None; b_password := None; b_protocol := None;
     b_tcp_settings := TcpSettings_default; b_certificates := None |}.
Definition SentinelClientBuilder_new (sentinels : list ConnectionAddr) (name : bytes)
    (server_type : SentinelServerType) : SentinelClientBuilder :=
  {| sentinels := sentinels; builder_service_name := name; builder_server_type := server_type;
     client_to_redis_params := BuilderConnectionParams_new;
     client_to_sentinel_params := BuilderConnectionParams_new |}.

Definition builder_redis_info (p : BuilderConnectionParams) : RedisConnectionInfo :=
  {| info_db := default 0 (b_db p); info_username := b_username p; info_password := b_password p;
     info_protocol := default RESP2 (b_protocol p); skip_set_lib_name := false; lib_name := None;
     lib_ver := None |}.

(** One parameter of a connection. *)
Definition b_set_tls_mode (p : BuilderConnectionParams) (v : TlsMode) : BuilderConnectionParams :=
  {| b_tls_mode := Some v; b_db := b_db p; b_username := b_username p; b_password := b_password p;
     b_protocol := b_protocol p; b_tcp_settings := b_tcp_settings p;
     b_certificates := b_certificates p |}.
Definition b_set_db (p : BuilderConnectionParams) (v : Z) : BuilderConnectionParams :=
  {| b_tls_mode := b_tls_mode p; b_db := Some v; b_username := b_username p;
     b_password := b_password p; b_protocol := b_protocol p; b_tcp_settings := b_tcp_settings p;
     b_certificates := b_certificates p |}.
Definition b_set_username (p : BuilderConnectionParams) (v : bytes) : BuilderConnectionParams :=
  {| b_tls_mode := b_tls_mode p; b_db := b_db p; b_username := Some v; b_password := b_password p;
     b_protocol := b_protocol p; b_tcp_settings := b_tcp_settings p;
     b_certificates := b_certificates p |}.
Definition b_set_password (p : BuilderConnectionParams) (v : bytes) : BuilderConnectionParams :=
  {| b_tls_mode := b_tls_mode p; b_db := b_db p; b_username := b_username p; b_password := Some v;
     b_protocol := b_protocol p; b_tcp_settings := b_tcp_settings p;
     b_certificates := b_certificates p |}.
Definition b_set_protocol (p : BuilderConnectionParams) (v : ProtocolVersion) : BuilderConnectionParams :=
  {| b_tls_mode := b_tls_mode p; b_db := b_db p; b_username := b_username p;
     b_password := b_password p; b_protocol := Some v; b_tcp_settings := b_tcp_settings p;
     b_certificates := b_certificates p |}.
Definition b_set_tcp_settings (p : BuilderConnectionParams) (v : TcpSettings) : BuilderConnectionParams :=
  {| b_tls_mode := b_tls_mode p; b_db := b_db p; b_username := b_username p;
     b_password := b_password p; b_protocol := b_protocol p; b_tcp_settings := v;
     b_certificates := b_certificates p |}.
Definition b_set_certificates (p : BuilderConnectionParams) (v : TlsCertificates) : BuilderConnectionParams :=
  {| b_tls_mode := b_tls_mode p; b_db := b_db p; b_username := b_username p;
     b_password := b_password p; b_protocol := b_protocol p; b_tcp_settings := b_tcp_settings p;
     b_certificates := Some v |}.

Definition on_redis_params (b : SentinelClientBuilder) (p : BuilderConnectionParams) : SentinelClientBuilder :=
  {| sentinels := sentinels b; builder_service_name := builder_service_name b;
     builder_server_type := builder_server_type b; client_to_redis_params := p;
     client_to_sentinel_params := client_to_sentinel_params b |}.
Definition on_sentinel_params (b : SentinelClientBuilder) (p : BuilderConnectionParams) : SentinelClientBuilder :=
  {| sentinels := sentinels b; builder_service_name := builder_service_name b;
     builder_server_type := builder_server_type b; client_to_redis_params := client_to_redis_params b;
     client_to_sentinel_params := p |}.
Definition set_client_to_redis_tls_mode (b : SentinelClientBuilder) (v : TlsMode) : SentinelClientBuilder :=
  on_redis_params b (b_set_tls_mode (client_to_redis_params b) v).
Definition set_client_to_redis_db (b : SentinelClientBuilder) (v : Z) : SentinelClientBuilder :=
  on_redis_params b (b_set_db (client_to_redis_params b) v).
Definition set_client_to_redis_username (b : SentinelClientBuilder) (v : bytes) : SentinelClientBuilder :=
  on_redis_params b (b_set_username (client_to_redis_params b) v).
Definition set_client_to_redis_password (b : SentinelClientBuilder) (v : bytes) : SentinelClientBuilder :=
  on_redis_params b (b_set_password (client_to_redis_params b) v).
Definition set_client_to_redis_protocol (b : SentinelClientBuilder) (v : ProtocolVersion) : SentinelClientBuilder :=
  on_redis_params b (b_set_protocol (client_to_redis_params b) v).
Definition set_client_to_redis_certificates (b : SentinelClientBuilder) (v : TlsCertificates) : SentinelClientBuilder :=
  on_redis_params b (b_set_certificates (client_to_redis_params b) v).
Definition set_client_to_redis_tcp_settings (b : SentinelClientBuilder) (v : TcpSettings) : SentinelClientBuilder :=
  on_redis_params b (b_set_tcp_settings (client_to_redis_params b) v).
Definition set_client_to_sentinel_tls_mode (b : SentinelClientBuilder) (v : TlsMode) : SentinelClientBuilder :=
  on_sentinel_params b (b_set_tls_mode (client_to_sentinel_params b) v).
Definition set_client_to_sentinel_username (b : SentinelClientBuilder) (v : bytes) : SentinelClientBuilder :=
  on_sentinel_params b (b_set_username (client_to_sentinel_params b) v).
Definition set_client_to_sentinel_password (b : SentinelClientBuilder) (v : bytes) : SentinelClientBuilder :=
  on_sentinel_params b (b_set_password (client_to_sentinel_params b) v).
Definition set_client_to_sentinel_protocol (b : SentinelClientBuilder) (v : ProtocolVersion) : SentinelClientBuilder :=
  on_sentinel_params b (b_set_protocol (client_to_sentinel_params b) v).
Definition set_client_to_sentinel_certificates (b : SentinelClientBuilder) (v : TlsCertificates) : SentinelClientBuilder :=
  on_sentinel_params b (b_set_certificates (client_to_sentinel_params b) v).
Definition set_client_to_sentinel_tcp_settings (b : SentinelClientBuilder) (v : TcpSettings) : SentinelClientBuilder :=
  on_sentinel_params b (b_set_tcp_settings (client_to_sentinel_params b) v).

(** The loop over the sentinels: the TLS mode and the certificates replace those of
    a TLS address, and cannot be set for others. *)
Definition sentinel_addr (mode : option TlsMode) (certs : option TlsCertificates) (a : ConnectionAddr)
    : result RedisError ConnectionAddr :=
  match a with
  | Tcp _ _ =>
      if mode then invalid_config "Tls mode cannot be set for Tcp connection."
      else if certs then invalid_config "Certificates cannot be set for Tcp connection."
      else Ok a
  | TcpTls h p insecure tls_params =>
      let insecure := match mode with Some Secure => false | Some Insecure => true | None => insecure end in
      match certs with
      | Some certs =>
          new_tls_params ← retrieve_tls_certificates certs;
          Ok (TcpTls h p insecure (Some new_tls_params))
      | None => Ok (TcpTls h p insecure tls_params)
      end
  | Unix _ =>
      if mode then invalid_config "Tls mode cannot be set for unix sockets."
      else if certs then invalid_config "Certificates cannot be set for unix sockets."
      else Ok a
  end.

Definition SentinelClientBuilder_build (b : SentinelClientBuilder) (g : rng)
    : option (result RedisError (SentinelClient * Sentinel)) :=
  let redis := client_to_redis_params b in
  let p := client_to_sentinel_params b in
  match collect_results (map (sentinel_addr (b_tls_mode p) (b_certificates p)) (sentinels b)) with
  | Err e => Some (Err e)
  | Ok addrs =>
      SentinelClient_build
        (map (fun a => Ok {| addr := a; redis_settings := builder_redis_info p;
                             tcp_settings := b_tcp_settings p |}) addrs)
        (builder_service_name b)
        (Some {| node_tls_mode := b_tls_mode redis;
                 redis_connection_info := Some (builder_redis_info redis);
                 node_tcp_settings := Some (b_tcp_settings redis) |})
        (builder_server_type b) (b_certificates redis) g
  end.
End sentinel.

(** A builder succeeds only if TLS settings are given for TLS addresses alone; the
    chosen mode then holds for every sentinel. *)
Lemma sentinel_addr_mode `{Pem} mode certs a a' : sentinel_addr mode certs a = Ok a' ->
  tls_mode a' = mode ∪ tls_mode a /\ (is_Some mode \/ is_Some certs -> is_Some (tls_mode a)) /\
  (mode = None -> certs = None -> a' = a).
Proof.
  unfold sentinel_addr. rewrite !is_Some_alt.
  destruct a as [|h p insecure t|]; [destruct mode, certs; intros [=]; subst; naive_solver| |destruct mode, certs; intros [=]; subst; naive_solver].
  destruct certs as [c|]; [destruct (retrieve_tls_certificates c); [|done]|]; simpl; intros [= <-]; simpl;
    (split; [by destruct mode as [[]|], insecure|split; [by auto|by destruct mode as [[]|]]]).
Qed.

(** ** A service watched by sentinels *)

(** A server that is reported as valid has an address: the [unwrap]s of
    [valid_addrs] do not panic. *)
Lemma valid_server_addr i : has_key "ip" i = true -> port_parses i = true ->
  exists ip p, server_addr i = Some (ip, p).
Proof.
  unfold has_key, port_parses, server_addr. intros [ip ->]%bool_decide_eq_true Hp. simpl.
  destruct (i !! bs "port") as [t|]; [|done]. simpl in *. apply bool_decide_eq_true in Hp as [p ->]. by exists ip, p.
Qed.
Lemma is_master_valid_addr i name : is_master_valid i name = true -> exists ip p, server_addr i = Some (ip, p).
Proof. unfold is_master_valid. rewrite !andb_true_iff. intros [[[[_ ?] _] _] ?]. by apply valid_server_addr. Qed.
Lemma is_replica_valid_addr i : is_replica_valid i = true -> exists ip p, server_addr i = Some (ip, p).
Proof. unfold is_replica_valid. rewrite !andb_true_iff. intros [[[? _] _] ?]. by apply valid_server_addr. Qed.

(** Certificates that can be used. *)
Definition certs_valid `{Pem} (certs : option TlsCertificates) : Prop :=
  forall c, certs = Some c -> is_ok (retrieve_tls_certificates c) = true.

Lemma create_connection_info_ok `{Pem} ni certs ip p : certs_valid certs ->
  exists i, create_connection_info ni ip p certs = Ok i.
Proof.
  intros Hc. unfold create_connection_info. destruct (node_tls_mode ni) as [[]|]; [|by eexists..].
  destruct certs as [c|]; simpl; [|by eexists]. specialize (Hc c eq_refl).
  destruct (retrieve_tls_certificates c); [by eexists|done].
Qed.

(** Certificates are handed over to verified connections only: in the insecure mode
    those for the nodes of the service are dropped, the client's own included. *)
Lemma insecure_mode_drops_certs `{Pem} ni certs ip p : node_tls_mode ni = Some Insecure ->
  exists i, create_connection_info ni ip p certs = Ok i /\ addr i = TcpTls ip p true None.
Proof. intros Hm. unfold create_connection_info. rewrite Hm. by eexists. Qed.

Definition addresses_of `{Pem} (ni : SentinelNodeConnectionInfo) (certs : option TlsCertificates)
    (l : list server_info) : list ConnectionInfo :=
  omap (fun m => '(ip, p) ← server_addr m; to_option (create_connection_info ni ip p certs)) l.
(** The address at which a sentinel sees a master of the service: the entry names the
    service, is flagged as a master and not as down, and has a usable port. *)
Definition reported_master (name : bytes) (m : server_info) : option (bytes * Z) :=
  match m !! bs "name", m !! bs "flags", m !! bs "ip", m !! bs "port" ≫= parse_int u16_ty with
  | Some n, Some flags, Some ip, Some p =>
      if bytes_eqb n name && contains (bs "master") flags &&
         negb (contains (bs "s_down") flags || contains (bs "o_down") flags)
      then Some (ip, p) else None
  | _, _, _, _ => None
  end.
(** The masters and the replicas that the sentinels call valid. *)
Definition master_candidates `{Pem} (ni : SentinelNodeConnectionInfo) (certs : option TlsCertificates)
    (name : bytes) (l : list server_info) : list ConnectionInfo :=
  omap (fun m => '(ip, p) ← reported_master name m; to_option (create_connection_info ni ip p certs)) l.
Definition replica_candidates `{Pem} (ni : SentinelNodeConnectionInfo) (certs : option TlsCertificates)
    (l : list server_info) :=
  addresses_of ni certs (filter (fun r => is_replica_valid r = true) l).

Lemma reported_master_valid name m :
  reported_master name m = if is_master_valid m name then server_addr m else None.
Proof.
  unfold reported_master, is_master_valid, server_addr, has_key, port_parses, flags_up, bytes_eqb.
  destruct (m !! bs "name") as [n|]; [|by rewrite bool_decide_eq_false_2].
  destruct (m !! bs "flags") as [flags|], (m !! bs "ip") as [ip|], (m !! bs "port") as [p|]; simpl;
    rewrite ?andb_false_r; try done; try (by case_match).
  all: destruct (parse_int u16_ty p) as [v|]; simpl; rewrite ?andb_false_r; try done; try (by case_match).
  rewrite !andb_true_r, negb_orb, !andb_assoc. replace (bool_decide (Some n = Some name)) with (bool_decide (n = name)); [done|].
  apply bool_decide_ext. naive_solver.
Qed.
Lemma master_candidates_valid `{Pem} ni certs name l :
  master_candidates ni certs name l = addresses_of ni certs (filter (fun m => is_master_valid m name = true) l).
Proof.
  unfold master_candidates, addresses_of. induction l as [|m l IH]; [done|]. rewrite filter_cons.
  cbn [omap list_omap] in *. rewrite reported_master_valid, IH. by destruct (is_master_valid m name).
Qed.

Section service.
Context `{F64Display} `{RR : RandRange} `{PE : Pem}.
Context {C : Type} `{CL : ConnectionLike C} `{DI : !Dial C}.
Implicit Types (s : Sentinel (C := C)).
(** The sentinels, those that are up, connections in working order and broken
    ones, and what the sentinels answer to the question asked. *)
Context (infos : list ConnectionInfo) (certs : option TlsCertificates).
Context (up : ConnectionInfo -> bool) (serves broken : C -> Prop).
Context (question : Cmd) (answer : list server_info).

Record sentinels_answer : Prop := {
  dial_up n i : i ∈ infos -> up i = true -> exists c, dial n i = Return (Ok c) () /\ serves c;
  dial_down n i : i ∈ infos -> up i = false -> exists e, dial n i = Return (Err e) ();
  serves_role c : serves c -> exists names c', check_role c = Return (Ok (Role_Sentinel names)) c' /\ serves c';
  serves_answer c : serves c -> exists c', Cmd_query frv_servers question c = Return (Ok answer) c' /\ serves c';
  broken_fails c : broken c -> exists e c', Cmd_query frv_servers question c = Return (Err e) c' /\
    broken c' /\ is_unrecoverable_error e || is_io_error e = true
}.
Hypothesis answers : sentinels_answer.

(** A cached connection works or has broken; it has broken if its sentinel is
    down. *)
Definition cached_as (i : ConnectionInfo) (c : C) : Prop := serves c /\ up i = true \/ broken c.
Record cache_ok s : Prop := {
  cached_infos : sentinels_connection_info s = infos;
  cached_certs : sentinel_certs s = certs;
  cached_length : length (connections_cache s) = length infos;
  cached_conns k i c : infos !! k = Some i -> connections_cache s !! k = Some (Some c) -> cached_as i c
}.

Lemma cache_set k i oc s : cache_ok s -> infos !! k = Some i ->
  match oc with Some c => cached_as i c | None => True end ->
  cache_ok (with_cache (insert k oc) s).
Proof.
  intros [Hi Ht Hl Hc] Hk Hoc. split; simpl; [done|done|by rewrite length_insert|].
  intros k' i' c Hk' Hc'. destruct (decide (k = k')) as [<-|Hne].
  - rewrite list_lookup_insert_eq in Hc' by (rewrite Hl; by eapply lookup_lt_Some). by simplify_eq.
  - rewrite list_lookup_insert_ne in Hc' by done. by eapply Hc.
Qed.

Lemma cache_dial s : cache_ok s -> cache_ok (with_dial s).
Proof. by intros [? ? ? ?]. Qed.

Lemma reconnect_up k i s : cache_ok s -> infos !! k = Some i -> up i = true -> exists s' c,
  reconnect k i s = Return (Ok ()) s' /\ cache_ok s' /\ connections_cache s' !! k = Some (Some c) /\ serves c /\
  replica_start_index s' = replica_start_index s.
Proof.
  intros Hs Hk Hup. destruct (dial_up answers (dials s) i) as (c & Hd & Hc); [by eapply list_elem_of_lookup_2|done|].
  destruct (serves_role answers c Hc) as (names & c' & Hr & Hc').
  assert (k < length (connections_cache s))%nat as Hlt.
  { rewrite (cached_length s Hs). by eapply lookup_lt_Some. }
  unfold reconnect, Client_open, client_get_connection, set_cached, on_cached, mbind, action_bind, lift, gets, modify.
  simpl. rewrite Hd. simpl.
  rewrite list_lookup_insert_eq by done. rewrite Hr. simpl.
  eexists (with_cache (insert k (Some c')) (with_cache (insert k (Some c)) (with_dial s))), c'.
  split; [done|]. split_and!.
  - apply (cache_set k i); [apply (cache_set k i)| |]; [by apply cache_dial|done|by left|done|by left].
  - simpl. by rewrite list_lookup_insert_eq by (by rewrite length_insert).
  - done.
  - done.
Qed.

Lemma reconnect_down k i s : infos !! k = Some i -> up i = false -> exists e,
  reconnect k i s = Return (Err e) (with_dial s).
Proof.
  intros Hk Hup. destruct (dial_down answers (dials s) i) as (e & Hd); [by eapply list_elem_of_lookup_2|done|].
  exists e. unfold reconnect, Client_open, client_get_connection, mbind, action_bind, lift, gets, modify. simpl.
  by rewrite Hd.
Qed.

Lemma on_cached_ok {A} k i (m : action C A) c r c' s : cache_ok s -> infos !! k = Some i ->
  connections_cache s !! k = Some (Some c) -> m c = Return r c' -> cached_as i c' ->
  on_cached k m s = Return r (with_cache (insert k (Some c')) s) /\
  cache_ok (with_cache (insert k (Some c')) s).
Proof.
  intros Hs Hk Hc Hm Hc'. unfold on_cached. rewrite Hc, Hm. split; [done|]. by apply (cache_set k i).
Qed.

(** A connection that works answers; one that has broken is recognised. *)
Lemma ask_serving k i c s : cache_ok s -> infos !! k = Some i -> up i = true ->
  connections_cache s !! k = Some (Some c) -> serves c -> exists s',
  on_cached k (Cmd_query frv_servers question) s = Return (Ok answer) s' /\ cache_ok s' /\
  replica_start_index s' = replica_start_index s.
Proof.
  intros Hs Hk Hup Hc Hv. destruct (serves_answer answers c Hv) as (c' & Hq & Hv').
  destruct (on_cached_ok k i (Cmd_query frv_servers question) c (Ok answer) c' s) as [E2 Hs2]; [done..|by left|].
  by eexists.
Qed.
Lemma ask_broken k i c s : cache_ok s -> infos !! k = Some i ->
  connections_cache s !! k = Some (Some c) -> broken c -> exists e s',
  on_cached k (Cmd_query frv_servers question) s = Return (Err e) s' /\ cache_ok s' /\
  is_unrecoverable_error e || is_io_error e = true /\ replica_start_index s' = replica_start_index s.
Proof.
  intros Hs Hk Hc Hv. destruct (broken_fails answers c Hv) as (e & c' & Hq & Hv' & He).
  destruct (on_cached_ok k i (Cmd_query frv_servers question) c (Err e) c' s) as [E2 Hs2]; [done..|by right|].
  by eexists _, _.
Qed.

(** A sentinel that is up answers, if need be on a new connection. *)
Lemma ask_up k i s : cache_ok s -> infos !! k = Some i -> up i = true -> exists s',
  try_single_sentinel frv_servers question k i s = Return (Ok answer) s' /\ cache_ok s' /\
  replica_start_index s' = replica_start_index s.
Proof.
  intros Hs Hk Hup. unfold try_single_sentinel. run_state.
  destruct (connections_cache s !! k) as [[c|]|] eqn:E.
  - run_state. destruct (cached_conns s Hs k i c Hk E) as [[Hv _]|Hv].
    + destruct (ask_serving k i c s) as (s' & E2 & Hs2 & Hi2); [done..|].
      exists s'. by rewrite (bind_attempt _ _ _ _ _ E2).
    + destruct (ask_broken k i c s) as (e & s1 & E2 & Hs2 & He & Hi2); [done..|].
      rewrite (bind_attempt _ _ _ _ _ E2), He.
      destruct (reconnect_up k i s1 Hs2 Hk Hup) as (s3 & c3 & E3 & Hs3 & Hc3 & Hv3 & Hi3).
      rewrite (bind_ok _ _ _ _ _ E3).
      destruct (ask_serving k i c3 s3) as (s' & E4 & Hs4 & Hi4); [done..|].
      exists s'. split_and!; [done|done|congruence].
  - destruct (reconnect_up k i s Hs Hk Hup) as (s1 & c & E1 & Hs1 & Hc1 & Hv1 & Hi1).
    rewrite (bind_ok _ _ _ _ _ E1).
    destruct (ask_serving k i c s1) as (s' & E2 & Hs2 & Hi2); [done..|].
    exists s'. rewrite (bind_attempt _ _ _ _ _ E2). split_and!; [done|done|congruence].
  - exfalso. apply lookup_ge_None in E. rewrite (cached_length s Hs) in E. apply lookup_lt_Some in Hk. lia.
Qed.

Lemma ask_down k i s : cache_ok s -> infos !! k = Some i -> up i = false -> exists e s',
  try_single_sentinel frv_servers question k i s = Return (Err e) s' /\ cache_ok s' /\
  replica_start_index s' = replica_start_index s.
Proof.
  intros Hs Hk Hup. unfold try_single_sentinel. run_state.
  destruct (connections_cache s !! k) as [[c|]|] eqn:E;
    [|destruct (reconnect_down k i s Hk Hup) as (e & Er); rewrite (bind_err _ _ _ _ _ Er);
      exists e, (with_dial s); split_and!; [done|by apply cache_dial|done]..].
  run_state. destruct (cached_conns s Hs k i c Hk E) as [[_ Hv]|Hv]; [congruence|].
  destruct (ask_broken k i c s) as (e & s1 & E2 & Hs2 & He & Hi2); [done..|].
  rewrite (bind_attempt _ _ _ _ _ E2), He.
  destruct (reconnect_down k i s1 Hk Hup) as (e' & Er).
  rewrite (bind_err _ _ _ _ _ Er). eexists e', _. split_and!; [done|by apply cache_dial|done].
Qed.

Lemma ask_each l e s : cache_ok s -> Forall (fun '(k, i) => infos !! k = Some i) l ->
  Exists (fun '(k, i) => up i = true) l -> exists s',
  try_sentinels frv_servers question l e s = Return (Ok answer) s' /\ cache_ok s' /\
  replica_start_index s' = replica_start_index s.
Proof.
  revert e s. induction l as [|[k i] l IH]; intros e s Hs Hl He; [by inversion He|].
  apply Forall_cons in Hl as [Hk Hl]. cbn [try_sentinels]. destruct (up i) eqn:Hup.
  - destruct (ask_up k i s Hs Hk Hup) as (s' & E & Hs'). exists s'. by rewrite (bind_attempt _ _ _ _ _ E).
  - destruct (ask_down k i s Hs Hk Hup) as (e' & s1 & E & Hs1 & Hi1). rewrite (bind_attempt _ _ _ _ _ E).
    destruct (IH (Some e') s1) as (s' & E' & Hs' & Hi'); [done..| |].
    + apply Exists_cons in He as [He|He]; [congruence|done].
    + exists s'. split_and!; [done|done|congruence].
Qed.

Lemma sentinels_asked s : cache_ok s -> Exists (fun i => up i = true) infos -> exists s',
  try_all_sentinels frv_servers question s = Return (Ok answer) s' /\ cache_ok s' /\
  replica_start_index s' = replica_start_index s.
Proof.
  intros Hs He. unfold try_all_sentinels. run_state. unfold id.
  rewrite (cached_length s Hs), (cached_infos s Hs), firstn_all.
  assert (forall l k, drop k infos = l -> Forall (fun '(k, i) => infos !! k = Some i) (imap (fun j => pair (k + j)%nat) l)) as Hf.
  { induction l as [|i l IH]; intros k Hd; simpl; [done|]. constructor.
    - by rewrite <- lookup_drop, Hd.
    - replace (imap _ l) with (imap (fun j => @pair nat ConnectionInfo (S k + j)%nat) l)
        by (apply imap_ext; intros; simpl; do 2 f_equal; lia).
      apply IH. by rewrite <- Nat.add_1_r, <- drop_drop, Hd. }
  apply ask_each; [done|by apply (Hf infos O)|].
  apply Exists_exists in He as (i & [k Hk]%list_elem_of_lookup_1 & Hup).
  apply Exists_exists. exists (k, i). split; [|done]. apply list_elem_of_lookup_2 with k. by rewrite list_lookup_imap, Hk.
Qed.
End service.

(** ** Finding nodes *)

Section nodes.
Context `{F64Display} `{RR : RandRange} `{PE : Pem}.
Context {C : Type} `{CL : ConnectionLike C} `{DI : !Dial C}.
Implicit Types (s : Sentinel (C := C)).
Context (infos : list ConnectionInfo) (certs : option TlsCertificates).
Context (up : ConnectionInfo -> bool) (serves broken : C -> Prop).
Hypothesis certs_accepted : certs_valid certs.

(** A connection says, by [ROLE], whether its node plays a role. *)
Definition tells (is_role : Role -> bool) (b : bool) (c : C) : Prop :=
  exists r c', check_role c = Return (Ok r) c' /\ is_role r = b.
(** By [INFO REPLICATION], where [ROLE] is not allowed. *)
Definition tells_info (name : string) (b : bool) (c : C) : Prop :=
  exists e c' t c'', check_role c = Return (Err e) c' /\ check_info_replication c' = Return (Ok t) c'' /\
    bytes_eqb t (bs name) = b.

Lemma determine_role_tells is_role name b c : tells is_role b c \/ tells_info name b c ->
  exists c', determine_role is_role name c = Return (Ok b) c'.
Proof.
  unfold determine_role. intros [(r & c' & E & <-)|(e & c' & t & c'' & E & E' & <-)].
  - by rewrite (bind_attempt _ _ _ _ _ E); eexists.
  - rewrite (bind_attempt _ _ _ _ _ E), (bind_attempt _ _ _ _ _ E'). by eexists.
Qed.

Lemma on_fresh_ok {A} (m : action C A) i c r c' s : dial (dials s) i = Return (Ok c) () -> m c = Return r c' ->
  on_fresh m i s = Return r (with_dial s).
Proof.
  intros Hd Hm. unfold on_fresh, Client_open, client_get_connection, mbind, action_bind, lift, gets, modify.
  simpl. rewrite Hd. simpl. by rewrite Hm.
Qed.

(** What comes of asking the node at [i] whether it is a master: an answer, by
    ROLE or by INFO REPLICATION, or an error, because it cannot be connected to
    or because both fail; an error reply to ROLE counts less than the error of
    the other. *)
Definition asked_for_master (n : nat) (i : ConnectionInfo) (verdict : result RedisError bool) : Prop :=
  match verdict with
  | Ok b => exists c, dial n i = Return (Ok c) () /\
      (tells (fun r => if r is Role_Primary _ _ then true else false) b c \/ tells_info "master" b c)
  | Err e =>
      dial n i = Return (Err e) () \/
      exists c e1 c1 e2 c2, dial n i = Return (Ok c) () /\ check_role c = Return (Err e1) c1 /\
        check_info_replication c1 = Return (Err e2) c2 /\ e = if decide (kind e1 = Server ResponseError) then e2 else e1
  end.
(** Whether the search ends there. *)
Definition settles (verdict : result RedisError bool) : bool :=
  match verdict with Ok b => b | Err _ => true end.

Lemma on_fresh_fails {A} (m : action C A) i e s : dial (dials s) i = Return (Err e) () ->
  on_fresh m i s = Return (Err e) (with_dial s).
Proof.
  intros Hd. unfold on_fresh, Client_open, client_get_connection, mbind, action_bind, lift, gets, modify.
  simpl. by rewrite Hd.
Qed.

Lemma determine_master_verdict i v s : asked_for_master (dials s) i v ->
  determine_master_from_role_or_info_replication i s = Return v (with_dial s).
Proof.
  unfold determine_master_from_role_or_info_replication. destruct v as [b|e]; simpl.
  - intros (c & Hd & Ht). destruct (determine_role_tells is_primary "master" b c Ht) as [c' Hc'].
    by apply (on_fresh_ok _ i c (Ok b) c').
  - intros [Hd|(c & e1 & c1 & e2 & c2 & Hd & H1 & H2 & ->)]; [by apply on_fresh_fails|].
    apply (on_fresh_ok _ i c _ c2); [done|]. unfold determine_role.
    rewrite (bind_attempt _ _ _ _ _ H1), (bind_attempt _ _ _ _ _ H2). unfold evaluate_role_check_errors, lift.
    case_decide; [by rewrite bool_decide_eq_false_2 by auto|by rewrite bool_decide_eq_true_2].
Qed.

Lemma masters_checked verdict ni l s : cache_ok infos certs up serves broken s ->
  Forall (fun m => is_Some (server_addr m)) l ->
  (forall n i, i ∈ addresses_of ni certs l -> asked_for_master n i (verdict i)) -> exists s',
  check_masters ni certs l s =
    Return (match head (filter (fun i => settles (verdict i) = true) (addresses_of ni certs l)) with
            | Some i => _ ← verdict i; Ok i
            | None => Err (redis_error_of MasterNameNotFoundBySentinel
                             "Master with given name not found in sentinel")
            end) s' /\ cache_ok infos certs up serves broken s'.
Proof.
  intros Hs Hl. revert s Hs. induction Hl as [|m l [[ip p] Hm] Hl IH]; intros s Hs Hn; [by exists s|].
  cbn [check_masters]. unfold addresses_of in *. cbn [omap list_omap] in *. rewrite Hm in *. simpl in Hn. simpl or_panic.
  run_state. destruct (create_connection_info_ok ni certs ip p certs_accepted) as [i Hi]. rewrite Hi in *.
  simpl in Hn. run_state. assert (asked_for_master (dials s) i (verdict i)) as Hv by (apply Hn; set_solver).
  apply determine_master_verdict in Hv. simpl. rewrite Hi. simpl. rewrite filter_cons.
  destruct (verdict i) as [[]|e] eqn:Ev; cbn [settles].
  - rewrite (bind_ok _ _ _ _ _ Hv). exists (with_dial s). rewrite decide_True by done. simpl. rewrite Ev.
    split; [done|by apply cache_dial].
  - rewrite (bind_ok _ _ _ _ _ Hv), decide_False by done.
    apply IH; [by apply cache_dial|]. intros n j Hj. apply Hn. set_solver.
  - rewrite (bind_err _ _ _ _ _ Hv). exists (with_dial s). rewrite decide_True by done. simpl. rewrite Ev.
    split; [done|by apply cache_dial].
Qed.

Lemma replicas_checked replica l s : cache_ok infos certs up serves broken s ->
  (forall n i, i ∈ l -> exists c, dial n i = Return (Ok c) () /\ tells is_replica (replica i) c) -> exists s',
  filter_addresses (fun i => role ← get_node_role i; mret (is_replica role)) l s =
    Return (Ok (filter (fun i => replica i = true) l)) s' /\ cache_ok infos certs up serves broken s' /\
  replica_start_index s' = replica_start_index s.
Proof.
  revert s. induction l as [|i l IH]; intros s Hs Hn; [by exists s|]. cbn [filter_addresses].
  destruct (Hn (dials s) i) as (c & Hd & r & c' & Hr & Hb); [set_solver|].
  erewrite bind_attempt by (erewrite bind_ok by (by eapply on_fresh_ok); done).
  destruct (IH (with_dial s)) as (s' & E & Hs' & Hi); [by apply cache_dial|intros n j Hj; apply Hn; set_solver|].
  rewrite (bind_ok _ _ _ _ _ E). exists s'. split; [|done]. rewrite filter_cons, Hb.
  by destruct (replica i).
Qed.

Lemma replica_addresses_of ni l s : Forall (fun m => is_Some (server_addr m)) l ->
  replica_addresses ni certs l s = Return (Ok (addresses_of ni certs l)) s.
Proof.
  induction 1 as [|m l [[ip p] Hm] Hl IH]; [done|]. cbn [replica_addresses]. unfold addresses_of in *. cbn [omap list_omap].
  destruct (create_connection_info_ok ni certs ip p certs_accepted) as [i Hi].
  rewrite Hm. simpl or_panic. run_state. rewrite Hi. run_state. rewrite (bind_ok _ _ _ _ _ IH). simpl. by rewrite Hi.
Qed.

Lemma filter_valid_addr (f : server_info -> bool) l :
  (forall i, f i = true -> exists ip p, server_addr i = Some (ip, p)) ->
  Forall (fun m => is_Some (server_addr m)) (filter (fun m => f m = true) l).
Proof.
  intros Hf. apply Forall_forall. intros m [Hm _]%list_elem_of_filter. destruct (Hf m Hm) as (ip & p & ->). done.
Qed.

Lemma find_replicas replicas replica name ni s :
  sentinels_answer infos up serves broken (sentinel_replicas_cmd name) replicas ->
  cache_ok infos certs up serves broken s -> Exists (fun i => up i = true) infos ->
  (forall n i, i ∈ replica_candidates ni certs replicas -> exists c, dial n i = Return (Ok c) () /\
     tells is_replica (replica i) c) -> exists s',
  find_valid_replica_addresses name ni s =
    Return (Ok (filter (fun i => replica i = true) (replica_candidates ni certs replicas))) s' /\
  cache_ok infos certs up serves broken s' /\ replica_start_index s' = replica_start_index s.
Proof.
  intros Ha Hs Hup Hn. destruct (sentinels_asked _ _ _ _ _ _ _ Ha s Hs Hup) as (s1 & E1 & Hs1 & Hi1).
  unfold find_valid_replica_addresses, get_sentinel_replicas, get_valid_replicas_addresses.
  rewrite (bind_ok _ _ _ _ _ E1). run_state. rewrite (cached_certs _ _ _ _ _ s1 Hs1).
  erewrite bind_ok by (by apply replica_addresses_of, filter_valid_addr, is_replica_valid_addr).
  destruct (replicas_checked replica (replica_candidates ni certs replicas) s1 Hs1 Hn) as (s' & E & Hs' & Hi').
  exists s'. split; [exact E|]. split; [done|congruence].
Qed.
End nodes.

(** ** Rotation *)

Definition rotated (addrs : list ConnectionInfo) (n : Z) : option Client :=
  (fun i => {| client_info := i |}) <$> addrs !! Z.to_nat (n mod Z.of_nat (length addrs)).

Lemma first_replica_start addrs n c : rotated addrs n = Some c ->
  try_connect_to_first_replica addrs (Some n) = Some (Ok c).
Proof.
  unfold rotated, try_connect_to_first_replica. destruct addrs as [|a l]; [done|].
  set (addrs := a :: l). intros (i & Hi & ->)%fmap_Some.
  change (seq 0 (length addrs)) with (0%nat :: seq 1 (length l)). cbn [map first_replica default from_option id].
  change (Z.of_nat 0 + n) with n. by rewrite Hi.
Qed.

Lemma rotated_some addrs n : addrs <> [] -> exists c, rotated addrs n = Some c.
Proof.
  intros Hne. assert (0 < Z.of_nat (length addrs)) by (destruct addrs; [done|simpl; lia]).
  pose proof (Z.mod_pos_bound n (Z.of_nat (length addrs))) as Hb.
  destruct (lookup_lt_is_Some_2 addrs (Z.to_nat (n mod Z.of_nat (length addrs)))) as [i Hi]; [lia|].
  unfold rotated. rewrite Hi. by eexists.
Qed.

Lemma rotated_mod addrs n k : 0 < Z.of_nat (length addrs) ->
  rotated addrs (n mod Z.of_nat (length addrs) + k) = rotated addrs (n + k).
Proof. intros Hn. unfold rotated. by rewrite Zplus_mod_idemp_l. Qed.

(** Starting anywhere, as many steps as there are elements visit each once. *)
Lemma rotated_permutation addrs a :
  (fun j => rotated addrs (a + Z.of_nat j)) <$> seq 0 (length addrs) ≡ₚ
  (fun i => Some {| client_info := i |}) <$> addrs.
Proof.
  set (n := Z.of_nat (length addrs)).
  set (f j := Z.to_nat ((a + Z.of_nat j) mod n)).
  assert (forall j, (j < length addrs)%nat -> 0 <= (a + Z.of_nat j) mod n < n) as Hb.
  { intros j Hj. apply Z.mod_pos_bound. lia. }
  assert (f <$> seq 0 (length addrs) ≡ₚ seq 0 (length addrs)) as Hp.
  { apply submseteq_length_Permutation; [|by rewrite length_fmap].
    apply NoDup_submseteq.
    - apply NoDup_fmap_2_strong; [|apply NoDup_seq]. intros i j Hi Hj He.
      apply elem_of_seq in Hi, Hj. pose proof (Hb i ltac:(lia)). pose proof (Hb j ltac:(lia)).
      assert ((a + Z.of_nat i) mod n = (a + Z.of_nat j) mod n) as Hm by (unfold f in He; lia).
      pose proof (Z.div_mod (a + Z.of_nat i) n ltac:(lia)). pose proof (Z.div_mod (a + Z.of_nat j) n ltac:(lia)).
      assert (n = Z.of_nat (length addrs)) as Hn by done. clearbody n.
      assert ((a + Z.of_nat i) / n = (a + Z.of_nat j) / n) by nia. nia.
    - intros i (j & -> & Hj)%list_elem_of_fmap. apply elem_of_seq in Hj. pose proof (Hb j ltac:(lia)).
      apply elem_of_seq. unfold f. lia. }
  trans ((fun k => (fun i => {| client_info := i |}) <$> addrs !! k) <$> (f <$> seq 0 (length addrs))).
  { rewrite <- list_fmap_compose. done. }
  rewrite Hp. match goal with |- ?x ≡ₚ ?y => assert (x = y) as ->; [|done] end. apply list_eq. intros k. rewrite !list_lookup_fmap.
  destruct (addrs !! k) as [i|] eqn:Ek.
  - rewrite lookup_seq_lt by (by eapply lookup_lt_Some). simpl. by rewrite Ek.
  - rewrite lookup_seq_ge by (by apply lookup_ge_None). done.
Qed.

Lemma somes_permutation (cs : list Client) l :
  Some <$> cs ≡ₚ (fun i => Some {| client_info := i |}) <$> l -> map client_info cs ≡ₚ l.
Proof.
  intros Hp. apply (fmap_Permutation (fmap (M := option) client_info)) in Hp.
  rewrite <- !list_fmap_compose in Hp. apply (omap_Permutation id) in Hp.
  assert (forall l : list _, omap id ((fmap (M := option) client_info ∘ Some) <$> l) = map client_info l) as H1
    by (intros l'; induction l' as [|x l' IH]; [done|]; exact (f_equal (cons (client_info x)) IH)).
  assert (forall l : list _, omap id ((fmap (M := option) client_info ∘ fun i => Some {| client_info := i |}) <$> l) = l) as H2
    by (intros l'; induction l' as [|x l' IH]; [done|]; exact (f_equal (cons x) IH)).
  by rewrite H1, H2 in Hp.
Qed.

(** ** Masters and replicas *)

Section lookup.
Context `{F64Display} `{RR : RandRange} `{PE : Pem}.
Context {C : Type} `{CL : ConnectionLike C} `{DI : !Dial C}.
Implicit Types (s : Sentinel (C := C)).
Context (infos : list ConnectionInfo) (certs : option TlsCertificates).
Context (up : ConnectionInfo -> bool) (serves broken : C -> Prop).
Hypothesis certs_accepted : certs_valid certs.

(** C32. As long as one sentinel is up, whatever sentinels are down and whatever
    cached connections have broken, those of sentinels that are up included, the
    sentinels that are up report the same masters, and the certificates given
    can be used, [master_for] asks the nodes that the
    sentinels report as valid masters of the service, in their order, until one
    says itself that it is a master, by [ROLE] or by [INFO REPLICATION], and
    returns a client for it; a node before it that cannot be asked ends the
    search with its error, and if all say that they are no masters the error is
    that the name was not found. *)
Theorem master_for_finds_master masters verdict name ni s :
  sentinels_answer infos up serves broken sentinel_masters_cmd masters ->
  cache_ok infos certs up serves broken s -> Exists (fun i => up i = true) infos ->
  let candidates := master_candidates (default SentinelNodeConnectionInfo_default ni) certs name masters in
  (forall n i, i ∈ candidates -> asked_for_master n i (verdict i)) ->
  exists s', cache_ok infos certs up serves broken s' /\
  master_for name ni s =
    Return (match head (filter (fun i => settles (verdict i) = true) candidates) with
            | Some i => _ ← verdict i; Ok {| client_info := i |}
            | None => Err (redis_error_of MasterNameNotFoundBySentinel
                             "Master with given name not found in sentinel")
            end) s'.
Proof.
  intros Ha Hs Hup candidates Hn. destruct (sentinels_asked _ _ _ _ _ _ _ Ha s Hs Hup) as (s1 & E1 & Hs1 & _).
  destruct (masters_checked infos certs up serves broken certs_accepted verdict (default SentinelNodeConnectionInfo_default ni)
    (filter (fun m => is_master_valid m name = true) masters) s1 Hs1) as (s' & E & Hs').
  { apply (filter_valid_addr (fun m => is_master_valid m name)). intros i. apply is_master_valid_addr. }
  { unfold candidates in Hn. by rewrite master_candidates_valid in Hn. }
  exists s'. split; [done|]. unfold master_for, find_master_address, get_sentinel_masters, find_valid_master.
  unfold candidates. rewrite master_candidates_valid.
  assert ((masters ← try_all_sentinels frv_servers sentinel_masters_cmd; certs ← gets sentinel_certs;
    check_masters (default SentinelNodeConnectionInfo_default ni) certs
      (filter (fun m => is_master_valid m name = true) masters)) s = Return _ s') as Ef
    by (rewrite (bind_ok _ _ _ _ _ E1); run_state; rewrite (cached_certs _ _ _ _ _ s1 Hs1); exact E).
  destruct (head _) as [i|]; [|by rewrite (bind_err _ _ _ _ _ Ef)].
  destruct (verdict i) as [b|e]; simpl in Ef; [by rewrite (bind_ok _ _ _ _ _ Ef)|by rewrite (bind_err _ _ _ _ _ Ef)].
Qed.

(** [k] calls of [replica_rotate_for] in a row. *)
Fixpoint rotate_calls (k : nat) (name : bytes) (ni : option SentinelNodeConnectionInfo)
    : action (Sentinel (C := C)) (list Client) :=
  match k with
  | O => mret []
  | Datatypes.S k => c ← replica_rotate_for name ni; cs ← rotate_calls k name ni; mret (c :: cs)
  end.

Context (replicas : list server_info) (replica : ConnectionInfo -> bool) (name : bytes).
Context (ni : option SentinelNodeConnectionInfo).
Hypothesis answers : sentinels_answer infos up serves broken (sentinel_replicas_cmd name) replicas.
Hypothesis someone_up : Exists (fun i => up i = true) infos.
Hypothesis nodes_tell : forall n i, i ∈ replica_candidates (default SentinelNodeConnectionInfo_default ni) certs replicas ->
  exists c, dial n i = Return (Ok c) () /\ tells is_replica (replica i) c.

Definition valid_replicas : list ConnectionInfo :=
  filter (fun i => replica i = true) (replica_candidates (default SentinelNodeConnectionInfo_default ni) certs replicas).

Lemma rotate_once s : cache_ok infos certs up serves broken s -> valid_replicas <> [] -> exists s' c,
  replica_rotate_for name ni s = Return (Ok c) s' /\ cache_ok infos certs up serves broken s' /\
  replica_start_index s' = (replica_start_index s + 1) mod Z.of_nat (length valid_replicas) /\
  rotated valid_replicas (replica_start_index s + 1) = Some c.
Proof.
  intros Hs Hne. destruct (find_replicas infos certs up serves broken certs_accepted replicas replica name
    (default SentinelNodeConnectionInfo_default ni) s answers Hs someone_up nodes_tell) as (s1 & E & Hs1 & Hi1).
  fold valid_replicas in E. unfold replica_rotate_for. rewrite (bind_ok _ _ _ _ _ E).
  destruct (rotated_some valid_replicas (replica_start_index s + 1) Hne) as [c Hc].
  set (n := Z.of_nat (length valid_replicas)) in *.
  exists (with_start ((replica_start_index s1 + 1) mod n) (sentinel_rng s1) s1), c.
  assert (try_connect_to_first_replica valid_replicas (Some ((replica_start_index s1 + 1) mod n)) = Some (Ok c)) as Ht.
  { apply first_replica_start. unfold rotated in *. fold n. fold n in Hc. rewrite Hi1.
    by rewrite Zmod_mod. }
  split; [|split_and!; [by destruct Hs1|by rewrite <- Hi1|done]].
  run_state. unfold id. fold n. rewrite (bind_ok _ _ s1 () (with_start ((replica_start_index s1 + 1) mod n) (sentinel_rng s1) s1));
    [|by destruct valid_replicas].
  run_state. cbn [with_start replica_start_index]. by rewrite Ht.
Qed.

Lemma rotate_many k s : cache_ok infos certs up serves broken s -> valid_replicas <> [] -> exists s' cs,
  rotate_calls k name ni s = Return (Ok cs) s' /\
  Some <$> cs = (fun j => rotated valid_replicas (replica_start_index s + 1 + Z.of_nat j)) <$> seq 0 k.
Proof.
  revert s. induction k as [|k IH]; intros s Hs Hne; [by exists s, []|]. cbn [rotate_calls].
  destruct (rotate_once s Hs Hne) as (s1 & c & E1 & Hs1 & Hi1 & Hc).
  destruct (IH s1 Hs1 Hne) as (s' & cs & E & Hcs).
  rewrite (bind_ok _ _ _ _ _ E1), (bind_ok _ _ _ _ _ E). exists s', (c :: cs). split; [done|].
  assert (0 < Z.of_nat (length valid_replicas)) by (destruct valid_replicas; [done|simpl; lia]).
  rewrite fmap_cons, Hcs, <- cons_seq, fmap_cons. f_equal; [rewrite <- Hc; f_equal; simpl; lia|].
  rewrite <- fmap_S_seq, <- list_fmap_compose. apply list_fmap_ext. intros j x _. unfold compose.
  rewrite Hi1, <- Z.add_assoc, rotated_mod by done. f_equal. lia.
Qed.

(** While the replicas stay the same, as many calls of [replica_rotate_for] in a
    row as there are valid replicas return a client for each of them exactly
    once, wherever the rotation starts. *)
Theorem replica_rotation_fair s : cache_ok infos certs up serves broken s -> valid_replicas <> [] -> exists s' cs,
  rotate_calls (length valid_replicas) name ni s = Return (Ok cs) s' /\
  map client_info cs ≡ₚ valid_replicas.
Proof.
  intros Hs Hne. destruct (rotate_many (length valid_replicas) s Hs Hne) as (s' & cs & E & Hcs).
  exists s', cs. split; [done|]. apply somes_permutation. rewrite Hcs. apply rotated_permutation.
Qed.
End lookup.

(** ** The connection kept after an error *)

Section keeping.
Context `{F64Display} `{RR : RandRange} `{PE : Pem}.
Context {C : Type} `{CL : ConnectionLike C} `{DI : !Dial C}.
Implicit Types (s : Sentinel (C := C)).

(** A replica that refuses [ROLE] to the user of the client, and says by [INFO
    REPLICATION] that it is one, is dropped by the synchronous lookup and kept by
    the asynchronous one. *)
Lemma replica_lookup_differs i c s : dial (dials s) i = Return (Ok c) () ->
  tells_info "slave" true c ->
  filter_addresses (fun i => role ← get_node_role i; mret (is_replica role)) [i] s = Return (Ok []) (with_dial s) /\
  filter_addresses async_determine_slave_from_role_or_info_replication [i] s = Return (Ok [i]) (with_dial s).
Proof.
  intros Hd Ht. pose proof Ht as (e & c1 & t & c2 & Hr & _).
  destruct (determine_role_tells is_replica "slave" true c) as [c' Hc']; [by right|].
  cbn [filter_addresses]. split.
  - erewrite bind_attempt by (erewrite bind_err by (by eapply on_fresh_ok); done). done.
  - erewrite bind_attempt by (by eapply on_fresh_ok). done.
Qed.

(** A connection whose [ROLE] fails stays in the cache, although it was not
    shown to be one to a sentinel; later queries use it without a new check. *)
Lemma reconnect_keeps_unverified k i s c e c' : (k < length (connections_cache s))%nat ->
  dial (dials s) i = Return (Ok c) () -> check_role c = Return (Err e) c' -> exists s',
  reconnect k i s = Return (Err e) s' /\ connections_cache s' !! k = Some (Some c').
Proof.
  intros Hk Hd Hr. unfold reconnect, Client_open, client_get_connection, set_cached, on_cached, mbind,
    action_bind, lift, gets, modify.
  simpl. rewrite Hd. simpl. rewrite list_lookup_insert_eq by done. rewrite Hr.
  eexists. split; [done|]. simpl. by rewrite list_lookup_insert_eq by (by rewrite length_insert).
Qed.

(** [get_sentinel_client] asks the first cached connection for its role whatever
    the address is: once that connection works, the client returned is always
    for the first sentinel of the list, without any contact with it. *)
Lemma get_sentinel_client_first i infos c names c' s : sentinels_connection_info s = i :: infos ->
  connections_cache s !! 0%nat = Some (Some c) -> check_role c = Return (Ok (Role_Sentinel names)) c' ->
  exists s', get_sentinel_client s = Return (Ok {| client_info := i |}) s'.
Proof.
  intros Hi Hc Hr.
  assert (on_cached 0 (Cmd_query frv_role (cmd "ROLE")) s =
    Return (Ok (Role_Sentinel names)) (with_cache (insert 0%nat (Some c')) s)) as E.
  { unfold on_cached. rewrite Hc. unfold check_role in Hr. by rewrite Hr. }
  assert (try_single_sentinel frv_role (cmd "ROLE") 0 i s =
    Return (Ok (Role_Sentinel names)) (with_cache (insert 0%nat (Some c')) s)) as E'.
  { unfold try_single_sentinel. run_state. rewrite Hc. run_state. by rewrite (bind_attempt _ _ _ _ _ E). }
  unfold get_sentinel_client. run_state. rewrite Hi. cbn [find_sentinel Client_open].
  rewrite (bind_attempt _ _ _ _ _ E'). by eexists.
Qed.
End keeping.

(** ** An example *)

Module Watched.
(** [PDropped] is the end of a connection that the other side has closed. *)
Inductive Peer := PSentinel | PMaster | PReplica | PDropped.
Definition node (h : string) (p : Z) : ConnectionInfo :=
  {| addr := Tcp (bs h) p; redis_settings := RedisConnectionInfo_default; tcp_settings := TcpSettings_default |}.
Definition entry (ip flags : string) : Value :=
  Map (map (fun '(k, v) => (BulkString (bs k), BulkString (bs v)))
    [("name", "svc"); ("ip", ip); ("port", "6379"); ("flags", flags)]).
Definition known_masters : list Value :=
  [entry "10.0.0.5" "master,s_down"; entry "10.0.0.1" "master"; entry "10.0.0.2" "master"].
Definition known_replicas : list Value :=
  [entry "10.0.0.1" "slave"; entry "10.0.0.6" "slave,o_down"; entry "10.0.0.3" "slave"].
Definition peer_answer (c : Cmd) (p : Peer) : Value :=
  let packed := get_packed_command c in
  match p with
  | PSentinel =>
      if bytes_eqb packed (get_packed_command sentinel_masters_cmd) then Array known_masters
      else if bytes_eqb packed (get_packed_command (sentinel_replicas_cmd (bs "svc"))) then Array known_replicas
      else Array [BulkString (bs "sentinel"); Array [BulkString (bs "svc")]]
  | PMaster => Array [BulkString (bs "master"); Int 10; Array []]
  | PReplica => Array [BulkString (bs "slave"); BulkString (bs "10.0.0.2"); Int 6379;
                       BulkString (bs "connected"); Int 10]
  | PDropped => Nil
  end.
#[local] Instance peer_like : ConnectionLike Peer := {|
  req_packed_command _ := mret Nil;
  req_packed_commands _ _ _ := mret [];
  req_command c := fun p => match p with
    | PDropped => Return (Err (redis_error_of_io ConnectionReset)) p
    | _ => Return (Ok (peer_answer c p)) p
    end;
  supports_pipelining _ := true
|}.
(** The address identifies a node. *)
Definition is_at (i j : ConnectionInfo) : bool := bool_decide (addr i = addr j).
(** The first sentinel is down. *)
Definition infos : list ConnectionInfo := [node "10.0.0.9" 26379; node "10.0.0.8" 26379].
Definition up (i : ConnectionInfo) : bool := is_at i (node "10.0.0.8" 26379).
#[local] Instance peer_dial : Dial Peer := fun _ i =>
  if is_at i (node "10.0.0.9" 26379) then Return (Err (redis_error_of_io ConnectionRefused)) ()
  else if up i then Return (Ok PSentinel) ()
  else if is_at i (node "10.0.0.2" 6379) then Return (Ok PMaster) ()
  else Return (Ok PReplica) ().
#[local] Instance no_float_display : F64Display := fun _ => [].
#[local] Existing Instance lowest.
#[local] Existing Instance lowest_range.
#[local] Existing Instance no_pem.

Definition servers (l : list Value) : list server_info :=
  match from_redis_value frv_servers (Array l) with Ok l => l | Err _ => [] end.
Definition fresh : Sentinel (C := Peer) :=
  {| sentinels_connection_info := infos; connections_cache := [None; None]; replica_start_index := 7;
     sentinel_certs := None; dials := 0; sentinel_rng := () |}.
(** Both sentinels were connected to, and both connections have been closed. *)
Definition dropped : Sentinel (C := Peer) := with_cache (fun _ => [Some PDropped; Some PDropped]) fresh.
Abbreviation serves := (eq PSentinel) (only parsing).
Abbreviation broken := (eq PDropped) (only parsing).

Lemma infos_elem i : i ∈ infos -> i = node "10.0.0.9" 26379 \/ i = node "10.0.0.8" 26379.
Proof. unfold infos. rewrite !elem_of_cons. intros [->|[->|[]%not_elem_of_nil]]; [by left|by right]. Qed.

Lemma servers_ok l : l = known_masters \/ l = known_replicas ->
  from_redis_value frv_servers (Array l) = Ok (servers l).
Proof.
  intros Hl. assert (match from_redis_value frv_servers (Array l) with Ok _ => true | Err _ => false end = true) as E
    by (destruct Hl as [-> | ->]; vm_compute; reflexivity).
  unfold servers. by destruct (from_redis_value frv_servers (Array l)).
Qed.

Lemma peers_answer name (l : list Value) :
  name = sentinel_masters_cmd /\ l = known_masters \/ name = sentinel_replicas_cmd (bs "svc") /\ l = known_replicas ->
  sentinels_answer infos up serves broken name (servers l).
Proof.
  intros Hn. split.
  - intros n i [->| ->]%infos_elem Hup; [by vm_compute in Hup|]. exists PSentinel. vm_compute. split; reflexivity.
  - intros n i [->| ->]%infos_elem Hup; [|by vm_compute in Hup]. eexists. by vm_compute.
  - intros c <-. eexists _, PSentinel. split; [|done]. vm_compute. reflexivity.
  - intros c <-. exists PSentinel. split; [|done]. unfold Cmd_query.
    erewrite bind_ok by reflexivity. erewrite bind_ok by (destruct Hn as [[-> ->]|[-> ->]]; vm_compute; reflexivity).
    unfold lift. by rewrite servers_ok by naive_solver.
  - intros c <-. eexists _, PDropped. split; [|split; [done|]]; [vm_compute; reflexivity|by vm_compute].
Qed.

Lemma fresh_cache : cache_ok infos None up serves broken fresh.
Proof. split; [done|done|done|]. intros k i c Hk Hc. simpl in Hc. by destruct k as [|[|k]]. Qed.

Lemma dropped_cache : cache_ok infos None up serves broken dropped.
Proof. split; [done|done|done|]. intros k i c Hk Hc. right. simpl in Hc. destruct k as [|[|k]]; by simplify_eq/=. Qed.

Lemma no_certs : certs_valid None.
Proof. done. Qed.

Lemma someone_up : Exists (fun i => up i = true) infos.
Proof. right. left. by vm_compute. Qed.

(** The first sentinel is down, the cached connection to the second is broken, and
    the node that the sentinels report first has become a replica. *)
Lemma master_for_finds_master_witness : exists s',
  master_for (bs "svc") None dropped = Return (Ok {| client_info := node "10.0.0.2" 6379 |}) s'.
Proof.
  destruct (master_for_finds_master infos None up serves broken no_certs (servers known_masters)
    (fun i => Ok (is_at i (node "10.0.0.2" 6379))) (bs "svc") None dropped) as (s' & _ & E).
  - apply peers_answer. by left.
  - apply dropped_cache.
  - apply someone_up.
  - intros n i Hi.
    assert (i = node "10.0.0.1" 6379 \/ i = node "10.0.0.2" 6379) as [-> | ->].
    { apply list_elem_of_In in Hi. vm_compute in Hi. destruct Hi as [<-|[<-|[]]]; [left|right]; reflexivity. }
    + exists PReplica. split; [by vm_compute|]. left. eexists _, _. split; vm_compute; reflexivity.
    + exists PMaster. split; [by vm_compute|]. left. eexists _, _. split; vm_compute; reflexivity.
  - exists s'. rewrite E. vm_compute. reflexivity.
Defined.

Lemma replica_rotation_fair_witness : exists s' cs,
  rotate_calls 2 (bs "svc") None fresh = Return (Ok cs) s' /\
  map client_info cs ≡ₚ [node "10.0.0.1" 6379; node "10.0.0.3" 6379].
Proof.
  refine (replica_rotation_fair infos None up serves broken no_certs (servers known_replicas) (fun _ => true) (bs "svc") None
    _ _ _ fresh _ _).
  - apply peers_answer. by right.
  - apply someone_up.
  - intros n i Hi.
    assert (i = node "10.0.0.1" 6379 \/ i = node "10.0.0.3" 6379) as [-> | ->].
    { apply list_elem_of_In in Hi. vm_compute in Hi. destruct Hi as [<-|[<-|[]]]; [left|right]; reflexivity. }
    + exists PReplica. split; [by vm_compute|]. eexists _, _. split; vm_compute; reflexivity.
    + exists PReplica. split; [by vm_compute|]. eexists _, _. split; vm_compute; reflexivity.
  - apply fresh_cache.
  - by vm_compute.
Defined.

(** The second call returns a client for the sentinel that is down. *)
Lemma get_sentinel_client_unreachable :
  match get_sentinel_client fresh with
  | Return (Ok c) s =>
      client_info c = node "10.0.0.8" 26379 /\
      match get_sentinel_client s with
      | Return (Ok c) _ => client_info c = node "10.0.0.9" 26379
      | _ => False
      end
  | _ => False
  end.
Proof. vm_compute. split; reflexivity. Qed.
End Watched.
