(* ===== verification/Pools.v ===== *)
(** * Clients as connections, and connection pools

    The implementation of [ConnectionLike] for [Client] in [client.rs], which opens a
    connection for every request, the constructors of [Client] and of the connections
    of a cluster client, the locked sentinel clients, and the adapters to
    the pools of the bb8 and r2d2 crates, [bb8.rs] and [r2d2.rs]: what a pool asks
    before it hands out a connection again. *)

From S2P Require Import Prelude Text Float64 Combine Errors Types Parser Codec Cmd Convert Args Pipeline.
From S2P Require Import Slots Routing Multiplexed Caching Effects Tls ConnInfo Connection Dialing Clients ClusterClient ClusterSync Sentinel.
Local Open Scope Z_scope.

(** ** Clients *)

(** [inner_build_with_tls] of [tls.rs]. *)
Definition inner_build_with_tls `{Pem} (i : ConnectionInfo) (certificates : TlsCertificates)
    : result RedisError Client :=
  tls_params ← retrieve_tls_certificates certificates;
  match addr i with
  | TcpTls host port insecure _ =>
      Ok {| client_info := set_addr i (TcpTls host port insecure (Some tls_params)) |}
  | _ => invalid_config "Constructing a TLS client requires a URL with the `rediss://` scheme"
  end.
Definition build_with_tls `{Pem} (i : result RedisError ConnectionInfo) (certificates : TlsCertificates)
    : result RedisError Client :=
  connection_info ← i; inner_build_with_tls connection_info certificates.

Section client.
Context {C : Type} `{CL : ConnectionLike C} `{DI : !Dial C} (open_of : C -> bool).

(** A client with the number of connections it has tried to make, and those it
    has made, in the state in which they were dropped. *)
Record ClientState := { the_client : Client; connections_made : nat; dropped : list C }.

(** [self.get_connection()?] and an operation on the connection, which is dropped. *)
Definition on_connection {A} (m : action C A) : action ClientState A := fun s =>
  let after l := {| the_client := the_client s; connections_made := S (connections_made s); dropped := dropped s ++ l |} in
  match dial (connections_made s) (client_info (the_client s)) with
  | Return (Ok c) _ =>
      match m c with
      | Return r c => Return r (after [c])
      | Waiting => Waiting
      | Panicked => Panicked
      end
  | Return (Err e) _ => Return (Err e) (after [])
  | Waiting => Waiting
  | Panicked => Panicked
  end.

(** [ConnectionLike for Client]; [req_command] is the method that the trait
    provides. *)
Definition client_req_packed_command (b : bytes) : action ClientState Value := on_connection (req_packed_command b).
Definition client_req_packed_commands (b : bytes) (offset count : nat) : action ClientState (list Value) :=
  on_connection (req_packed_commands b offset count).
Definition provided_req_command (c : Cmd) : action ClientState Value :=
  client_req_packed_command (get_packed_command c).
Definition client_get_db (s : ClientState) : Z := info_db (redis_settings (client_info (the_client s))).
Definition client_check_connection (check : action C bool) : action ClientState bool :=
  r ← attempt (on_connection check);
  mret (match r with Ok b => b | Err _ => false end).
Definition client_is_open : action ClientState bool :=
  r ← attempt (on_connection (gets open_of));
  mret (match r with Ok b => b | Err _ => false end).
#[export] Instance client_like : ConnectionLike ClientState := {|
  req_packed_command := client_req_packed_command;
  req_packed_commands := client_req_packed_commands;
  req_command := provided_req_command;
  supports_pipelining _ := true
|}.

(** ** Pools *)

(** [is_valid] of both adapters, and [has_broken] of each. *)
Definition is_valid `{F64Display} : action C unit :=
  pong ← Cmd_query frv_string (cmd "PING");
  if bytes_eqb pong (bs "PONG") then mret ()
  else fail (redis_error_of_detail UnexpectedReturnType "ping request" pong).
Definition bb8_has_broken (c : C) : bool := false.
Definition r2d2_has_broken (c : C) : bool := negb (open_of c).
Definition pool_connect (i : ConnectionInfo) (n : nat) : exec unit C := dial n i.

(** ** Requests through a client *)

(** Requests in sequence, with their results. *)
Fixpoint client_session (reqs : list bytes) : action ClientState (list (result RedisError Value)) :=
  match reqs with
  | [] => mret []
  | b :: reqs =>
      r ← attempt (req_packed_command b);
      rs ← client_session reqs;
      mret (r :: rs)
  end.

(** Requests through a client share nothing: each is answered as the first request on
    a connection of its own, so that what an earlier one did to its connection
    ([WATCH], [MULTI], [SELECT]) does not last. *)
Theorem client_requests_isolated (conns : nat -> C) (answer : bytes -> C -> result RedisError Value) reqs s :
  (forall n, dial n (client_info (the_client s)) = Return (Ok (conns n)) ()) ->
  (forall b c, exists c', req_packed_command b c = Return (answer b c) c') ->
  exists s', client_session reqs s =
    Return (Ok (imap (fun i b => answer b (conns (connections_made s + i)%nat)) reqs)) s'.
Proof.
  intros Hd Ha. revert s Hd. induction reqs as [|b reqs IH]; intros s Hd; [by exists s|].
  assert (exists s1, req_packed_command b s = Return (answer b (conns (connections_made s))) s1 /\
    the_client s1 = the_client s /\ connections_made s1 = S (connections_made s)) as (s1 & E & Hc1 & Hn1).
  { simpl. unfold client_req_packed_command, on_connection. rewrite Hd.
    destruct (Ha b (conns (connections_made s))) as [c' ->]. by eexists. }
  destruct (IH s1) as [s' E']; [by rewrite Hc1|]. exists s'. cbn [client_session].
  rewrite (bind_attempt _ _ _ _ _ E), (bind_ok _ _ _ _ _ E'). cbn [imap].
  unfold mret, action_ret. do 3 f_equal; [by rewrite Nat.add_0_r|].
  apply imap_ext. intros i x _. rewrite Hn1. simpl. do 2 f_equal. lia.
Qed.

(** A connection is valid for a pool exactly if it answers [PING] with PONG. *)
Lemma is_valid_Ok `{F64Display} c c' : is_valid c = Return (Ok ()) c' <->
  exists v w, req_command (cmd "PING") c = Return (Ok v) c' /\ extract_error v = Ok w /\
    from_redis_value frv_string w = Ok (bs "PONG").
Proof.
  unfold is_valid, Cmd_query, mbind, action_bind, lift, mret, action_ret, fail.
  destruct (req_command (cmd "PING") c) as [[v|e] c1| |];
    [|split; [done|by intros (? & ? & [=] & _)]..].
  destruct (extract_error v) as [w|e] eqn:Ev; [|split; [done|intros (? & ? & [= -> ->] & Hv & _); congruence]].
  destruct (from_redis_value frv_string w) as [pong|e] eqn:Ef; cbn [into_redis_error map_err];
    [|split; [done|intros (? & ? & [= -> ->] & Hv & Hw); rewrite Ev in Hv; injection Hv as ->; by rewrite Ef in Hw]].
  destruct (bytes_eqb pong (bs "PONG")) eqn:Ep.
  - apply bytes_eqb_true in Ep as ->. split; [intros [= <-]; by exists v, w|]. by intros (? & ? & [= -> ->] & _).
  - split; [done|]. intros (v' & w' & [= -> ->] & Hv & Hw). rewrite Ev in Hv. injection Hv as ->.
    rewrite Ef in Hw. by simplify_eq.
Qed.
End client.
Arguments ClientState : clear implicits.

(** ** On the synchronous connection *)

(** After the end of the stream the adapter for r2d2 drops the connection and the one
    for bb8 leaves that to the next [PING]; a reply that came too late does not
    break a connection. *)
Lemma broken_after_eof c rest : incoming c = Err (redis_error_of_io UnexpectedEof) :: rest ->
  exists c', recv_response c = Return (Err (redis_error_of_io UnexpectedEof)) c' /\
    r2d2_has_broken open c' = true /\ bb8_has_broken c' = false.
Proof. intros Hi. unfold recv_response, read. rewrite Hi. simpl. by eexists. Qed.
Lemma usable_after_timeout c rest : incoming c = Err (redis_error_of_io TimedOut) :: rest -> open c = true ->
  exists c', recv_response c = Return (Err (redis_error_of_io TimedOut)) c' /\ r2d2_has_broken open c' = false.
Proof. intros Hi Ho. unfold recv_response, read. rewrite Hi. simpl. eexists. split; [done|]. unfold r2d2_has_broken. simpl. by rewrite Ho. Qed.

(** A command that is marked as having no response returns at once on a connection; a
    client waits for the reply that does not come. *)
Section no_response.
Context `{BuildProfile}.
#[local] Instance silent_dial : Dial Connection := fun _ i => Return (Ok (fresh_connection (redis_settings i) [] [])) ().

Lemma client_ignores_no_response c i n : Cmd_is_empty c = false -> is_no_response c = true ->
  (exists c', req_command c (fresh_connection (redis_settings i) [] []) = Return (Ok Nil) c') /\
  req_command c {| the_client := {| client_info := i |}; connections_made := n; dropped := [] |} = Waiting.
Proof.
  intros He Hn. pose proof (get_packed_command_nonempty c He) as Hp. split.
  - simpl. unfold conn_req_command. erewrite bind_ok by reflexivity.
    erewrite bind_ok by (by apply send_bytes_ok). rewrite Hn. by eexists.
  - simpl. unfold provided_req_command, client_req_packed_command, on_connection. simpl.
    unfold conn_req_packed_command. erewrite bind_ok by reflexivity.
    by erewrite bind_ok by (by apply send_bytes_ok).
Qed.
End no_response.

(** ** TLS clients *)

(** A client with certificates is made for TLS addresses only, and changes nothing
    else about the connection. *)
Lemma build_with_tls_spec `{Pem} i certificates :
  match inner_build_with_tls i certificates with
  | Ok c =>
      exists p, retrieve_tls_certificates certificates = Ok p /\ is_Some (tls_mode (addr i)) /\
        ConnectionAddr_eqb (addr (client_info c)) (addr i) = true /\
        (exists h n s, addr (client_info c) = TcpTls h n s (Some p)) /\
        redis_settings (client_info c) = redis_settings i /\ tcp_settings (client_info c) = tcp_settings i
  | Err e => e = other_io_error \/ tls_mode (addr i) = None /\ kind e = InvalidClientConfig
  end.
Proof.
  unfold inner_build_with_tls. pose proof (retrieve_tls_certificates_spec certificates) as Hr.
  destruct (retrieve_tls_certificates certificates) as [p|e]; simpl; [|left; apply Hr].
  destruct (addr i) as [|h n s t|] eqn:Ha; [by right| |by right].
  exists p. split_and!; [done|by eexists|by apply ConnectionAddr_eqb_spec|by eexists _, _, _|done|done].
Qed.

(** ** Cluster clients *)

Section cluster.
Context `{BuildProfile} `{HashOrder} `{Crc16} `{RR : RandRange} `{ErrorDisplay} `{CO : Combine}.
Context {S : Type} `{!ReadRoutingStrategy S}.
Context {C : Type} `{CL : ConnectionLike C} `{CN : !Connect C}.

(** [ClusterClient::new], [get_connection] and [get_connection_with_config]. *)
Definition ClusterClient_new `{Pem} (nodes : list (result RedisError ConnectionInfo))
    : result RedisError (ClusterClient S) :=
  build (ClusterClientBuilder_new nodes).
Definition cluster_get_connection (c : ClusterClient S) (g : rng) : exec (ClusterConnection S C) unit :=
  ClusterConnection_new (client_params c) (client_nodes c) g.
Definition cluster_get_connection_with_config (c : ClusterClient S) (config : ClusterConfig) (g : rng)
    : exec (ClusterConnection S C) unit :=
  ClusterConnection_new (with_config (client_params c) config) (client_nodes c) g.
End cluster.

(** A configuration in which nothing is set keeps the time-out for connecting and the
    overall one, and removes the time-out for responses. *)
Lemma empty_config_removes_timeout {S} (p : ClusterParams S) :
  connection_timeout (with_config p ClusterConfig_new) = connection_timeout p /\
  overall_response_timeout (with_config p ClusterConfig_new) = overall_response_timeout p /\
  response_timeout (with_config p ClusterConfig_new) = None.
Proof. done. Qed.

(** ** Clients over the network *)

Section network.
Context `{Network} `{TlsFeatures} `{Pem} `{Rustls} `{TargetOs} `{BuildProfile} `{CargoPkgVersion}.
(** What is read from and written to the [n]-th connection. *)
Variable traffic : nat -> ActualConnection -> list (result RedisError Value) * list (option io_ErrorKind).

Definition established (e : exec unit Established) : exec unit Connection :=
  match e with
  | Return (Ok e) u => Return (Ok (conn e)) u
  | Return (Err e) u => Return (Err e) u
  | Waiting => Waiting
  | Panicked => Panicked
  end.
Definition Client_get_connection (c : Client) (n : nat) : exec unit Connection :=
  established (Dialing.connect (traffic n) (client_info c) None 0).
(** [elapsed] is the time that connecting takes. *)
Definition Client_get_connection_with_timeout (c : Client) (timeout elapsed : Duration) (n : nat)
    : exec unit Connection :=
  established (Dialing.connect (traffic n) (client_info c) (Some timeout) elapsed).

#[local] Instance network_dial : Dial Connection := fun n i => Client_get_connection {| client_info := i |} n.

(** Setting the time-outs succeeds where the system does not refuse them. *)
Lemma set_timeouts_accepted (d : option Duration) con : d <> Some 0 -> refuses (ReadTimeout d) = None ->
  refuses (WriteTimeout d) = None -> exists con', set_timeouts d con = Ok con'.
Proof.
  intros Hd Hr Hw. unfold set_timeouts, actual_set_read_timeout, actual_set_write_timeout, actual_set, set_on.
  assert (setsockopt (ReadTimeout d) = Ok ()) as Ho by (unfold setsockopt; destruct d as [[]|]; by rewrite ?Hr).
  assert (setsockopt (WriteTimeout d) = Ok ()) as Ho' by (unfold setsockopt; destruct d as [[]|]; by rewrite ?Hw).
  destruct con; rewrite Ho; cbn [mbind result_bind io_result map_err]; rewrite Ho'; by eexists.
Qed.

(** The commands of the set-up, as the server sees them: HELLO or AUTH with what
    credentials there are, SELECT of a database other than 0, and the name and
    version of the library. *)
Definition auth_commands (i : RedisConnectionInfo) : list (list bytes) :=
  match info_protocol i, info_password i with
  | RESP3, None => [[bs "HELLO"; bs "3"]]
  | RESP3, Some password => [[bs "HELLO"; bs "3"; bs "AUTH"; default (bs "default") (info_username i); password]]
  | RESP2, None => []
  | RESP2, Some password =>
      [bs "AUTH" :: match info_username i with Some u => [u] | None => [] end ++ [password]]
  end.
Definition select_commands (i : RedisConnectionInfo) : list (list bytes) :=
  if info_db i =? 0 then [] else [[bs "SELECT"; itoa (info_db i)]].
Definition name_commands (i : RedisConnectionInfo) : list (list bytes) :=
  if skip_set_lib_name i then []
  else [[bs "CLIENT"; bs "SETINFO"; bs "LIB-NAME"; default (bs "redis-rs") (lib_name i)];
        [bs "CLIENT"; bs "SETINFO"; bs "LIB-VER"; default cargo_pkg_version (lib_ver i)]].
Definition setup_commands (i : RedisConnectionInfo) : list (list bytes) :=
  auth_commands i ++ select_commands i ++ name_commands i.

(** The server accepts a command of the set-up: AUTH is to be answered with OK,
    HELLO and SELECT without an error, and CLIENT SETINFO does not matter. *)
Definition accepts (args : list bytes) (v : Value) : bool :=
  if bool_decide (head args = Some (bs "AUTH")) then match v with Okay => true | _ => false end
  else if bool_decide (head args = Some (bs "CLIENT")) then true
  else match v with ServerErr _ => false | _ => true end.
(** The complaint of an old server about AUTH with a user name. *)
Definition complains (v : Value) : bool :=
  match v with
  | ServerErr e =>
      match ServerError_details e with
      | Some msg => contains (bs "wrong number of arguments for 'auth' command") msg
      | None => false
      end
  | _ => false
  end.

Lemma args_iter_cmd_args name l : args_iter (cmd_args name l) = map Simple (bs name :: l).
Proof.
  unfold cmd_args. destruct (built_cmd name) as (c & [= <-] & Hok & Hcur & Hi).
  destruct (write_args_built _ _ l Hok Hcur Hi) as (c & [= <-] & _ & _ & Hl). exact Hl.
Qed.

Lemma args_of_cmd_args name l : args_of (cmd_args name l) = bs name :: l.
Proof. apply args_of_simple, args_iter_cmd_args. Qed.
Lemma hello_args i : resp3_hello i = cmd_args "HELLO" (bs "3" ::
  match info_password i with
  | Some password => [bs "AUTH"; default (bs "default") (info_username i); password]
  | None => []
  end).
Proof. unfold resp3_hello. by destruct (info_password i). Qed.
Lemma auth_args u password : authenticate_cmd u password =
  cmd_args "AUTH" (match u with Some u => [u] | None => [] end ++ [password]).
Proof. by destruct u. Qed.

(** They are the commands of the set-up pipeline. *)
Lemma setup_commands_sent i :
  Forall2 (fun c l => args_iter c = map Simple l) (commands (connection_setup_pipeline i true None).1)
    (setup_commands i).
Proof.
  unfold connection_setup_pipeline, setup_commands, auth_commands, select_commands, name_commands. rewrite hello_args.
  destruct (info_protocol i); [change (supports_resp3 RESP2) with false|change (supports_resp3 RESP3) with true];
    destruct (info_password i); rewrite ?auth_args;
    destruct (info_db i =? 0), (skip_set_lib_name i); cbn -[cmd_args bs itoa map];
    repeat (apply Forall2_cons; split; [apply args_iter_cmd_args|]); apply Forall2_nil; exact I.
Qed.

Lemma setup_commands_wire i :
  get_packed_pipeline (connection_setup_pipeline i true None).1 =
  concat (map (fun l => encode (Array (map BulkString l))) (setup_commands i)).
Proof.
  rewrite get_packed_pipeline_encode. unfold sent_commands. rewrite setup_not_transaction.
  induction (setup_commands_sent i) as [|c l cs ls E _ IH]; [done|]. cbn [map concat]. rewrite IH. f_equal. f_equal.
  unfold wire_value, command_value. rewrite E. f_equal. rewrite map_map. by apply map_ext.
Qed.
Lemma setup_commands_replies server i :
  server_replies (fun c => server (args_of c)) (connection_setup_pipeline i true None).1 =
  map server (setup_commands i).
Proof.
  unfold server_replies. induction (setup_commands_sent i) as [|c l cs ls E _ IH]; [done|].
  cbn [map]. rewrite IH. f_equal. f_equal. by apply args_of_simple.
Qed.

Lemma check_hello_accepts l v :
  if accepts (bs "HELLO" :: l) v then check_resp3_auth v = Ok () else exists e, check_resp3_auth v = Err e.
Proof. change (accepts (bs "HELLO" :: l) v) with (match v with ServerErr _ => false | _ => true end). destruct v; by eauto. Qed.
Lemma check_select_accepts l v :
  if accepts (bs "SELECT" :: l) v then check_db_select v = Ok () else exists e, check_db_select v = Err e.
Proof. change (accepts (bs "SELECT" :: l) v) with (match v with ServerErr _ => false | _ => true end). destruct v; by eauto. Qed.
Lemma check_auth_accepts l v : complains v = false ->
  if accepts (bs "AUTH" :: l) v then check_resp2_auth v = Ok Succeeded else exists e, check_resp2_auth v = Err e.
Proof.
  change (accepts (bs "AUTH" :: l) v) with (match v with Okay => true | _ => false end).
  unfold complains, check_resp2_auth. destruct v; eauto. destruct (ServerError_details _); [|eauto]. intros ->. eauto.
Qed.

(** The two parts of the set-up that are checked. *)
Lemma auth_accepts server i : Forall (fun l => complains (server l) = false) (auth_commands i) ->
  let auth := if supports_resp3 (info_protocol i)
              then _ ← check_resp3_auth (server (args_of (resp3_hello i))); Ok Succeeded
              else match info_password i with
                   | Some password => check_resp2_auth (server (args_of (authenticate_cmd (info_username i) password)))
                   | None => Ok Succeeded
                   end in
  if forallb (fun l => accepts l (server l)) (auth_commands i) then auth = Ok Succeeded else exists e, auth = Err e.
Proof.
  unfold auth_commands. rewrite hello_args, args_of_cmd_args.
  destruct (info_protocol i); [change (supports_resp3 RESP2) with false|change (supports_resp3 RESP3) with true].
  - destruct (info_password i) as [password|]; [|done]. rewrite auth_args, args_of_cmd_args.
    intros Hc%Forall_inv. cbn [forallb]. rewrite andb_true_r. by apply check_auth_accepts.
  - intros _. destruct (info_password i) as [password|]; cbn [forallb]; rewrite andb_true_r;
      [pose proof (check_hello_accepts [bs "3"; bs "AUTH"; default (bs "default") (info_username i); password]) as Hv
      |pose proof (check_hello_accepts [bs "3"]) as Hv];
      match goal with |- context [accepts ?l ?v] => specialize (Hv v); destruct (accepts l v) end;
      [by rewrite Hv|destruct Hv as [e ->]; by exists e..|by rewrite Hv|destruct Hv as [e ->]; by exists e].
Qed.
Lemma select_accepts server i :
  let select := if info_db i =? 0 then Ok () else check_db_select (server (args_of (cmd_args "SELECT" [itoa (info_db i)]))) in
  if forallb (fun l => accepts l (server l)) (select_commands i) then select = Ok () else exists e, select = Err e.
Proof.
  unfold select_commands. rewrite args_of_cmd_args. destruct (info_db i =? 0); [done|]. cbn [forallb].
  rewrite andb_true_r. apply check_select_accepts.
Qed.

(** Without a complaint about AUTH, the set-up succeeds exactly if the server
    accepts all of its commands. *)
Lemma setup_verdict_accepts server i : Forall (fun l => complains (server l) = false) (setup_commands i) ->
  if forallb (fun l => accepts l (server l)) (setup_commands i)
  then setup_verdict (fun c => server (args_of c)) i true None = Ok Succeeded
  else exists e, setup_verdict (fun c => server (args_of c)) i true None = Err e.
Proof.
  intros [Hc _]%Forall_app. pose proof (auth_accepts server i Hc) as Hauth. pose proof (select_accepts server i) as Hsel.
  unfold setup_commands, setup_verdict. rewrite !forallb_app. cbv zeta in Hauth, Hsel. cbv beta.
  assert (forallb (fun l => accepts l (server l)) (name_commands i) = true) as ->
    by (unfold name_commands; by destruct (skip_set_lib_name i)).
  rewrite andb_true_r. destruct (forallb _ (auth_commands i)); cbn [andb].
  - rewrite Hauth. cbn [mbind result_bind].
    destruct (forallb _ (select_commands i)); [by rewrite Hsel|destruct Hsel as [e ->]; by exists e].
  - destruct Hauth as [e ->]. by exists e.
Qed.

(** C29. From the request to the reply: a request on a client whose address can be
    connected to opens one connection.  If the server accepts the commands of the
    set-up, these and then the request, and nothing else, were sent on it when it
    is dropped, the server's reply to the request is returned, and nothing is left
    unread; if the server refuses HELLO, AUTH or SELECT, an error is returned and
    the request is not made.  (The second attempt without a user name, after a
    complaint about the number of arguments of AUTH, is left out here.) *)
Theorem client_request_answered (server : list bytes -> Value) b v s con :
  (forall l, is_push (server l) = false) -> is_push v = false -> b <> [] ->
  refuses (ReadTimeout None) = None -> refuses (WriteTimeout None) = None ->
  let info := client_info (the_client s) in
  let setup := setup_commands (redis_settings info) in
  ActualConnection_new (addr info) None (tcp_settings info) = Some (Ok con) ->
  Forall (fun l => complains (server l) = false) setup ->
  (forall con, traffic (connections_made s) con = (map Ok (map server setup) ++ [Ok v], [])) ->
  let after l := {| the_client := the_client s; connections_made := S (connections_made s); dropped := dropped s ++ l |} in
  if forallb (fun l => accepts l (server l)) setup
  then exists c, client_req_packed_command b s = Return (Ok v) (after [c]) /\
    concat (sent c) = concat (map (fun l => encode (Array (map BulkString l))) setup) ++ b /\ incoming c = []
  else exists e, client_req_packed_command b s = Return (Err e) (after []).
Proof.
  intros Hs Hv Hb Hr Hw info setup Hcon Hc Ht after.
  pose proof (setup_verdict_accepts server (redis_settings info) Hc) as Hver. fold setup in Hver.
  set (server' := fun c => server (args_of c)) in Hver.
  destruct (set_timeouts_accepted None con) as [con1 T1]; [done..|].
  destruct (set_timeouts_accepted None con1) as [con2 T2]; [done..|].
  destruct (setup_replies_then server' (fun _ => Hs _) (redis_settings info) None [Ok v])
    as (c & Hset & Hi & Hready & _ & _ & Hsent).
  assert (setup_verdict server' (redis_settings info) true None <> Ok ShouldRetryWithoutUsername ->
    setup_replies server' (redis_settings info) None = map server setup) as Hrep.
  { intros Hn. unfold setup_replies. unfold server'. rewrite setup_commands_replies. fold server'.
    destruct (setup_verdict server' _ _ _) as [[]|]; [|done|]; apply app_nil_r. }
  assert (dial (connections_made s) info =
    match setup_outcome server' (redis_settings info) None with Ok _ => Return (Ok c) () | Err e => Return (Err e) () end /\
    (forallb (fun l => accepts l (server l)) setup = true ->
     concat (sent c) = concat (map (fun l => encode (Array (map BulkString l))) setup))) as [Hd Hsent'].
  { rewrite setup_commands_wire in Hsent.
    assert (setup_verdict server' (redis_settings info) true None <> Ok ShouldRetryWithoutUsername) as Hn
      by (destruct (forallb _ setup); [by rewrite Hver|by destruct Hver as [e ->]]).
    rewrite Hrep in Hset by done. split; [|auto].
    unfold dial, network_dial, Client_get_connection, Dialing.connect. cbn [client_info]. rewrite Hcon. simpl.
    rewrite T1, Ht. rewrite Hset. destruct (setup_outcome server' (redis_settings info) None); [|done].
    by rewrite T2. }
  unfold client_req_packed_command, on_connection. fold info. rewrite Hd. unfold setup_outcome.
  destruct (forallb _ setup).
  - rewrite Hver. simpl. destruct (req_packed_command_next b v [] c) as (c' & Hreq & Hi' & _ & Hs'); [done..|].
    rewrite Hreq. exists c'. split; [done|]. rewrite Hs', concat_app, Hsent' by done. simpl. by rewrite app_nil_r.
  - destruct Hver as [e ->]. by exists e.
Qed.
End network.

(** ** An example *)

(** Connections that count the requests made on them. *)
#[local] Instance counting_like : ConnectionLike nat := {|
  req_packed_command _ := fun n => Return (Ok (Int (Z.of_nat n))) (S n);
  req_packed_commands _ _ _ := mret [];
  req_command _ := fun n => Return (Ok (Int (Z.of_nat n))) (S n);
  supports_pipelining _ := true
|}.
#[local] Instance counting_dial : Dial nat := fun _ _ => Return (Ok 0%nat) ().

Lemma client_requests_isolated_witness : exists s',
  client_session [bs "a"; bs "b"] {| the_client := {| client_info := plain_node "h" None |}; connections_made := 0; dropped := [] |}
    = Return (Ok [Ok (Int 0); Ok (Int 0)]) s'.
Proof.
  exact (client_requests_isolated (fun _ => 0%nat) (fun _ n => Ok (Int (Z.of_nat n))) [bs "a"; bs "b"]
    {| the_client := {| client_info := plain_node "h" None |}; connections_made := 0; dropped := [] |}
    (fun _ => eq_refl) (fun _ n => ex_intro _ (S n) eq_refl)).
Defined.

(** A server that accepts everything and answers the request with 5. *)
Definition obliging (_ : list bytes) : Value := Okay.
Lemma client_request_answered_witness :
  let N := two_addresses in let V : CargoPkgVersion := bs "1.7.0" in let O : TargetOs := true in
  let B : BuildProfile := true in
  let traffic (_ : nat) (_ : ActualConnection) : list (result RedisError Value) * list (option io_ErrorKind) :=
    (map Ok (map obliging (setup_commands (redis_settings host_info))) ++ [Ok (Int 5)], []) in
  exists s', client_req_packed_command (DI := network_dial (H1 := plain_pem) (H2 := plain_rustls) (H0 := rustls_features) traffic) (bs "PING")
      {| the_client := {| client_info := host_info |}; connections_made := 0; dropped := [] |} = Return (Ok (Int 5)) s'.
Proof.
  intros N V O B traffic.
  destruct (ActualConnection_new (H0 := rustls_features) (H1 := plain_pem) (H2 := plain_rustls) (addr host_info) None
    (tcp_settings host_info)) as [[con|]|] eqn:Hcon; [|discriminate Hcon|discriminate Hcon].
  destruct (client_request_answered (H0 := rustls_features) (H1 := plain_pem) (H2 := plain_rustls) traffic obliging
    (bs "PING") (Int 5) {| the_client := {| client_info := host_info |}; connections_made := 0; dropped := [] |} con
    (fun _ => eq_refl) eq_refl ltac:(discriminate) eq_refl eq_refl Hcon ltac:(by repeat constructor) (fun _ => eq_refl))
    as (c & Hc & _).
  by eexists.
Defined.
