(* ===== verification/ClusterRequest.v ===== *)
(** * Requests of the asynchronous cluster connection

    [cluster_handling/async_connection/request.rs] and [routing.rs], with the
    types they share with [mod.rs]: where a request goes, what is done with the
    result of one attempt, and the poll function of a request.

    The receiver of an answer is a number, that of the [oneshot] channel made for
    the request; answers that are sent are returned as a list. A future is
    represented by what polling it gives. [None] is a panic. *)

From S2P Require Import Prelude Text Errors Types Parser Codec Cmd Convert Pipeline Slots Routing ClusterClient.
Local Open Scope Z_scope.

(** ** Routes *)

(** [Slot::new_random] and [Route::new_random_primary]. *)
Definition random_slot `{RandRange} (g : rng) : option (Slot * rng) :=
  '(n, g) ← random_range 0 SLOT_SIZE g; Some ({| slot_number := n |}, g).
Definition random_primary `{RandRange} (g : rng) : option (Route * rng) :=
  '(slot, g) ← random_slot g; Some (Route_with_slot slot Master, g).

Inductive InternalSingleNodeRouting (C : Type) :=
| IRandom
| ISpecificNode (route : Route)
| IByAddress (a : NodeAddress)
| IConnection (identifier : NodeAddress) (conn : C)
| IRedirect (redirect : Redirect) (previous_routing : InternalSingleNodeRouting C).
Arguments IRandom {C}.
Arguments ISpecificNode {C} route.
Arguments IByAddress {C} a.
Arguments IConnection {C} identifier conn.
Arguments IRedirect {C} redirect previous_routing.

Inductive InternalRoutingInfo (C : Type) :=
| ISingleNode (route : InternalSingleNodeRouting C)
| IMultiNode (info : MultipleNodeRoutingInfo) (policy : option ResponsePolicy).
Arguments ISingleNode {C} route.
Arguments IMultiNode {C} info policy.

Definition internal_single `{RandRange} {C} (value : SingleNodeRoutingInfo) (g : rng)
    : option (InternalSingleNodeRouting C * rng) :=
  match value with
  | Random => Some (IRandom, g)
  | SpecificNode route => Some (ISpecificNode route, g)
  | ByAddress h p => Some (IByAddress (NodeAddress_new h p), g)
  | RandomPrimary => '(route, g) ← random_primary g; Some (ISpecificNode route, g)
  end.
Definition internal_routing `{RandRange} {C} (value : RoutingInfo) (g : rng)
    : option (InternalRoutingInfo C * rng) :=
  match value with
  | SingleNode route => '(route, g) ← internal_single route g; Some (ISingleNode route, g)
  | MultiNode info policy => Some (IMultiNode info policy, g)
  end.

(** The route of a command of a pipeline, if it matters. *)
Definition route_for_command `{Crc16} `{HashOrder} `{RandRange} (c : Cmd) (g : rng)
    : option (option Route * rng) :=
  info ← for_routable c;
  match info with
  | Some (SingleNode (SpecificNode route)) => Some (Some route, g)
  | Some (SingleNode RandomPrimary) => '(route, g) ← random_primary g; Some (Some route, g)
  | _ => Some (None, g)
  end.

Definition crossed_slots : RedisError :=
  redis_error_of (Server CrossSlot) "Received crossed slots in pipeline".
(** The closure of the fold. *)
Definition choose_route (chosen next : option Route) : result RedisError (option Route) :=
  match chosen, next with
  | None, _ => Ok next
  | _, None => Ok chosen
  | Some c, Some n =>
      if bool_decide (route_slot c <> route_slot n) then Err crossed_slots
      else if bool_decide (route_slot_addr c <> Master) then Ok (Some n)
      else Ok (Some c)
  end.
Fixpoint route_for_commands `{Crc16} `{HashOrder} `{RandRange} (cs : list Cmd) (chosen : option Route) (g : rng)
    : option (result RedisError (option Route) * rng) :=
  match cs with
  | [] => Some (Ok chosen, g)
  | c :: cs =>
      '(next, g) ← route_for_command c g;
      match choose_route chosen next with
      | Err e => Some (Err e, g)
      | Ok chosen => route_for_commands cs chosen g
      end
  end.
Definition route_for_pipeline `{Crc16} `{HashOrder} `{RandRange} (p : Pipeline) (g : rng)
    : option (result RedisError (option Route) * rng) :=
  route_for_commands (commands p) None g.

(** ** Requests *)

Inductive Response := Response_Single (v : Value) | Response_Multiple (vs : list Value).
Inductive OperationTarget := Target_Node (a : NodeAddress) | Target_NotFound | Target_FanOut.
Definition OperationResult : Type := OperationTarget * result RedisError Response.

Inductive PollFlushAction :=
| Action_None
| Action_RebuildSlots
| Action_Reconnect (addrs : gset NodeAddress)
| Action_ReconnectFromInitialConnections.

Definition change_state (self next_state : PollFlushAction) : PollFlushAction :=
  match self, next_state with
  | Action_None, a | a, Action_None => a
  | Action_ReconnectFromInitialConnections, _ | _, Action_ReconnectFromInitialConnections =>
      Action_ReconnectFromInitialConnections
  | Action_RebuildSlots, _ | _, Action_RebuildSlots => Action_RebuildSlots
  | Action_Reconnect a, Action_Reconnect b => Action_Reconnect (a ∪ b)
  end.

Inductive CmdArg (C : Type) :=
| ArgCmd (c : Cmd) (routing : InternalRoutingInfo C)
| ArgPipeline (p : Pipeline) (offset count : nat) (route : InternalSingleNodeRouting C)
| ArgReconnect (a : NodeAddress).
Arguments ArgCmd {C} c routing.
Arguments ArgPipeline {C} p offset count route.
Arguments ArgReconnect {C} a.

Inductive ResultExpectation := External (sender : nat) | Internal.

Section requests.
Context {C : Type}.

(** [CmdArg::set_redirect]; a redirect of a multi-node request is ignored. *)
Definition set_redirect (redirect : option Redirect) (a : CmdArg C) : CmdArg C :=
  match redirect with
  | None => a
  | Some redirect =>
      match a with
      | ArgReconnect _ => a
      | ArgCmd c (ISingleNode route) => ArgCmd c (ISingleNode (IRedirect redirect route))
      | ArgCmd c (IMultiNode _ _) => a
      | ArgPipeline p offset count route => ArgPipeline p offset count (IRedirect redirect route)
      end
  end.

(** The closure [fix_route]. *)
Fixpoint fix_route (route : InternalSingleNodeRouting C) : InternalSingleNodeRouting C :=
  match route with
  | IRedirect _ previous_routing => fix_route previous_routing
  | IConnection identifier _ => IByAddress identifier
  | _ => route
  end.
Definition reset_routing (a : CmdArg C) : CmdArg C :=
  match a with
  | ArgReconnect _ => a
  | ArgCmd c (ISingleNode route) => ArgCmd c (ISingleNode (fix_route route))
  | ArgCmd c (IMultiNode _ _) => a
  | ArgPipeline p offset count route => ArgPipeline p offset count (fix_route route)
  end.

Record PendingRequest := { retry : Z; sender : ResultExpectation; req_cmd : CmdArg C }.
Definition with_req_cmd (f : CmdArg C -> CmdArg C) (r : PendingRequest) : PendingRequest :=
  {| retry := retry r; sender := sender r; req_cmd := f (req_cmd r) |}.
(** [u32::saturating_add]. *)
Definition with_retry (r : PendingRequest) : PendingRequest :=
  {| retry := Z.min (retry r + 1) u32_max; sender := sender r; req_cmd := req_cmd r |}.

Inductive Retry :=
| Immediately (request : PendingRequest)
| MoveToPending (request : PendingRequest)
| AfterSleep (request : PendingRequest) (sleep_duration : Z).

(** [ResultExpectation::send]. *)
Definition answers : Type := list (nat * result RedisError Response).
Definition send_result (s : ResultExpectation) (r : result RedisError Response) : answers :=
  match s with External i => [(i, r)] | Internal => [] end.

(** The error in the result that has to be handled: [Ok None] if there is none. *)
Definition error_to_handle (r : result RedisError Response) : option (option RedisError) :=
  match r with
  | Err err => Some (Some err)
  | Ok (Response_Single value) =>
      if is_error_that_requires_action value then
        match extract_error value with Err e => Some (Some e) | Ok _ => None end
      else Some None
  | Ok (Response_Multiple values) =>
      match List.find is_error_that_requires_action values with
      | Some value => match extract_error value with Err e => Some (Some e) | Ok _ => None end
      | None => Some None
      end
  end.

Definition redirect_to (f : NodeAddress -> Redirect) (err : RedisError) : option Redirect :=
  '(node, _) ← redirect_node err;
  match NodeAddress_try_from node with Ok a => Some (f a) | Err _ => None end.

Definition choose_response `{BuildProfile} `{RandRange} (result : OperationResult) (request : PendingRequest)
    (params : RetryParams) (g : rng) : option (answers * option Retry * PollFlushAction * rng) :=
  match req_cmd request with
  | ArgReconnect addr =>
      Some (send_result (sender request) (Ok (Response_Single Nil)), None, Action_Reconnect {[addr]}, g)
  | _ =>
      let '(target, result) := result in
      err ← error_to_handle result;
      match err with
      | None => Some (send_result (sender request) result, None, Action_None, g)
      | Some err =>
          let has_retries_remaining := bool_decide (retry request < number_of_retries params) in
          let request := with_retry request in
          '(sleep_duration, g) ← wait_time_for_retry params (retry request) g;
          let send_error action := Some (send_result (sender request) (Err err), None, action, g) in
          let retry_or_send (retry : Retry) action :=
            if has_retries_remaining then Some ([], Some retry, action, g) else send_error action in
          match target, retry_method err with
          | _, ReconnectFromInitialConnections =>
              retry_or_send (MoveToPending (with_req_cmd reset_routing request))
                Action_ReconnectFromInitialConnections
          | Target_Node address, Reconnect =>
              retry_or_send (MoveToPending (with_req_cmd reset_routing request)) (Action_Reconnect {[address]})
          | Target_FanOut, _ => send_error Action_None
          | Target_NotFound, _ =>
              retry_or_send (AfterSleep (with_req_cmd reset_routing request) sleep_duration) Action_RebuildSlots
          | _, AskRedirect =>
              retry_or_send (Immediately (with_req_cmd (set_redirect (redirect_to Ask err)) request)) Action_None
          | _, MovedRedirect =>
              retry_or_send (Immediately (with_req_cmd (set_redirect (redirect_to Moved err)) request))
                Action_RebuildSlots
          | _, RefreshSlotsAndRetry =>
              retry_or_send (MoveToPending (with_req_cmd reset_routing request)) Action_RebuildSlots
          | _, WaitAndRetry => retry_or_send (AfterSleep request sleep_duration) Action_None
          | _, NoRetry => send_error Action_None
          | _, RetryImmediately => retry_or_send (MoveToPending request) Action_None
          end
      end
  end.

(** ** Polling a request *)

(** The future of an attempt, or of a sleep. *)
Inductive RequestState := State_Future | State_Sleep (duration : Z).
Record Request := {
  request_params : RetryParams; request : option PendingRequest; request_state : RequestState
}.
(** What polling the future gives. *)
Inductive polled := Pending | Slept | Resolved (r : OperationResult).

(** [ResultExpectation::is_closed], for the channels whose receiver is gone. *)
Definition is_closed (closed : gset nat) (s : ResultExpectation) : bool :=
  match s with External i => bool_decide (i ∈ closed) | Internal => false end.

(** [Future::poll]: nothing, while the request is not ready. *)
Definition poll_request `{BuildProfile} `{RandRange} (closed : gset nat) (r : Request) (future : polled) (g : rng)
    : option (option (answers * option Retry * PollFlushAction) * rng) :=
  match request r with
  | None => Some (Some ([], None, Action_None), g)
  | Some req =>
      if is_closed closed (sender req) then Some (Some ([], None, Action_None), g)
      else match request_state r, future with
           | State_Sleep _, Slept => Some (Some ([], Some (Immediately req), Action_None), g)
           | State_Future, Resolved result =>
               '(sent, retry, action, g) ← choose_response result req (request_params r) g;
               Some (Some (sent, retry, action), g)
           | _, _ => Some (None, g)
           end
  end.
End requests.
Arguments PendingRequest C : clear implicits.
Arguments Retry C : clear implicits.
Arguments Request C : clear implicits.

(** ** Actions *)

#[export] Instance change_state_comm : Comm (=) change_state.
Proof. intros [| |a|] [| |b|]; try done. simpl. by rewrite (comm_L (∪) a b). Qed.
#[export] Instance change_state_assoc : Assoc (=) change_state.
Proof. intros [| |a|] [| |b|] [| |c|]; try done. simpl. by rewrite (assoc_L (∪) a b c). Qed.
#[export] Instance change_state_left_id : LeftId (=) Action_None change_state.
Proof. by intros []. Qed.
Lemma change_state_idemp a : change_state a a = a.
Proof. destruct a; try done. simpl. by rewrite (idemp_L (∪)). Qed.

(** The action after a round does not depend on the order in which the requests
    are found to be ready. *)
Lemma actions_in_any_order l l' : l ≡ₚ l' ->
  foldr change_state Action_None l = foldr change_state Action_None l'.
Proof.
  induction 1 as [|a l l' _ IH|a b l|l l' l'' _ IH1 _ IH2]; simpl; [done|by rewrite IH| |congruence].
  rewrite !(assoc (R := (=)) change_state). f_equal. apply change_state_comm.
Qed.

(** ** Redirections *)

Section redirects.
Context {C : Type}.
Implicit Types (a : CmdArg C) (r : PendingRequest C).

Lemma reset_redirect o a : reset_routing (set_redirect o a) = reset_routing a.
Proof. by destruct o, a as [c []| |]. Qed.
Lemma reset_reset a : reset_routing (reset_routing a) = reset_routing a.
Proof.
  assert (forall route : InternalSingleNodeRouting C, fix_route (fix_route route) = fix_route route) as Hf
    by (induction route; done).
  destruct a as [c []| |]; simpl; by rewrite ?Hf.
Qed.
(** Whatever redirections a request has followed, resetting it gives back the
    routing it was made with. *)
Lemma redirects_forgotten os a : reset_routing (foldr set_redirect a os) = reset_routing a.
Proof. induction os as [|o os IH]; [done|]. simpl. by rewrite reset_redirect. Qed.

(** ** Outcome of an attempt *)

Definition retried (x : Retry C) : PendingRequest C :=
  match x with Immediately r | MoveToPending r | AfterSleep r _ => r end.

(** The same request: only redirections were added or taken away. *)
Definition same_request r r' : Prop :=
  sender r' = sender r /\ reset_routing (req_cmd r') = reset_routing (req_cmd r).

Context `{BP : BuildProfile} `{RR : RandRange}.

(** An attempt either ends the request, and then its sender gets one answer, or
    it is tried again with one retry less, and then there was one left. *)
Lemma choose_response_cases result r params g sent x action g' :
  choose_response result r params g = Some (sent, x, action, g') ->
  match x with
  | None => exists v, sent = send_result (sender r) v
  | Some x => sent = [] /\ same_request r (retried x) /\ retry (retried x) = Z.min (retry r + 1) u32_max /\
              retry r < number_of_retries params
  end.
Proof.
  unfold choose_response. destruct (req_cmd r) as [c ro|p o n ro|a] eqn:Ec; [| |naive_solver].
  all: destruct result as [target result], (error_to_handle result) as [[err|]|]; simpl; [|naive_solver|done].
  all: destruct (wait_time_for_retry _ _ _) as [[d g1]|]; simpl; [|done].
  all: assert (forall a : option Redirect, same_request r (with_req_cmd reset_routing (with_retry r)) /\
      same_request r (with_req_cmd (set_redirect a) (with_retry r)) /\ same_request r (with_retry r)) as Hsame
    by (intros o'; unfold same_request; simpl; by rewrite reset_redirect, reset_reset).
  all: destruct target, (retry_method err); try case_bool_decide; intros Hx; simplify_eq; simpl; try by eexists.
  all: split_and!; try done;
    first [exact (proj1 (Hsame None))|exact (proj1 (proj2 (Hsame _)))|exact (proj2 (proj2 (Hsame None)))].
Qed.

Lemma choose_response_some result r params g :
  is_Some (error_to_handle result.2) -> (forall n g, is_Some (wait_time_for_retry params n g)) ->
  is_Some (choose_response result r params g).
Proof.
  intros [e He] Hw. unfold choose_response. destruct (req_cmd r); [| |by eexists].
  all: destruct result as [target result]; simpl in He; rewrite He; simpl; destruct e as [err|]; [|by eexists].
  all: destruct (Hw (Z.min (retry r + 1) u32_max) g) as [[d g1] ->]; simpl.
  all: destruct target, (retry_method err); try case_bool_decide; by eexists.
Qed.

(** The error that is looked for is always found. *)
Lemma error_to_handle_some result : is_Some (error_to_handle result).
Proof.
  assert (forall v, is_error_that_requires_action v = true -> exists e, extract_error v = Err e) as Hv
    by (intros []; simpl; try done; by eexists).
  destruct result as [[v|vs]|e]; simpl; [| |by eexists].
  - destruct (is_error_that_requires_action v) eqn:E; [|by eexists]. destruct (Hv v E) as [e ->]. by eexists.
  - destruct (List.find _ vs) as [v|] eqn:E; [|by eexists]. apply find_some in E as [_ E].
    destruct (Hv v E) as [e ->]. by eexists.
Qed.
End redirects.

(** ** Pipelines *)

Section pipeline_route.
Context `{CR : Crc16} `{HO : HashOrder} `{RR : RandRange}.

Lemma for_routable_not_random_primary {R} `{Routable R} (r : R) :
  for_routable r <> Some (Some (SingleNode RandomPrimary)).
Proof.
  unfold for_routable, multi_shard, key_at, for_key, try_bind, mbind, option_bind. intros Hr.
  repeat (case_match; simplify_eq); done.
Qed.

Definition command_route (c : Cmd) : option Route :=
  match for_routable c with Some (Some (SingleNode (SpecificNode route))) => Some route | _ => None end.

Lemma route_for_command_eq c g : is_Some (for_routable c) -> route_for_command c g = Some (command_route c, g).
Proof.
  intros [i Hi]. unfold route_for_command, command_route. pose proof (for_routable_not_random_primary c) as Hn.
  rewrite Hi in *. simpl. destruct i as [[[]|]|]; done.
Qed.

(** The primary if one of the commands needs it, otherwise what the last wants. *)
Definition pipeline_addr (rs : list Route) : SlotAddr :=
  if bool_decide (Master ∈ map route_slot_addr rs) then Master
  else default Master (last (map route_slot_addr rs)).

Definition pipeline_route (rs : list Route) : result RedisError (option Route) :=
  match rs with
  | [] => Ok None
  | r :: _ =>
      if bool_decide (Forall (fun r' => route_slot r' = route_slot r) rs)
      then Ok (Some {| route_slot := route_slot r; route_slot_addr := pipeline_addr rs |})
      else Err crossed_slots
  end.

Lemma pipeline_addr_app rs r : rs <> [] ->
  pipeline_addr (rs ++ [r]) =
  (if bool_decide (pipeline_addr rs <> Master) then route_slot_addr r else pipeline_addr rs).
Proof.
  intros Hne. unfold pipeline_addr. rewrite map_app, last_app. simpl.
  destruct (last (map route_slot_addr rs)) as [a|] eqn:Ea.
  2:{ apply last_None in Ea. by destruct rs. }
  assert (a ∈ map route_slot_addr rs) as Ha.
  { apply last_Some in Ea as [l ->]. set_solver. }
  repeat case_bool_decide; simpl in *; set_solver.
Qed.

Lemma choose_route_app rs r chosen : pipeline_route rs = Ok chosen ->
  choose_route chosen (Some r) = pipeline_route (rs ++ [r]).
Proof.
  destruct rs as [|r0 rs]; simpl; [intros; simplify_eq/=|].
  - rewrite bool_decide_true by (by constructor). destruct r as [sl []]; done.
  - case_bool_decide as Hall; [|done]. intros; simplify_eq/=.
    case_bool_decide as Hs.
    + rewrite bool_decide_false; [done|]. intros Hf. inversion Hf as [|? ? _ Hf']. apply Forall_app in Hf' as [_ Hf'].
      inversion Hf'. congruence.
    + assert (route_slot r = route_slot r0) as Hr by (destruct (decide (route_slot r0 = route_slot r)); congruence).
      rewrite (bool_decide_true (Forall _ (r0 :: rs ++ [r]))).
      2:{ apply Forall_cons in Hall as [? ?]. constructor; [done|]. apply Forall_app. by split; [|constructor]. }
      change (r0 :: rs ++ [r]) with ((r0 :: rs) ++ [r]). rewrite pipeline_addr_app by done.
      case_bool_decide; [|done]. rewrite <- Hr. by destruct r.
Qed.

Lemma crossed_stays rs rs' e : pipeline_route rs = Err e -> pipeline_route (rs ++ rs') = Err e.
Proof.
  destruct rs as [|r rs]; [done|]. unfold pipeline_route. simpl. case_bool_decide as Hf; [done|]. intros Hc.
  rewrite bool_decide_false; [done|]. rewrite app_comm_cons, Forall_app. tauto.
Qed.

Lemma route_for_commands_eq cs rs chosen g : Forall (fun c => is_Some (for_routable c)) cs ->
  pipeline_route rs = Ok chosen ->
  route_for_commands cs chosen g = Some (pipeline_route (rs ++ omap command_route cs), g).
Proof.
  intros Hcs. revert rs chosen. induction Hcs as [|c cs Hc Hcs IH]; intros rs chosen Hrs; simpl.
  - by rewrite app_nil_r, Hrs.
  - rewrite route_for_command_eq by done. simpl. destruct (command_route c) as [r|]; simpl.
    + rewrite (choose_route_app rs r chosen Hrs). destruct (pipeline_route (rs ++ [r])) as [chosen'|e] eqn:E.
      * rewrite (IH _ _ E). by rewrite <- app_assoc.
      * rewrite (cons_middle r), app_assoc. by rewrite (crossed_stays _ _ _ E).
    + replace (choose_route chosen None) with (@Ok RedisError _ chosen) by (by destruct chosen).
      by apply IH.
Qed.

(** A pipeline is sent to the slot of its commands with a key, to the primary if
    one of them needs it; commands on different slots are an error; without such
    commands any node will do. *)
Theorem route_for_pipeline_correct p g : Forall (fun c => is_Some (for_routable c)) (commands p) ->
  route_for_pipeline p g = Some (pipeline_route (omap command_route (commands p)), g).
Proof. intros Hp. unfold route_for_pipeline. by rewrite (route_for_commands_eq _ [] None). Qed.
End pipeline_route.
