(* ===== verification/ClusterInner.v ===== *)
(** * The request queue of the asynchronous cluster connection

    [ClusterConnInner] of [cluster_handling/async_connection/mod.rs]: the requests
    that wait, those in flight, the recovery after errors, and the sink that polls
    all of them.

    What the futures do is an input: [round] says what polling each of them gives in
    one run of the loop of [poll_flush], in the order in which [FuturesUnordered]
    hands them out. So a theorem about all rounds covers every interleaving of the
    tasks. The requests that the attempt of a request to several nodes puts into the
    queue are sent as by [start_send]. Answers and attempts are recorded in the order
    in which they are made. [None] is a panic. *)

From S2P Require Import Prelude Text Errors Types Parser Codec Cmd Convert Pipeline Slots Routing ClusterClient ClusterRequest.
Local Open Scope Z_scope.

Inductive RecoverFuture := RecoverSlots | ReconnectInitial.
Inductive ConnectionState := PollComplete | Recover (f : RecoverFuture).

Section inner.
Context {C : Type} `{BP : BuildProfile} `{RR : RandRange}.

Record ClusterConnInner := {
  conn_state : ConnectionState;
  in_flight_requests : list (Request C);
  reconnect_futures : list NodeAddress;
  pending_requests : list (PendingRequest C);
  refresh_error : option RedisError;
  inner_params : RetryParams;
  inner_rng : rng;
  (* the addresses for which a repair is in progress *)
  under_repair : gset NodeAddress;
  (* what has been sent to the receivers, and for whom attempts were made *)
  answered : answers;
  attempted : list ResultExpectation
}.

Definition with_state (c : ConnectionState) (e : option RedisError) (s : ClusterConnInner) :=
  {| conn_state := c; in_flight_requests := in_flight_requests s; reconnect_futures := reconnect_futures s;
     pending_requests := pending_requests s; refresh_error := e; inner_params := inner_params s;
     inner_rng := inner_rng s; under_repair := under_repair s; answered := answered s;
     attempted := attempted s |}.
Definition with_in_flight (f : list (Request C) -> list (Request C)) (s : ClusterConnInner) :=
  {| conn_state := conn_state s; in_flight_requests := f (in_flight_requests s);
     reconnect_futures := reconnect_futures s; pending_requests := pending_requests s;
     refresh_error := refresh_error s; inner_params := inner_params s; inner_rng := inner_rng s;
     under_repair := under_repair s; answered := answered s; attempted := attempted s |}.
Definition with_pending (f : list (PendingRequest C) -> list (PendingRequest C)) (s : ClusterConnInner) :=
  {| conn_state := conn_state s; in_flight_requests := in_flight_requests s;
     reconnect_futures := reconnect_futures s; pending_requests := f (pending_requests s);
     refresh_error := refresh_error s; inner_params := inner_params s; inner_rng := inner_rng s;
     under_repair := under_repair s; answered := answered s; attempted := attempted s |}.
Definition with_reconnects (f : list NodeAddress -> list NodeAddress) (s : ClusterConnInner) :=
  {| conn_state := conn_state s; in_flight_requests := in_flight_requests s;
     reconnect_futures := f (reconnect_futures s); pending_requests := pending_requests s;
     refresh_error := refresh_error s; inner_params := inner_params s; inner_rng := inner_rng s;
     under_repair := under_repair s; answered := answered s; attempted := attempted s |}.
Definition with_repairs (a : gset NodeAddress) (s : ClusterConnInner) :=
  {| conn_state := conn_state s; in_flight_requests := in_flight_requests s;
     reconnect_futures := reconnect_futures s; pending_requests := pending_requests s;
     refresh_error := refresh_error s; inner_params := inner_params s; inner_rng := inner_rng s;
     under_repair := a; answered := answered s; attempted := attempted s |}.
Definition with_answers (a : answers) (g : rng) (s : ClusterConnInner) :=
  {| conn_state := conn_state s; in_flight_requests := in_flight_requests s;
     reconnect_futures := reconnect_futures s; pending_requests := pending_requests s;
     refresh_error := refresh_error s; inner_params := inner_params s; inner_rng := g;
     under_repair := under_repair s; answered := answered s ++ a; attempted := attempted s |}.
Definition with_attempt (r : PendingRequest C) (s : ClusterConnInner) :=
  {| conn_state := conn_state s; in_flight_requests := in_flight_requests s;
     reconnect_futures := reconnect_futures s; pending_requests := pending_requests s;
     refresh_error := refresh_error s; inner_params := inner_params s; inner_rng := inner_rng s;
     under_repair := under_repair s; answered := answered s; attempted := attempted s ++ [sender r] |}.

(** [ClusterConnInner::new]: the first thing to do is to connect to the initial
    nodes. *)
Definition ClusterConnInner_new (params : RetryParams) (g : rng) : ClusterConnInner :=
  {| conn_state := Recover ReconnectInitial; in_flight_requests := []; reconnect_futures := [];
     pending_requests := []; refresh_error := None; inner_params := params; inner_rng := g;
     under_repair := ∅; answered := []; attempted := [] |}.

(** [wait_for_initial_connection], when the future is done. *)
Definition wait_for_initial_connection (r : result RedisError unit) (s : ClusterConnInner)
    : result RedisError unit * ClusterConnInner :=
  match conn_state s with
  | Recover _ => (r, with_state PollComplete (refresh_error s) s)
  | PollComplete => (Ok (), s)
  end.

(** [start_send]: a message of the user. *)
Definition start_send (c : CmdArg C) (sender : ResultExpectation) (s : ClusterConnInner) : ClusterConnInner :=
  with_pending (fun l => l ++ [{| retry := 0; sender := sender; req_cmd := c |}]) s.

(** A new attempt, [try_request], is in flight. *)
Definition launch (r : PendingRequest C) (s : ClusterConnInner) : ClusterConnInner :=
  with_in_flight (fun l => l ++ [{| request_params := inner_params s; request := Some r;
                                    request_state := State_Future |}])
    (with_attempt r s).

Definition handle_retries (x : option (Retry C)) (s : ClusterConnInner) : ClusterConnInner :=
  match x with
  | Some (MoveToPending request) => with_pending (fun l => l ++ [request]) s
  | Some (Immediately request) => launch request s
  | Some (AfterSleep request sleep_duration) =>
      with_in_flight (fun l => l ++ [{| request_params := inner_params s; request := Some request;
                                        request_state := State_Sleep sleep_duration |}]) s
  | None => s
  end.

(** [dispatch_pending]: the whole queue; requests nobody waits for are dropped. *)
Definition dispatch_pending (closed : gset nat) (s : ClusterConnInner) : ClusterConnInner :=
  foldl (fun s r => if is_closed closed (sender r) then s else launch r s)
    (with_pending (fun _ => []) s) (pending_requests s).

(** One request of [poll_next]: the one at a position, if it is ready. *)
Definition poll_one (closed : gset nat) (k : nat) (future : polled) (s : ClusterConnInner)
    : option (option PollFlushAction * ClusterConnInner) :=
  match in_flight_requests s !! k with
  | None => Some (None, s)
  | Some r =>
      '(out, g) ← poll_request closed r future (inner_rng s);
      match out with
      | None => Some (None, s)
      | Some (sent, x, next) =>
          Some (Some next, handle_retries x (with_answers sent g (with_in_flight (delete k) s)))
      end
  end.

(** The loop of [poll_in_flight]. *)
Fixpoint poll_ready (closed : gset nat) (futures : list (nat * polled)) (action : PollFlushAction)
    (s : ClusterConnInner) : option (PollFlushAction * ClusterConnInner) :=
  match futures with
  | [] => Some (action, s)
  | (k, future) :: futures =>
      '(next, s) ← poll_one closed k future s;
      poll_ready closed futures (match next with Some next => change_state action next | None => action end) s
  end.
(** [None] is [Poll::Pending]. *)
Definition poll_in_flight (closed : gset nat) (futures : list (nat * polled)) (s : ClusterConnInner)
    : option (option PollFlushAction * ClusterConnInner) :=
  '(action, s) ← poll_ready closed futures Action_None s;
  Some (match action, in_flight_requests s with
        | Action_None, _ :: _ => None
        | _, _ => Some action
        end, s).
Definition poll_complete (closed : gset nat) (futures : list (nat * polled)) (s : ClusterConnInner)
    : option (option PollFlushAction * ClusterConnInner) :=
  poll_in_flight closed futures (dispatch_pending closed s).

(** The requests that are told of a failed refresh: those in flight, or the first
    that waits. *)
Fixpoint retry_all (e : RedisError) (l : list (PendingRequest C * RetryParams)) (s : ClusterConnInner)
    : option ClusterConnInner :=
  match l with
  | [] => Some s
  | (r, params) :: l =>
      '(sent, x, _, g) ← choose_response (Target_NotFound, Err e) r params (inner_rng s);
      retry_all e l (handle_retries x (with_answers sent g s))
  end.
Definition taken (r : Request C) : Request C :=
  match request r with
  | Some _ => {| request_params := RetryParams_default; request := None; request_state := request_state r |}
  | None => r
  end.
Definition send_refresh_error (s : ClusterConnInner) : option ClusterConnInner :=
  match refresh_error s with
  | None => Some s
  | Some e =>
      let inflight_requests := omap (fun r => (fun p => (p, request_params r)) <$> request r)
                                 (in_flight_requests s) in
      let s := with_state (conn_state s) None s in
      let s := with_in_flight (map taken) s in
      match inflight_requests, pending_requests s with
      | [], p :: ps => retry_all e [(p, inner_params s)] (with_pending (fun _ => ps) s)
      | l, _ => retry_all e l s
      end
  end.

(** [register_reconnect_futures]; the addresses of the set in some order. *)
Definition register_reconnect_futures (addrs : gset NodeAddress) (s : ClusterConnInner) : ClusterConnInner :=
  with_reconnects (fun l => l ++ filter (fun a => a ∉ under_repair s) (elements addrs)) s.

(** The requests of [resubscribe_all] and [resubscribe_node]. *)
Definition resubscribe (subscriptions : list (CmdArg C)) (s : ClusterConnInner) : ClusterConnInner :=
  foldl (fun s c => start_send c Internal s) s subscriptions.

(** [poll_recover], with the result of the recovery if it is done. *)
Definition poll_recover (future : option (result RedisError unit)) (subscriptions : list (CmdArg C))
    (s : ClusterConnInner) : option (result RedisError unit) * ClusterConnInner :=
  match conn_state s with
  | PollComplete => (Some (Ok ()), s)
  | Recover RecoverSlots =>
      match future with
      | None => (None, s)
      | Some (Ok _) => (Some (Ok ()), resubscribe subscriptions (with_state PollComplete (refresh_error s) s))
      | Some (Err e) => (Some (Err e), s)
      end
  | Recover ReconnectInitial =>
      match future with
      | None => (None, s)
      | Some _ => (Some (Ok ()), resubscribe subscriptions (with_state PollComplete (refresh_error s) s))
      end
  end.

(** [poll_reconnects]: the futures that are done, the addresses that are being
    repaired after that, and the subscriptions that were renewed. *)
Definition poll_reconnects (repaired repairing : gset NodeAddress) (subscriptions : list (CmdArg C))
    (s : ClusterConnInner) : ClusterConnInner :=
  resubscribe subscriptions
    (with_repairs repairing (with_reconnects (fun l => filter (fun a => a ∉ repaired) l) s)).

(** One run of the loop of [poll_flush]; [resubscriptions] are the commands that
    [resubscribe_all] finds. *)
Record round := {
  repaired : gset NodeAddress; repairing : gset NodeAddress; node_resubscriptions : list (CmdArg C);
  recovered : option (result RedisError unit); resubscriptions : list (CmdArg C);
  futures : list (nat * polled)
}.
Inductive flow := Again | ReturnPending | ReturnReady.

Definition flush_round (closed : gset nat) (x : round) (s : ClusterConnInner)
    : option (flow * ClusterConnInner) :=
  s ← send_refresh_error s;
  let s := poll_reconnects (repaired x) (repairing x) (node_resubscriptions x) s in
  let '(res, s) := poll_recover (recovered x) (resubscriptions x) s in
  match res with
  | None => Some (ReturnPending, s)
  | Some (Err e) => Some (ReturnPending, with_state (conn_state s) (Some e) s)
  | Some (Ok _) =>
      '(action, s) ← poll_complete closed (futures x) s;
      Some match action with
           | None => (ReturnPending, s)
           | Some Action_None => (ReturnReady, s)
           | Some Action_RebuildSlots => (Again, with_state (Recover RecoverSlots) (refresh_error s) s)
           | Some (Action_Reconnect addrs) => (Again, register_reconnect_futures addrs s)
           | Some Action_ReconnectFromInitialConnections =>
               (Again, with_state (Recover ReconnectInitial) (refresh_error s) s)
           end
  end.

(** [poll_flush], for as many rounds as are given. *)
Fixpoint poll_flush (closed : gset nat) (xs : list round) (s : ClusterConnInner)
    : option (flow * ClusterConnInner) :=
  match xs with
  | [] => Some (Again, s)
  | x :: xs =>
      '(f, s) ← flush_round closed x s;
      match f with Again => poll_flush closed xs s | _ => Some (f, s) end
  end.

(** [poll_close]: [Err] is the error it returns. *)
Definition poll_close (closed : gset nat) (futures : list (nat * polled)) (xs : list round)
    (s : ClusterConnInner) : option (result unit flow * ClusterConnInner) :=
  '(action, s) ← poll_complete closed futures s;
  match action with
  | None | Some Action_None =>
      match in_flight_requests s with
      | [] => Some (Ok ReturnReady, s)
      | _ => '(f, s) ← poll_flush closed xs s; Some (Ok f, s)
      end
  | Some _ => Some (Err (), s)
  end.
End inner.
Arguments ClusterConnInner C {_}.
Arguments round C : clear implicits.

(** ** No request is lost or answered twice *)

Section conservation.
Context {C : Type} `{BP : BuildProfile} `{RR : RandRange}.
Implicit Types (s : ClusterConnInner C) (r : PendingRequest C).

(** The channel of a sender. *)
Definition channel (e : ResultExpectation) : list nat := match e with External i => [i] | Internal => [] end.
Definition channels (l : list (PendingRequest C)) : list nat := l ≫= (fun r => channel (sender r)).
(** The requests that are still held. *)
Definition held s : list (PendingRequest C) := pending_requests s ++ omap request (in_flight_requests s).
Definition answered_to s : list nat := map fst (answered s).
Definition known s : list nat := channels (held s) ++ answered_to s.

(** [s'] holds or has answered what [s] did, except for requests whose receiver
    is gone. *)
Definition conserves (closed : gset nat) s s' : Prop :=
  exists dropped, known s ≡ₚ known s' ++ dropped /\ Forall (.∈ closed) dropped.

#[local] Instance conserves_refl closed : Reflexive (conserves closed).
Proof. intros s. exists []. by rewrite app_nil_r. Qed.
#[local] Instance conserves_trans closed : Transitive (conserves closed).
Proof.
  intros s1 s2 s3 (d1 & E1 & H1) (d2 & E2 & H2). exists (d2 ++ d1). split; [by rewrite E1, E2, app_assoc|].
  by apply Forall_app.
Qed.

Lemma known_conserves closed s s' : known s ≡ₚ known s' -> conserves closed s s'.
Proof. intros Hk. exists []. by rewrite app_nil_r. Qed.

Lemma channels_app l l' : channels (l ++ l') = channels l ++ channels l'.
Proof. apply bind_app. Qed.
#[local] Instance channels_perm : Proper ((≡ₚ) ==> (≡ₚ)) channels.
Proof. intros l l' Hl. unfold channels. by rewrite Hl. Qed.

(** A request that comes into the care of the connection. *)
Definition adds r s s' : Prop := held s' ≡ₚ r :: held s /\ answered s' = answered s.

Lemma pending_adds r s : adds r s (with_pending (fun l => l ++ [r]) s).
Proof. split; [|done]. unfold held. simpl. rewrite <- app_assoc. symmetry. apply Permutation_middle. Qed.
Lemma in_flight_adds r x s : request x = Some r -> adds r s (with_in_flight (fun l => l ++ [x]) s).
Proof.
  intros Hx. split; [|done]. unfold held. simpl. rewrite omap_app. simpl. rewrite Hx.
  rewrite app_assoc. symmetry. apply Permutation_cons_append.
Qed.
Lemma launch_adds r s : adds r s (launch r s).
Proof. unfold launch. by destruct (in_flight_adds r {| request_params := inner_params s; request := Some r;
  request_state := State_Future |} (with_attempt r s)) as [? ?]. Qed.
Lemma start_send_adds c e s : adds {| retry := 0; sender := e; req_cmd := c |} s (start_send c e s).
Proof. apply pending_adds. Qed.
Lemma handle_retries_adds x s : adds (retried x) s (handle_retries (Some x) s).
Proof. destruct x; simpl; [apply launch_adds|apply pending_adds|by apply in_flight_adds]. Qed.

Lemma adds_known r s s' : adds r s s' -> known s' ≡ₚ channel (sender r) ++ known s.
Proof. intros [Hh Ha]. unfold known, answered_to. rewrite Ha, Hh. simpl. by rewrite <- app_assoc. Qed.

Lemma resubscribe_known cs s : known (resubscribe cs s) ≡ₚ known s.
Proof.
  unfold resubscribe. revert s. induction cs as [|c cs IH]; intros s; [done|]. simpl. rewrite IH.
  by rewrite (adds_known _ _ _ (start_send_adds c Internal s)).
Qed.

Lemma dispatch_conserves closed s : conserves closed s (dispatch_pending closed s).
Proof.
  unfold dispatch_pending.
  assert (forall l s', exists dropped, channels l ++ known s' ≡ₚ
    known (foldl (fun s r => if is_closed closed (sender r) then s else launch r s) s' l) ++ dropped /\
    Forall (.∈ closed) dropped) as Hl.
  { induction l as [|r l IH]; intros s'; [exists []; by rewrite app_nil_r|]. simpl.
    destruct (is_closed closed (sender r)) eqn:Ec.
    - destruct (IH s') as (d & E & Hd). exists (channel (sender r) ++ d).
      rewrite <- app_assoc, E, app_assoc, (comm (++) (channel _)), <- app_assoc. split; [done|].
      apply Forall_app. split; [|done]. destruct (sender r); simpl in *; [|done].
      apply bool_decide_eq_true in Ec. by constructor.
    - destruct (IH (launch r s')) as (d & E & Hd). exists d. split; [|done]. rewrite <- E.
      rewrite (adds_known _ _ _ (launch_adds r s')). rewrite !app_assoc. f_equiv. apply (comm (++)). }
  destruct (Hl (pending_requests s) (with_pending (fun _ => []) s)) as (d & E & Hd). exists d. split; [|done].
  rewrite <- E. unfold known, held. simpl. by rewrite channels_app, <- app_assoc.
Qed.

(** After an attempt: the request was answered or it is held again. *)
Lemma chosen_known result r params s sent x action g :
  choose_response result r params (inner_rng s) = Some (sent, x, action, g) ->
  known (handle_retries x (with_answers sent g s)) ≡ₚ channel (sender r) ++ known s.
Proof.
  intros Hc%choose_response_cases. destruct x as [x|].
  - destruct Hc as (-> & [Hs _] & _). rewrite (adds_known _ _ _ (handle_retries_adds x _)), Hs.
    unfold known, answered_to. simpl. by rewrite app_nil_r.
  - destruct Hc as [v ->]. unfold known, answered_to. simpl. rewrite map_app.
    replace (map fst (send_result (sender r) v)) with (channel (sender r)) by (by destruct (sender r)).
    rewrite app_assoc. apply (comm (++)).
Qed.

Lemma delete_known k x s : in_flight_requests s !! k = Some x ->
  known s ≡ₚ from_option (fun r => channel (sender r)) [] (request x) ++ known (with_in_flight (delete k) s).
Proof.
  intros Hk. unfold known, held. simpl.
  assert (omap request (in_flight_requests s) ≡ₚ
    option_list (request x) ++ omap request (delete k (in_flight_requests s))) as Hp.
  { rewrite (delete_Permutation _ _ _ Hk) at 1. simpl. by destruct (request x). }
  rewrite Hp, !channels_app. destruct (request x) as [r|]; simpl; [|done]. unfold channels at 2. simpl.
  rewrite app_nil_r, !app_assoc. do 2 apply Permutation_app_tail. apply Permutation_app_comm.
Qed.

Lemma poll_one_conserves closed k future s next s' : poll_one closed k future s = Some (next, s') ->
  conserves closed s s'.
Proof.
  unfold poll_one. destruct (in_flight_requests s !! k) as [x|] eqn:Hk; [|naive_solver].
  pose proof (delete_known k x s Hk) as Hd. unfold poll_request.
  assert (forall g, known (with_answers [] g (with_in_flight (delete k) s)) = known (with_in_flight (delete k) s)) as Hn
    by (intros g; unfold known, answered_to; simpl; by rewrite app_nil_r).
  destruct (request x) as [r|]; simpl in *.
  - destruct (is_closed closed (sender r)) eqn:Ec; [intros; simplify_eq/=|].
    { exists (channel (sender r)). rewrite Hd, Hn. split; [apply (comm (++))|]. destruct (sender r); [|done].
      apply bool_decide_eq_true in Ec. by constructor. }
    destruct (request_state x), future as [| |result]; simpl; intros Hs; simplify_eq/=; try done.
    + destruct (choose_response result r (request_params x) (inner_rng s)) as [[[[sent y] action] g]|] eqn:Er;
        simpl in Hs; [|done]. simplify_eq. exists []. rewrite app_nil_r. split; [|done]. rewrite Hd. symmetry.
      by apply (chosen_known result r (request_params x) (with_in_flight (delete k) s) sent y action g).
    + exists []. rewrite app_nil_r. split; [|done]. rewrite Hd. symmetry.
      rewrite (adds_known _ _ _ (launch_adds r _)). by rewrite Hn.
  - intros; simplify_eq/=. exists []. rewrite app_nil_r. split; [|done]. by rewrite Hd, Hn.
Qed.

Lemma poll_ready_conserves closed l action s action' s' : poll_ready closed l action s = Some (action', s') ->
  conserves closed s s'.
Proof.
  revert action s. induction l as [|[k future] l IH]; intros action s; simpl; [naive_solver|].
  destruct (poll_one closed k future s) as [[next s1]|] eqn:E; simpl; [|done]. intros Hs.
  trans s1; [by eapply poll_one_conserves|by eapply IH].
Qed.

Lemma poll_complete_conserves closed l s action s' : poll_complete closed l s = Some (action, s') ->
  conserves closed s s'.
Proof.
  unfold poll_complete, poll_in_flight.
  destruct (poll_ready closed l Action_None (dispatch_pending closed s)) as [[a s1]|] eqn:E; simpl; [|done].
  intros; simplify_eq. trans (dispatch_pending closed s); [apply dispatch_conserves|by eapply poll_ready_conserves].
Qed.

Lemma retry_all_known e l s s' : retry_all e l s = Some s' -> channels l.*1 ++ known s ≡ₚ known s'.
Proof.
  revert s. induction l as [|[r params] l IH]; intros s; simpl; [naive_solver|].
  destruct (choose_response _ r params (inner_rng s)) as [[[[sent x] action] g]|] eqn:E; simpl; [|done].
  intros Hs. rewrite <- (IH _ Hs), (chosen_known _ _ _ _ _ _ _ _ E), !app_assoc.
  apply Permutation_app_tail, Permutation_app_comm.
Qed.

Lemma taken_none l : omap request (map taken l) = @nil (PendingRequest C).
Proof. induction l as [|x l IH]; [done|]. simpl. unfold taken at 1. destruct (request x) eqn:E; simpl; by rewrite ?E. Qed.
Lemma taken_requests (l : list (Request C)) :
  (omap (fun x => (fun p => (p, request_params x)) <$> request x) l).*1 = omap request l.
Proof. induction l as [|x l IH]; [done|]. simpl. destruct (request x); simpl; [by f_equal|done]. Qed.

Lemma send_refresh_error_known s s' : send_refresh_error s = Some s' -> known s ≡ₚ known s'.
Proof.
  unfold send_refresh_error. destruct (refresh_error s) as [e|]; [|naive_solver].
  set (l := omap _ (in_flight_requests s)). pose proof (taken_requests (in_flight_requests s)) as Hl. fold l in Hl.
  assert (forall s0, pending_requests s0 = pending_requests s -> in_flight_requests s0 = map taken (in_flight_requests s) ->
    answered s0 = answered s -> channels l.*1 ++ known s0 ≡ₚ known s) as Hk.
  { intros s0 Hp Hf Ha. unfold known, held, answered_to. rewrite Hp, Hf, Ha, taken_none, Hl, !channels_app, app_nil_r, !app_assoc.
    apply Permutation_app_tail, Permutation_app_comm. }
  assert (retry_all e l (with_in_flight (map taken) (with_state (conn_state s) None s)) = Some s' -> known s ≡ₚ known s') as Hr.
  { intros Hs. rewrite <- (retry_all_known _ _ _ _ Hs). symmetry. by apply Hk. }
  destruct l as [|x l'] eqn:El; [|done]. simpl. destruct (pending_requests s) as [|p ps] eqn:Ep; [done|].
  intros Hs. rewrite <- (retry_all_known e [(p, inner_params s)] _ _ Hs). unfold known, held. simpl. rewrite Ep, taken_none, app_nil_r.
  rewrite <- Hl. simpl. by rewrite !app_nil_r, <- app_assoc.
Qed.

Lemma flush_round_conserves closed x s f s' : flush_round closed x s = Some (f, s') -> conserves closed s s'.
Proof.
  unfold flush_round. destruct (send_refresh_error s) as [s1|] eqn:E1; simpl; [|done].
  apply send_refresh_error_known in E1.
  set (s2 := poll_reconnects _ _ _ s1).
  assert (known s1 ≡ₚ known s2) as E2 by (unfold s2, poll_reconnects; by rewrite resubscribe_known).
  destruct (poll_recover (recovered x) (resubscriptions x) s2) as [res s3] eqn:E3.
  assert (known s2 ≡ₚ known s3) as E3'.
  { unfold poll_recover in E3. repeat case_match; simplify_eq; by rewrite ?resubscribe_known. }
  assert (conserves closed s s3) as Hc.
  { apply known_conserves. by rewrite E1, E2, E3'. }
  intros Hs. trans s3; [exact Hc|]. destruct res as [[?|e]|]; simplify_eq; try by apply known_conserves.
  destruct (poll_complete closed (futures x) s3) as [[action s4]|] eqn:E4; simpl in Hs; [|done].
  trans s4; [by eapply poll_complete_conserves|]. destruct action as [[]|]; simplify_eq; by apply known_conserves.
Qed.
End conservation.

(** ** The number of attempts *)

#[export] Instance ResultExpectation_eq_dec : EqDecision ResultExpectation.
Proof. solve_decision. Defined.

Section attempts.
Context {C : Type} `{BP : BuildProfile} `{RR : RandRange}.
Implicit Types (s : ClusterConnInner C) (r : PendingRequest C).
(** The parameters of the connection and the channels made so far. *)
Context (params : RetryParams) (sub : list nat).
Hypothesis u32_retries : 0 <= number_of_retries params <= u32_max.

(** How often the request of a channel was tried. *)
Definition tries (i : nat) s : Z := Z.of_nat (length (filter (.= External i) (attempted s))).
Definition allowed (extra : Z) r s : Prop := forall i, sender r = External i ->
  i ∈ sub /\ 0 <= retry r <= number_of_retries params /\ tries i s <= retry r + extra.
Definition running (x : Request C) : Z := match request_state x with State_Future => 1 | State_Sleep _ => 0 end.

Record bounded s : Prop := {
  b_params : inner_params s = params;
  b_tries i : tries i s <= number_of_retries params + 1;
  b_sub i : 0 < tries i s -> i ∈ sub;
  b_pending : Forall (fun r => allowed 0 r s) (pending_requests s);
  b_in_flight : Forall (fun x => forall r, request x = Some r ->
    request_params x = params /\ allowed (running x) r s) (in_flight_requests s)
}.

(** Nothing that matters here has changed. *)
Lemma bounded_same s s' : bounded s -> inner_params s' = inner_params s -> attempted s' = attempted s ->
  pending_requests s' = pending_requests s -> in_flight_requests s' = in_flight_requests s -> bounded s'.
Proof.
  intros [Hp Ht Hs Hpe Hf] E1 E2 E3 E4. unfold allowed, tries in *.
  split; rewrite ?E1, ?E3, ?E4; try done; unfold allowed, tries; rewrite ?E2; done.
Qed.

Lemma tries_attempt i r s : tries i (with_attempt r s) = tries i s + (if decide (sender r = External i) then 1 else 0).
Proof. unfold tries. simpl. rewrite filter_app, length_app. simpl. rewrite filter_cons. case_decide; simpl; lia. Qed.

Lemma not_held r r' i s : NoDup (channel (sender r) ++ known s) -> r' ∈ held s -> sender r' = External i ->
  sender r <> External i.
Proof.
  intros Hn Hr Hs Hi. rewrite Hi in Hn. simpl in Hn. apply NoDup_cons in Hn as [Hn _]. apply Hn.
  unfold known. apply elem_of_app. left. apply list_elem_of_bind. exists r'. rewrite Hs. split; [by left|done].
Qed.
Lemma pending_held r s : r ∈ pending_requests s -> r ∈ held s.
Proof. intros Hr. apply elem_of_app. by left. Qed.
Lemma in_flight_held x r s : x ∈ in_flight_requests s -> request x = Some r -> r ∈ held s.
Proof. intros Hx Hr. apply elem_of_app. right. apply list_elem_of_omap. by exists x. Qed.

Lemma launch_bounded r s : bounded s -> NoDup (channel (sender r) ++ known s) -> allowed 0 r s -> bounded (launch r s).
Proof.
  intros [Hp Ht Hs Hpe Hf] Hn Hr. unfold launch.
  assert (forall i, tries i (with_in_flight (fun l => l ++ [{| request_params := inner_params s; request := Some r;
    request_state := State_Future |}]) (with_attempt r s)) = tries i s + (if decide (sender r = External i) then 1 else 0)) as Hti
    by (intros i; apply tries_attempt).
  assert (forall e r', r' ∈ held s -> allowed e r' s -> allowed e r' (with_in_flight (fun l => l ++ [{|
    request_params := inner_params s; request := Some r; request_state := State_Future |}]) (with_attempt r s))) as Hal.
  { intros e r' Hr' Ha i Hi. rewrite Hti, decide_False by (by eapply not_held). specialize (Ha i Hi). intuition lia. }
  split; simpl.
  - done.
  - intros i. rewrite Hti. case_decide as Hi; [|specialize (Ht i); lia]. destruct (Hr i Hi) as (_ & ? & ?). lia.
  - intros i. rewrite Hti. case_decide as Hi; [intros _; by apply Hr|]. rewrite Z.add_0_r. apply Hs.
  - rewrite Forall_forall in *. intros r' Hr'. apply Hal; [by apply pending_held|by apply Hpe].
  - apply Forall_app. split.
    + rewrite Forall_forall in *. intros x Hx r' Hr'. destruct (Hf x Hx r' Hr') as [? ?]. split; [done|].
      apply Hal; [by eapply in_flight_held|done].
    + constructor; [|done]. simpl. intros r' ?; simplify_eq. split; [done|]. intros i Hi. rewrite Hti, decide_True by done.
      destruct (Hr i Hi) as (? & ? & ?). unfold running. simpl. split; [done|]. lia.
Qed.

Lemma start_send_bounded c e s : bounded s -> (forall i, e = External i -> i ∈ sub /\ tries i s = 0) ->
  bounded (start_send c e s).
Proof.
  intros [Hp Ht Hs Hpe Hf] He. split; try done. simpl. apply Forall_app. split; [done|]. constructor; [|done].
  intros i Hi. simpl in *. destruct (He i Hi) as [? E]. split; [done|].
  change (tries i (start_send c e s)) with (tries i s). rewrite E. lia.
Qed.

Lemma add_pending_bounded r s : bounded s -> allowed 0 r s -> bounded (with_pending (fun l => l ++ [r]) s).
Proof. intros [Hp Ht Hs Hpe Hf] Hr. split; try done. simpl. apply Forall_app. by split; [|constructor]. Qed.

Lemma handle_retries_bounded x s : bounded s -> NoDup (channel (sender (retried x)) ++ known s) ->
  allowed 0 (retried x) s -> bounded (handle_retries (Some x) s).
Proof.
  intros Hb Hn Hr. destruct x as [r|r|r d]; simpl in *; [by apply launch_bounded|by apply add_pending_bounded|].
  destruct Hb as [Hp Ht Hs Hpe Hf]. split; try done. simpl. apply Forall_app. split; [done|]. constructor; [|done].
  simpl. intros r' ?; simplify_eq. by split.
Qed.

Lemma with_answers_bounded a g s : bounded s -> bounded (with_answers a g s).
Proof. intros Hb. by apply (bounded_same s). Qed.
Lemma with_answers_none g s : known (with_answers [] g s) = known s.
Proof. unfold known, answered_to. simpl. by rewrite app_nil_r. Qed.

Lemma chosen_bounded result r s sent x action g : bounded s -> NoDup (channel (sender r) ++ known s) ->
  allowed 1 r s -> choose_response result r params (inner_rng s) = Some (sent, x, action, g) ->
  bounded (handle_retries x (with_answers sent g s)).
Proof.
  intros Hb Hn Hr Hc%choose_response_cases. destruct x as [x|]; [|by apply with_answers_bounded].
  destruct Hc as (-> & [Hx _] & Hretry & Hlt). apply handle_retries_bounded.
  - by apply with_answers_bounded.
  - by rewrite Hx, with_answers_none.
  - intros i Hi. rewrite Hx in Hi. destruct (Hr i Hi) as (? & ? & ?).
    change (tries i (with_answers [] g s)) with (tries i s). rewrite Hretry. split; [done|]. lia.
Qed.

Lemma delete_bounded k s : bounded s -> bounded (with_in_flight (delete k) s).
Proof. intros [Hp Ht Hs Hpe Hf]. split; try done. simpl. by apply Forall_delete. Qed.

Lemma poll_one_bounded closed k future s next s' : bounded s -> NoDup (known s) ->
  poll_one closed k future s = Some (next, s') -> bounded s'.
Proof.
  intros Hb Hn. unfold poll_one. destruct (in_flight_requests s !! k) as [x|] eqn:Hk; [|naive_solver].
  rewrite (delete_known k x s Hk) in Hn. pose proof (delete_bounded k s Hb) as Hb'.
  assert (forall r, request x = Some r -> request_params x = params /\ allowed (running x) r s) as Hx.
  { pose proof (b_in_flight s Hb) as Hf. rewrite Forall_lookup in Hf. by apply (Hf k). }
  unfold poll_request. destruct (request x) as [r|]; simpl in *;
    [|intros; simplify_eq/=; by apply with_answers_bounded].
  destruct (Hx r eq_refl) as [Hp Hr].
  destruct (is_closed closed (sender r)); [intros; simplify_eq/=; by apply with_answers_bounded|].
  unfold running in Hr. destruct (request_state x), future as [| |result]; simpl; intros Hs; simplify_eq/=; try done.
  - rewrite Hp in Hs. destruct (choose_response result r params (inner_rng s)) as [[[[sent y] action] g]|] eqn:Er;
      simpl in Hs; [|done]. simplify_eq.
    by apply (chosen_bounded result r (with_in_flight (delete k) s) sent y action g).
  - apply launch_bounded; [by apply with_answers_bounded|by rewrite with_answers_none|done].
Qed.

Lemma conserves_nodup closed s s' : conserves closed s s' -> NoDup (known s) -> NoDup (known s').
Proof. intros (d & E & _). rewrite E. by intros (? & _ & _)%NoDup_app. Qed.

Lemma poll_ready_bounded closed l action s action' s' : bounded s -> NoDup (known s) ->
  poll_ready closed l action s = Some (action', s') -> bounded s'.
Proof.
  revert action s. induction l as [|[k future] l IH]; intros action s Hb Hn; simpl; [naive_solver|].
  destruct (poll_one closed k future s) as [[next s1]|] eqn:E; simpl; [|done].
  apply IH; [by eapply poll_one_bounded|]. eapply conserves_nodup; [by eapply poll_one_conserves|done].
Qed.

Lemma dispatch_bounded closed s : bounded s -> NoDup (known s) -> bounded (dispatch_pending closed s).
Proof.
  intros Hb Hn. unfold dispatch_pending.
  assert (forall l s', bounded s' -> NoDup (channels l ++ known s') -> Forall (fun r => allowed 0 r s') l ->
    bounded (foldl (fun s r => if is_closed closed (sender r) then s else launch r s) s' l)) as Hl.
  { induction l as [|r l IH]; intros s' Hb' Hn' Ha; [done|]. apply Forall_cons in Ha as [Hr Ha]. simpl in *.
    rewrite <- app_assoc in Hn'. destruct (is_closed closed (sender r)).
    - apply IH; [done| |done]. by apply NoDup_app in Hn' as (_ & _ & ?).
    - rewrite (Permutation_app_swap_app (channel _)) in Hn'. apply IH.
      + apply launch_bounded; [done| |done]. by apply NoDup_app in Hn' as (_ & _ & ?).
      + by rewrite (adds_known _ _ _ (launch_adds r s')).
      + rewrite Forall_forall in *. intros r' Hr' i Hi.
        change (tries i (launch r s')) with (tries i (with_attempt r s')).
        rewrite tries_attempt, decide_False; [by destruct (Ha r' Hr' i Hi) as (? & ? & ?); rewrite (Z.add_0_r (tries i s'))|].
        intros Hs. apply NoDup_app in Hn' as (_ & Hd & _). apply (Hd i).
        * apply list_elem_of_bind. exists r'. rewrite Hi. split; [by left|done].
        * rewrite Hs. by left. }
  apply Hl.
  - destruct Hb as [Hp Ht Hs Hpe Hf]. by split.
  - unfold known, held in *. simpl. by rewrite channels_app, <- app_assoc in Hn.
  - by destruct Hb.
Qed.

Lemma handle_retries_tries i x s : (forall y, x = Some y -> sender (retried y) <> External i) ->
  tries i (handle_retries x s) = tries i s.
Proof.
  intros Hx. destruct x as [[r|r|r d]|]; try done. change (tries i (with_attempt r s) = tries i s).
  rewrite tries_attempt, decide_False; [lia|]. by apply (Hx (Immediately r)).
Qed.

Lemma retry_all_bounded e l s s' : bounded s -> NoDup (channels l.*1 ++ known s) ->
  Forall (fun x => x.2 = params /\ allowed 1 x.1 s) l -> retry_all e l s = Some s' -> bounded s'.
Proof.
  revert s. induction l as [|[r p] l IH]; intros s Hb Hn Hl; simpl; [naive_solver|].
  apply Forall_cons in Hl as [[Hp Hr] Hl]. simpl in *. subst p.
  destruct (choose_response _ r params (inner_rng s)) as [[[[sent x] action] g]|] eqn:E; simpl; [|done].
  rewrite <- app_assoc, (Permutation_app_swap_app (channel _)) in Hn. pose proof Hn as (_ & Hd & Hn')%NoDup_app.
  apply IH.
  - by apply (chosen_bounded (Target_NotFound, Err e) r s sent x action g).
  - by rewrite (chosen_known _ _ _ _ _ _ _ _ E).
  - rewrite Forall_forall in *. intros [r' p'] Hr'. destruct (Hl _ Hr') as [? Ha]. split; [done|]. simpl in *.
    intros i Hi. rewrite handle_retries_tries; [by apply Ha|]. intros y ->.
    destruct (choose_response_cases _ _ _ _ _ _ _ _ E) as (_ & [Hs _] & _). rewrite Hs. intros Hs'.
    apply (Hd i).
    + apply list_elem_of_bind. exists r'. rewrite Hi. split; [by left|]. apply list_elem_of_fmap. by exists (r', p').
    + rewrite Hs'. by left.
Qed.

Lemma allowed_more e e' r s : e <= e' -> allowed e r s -> allowed e' r s.
Proof. intros He Ha i Hi. destruct (Ha i Hi) as (? & ? & ?). split; [done|]. lia. Qed.

Lemma send_refresh_error_bounded s s' : bounded s -> NoDup (known s) -> send_refresh_error s = Some s' -> bounded s'.
Proof.
  intros Hb Hn. unfold send_refresh_error. destruct (refresh_error s) as [e|]; [|naive_solver].
  set (l := omap _ (in_flight_requests s)). set (s0 := with_in_flight (map taken) (with_state (conn_state s) None s)).
  assert (bounded s0) as Hb0.
  { destruct Hb as [Hp Ht Hs Hpe Hf]. split; try done. simpl. apply Forall_forall. intros x (y & -> & Hy)%list_elem_of_fmap r.
    unfold taken. destruct (request y) eqn:Ey; simpl; [done|]. by rewrite Ey. }
  assert (Forall (fun x => x.2 = params /\ allowed 1 x.1 s0) l) as Hl.
  { apply Forall_forall. intros x (y & Hy & Hx)%list_elem_of_omap. destruct (request y) as [r|] eqn:Er; simplify_eq/=.
    pose proof (b_in_flight s Hb) as Hf. rewrite Forall_forall in Hf. destruct (Hf y Hy r Er) as [? Ha]. split; [done|].
    simpl. apply (allowed_more (running y)); [unfold running; case_match; lia|done]. }
  assert (NoDup (channels l.*1 ++ known s0)) as Hn0.
  { unfold l, s0, known, held. rewrite taken_requests. simpl. rewrite taken_none, app_nil_r.
    unfold known, held in Hn. rewrite channels_app in Hn. rewrite app_assoc. by rewrite (comm (++) (channels (omap _ _))). }
  assert (retry_all e l s0 = Some s' -> bounded s') as Hr by (by apply retry_all_bounded).
  destruct l as [|x l'] eqn:El; [|done]. change (pending_requests s0) with (pending_requests s).
  destruct (pending_requests s) as [|p ps] eqn:Ep; [done|].
  apply (retry_all_bounded e [(p, inner_params s)] (with_pending (fun _ => ps) s0)).
  - destruct Hb0 as [Hp Ht Hs Hpe Hf]. split; try done. simpl in *. rewrite Ep in Hpe. by apply Forall_cons in Hpe as [_ ?].
  - unfold known, held in *. simpl in *. rewrite Ep in Hn0. simpl in Hn0. by rewrite app_nil_r, app_assoc.
  - constructor; [|done]. simpl. split; [by apply b_params|]. apply (allowed_more 0); [lia|].
    pose proof (b_pending s Hb) as Hpe. rewrite Ep in Hpe. by apply Forall_cons in Hpe as [? _].
Qed.

Lemma resubscribe_bounded cs s : bounded s -> bounded (resubscribe cs s).
Proof.
  unfold resubscribe. revert s. induction cs as [|c cs IH]; intros s Hb; [done|]. simpl. apply IH.
  by apply start_send_bounded.
Qed.

Lemma flush_round_bounded closed x s f s' : bounded s -> NoDup (known s) ->
  flush_round closed x s = Some (f, s') -> bounded s'.
Proof.
  intros Hb Hn. unfold flush_round. destruct (send_refresh_error s) as [s1|] eqn:E1; simpl; [|done].
  assert (bounded s1) as Hb1 by (by eapply send_refresh_error_bounded).
  rewrite (send_refresh_error_known s s1 E1) in Hn.
  set (s2 := poll_reconnects _ _ _ s1).
  assert (known s1 ≡ₚ known s2) as E2 by (unfold s2, poll_reconnects; by rewrite resubscribe_known).
  assert (bounded s2) as Hb2 by (apply resubscribe_bounded; by apply (bounded_same s1)).
  destruct (poll_recover (recovered x) (resubscriptions x) s2) as [res s3] eqn:E3.
  assert (known s2 ≡ₚ known s3 /\ bounded s3) as [E3' Hb3].
  { unfold poll_recover in E3. repeat case_match; simplify_eq; rewrite ?resubscribe_known; split; try done.
    all: apply resubscribe_bounded; by apply (bounded_same s2). }
  rewrite E2, E3' in Hn. destruct res as [[?|e]|]; intros Hs; simplify_eq; [|by apply (bounded_same s3)|done].
  destruct (poll_complete closed (futures x) s3) as [[action s4]|] eqn:E4; simpl in Hs; [|done].
  assert (bounded s4) as Hb4.
  { unfold poll_complete, poll_in_flight in E4.
    destruct (poll_ready closed (futures x) Action_None (dispatch_pending closed s3)) as [[act s5]|] eqn:E5; simpl in E4; [|done].
    simplify_eq. eapply poll_ready_bounded; [by apply dispatch_bounded| |exact E5].
    eapply conserves_nodup; [by apply dispatch_conserves|done]. }
  destruct action as [[]|]; simplify_eq; by eapply bounded_same.
Qed.
End attempts.

(** ** The connection and its users *)

Section system.
Context {C : Type} `{BP : BuildProfile} `{RR : RandRange}.

(** The connection, the channels made for requests, and those whose receiver has
    been dropped. *)
Record system := { conn : ClusterConnInner C; submitted : list nat; gone : gset nat }.

Inductive step : system -> system -> Prop :=
| step_send c i s sub cl : i ∉ sub ->
    step {| conn := s; submitted := sub; gone := cl |}
         {| conn := start_send c (External i) s; submitted := i :: sub; gone := cl |}
| step_reconnect a s sub cl :
    step {| conn := s; submitted := sub; gone := cl |}
         {| conn := start_send (ArgReconnect a) Internal s; submitted := sub; gone := cl |}
| step_leave i s sub cl :
    step {| conn := s; submitted := sub; gone := cl |} {| conn := s; submitted := sub; gone := {[i]} ∪ cl |}
| step_connected r s sub cl :
    step {| conn := s; submitted := sub; gone := cl |}
         {| conn := (wait_for_initial_connection r s).2; submitted := sub; gone := cl |}
| step_flush xs f s s' sub cl : poll_flush cl xs s = Some (f, s') ->
    step {| conn := s; submitted := sub; gone := cl |} {| conn := s'; submitted := sub; gone := cl |}
| step_close fs xs r s s' sub cl : poll_close cl fs xs s = Some (r, s') ->
    step {| conn := s; submitted := sub; gone := cl |} {| conn := s'; submitted := sub; gone := cl |}.

Context (params : RetryParams) (g : rng).
Hypothesis u32_retries : 0 <= number_of_retries params <= u32_max.

Definition system_new : system :=
  {| conn := ClusterConnInner_new params g; submitted := []; gone := ∅ |}.
Definition reachable (y : system) : Prop := rtc step system_new y.

Record invariant (y : system) : Prop := {
  inv_fresh : NoDup (submitted y);
  inv_conserved : exists dropped, submitted y ≡ₚ known (conn y) ++ dropped /\ Forall (.∈ gone y) dropped;
  inv_bounded : bounded params (submitted y) (conn y)
}.

Lemma invariant_nodup y : invariant y -> NoDup (known (conn y)).
Proof. intros [Hf (d & E & _) _]. rewrite E in Hf. by apply NoDup_app in Hf as (? & _ & _). Qed.

(** Operations of the connection that keep what they were given. *)
Lemma invariant_conserves s s' sub cl : invariant {| conn := s; submitted := sub; gone := cl |} ->
  conserves cl s s' -> (bounded params sub s -> NoDup (known s) -> bounded params sub s') ->
  invariant {| conn := s'; submitted := sub; gone := cl |}.
Proof.
  intros Hi (d' & E' & Hd') Hb. pose proof (invariant_nodup _ Hi) as Hn. destruct Hi as [Hf (d & E & Hd) Hbs]; simpl in *.
  split; simpl; [done| |by apply Hb]. exists (d' ++ d). split; [by rewrite E, E', app_assoc|by apply Forall_app].
Qed.

Lemma poll_complete_bounded sub closed l (s : ClusterConnInner C) action s' : bounded params sub s -> NoDup (known s) ->
  poll_complete closed l s = Some (action, s') -> bounded params sub s'.
Proof.
  intros Hb Hn. unfold poll_complete, poll_in_flight.
  destruct (poll_ready closed l Action_None (dispatch_pending closed s)) as [[act s1]|] eqn:E; simpl; [|done].
  intros; simplify_eq. eapply poll_ready_bounded; [done|by apply dispatch_bounded| |exact E].
  eapply conserves_nodup; [by apply dispatch_conserves|done].
Qed.

Lemma flush_invariant xs f s s' sub cl : invariant {| conn := s; submitted := sub; gone := cl |} ->
  poll_flush cl xs s = Some (f, s') -> invariant {| conn := s'; submitted := sub; gone := cl |}.
Proof.
  revert s. induction xs as [|x xs IH]; intros s Hi; simpl; [naive_solver|].
  destruct (flush_round cl x s) as [[f1 s1]|] eqn:E; simpl; [|done].
  assert (invariant {| conn := s1; submitted := sub; gone := cl |}) as Hi1.
  { apply (invariant_conserves s); [done|by eapply flush_round_conserves|].
    intros Hb Hn. by eapply flush_round_bounded. }
  destruct f1; [by apply IH|naive_solver..].
Qed.

Lemma step_invariant y y' : step y y' -> invariant y -> invariant y'.
Proof.
  destruct 1 as [c i s sub cl Hi|a s sub cl|i s sub cl|r s sub cl|xs f s s' sub cl Hs|fs xs r s s' sub cl Hs]; intros Hinv.
  - destruct Hinv as [Hf (d & E & Hd) Hb]; simpl in *. split; simpl.
    + by constructor.
    + exists d. split; [|done]. rewrite (adds_known _ _ _ (start_send_adds c (External i) s)), E. done.
    + apply start_send_bounded; [done| |].
      * destruct Hb as [Hp Ht Hs Hpe Hfl]. split; try done.
        -- intros j Hj. right. by apply Hs.
        -- eapply Forall_impl; [exact Hpe|]. intros r Ha j Hj. destruct (Ha j Hj) as (? & ?). split; [by right|done].
        -- eapply Forall_impl; [exact Hfl|]. intros x Ha r Hr. destruct (Ha r Hr) as [? Ha']. split; [done|].
           intros j Hj. destruct (Ha' j Hj) as (? & ?). split; [by right|done].
      * intros j [= <-]. split; [by left|]. destruct (decide (0 < tries i s)) as [Ht|Ht].
        -- by apply (b_sub params sub s Hb) in Ht.
        -- unfold tries in *. lia.
  - apply (invariant_conserves s); [done| |by intros; apply start_send_bounded].
    apply known_conserves. by rewrite (adds_known _ _ _ (start_send_adds (ArgReconnect a) Internal s)).
  - destruct Hinv as [Hf (d & E & Hd) Hb]. split; [done| |done]. exists d. split; [done|]. simpl in *.
    eapply Forall_impl; [exact Hd|]. set_solver.
  - unfold wait_for_initial_connection. destruct (conn_state s); simpl; [done|].
    apply (invariant_conserves s); [done|by apply known_conserves|]. intros Hb _. by apply (bounded_same params sub s).
  - by eapply flush_invariant.
  - unfold poll_close in Hs. destruct (poll_complete cl fs s) as [[action s1]|] eqn:E1; simpl in Hs; [|done].
    assert (invariant {| conn := s1; submitted := sub; gone := cl |}) as Hi1.
    { apply (invariant_conserves s); [done|by eapply poll_complete_conserves|]. intros Hb Hn. by eapply poll_complete_bounded. }
    assert (forall r s', ('(f, s) ← poll_flush cl xs s1; Some (@Ok unit flow f, s)) = Some (r, s') ->
      invariant {| conn := s'; submitted := sub; gone := cl |}) as Hfl.
    { intros r' s2. destruct (poll_flush cl xs s1) as [[f s3]|] eqn:E2; simpl; [|done].
      intros; simplify_eq. by eapply flush_invariant. }
    destruct action as [[]|], (in_flight_requests s1); simplify_eq; try done; by eapply Hfl.
Qed.

Lemma reachable_invariant y : reachable y -> invariant y.
Proof.
  intros Hr. revert y Hr. unfold reachable. apply rtc_ind_r; [|intros y y' _ Hs Hi; by eapply step_invariant].
  split; simpl; [constructor|by exists []|]. split; simpl; try done; unfold tries; simpl; lia.
Qed.

(** C19. Whatever the nodes do and however the tasks are scheduled, a request whose
    receiver still waits is either held by the connection or has been answered,
    not both, and no receiver is given two answers. *)
Theorem cluster_requests_conserved y : reachable y ->
  NoDup (answered_to (conn y)) /\
  forall i, i ∈ submitted y -> i ∉ gone y ->
    (i ∈ answered_to (conn y) /\ i ∉ channels (held (conn y))) \/
    (i ∉ answered_to (conn y) /\ i ∈ channels (held (conn y))).
Proof.
  intros Hi%reachable_invariant. pose proof (invariant_nodup y Hi) as Hn. destruct Hi as [_ (d & E & Hd) _].
  unfold known in *. pose proof Hn as (_ & Hdis & Ha)%NoDup_app. split; [done|]. intros i Hi Hg.
  rewrite E, !elem_of_app in Hi. rewrite Forall_forall in Hd. destruct Hi as [[Hi|Hi]|Hi].
  - right. split; [|done]. by apply Hdis.
  - left. split; [done|]. intros Hh. by apply (Hdis i).
  - by apply Hd in Hi.
Qed.

(** C20. A request is tried at most once more than the number of retries. *)
Theorem cluster_attempts_bounded y i : reachable y ->
  tries i (conn y) <= number_of_retries params + 1.
Proof. intros Hi%reachable_invariant. apply (b_tries params (submitted y)). apply Hi. Qed.
End system.

(** ** The connection does not panic *)

Section total.
Context {C : Type} `{BP : BuildProfile} `{RR : RandRange}.
Implicit Types (s : ClusterConnInner C).
Context (params : RetryParams).
(** A waiting time can be drawn for every retry. *)
Hypothesis waits : forall n g, is_Some (wait_time_for_retry params n g).

(** Every request carries the parameters of the connection. *)
Definition uniform s : Prop :=
  inner_params s = params /\
  Forall (fun x => is_Some (request x) -> request_params x = params) (in_flight_requests s).

Lemma chosen_some result (r : PendingRequest C) g : is_Some (choose_response result r params g).
Proof. apply choose_response_some; [apply error_to_handle_some|done]. Qed.

Lemma launch_uniform r s : uniform s -> uniform (launch r s).
Proof. intros [Hp Hf]. split; [done|]. apply Forall_app. split; [done|]. by constructor. Qed.
Lemma handle_retries_uniform x s : uniform s -> uniform (handle_retries x s).
Proof.
  intros Hu. destruct x as [[r|r|r d]|]; [by apply launch_uniform|done| |done].
  destruct Hu as [Hp Hf]. split; [done|]. apply Forall_app. split; [done|]. by constructor.
Qed.
Lemma dispatch_uniform closed s : uniform s -> uniform (dispatch_pending closed s).
Proof.
  intros Hu. unfold dispatch_pending. generalize (pending_requests s). intros l.
  assert (uniform (with_pending (fun _ => []) s)) as Hu' by done. revert Hu'. generalize (with_pending (fun _ => []) s).
  induction l as [|r l IH]; intros s' Hu'; [done|]. simpl. apply IH. destruct (is_closed _ _); [done|by apply launch_uniform].
Qed.

Lemma poll_one_total closed k future s : uniform s -> exists next s',
  poll_one closed k future s = Some (next, s') /\ uniform s'.
Proof.
  intros Hu. unfold poll_one, poll_request. destruct (in_flight_requests s !! k) as [x|] eqn:Hk; [|by eexists _, _].
  assert (forall y a g, uniform (handle_retries y (with_answers a g (with_in_flight (delete k) s)))) as Hd.
  { intros y a g. apply handle_retries_uniform. destruct Hu as [Hp Hf]. split; [done|]. simpl. by apply Forall_delete. }
  destruct (request x) as [r|] eqn:Hx; simpl; [|eexists _, _; split; [done|apply (Hd None)]].
  destruct (is_closed closed (sender r)); [eexists _, _; split; [done|apply (Hd None)]|].
  assert (request_params x = params) as Hp.
  { destruct Hu as [_ Hf]. rewrite Forall_lookup in Hf. apply (Hf k); [done|]. by rewrite Hx. }
  destruct (request_state x), future as [| |result]; simpl; try by eexists _, _.
  - rewrite Hp. destruct (chosen_some result r (inner_rng s)) as [[[[sent y] action] g] ->]. simpl.
    eexists _, _. split; [done|apply Hd].
  - eexists _, _. split; [done|apply (Hd (Some (Immediately r)))].
Qed.

Lemma poll_complete_total closed l s : uniform s -> exists action s',
  poll_complete closed l s = Some (action, s') /\ uniform s'.
Proof.
  intros Hu. assert (forall l action s, uniform s -> exists action' s',
    poll_ready closed l action s = Some (action', s') /\ uniform s') as Hr.
  { clear -waits. induction l as [|[k future] l IH]; intros action s Hu; simpl; [by eexists _, _|].
    destruct (poll_one_total closed k future s Hu) as (next & s1 & -> & Hu1). simpl. by apply IH. }
  unfold poll_complete, poll_in_flight.
  destruct (Hr l Action_None _ (dispatch_uniform closed s Hu)) as (action & s' & -> & Hu'). simpl. by eexists _, _.
Qed.

Lemma retry_all_total e l s : Forall (fun x => x.2 = params) l -> uniform s -> exists s',
  retry_all e l s = Some s' /\ uniform s'.
Proof.
  intros Hl. revert s. induction Hl as [|[r p] l Hp Hl IH]; intros s Hu; simpl; [by exists s|]. simpl in Hp. subst p.
  destruct (chosen_some (Target_NotFound, Err e) r (inner_rng s)) as [[[[sent x] action] g] ->]. simpl.
  apply IH. by apply handle_retries_uniform.
Qed.

Lemma send_refresh_error_total s : uniform s -> exists s', send_refresh_error s = Some s' /\ uniform s'.
Proof.
  intros Hu. unfold send_refresh_error. destruct (refresh_error s) as [e|]; [|by exists s].
  set (l := omap _ (in_flight_requests s)). set (s0 := with_in_flight (map taken) (with_state (conn_state s) None s)).
  assert (uniform s0) as Hu0.
  { destruct Hu as [Hp Hf]. split; [done|]. apply Forall_forall. intros x (y & -> & Hy)%list_elem_of_fmap.
    unfold taken. destruct (request y) eqn:Ey; simpl; [by intros []|]. rewrite Ey. by intros []. }
  assert (Forall (fun x => x.2 = params) l) as Hl.
  { destruct Hu as [Hp Hf]. apply Forall_forall. intros x (y & Hy & Hx)%list_elem_of_omap.
    destruct (request y) as [r|] eqn:Er; simplify_eq/=. rewrite Forall_forall in Hf. apply Hf; [done|]. by rewrite Er. }
  destruct l as [|x l'] eqn:El; [|by apply retry_all_total].
  change (pending_requests s0) with (pending_requests s). destruct (pending_requests s) as [|p ps]; [by apply retry_all_total|].
  apply retry_all_total; [|done]. constructor; [|done]. by destruct Hu.
Qed.

Lemma resubscribe_uniform cs s : uniform s -> uniform (resubscribe cs s).
Proof.
  unfold resubscribe. revert s. induction cs as [|c cs IH]; intros s Hu; [done|]. simpl. by apply IH.
Qed.

Lemma flush_round_total closed x s : uniform s -> exists f s', flush_round closed x s = Some (f, s') /\ uniform s'.
Proof.
  intros Hu. unfold flush_round. destruct (send_refresh_error_total s Hu) as (s1 & -> & Hu1). simpl.
  set (s2 := poll_reconnects _ _ _ s1).
  assert (uniform s2) as Hu2 by (by apply resubscribe_uniform).
  destruct (poll_recover (recovered x) (resubscriptions x) s2) as [res s3] eqn:E3.
  assert (uniform s3) as Hu3.
  { unfold poll_recover in E3. repeat case_match; simplify_eq; try done; by apply resubscribe_uniform. }
  destruct res as [[?|e]|]; [|by eexists _, _..].
  destruct (poll_complete_total closed (futures x) s3 Hu3) as (action & s4 & -> & Hu4). simpl.
  destruct action as [[]|]; by eexists _, _.
Qed.

(** The sink never panics as long as waiting times can be drawn, and then the
    whole task goes on. *)
Lemma poll_flush_total closed xs s : uniform s -> exists f s', poll_flush closed xs s = Some (f, s') /\ uniform s'.
Proof.
  revert s. induction xs as [|x xs IH]; intros s Hu; simpl; [by eexists _, _|].
  destruct (flush_round_total closed x s Hu) as (f & s1 & -> & Hu1). simpl. destruct f; [by apply IH|by eexists _, _..].
Qed.
End total.

(** After a failed refresh a waiting signal to reconnect to a node is taken out of
    the queue and not acted upon. *)
Lemma refresh_error_drops_reconnect `{BuildProfile} `{RandRange} {C} (s : ClusterConnInner C) e a ps :
  refresh_error s = Some e -> omap request (in_flight_requests s) = [] ->
  pending_requests s = {| retry := 0; sender := Internal; req_cmd := ArgReconnect a |} :: ps -> exists s',
  send_refresh_error s = Some s' /\ pending_requests s' = ps /\ reconnect_futures s' = reconnect_futures s.
Proof.
  intros He Hf Hp. unfold send_refresh_error. rewrite He.
  assert (omap (fun r => (fun p => (p, request_params r)) <$> request r) (in_flight_requests s) = []) as ->.
  { apply (fmap_nil_inv fst). by rewrite taken_requests. }
  simpl. rewrite Hp. simpl. by eexists.
Qed.

(** ** A request that is redirected *)

Module Redirected.
#[local] Instance checked : BuildProfile := true.
#[local] Existing Instance lowest.
#[local] Existing Instance lowest_range.
Definition seed : @rng lowest := ().
Definition owner : NodeAddress := NodeAddress_new (bs "10.0.0.2") 6379.
Definition moved : OperationResult :=
  (Target_Node (NodeAddress_new (bs "10.0.0.1") 6379),
   Ok (Response_Single (ServerErr (err_parser (bs "MOVED 9000 10.0.0.2:6379"))))).
Definition ok : OperationResult := (Target_Node owner, Ok (Response_Single Okay)).
Definition round_of (recovered : option (result RedisError unit)) (l : list (nat * polled)) : round unit :=
  {| repaired := ∅; repairing := ∅; node_resubscriptions := []; recovered := recovered; resubscriptions := [];
     futures := l |}.
Definition rounds : list (round unit) :=
  [round_of None [(0%nat, Resolved moved)]; round_of (Some (Ok ())) [(0%nat, Resolved ok)]].
Definition sent : ClusterConnInner unit :=
  (wait_for_initial_connection (Ok ())
     (start_send (ArgCmd (cmd "PING") (ISingleNode IRandom)) (External 0)
        (ClusterConnInner_new RetryParams_default seed))).2.
Definition done_ : ClusterConnInner unit :=
  match poll_flush ∅ rounds sent with Some (_, s) => s | None => sent end.
Definition final : system := {| conn := done_; submitted := [0%nat]; gone := ∅ |}.

Lemma final_reachable : reachable RetryParams_default seed final.
Proof.
  eapply rtc_l; [by apply (step_send (ArgCmd (cmd "PING") (ISingleNode IRandom)) 0); set_solver|].
  eapply rtc_l; [by apply (step_connected (Ok ()))|].
  eapply rtc_l; [|reflexivity]. apply (step_flush rounds ReturnReady). vm_compute. reflexivity.
Qed.

Lemma cluster_requests_conserved_witness :
  NoDup (answered_to (conn final)) /\ answered_to (conn final) = [0%nat].
Proof.
  split; [|vm_compute; reflexivity].
  destruct (cluster_requests_conserved RetryParams_default seed ltac:(by vm_compute) final final_reachable) as [Hn _]. exact Hn.
Defined.

Lemma cluster_attempts_bounded_witness : tries 0 (conn final) = 2 /\ tries 0 (conn final) <= 17.
Proof.
  split; [vm_compute; reflexivity|].
  exact (cluster_attempts_bounded RetryParams_default seed ltac:(by vm_compute) final 0 final_reachable).
Defined.
End Redirected.
