(* ===== verification/ClusterAsync.v ===== *)
(** * The asynchronous cluster connection

    [Core] of [cluster_handling/async_connection/mod.rs]: the connections to the
    nodes with their states, the choice of a connection for a request, attempts of
    requests, requests to several nodes, the refresh of the slot map, the repair of
    connections and the renewal of subscriptions; and the user's side of the
    connection.  The queue that drives the attempts is [ClusterInner].

    A connection to a node is a handle that is cloned freely; what is sent over it
    changes the world behind it, [W].  [AsyncConnect] is the trait [Connect] with
    the requests of [ConnectionLike].  Functions run without interruption; those
    that hold the lock of the connection map do so in the code, too.  The channels
    on which the parts of a request are answered are numbers: [await] gives what is
    received on them, and results arrive in the order of [arrival_order]. *)

From S2P Require Import Prelude Text Errors Types Parser Codec Cmd Convert Pipeline Slots Routing Subscription Caching Effects ConnInfo Clients ClusterClient ClusterBuilder ClusterSync ClusterRequest ClusterInner.
Local Open Scope Z_scope.

(** The configuration that [connect_and_check] passes on; the cache manager is
    represented by its configuration. *)
Record NodeConfig := {
  node_connection_timeout : option Duration; node_response_timeout : option Duration;
  node_push_sender : option NodeAddress; node_dns_resolver : option Arc;
  node_cache : option CacheConfig; node_credentials_provider : option Arc;
  node_concurrency_limit : option Z;
  node_write_backpressure_boundary : option Z
}.

Class AsyncConnect (C W : Type) := {
  connect_with_config : ConnectionInfo -> NodeConfig -> action W C;
  async_req_packed_command : C -> Cmd -> action W Value;
  async_req_packed_commands : C -> Pipeline -> nat -> nat -> action W (list Value)
}.

Class ArrivalOrder := {
  arrival_order : forall {A : Type}, list A -> list A;
  arrival_order_perm : forall {A} (l : list A), arrival_order l ≡ₚ l
}.

(** ** Connections *)

Inductive ConnState (C : Type) := Connected (c : C) | Reconnecting (c : C) | Connecting.
Arguments Connected {C} c.
Arguments Reconnecting {C} c.
Arguments Connecting {C}.

Section conn_state.
Context {C : Type}.

Definition connected (s : ConnState C) : option C := match s with Connected c => Some c | _ => None end.
Definition connected_or_reconnecting (s : ConnState C) : option C :=
  match s with Connected c | Reconnecting c => Some c | Connecting => None end.
Definition into_conn (s : ConnState C) : option C :=
  match s with Connected c | Reconnecting c => Some c | Connecting => None end.

Abbreviation ConnectionMap := (gmap NodeAddress (ConnState C)).

Definition mark_reconnecting (m : ConnectionMap) (a : NodeAddress) : ConnectionMap :=
  <[a := match m !! a with
         | Some (Connected c) => Reconnecting c
         | Some other => other
         | None => Connecting
         end]> m.

Definition is_connected (s : ConnState C) : bool := match s with Connected _ => true | _ => false end.
(** [Reconnecting] or [Connecting]. *)
Definition in_repair (m : ConnectionMap) (a : NodeAddress) : bool :=
  match m !! a with Some (Reconnecting _) | Some Connecting => true | _ => false end.
End conn_state.

Definition skip_limit (c : Cmd) : Cmd :=
  {| data := data c; args := args c; cursor := cursor c; no_response := no_response c;
     skip_concurrency_limit := true; cache := cache c |}.

(** [build_slot_map]. *)
Definition build_slot_map (m : SlotMap) (l : list SlotRange) : SlotMap := fill_slots (SlotMap_clear m) l.

Section core.
Context `{BP : BuildProfile} `{HO : HashOrder} `{AO : ArrivalOrder} `{CR : Crc16} `{RR : RandRange}.
Context `{ED : ErrorDisplay}.
Context {S : Type} `{!ReadRoutingStrategy S} {C W : Type} `{AC : AsyncConnect C W}.

Record Core := {
  conn_map : gmap NodeAddress (ConnState C);
  core_slots : SlotMap;
  core_params : ClusterParams S;
  (* pending_requests_tx *)
  outbox : list (PendingRequest C);
  core_initial_nodes : list ConnectionInfo;
  subscription_tracker : option SubscriptionTracker;
  core_strategy : option S;
  core_rng : rng;
  channels_made : nat;
  world : W
}.

Definition with_conns (f : gmap NodeAddress (ConnState C) -> gmap NodeAddress (ConnState C)) (s : Core) : Core :=
  {| conn_map := f (conn_map s); core_slots := core_slots s; core_params := core_params s; outbox := outbox s;
     core_initial_nodes := core_initial_nodes s; subscription_tracker := subscription_tracker s;
     core_strategy := core_strategy s; core_rng := core_rng s; channels_made := channels_made s; world := world s |}.
Definition with_slot_map (m : SlotMap) (s : Core) : Core :=
  {| conn_map := conn_map s; core_slots := m; core_params := core_params s; outbox := outbox s;
     core_initial_nodes := core_initial_nodes s; subscription_tracker := subscription_tracker s;
     core_strategy := core_strategy s; core_rng := core_rng s; channels_made := channels_made s; world := world s |}.
Definition with_choice (st : option S) (g : rng) (s : Core) : Core :=
  {| conn_map := conn_map s; core_slots := core_slots s; core_params := core_params s; outbox := outbox s;
     core_initial_nodes := core_initial_nodes s; subscription_tracker := subscription_tracker s;
     core_strategy := st; core_rng := g; channels_made := channels_made s; world := world s |}.
Definition with_tracker (t : option SubscriptionTracker) (s : Core) : Core :=
  {| conn_map := conn_map s; core_slots := core_slots s; core_params := core_params s; outbox := outbox s;
     core_initial_nodes := core_initial_nodes s; subscription_tracker := t;
     core_strategy := core_strategy s; core_rng := core_rng s; channels_made := channels_made s; world := world s |}.
Definition with_world (w : W) (s : Core) : Core :=
  {| conn_map := conn_map s; core_slots := core_slots s; core_params := core_params s; outbox := outbox s;
     core_initial_nodes := core_initial_nodes s; subscription_tracker := subscription_tracker s;
     core_strategy := core_strategy s; core_rng := core_rng s; channels_made := channels_made s; world := w |}.
Definition send_pending (l : list (PendingRequest C)) (made : nat) (s : Core) : Core :=
  {| conn_map := conn_map s; core_slots := core_slots s; core_params := core_params s; outbox := outbox s ++ l;
     core_initial_nodes := core_initial_nodes s; subscription_tracker := subscription_tracker s;
     core_strategy := core_strategy s; core_rng := core_rng s;
     channels_made := (channels_made s + made)%nat; world := world s |}.

Notation core := (action Core).

(** [InnerCore] as [ClusterConnInner::new] makes it. *)
Definition InnerCore_new (nodes : list ConnectionInfo) (params : ClusterParams S) (has_push_sender : bool)
    (g : rng) (w : W) : Core :=
  {| conn_map := ∅; core_slots := SlotMap_new; core_params := params; outbox := [];
     core_initial_nodes := nodes;
     subscription_tracker := if has_push_sender then Some SubscriptionTracker_default else None;
     core_strategy := (fun f => f ()) <$> read_routing_factory params;
     core_rng := g; channels_made := 0; world := w |}.

(** An operation over a connection. *)
Definition over {A} (m : action W A) : core A := fun s =>
  match m (world s) with
  | Return r w => Return r (with_world w s)
  | Waiting => Waiting
  | Panicked => Panicked
  end.

Definition node_config (node : NodeAddress) (info : ConnectionInfo) (p : ClusterParams S) : NodeConfig :=
  {| node_connection_timeout := Some (connection_timeout p); node_response_timeout := response_timeout p;
     node_push_sender := if supports_resp3 (info_protocol (redis_settings info)) then Some node else None;
     node_dns_resolver := async_dns_resolver p; node_cache := cp_cache_manager p;
     node_credentials_provider := credentials_provider p;
     node_concurrency_limit := connection_concurrency_limit p;
     node_write_backpressure_boundary := write_backpressure_boundary p |}.

(** An error reply to the first command is not looked at. *)
Definition async_connect_and_check (node : NodeAddress) : core C :=
  params ← gets core_params;
  let info := get_connection_info node params in
  conn ← over (connect_with_config info (node_config node info params));
  let readonly_cmd := cmd (if read_routing_factory params then "READONLY" else "PING") in
  _ ← over (async_req_packed_command conn (skip_limit readonly_cmd));
  mret conn.

Definition async_check_connection (conn : C) : core unit :=
  v ← over (async_req_packed_command conn (skip_limit (cmd "PING")));
  _ ← lift (extract_error v);
  mret ().

Definition get_or_create_conn (addr : NodeAddress) (conn_option : option C) : core C :=
  match conn_option with
  | Some conn =>
      r ← attempt (async_check_connection conn);
      match r with Ok _ => mret conn | Err _ => async_connect_and_check addr end
  | None => async_connect_and_check addr
  end.

(** [get_random_connection]. *)
Definition async_random_connection : core (option (NodeAddress * C)) :=
  s ← gets id;
  let candidates := omap (fun '(a, st) => (fun c => (a, c)) <$> connected st) (hash_order (map_to_list (conn_map s))) in
  let '(x, g) := choose candidates (core_rng s) in
  _ ← modify (with_choice (core_strategy s) g);
  mret x.

Definition connect_check_and_add (addr : NodeAddress) : core C :=
  conn ← async_connect_and_check addr;
  _ ← modify (with_conns (insert addr (Connected conn)));
  mret conn.

Definition get_redirected_connection (redirect : Redirect) : core (NodeAddress * C) :=
  let asking := match redirect with Ask _ => true | Moved _ => false end in
  let addr := match redirect with Ask a | Moved a => a end in
  m ← gets conn_map;
  conn ← match m !! addr ≫= connected with
         | Some conn => mret conn
         | None => connect_check_and_add addr
         end;
  _ ← (if asking : bool then
         v ← over (async_req_packed_command conn (skip_limit (cmd "ASKING")));
         _ ← lift (extract_error v); mret ()
       else mret ());
  mret (addr, conn).

(** [slot_addr_for_route] with the strategy of the connection. *)
Definition preferred_node (route : Route) : core (option NodeAddress) :=
  s ← gets id;
  match slot_addr_for_route (core_slots s) route (core_strategy s) (core_rng s) with
  | None => mret None
  | Some (a, st, g) => _ ← modify (with_choice st g); a ← or_panic a; mret (Some a)
  end.

(** The first of the addresses with a connection. *)
Definition first_connected (m : gmap NodeAddress (ConnState C)) (l : list NodeAddress) : option (NodeAddress * C) :=
  head (omap (fun a => (fun c => (a, c)) <$> (m !! a ≫= connected)) l).

Definition async_get_connection (route : InternalSingleNodeRouting C) : core (NodeAddress * C) :=
  match route with
  | IRandom =>
      x ← async_random_connection;
      match x with Some x => mret x | None => fail no_connections end
  | IConnection identifier conn => mret (identifier, conn)
  | IRedirect redirect _ => get_redirected_connection redirect
  | IByAddress address =>
      m ← gets conn_map;
      match m !! address ≫= connected with
      | Some conn => mret (address, conn)
      | None => fail (redis_error_of_detail ClusterConnectionNotFound "Requested connection not found"
                        (NodeAddress_display address))
      end
  | ISpecificNode route =>
      preferred ← preferred_node route;
      s ← gets id;
      match preferred ≫= (fun a => (fun c => (a, c)) <$> (conn_map s !! a ≫= connected)) with
      | Some found => mret found
      | None =>
          match first_connected (conn_map s) (shard_fallback_addrs (core_slots s) route) with
          | Some found => mret found
          | None =>
              x ← async_random_connection;
              match x with Some x => mret x | None => fail no_connections end
          end
      end
  end.

(** ** The slot map *)

(** [query_slots]: the slot map is only replaced when the reply is understood. *)
Definition async_query_slots (conn : C) (addr : NodeAddress) : core unit :=
  value ← over (async_req_packed_command conn (skip_limit slot_cmd));
  value ← lift (extract_error value);
  v ← lift (parse_slots value (host addr));
  m ← gets core_slots;
  modify (with_slot_map (build_slot_map m v)).

(** The first pass of [refresh_slots]: the connections that are in order. *)
Fixpoint query_connected (l : list (NodeAddress * ConnState C)) (last_err : option RedisError)
    : core (bool * option RedisError) :=
  match l with
  | [] => mret (false, last_err)
  | (addr, Connected conn) :: l =>
      r ← attempt (async_query_slots conn addr);
      match r with
      | Ok _ => mret (true, last_err)
      | Err err => query_connected l (Some err)
      end
  | _ :: l => query_connected l last_err
  end.
(** The second pass: all of them, repaired on the way. *)
Fixpoint query_repaired (l : list NodeAddress) (last_err : option RedisError)
    : core (bool * option RedisError) :=
  match l with
  | [] => mret (false, last_err)
  | addr :: l =>
      m ← gets conn_map;
      let prev := m !! addr ≫= into_conn in
      _ ← modify (with_conns (insert addr Connecting));
      r ← attempt (get_or_create_conn addr prev);
      match r with
      | Ok conn =>
          res ← attempt (async_query_slots conn addr);
          _ ← modify (with_conns (insert addr (Connected conn)));
          match res with
          | Ok _ => mret (true, last_err)
          | Err err => query_repaired l (Some err)
          end
      | Err err => query_repaired l (Some err)
      end
  end.

(** [refresh_connections_locked]: each entry is taken out, and put back if its
    connection works or a new one is made. *)
Definition take_out (nodes : list NodeAddress) (m : gmap NodeAddress (ConnState C))
    : list (NodeAddress * option C) * gmap NodeAddress (ConnState C) :=
  (map (fun a => (a, m !! a ≫= into_conn)) nodes, foldr delete m nodes).
Fixpoint put_back (l : list (NodeAddress * option C)) : core unit :=
  match l with
  | [] => mret ()
  | (addr, connection) :: l =>
      result ← attempt (get_or_create_conn addr connection);
      _ ← match result with
          | Ok conn => modify (with_conns (insert addr (Connected conn)))
          | Err _ => mret ()
          end;
      put_back l
  end.
Definition refresh_connections_locked (nodes : list NodeAddress) : core unit :=
  m ← gets conn_map;
  let '(taken, m) := take_out nodes m in
  _ ← modify (with_conns (fun _ => m));
  put_back (arrival_order taken).

Definition topology_nodes (m : SlotMap) : list NodeAddress :=
  remove_dups (concat (map SlotAddrs_into_iter (SlotMap_values m))).

Definition async_refresh_slots : core unit :=
  m ← gets conn_map;
  '(found, last_err) ← query_connected (hash_order (map_to_list m)) None;
  '(found, last_err) ← (if found : bool then mret (found, last_err)
                        else m ← gets conn_map;
                             query_repaired (hash_order (map_to_list m)).*1 last_err);
  if negb found then fail (default no_connections last_err)
  else
    s ← gets id;
    _ ← modify (with_choice (strategy_topology_changed (topology (core_slots s)) <$> core_strategy s) (core_rng s));
    let nodes := topology_nodes (core_slots s) in
    _ ← modify (with_conns (filter (fun '(a, _) => a ∈ nodes)));
    refresh_connections_locked (hash_order nodes).

(** ** Initial connections *)

Fixpoint connect_initial (l : list ConnectionInfo) (m : gmap NodeAddress (ConnState C)) (error : option RedisError)
    : core (gmap NodeAddress (ConnState C) * option RedisError) :=
  match l with
  | [] => mret (m, error)
  | info :: l =>
      r ← attempt (addr ← lift (NodeAddress_of_addr (addr info));
                   conn ← async_connect_and_check addr; mret (addr, conn));
      match r with
      | Ok (addr, conn) => connect_initial l (<[addr := Connected conn]> m) error
      | Err err => connect_initial l m (Some err)
      end
  end.
Definition async_create_initial_connections : core (gmap NodeAddress (ConnState C)) :=
  nodes ← gets core_initial_nodes;
  '(m, error) ← connect_initial (arrival_order nodes) ∅ None;
  if bool_decide (m = ∅) then
    fail (match error with
          | Some err => redis_error_of_detail Io "Failed to create initial connections" (error_display err)
          | None => redis_error_of Io "Failed to create initial connections"
          end)
  else mret m.
Definition reconnect_to_initial_nodes : core unit :=
  m ← async_create_initial_connections;
  _ ← modify (with_conns (fun _ => m));
  _ ← modify (with_slot_map SlotMap_new);
  async_refresh_slots.

(** ** Attempts *)

(** The requests to the nodes, each with the channel on which it is answered; nodes
    without a connection are left out. *)
Definition node_request (m : gmap NodeAddress (ConnState C)) (channel : nat) (x : NodeAddress * Cmd)
    : option (PendingRequest C) :=
  (fun conn => {| retry := 0; sender := External channel;
                  req_cmd := ArgCmd x.2 (ISingleNode (IConnection x.1 conn)) |})
  <$> (m !! x.1 ≫= connected_or_reconnecting).
Fixpoint node_requests (m : gmap NodeAddress (ConnState C)) (channel : nat) (l : list (NodeAddress * Cmd))
    : list (NodeAddress * nat) * list (PendingRequest C) :=
  match l with
  | [] => ([], [])
  | x :: l =>
      match node_request m channel x with
      | None => node_requests m channel l
      | Some r =>
          let '(receivers, requests) := node_requests m (Datatypes.S channel) l in
          ((x.1, channel) :: receivers, r :: requests)
      end
  end.

(** The parts of a request to several slots, for the slots that are covered. *)
Fixpoint multi_slot_parts (c : Cmd) (routes : list (Route * list nat)) : core (list (NodeAddress * Cmd)) :=
  match routes with
  | [] => mret []
  | (route, indices) :: routes =>
      a ← preferred_node route;
      part ← match a with
             | None => mret []
             | Some a => c ← or_panic (command_for_multi_slot_indices c indices); mret [(a, c)]
             end;
      rest ← multi_slot_parts c routes;
      mret (part ++ rest)
  end.

(** What is received on a channel; [None] if its sender was dropped. *)
Context (await : nat -> option (result RedisError Response)).

Definition convert_result (x : option (result RedisError Response)) : option (result RedisError Value) :=
  match x with
  | None => Some (Err (redis_error_of Errors.Client "request wasn't handled due to internal failure"))
  | Some (Err e) => Some (Err e)
  | Some (Ok (Response_Single v)) => Some (Ok v)
  | Some (Ok (Response_Multiple _)) => None
  end.

(** [try_join_all]: all the values, or the error that arrives first. *)
Definition try_join_all {A} (l : list (result RedisError A)) : result RedisError (list A) :=
  match collect_results l with
  | Ok vs => Ok vs
  | Err e => match collect_results (arrival_order l) with Ok _ => Err e | Err e => Err e end
  end.
(** [select_ok]: the success that arrives first, or else the last error. *)
Fixpoint select_ok {A} (l : list (result RedisError A)) (last_err : RedisError) : result RedisError A :=
  match l with
  | [] => Err last_err
  | Ok a :: _ => Ok a
  | Err e :: l => select_ok l e
  end.
(** The loop over the resolved replies; [nils] is [nil_counter == num_results]. *)
Fixpoint first_nonempty (l : list (result RedisError Value)) (nils : bool) (last_err : option RedisError)
    : result RedisError Value :=
  match l with
  | [] => if nils then Ok Nil
          else Err (default (redis_error_of ClusterConnectionNotFound "Couldn't find any connection") last_err)
  | Ok Nil :: l => first_nonempty l nils last_err
  | Ok (ServerErr e) :: l => first_nonempty l false (Some (redis_error_of_server e))
  | Ok v :: _ => Ok v
  | Err e :: l => first_nonempty l false (Some e)
  end.

Definition no_nodes_found : RedisError :=
  redis_error_of ClusterConnectionNotFound "No nodes found for multi-node operation".
Definition node_result (x : NodeAddress * result RedisError Value) : result RedisError (Value * Value) :=
  let '(addr, r) := x in
  v ← match r with
      | Ok v => Ok v
      | Err err => match try_into_server_error err with
                   | Ok server_error => Ok (ServerErr server_error)
                   | Err err => Err err
                   end
      end;
  Ok (BulkString (NodeAddress_display addr), v).

Definition async_aggregate_results (receivers : list (NodeAddress * nat)) (routing : MultipleNodeRoutingInfo)
    (policy : option ResponsePolicy) : option (result RedisError Value) :=
  match receivers with
  | [] => Some (Err no_nodes_found)
  | _ =>
      results ← mapM (fun '(_, channel) => convert_result (await channel)) receivers;
      let checked (f : list Value -> option (result RedisError Value)) :=
        match try_join_all results with Err e => Some (Err e) | Ok vs => f vs end in
      match policy with
      | Some AllSucceeded =>
          checked (fun vs => Some (ok_or (last vs)
            (redis_error_of ClusterConnectionNotFound "No results received for multi-node operation")))
      | Some OneSucceeded => Some (select_ok (arrival_order results) no_nodes_found)
      | Some FirstSucceededNonEmptyOrAllEmpty => Some (first_nonempty results true None)
      | Some (Aggregate op) => checked (fun vs => aggregate vs op)
      | Some (AggregateLogical op) => checked (fun vs => logical_aggregate vs op)
      | Some CombineArrays =>
          checked (fun vs => match routing with
                             | MultiSlot routes pattern => combine_and_sort_array_results vs routes pattern
                             | _ => Some (combine_array_results vs)
                             end)
      | Some CombineMaps => checked combine_map_results
      | Some Special | None =>
          Some (rs ← collect_results (map node_result (zip (map fst receivers) results)); Ok (Map rs))
      end
  end.

Definition async_execute_on_multiple_nodes (c : Cmd) (routing : MultipleNodeRoutingInfo)
    (policy : option ResponsePolicy) : core OperationResult :=
  s ← gets id;
  if bool_decide (conn_map s = ∅) then
    mret (Target_FanOut, Err (redis_error_of ClusterConnectionNotFound
                                "No connections found for multi-node operation"))
  else
    targets ← match routing with
              | AllNodes => mret (map (fun a => (a, c)) (hash_order (addresses_for_all_nodes (core_slots s))))
              | AllMasters => mret (map (fun a => (a, c)) (hash_order (addresses_for_all_primaries (core_slots s))))
              | MultiSlot routes _ => multi_slot_parts c routes
              end;
    let '(receivers, requests) := node_requests (conn_map s) (channels_made s) targets in
    _ ← modify (send_pending requests (length requests));
    r ← or_panic (async_aggregate_results receivers routing policy);
    mret (Target_FanOut, Response_Single <$> r).

Definition update_tracker (l : list Cmd) : core unit :=
  modify (fun s => with_tracker
    ((fun t => foldl (fun t c => match to_request c with
                                 | Some (action, args) => update_with_request t action args
                                 | None => t
                                 end) t l) <$> subscription_tracker s) s).

Definition try_cmd_request (c : Cmd) (routing : InternalRoutingInfo C) : core OperationResult :=
  match routing with
  | IMultiNode info policy => async_execute_on_multiple_nodes c info policy
  | ISingleNode route =>
      r ← attempt (async_get_connection route);
      match r with
      | Err err => mret (Target_NotFound, Err err)
      | Ok (addr, conn) =>
          res ← attempt (over (async_req_packed_command conn c));
          _ ← match res with
              | Ok (ServerErr _) | Err _ => mret ()
              | Ok _ => update_tracker [c]
              end;
          mret (Target_Node addr, Response_Single <$> res)
      end
  end.

(** The commands of a pipeline whose replies are no errors; [None] is the panic of
    [res[index]]. *)
Definition accepted (cs : list Cmd) (res : list Value) : option (list Cmd) :=
  l ← mapM (fun '(index, c) =>
              v ← res !! index;
              Some (match v with ServerErr _ => None | _ => Some c end)) (imap pair cs);
  Some (omap id l).
(** The closure of [inspect], with its [debug_assert_eq!]. *)
Definition track_pipeline `{DebugAssertions} (p : Pipeline) (res : list Value) : core unit :=
  t ← gets subscription_tracker;
  match t with
  | None => mret ()
  | Some _ =>
      res ← or_panic (if transaction_mode p then
                        if debug_assertions && negb (length res =? 1)%nat then None
                        else match res with
                             | [] => None
                             | Array arr :: _ => Some arr
                             | _ => Some res
                             end
                      else Some res);
      cs ← or_panic (accepted (commands p) res);
      update_tracker cs
  end.
Definition try_pipeline_request `{DebugAssertions} (p : Pipeline) (offset count : nat) (route : InternalSingleNodeRouting C)
    : core OperationResult :=
  r ← attempt (async_get_connection route);
  match r with
  | Err err => mret (Target_NotFound, Err err)
  | Ok (addr, conn) =>
      res ← attempt (over (async_req_packed_commands conn p offset count));
      _ ← match res with Ok vs => track_pipeline p vs | Err _ => mret () end;
      mret (Target_Node addr, Response_Multiple <$> res)
  end.

(** [Core::try_request]. *)
Definition async_try_request `{DebugAssertions} (a : CmdArg C) : core OperationResult :=
  match a with
  | ArgReconnect addr => mret (Target_Node addr, Err (redis_error_of Io "connection dropped"))
  | ArgCmd c routing => try_cmd_request c routing
  | ArgPipeline p offset count route => try_pipeline_request p offset count route
  end.

(** ** Subscriptions *)

Definition routing_or_random (c : Cmd) : core RoutingInfo :=
  info ← or_panic (for_routable c); mret (default (SingleNode Random) info).
Definition internal_request (c : Cmd) (info : RoutingInfo) : core (PendingRequest C) :=
  s ← gets id;
  '(routing, g) ← or_panic (internal_routing info (core_rng s));
  _ ← modify (with_choice (core_strategy s) g);
  mret {| retry := 0; sender := Internal; req_cmd := ArgCmd c routing |}.

(** The pipeline of the tracker; the panic is that of a channel name that does not
    fit into a command. *)
Definition subscription_cmds : core (list Cmd) :=
  t ← gets subscription_tracker;
  match t with
  | None => mret []
  | Some t => p ← or_panic (get_subscription_pipeline t); mret (commands p)
  end.

Fixpoint resubscribe_each (cs : list Cmd) : core unit :=
  match cs with
  | [] => mret ()
  | c :: cs =>
      info ← routing_or_random c;
      r ← internal_request c info;
      _ ← modify (send_pending [r] 0);
      resubscribe_each cs
  end.
Definition resubscribe_all : core unit := cs ← subscription_cmds; resubscribe_each cs.

(** [unlocked]: whether [try_read] got the lock. *)
Fixpoint resubscribe_some (unlocked other_nodes_connected : bool) (a : NodeAddress) (cs : list Cmd) : core unit :=
  match cs with
  | [] => mret ()
  | c :: cs =>
      info ← routing_or_random c;
      send ← match info with
             | SingleNode (SpecificNode route) =>
                 target ← (if unlocked then preferred_node route else mret None);
                 mret (bool_decide (target = Some a))
             | _ => mret (negb other_nodes_connected)
             end;
      _ ← (if send : bool then r ← internal_request c info; modify (send_pending [r] 0) else mret ());
      resubscribe_some unlocked other_nodes_connected a cs
  end.
Definition resubscribe_node (unlocked : bool) (a : NodeAddress) : core unit :=
  m ← gets conn_map;
  let other_nodes_connected :=
    unlocked && existsb (fun '(b, st) => bool_decide (b <> a) && is_connected st) (map_to_list m) in
  cs ← subscription_cmds;
  resubscribe_some unlocked other_nodes_connected a cs.

(** ** Repairing connections *)

(** The beginning of [reconnect_loop]: [false] if a repair is in progress. *)
Definition reconnect_begin (a : NodeAddress) : core bool :=
  m ← gets conn_map;
  if in_repair m a then mret false
  else _ ← modify (with_conns (fun m => mark_reconnecting m a)); mret true.

(** One run of the loop, with the number of attempts including this one: [true]
    if it was the last. *)
Definition reconnect_attempt (unlocked : bool) (attempts : Z) (a : NodeAddress) : core bool :=
  s ← gets id;
  if is_some_and (max_connection_attempts (core_params s)) (fun max => max <? attempts)
  then _ ← modify (with_conns (delete a)); mret true
  else
    let in_topology := bool_decide (a ∈ addresses_for_all_nodes (core_slots s)) in
    let entry := conn_map s !! a in
    if is_some_and entry is_connected then mret true
    else if negb in_topology then _ ← modify (with_conns (delete a)); mret true
    else
      r ← attempt (get_or_create_conn a (entry ≫= connected_or_reconnecting));
      match r with
      | Err _ => mret false
      | Ok conn =>
          m ← gets conn_map;
          _ ← (if is_some_and (m !! a) is_connected then mret ()
               else _ ← modify (with_conns (insert a (Connected conn))); resubscribe_node unlocked a);
          mret true
      end.

(** The waiting times in between, in milliseconds. *)
Definition next_backoff (backoff : Z) : Z := Z.min (backoff * 2) 1000.
Fixpoint reconnect_run (fuel : nat) (unlocked : bool) (attempts backoff : Z) (a : NodeAddress)
    : core (list Z) :=
  match fuel with
  | O => wait
  | Datatypes.S fuel =>
      ended ← reconnect_attempt unlocked (attempts + 1) a;
      if ended : bool then mret []
      else ws ← reconnect_run fuel unlocked (attempts + 1) (next_backoff backoff) a; mret (backoff :: ws)
  end.
(** [reconnect_loop], for at most [fuel] runs of its loop: the times slept. *)
Definition reconnect_loop (fuel : nat) (unlocked : bool) (a : NodeAddress) : core (list Z) :=
  started ← reconnect_begin a;
  if started : bool then reconnect_run fuel unlocked 0 50 a else mret [].
End core.

(** ** The user's side *)

(** What a user gets for a channel on which [x] is received, or if the time is up
    first: [None] is the panic of [unreachable!]. *)
Definition route_command_reply (timed_out : bool) (sent : bool) (x : option (result RedisError Response))
    : option (result RedisError Value) :=
  if timed_out then Some (Err (redis_error_of_io TimedOut))
  else if negb sent then Some (Err (redis_error_of_io BrokenPipe))
  else match x with
       | None => Some (Err (redis_error_of_io BrokenPipe))
       | Some (Err e) => Some (Err e)
       | Some (Ok (Response_Single v)) => Some (Ok v)
       | Some (Ok (Response_Multiple _)) => None
       end.
Definition route_pipeline_reply (timed_out : bool) (sent : bool) (x : option (result RedisError Response))
    : option (result RedisError (list Value)) :=
  if timed_out then Some (Err (redis_error_of_io TimedOut))
  else if negb sent then Some (Err closed_connection_error)
  else match x with
       | None => Some (Err closed_connection_error)
       | Some (Err e) => Some (Err e)
       | Some (Ok (Response_Multiple vs)) => Some (Ok vs)
       | Some (Ok (Response_Single _)) => None
       end.

(** The messages of [req_packed_command] and [req_packed_commands]. *)
Definition message_for_cmd `{Crc16} `{HashOrder} `{RandRange} {C} (c : Cmd) (g : rng) : option (CmdArg C * rng) :=
  info ← for_routable c;
  '(routing, g) ← internal_routing (default (SingleNode Random) info) g;
  Some (ArgCmd c routing, g).
Definition message_for_pipeline `{Crc16} `{HashOrder} `{RandRange} {C} (p : Pipeline) (offset count : nat) (g : rng)
    : option (result RedisError (CmdArg C) * rng) :=
  '(route, g) ← route_for_pipeline p g;
  match route with
  | Err e => Some (Err e, g)
  | Ok route => '(route, g) ← internal_single (single_of_option route) g;
                Some (Ok (ArgPipeline p offset count route), g)
  end.

(** [subscribe] and the like: the command, unless the protocol does not allow it. *)
Definition cluster_subscription (name : string) (protocol : ProtocolVersion) (channels : list bytes)
    : result RedisError Cmd :=
  if negb (supports_resp3 protocol)
  then Err (redis_error_of InvalidClientConfig "RESP3 is required for this command")
  else Ok (foldl write_arg (cmd name) channels).
Definition cluster_subscribe := cluster_subscription "SUBSCRIBE".
Definition cluster_unsubscribe := cluster_subscription "UNSUBSCRIBE".
Definition cluster_psubscribe := cluster_subscription "PSUBSCRIBE".
Definition cluster_punsubscribe := cluster_subscription "PUNSUBSCRIBE".
Definition cluster_ssubscribe := cluster_subscription "SSUBSCRIBE".
Definition cluster_sunsubscribe := cluster_subscription "SUNSUBSCRIBE".

(** ** What a refresh leaves behind *)

Section refresh.
Context `{BP : BuildProfile} `{HO : HashOrder} `{AO : ArrivalOrder} `{CR : Crc16} `{RR : RandRange}.
Context `{ED : ErrorDisplay}.
Context {S : Type} `{!ReadRoutingStrategy S} {C W : Type} `{AC : AsyncConnect C W}.
Abbreviation Core := (Core (S := S) (C := C) (W := W)).
Implicit Types (s : Core).

(** Operations that only use connections. *)
Definition network {A} (m : action Core A) : Prop := forall s r s', m s = Return r s' -> exists w, s' = with_world w s.

Lemma network_bind {A B} (m : action Core A) (f : A -> action Core B) :
  network m -> (forall a, network (f a)) -> network (m ≫= f).
Proof.
  intros Hm Hf s r s'' [(a & s' & E1 & E2)|(e & E & _)]%bind_inv.
  - apply Hm in E1 as [w ->]. apply Hf in E2 as [w' ->]. by exists w'.
  - by apply Hm in E.
Qed.
Lemma network_same {A} (m : action Core A) : (forall s r s', m s = Return r s' -> s' = s) -> network m.
Proof. intros Hm s r s' E. exists (world s). apply Hm in E as ->. by destruct s. Qed.
Lemma network_ret {A} (a : A) : network (mret a).
Proof. apply network_same. intros s r s' E. by inversion E. Qed.
Lemma network_lift {A} (x : result RedisError A) : network (lift x).
Proof. apply network_same. intros s r s' E. by inversion E. Qed.
Lemma network_gets {A} (f : Core -> A) : network (gets f).
Proof. apply network_same. intros s r s' E. by inversion E. Qed.
Lemma network_attempt {A} (m : action Core A) : network m -> network (attempt m).
Proof. intros Hm s r s'. unfold attempt. destruct (m s) as [r' s1| |] eqn:E; [|done..]. intros [= <- <-]. by eapply Hm. Qed.
Lemma network_over {A} (m : action W A) : network (over m).
Proof. intros s r s'. unfold over. destruct (m (world s)); [|done..]. intros [= <- <-]. by eexists. Qed.
#[local] Hint Resolve network_bind network_ret network_lift network_gets network_attempt network_over : network.

Lemma network_connect a : network (async_connect_and_check a).
Proof. unfold async_connect_and_check. eauto 10 with network. Qed.
Lemma network_check c : network (async_check_connection c).
Proof. unfold async_check_connection. eauto 10 with network. Qed.
#[local] Hint Resolve network_connect network_check : network.
Lemma network_get_or_create a o : network (get_or_create_conn a o).
Proof.
  unfold get_or_create_conn. destruct o; [|eauto with network]. apply network_bind; [eauto with network|].
  intros []; eauto with network.
Qed.

(** What the network does in one operation, and in any number of them. *)
Inductive network_op : W -> W -> Prop :=
| op_connect i config w r w' : connect_with_config i config w = Return r w' -> network_op w w'
| op_request conn c w r w' : async_req_packed_command conn c w = Return r w' -> network_op w w'.
Definition history : W -> W -> Prop := rtc network_op.

(** Operations that change the network by what they send, and keep the
    parameters. *)
Definition walks {A} (m : action Core A) : Prop := forall s r s', m s = Return r s' ->
  history (world s) (world s') /\ core_params s' = core_params s.

Lemma walks_bind {A B} (m : action Core A) (f : A -> action Core B) :
  walks m -> (forall a, walks (f a)) -> walks (m ≫= f).
Proof.
  intros Hm Hf s r s'' [(a & s' & E1 & E2)|(e & E & _)]%bind_inv; [|by eapply Hm].
  apply Hm in E1 as [H1 P1]. apply Hf in E2 as [H2 P2]. split; [by etrans|congruence].
Qed.
Lemma walks_same {A} (m : action Core A) :
  (forall s r s', m s = Return r s' -> world s' = world s /\ core_params s' = core_params s) -> walks m.
Proof. intros Hm s r s' E. apply Hm in E as [-> ->]. split; [apply rtc_refl|done]. Qed.
Lemma walks_ret {A} (a : A) : walks (mret a).
Proof. apply walks_same. intros s r s' E. by inversion E. Qed.
Lemma walks_lift {A} (x : result RedisError A) : walks (lift x).
Proof. apply walks_same. intros s r s' E. by inversion E. Qed.
Lemma walks_gets {A} (f : Core -> A) : walks (gets f).
Proof. apply walks_same. intros s r s' E. by inversion E. Qed.
Lemma walks_modify (f : Core -> Core) : (forall s, world (f s) = world s /\ core_params (f s) = core_params s) ->
  walks (modify f).
Proof. intros Hf. apply walks_same. intros s r s' E. inversion E. apply Hf. Qed.
Lemma walks_attempt {A} (m : action Core A) : walks m -> walks (attempt m).
Proof. intros Hm s r s'. unfold attempt. destruct (m s) as [r' s1| |] eqn:E; [|done..]. intros [= <- <-]. by eapply Hm. Qed.
Lemma walks_connect_with i config : walks (over (connect_with_config i config)).
Proof.
  intros s r s'. unfold over. destruct (connect_with_config i config (world s)) as [r' w| |] eqn:E; [|done..].
  intros [= <- <-]. split; [|done]. by eapply rtc_once, op_connect.
Qed.
Lemma walks_request conn c : walks (over (async_req_packed_command conn c)).
Proof.
  intros s r s'. unfold over. destruct (async_req_packed_command conn c (world s)) as [r' w| |] eqn:E; [|done..].
  intros [= <- <-]. split; [|done]. by eapply rtc_once, op_request.
Qed.
#[local] Hint Resolve walks_bind walks_ret walks_lift walks_gets walks_modify walks_attempt walks_connect_with
  walks_request : walks.

Lemma walks_connect a : walks (async_connect_and_check a).
Proof. unfold async_connect_and_check. eauto 10 with walks. Qed.
Lemma walks_check c : walks (async_check_connection c).
Proof. unfold async_check_connection. eauto 10 with walks. Qed.
Lemma walks_query_slots c a : walks (async_query_slots c a).
Proof. unfold async_query_slots. eauto 10 with walks. Qed.
#[local] Hint Resolve walks_connect walks_check walks_query_slots : walks.
Lemma walks_get_or_create a o : walks (get_or_create_conn a o).
Proof.
  unfold get_or_create_conn. destruct o; [|eauto with walks]. apply walks_bind; [eauto with walks|].
  intros []; eauto with walks.
Qed.
#[local] Hint Resolve walks_get_or_create : walks.
Lemma walks_query_connected l last_err : walks (query_connected l last_err).
Proof.
  revert last_err. induction l as [|[a st] l IH]; intros e; cbn [query_connected]; [apply walks_ret|].
  destruct st; try apply IH. apply walks_bind; [eauto with walks|]. intros []; [apply walks_ret|apply IH].
Qed.
Lemma walks_query_repaired l last_err : walks (query_repaired l last_err).
Proof.
  revert last_err. induction l as [|a l IH]; intros e; cbn [query_repaired]; [apply walks_ret|].
  apply walks_bind; [apply walks_gets|intros m]. apply walks_bind; [by apply walks_modify|intros _].
  apply walks_bind; [eauto with walks|]. intros [conn|err]; [|apply IH].
  apply walks_bind; [eauto with walks|intros res]. apply walks_bind; [by apply walks_modify|intros _].
  destruct res; [apply walks_ret|apply IH].
Qed.

(** The connection to [a] was found to work between [w] and [w']: it answered a
    PING without an error, or it was opened anew and answered its first
    command, with whatever reply. *)
Definition checked (params : ClusterParams S) (a : NodeAddress) (conn : C) (w w' : W) : Prop :=
  (exists v, async_req_packed_command conn (skip_limit (cmd "PING")) w = Return (Ok v) w' /\
     is_ok (extract_error v) = true) \/
  (exists w1 v, let info := get_connection_info a params in
     connect_with_config info (node_config a info params) w = Return (Ok conn) w1 /\
     async_req_packed_command conn (skip_limit (cmd (if read_routing_factory params then "READONLY" else "PING"))) w1 =
       Return (Ok v) w').
(** ... at some time between [w0] and [w1]. *)
Definition checked_during (params : ClusterParams S) (w0 w1 : W) (a : NodeAddress) (conn : C) : Prop :=
  exists w w', history w0 w /\ checked params a conn w w' /\ history w' w1.

Lemma over_inv {A} (m : action W A) s r s' : over m s = Return r s' ->
  exists w, m (world s) = Return r w /\ s' = with_world w s.
Proof. unfold over. destruct (m (world s)) as [r' w| |]; [|done..]. intros [= <- <-]. by exists w. Qed.

Lemma connect_and_check_checked a s conn s' : async_connect_and_check a s = Return (Ok conn) s' ->
  checked (core_params s) a conn (world s) (world s').
Proof.
  unfold async_connect_and_check. rewrite bind_gets.
  intros [(c & s1 & (w1 & E1 & ->)%over_inv & E)|(? & _ & ?)]%bind_inv; [|done].
  apply bind_inv in E as [(v & s2 & (w2 & E2 & ->)%over_inv & E)|(? & _ & ?)]; [|done].
  injection E as <- <-. right. exists w1, v. done.
Qed.
Lemma get_or_create_checked a o s conn s' : get_or_create_conn a o s = Return (Ok conn) s' ->
  checked_during (core_params s) (world s) (world s') a conn.
Proof.
  assert (forall s1, history (world s) (world s1) -> core_params s1 = core_params s ->
    async_connect_and_check a s1 = Return (Ok conn) s' ->
    checked_during (core_params s) (world s) (world s') a conn) as Hnew.
  { intros s1 Hh Hp Hc%connect_and_check_checked. rewrite Hp in Hc. exists (world s1), (world s').
    split_and!; [done|done|apply rtc_refl]. }
  unfold get_or_create_conn. destruct o as [c|]; [|apply Hnew; [apply rtc_refl|done]].
  intros [(r & s1 & E1 & E2)|(? & _ & ?)]%bind_inv; [|done].
  pose proof (walks_attempt _ (walks_check c) _ _ _ E1) as [Hh Hp].
  destruct r as [[]|]; [|by eapply Hnew]. injection E2 as <- <-.
  unfold attempt in E1. destruct (async_check_connection c s) as [r1 s2| |] eqn:E; [|done..].
  injection E1 as -> ->. apply bind_inv in E as [(v & s2 & (w & E & ->)%over_inv & E2)|(? & _ & ?)]; [|done].
  apply bind_inv in E2 as [(v' & s2 & Ex & E2)|(? & _ & ?)]; [|done]. injection E2 as <-. injection Ex as Ex <-.
  exists (world s), w. split_and!; [apply rtc_refl| |apply rtc_refl]. left. exists v. by rewrite Ex.
Qed.

(** Every entry of the map is a connection to one of the nodes that was checked
    since [w0]. *)
Definition all_checked (params : ClusterParams S) (w0 w1 : W) (nodes : list NodeAddress)
    (m : gmap NodeAddress (ConnState C)) : Prop :=
  map_Forall (fun a st => a ∈ nodes /\ exists conn, st = Connected conn /\ checked_during params w0 w1 a conn) m.

Lemma all_checked_later params w0 w1 w0' w1' nodes m : history w0' w0 -> history w1 w1' ->
  all_checked params w0 w1 nodes m -> all_checked params w0' w1' nodes m.
Proof.
  intros H0 H1 Hm a st Ha. apply Hm in Ha as (Hn & conn & -> & w & w' & Hw & Hc & Hw'). split; [done|].
  exists conn. split; [done|]. exists w, w'. split_and!; [by etrans|done|by etrans].
Qed.

Lemma put_back_checked nodes l s s' w0 : Forall (fun x => x.1 ∈ nodes) l -> history w0 (world s) ->
  all_checked (core_params s) w0 (world s) nodes (conn_map s) -> put_back l s = Return (Ok ()) s' ->
  all_checked (core_params s') w0 (world s') nodes (conn_map s') /\ core_slots s' = core_slots s /\
  core_params s' = core_params s.
Proof.
  intros Hl. revert s. induction Hl as [|[a o] l Ha Hl IH]; intros s Hh Hs; cbn [put_back]; [by intros [= <-]|].
  intros [(r & s1 & E1 & E2)|(e & E1 & ?)]%bind_inv; [|done].
  pose proof (walks_attempt _ (walks_get_or_create a o) _ _ _ E1) as [Hh1 Hp1].
  pose proof (network_attempt _ (network_get_or_create a o) _ _ _ E1) as [w ->]. cbn [world with_world] in Hh1.
  pose proof (all_checked_later _ _ _ _ _ _ _ (rtc_refl _ _) Hh1 Hs) as Hs1.
  destruct r as [conn|err].
  - rewrite bind_modify in E2. apply IH in E2; [done|by etrans|].
    simpl. apply map_Forall_insert_2; [|exact Hs1]. split; [done|]. exists conn. split; [done|].
    unfold attempt in E1. destruct (get_or_create_conn a o s) as [r1 s2| |] eqn:E; [|done..]. injection E1 as -> ->.
    apply get_or_create_checked in E as (w1 & w2 & H1 & Hc & H2). exists w1, w2. split_and!; [by etrans|done|done].
  - apply (bind_inv (mret ())) in E2 as [([] & s2 & [= <-] & E2)|(? & ? & _)]; [|done].
    apply IH in E2; [done|by etrans|exact Hs1].
Qed.

Lemma take_all nodes (m : gmap NodeAddress (ConnState C)) : map_Forall (fun a _ => a ∈ nodes) m -> (take_out nodes m).2 = ∅.
Proof.
  intros Hm. simpl. apply map_empty. intros a. destruct (foldr delete m nodes !! a) as [st|] eqn:E; [|done].
  assert (m !! a = Some st /\ a ∉ nodes) as [Ha Hn].
  { clear Hm. revert E. induction nodes as [|b nodes IH]; simpl; [set_solver|].
    intros [Hne E]%lookup_delete_Some. destruct (IH E) as [? ?]. set_solver. }
  by apply Hm in Ha.
Qed.

(** C23. After a successful refresh every entry of the connection map is for a
    node of the new topology and holds a connection that was checked in the
    course of the refresh: it answered a PING without an error, or it was opened
    anew to the address of the node and answered its first command (an error
    reply to which is not looked at: [connect_ignores_error_reply]).  No
    connection is kept unchecked, and no entry is left that looks as if a repair
    were in progress, which would keep later losses from being repaired. *)
Theorem refresh_slots_connected s s' : async_refresh_slots s = Return (Ok ()) s' ->
  all_checked (core_params s') (world s) (world s') (topology_nodes (core_slots s')) (conn_map s').
Proof.
  unfold async_refresh_slots. rewrite bind_gets.
  intros [([found err] & s2 & E1 & E)|(? & _ & ?)]%bind_inv; [|done].
  apply bind_inv in E as [([found' err'] & s3 & E2 & E)|(? & _ & ?)]; [|done].
  assert (history (world s) (world s3)) as Hh.
  { apply walks_query_connected in E1 as [H1 _]. etrans; [exact H1|].
    destruct found; [by injection E2 as _ _ <-; apply rtc_refl|]. rewrite bind_gets in E2.
    by apply walks_query_repaired in E2 as [H2 _]. }
  destruct found'; [|done]. cbn [negb] in E. rewrite bind_gets, !bind_modify in E. unfold id in E.
  set (nodes := topology_nodes (core_slots s3)) in *. set (s4 := with_conns _ _) in E.
  unfold refresh_connections_locked in E. rewrite bind_gets in E.
  destruct (take_out (hash_order nodes) (conn_map s4)) as [taken m'] eqn:Et. rewrite bind_modify in E.
  pose proof (hash_order_perm nodes) as Hp.
  assert (m' = ∅) as ->.
  { pose proof (take_all (hash_order nodes) (conn_map s4)) as Ht. rewrite Et in Ht. apply Ht.
    intros a st Ha. unfold s4 in Ha. simpl in Ha. apply map_lookup_filter_Some in Ha as [_ Ha]. by rewrite Hp. }
  apply (put_back_checked nodes _ _ _ (world s)) in E as (Hc & Hs & _).
  - rewrite Hs. simpl. done.
  - unfold take_out in Et. injection Et as <- _. apply Forall_forall. intros x Hx.
    rewrite arrival_order_perm in Hx. apply list_elem_of_fmap in Hx as (a & -> & Ha). simpl. by rewrite <- Hp.
  - done.
  - simpl. apply map_Forall_empty.
Qed.
End refresh.

(** ** Repairing a connection *)

Lemma args_iter_no_cursor d off l (l' : list bytes) : args_iter_go d off l = Some (map Simple l') -> Cursor ∉ l.
Proof.
  revert off l'. induction l as [|[e|] l IH]; intros off l'; [set_solver|..]; simpl.
  - destruct (slice d off e) as [x|]; simpl; [|done]. destruct (args_iter_go d e l) as [xs|] eqn:E; simpl; [|done].
    destruct l' as [|y l']; simpl; [done|]. intros [= _ ->]. apply IH in E. set_solver.
  - destruct (args_iter_go d off l); simpl; [|done]. by destruct l'.
Qed.

Section repair.
Context `{BP : BuildProfile} `{HO : HashOrder} `{AO : ArrivalOrder} `{CR : Crc16} `{RR : RandRange}.
Context `{ED : ErrorDisplay}.
Context {S : Type} `{RS : !ReadRoutingStrategy S} `{!ReadRoutingStrategyLaws S} {C W : Type} `{AC : AsyncConnect C W}.
Abbreviation Core := (Core (S := S) (C := C) (W := W)).
Implicit Types (s : Core).

(** Operations that return, with an outcome and a state as described. *)
Definition returns {A} (m : action Core A) (s : Core) (Q : result RedisError A -> Core -> Prop) : Prop :=
  exists r s', m s = Return r s' /\ Q r s'.
(** Only what is not part of the connection map has changed. *)
Definition same_conns (s s' : Core) : Prop :=
  conn_map s' = conn_map s /\ core_params s' = core_params s /\ core_slots s' = core_slots s.

Lemma subscription_block name channels (cs : list Cmd) c : bs name <> [] ->
  (if decide (channels = ∅) then cs = []
   else exists c l, cs = [c] /\ cmd_ok c /\ args_iter c = Simple (bs name) :: map Simple l /\
     list_to_set (C := gset bytes) l = channels) -> c ∈ cs -> is_Some (for_routable c).
Proof.
  intros Hn. case_decide; [intros ->; set_solver|]. intros (c' & l & -> & Hok & Hi & _) ->%list_elem_of_singleton.
  pose proof (cmd_ok_args_iter c' Hok) as Hc. rewrite Hi in Hc.
  assert (Cursor ∉ args c') as Hcur by (by apply (args_iter_no_cursor (data c') 0 (args c') (bs name :: l))).
  destruct (presents_cmd c' Hok Hcur) as (l' & _ & Hp); [rewrite Hi; simpl; congruence|]. by eapply for_routable_total.
Qed.

Lemma subscription_cmds_routable s : exists cs,
  subscription_cmds s = Return (Ok cs) s /\ Forall (fun c => is_Some (for_routable c)) cs.
Proof.
  unfold subscription_cmds. run_state. destruct (subscription_tracker s) as [t|]; [|by exists []].
  unfold get_subscription_pipeline.
  destruct (add_subscriptions_cmd Pipeline_new "SUBSCRIBE" (subscriptions t)) as (p1 & c1 & -> & E1 & Hc1).
  destruct (add_subscriptions_cmd p1 "SSUBSCRIBE" (s_subscriptions t)) as (p2 & c2 & -> & E2 & Hc2).
  destruct (add_subscriptions_cmd p2 "PSUBSCRIBE" (p_subscriptions t)) as (p3 & c3 & -> & E3 & Hc3).
  exists (commands p3). split; [done|]. rewrite E3, E2, E1. cbn [Pipeline_new commands app].
  rewrite !Forall_app, !Forall_forall. split_and!; intros c Hc.
  - by apply (subscription_block "SUBSCRIBE" (subscriptions t) c1).
  - by apply (subscription_block "SSUBSCRIBE" (s_subscriptions t) c2).
  - by apply (subscription_block "PSUBSCRIBE" (p_subscriptions t) c3).
Qed.

Lemma preferred_node_returns route s : exists oa s', preferred_node route s = Return (Ok oa) s' /\ same_conns s s'.
Proof.
  unfold preferred_node, slot_addr_for_route. run_state. unfold id. destruct (srm_get _ _) as [x|]; simpl; [|by eexists _, _].
  destruct (slot_addr_chooses x (route_slot route) (route_slot_addr route) (core_strategy s) (core_rng s))
    as (a & st & g & -> & _). run_state. by eexists _, _.
Qed.

Lemma internal_request_returns c info s : exists r s', internal_request c info s = Return (Ok r) s' /\ same_conns s s'.
Proof.
  unfold internal_request. run_state. unfold id.
  assert (is_Some (internal_routing (C := C) info (core_rng s))) as [[routing g] ->].
  { destruct info as [[]|]; simpl; try by eexists. unfold random_primary, random_slot.
    destruct (random_range_nonempty 0 SLOT_SIZE (core_rng s)) as (x & g' & ->); [done|]. by eexists. }
  simpl. run_state. by eexists _, _.
Qed.

Lemma same_conns_trans s1 s2 s3 : same_conns s1 s2 -> same_conns s2 s3 -> same_conns s1 s3.
Proof. unfold same_conns. naive_solver congruence. Qed.

Lemma resubscribe_some_returns unlocked others a cs s : Forall (fun c => is_Some (for_routable c)) cs -> exists s',
  resubscribe_some unlocked others a cs s = Return (Ok ()) s' /\ same_conns s s'.
Proof.
  intros Hcs. revert s. induction Hcs as [|c cs [info Hc] Hcs IH]; intros s; cbn [resubscribe_some]; [by eexists|].
  unfold routing_or_random. rewrite Hc. simpl or_panic. cbv [mbind action_bind] in IH |- *. simpl.
  set (i := default (SingleNode Random) info).
  assert (exists b s1, (match i with
    | SingleNode (SpecificNode route) =>
        target ← (if unlocked then preferred_node route else mret None); mret (bool_decide (target = Some a))
    | _ => mret (negb others) end) s = Return (Ok b) s1 /\ same_conns s s1) as (b & s1 & E1 & H1).
  { destruct i as [[]|]; try by eexists _, _. destruct unlocked; [|by eexists _, _].
    destruct (preferred_node_returns route s) as (oa & s1 & E & Hs1). eexists _, s1. by rewrite (bind_ok _ _ _ _ _ E). }
  cbv [mbind action_bind] in E1. rewrite E1.
  assert (exists s2, (if b then r ← internal_request c i; modify (send_pending [r] 0) else mret ()) s1 =
    Return (Ok ()) s2 /\ same_conns s1 s2) as (s2 & E2 & H2).
  { destruct b; [|by eexists]. destruct (internal_request_returns c i s1) as (r & s2 & E & Hs2).
    rewrite (bind_ok _ _ _ _ _ E). by eexists. }
  cbv [mbind action_bind] in E2. rewrite E2. destruct (IH s2) as (s3 & E3 & H3). exists s3. split; [exact E3|].
  eauto using same_conns_trans.
Qed.

Lemma resubscribe_node_returns unlocked a s : exists s',
  resubscribe_node unlocked a s = Return (Ok ()) s' /\ same_conns s s'.
Proof.
  unfold resubscribe_node. run_state. destruct (subscription_cmds_routable s) as (cs & E & Hcs).
  rewrite (bind_ok _ _ _ _ _ E). by apply resubscribe_some_returns.
Qed.

(** Nodes may refuse, but connecting to them and asking them comes to an end. *)
Record responsive : Prop := {
  connect_returns info cfg w : exists r w', connect_with_config (C := C) (W := W) info cfg w = Return r w';
  request_returns (c : C) cm (w : W) : exists r w', async_req_packed_command c cm w = Return r w'
}.
Hypothesis Hresp : responsive.

Lemma over_returns {A} (m : action W A) s : (exists r w, m (world s) = Return r w) -> exists r w,
  over m s = Return r (with_world w s).
Proof. intros (r & w & E). unfold over. rewrite E. by eexists _, _. Qed.

Lemma connect_and_check_returns a s : exists r w, async_connect_and_check a s = Return r (with_world w s).
Proof.
  unfold async_connect_and_check. run_state.
  set (i := get_connection_info a (core_params s)). set (cfg := node_config a i (core_params s)).
  destruct (over_returns _ s (connect_returns Hresp i cfg (world s))) as (r & w & E).
  destruct r as [conn|e]; [rewrite (bind_ok _ _ _ _ _ E)|rewrite (bind_err _ _ _ _ _ E); by eexists _, _].
  match goal with |- context [over (async_req_packed_command conn ?cm)] =>
    destruct (over_returns _ (with_world w s) (request_returns Hresp conn cm w)) as (r & w' & E') end.
  destruct r as [v|e]; [rewrite (bind_ok _ _ _ _ _ E')|rewrite (bind_err _ _ _ _ _ E')]; by eexists _, w'.
Qed.

Lemma check_connection_returns c s : exists r w, async_check_connection c s = Return r (with_world w s).
Proof.
  unfold async_check_connection.
  destruct (over_returns _ s (request_returns Hresp c (skip_limit (cmd "PING")) (world s))) as (r & w & E).
  destruct r as [v|e]; [rewrite (bind_ok _ _ _ _ _ E)|rewrite (bind_err _ _ _ _ _ E); by eexists _, _].
  unfold lift, mbind, action_bind. destruct (extract_error v); by eexists _, w.
Qed.

Lemma get_or_create_returns a o s : exists r w, get_or_create_conn a o s = Return r (with_world w s).
Proof.
  unfold get_or_create_conn. destruct o as [c|]; [|apply connect_and_check_returns].
  destruct (check_connection_returns c s) as (r & w & E). rewrite (bind_attempt _ _ _ _ _ E). destruct r as [u|e].
  - by eexists (Ok c), w.
  - destruct (connect_and_check_returns a (with_world w s)) as (r & w' & ->). by eexists _, w'.
Qed.

(** The entries of the other nodes and the settings are left alone. *)
Definition only_entry (a : NodeAddress) s s' : Prop :=
  core_params s' = core_params s /\ forall b, b <> a -> conn_map s' !! b = conn_map s !! b.

Lemma reconnect_attempt_outcome unlocked n a s : exists ended s',
  reconnect_attempt unlocked n a s = Return (Ok ended) s' /\ only_entry a s s' /\
  (ended = true -> in_repair (conn_map s') a = false) /\
  (forall max, max_connection_attempts (core_params s) = Some max -> max < n -> ended = true).
Proof.
  unfold reconnect_attempt. run_state. unfold id. cbv zeta.
  assert (forall s', conn_map s' = delete a (conn_map s) -> core_params s' = core_params s -> only_entry a s s' /\
    in_repair (conn_map s') a = false) as Hdel.
  { intros s' E E'. unfold in_repair, only_entry. rewrite E, lookup_delete_eq. split; [|done]. split; [done|].
    intros b Hb. by rewrite lookup_delete_ne. }
  destruct (is_some_and (max_connection_attempts (core_params s)) _) eqn:Emax; [run_state; eexists true, _; split; [done|];
    destruct (Hdel (with_conns (delete a) s)) as [? ?]; done|].
  assert (forall max, max_connection_attempts (core_params s) = Some max -> max < n -> forall P : Prop, P) as Hm.
  { intros max E Hlt. rewrite E in Emax. simpl in Emax. lia. }
  destruct (is_some_and (conn_map s !! a) is_connected) eqn:Ec.
  { eexists true, s. split_and!; try done. intros _. unfold in_repair.
    by destruct (conn_map s !! a) as [[]|]. }
  case_bool_decide; cbn [negb]; [|run_state; eexists true, _; split; [done|];
    destruct (Hdel (with_conns (delete a) s)) as [? ?]; done].
  match goal with |- context [get_or_create_conn a ?o] =>
    destruct (get_or_create_returns a o s) as (r & w & E) end.
  rewrite (bind_attempt _ _ _ _ _ E). destruct r as [conn|e]; [|eexists false, _; split_and!; try done;
    intros max Hx Hlt; by apply (Hm max)].
  run_state. simpl. rewrite Ec. run_state.
  destruct (resubscribe_node_returns unlocked a (with_conns (insert a (Connected conn)) (with_world w s))) as (s' & E' & H1 & H2 & _).
  erewrite bind_ok by (rewrite bind_modify; exact E'). eexists true, s'. split_and!; try done.
  - split; [by rewrite H2|]. intros b Hb. rewrite H1. simpl. by rewrite lookup_insert_ne.
  - intros _. unfold in_repair. rewrite H1. simpl. by rewrite lookup_insert_eq.
Qed.

Lemma only_entry_trans a s1 s2 s3 : only_entry a s1 s2 -> only_entry a s2 s3 -> only_entry a s1 s3.
Proof.
  intros [E1 H1] [E2 H2]. split; [congruence|]. intros b Hb. by rewrite H2, H1.
Qed.

Lemma reconnect_run_ends max fuel unlocked n backoff a s : max_connection_attempts (core_params s) = Some max ->
  n <= max -> max - n < Z.of_nat fuel -> 50 <= backoff <= 1000 -> exists ws s',
  reconnect_run fuel unlocked n backoff a s = Return (Ok ws) s' /\ only_entry a s s' /\
  in_repair (conn_map s') a = false /\ Z.of_nat (length ws) <= max - n /\ Forall (fun t => 50 <= t <= 1000) ws.
Proof.
  revert n backoff s. induction fuel as [|fuel IH]; intros n backoff s Hmax Hn Hf Hb; [lia|]. cbn [reconnect_run].
  destruct (reconnect_attempt_outcome unlocked (n + 1) a s) as (ended & s1 & E & Ho & He & Hm).
  rewrite (bind_ok _ _ _ _ _ E). destruct ended.
  - eexists [], s1. split_and!; try done; [by apply He|simpl; lia].
  - assert (n + 1 <= max) by (destruct (decide (max < n + 1)); [by apply (Hm max) in Hmax|lia]).
    destruct (IH (n + 1) (next_backoff backoff) s1) as (ws & s' & E' & Ho' & He' & Hl & Hw);
      [by destruct Ho as [-> _]|done|lia|unfold next_backoff; lia|].
    rewrite (bind_ok _ _ _ _ _ E'). eexists (backoff :: ws), s'. split_and!; try done.
    + by eapply only_entry_trans.
    + simpl. lia.
    + by constructor.
Qed.

(** C21. The repair of a connection ends after at most [max_connection_attempts]
    attempts, with pauses between 50 milliseconds and one second; then the
    connection is there or its entry is gone, so the next loss of the node starts a
    new repair, and the entries of other nodes are untouched. A repair that is
    already in progress is left to itself. *)
Theorem reconnect_loop_ends max unlocked a s : max_connection_attempts (core_params s) = Some max -> 0 <= max ->
  exists ws s', reconnect_loop (Z.to_nat max + 1) unlocked a s = Return (Ok ws) s' /\ only_entry a s s' /\
    Z.of_nat (length ws) <= max /\ Forall (fun t => 50 <= t <= 1000) ws /\
    (if in_repair (conn_map s) a then s' = s else in_repair (conn_map s') a = false).
Proof.
  intros Hmax Hpos. unfold reconnect_loop, reconnect_begin.
  destruct (in_repair (conn_map s) a) eqn:Er.
  - erewrite bind_ok by (run_state; by rewrite Er). by eexists [], s.
  - erewrite bind_ok by (run_state; rewrite Er; by run_state).
    destruct (reconnect_run_ends max (Z.to_nat max + 1) unlocked 0 50 a (with_conns (fun m => mark_reconnecting m a) s))
      as (ws & s' & E & Ho & Hr & Hl & Hw); [done|lia|lia|lia|].
    exists ws, s'. split_and!; [exact E| |lia|done|done].
    apply (only_entry_trans _ _ (with_conns (fun m => mark_reconnecting m a) s)); [|done]. split; [done|].
    intros b Hb. simpl. unfold mark_reconnecting. by rewrite lookup_insert_ne.
Qed.
End repair.

(** ** Choosing a node *)

Section choice.
Context `{BP : BuildProfile} `{HO : HashOrder} `{AO : ArrivalOrder} `{CR : Crc16} `{RR : RandRange}.
Context `{ED : ErrorDisplay}.
Context {S : Type} `{RS : !ReadRoutingStrategy S} `{!ReadRoutingStrategyLaws S} {C W : Type} `{AC : AsyncConnect C W}.
Abbreviation Core := (Core (S := S) (C := C) (W := W)).
Implicit Types (s : Core).

Definition has_connection s (a : NodeAddress) (c : C) : Prop := conn_map s !! a = Some (Connected c).

(** The nodes of a shard that may answer a request on a route. *)
Definition acceptable (route : Route) (x : SlotAddrs) : list NodeAddress :=
  match route_slot_addr route with
  | Master => [primary x]
  | ReplicaOptional => SlotAddrs_into_iter x
  | ReplicaRequired => match replicas x with [] => [primary x] | l => l end
  end.

Lemma preferred_acceptable route s x : srm_get (slots (core_slots s)) (route_slot route) = Some x -> exists a s',
  preferred_node route s = Return (Ok (Some a)) s' /\ same_conns s s' /\ a ∈ acceptable route x.
Proof.
  intros Hx. unfold preferred_node, slot_addr_for_route. run_state. unfold id. rewrite Hx. simpl.
  destruct (slot_addr_chooses x (route_slot route) (route_slot_addr route) (core_strategy s) (core_rng s))
    as (a & st & g & -> & Hin & Hm & Hr). run_state. eexists a, _. split_and!; try done.
  unfold acceptable. destruct (route_slot_addr route); [apply list_elem_of_singleton; auto|done|].
  unfold SlotAddrs_into_iter in Hin. destruct (replicas x); [set_solver|]. by apply Hr.
Qed.

Lemma connected_lookup s a c : conn_map s !! a ≫= connected = Some c <-> has_connection s a c.
Proof. unfold has_connection. destruct (conn_map s !! a) as [[]|]; simpl; naive_solver. Qed.

Lemma random_connection_found s : (exists a c, has_connection s a c) -> exists a c s',
  async_random_connection s = Return (Ok (Some (a, c))) s' /\ same_conns s s' /\ has_connection s a c.
Proof.
  intros (a & c & Hac). unfold async_random_connection. run_state. unfold id.
  set (l := omap _ (hash_order (map_to_list (conn_map s)))).
  assert (forall b d, (b, d) ∈ l <-> has_connection s b d) as Hl.
  { intros b d. unfold l. rewrite list_elem_of_omap. split.
    - intros ([b' st] & Hin & Hc). rewrite hash_order_perm in Hin. apply elem_of_map_to_list in Hin.
      apply connected_lookup. rewrite fmap_Some in Hc. destruct Hc as (c' & Hc & [= -> ->]). by rewrite Hin.
    - intros Hb. exists (b, Connected d). split; [|done]. rewrite hash_order_perm. by apply elem_of_map_to_list. }
  destruct (choose_some l (core_rng s)) as ([b d] & g & E).
  { intros Hn. rewrite <- (Hl a c), Hn in Hac. by apply not_elem_of_nil in Hac. }
  rewrite E. run_state. eexists b, d, _. split_and!; [done..|]. apply Hl. by eapply choose_elem.
Qed.

Lemma first_connected_some (s : Core) l : (exists b c, b ∈ l /\ has_connection s b c) -> exists a c,
  first_connected (conn_map s) l = Some (a, c) /\ a ∈ l /\ has_connection s a c.
Proof.
  unfold first_connected. induction l as [|b l IH]; intros (b' & c' & Hin & Hc'); [set_solver|]. simpl.
  destruct (conn_map s !! b ≫= connected) as [c|] eqn:E; simpl.
  - exists b, c. split; [done|]. split; [by left|]. by apply connected_lookup.
  - apply elem_of_cons in Hin as [->|Hin]; [apply connected_lookup in Hc'; congruence|].
    destruct IH as (a & c & E' & Ha & Hc); [by exists b', c'|]. exists a, c. split; [done|]. split; [by right|done].
Qed.

Lemma first_connected_none (s : Core) l a c : first_connected (conn_map s) l = Some (a, c) -> has_connection s a c.
Proof.
  unfold first_connected. intros (x & Hx & Hc)%head_Some_elem_of%list_elem_of_omap.
  rewrite fmap_Some in Hc. destruct Hc as (c' & Hc & [= -> ->]). by apply connected_lookup.
Qed.

(** Unless no node is connected, a request for a slot is given a connection that is
    in order: one to a node of the shard that may answer it, if there is such a
    connection, and otherwise one to any node, which will redirect it. *)
Theorem get_connection_served route s : (exists a c, has_connection s a c) -> exists a c s',
  async_get_connection (ISpecificNode route) s = Return (Ok (a, c)) s' /\ same_conns s s' /\ has_connection s a c /\
  forall x, srm_get (slots (core_slots s)) (route_slot route) = Some x ->
    (exists b d, b ∈ acceptable route x /\ has_connection s b d) -> a ∈ acceptable route x.
Proof.
  intros Hsome. cbn [async_get_connection].
  destruct (srm_get (slots (core_slots s)) (route_slot route)) as [x|] eqn:Hx.
  - destruct (preferred_acceptable route s x Hx) as (a & s1 & E1 & Hs1 & Ha). rewrite (bind_ok _ _ _ _ _ E1). run_state.
    unfold id. cbn [mbind option_bind]. destruct Hs1 as (Em & Ep & Es). rewrite Em, Es.
    destruct (conn_map s !! a ≫= connected) as [c|] eqn:Ec; simpl.
    { exists a, c, s1. apply connected_lookup in Ec. split_and!; try done. intros x' [= <-] _. exact Ha. }
    destruct (first_connected (conn_map s) (shard_fallback_addrs (core_slots s) route)) as [[b d]|] eqn:Ef.
    { exists b, d, s1. split_and!; try done; [by eapply first_connected_none|]. intros x' [= <-] _.
      unfold first_connected in Ef. apply head_Some_elem_of, list_elem_of_omap in Ef as (b' & Hb' & Hc).
      rewrite fmap_Some in Hc. destruct Hc as (d' & Hc & [= -> ->]). unfold shard_fallback_addrs in Hb'. rewrite Hx in Hb'.
      unfold acceptable, SlotAddrs_into_iter. destruct (route_slot_addr route), (replicas x); set_solver. }
    destruct (random_connection_found s1) as (b & d & s2 & E2 & Hs2 & Hb).
    { unfold has_connection. by rewrite Em. }
    rewrite (bind_ok _ _ _ _ _ E2). exists b, d, s2. unfold has_connection in *. rewrite Em in Hb.
    split_and!; try done; [by apply (same_conns_trans s s1 s2)|]. intros x' [= <-] (b' & d' & Hb' & Hd').
    exfalso. destruct (decide (b' = a)) as [->|Hne]; [rewrite Hd' in Ec; done|].
    destruct (first_connected_some s (shard_fallback_addrs (core_slots s) route)) as (? & ? & ? & _); [|congruence].
    exists b', d'. split; [|done]. unfold shard_fallback_addrs. rewrite Hx. unfold acceptable, SlotAddrs_into_iter in *.
    destruct (route_slot_addr route), (replicas x); set_solver.
  - assert (preferred_node route s = Return (Ok None) s) as E1.
    { unfold preferred_node, slot_addr_for_route. run_state. unfold id. by rewrite Hx. }
    rewrite (bind_ok _ _ _ _ _ E1). run_state. unfold id. cbn [mbind option_bind].
    unfold shard_fallback_addrs. rewrite Hx. cbn [first_connected omap list_omap head].
    destruct (random_connection_found s Hsome) as (b & d & s2 & E2 & Hs2 & Hb).
    rewrite (bind_ok _ _ _ _ _ E2). by exists b, d, s2.
Qed.

(** ** Following a redirection *)

Definition redirection_line (ask : bool) (slot : Z) (b : NodeAddress) : bytes :=
  redirect_code ask ++ SP :: itoa slot ++ SP :: NodeAddress_display b.

Lemma requires_redirect ask rest : requires_action (err_parser (redirect_code ask ++ SP :: rest)) = true.
Proof. rewrite err_parser_detail by (destruct ask; vm_compute; set_solver). by destruct ask. Qed.

End choice.

(** ** Combining replies *)

Section combining.
Context `{BP : BuildProfile} `{HO : HashOrder} `{AO : ArrivalOrder}.

Definition plain (v : Value) : bool := match v with ServerErr _ => false | _ => true end.

Lemma first_nonempty_agrees (addrs : list NodeAddress) values : length addrs = length values ->
  Forall (fun v => plain v = true) values ->
  first_nonempty (map Ok values) true None = first_non_empty (map Ok (zip addrs values)) true None.
Proof.
  intros Hl Hv. revert addrs Hl. induction Hv as [|v values Hv Hvs IH]; intros [|a addrs] Hl; try done.
  simpl. injection Hl as Hl. destruct v; try done. by apply IH.
Qed.

Lemma node_results_agree (addrs : list NodeAddress) values :
  collect_results (map node_result (zip addrs (map Ok values))) =
  Ok (map (fun '(a, v) => (BulkString (NodeAddress_display a), v)) (zip addrs values)).
Proof. revert values. induction addrs as [|a addrs IH]; intros [|v values]; try done. simpl. by rewrite IH. Qed.

(** When all nodes answer, the asynchronous connection combines their replies to
    the same result as the synchronous one, for every policy that takes all of them
    into account. *)
Theorem async_sync_combine_agree await receivers values routing policy : receivers <> [] ->
  Forall2 (fun x v => await x.2 = Some (Ok (Response_Single v))) receivers values ->
  Forall (fun v => plain v = true) values -> policy <> Some OneSucceeded ->
  async_aggregate_results await receivers routing policy =
  aggregate_results routing policy (map Ok (zip receivers.*1 values)).
Proof.
  intros Hne Hr Hv Hp. unfold async_aggregate_results. destruct receivers as [|x receivers]; [done|].
  set (l := x :: receivers) in *.
  assert (mapM (fun '(_, channel) => convert_result (await channel)) l = Some (map Ok values)) as ->.
  { clear -Hr. induction Hr as [|[a ch] v l values E Hr IH]; [done|]. simpl in *. rewrite E, IH. done. }
  assert (length l.*1 = length values) as Hl by (rewrite length_fmap; by eapply Forall2_length).
  assert (map (fun r : result RedisError (NodeAddress * Value) => snd <$> r) (map Ok (zip l.*1 values)) = map Ok values) as Hs.
  { revert Hl. generalize l.*1. clear. intros l. revert l. induction values as [|v values IH]; intros [|a l] Hl; try done.
    simpl in *. f_equal. apply IH. lia. }
  cbn [mbind option_bind]. unfold aggregate_results, try_join_all. rewrite Hs, !collect_ok.
  assert (last values = snd <$> last (zip l.*1 values)) as Hlast.
  { rewrite <- fmap_last. f_equal. symmetry. apply (snd_zip l.*1 values). lia. }
  change (map fst l) with l.*1.
  destruct policy as [[]|]; try done; rewrite ?node_results_agree, ?collect_ok; cbn [mbind].
  all: try (simpl; by rewrite Hlast).
  all: try (f_equal; by apply first_nonempty_agrees).
Qed.
End combining.

(** ** Observations *)

Section observations.
Context `{BP : BuildProfile} `{HO : HashOrder} `{AO : ArrivalOrder} `{CR : Crc16} `{RR : RandRange}.
Context `{ED : ErrorDisplay}.
Context {S : Type} `{RS : !ReadRoutingStrategy S} {C W : Type} `{AC : AsyncConnect C W}.
Implicit Types (s : Core (S := S) (C := C) (W := W)).

(** A transaction of several commands that the server aborts (a nil reply to EXEC)
    makes the connection panic when subscriptions are tracked: the single reply is
    indexed with the position of every command. *)
Lemma aborted_transaction_panics `{DebugAssertions} p t c1 c2 cs s : transaction_mode p = true ->
  subscription_tracker s = Some t -> commands p = c1 :: c2 :: cs -> track_pipeline p [Nil] s = Panicked.
Proof.
  intros Hp Ht Hc. unfold track_pipeline. run_state. rewrite Ht, Hp, Hc. by destruct debug_assertions.
Qed.

(** A node that answers the first command on a new connection with an error, such as
    one that is still loading, is taken for connected. *)
Lemma connect_ignores_error_reply a e conn w w' s :
  connect_with_config (get_connection_info a (core_params s))
    (node_config a (get_connection_info a (core_params s)) (core_params s)) (world s) = Return (Ok conn) w ->
  (forall c, async_req_packed_command conn c w = Return (Ok (ServerErr e)) w') ->
  async_connect_and_check a s = Return (Ok conn) (with_world w' s).
Proof.
  intros Hc Hr. unfold async_connect_and_check. run_state.
  erewrite bind_ok by (unfold over; by rewrite Hc). erewrite bind_ok by (unfold over; simpl; by rewrite Hr). done.
Qed.
End observations.

(** ** An example *)

Module AsyncNodes.
Import TwoNodes.
#[local] Existing Instance checked.
#[local] Existing Instance insertion_order.
#[local] Existing Instance lowest.
#[local] Existing Instance lowest_range.
#[local] Existing Instance xmodem.
#[local] Instance no_display : ErrorDisplay := fun _ => [].
#[local] Instance in_order : ArrivalOrder := {| arrival_order A l := l; arrival_order_perm A l := reflexivity l |}.
#[local] Instance debug : DebugAssertions := true.
(** A connection is the address of its node, as in [TwoNodes]. *)
#[local] Instance async_nodes : AsyncConnect NodeAddress unit := {|
  connect_with_config i _ := lift (NodeAddress_of_addr (addr i));
  async_req_packed_command a c := mret (node_answer c a);
  async_req_packed_commands a p _ _ := mret (map (fun c => node_answer c a) (commands p))
|}.

Definition retrying : ClusterParams RandomReplicaStrategy :=
  params_with_tls (builder_params (builder_max_connection_attempts (ClusterClientBuilder_new []) 3)) None.
Definition with_only (m : gmap NodeAddress (ConnState NodeAddress)) : Core (S := RandomReplicaStrategy) (W := unit) :=
  with_conns (fun _ => m) (with_slot_map (from_slots two_ranges) (InnerCore_new [] retrying false (() : @rng lowest) ())).
Definition both : Core (S := RandomReplicaStrategy) (W := unit) := with_only {[n1 := Connected n1; n2 := Connected n2]}.

(** With a connection to the second node only, the part of an MSET for the first is
    left out, and the reply is still OK. *)
Definition mset : Cmd := Cmd.build (map (fun x => OpArg (bs x)) ["MSET"; "bar"; "1"; "foo"; "2"]).
Lemma missing_node_part_skipped :
  match for_routable mset with
  | Some (Some (MultiNode info policy)) =>
      match async_execute_on_multiple_nodes (fun _ => Some (Ok (Response_Single Okay))) mset info policy
              (with_only {[n2 := Connected n2]}) with
      | Return (Ok (Target_FanOut, r)) s =>
          r = Ok (Response_Single Okay) /\
          map (fun r => match req_cmd r with ArgCmd c _ => args_of c | _ => [] end) (outbox s) =
            [[bs "MSET"; bs "foo"; bs "2"]]
      | _ => False
      end
  | _ => False
  end.
Proof. vm_compute. split; reflexivity. Qed.

Lemma all_responsive : responsive (C := NodeAddress) (W := unit).
Proof. split; intros; by eexists _, _. Qed.

(** The first node is lost: the repair ends with a new connection to it. *)
Lemma reconnect_loop_ends_witness : exists ws s',
  reconnect_loop 4 true n1 (with_only {[n2 := Connected n2]}) = Return (Ok ws) s' /\
  in_repair (conn_map s') n1 = false /\ Z.of_nat (length ws) <= 3.
Proof.
  destruct (reconnect_loop_ends all_responsive 3 true n1 (with_only {[n2 := Connected n2]})) as (ws & s' & E & _ & Hl & _ & Hr);
    [reflexivity|lia|].
  exists ws, s'. split; [exact E|]. split; [exact Hr|exact Hl].
Defined.

Lemma get_connection_served_witness : exists a c s',
  async_get_connection (ISpecificNode {| route_slot := 9000; route_slot_addr := ReplicaOptional |}) both =
    Return (Ok (a, c)) s' /\ a = n2.
Proof.
  destruct (get_connection_served {| route_slot := 9000; route_slot_addr := ReplicaOptional |} both)
    as (a & c & s' & E & _ & _ & Ha).
  - exists n1, n1. vm_compute. reflexivity.
  - exists a, c, s'. split; [exact E|].
    specialize (Ha {| primary := n2; replicas := [] |} ltac:(vm_compute; reflexivity)).
    apply list_elem_of_singleton. apply Ha. exists n2, n2. split; [by left|vm_compute; reflexivity].
Defined.

Definition request0 : PendingRequest NodeAddress :=
  {| retry := 0; sender := External 0; req_cmd := ArgCmd (get_cmd "foo") (ISingleNode IRandom) |}.

Definition replies (i : nat) : option (result RedisError Response) :=
  match i with 0%nat => Some (Ok (Response_Single (Int 2))) | 1%nat => Some (Ok (Response_Single (Int 3))) | _ => None end.
Lemma async_sync_combine_agree_witness :
  async_aggregate_results replies [(n1, 0%nat); (n2, 1%nat)] AllMasters (Some (Aggregate Sum)) =
  aggregate_results AllMasters (Some (Aggregate Sum)) [Ok (n1, Int 2); Ok (n2, Int 3)].
Proof.
  apply (async_sync_combine_agree replies [(n1, 0%nat); (n2, 1%nat)] [Int 2; Int 3]).
  - discriminate.
  - repeat constructor.
  - repeat constructor.
  - discriminate.
Defined.


(** The second node has no connection yet. *)
Definition refreshed := async_refresh_slots (with_only {[n1 := Connected n1; n2 := Connecting]}).
Lemma refresh_slots_connected_witness :
  match refreshed with
  | Return (Ok _) s' => all_checked (core_params s') () (world s') (topology_nodes (core_slots s')) (conn_map s')
  | _ => False
  end.
Proof.
  assert (match refreshed with Return (Ok _) _ => true | _ => false end = true) as H by (vm_compute; reflexivity).
  destruct refreshed as [[[]|e] s'| |] eqn:E; [|discriminate H..].
  refine (refresh_slots_connected (with_only {[n1 := Connected n1; n2 := Connecting]}) s' _). exact E.
Defined.

Definition transfer : Pipeline :=
  with_commands Pipeline_new [get_cmd "foo"; cmd "PING"; write_arg (write_arg (cmd "SET") (bs "foo")) (bs "1")].
Lemma route_for_pipeline_correct_witness :
  route_for_pipeline transfer (() : @rng lowest) =
  Some (Ok (Some {| route_slot := 12182; route_slot_addr := Master |}), ()).
Proof.
  refine (eq_trans (route_for_pipeline_correct transfer (() : @rng lowest) _) _).
  - apply Forall_cons. split; [eexists; vm_compute; reflexivity|]. apply Forall_cons.
    split; [eexists; vm_compute; reflexivity|]. apply Forall_cons. split; [eexists; vm_compute; reflexivity|constructor].
  - vm_compute. reflexivity.
Defined.
End AsyncNodes.
