(* ===== verification/ClusterPush.v ===== *)
(** * Push messages and construction of the asynchronous cluster connection

    [addressed_push_sender.rs] and, of [async_connection/mod.rs], [new_inner], [new]
    and [new_pending]: every connection to a node hands its push messages, marked
    with the address of the node, to one channel; a task passes them on to the sender
    of the user and asks for a new connection where one was lost.

    The channel of push messages is unbounded; that of requests, which the task shares
    with the user's commands, holds 100 messages, and the task waits while it is full.
    A step is one action of a node, of the task, of the owner of the requests or of
    the user. *)

From S2P Require Import Prelude Text Errors Types Parser Codec Cmd Convert Pipeline Slots Routing Subscription Caching Effects.
From S2P Require Import ConnInfo Clients ClusterClient ClusterBuilder ClusterSync ClusterRequest ClusterInner ClusterAsync.

Record AddressedPushSender := { sender_address : NodeAddress }.
Definition AddressedPushSender_new (address : NodeAddress) : AddressedPushSender := {| sender_address := address |}.

(** A message of the channel of requests: that a node is to be connected again, or
    a command of the user. *)
Inductive Message := Message_Reconnect (a : NodeAddress) | Message_Command (n : nat).
Definition CHANNEL_SIZE : nat := 100.

(** The two channels, whether their other end is still there, the log of what was
    passed on, and what was taken by the other side. *)
Record Pushes := {
  push_channel : list (NodeAddress * PushInfo);
  push_receiver_alive : bool;
  message_channel : list Message;
  message_senders_alive : bool;
  external : option (list PushInfo);
  taken : list Message;
  (* the messages accepted, and those passed on with whether there were senders then *)
  accepted : list (NodeAddress * PushInfo);
  passed : list (bool * (NodeAddress * PushInfo))
}.

(** [AsyncPushSender for AddressedPushSender]; [Err] is [SendError]. *)
Definition addressed_send (sender : AddressedPushSender) (info : PushInfo) (s : Pushes) : result unit unit * Pushes :=
  if push_receiver_alive s then
    let m := (sender_address sender, info) in
    (Ok (), {| push_channel := push_channel s ++ [m]; push_receiver_alive := true;
               message_channel := message_channel s; message_senders_alive := message_senders_alive s;
               external := external s; taken := taken s; accepted := accepted s ++ [m]; passed := passed s |})
  else (Err (), s).

Definition is_disconnection (info : PushInfo) : bool := bool_decide (push_kind info = Disconnection).

(** One round of [reconnect_from_pushes_task]; [None] means that it waits, for a
    message or for room in the channel. *)
Definition forward_push (s : Pushes) : option Pushes :=
  match push_channel s with
  | [] => None
  | (addr, msg) :: rest =>
      if negb (push_receiver_alive s) then None else
      let reconnect := is_disconnection msg && message_senders_alive s in
      if reconnect && (CHANNEL_SIZE <=? length (message_channel s))%nat then None
      else Some
        {| push_channel := rest; push_receiver_alive := push_receiver_alive s;
           message_channel := message_channel s ++ (if reconnect then [Message_Reconnect addr] else []);
           message_senders_alive := message_senders_alive s;
           external := (fun l => l ++ [msg]) <$> external s; taken := taken s; accepted := accepted s;
           passed := passed s ++ [(message_senders_alive s, (addr, msg))] |}
  end.

(** The requests are forwarded to [ClusterConnInner] one at a time. *)
Definition take_message (s : Pushes) : option Pushes :=
  match message_channel s with
  | [] => None
  | m :: rest =>
      Some {| push_channel := push_channel s; push_receiver_alive := push_receiver_alive s;
              message_channel := rest; message_senders_alive := message_senders_alive s;
              external := external s; taken := taken s ++ [m]; accepted := accepted s; passed := passed s |}
  end.
(** A command of the user, which needs room in the channel, and the last user leaving. *)
Definition user_sends (n : nat) (s : Pushes) : option Pushes :=
  if message_senders_alive s && (length (message_channel s) <? CHANNEL_SIZE)%nat then
    Some {| push_channel := push_channel s; push_receiver_alive := push_receiver_alive s;
            message_channel := message_channel s ++ [Message_Command n];
            message_senders_alive := message_senders_alive s;
            external := external s; taken := taken s; accepted := accepted s; passed := passed s |}
  else None.
Definition users_gone (s : Pushes) : Pushes :=
  {| push_channel := push_channel s; push_receiver_alive := push_receiver_alive s;
     message_channel := message_channel s; message_senders_alive := false;
     external := external s; taken := taken s; accepted := accepted s; passed := passed s |}.

(** The stream of requests ends when the users are gone, and with it the task, which
    owns the receiver of push messages; what is left in its channel is not read. *)
Definition task_ends (s : Pushes) : option Pushes :=
  match message_channel s with
  | [] =>
      if message_senders_alive s then None
      else Some {| push_channel := push_channel s; push_receiver_alive := false; message_channel := [];
                   message_senders_alive := false; external := external s; taken := taken s;
                   accepted := accepted s; passed := passed s |}
  | _ :: _ => None
  end.

(** ** Construction *)

Record ClientSideState := {
  state_protocol : ProtocolVersion; state_overall_response_timeout : option Duration;
  state_cache_manager : option CacheConfig
}.

Definition Pushes_new (external_push_sender : bool) : Pushes :=
  {| push_channel := []; push_receiver_alive := true; message_channel := []; message_senders_alive := true;
     external := if external_push_sender then Some [] else None; taken := []; accepted := []; passed := [] |}.

Section new.
Context `{BP : BuildProfile} `{HO : HashOrder} `{AO : ArrivalOrder} `{CR : Crc16} `{RR : RandRange}.
Context {S : Type} {C W : Type}.

(** [cluster_params.async_push_sender.take()]. *)
Definition without_push_sender (p : ClusterParams S) : ClusterParams S :=
  {| cp_password := cp_password p; cp_username := cp_username p; read_routing_factory := read_routing_factory p;
     cp_tls := cp_tls p; retry_params := retry_params p; tls_params := tls_params p;
     connection_timeout := connection_timeout p; response_timeout := response_timeout p;
     cp_protocol := cp_protocol p; database_id := database_id p; async_push_sender := None;
     cp_tcp_settings := cp_tcp_settings p; async_dns_resolver := async_dns_resolver p;
     cp_cache_manager := cp_cache_manager p; credentials_provider := credentials_provider p;
     overall_response_timeout := overall_response_timeout p;
     connection_concurrency_limit := connection_concurrency_limit p;
     write_backpressure_boundary := write_backpressure_boundary p;
     node_address_map := node_address_map p; max_connection_attempts := max_connection_attempts p |}.

(** [new_inner]: the side of the user, the core, the channels, and whether the task
    that passes push messages on is there, which it is for RESP3. *)
Definition new_inner (nodes : list ConnectionInfo) (p : ClusterParams S) (g : rng) (w : W)
    : ClientSideState * Core (S := S) (C := C) (W := W) * Pushes * bool :=
  let protocol := default RESP2 (cp_protocol p) in
  let has_push_sender := bool_decide (is_Some (async_push_sender p)) in
  ({| state_protocol := protocol; state_overall_response_timeout := overall_response_timeout p;
      state_cache_manager := cp_cache_manager p |},
   InnerCore_new nodes (without_push_sender p) has_push_sender g w,
   Pushes_new has_push_sender, supports_resp3 protocol).
End new.

(** What [new] waits for: the result of the first connections, or that the task has
    gone ([None]). *)
Definition connection_made {A} (connect_result : option (result RedisError unit)) (connection : A)
    : result RedisError A :=
  match connect_result with
  | None => Err (redis_error_of Io "Cluster connection task were dropped")
  | Some (Err e) => Err e
  | Some (Ok _) => Ok connection
  end.

(** ** Steps *)

Section steps.
(** Whether the task is there. *)
Variable resp3 : bool.

Inductive push_step (s : Pushes) : Pushes -> Prop :=
| step_node sender info : push_step s (addressed_send sender info s).2
| step_task s' : resp3 = true -> forward_push s = Some s' -> push_step s s'
| step_inner s' : take_message s = Some s' -> push_step s s'
| step_user n s' : user_sends n s = Some s' -> push_step s s'
| step_gone : push_step s (users_gone s)
| step_ends s' : task_ends s = Some s' -> push_step s s'.

(** The nodes to be connected again. *)
Definition lost (l : list (bool * (NodeAddress * PushInfo))) : list NodeAddress :=
  omap (fun '(alive, (a, msg)) => if is_disconnection msg && alive then Some a else None) l.
Definition reconnects (l : list Message) : list NodeAddress :=
  omap (fun m => match m with Message_Reconnect a => Some a | _ => None end) l.

Record pushes_ok (e : bool) (s : Pushes) : Prop := {
  in_order : map snd (passed s) ++ push_channel s = accepted s;
  handed_over : external s = if e then Some (map (fun p => snd (snd p)) (passed s)) else None;
  asked_for : reconnects (taken s ++ message_channel s) = lost (passed s);
  bounded : (length (message_channel s) <= CHANNEL_SIZE)%nat;
  needs_task : resp3 = false -> passed s = []
}.

Lemma pushes_ok_new e : pushes_ok e (Pushes_new e).
Proof. split; simpl; [done|by destruct e|done|unfold CHANNEL_SIZE; lia|done]. Qed.

Lemma reconnects_app l k : reconnects (l ++ k) = reconnects l ++ reconnects k.
Proof. apply omap_app. Qed.
Lemma lost_app l k : lost (l ++ k) = lost l ++ lost k.
Proof. apply omap_app. Qed.

Lemma push_step_ok e s s' : pushes_ok e s -> push_step s s' -> pushes_ok e s'.
Proof.
  intros [Ho He Ha Hb Hn] Hs. destruct Hs as [sender info|s' Hr Hf|s' Hf|n s' Hf| |s' Hf].
  - unfold addressed_send. destruct (push_receiver_alive s); [|done]. split; simpl; try done. by rewrite app_assoc, Ho.
  - unfold forward_push in Hf. destruct (push_channel s) as [|[a msg] rest] eqn:Hc; [done|].
    destruct (push_receiver_alive s); cbn [negb] in Hf; [|done].
    destruct (is_disconnection msg && message_senders_alive s) eqn:Hd.
    + destruct (Nat.leb_spec CHANNEL_SIZE (length (message_channel s))); [done|]. simplify_eq/=. split; simpl.
      * rewrite map_app, <- app_assoc. simpl. done.
      * rewrite He. destruct e; [|done]. simpl. by rewrite map_app.
      * rewrite app_assoc, reconnects_app, Ha, lost_app. simpl. by rewrite Hd.
      * rewrite length_app. simpl. lia.
      * congruence.
    + simplify_eq/=. split; simpl.
      * rewrite map_app, <- app_assoc. simpl. done.
      * rewrite He. destruct e; [|done]. simpl. by rewrite map_app.
      * rewrite app_nil_r, Ha, lost_app. simpl. by rewrite Hd, app_nil_r.
      * by rewrite app_nil_r.
      * congruence.
  - unfold take_message in Hf. destruct (message_channel s) as [|m rest] eqn:Hc; [done|]. simplify_eq/=. split; simpl; try done.
    + by rewrite <- app_assoc.
    + lia.
  - unfold user_sends in Hf. destruct (_ && _) eqn:Hg; [|done]. simplify_eq/=.
    apply andb_true_iff in Hg as [_ Hl%Nat.ltb_lt]. split; simpl; try done.
    + rewrite app_assoc, reconnects_app. simpl. by rewrite app_nil_r.
    + rewrite length_app. simpl. lia.
  - by split.
  - unfold task_ends in Hf. destruct (message_channel s) eqn:Hc; [|done].
    destruct (message_senders_alive s); [done|]. simplify_eq/=. by split; rewrite ?Hc.
Qed.

(** C25. However nodes, the task, users and the owner of the requests take turns, push
    messages are passed on in the order in which the nodes sent them, none is lost or
    repeated, the sender of the user is given exactly those passed on, and for every
    disconnection among them, while the connection is in use, its node and no other
    is to be connected again, in the same order; the channel of requests never
    holds more than it can. *)
Theorem pushes_forwarded_once e s : rtc push_step (Pushes_new e) s ->
  map snd (passed s) ++ push_channel s = accepted s /\
  external s = (if e then Some (map (fun p => snd (snd p)) (passed s)) else None) /\
  reconnects (taken s ++ message_channel s) = lost (passed s) /\
  (length (message_channel s) <= CHANNEL_SIZE)%nat /\
  (* and nothing is passed on without RESP3 *)
  (resp3 = false -> passed s = []).
Proof.
  intros Hr. assert (pushes_ok e s) as [H1 H2 H3 H4 H5]; [|done].
  pose proof (pushes_ok_new e) as Hn. induction Hr as [|s s1 s2 Hs Hr IH]; [done|].
  apply IH. by eapply push_step_ok.
Qed.

(** The task does not get stuck: while there are messages it can make a step, or the
    owner of the requests can make room. *)
Lemma push_progress s : resp3 = true -> push_receiver_alive s = true -> push_channel s <> [] -> exists s', push_step s s' /\
  (length (push_channel s') < length (push_channel s) \/ length (message_channel s') < length (message_channel s))%nat.
Proof.
  intros Hr Hp Hc. destruct (forward_push s) as [s'|] eqn:Hf.
  - exists s'. split; [by apply step_task|]. left. unfold forward_push in Hf.
    destruct (push_channel s) as [|[a msg] rest]; [done|]. rewrite Hp in Hf. cbn [negb] in Hf.
    destruct (_ && (_ <=? _)%nat); [done|]. simplify_eq/=. lia.
  - unfold forward_push in Hf. destruct (push_channel s) as [|[a msg] rest]; [done|]. rewrite Hp in Hf. cbn [negb] in Hf.
    destruct (_ && (_ <=? _)%nat) eqn:Hg; [|done]. apply andb_true_iff in Hg as [_ Hg%Nat.leb_le].
    destruct (message_channel s) as [|m l] eqn:Hm; [simpl in Hg; unfold CHANNEL_SIZE in Hg; lia|].
    destruct (take_message s) as [s'|] eqn:Ht; unfold take_message in Ht; rewrite Hm in Ht; [|done].
    exists s'. split; [apply step_inner; unfold take_message; by rewrite Hm|]. right. simplify_eq/=. lia.
Qed.
End steps.

(** ** An example *)

Definition lost_node : NodeAddress := NodeAddress_new (bs "10.0.0.1") 6379.
(** A node reports that its connection is lost and the task passes that on. *)
Definition after_loss : option Pushes :=
  forward_push (addressed_send (AddressedPushSender_new lost_node) PushInfo_disconnect (Pushes_new true)).2.
Lemma pushes_forwarded_once_witness : exists s, after_loss = Some s /\
  external s = Some [PushInfo_disconnect] /\ reconnects (message_channel s) = [lost_node].
Proof.
  destruct after_loss as [s|] eqn:Hs; [|by vm_compute in Hs]. exists s. split; [reflexivity|].
  destruct (pushes_forwarded_once true true s) as (_ & He & Hr & _).
  - eapply rtc_l; [apply (step_node true _ (AddressedPushSender_new lost_node) PushInfo_disconnect)|].
    eapply rtc_l; [|apply rtc_refl]. apply step_task; [reflexivity|exact Hs].
  - unfold after_loss in Hs. vm_compute in Hs. injection Hs as <-. split; [exact He|exact Hr].
Defined.
